(* ===== verification/_CoqProject ===== *)
-Q . S2P
Prelude.v
Varint.v
FlowQueue.v
FlowSystem.v
FlowInv.v
FlowProps.v
FlowFlush.v
FlowWitness.v
GoStrings.v
GoText.v
GoNet.v
GoNetFacts.v
NetUtils.v
Reference.v
Entity.v
EntityFacts.v
Endpoints.v
EndpointParse.v
EndpointFacts.v
EndpointMatch.v
Profile.v
ProfileFacts.v
Connection.v
Firewall.v
EntityView.v
FirewallPolicy.v
FirewallFacts.v
FirewallProps.v
DbRecord.v
Database.v
DatabaseFacts.v
NameRecords.v
DatabaseProps.v
FilterIndex.v
FilterDecode.v
FilterLists.v
FilterListsProps.v
GoNum.v
NavMap.v
NavReach.v
NavRoutes.v
NavProps.v
Query.v
QueryLex.v
QueryFacts.v
QueryProps.v
DecisionFrame.v
Packets.v
Conns.v
Gather.v
Tunnel.v
Handlers.v
Dispatch.v
PacketFacts.v
TunnelFacts.v
PacketSystem.v
PacketProps.v
ConnProps.v
SpnWire.v
SpnSession.v
Crane.v
CraneFacts.v
CraneSystem.v
CraneProps.v
Terminal.v
TerminalFacts.v
TerminalSystem.v
TerminalProps.v
Resolvers.v
ResolverSetup.v
RRCache.v
Resolve.v
ResolverProps.v
NameStore.v
ResolveProps.v
Dedupe.v
DnsFilter.v
DnsFilterProps.v
Nameserver.v
NameserverProps.v
