(* ===== verification/Prelude.v ===== *)
(** * Portmaster verification library (root)

    Portmaster is an application firewall written in Go: it decides for every
    connection of the machine whether it is accepted, using the rules and settings of
    the profile of the process, filter lists and location data, and it can send
    connections through the SPN, its onion-like relay network.  This library models
    parts of the program as Rocq functions and proves what makes them correct.

    ** Files and code

    Foundations:
    - [Prelude]: record update ([r <| f := v |>]), results of Go calls ([outcome]),
      machine integers, lemmas and hints shared by all files.
    - [GoStrings], [GoText], [GoNet], [GoNetFacts]: what the code uses of the Go
      packages strings, strconv and net; a string is the list of its bytes, an IP the
      list of its 4 or 16 bytes.
    - [Varint]: interface to the third-party varint package with its laws and an
      instance (LEB128).

    Connection decisions (service/firewall, service/profile, service/intel):
    - [NetUtils] (network/netutils): IP scopes, broadcast addresses, domain names.
    - [Reference] (network/reference): names of protocols and ports.
    - [Entity], [EntityFacts] (intel/entity.go): the remote side of a connection, with
      its location and the filter lists it is on, loaded on demand.
    - [Endpoints], [EndpointParse], [EndpointFacts], [EndpointMatch]
      (profile/endpoints): the rules of a profile, their text form and matching.
    - [Profile], [ProfileFacts] (base/config/perspective.go, profile/profile.go,
      profile-layered.go): settings of a profile, layered over others and the global
      ones, with closures that cache values by revision.
    - [Connection] (network/connection.go, status.go, multicast.go): verdicts.
    - [Firewall] (firewall/master.go, bypassing.go, prompt.go, preauth.go): the deciders
      and their composition, in a state monad whose errors are panics.
    - [EntityView], [FirewallPolicy], [FirewallFacts], [FirewallProps]: the policy as a
      function of facts, and that the deciders implement it.

    Packet handling (service/firewall/packet_handler.go, tunnel.go, inspection;
    service/network):
    - [DecisionFrame]: what a decision leaves alone: the parts of a connection that the
      deciders never write.
    - [Packets] (network/packet): packets, their data, verdict calls and identifiers.
    - [Conns] (network/connection.go, connection_store.go, metrics.go, connection
      handler and queues): connection objects on a heap, the tables that refer to them,
      saving and deletion, and the monad of the handlers.
    - [Gather] (connection.go, firewall handlers): the data of new connections and the
      interface [PacketEnv] to what the handlers ask of the system.
    - [Tunnel] (firewall/tunnel.go, network/connection.go): which connections go through
      the SPN, and with which options.
    - [Handlers] (packet_handler.go, inspection/inspection.go): the verdict on a packet,
      filtering, ICMP, gateways, inspection.
    - [Dispatch] (packet_handler.go, connection_handler.go, clean.go): the first checks of
      a packet, the queue and worker of each connection, re-evaluation, bandwidth, the
      cleaner.
    - [PacketFacts], [TunnelFacts], [PacketSystem], [PacketProps], [ConnProps]: the rules
      of the handlers, the whole as a step relation with its invariant, the theorems.

    Filter lists (service/intel/filterlists):
    - [FilterIndex] (index.go): categories of sources and their resolution.
    - [FilterDecode] (decoder.go): list files.
    - [FilterLists], [FilterListsProps] (database.go, bloom.go, lookup.go, updater.go,
      module.go): updates, bloom filters and lookups over the cache database.

    Database (base/database, service/resolver):
    - [DbRecord] (record/meta.go, key.go, base.go), [Database] (interface.go,
      interface_cache.go, controller.go): records as shared objects on a heap, a read
      cache and delayed writes, over storages that are maps.
    - [DatabaseFacts], [DatabaseProps]: an interface is a map, and where it is not.
    - [NameRecords] (resolver/namerecord.go, ipinfo.go): the DNS cache.
    - [Query] (base/database/query): conditions, their matching and text, the lexer and
      parser of queries; [QueryLex], [QueryFacts], [QueryProps]: printed queries parse.

    SPN flow control (spn/terminal/control_flow.go):
    - [FlowQueue]: one duplex flow queue, every atomic operation of its goroutines a
      step; [FlowSystem]: two queues joined by ordered links, as a step relation;
      [FlowInv]: the invariant; [FlowProps], [FlowFlush], [FlowWitness]: the theorems
      and runs they apply to.

    SPN connections (spn/docks, spn/ships, spn/terminal):
    - [SpnWire] (terminal/msg.go, msgtypes.go, errors.go, permission.go): messages, their
      bytes, error codes; the interface [Jess] to the third-party encryption.
    - [SpnSession] (terminal/session.go): limits on the operations of a peer; every access
      to a counter is a step.
    - [Crane] (docks/crane.go, crane_establish.go, crane_netstate.go, controller.go,
      ships/ship.go, mtu.go): loader, unloader and handler of a connection between hubs;
      [CraneFacts], [CraneSystem]: how shipments are taken apart, and two cranes joined by
      a stream of bytes; [CraneProps]: the theorems.
    - [Terminal] (terminal/terminal.go, operation.go, operation_base.go): sender, handler,
      operations and abandoning of a terminal; [TerminalFacts], [TerminalSystem]: what
      sending and receiving leave alone, and two terminals joined by flow control;
      [TerminalProps]: the invariant of stopping and the theorems.

    SPN map and routes (spn/navigator, spn/hub):
    - [GoNum]: float32 and package sort.
    - [NavMap] (state.go, pin.go, map.go, update.go, intel.go, costs.go and the data of
      spn/hub): hubs as pins on a heap, their states, lanes, costs and updates.
    - [NavReach]: [markReachable] gives shortest distances.
    - [NavRoutes] (options.go, findnearest.go, findroutes.go, route.go,
      routing-profiles.go): the matching of hubs and the search for routes.
    - [NavProps]: the routes that exist, and what the map and the search guarantee.

    DNS (service/resolver, service/nameserver, service/firewall/dns.go):
    - [Resolvers] (resolver.go, resolvers.go, scopes.go, resolve.go): errors, resolvers,
      queries and the resolvers a query may be given to; the interface [ResolverEnv] to
      the network's resolvers, URLs and public suffixes.
    - [ResolverSetup] (resolvers.go, config.go, failing.go, main.go): making resolvers of
      settings and of the network, their search domains and scopes.
    - [RRCache] (rrcache.go, block-detection.go): responses, their expiry and cleaning;
      [RRText]: records as text.
    - [Resolve] (resolve.go, failing.go, resolver-env.go, rrcache.go): asking resolvers in
      turn, failures, the environment's own names, and the cache behind the interface
      [NameDB]; servers and the clock are the [Timeline].
    - [Dedupe] (resolve.go): requests with the same question wait for one another; every
      section under the lock is a step.
    - [NameStore]: the name records of [Database] are a [NameDB] that keeps its laws
      ([NameDBSpec]).
    - [DnsFilter] (firewall/dns.go): what is filtered out of a response, and the domains
      that its addresses are attributed to.
    - [Nameserver] (nameserver.go, failing.go, response.go, nsutil.go, network/dns.go,
      intel/block_reason.go): a request from its checks to its reply and its record.
    - [ResolverProps], [ResolveProps], [DnsFilterProps], [NameserverProps]: the theorems.

    ** How the parts interact

    A connection ([Connection.Connection]) points to its entity and its process, the
    process to its layered profile.  The deciders of [Firewall] read options of the
    profile ([Profile.refresh] renews a cached option), match the rules of its layers
    ([Endpoints.Match]) against the entity, which loads its data from the environment
    ([Entity.IntelEnv]) while rules match, and set a verdict.  The lookups of the
    entity are those of [FilterLists] in the program; the entity is proved against any
    environment.  [FilterLists] and [NameRecords] are clients of [Database], with
    interfaces whose options are those of the code.  A packet ([Packets]) finds or
    makes its connection in the tables of [Conns] and waits in the connection's queue; the
    worker of the connection ([Dispatch.workerStep]) gathers data, asks
    [Firewall.decideOnConnection] for a verdict, then [Tunnel] whether the SPN is to be
    used, and gives the packet its verdict ([Handlers.issueVerdict]).  Handlers refer to
    connections by heap location, as the code does by pointer, and every section under the
    connection's lock is one step.  Messages of operations are collected by a [Terminal],
    given to its [FlowQueue], packed into shipments by the [Crane] below it and taken apart
    on the other side; each is proved for what the one above gives it, in the format of
    [SpnWire]: [crane_delivers] gives the ordered delivery the links of [FlowSystem] stand
    for, and [flow_exactly_once] the one [TerminalSystem] is about.  Pins of the map
    hold entities of
    their hubs, and hub policies are lists of endpoint rules matched against them.
    A DNS request is a connection too: [Nameserver.handleRequest] has the deciders judge
    it, resolves it ([Resolve.Resolve], which reads and writes the cache through [NameDB],
    whatever stands behind it), filters the response in the monad of the deciders
    ([DnsFilter]) and records the addresses ([NameRecords]) that later tell a connection
    its domain.

    ** What is shown

    - Decisions ([FirewallProps]): [decide_policy] gives the verdict of every connection
      in use as a table of the facts about it; [network_blocks_final],
      [accept_justified], [rules_decide] are what users rely on (blocked scopes beat
      rules, nothing is accepted without a reason, the first rule decides); that
      pre-authenticated ports are used once ([preauth_refines]) and a crash
      ([resolver_update_panics]) are shown beside them.
    - Packets ([PacketProps], [ConnProps]): [packet_fate] gives what becomes of the packet
      of a connection from the state of the connection, [verdict_enforced] that nothing
      passes without a verdict that says so, [one_verdict_per_packet] and [queues_served]
      that no packet gets two verdicts or waits without a worker,
      [reset_follows_policy] that re-evaluation gives the verdict of the policy,
      [connection_id_identifies] that identifiers tell connections apart,
      [dead_connections_removed], [bandwidth_conserved] and [metrics_count_connections]
      the cleaner and the counters; [dns_inspection_ignores_verdict] and
      [listener_leaves_unfiltered] two defects.
    - Rules and profiles: matching equals the first applicable rule
      ([EndpointMatch.match_spec]), text round trips ([EndpointFacts]), options are never
      stale ([ProfileFacts.options_current]).
    - Flow control ([FlowProps], [FlowFlush]): no overflow, exactly once and in order,
      credit is conserved, no lost wake-up, and no starvation for queues of 2 to 65535
      messages as long as none is empty, and what happens at other sizes.
    - SPN connections: messages get through cranes ([crane_delivers]) and terminals
      ([terminal_delivers]) whole and in order for any splitting, padding and
      encryption; IDs of terminals are free and found ([terminal_ids_free]);
      operations and terminals are stopped once, with at most one message delivered
      after that ([stops_once], [delivered_after_stop]); limits hold under concurrency ([session_limits]);
      sizes, padding and the order of the last messages are not what is meant.
    - Database ([DatabaseProps]): refinement of a map for every sequence of operations
      with any evictions; deletions served from the cache and other defects.  Queries
      ([QueryProps]) parse to checked conditions of the right types and survive printing
      unless they end in a group.
    - Filter lists: [update_lookup] says what lookups give after an update,
      [decode_file] is the round trip of list files, [resolve_ids] that resolution
      terminates and [category_cycle_diverges] when it does not.
    - Map and routes: [reachable_spec] (exactly the hubs that lanes lead to, with
      the least number of hops, also when lanes lead to hubs that were removed, whose
      marks are kept: [removed_pin_blocks]),
      [updates_end], [find_routes] (a route is found exactly when one exists,
      despite the pruning), [routes_usable] (no hub twice, only usable ones) and
      [remove_hub_lanes] (a lane that outlives its hub).
    - DNS: a blocked request reaches no resolver and no cache, and what is answered
      was made by the server or has only addresses that the profile allows, but for
      responses that are not filtered at all ([requests_filtered], [dns_filtered]);
      local names stay with the resolvers of their scope ([names_stay_in_scope]); a
      query is sent once each to resolvers in scope, and a response is fresh and
      kept for a day at most, or cached and still valid, also after waiting for
      another request ([resolve_served]); cached responses are found
      ([cached_response_found]); one registered request at a time resolves a
      question unless it exceeds its time, but those that waited in vain do so at once
      ([dedupe_exclusive], [unregistered_together]);
      search domains are few and, but for listed ones, no official public suffixes
      ([search_domains_bounded]); the second default server is never asked
      ([default_fallback_unused]).
    - Foundations: scopes equal the table of their comments, parsing addresses gives
      back what was formatted.

    ** Fuel and bounds

    Recursion that is not structural takes fuel: the resolution of categories
    ([FilterIndex], enough for the depth of the nesting, none for cycles), the decoding
    of files (one more than the bytes, every round reads one), formatting of decimals
    (twenty digits hold every 64-bit number), the search for reachable pins (one more
    than the pins: the pins on its stack differ) and for routes (one more than the most
    hops of the profile), the parser of queries (one more than the words left),
    the search for a terminal ID (one more than the terminals) and the handler of a
    shipment (one more than its bytes).  Integers whose width matters are [Z] with
    the wrap-around written out ([i64], [u16], ...); 32-bit counters of the flow queue
    are proved to stay in range.

    ** What is outside

    Third-party code and the operating system are parameters: classes such as [Varint],
    [UnicodeTables], [IntelEnv], [FirewallEnv], [GCache], [Ring], [VersionLib], [DSD],
    [FilterEnv], [Countries], [NavEnv], [QueryEnv], [PacketEnv], [VarintSize], [Jess],
    [CraneEnv], [TermEnv], [DNSLib], [ResolverEnv], [RRText], [Timeline] (the answers of
    servers) and [NameserverEnv], whose laws, where a theorem needs
    any, are documented behaviour of that code, with concrete instances in the
    witnesses.  Operations on float32 round each, as on amd64.  Locks are left out where every
    operation runs under one; goroutines are modelled where the code relies on their
    interleaving (the flow queue, the delayed writer, the handlers and workers of packets,
    the workers of cranes and terminals, sessions, requests for the same name) and are
    sequential elsewhere.
    Not modelled: the platforms' packet interception, finding and life cycle of
    processes, the resolvers' transports (plain, TCP, TLS, HTTPS, multicast), reverse
    lookups and the regular checks of failing resolvers, the listeners of the DNS server,
    custom lists and the location database, storage and migration of profiles, the
    network environment, connection history, downloads, the API and the service framework,
    and of the SPN the initialisation of cranes, the transports of ships, access, and the
    optimisation and measurements of the map.  They are mostly I/O or need the facts of the
    operating system. *)

From stdpp Require Export base tactics option list gmap sets strings numbers relations.
From Stdlib Require Export ZArith Lia.

#[global] Open Scope Z_scope.

(** ** Hint databases

    [pm] holds the lemmas that close routine side conditions of the components;
    [pm_rw] the rewrite rules used with [autorewrite]. *)
Create HintDb pm.
Create HintDb pm_rw.

(** ** Functional record update

    The Go code mutates struct fields in place.  [r <| f := v |>] is the struct
    [r] after [r.f = v].  A record type opts in with one [Eta] instance (its
    eta expansion); the setter of a field is computed from it. *)
Class Eta (R : Type) := eta : R -> R.

Class Setter {R T : Type} (f : R -> T) := set_field : (T -> T) -> R -> R.

Ltac build_setter f :=
  lazymatch goal with
  | |- @Setter ?R ?T _ =>
      let x := fresh "r" in
      let g := fresh "g" in
      refine (fun (g : T -> T) (x : R) => _);
      let inst := constr:(_ : Eta R) in
      let e := eval cbv beta in (ltac:(let i := eval red in (inst x) in exact i)) in
      let p := eval pattern (f x) in e in
      lazymatch p with
      | ?h _ => let t := eval cbv beta in (h (g (f x))) in exact t
      end
  end.

#[export] Hint Extern 1 (Setter ?f) => build_setter f : typeclass_instances.

Declare Scope record_set.
Delimit Scope record_set with rs.
Open Scope record_set.
Notation "r <| f := v |>" := (set_field (f := f) (fun _ => v) r)
  (at level 1, f at level 0, left associativity) : record_set.
Notation "r <| f ::= g |>" := (set_field (f := f) g r)
  (at level 1, f at level 0, left associativity) : record_set.
Arguments set_field {R T f Setter} g r /.

(** ** Outcomes of Go calls

    A Go call returns a value, returns a non-nil [error], or panics (index out
    of range, nil dereference).  [Ret], [Err] and [Panic] keep the three apart. *)
Inductive outcome (E A : Type) : Type :=
| Ret (a : A)
| Err (e : E)
| Panic.
Arguments Ret {E A} a.
Arguments Err {E A} e.
Arguments Panic {E A}.

#[export] Instance outcome_ret {E} : MRet (outcome E) := fun A => @Ret E A.
#[export] Instance outcome_bind {E} : MBind (outcome E) := fun A B f m =>
  match m with Ret a => f a | Err e => Err e | Panic => Panic end.

#[export] Instance outcome_eq_dec {E A} `{EqDecision E, EqDecision A} :
  EqDecision (outcome E A).
Proof. solve_decision. Defined.

(** Slice indexing [s[i]]: out of range panics. *)
Definition go_index {E A} (l : list A) (i : nat) : outcome E A :=
  match l !! i with Some x => Ret x | None => Panic end.

(** ** Machine integers

    Conversions to the fixed-width Go integer types, with wrap-around. *)
Definition u8 (z : Z) : Z := z mod 2 ^ 8.
Definition u16 (z : Z) : Z := z mod 2 ^ 16.
Definition u32 (z : Z) : Z := z mod 2 ^ 32.
Definition u64 (z : Z) : Z := z mod 2 ^ 64.
Definition i32 (z : Z) : Z := (z + 2 ^ 31) mod 2 ^ 32 - 2 ^ 31.
Definition i64 (z : Z) : Z := (z + 2 ^ 63) mod 2 ^ 64 - 2 ^ 63.

Lemma i32_id z : - 2 ^ 31 <= z < 2 ^ 31 -> i32 z = z.
Proof. intros H. unfold i32. rewrite Z.mod_small; lia. Qed.
Lemma i32_bounds z : - 2 ^ 31 <= i32 z < 2 ^ 31.
Proof. unfold i32. pose proof (Z.mod_pos_bound (z + 2 ^ 31) (2 ^ 32)). lia. Qed.
Lemma i64_id z : - 2 ^ 63 <= z < 2 ^ 63 -> i64 z = z.
Proof. intros H. unfold i64. rewrite Z.mod_small; lia. Qed.
Lemma u64_id z : 0 <= z < 2 ^ 64 -> u64 z = z.
Proof. intros H. unfold u64. by rewrite Z.mod_small. Qed.
Lemma u32_id z : 0 <= z < 2 ^ 32 -> u32 z = z.
Proof. intros H. unfold u32. by rewrite Z.mod_small. Qed.
#[export] Hint Resolve i32_id i64_id u64_id u32_id : pm.

(** ** Generic list lemmas *)

(** The first element of [l] on which [f] answers. *)
Fixpoint first_some {A B} (f : A -> option B) (l : list A) : option B :=
  match l with
  | [] => None
  | x :: l => match f x with Some y => Some y | None => first_some f l end
  end.

Lemma first_some_None {A B} (f : A -> option B) l :
  first_some f l = None <-> Forall (fun x => f x = None) l.
Proof.
  induction l as [|x l IH]; simpl; [by split|].
  rewrite Forall_cons, <- IH. destruct (f x); naive_solver.
Qed.

Lemma first_some_Some {A B} (f : A -> option B) l y :
  first_some f l = Some y <->
  exists l1 x l2, l = l1 ++ x :: l2 /\ f x = Some y /\ Forall (fun z => f z = None) l1.
Proof.
  induction l as [|x l IH]; simpl.
  - split; [done|]. intros (l1 & x & l2 & H & _). by destruct l1.
  - destruct (f x) as [z|] eqn:E.
    + split.
      * intros [= ->]. by exists [], x, l.
      * intros (l1 & x' & l2 & H & H1 & H2). destruct l1 as [|a l1]; simplify_eq/=; [congruence|].
        apply Forall_cons in H2 as [H2 _]. congruence.
    + rewrite IH. split.
      * intros (l1 & x' & l2 & -> & H1 & H2). exists (x :: l1), x', l2. auto.
      * intros (l1 & x' & l2 & H & H1 & H2). destruct l1 as [|a l1]; simplify_eq/=.
        apply Forall_cons in H2 as [_ H2]. eauto 10.
Qed.

Lemma first_some_app {A B} (f : A -> option B) l1 l2 :
  first_some f (l1 ++ l2) =
  match first_some f l1 with Some y => Some y | None => first_some f l2 end.
Proof. induction l1 as [|x l1 IH]; simpl; [done|]. by destruct (f x). Qed.

(** ** Invariants of transition systems *)
Section invariants.
Context {S : Type} (init : S -> Prop) (step : S -> S -> Prop).

Definition reachable (s : S) : Prop := exists s0, init s0 /\ rtc step s0 s.

Lemma reachable_invariant (Inv : S -> Prop) :
  (forall s, init s -> Inv s) ->
  (forall s s', Inv s -> step s s' -> Inv s') ->
  forall s, reachable s -> Inv s.
Proof.
  intros Hi Hs s (s0 & H0 & Hr). apply Hi in H0.
  induction Hr as [|x y z Hxy _ IH]; eauto.
Qed.

Lemma reachable_step s s' : reachable s -> step s s' -> reachable s'.
Proof. intros (s0 & H0 & Hr) Hs. exists s0. split; [done|]. by eapply rtc_r. Qed.
End invariants.

(** ** Tactics *)

(** Case analysis on the scrutinee of the innermost stuck [match] or [if]. *)
Ltac case_step :=
  match goal with
  | |- context [match ?x with _ => _ end] =>
      lazymatch x with context [match _ with _ => _ end] => fail | _ => destruct x eqn:? end
  | H : context [match ?x with _ => _ end] |- _ =>
      lazymatch x with context [match _ with _ => _ end] => fail | _ => destruct x eqn:? end
  end.

Ltac bool_prop :=
  repeat match goal with
  | H : _ && _ = true |- _ => apply andb_true_iff in H as [? ?]
  | H : _ || _ = false |- _ => apply orb_false_iff in H as [? ?]
  | H : negb _ = true |- _ => apply negb_true_iff in H
  | H : negb _ = false |- _ => apply negb_false_iff in H
  | H : (_ =? _) = true |- _ => apply Z.eqb_eq in H
  | H : (_ =? _) = false |- _ => apply Z.eqb_neq in H
  | H : (_ <? _) = true |- _ => apply Z.ltb_lt in H
  | H : (_ <? _) = false |- _ => apply Z.ltb_ge in H
  | H : (_ <=? _) = true |- _ => apply Z.leb_le in H
  | H : (_ <=? _) = false |- _ => apply Z.leb_gt in H
  | H : bool_decide _ = true |- _ => apply bool_decide_eq_true in H
  | H : bool_decide _ = false |- _ => apply bool_decide_eq_false in H
  end.
