(* ===== verification/Varint.v ===== *)
(** * Variable-length integers (interface)

    The Go code packs integers with [github.com/safing/structures/varint], a
    package that is not part of the repository.  [Varint] is the set of its
    operations the repository calls, [VarintLaws] the documented behaviour the
    code relies on, and [leb128] a concrete instance (unsigned LEB128, the
    encoding of Go's [encoding/binary]) used by the witnesses of the theorems
    that assume the laws. *)

From S2P Require Import Prelude.

(** Bytes are integers in [0, 256). *)
Abbreviation bytes := (list Z).

(** [PackN n] encodes an N-bit unsigned integer.  [UnpackN b] decodes one from
    the front of [b]: the value and the number of bytes read, or [None] for the
    error result (no complete encoding, or a value that does not fit N bits). *)
Class Varint := {
  Pack8 : Z -> bytes;
  Pack32 : Z -> bytes;
  Pack64 : Z -> bytes;
  Unpack8 : bytes -> option (Z * nat);
  Unpack16 : bytes -> option (Z * nat);
  Unpack32 : bytes -> option (Z * nat);
  Unpack64 : bytes -> option (Z * nat);
}.

Class VarintLaws (V : Varint) := {
  (** Decoding the front of a buffer that starts with an encoding gives the
      number back; the encodings of the narrower types agree with [Pack64]. *)
  unpack64_pack n rest : 0 <= n < 2 ^ 64 ->
    Unpack64 (take 10 (Pack64 n ++ rest)) = Some (n, length (Pack64 n));
  unpack32_pack n rest : 0 <= n < 2 ^ 32 ->
    Unpack32 (take 5 (Pack32 n ++ rest)) = Some (n, length (Pack32 n));
  unpack16_pack n rest : 0 <= n < 2 ^ 16 ->
    Unpack16 (take 3 (Pack64 n ++ rest)) = Some (n, length (Pack64 n));
  (** A value too large for the requested width is an error. *)
  unpack16_overflow n rest : 2 ^ 16 <= n < 2 ^ 64 ->
    Unpack16 (take 3 (Pack64 n ++ rest)) = None;
  unpack16_range b n k : Unpack16 b = Some (n, k) -> 0 <= n < 2 ^ 16;
  unpack64_range b n k : Unpack64 b = Some (n, k) ->
    0 <= n < 2 ^ 64 /\ (0 < k <= length b)%nat;
}.

(** ** A concrete instance: unsigned LEB128 *)
Module Leb.
Fixpoint enc (fuel : nat) (n : Z) : bytes :=
  match fuel with
  | O => [n]
  | S fuel => if n <? 128 then [n] else (n mod 128 + 128) :: enc fuel (n / 128)
  end.

Fixpoint dec (b : bytes) : option (Z * nat) :=
  match b with
  | [] => None
  | x :: b =>
      if x <? 128 then Some (Z.max 0 x, 1%nat)
      else match dec b with
           | Some (n, k) => Some (x - 128 + 128 * n, S k)
           | None => None
           end
  end.

Definition unpack (w : Z) (b : bytes) : option (Z * nat) :=
  match dec b with
  | Some (n, k) => if n <? 2 ^ w then Some (n, k) else None
  | None => None
  end.

Lemma dec_nonneg b n k : dec b = Some (n, k) -> 0 <= n /\ (0 < k <= length b)%nat.
Proof.
  revert n k. induction b as [|x b IH]; intros n k; simpl; [done|].
  destruct (x <? 128) eqn:E; [intros [= <- <-]; lia|].
  destruct (dec b) as [[n' k']|]; [|done].
  intros [= <- <-]. specialize (IH _ _ eq_refl). bool_prop. lia.
Qed.

Lemma dec_enc fuel n rest : 0 <= n < 128 ^ (Z.of_nat fuel + 1) ->
  dec (enc fuel n ++ rest) = Some (n, length (enc fuel n)).
Proof.
  revert n. induction fuel as [|fuel IH]; intros n Hn; simpl.
  - destruct (n <? 128) eqn:E; bool_prop; [|simpl in *; lia].
    by rewrite Z.max_r by lia.
  - destruct (n <? 128) eqn:E; simpl.
    { rewrite E. bool_prop. by rewrite Z.max_r by lia. }
    bool_prop. pose proof (Z.mod_pos_bound n 128).
    destruct (_ <? 128) eqn:E2; bool_prop; [lia|].
    rewrite IH; [do 2 f_equal; pose proof (Z.div_mod n 128); lia|].
    split; [apply Z.div_pos; lia|].
    apply Z.div_lt_upper_bound; [lia|].
    rewrite <- Z.pow_succ_r by lia.
    replace (Z.succ (Z.of_nat fuel + 1)) with (Z.of_nat (S fuel) + 1) by lia. lia.
Qed.

(** Ten groups of seven bits hold every 64-bit number. *)
Definition pack (n : Z) : bytes := enc 9 n.

Lemma length_enc_le fuel m n : 0 <= n < 128 ^ (Z.of_nat m + 1) -> (m <= fuel)%nat ->
  (length (enc fuel n) <= S m)%nat.
Proof.
  revert fuel n. induction m as [|m IH]; intros fuel n Hn Hf.
  - destruct fuel; simpl; [lia|]. destruct (n <? 128) eqn:E; simpl; [lia|]. bool_prop. lia.
  - destruct fuel as [|fuel]; [lia|]. simpl. destruct (n <? 128); simpl; [lia|].
    apply le_n_S, IH; [|lia]. split; [apply Z.div_pos; lia|].
    apply Z.div_lt_upper_bound; [lia|]. rewrite <- Z.pow_succ_r by lia.
    replace (Z.succ (Z.of_nat m + 1)) with (Z.of_nat (S m) + 1) by lia. lia.
Qed.

Lemma unpack_pack w m n rest :
  0 <= n < 2 ^ w -> 0 <= w -> 2 ^ w <= 128 ^ (Z.of_nat m + 1) -> (m <= 9)%nat ->
  unpack w (take (S m) (pack n ++ rest)) = Some (n, length (pack n)).
Proof.
  intros Hn Hw Hm Hm9. unfold unpack, pack.
  pose proof (length_enc_le 9 m n ltac:(lia) Hm9).
  rewrite take_app. rewrite (take_ge (enc 9 n)) by lia.
  rewrite dec_enc.
  - destruct (n <? 2 ^ w) eqn:E; [done|]. bool_prop. lia.
  - split; [lia|]. eapply Z.lt_le_trans; [apply Hn|]. etrans; [apply Hm|].
    apply Z.pow_le_mono_r; lia.
Qed.

(** A number of 17 bits or more: three groups either end the encoding with a
    value above the limit or do not end it at all. *)
Lemma unpack16_too_large n rest : 2 ^ 16 <= n < 2 ^ 64 ->
  unpack 16 (take 3 (pack n ++ rest)) = None.
Proof.
  intros Hn. unfold unpack, pack. cbn [enc].
  assert (512 <= n / 128) by (apply Z.div_le_lower_bound; lia).
  assert (4 <= n / 128 / 128) by (apply Z.div_le_lower_bound; lia).
  destruct (n <? 128) eqn:E1; bool_prop; [lia|].
  destruct (n / 128 <? 128) eqn:E2; bool_prop; [lia|].
  pose proof (Z.mod_pos_bound n 128). pose proof (Z.mod_pos_bound (n / 128) 128).
  pose proof (Z.mod_pos_bound (n / 128 / 128) 128).
  destruct (n / 128 / 128 <? 128) eqn:E3; cbn [app take dec].
  - destruct (n mod 128 + 128 <? 128) eqn:?; bool_prop; [lia|].
    destruct ((n / 128) mod 128 + 128 <? 128) eqn:?; bool_prop; [lia|].
    destruct (n / 128 / 128 <? 128) eqn:?; bool_prop; [|lia].
    rewrite Z.max_r by lia.
    destruct (_ <? 2 ^ 16) eqn:E; [|done]. bool_prop.
    pose proof (Z.div_mod n 128). pose proof (Z.div_mod (n / 128) 128). lia.
  - destruct (n mod 128 + 128 <? 128) eqn:?; bool_prop; [lia|].
    destruct ((n / 128) mod 128 + 128 <? 128) eqn:?; bool_prop; [lia|].
    destruct ((n / 128 / 128) mod 128 + 128 <? 128) eqn:?; bool_prop; [lia|]. done.
Qed.

Lemma unpack_range w b n k : unpack w b = Some (n, k) ->
  0 <= n < 2 ^ w /\ (0 < k <= length b)%nat.
Proof.
  unfold unpack. destruct (dec b) as [[n' k']|] eqn:E; [|done].
  destruct (n' <? 2 ^ w) eqn:E2; [|done]. intros [= <- <-].
  apply dec_nonneg in E. bool_prop. lia.
Qed.
End Leb.

Definition leb128 : Varint := {|
  Pack8 := Leb.pack; Pack32 := Leb.pack; Pack64 := Leb.pack;
  Unpack8 := Leb.unpack 8; Unpack16 := Leb.unpack 16;
  Unpack32 := Leb.unpack 32; Unpack64 := Leb.unpack 64;
|}.

Lemma leb128_laws : VarintLaws leb128.
Proof.
  constructor; intros; cbn [Pack8 Pack32 Pack64 Unpack8 Unpack16 Unpack32 Unpack64 leb128].
  - apply (Leb.unpack_pack 64 9); simpl; lia.
  - apply (Leb.unpack_pack 32 4); simpl; lia.
  - apply (Leb.unpack_pack 16 2); simpl; lia.
  - by apply Leb.unpack16_too_large.
  - by destruct (Leb.unpack_range _ _ _ _ H).
  - by apply Leb.unpack_range in H.
Qed.
