(* ===== verification/FlowQueue.v ===== *)
(** * Duplex flow queue (spn/terminal/control_flow.go)

    [DuplexFlowQueue] is the credit-based flow control of SPN terminals and
    connect operations.  Its state is written by four kinds of goroutines: the
    [FlowHandler] worker, the upstream goroutine that calls [Deliver], the
    consumer of [Receive], and the clients that call [Send] and [Flush].  The
    model gives each of the first three a program counter whose steps are the
    atomic operations of the Go code (an atomic load, add or store; a channel
    operation; one select case), so that every interleaving of the Go program is
    a sequence of [action]s.  [dfq_step] is executable; [sys_step] connects two
    queues by ordered links in both directions. *)

From S2P Require Import Prelude Varint.

(** ** Flow control types (FlowControlType, DefaultSize, configuration) *)
Inductive FlowControlType := FlowControlDefault | FlowControlDFQ | FlowControlNone
  | FlowControlOther (n : Z).

Definition defaultFlowControl : FlowControlType := FlowControlDFQ.

Definition DefaultSize (fct : FlowControlType) : Z :=
  let fct := match fct with FlowControlDefault => defaultFlowControl | _ => fct end in
  match fct with
  | FlowControlDFQ => 50000
  | FlowControlNone => 10000
  | FlowControlDefault | FlowControlOther _ => 0
  end.

Definition DefaultQueueSize : Z := 50000.
Definition MaxQueueSize : Z := 1000000.

(** [int32(float32(cap) * 0.75)]: for [0 <= cap <= MaxQueueSize] the product is
    exact in float32 (24 bits of mantissa), and the conversion truncates. *)
Definition forceReportThreshold (cap : Z) : Z := cap * 3 / 4.

(** ** Terminal options (spn/terminal/init.go) *)
Record TerminalOpts := mkOpts {
  Version : Z; Encrypt : bool; Padding : Z;
  FlowControl : FlowControlType; FlowControlSize : Z; UsePriorityDataMsgs : bool;
}.
#[export] Instance eta_TerminalOpts : Eta TerminalOpts := fun o =>
  mkOpts (Version o) (Encrypt o) (Padding o) (FlowControl o) (FlowControlSize o)
    (UsePriorityDataMsgs o).

Inductive optsError := ErrUnsupportedVersion | ErrUnknownFlowControl | ErrFlowControlSize.

Definition minSupportedTerminalVersion : Z := 1.
Definition maxSupportedTerminalVersion : Z := 1.

(** [opts.Check(useDefaultsForRequired)]: the options after the call and its
    error.  The defaults filled in before an error is found stay. *)
Definition Check_version (opts : TerminalOpts) (useDefaultsForRequired : bool) : TerminalOpts :=
  if (Version opts =? 0) && useDefaultsForRequired then opts <| Version := 1 |> else opts.
Definition Check_size (opts : TerminalOpts) (useDefaultsForRequired : bool) : TerminalOpts :=
  if (FlowControlSize opts =? 0) && useDefaultsForRequired
  then opts <| FlowControlSize := DefaultSize (FlowControl opts) |> else opts.
Definition CheckOpts (opts : TerminalOpts) (useDefaultsForRequired : bool)
    : TerminalOpts * option optsError :=
  let opts := Check_version opts useDefaultsForRequired in
  if (Version opts <? minSupportedTerminalVersion) || (maxSupportedTerminalVersion <? Version opts)
  then (opts, Some ErrUnsupportedVersion) else
  let checkSize opts :=
    let opts := Check_size opts useDefaultsForRequired in
    if (FlowControlSize opts <=? 0) || (MaxQueueSize <? FlowControlSize opts)
    then (opts, Some ErrFlowControlSize) else (opts, None) in
  match FlowControl opts with
  | FlowControlDefault => checkSize (opts <| FlowControl := defaultFlowControl |>)
  | FlowControlNone | FlowControlDFQ => checkSize opts
  | FlowControlOther _ => (opts, Some ErrUnknownFlowControl)
  end.

(** ** State *)

(** A message: its data and the high-priority mark of its scheduling unit. *)
Record Msg := mkMsg { mData : bytes; mHighPriority : bool }.
#[export] Instance eta_Msg : Eta Msg := fun m => mkMsg (mData m) (mHighPriority m).
#[export] Instance Msg_eq_dec : EqDecision Msg.
Proof. solve_decision. Defined.

(** Who asked for [reportableRecvSpace]: the handling of a message, or a forced
    report. *)
Inductive reportFor := RMsg (m : Msg) | RForced.

(** Position inside [reportableRecvSpace]. *)
Inductive reportStage :=
| RLoad                    (* about to load reportedSpace *)
| RLen (reported : Z)      (* about to read len(recvQueue) and compare *)
| RAdd (toReport : Z)      (* about to add toReport to reportedSpace *)
| RDone (toReport : Z).    (* returned; about to submit upstream *)

(** Position of the [FlowHandler] worker. *)
Inductive handlerPC :=
| HTop                             (* loop head / blocked in a select *)
| HWoken                           (* received from wakeSender *)
| HReport (w : reportFor) (st : reportStage)
| HSubmitted                       (* message submitted, before decrementSendSpace *)
| HFlushCheck                      (* before the check for a finished flush *)
| HStopped.                        (* returned *)

(** Position of the goroutine that calls [Deliver]. *)
Inductive deliverPC :=
| DIdle
| DAdd (n : Z) (m : Msg)           (* before addToSendSpace(n) *)
| DWake (m : Msg)                  (* before the send to wakeSender *)
| DData (m : Msg)                  (* before the check for data and the push *)
| DDecr                            (* pushed, before decrementReportedRecvSpace *)
| DForce.                          (* before the send to forceSpaceReport *)

(** Position of the goroutine that consumes [Receive]. *)
Inductive consumerPC :=
| CIdle                            (* not in Receive *)
| CForce                           (* shouldReportRecvSpace returned true *)
| CWait.                           (* holds the recvQueue channel *)

Record DFQ := mkDFQ {
  qcap : Z;                        (* capacity of both queues: queueSize *)
  sendQueue : list Msg;
  prioMsgs : Z;
  sendSpace : Z;
  wakeSender : bool;               (* the channel's buffer of one is full *)
  recvQueue : list Msg;
  reportedSpace : Z;
  forceSpaceReport : bool;         (* the channel's buffer of one is full *)
  hpc : handlerPC;
  sendSpaceDepleted : bool;
  flushFinished : option (list nat);  (* the stacked flush functions *)
  dpc : deliverPC;
  cpc : consumerPC;
  prioPending : nat;               (* Send calls that queued a high-priority message
                                      and did not store prioMsgs yet *)
  ctxDone : bool;
}.
#[export] Instance eta_DFQ : Eta DFQ := fun q =>
  mkDFQ (qcap q) (sendQueue q) (prioMsgs q) (sendSpace q) (wakeSender q) (recvQueue q)
    (reportedSpace q) (forceSpaceReport q) (hpc q) (sendSpaceDepleted q)
    (flushFinished q) (dpc q) (cpc q) (prioPending q) (ctxDone q).

(** [NewDuplexFlowQueue] *)
Definition NewDuplexFlowQueue (queueSize : Z) : DFQ := {|
  qcap := queueSize;
  sendQueue := []; prioMsgs := 0; sendSpace := i32 queueSize; wakeSender := false;
  recvQueue := []; reportedSpace := i32 queueSize; forceSpaceReport := false;
  hpc := HTop; sendSpaceDepleted := false; flushFinished := None;
  dpc := DIdle; cpc := CIdle; prioPending := 0; ctxDone := false;
|}.

(** ** Effects on the outside *)
Inductive error := ErrMalformedData | ErrQueueOverflow | ErrTimeout | ErrStopping.
#[export] Instance error_eq_dec : EqDecision error.
Proof. solve_decision. Defined.

Inductive event :=
| ESubmit (report : Z) (m : Msg)   (* submitUpstream of a message with its report prepended *)
| ESubmitReport (report : Z)       (* submitUpstream of a forced space report *)
| EPushed (m : Msg)                (* Deliver queued the message for receiving *)
| ETake (m : Msg)                  (* the consumer received the message *)
| EFinish (m : Msg)                (* msg.Finish() *)
| EFlushed (fs : list nat)         (* these flush functions were called *)
| EErr (e : error).                (* the call returned an error *)

(** ** Actions: one atomic operation each *)
Inductive action :=
(* FlowHandler *)
| AWake | ACheckSpace | AForced | ASendMsg | AReport | ASubmit | ADecrement | AFlushCheck
| AFlush (f : nat) | ADone | ADrainSend | ADrainRecv
(* Deliver *)
| ADeliver (m : option Msg) | AAddSpace | AWakeSender | APush | ADecrReported | ASetForce
(* Receive *)
| AReceive | AReceiveForce | ATake
(* Send *)
| ASend (m : Msg) | AStorePrio | ASendTimeout (m : Msg) | ASendStopping (m : Msg)
| ACancel.

Section dfq.
Context {V : Varint}.

(** The bytes on the wire: the report is prepended as a varint. *)
Definition wireMsg (report : Z) (m : Msg) : Msg :=
  m <| mData ::= fun d => Pack64 (u64 report) ++ d |>.

(** [msg.Data.GetNextN16()] *)
Definition GetNextN16 (d : bytes) : option (Z * bytes) :=
  match Unpack16 (take 3 d) with
  | Some (n, k) => Some (n, drop k d)
  | None => None
  end.

(** [msg.Data.HoldsData()] *)
Definition HoldsData (d : bytes) : bool := match d with [] => false | _ => true end.

Definition shouldReportRecvSpace (q : DFQ) : bool :=
  reportedSpace q <? forceReportThreshold (qcap q).

(** The value computed by [reportableRecvSpace] from the loaded reported space
    and the current queue length. *)
Definition toReport (q : DFQ) (reported : Z) : Z :=
  let n := i32 (qcap q - Z.of_nat (length (recvQueue q))) - reported in
  let n := i32 n in
  if n <=? 1 then 0 else n.

(** One operation of [reportableRecvSpace]. *)
Definition reportStep (q : DFQ) (w : reportFor) (st : reportStage) : option DFQ :=
  match st with
  | RLoad => Some (q <| hpc := HReport w (RLen (reportedSpace q)) |>)
  | RLen r =>
      let n := toReport q r in
      if n =? 0 then Some (q <| hpc := HReport w (RDone 0) |>)
      else Some (q <| hpc := HReport w (RAdd n) |>)
  | RAdd n => Some (q <| reportedSpace ::= fun x => i32 (x + n) |>
                      <| hpc := HReport w (RDone n) |>)
  | RDone _ => None
  end.

(** Taking a message from the send queue: priority accounting.  The wait for a
    processing slot has no effect on the queue. *)
Definition takeSendMsg (q : DFQ) : option DFQ :=
  match sendQueue q with
  | [] => None
  | m :: rest =>
      let remainingPrioMsgs := i32 (prioMsgs q - 1) in
      let m' := if 0 <=? remainingPrioMsgs then m <| mHighPriority := true |> else m in
      let prio := if (negb (0 <=? remainingPrioMsgs)) && (remainingPrioMsgs <? -30000)
                  then 0 else remainingPrioMsgs in
      Some (q <| sendQueue := rest |> <| prioMsgs := prio |>
              <| hpc := HReport (RMsg m') RLoad |>)
  end.

Definition handlerStep (a : action) (q : DFQ) : option (DFQ * list event) :=
  match a, hpc q with
  | AWake, HTop =>
      if sendSpaceDepleted q && wakeSender q
      then Some (q <| wakeSender := false |> <| hpc := HWoken |>, []) else None
  | ACheckSpace, HWoken =>
      if 0 <? sendSpace q
      then Some (q <| sendSpaceDepleted := false |> <| hpc := HTop |>, [])
      else Some (q <| hpc := HTop |>, [])
  | AForced, HTop =>
      if forceSpaceReport q
      then Some (q <| forceSpaceReport := false |> <| hpc := HReport RForced RLoad |>, [])
      else None
  | ASendMsg, HTop =>
      if sendSpaceDepleted q then None else
      q' ← takeSendMsg q; Some (q', [])
  | AReport, HReport w st => q' ← reportStep q w st; Some (q', [])
  | ASubmit, HReport (RMsg m) (RDone n) =>
      Some (q <| hpc := HSubmitted |>, [ESubmit n m])
  | ASubmit, HReport RForced (RDone n) =>
      Some (q <| hpc := HTop |>, if 0 <? n then [ESubmitReport n] else [])
  | ADecrement, HSubmitted =>
      let n := i32 (sendSpace q - 1) in
      Some (q <| sendSpace := n |>
              <| sendSpaceDepleted := (n <=? 0) || sendSpaceDepleted q |>
              <| hpc := HFlushCheck |>, [])
  | AFlushCheck, HFlushCheck =>
      match flushFinished q, sendQueue q with
      | Some fs, [] => Some (q <| flushFinished := None |> <| hpc := HTop |>, [EFlushed fs])
      | _, _ => Some (q <| hpc := HTop |>, [])
      end
  | AFlush f, HTop =>
      if sendSpaceDepleted q then None else
      match sendQueue q, flushFinished q with
      | [], _ => Some (q, [EFlushed [f]])
      | _, Some fs => Some (q <| flushFinished := Some (fs ++ [f]) |>, [])
      | _, None => Some (q <| flushFinished := Some [f] |>, [])
      end
  | ADone, HTop => if ctxDone q then Some (q <| hpc := HStopped |>, []) else None
  | ADrainSend, HStopped =>
      match sendQueue q with
      | m :: rest => Some (q <| sendQueue := rest |>, [EFinish m])
      | [] => None
      end
  | ADrainRecv, HStopped =>
      match recvQueue q with
      | m :: rest => Some (q <| recvQueue := rest |>, [EFinish m])
      | [] => None
      end
  | _, _ => None
  end.

Definition deliverStep (a : action) (q : DFQ) : option (DFQ * list event) :=
  match a, dpc q with
  | ADeliver None, DIdle => Some (q, [EErr ErrMalformedData])
  | ADeliver (Some m), DIdle =>
      match GetNextN16 (mData m) with
      | None => Some (q, [EFinish m; EErr ErrMalformedData])
      | Some (n, d) =>
          let m := m <| mData := d |> in
          if 0 <? n then Some (q <| dpc := DAdd n m |>, [])
          else Some (q <| dpc := DData m |>, [])
      end
  | AAddSpace, DAdd n m =>
      Some (q <| sendSpace ::= fun x => i32 (x + n) |> <| dpc := DWake m |>, [])
  | AWakeSender, DWake m => Some (q <| wakeSender := true |> <| dpc := DData m |>, [])
  | APush, DData m =>
      if negb (HoldsData (mData m)) then Some (q <| dpc := DIdle |>, [EFinish m])
      else if Z.of_nat (length (recvQueue q)) <? qcap q
      then Some (q <| recvQueue ::= fun l => l ++ [m] |> <| dpc := DDecr |>, [EPushed m])
      else Some (q <| dpc := DIdle |>, [EFinish m; EErr ErrQueueOverflow])
  | ADecrReported, DDecr =>
      let n := i32 (reportedSpace q - 1) in
      Some (q <| reportedSpace := n |>
              <| dpc := if n <? forceReportThreshold (qcap q) then DForce else DIdle |>, [])
  | ASetForce, DForce => Some (q <| forceSpaceReport := true |> <| dpc := DIdle |>, [])
  | _, _ => None
  end.

Definition receiveStep (a : action) (q : DFQ) : option (DFQ * list event) :=
  match a, cpc q with
  | AReceive, CIdle =>
      Some (q <| cpc := if shouldReportRecvSpace q then CForce else CWait |>, [])
  | AReceiveForce, CForce => Some (q <| forceSpaceReport := true |> <| cpc := CWait |>, [])
  | ATake, CWait =>
      match recvQueue q with
      | m :: rest => Some (q <| recvQueue := rest |> <| cpc := CIdle |>, [ETake m])
      | [] => None
      end
  | _, _ => None
  end.

Definition sendStep (a : action) (q : DFQ) : option (DFQ * list event) :=
  match a with
  | ASend m =>
      if Z.of_nat (length (sendQueue q)) <? qcap q
      then Some (q <| sendQueue ::= fun l => l ++ [m] |>
                   <| prioPending ::= fun n => if mHighPriority m then S n else n |>, [])
      else None
  | AStorePrio =>
      match prioPending q with
      | S n => Some (q <| prioMsgs := i32 (Z.of_nat (length (sendQueue q))) |>
                       <| prioPending := n |>, [])
      | O => None
      end
  | ASendTimeout m => Some (q, [EFinish m; EErr ErrTimeout])
  | ASendStopping m => if ctxDone q then Some (q, [EFinish m; EErr ErrStopping]) else None
  | ACancel => Some (q <| ctxDone := true |>, [])
  | _ => None
  end.

Definition dfq_step (a : action) (q : DFQ) : option (DFQ * list event) :=
  match a with
  | AWake | ACheckSpace | AForced | ASendMsg | AReport | ASubmit | ADecrement
  | AFlushCheck | AFlush _ | ADone | ADrainSend | ADrainRecv => handlerStep a q
  | ADeliver _ | AAddSpace | AWakeSender | APush | ADecrReported | ASetForce =>
      deliverStep a q
  | AReceive | AReceiveForce | ATake => receiveStep a q
  | ASend _ | AStorePrio | ASendTimeout _ | ASendStopping _ | ACancel => sendStep a q
  end.

(** [ReadyToSend]: whether the returned channel is readable at once. *)
Definition ReadyToSend (q : DFQ) : bool := 0 <? sendSpace q.
Definition RecvQueueLen (q : DFQ) : Z := Z.of_nat (length (recvQueue q)).
Definition SendQueueLen (q : DFQ) : Z := Z.of_nat (length (sendQueue q)).
End dfq.
