(* ===== verification/FlowSystem.v ===== *)
(** * Two connected flow queues

    The system formed by the two ends of a terminal: two [DFQ]s of the same
    size, joined by an ordered link in each direction.  The theorems state what
    the comments of control_flow.go promise: the receive queue never overflows,
    every message arrives once and in order, credit is conserved, no wake-up is
    lost and the sender is never left waiting once the receiver is idle. *)

From S2P Require Import Prelude Varint FlowQueue.

(** ** The system *)

(** What travels on a link: the space report and, unless the message is a forced
    report, the message it was prepended to. *)
Abbreviation item := (Z * option Msg)%type.

Record Link := mkLink {
  net : list item;        (* submitted upstream, not yet delivered *)
  sent : list Msg;        (* ghost: messages submitted so far *)
  leaked : Z;             (* ghost: submitted messages that carried no data *)
  pushed : list Msg;      (* ghost: messages queued by Deliver so far *)
  taken : list Msg;       (* ghost: messages received by the consumer so far *)
}.
#[export] Instance eta_Link : Eta Link := fun l =>
  mkLink (net l) (sent l) (leaked l) (pushed l) (taken l).
Definition emptyLink : Link := mkLink [] [] 0 [] [].

Record Sys := mkSys { me : DFQ; peer : DFQ; outL : Link; inL : Link }.
#[export] Instance eta_Sys : Eta Sys := fun s => mkSys (me s) (peer s) (outL s) (inL s).

Definition swap (s : Sys) : Sys := mkSys (peer s) (me s) (inL s) (outL s).
Definition initSys (cap : Z) : Sys :=
  mkSys (NewDuplexFlowQueue cap) (NewDuplexFlowQueue cap) emptyLink emptyLink.

Definition itemMsg (it : item) : Msg :=
  match it.2 with Some m => m | None => mkMsg [] false end.

Definition outEvent (e : event) (l : Link) : Link :=
  match e with
  | ESubmit n m =>
      l <| net ::= fun x => x ++ [(n, Some m)] |> <| sent ::= fun x => x ++ [m] |>
        <| leaked ::= fun x => if HoldsData (mData m) then x else x + 1 |>
  | ESubmitReport n => l <| net ::= fun x => x ++ [(n, None)] |>
  | _ => l
  end.
Definition inEvent (e : event) (l : Link) : Link :=
  match e with
  | EPushed m => l <| pushed ::= fun x => x ++ [m] |>
  | ETake m => l <| taken ::= fun x => x ++ [m] |>
  | _ => l
  end.

(** A local operation of one end, or the delivery of the next item to it. *)
Inductive sysAction := SLocal (a : action) | SDeliver.

Definition isDeliver (a : action) : bool :=
  match a with ADeliver _ => true | _ => false end.

Section system.
Context {V : Varint}.

Definition actMe (a : sysAction) (s : Sys) : option (Sys * list event) :=
  match a with
  | SLocal a =>
      if isDeliver a then None else
      '(q, es) ← dfq_step a (me s);
      Some (s <| me := q |>
              <| outL ::= fun l => foldl (fun l e => outEvent e l) l es |>
              <| inL ::= fun l => foldl (fun l e => inEvent e l) l es |>, es)
  | SDeliver =>
      match net (inL s) with
      | [] => None
      | it :: rest =>
          '(q, es) ← dfq_step (ADeliver (Some (wireMsg it.1 (itemMsg it)))) (me s);
          Some (s <| me := q |> <| inL ::= fun l => l <| net := rest |> |>, es)
      end
  end.

(** [true]: the first end acts; [false]: the second. *)
Definition sysExec (ba : bool * sysAction) (s : Sys) : option (Sys * list event) :=
  if ba.1 then actMe ba.2 s
  else '(s', es) ← actMe ba.2 (swap s); Some (swap s', es).

Definition sys_step (s s' : Sys) : Prop := exists ba es, sysExec ba s = Some (s', es).
Definition sys_init (cap : Z) (s : Sys) : Prop := s = initSys cap.

Fixpoint sysRun (l : list (bool * sysAction)) (s : Sys) : option Sys :=
  match l with
  | [] => Some s
  | ba :: l => '(s', _) ← sysExec ba s; sysRun l s'
  end.

Lemma sysRun_reachable l cap s s' :
  reachable (sys_init cap) sys_step s -> sysRun l s = Some s' ->
  reachable (sys_init cap) sys_step s'.
Proof.
  revert s. induction l as [|ba l IH]; simpl; intros s Hs Hr; simplify_eq; [done|].
  destruct (sysExec ba s) as [[s1 es]|] eqn:E; simplify_eq/=.
  eapply IH; [|done]. eapply reachable_step; [done|]. by exists ba, es.
Qed.
End system.

(** ** Counting what is in flight *)
Definition weightMsg (m : Msg) : Z := if HoldsData (mData m) then 1 else 0.
Definition weight (it : item) : Z := weightMsg (itemMsg it).
Definition sumZ (l : list Z) : Z := foldr Z.add 0 l.
Arguments sumZ : simpl never.
Lemma sumZ_nil : sumZ [] = 0.
Proof. done. Qed.
Lemma sumZ_cons x l : sumZ (x :: l) = x + sumZ l.
Proof. done. Qed.
Lemma sumZ_app l k : sumZ (l ++ k) = sumZ l + sumZ k.
Proof. induction l as [|x l IH]; [done|]. simpl. rewrite !sumZ_cons, IH. lia. Qed.
Lemma sumZ_nonneg l : Forall (fun x => 0 <= x) l -> 0 <= sumZ l.
Proof. induction 1; rewrite ?sumZ_cons; [done|lia]. Qed.

Definition pendingMsg (d : deliverPC) : option Msg :=
  match d with DAdd _ m | DWake m | DData m => Some m | _ => None end.
Definition pendingWeight (d : deliverPC) : Z :=
  match pendingMsg d with Some m => weightMsg m | None => 0 end.
Definition pendingCredit (d : deliverPC) : Z := match d with DAdd n _ => n | _ => 0 end.
Definition undecremented (d : deliverPC) : Z := match d with DDecr => 1 | _ => 0 end.
Definition unsubtracted (h : handlerPC) : Z := match h with HSubmitted => 1 | _ => 0 end.
Definition reportCredit (h : handlerPC) : Z :=
  match h with HReport _ (RDone n) => n | _ => 0 end.

(** Data messages of the direction [snd -> rcv], and credit on its way back. *)
Definition dataInFlight (fwd : Link) (rcv : DFQ) : Z :=
  sumZ (weight <$> net fwd) + pendingWeight (dpc rcv).
Definition creditInFlight (back : Link) (snd rcv : DFQ) : Z :=
  sumZ (net back).*1 + reportCredit (hpc rcv) + pendingCredit (dpc snd).

(** The messages of a list that carry data. *)
Definition holding (l : list Msg) : list Msg := filter (fun m => HoldsData (mData m) = true) l.
Lemma holding_app l k : holding (l ++ k) = holding l ++ holding k.
Proof. apply filter_app. Qed.
Lemma holding_single m : holding [m] = if HoldsData (mData m) then [m] else [].
Proof. unfold holding. cbn. by destruct (HoldsData (mData m)) eqn:E; case_decide. Qed.
Lemma holding_cons m l : holding (m :: l) = holding [m] ++ holding l.
Proof. apply (holding_app [m] l). Qed.
Arguments holding : simpl never.

(** ** The invariant of one direction *)
Definition forceComing (cap : Z) (rcv : DFQ) : Prop :=
  forceSpaceReport rcv = true \/
  match hpc rcv with
  | HReport _ RLoad => True
  | HReport _ (RLen r) => r = reportedSpace rcv
  | HReport _ (RAdd n) => n = cap - reportedSpace rcv
  | _ => False
  end.

(** What the sending end of a direction keeps. *)
Record sndInv (snd : DFQ) : Prop := {
  si_nonneg : 0 <= sendSpace snd;
  si_open : sendSpaceDepleted snd = false -> 1 <= sendSpace snd;
  si_pc : match hpc snd with
          | HReport (RMsg _) _ | HSubmitted => sendSpaceDepleted snd = false
          | HWoken => sendSpaceDepleted snd = true
          | _ => True
          end;
  si_wake : sendSpaceDepleted snd = true -> hpc snd <> HWoken -> 0 < sendSpace snd ->
    wakeSender snd = true \/ (exists m, dpc snd = DWake m);
  si_credit : match dpc snd with DAdd n _ => 0 < n | _ => True end;
}.

(** What the receiving end of a direction keeps. *)
Record rcvInv (cap : Z) (rcv : DFQ) : Prop := {
  ri_cap : qcap rcv = cap;
  ri_room : Z.of_nat (length (recvQueue rcv)) + reportedSpace rcv
            - undecremented (dpc rcv) <= cap;
  ri_nonneg : 0 <= reportedSpace rcv - undecremented (dpc rcv);
  ri_le : reportedSpace rcv <= cap;
  ri_stage : match hpc rcv with
             | HReport _ (RLen r) => reportedSpace rcv <= r <= cap
             | HReport _ (RAdd n) => 1 < n /\ n + reportedSpace rcv <= cap /\ n + Z.of_nat (length (recvQueue rcv))
                 + reportedSpace rcv - undecremented (dpc rcv) <= cap
             | HReport _ (RDone n) => 0 <= n <= cap
             | _ => True
             end;
  ri_force : hpc rcv <> HStopped -> cpc rcv = CWait -> recvQueue rcv = [] ->
    dpc rcv <> DDecr -> dpc rcv <> DForce ->
    reportedSpace rcv < forceReportThreshold cap -> 1 < cap - reportedSpace rcv ->
    forceComing cap rcv;
}.

(** What ties the two ends of a direction together. *)
Record dirInv (snd rcv : DFQ) (fwd back : Link) : Prop := {
  di_credit : sendSpace snd - unsubtracted (hpc snd) + dataInFlight fwd rcv
              + creditInFlight back snd rcv + leaked fwd
              = reportedSpace rcv - undecremented (dpc rcv);
  di_leaked : 0 <= leaked fwd;
  di_order : holding (sent fwd) = pushed fwd ++ holding (option_list (pendingMsg (dpc rcv)))
               ++ holding (itemMsg <$> net fwd);
  di_taken : hpc rcv <> HStopped -> pushed fwd = taken fwd ++ recvQueue rcv;
}.

Definition linkInv (cap : Z) (l : Link) : Prop := Forall (fun it : item => 0 <= it.1 <= cap) (net l).

Record sysInv (cap : Z) (s : Sys) : Prop := {
  inv_sndM : sndInv (me s); inv_sndP : sndInv (peer s);
  inv_rcvM : rcvInv cap (me s); inv_rcvP : rcvInv cap (peer s);
  inv_out : dirInv (me s) (peer s) (outL s) (inL s);
  inv_in : dirInv (peer s) (me s) (inL s) (outL s);
  inv_linkO : linkInv cap (outL s); inv_linkI : linkInv cap (inL s);
}.

Lemma sysInv_swap cap s : sysInv cap s -> sysInv cap (swap s).
Proof. intros []. by constructor. Qed.

Lemma sysInv_init cap : 1 <= cap <= MaxQueueSize -> sysInv cap (initSys cap).
Proof.
  unfold MaxQueueSize. intros Hc.
  assert (i32 cap = cap) as E by (apply i32_id; lia).
  assert (sndInv (NewDuplexFlowQueue cap)) by (constructor; simpl; rewrite ?E; by try lia).
  assert (rcvInv cap (NewDuplexFlowQueue cap)) by (constructor; simpl; rewrite ?E; by try lia).
  assert (dirInv (NewDuplexFlowQueue cap) (NewDuplexFlowQueue cap) emptyLink emptyLink)
    by (constructor; unfold dataInFlight, creditInFlight, pendingWeight, sumZ; simpl; rewrite ?E; first [lia|done]).
  by constructor; try apply Forall_nil_2.
Qed.

(** ** Bounds that follow from the invariant *)
Lemma weightMsg_bounds m : 0 <= weightMsg m <= 1.
Proof. unfold weightMsg. destruct (HoldsData _); lia. Qed.
Lemma weight_sum_nonneg (l : list item) : 0 <= sumZ (weight <$> l).
Proof.
  apply sumZ_nonneg, Forall_fmap, Forall_true. intros it. apply weightMsg_bounds.
Qed.
Lemma pendingWeight_bounds d : 0 <= pendingWeight d <= 1.
Proof. unfold pendingWeight. destruct (pendingMsg d); [apply weightMsg_bounds|lia]. Qed.
Lemma undecremented_bounds d : 0 <= undecremented d <= 1.
Proof. destruct d; simpl; lia. Qed.
Lemma credit_sum_nonneg cap l : linkInv cap l -> 0 <= sumZ (net l).*1.
Proof.
  intros H. apply sumZ_nonneg, Forall_fmap. eapply Forall_impl; [done|]. simpl. lia.
Qed.
Lemma reportCredit_nonneg cap q : rcvInv cap q -> 0 <= reportCredit (hpc q).
Proof. intros []. destruct (hpc q) as [| |? []| | |]; simpl; lia. Qed.
Lemma pendingCredit_nonneg q : sndInv q -> 0 <= pendingCredit (dpc q).
Proof. intros []. destruct (dpc q); simpl; lia. Qed.

(** Numeric facts about one direction. *)
Lemma direction_bounds cap snd rcv fwd back :
  sndInv snd -> rcvInv cap rcv -> dirInv snd rcv fwd back -> linkInv cap back ->
  0 <= sendSpace snd - unsubtracted (hpc snd) /\
  sendSpace snd - unsubtracted (hpc snd) + dataInFlight fwd rcv + creditInFlight back snd rcv
    <= reportedSpace rcv - undecremented (dpc rcv) <= cap /\
  0 <= dataInFlight fwd rcv /\ 0 <= creditInFlight back snd rcv /\
  0 <= undecremented (dpc rcv) <= 1 /\ 0 <= unsubtracted (hpc snd) <= 1 /\
  0 <= sumZ (net back).*1 /\ 0 <= reportCredit (hpc rcv) /\ 0 <= pendingCredit (dpc snd) /\
  0 <= sumZ (weight <$> net fwd) /\ 0 <= pendingWeight (dpc rcv) <= 1.
Proof.
  intros Hs Hr Hd Hl.
  pose proof (weight_sum_nonneg (net fwd)). pose proof (pendingWeight_bounds (dpc rcv)).
  pose proof (credit_sum_nonneg _ _ Hl). pose proof (reportCredit_nonneg _ _ Hr).
  pose proof (pendingCredit_nonneg _ Hs). pose proof (undecremented_bounds (dpc rcv)).
  destruct Hs, Hr, Hd. unfold dataInFlight, creditInFlight in *.
  assert (unsubtracted (hpc snd) = 0 \/ unsubtracted (hpc snd) = 1 /\ 1 <= sendSpace snd).
  { destruct (hpc snd); simpl; auto. }
  lia.
Qed.

Lemma forceReportThreshold_bounds cap : 0 <= cap ->
  0 <= forceReportThreshold cap <= cap /\ (2 <= cap -> 1 <= forceReportThreshold cap).
Proof.
  intros. unfold forceReportThreshold. split; [split|].
  - apply Z.div_pos; lia.
  - apply Z.div_le_upper_bound; lia.
  - intros. apply Z.div_le_lower_bound; lia.
Qed.

(** [reportableRecvSpace] computes the free space not yet reported, if above one. *)
Lemma toReport_spec cap q r :
  0 <= cap <= MaxQueueSize -> qcap q = cap -> 0 <= r <= cap ->
  Z.of_nat (length (recvQueue q)) <= cap ->
  let free := cap - Z.of_nat (length (recvQueue q)) - r in
  toReport q r = if free <=? 1 then 0 else free.
Proof.
  unfold MaxQueueSize, toReport. intros Hc -> Hr Hl. simpl.
  rewrite (i32_id (cap - _)) by lia. by rewrite i32_id by lia.
Qed.
