(* ===== verification/FlowInv.v ===== *)
(** * Preservation of the flow control invariant

    Every operation of an end of the system preserves [sysInv].  One lemma per
    program counter group; [sysInv_step] puts them together. *)

From S2P Require Import Prelude Varint FlowQueue FlowSystem.

Definition afterMe (s : Sys) (q : DFQ) (es : list event) : Sys :=
  s <| me := q |>
    <| outL ::= fun l => foldl (fun l e => outEvent e l) l es |>
    <| inL ::= fun l => foldl (fun l e => inEvent e l) l es |>.

(** ** Proof automation *)
Ltac case_in H :=
  match type of H with
  | context [match ?x with _ => _ end] =>
      lazymatch x with context [match _ with _ => _ end] => fail | _ => destruct x eqn:? end
  end.

Ltac destruct_dfq q :=
  destruct q as [?cp ?sq ?pm ?ss ?ws ?rq ?rs ?fs ?h ?sd ?ff ?d ?c ?pp ?cd].

(** Poses the numeric bounds of both directions, splits the state of the acting
    end and the invariant, and leaves the step in [H]. *)
Ltac open_step H Hinv :=
  pose proof (direction_bounds _ _ _ _ _ (inv_sndM _ _ Hinv) (inv_rcvP _ _ Hinv)
    (inv_out _ _ Hinv) (inv_linkI _ _ Hinv));
  pose proof (direction_bounds _ _ _ _ _ (inv_sndP _ _ Hinv) (inv_rcvM _ _ Hinv)
    (inv_in _ _ Hinv) (inv_linkO _ _ Hinv));
  unfold MaxQueueSize in *;
  let m := fresh "m" in let p := fresh "p" in let o := fresh "o" in let i := fresh "i" in
  match type of Hinv with sysInv _ ?s => destruct s as [m p o i] end;
  simpl in H; destruct_dfq m; destruct Hinv as [[] [] [] [] [] [] ? ?];
  unfold afterMe, dataInFlight, creditInFlight, forceComing, pendingWeight in *;
  simpl in *.

Ltac fix_i32 :=
  repeat match goal with
  | H : context [i32 ?x] |- _ => rewrite (i32_id x) in H by lia
  | |- context [i32 ?x] => rewrite (i32_id x) by lia
  end.

(** Closes one field of the invariant. *)
Ltac close_goal :=
  intros; simplify_eq/=;
  unfold dataInFlight, creditInFlight, pendingWeight, forceComing, linkInv in *; simpl in *;
  rewrite ?fmap_app, ?sumZ_app, ?holding_app, ?Forall_app in *; simpl in *;
  rewrite ?sumZ_cons, ?sumZ_nil, ?holding_single in *;
  unfold weight, itemMsg, weightMsg in *; simpl in *;
  repeat match goal with H : HoldsData _ = _ |- _ => rewrite H in *; clear H end;
  rewrite ?app_nil_r, ?app_assoc in *;
  first [ done | lia | congruence
        | solve [split; [done | by repeat constructor; simpl; lia]]
        | match goal with H : _ -> _ = CWait -> _ |- _ => solve [apply H; done] end
        | match goal with H : _ -> _ -> _ -> _ \/ (exists m, _ = DWake m) |- _ \/ _ =>
            destruct H as [?|[? ?]]; [done | done | done | by left | done] end
        | solve [eauto] | solve [intuition congruence] ].
Ltac close_step := repeat split; simpl; auto; try lia; close_goal.

(** ** The steps *)
Section steps.
Context {V : Varint} (cap : Z) (Hcap : 1 <= cap <= MaxQueueSize).

Lemma handler_inv a s q es :
  match a with AReport | ASendMsg | ASubmit => False | _ => True end ->
  sysInv cap s -> handlerStep a (me s) = Some (q, es) -> sysInv cap (afterMe s q es).
Proof.
  intros Ha Hinv H. open_step H Hinv.
  destruct a; try done; destruct h; try done; simpl in H.
  all: repeat (case_in H; simplify_eq/=); bool_prop; simplify_eq/=; fix_i32; close_step.
Qed.

Lemma report_inv s q es :
  sysInv cap s -> handlerStep AReport (me s) = Some (q, es) -> sysInv cap (afterMe s q es).
Proof.
  intros Hinv H. open_step H Hinv. destruct h as [| |w st| | |]; try done.
  destruct st as [|r|n|n]; simpl in *; simplify_eq/=; fix_i32.
  - close_step.
  - rewrite (toReport_spec (qcap p)) in H by (unfold MaxQueueSize; simpl; lia). simpl in H.
    assert (c = CWait -> rq = [] -> d <> DDecr -> d <> DForce ->
      rs < forceReportThreshold (qcap p) -> 1 < qcap p - rs -> fs = true \/ r = rs)
      by (intros; by apply ri_force).
    clear ri_force.
    assert (forall st, match st with
        | RDone 0 => qcap p - Z.of_nat (length rq) - r <= 1
        | RAdd n => n = qcap p - Z.of_nat (length rq) - r | _ => False end ->
      c = CWait -> rq = [] -> d <> DDecr -> d <> DForce ->
      rs < forceReportThreshold (qcap p) -> 1 < qcap p - rs ->
      forceComing (qcap p) (mkDFQ (qcap p) sq pm ss ws rq rs fs (HReport w st) sd ff d c pp cd)).
    { intros st Hst -> -> Hd Hf H1' H2'. unfold forceComing; simpl in *.
      assert (fs = true \/ r = rs) as [?|?] by auto; [by left|].
      destruct st as [| | |[]]; simpl in Hst; try lia. }
    repeat (case_in H; simplify_eq/=); bool_prop; simplify_eq/=; try lia.
    all: close_step.
  - assert (c = CWait -> rq = [] -> d <> DDecr -> d <> DForce ->
      rs + n < forceReportThreshold (qcap p) -> 1 < qcap p - (rs + n) -> fs = true \/ False).
    { intros. assert (fs = true \/ n = qcap p - rs) as [?|?] by (apply ri_force; done || lia);
        [by left|lia]. }
    clear ri_force. close_step.
Qed.

Lemma take_inv s q es :
  sysInv cap s -> handlerStep ASendMsg (me s) = Some (q, es) -> sysInv cap (afterMe s q es).
Proof.
  intros Hinv H. open_step H Hinv. destruct h; try done.
  destruct sd; try done. unfold takeSendMsg in H. simpl in H.
  destruct sq as [|x sq]; simplify_eq/=. close_step.
Qed.

Lemma submit_inv s q es :
  sysInv cap s -> handlerStep ASubmit (me s) = Some (q, es) -> sysInv cap (afterMe s q es).
Proof.
  intros Hinv H. open_step H Hinv. destruct h as [| |w st| | |]; try done.
  destruct w as [x|], st; simplify_eq/=.
  - destruct (HoldsData (mData x)) eqn:Hx; close_step.
  - destruct (0 <? toReport) eqn:E; bool_prop; close_step.
Qed.

Lemma receive_inv a s q es :
  sysInv cap s -> receiveStep a (me s) = Some (q, es) -> sysInv cap (afterMe s q es).
Proof.
  intros Hinv H. open_step H Hinv. destruct a; try done; destruct c; try done; simpl in H.
  - unfold shouldReportRecvSpace in H. simpl in H.
    destruct (_ <? _) eqn:E in H; bool_prop; simplify_eq/=; close_step.
  - simplify_eq/=. close_step.
  - destruct rq as [|x rq]; simplify_eq/=.
    assert (h <> HStopped -> pushed i = (taken i ++ [x]) ++ rq)
      by (intros; rewrite di_taken0 by done; by rewrite <- app_assoc).
    destruct h as [| |w []| | |]; close_step.
Qed.

Lemma send_inv a s q es :
  sysInv cap s -> sendStep a (me s) = Some (q, es) -> sysInv cap (afterMe s q es).
Proof.
  intros Hinv H. open_step H Hinv. destruct a; try done; simpl in H.
  all: repeat case_in H; try done; injection H as <- <-; close_step.
Qed.

Lemma addspace_inv s q es :
  sysInv cap s -> deliverStep AAddSpace (me s) = Some (q, es) -> sysInv cap (afterMe s q es).
Proof.
  intros Hinv H. open_step H Hinv. destruct d as [|n m| | | |]; simplify_eq/=; fix_i32.
  close_step.
Qed.

(** The push finds room: credit in flight is backed by free queue slots. *)
Lemma push_inv s q es :
  sysInv cap s -> deliverStep APush (me s) = Some (q, es) ->
  sysInv cap (afterMe s q es) /\ EErr ErrQueueOverflow ∉ es.
Proof.
  intros Hinv H. open_step H Hinv. destruct d as [| | |m| |]; simplify_eq/=.
  rewrite holding_single in *.
  destruct (HoldsData (mData m)) eqn:Hm; simplify_eq/=.
  - assert (weightMsg m = 1) as Hw by (unfold weightMsg; by rewrite Hm).
    destruct (_ <? _) eqn:E in H; bool_prop; [|lia]. simplify_eq/=.
    assert (h <> HStopped -> pushed i ++ [m] = taken i ++ rq ++ [m])
      by (intros; rewrite di_taken0 by done; by rewrite <- app_assoc).
    assert (holding (sent i) = (pushed i ++ [m]) ++ holding (itemMsg <$> net i))
      by (rewrite di_order0; by rewrite <- app_assoc).
    assert (rq ++ [m] <> []) by by destruct rq.
    assert (Z.of_nat (length (rq ++ [m])) = Z.of_nat (length rq) + 1)
      by (rewrite length_app; simpl; lia).
    assert (match h with
      | HReport _ (RLen r) => rs <= r <= qcap p
      | HReport _ (RAdd n) => 1 < n /\ n + rs <= qcap p
          /\ n + Z.of_nat (length (rq ++ [m])) + rs - 1 <= qcap p
      | HReport _ (RDone n) => 0 <= n <= qcap p
      | _ => True
      end) by (destruct h as [| |w []| | |]; simpl in *; lia).
    clear ri_stage ri_force di_order0 di_taken0.
    split; [|set_solver]. close_step.
  - assert (weightMsg m = 0) as Hw by (unfold weightMsg; by rewrite Hm).
    split; [close_step|set_solver].
Qed.

Lemma deliver_inv a s q es :
  match a with AWakeSender | ADecrReported | ASetForce => True | _ => False end ->
  sysInv cap s -> deliverStep a (me s) = Some (q, es) -> sysInv cap (afterMe s q es).
Proof.
  intros Ha Hinv H. open_step H Hinv. destruct a; try done; destruct d; simplify_eq/=; fix_i32.
  - close_step.
  - assert (match h with
      | HReport _ (RLen r) => rs - 1 <= r <= qcap p
      | HReport _ (RAdd n) => 1 < n /\ n + (rs - 1) <= qcap p
          /\ n + Z.of_nat (length rq) + (rs - 1) - 0 <= qcap p
      | HReport _ (RDone n) => 0 <= n <= qcap p
      | _ => True
      end) by (destruct h as [| |w []| | |]; simpl in *; lia).
    clear ri_stage ri_force. destruct (_ <? _) eqn:E; bool_prop; close_step.
  - close_step.
Qed.
End steps.
