(* ===== verification/FlowProps.v ===== *)
(** * Flow control: the theorems

    Safety and progress of the two-ended flow control of FlowSystem.v, for every
    queue size the wire format can report ([cap <= 65535]) and every
    interleaving, and the two sizes accepted by [TerminalOpts.Check] for which
    the protocol does not work. *)

From S2P Require Import Prelude Varint FlowQueue FlowSystem FlowInv.

(** ** Delivery from the link *)
Section deliver.
Context {V : Varint} `{!VarintLaws V} (cap : Z) (Hcap : 1 <= cap <= 65535).

Lemma GetNextN16_wire n m : 0 <= n < 2 ^ 16 ->
  GetNextN16 (mData (wireMsg n m)) = Some (n, mData m).
Proof.
  intros Hn. unfold GetNextN16, wireMsg. simpl. rewrite u64_id by lia.
  rewrite unpack16_pack by done. by rewrite drop_app_length.
Qed.

Lemma netdeliver_inv s s' es :
  sysInv cap s -> actMe SDeliver s = Some (s', es) -> sysInv cap s' /\ es = [].
Proof.
  intros Hinv H. unfold actMe in H.
  destruct (net (inL s)) as [|[n x] rest] eqn:Hnet; [done|].
  assert (0 <= n <= cap) as Hn.
  { pose proof (inv_linkI _ _ Hinv) as Hl. unfold linkInv in Hl. rewrite Hnet in Hl.
    by inversion Hl. }
  unfold dfq_step, deliverStep in H. destruct (dpc (me s)) eqn:Hd; try done.
  rewrite GetNextN16_wire in H by (simpl; lia).
  assert ((wireMsg n (itemMsg (n, x))) <| mData := mData (itemMsg (n, x)) |> = itemMsg (n, x))
    as Hm by (unfold wireMsg; by destruct (itemMsg (n, x))).
  simpl fst in H. rewrite Hm in H. clear Hm.
  open_step H Hinv. simplify_eq/=.
  rewrite Hnet, ?fmap_cons, ?sumZ_cons in *. simpl fst in *. change (weight (n, x)) with (weightMsg (itemMsg (n, x))) in *. rewrite holding_cons in di_order0.
  generalize dependent (itemMsg (n, x)). intros y **.
  pose proof (weightMsg_bounds y). unfold linkInv in inv_linkI. rewrite Hnet in inv_linkI.
  apply Forall_cons in inv_linkI as [_ ?].
  destruct (0 <? n) eqn:E; bool_prop; simplify_eq/=; (split; [|done]).
  all: repeat split; simpl; auto;
    unfold dataInFlight, creditInFlight, pendingWeight; simpl; try lia; close_goal.
Qed.

Ltac not_in_events :=
  let Hin := fresh in intros Hin;
  repeat (apply elem_of_cons in Hin as [?|Hin]; [done|]); by apply elem_of_nil in Hin.

(** Only [APush] and [ADeliver] can report an overflow or malformed data. *)
Lemma step_errors a q q' es :
  dfq_step a q = Some (q', es) -> isDeliver a = false -> a <> APush ->
  EErr ErrQueueOverflow ∉ es /\ EErr ErrMalformedData ∉ es.
Proof.
  intros H Hd Hp. destruct a; try done; simpl in H;
    unfold handlerStep, deliverStep, receiveStep, sendStep in H.
  all: repeat (case_in H; simplify_eq/=); try (split; not_in_events).
  all: repeat match goal with H : ?x ≫= _ = Some _ |- _ => destruct x; cbn in H; simplify_eq end.
  all: simplify_eq/=; try case_match; split; not_in_events.
Qed.

Lemma push_errors q q' es :
  dfq_step APush q = Some (q', es) -> EErr ErrMalformedData ∉ es.
Proof.
  simpl. unfold deliverStep. intros H. repeat (case_in H; simplify_eq/=); not_in_events.
Qed.

Lemma local_inv a s s' es :
  sysInv cap s -> actMe (SLocal a) s = Some (s', es) ->
  sysInv cap s' /\ EErr ErrQueueOverflow ∉ es /\ EErr ErrMalformedData ∉ es.
Proof.
  intros Hinv H. simpl in H. destruct (isDeliver a) eqn:Ha; [done|].
  destruct (dfq_step a (me s)) as [[q es']|] eqn:Hq; simplify_eq/=.
  change (sysInv cap (afterMe s q es) /\ EErr ErrQueueOverflow ∉ es /\ EErr ErrMalformedData ∉ es).
  assert (1 <= cap <= MaxQueueSize) as Hc by (unfold MaxQueueSize; lia).
  assert (a = APush \/ a <> APush) as [->|Hp] by (destruct a; auto).
  - destruct (push_inv cap Hc _ _ _ Hinv Hq). eauto using push_errors.
  - split; [|by eapply step_errors].
    destruct a; try done; cbn [dfq_step] in Hq;
      let go l := solve [eapply l; try exact Hq; done] in
      first [ go handler_inv | go deliver_inv | go report_inv | go take_inv | go submit_inv | go receive_inv | go send_inv | go addspace_inv ].
Qed.

Lemma sysExec_inv ba s s' es :
  sysInv cap s -> sysExec ba s = Some (s', es) ->
  sysInv cap s' /\ EErr ErrQueueOverflow ∉ es /\ EErr ErrMalformedData ∉ es.
Proof.
  assert (forall a s s' es, sysInv cap s -> actMe a s = Some (s', es) ->
    sysInv cap s' /\ EErr ErrQueueOverflow ∉ es /\ EErr ErrMalformedData ∉ es) as Hme.
  { intros [a|] s0 s0' es0 Hinv H; [by eapply local_inv|].
    destruct (netdeliver_inv _ _ _ Hinv H) as [? ->]. split; [done|]. set_solver. }
  intros Hinv H. unfold sysExec in H. destruct ba.1; [by eapply Hme|].
  destruct (actMe _ _) as [[s1 es1]|] eqn:E; simplify_eq/=.
  apply sysInv_swap in Hinv. destruct (Hme _ _ _ _ Hinv E) as (? & ? & ?).
  split; [by apply sysInv_swap|done].
Qed.

Lemma reachable_inv s : reachable (sys_init cap) sys_step s -> sysInv cap s.
Proof.
  apply reachable_invariant.
  - intros ? ->. apply sysInv_init. unfold MaxQueueSize. lia.
  - intros s0 s1 Hinv (ba & es & H). by eapply sysExec_inv.
Qed.
End deliver.

(** ** Theorems about the connected ends *)

(** C12. No message is ever dropped by the flow control: in every reachable
    state of two connected queues of the same size, no operation reports
    [ErrQueueOverflow] or [ErrMalformedData].  (The comment in [Deliver]: "The
    whole point of the flow queue is to guarantee that this never happens.") *)
Theorem flow_no_overflow {V : Varint} `{!VarintLaws V} cap s ba s' es :
  1 <= cap <= 65535 -> reachable (sys_init cap) sys_step s -> sysExec ba s = Some (s', es) ->
  EErr ErrQueueOverflow ∉ es /\ EErr ErrMalformedData ∉ es.
Proof.
  intros Hc Hr H. destruct (sysExec_inv cap Hc ba s s' es); [by apply reachable_inv|done..].
Qed.

(** Both directions of a reachable state satisfy the invariant. *)
Lemma reachable_inv_dir {V : Varint} `{!VarintLaws V} cap s t :
  1 <= cap <= 65535 -> reachable (sys_init cap) sys_step s -> t = s \/ t = swap s ->
  sysInv cap t.
Proof.
  intros Hc Hr [->| ->]; [|apply sysInv_swap]; by apply reachable_inv.
Qed.

(** C13. Exactly once, in order: in both directions the messages with data that
    were submitted so far are, in this order, those the consumer received, those
    waiting in the receive queue, the one being delivered and those on the link
    (as long as the receiving worker was not shut down). *)
Theorem flow_exactly_once {V : Varint} `{!VarintLaws V} cap s t :
  1 <= cap <= 65535 -> reachable (sys_init cap) sys_step s -> t = s \/ t = swap s ->
  hpc (peer t) <> HStopped ->
  holding (sent (outL t)) =
    taken (outL t) ++ recvQueue (peer t)
    ++ holding (option_list (pendingMsg (dpc (peer t))))
    ++ holding (itemMsg <$> net (outL t)).
Proof.
  intros Hc Hr Ht Hs. pose proof (reachable_inv_dir _ _ _ Hc Hr Ht) as [_ _ _ _ [_ _ Ho Hk] _ _ _].
  rewrite Ho, Hk by done. by rewrite <- !app_assoc.
Qed.

(** Credit is conserved: the sender's send space, the messages in flight and
    the credit in flight always add up to the space the receiver has reported,
    which never exceeds its free queue slots; send space stays within
    [0, queueSize] (one more between submitting a message and subtracting it), so
    no counter wraps. *)
Theorem flow_credit_conserved {V : Varint} `{!VarintLaws V} cap s t :
  1 <= cap <= 65535 -> reachable (sys_init cap) sys_step s -> t = s \/ t = swap s ->
  sendSpace (me t) - unsubtracted (hpc (me t)) + dataInFlight (outL t) (peer t)
    + creditInFlight (inL t) (me t) (peer t) + leaked (outL t)
    = reportedSpace (peer t) - undecremented (dpc (peer t)) /\
  reportedSpace (peer t) - undecremented (dpc (peer t)) + RecvQueueLen (peer t) <= cap /\
  0 <= sendSpace (me t) <= cap + unsubtracted (hpc (me t)) /\ 0 <= reportedSpace (peer t) <= cap.
Proof.
  intros Hc Hr Ht. pose proof (reachable_inv_dir _ _ _ Hc Hr Ht) as H.
  pose proof (direction_bounds cap _ _ _ _ (inv_sndM _ _ H) (inv_rcvP _ _ H)
    (inv_out _ _ H) (inv_linkI _ _ H)) as B.
  destruct H as [[] _ _ [] [] _ _ _]. unfold RecvQueueLen.
  split; [done|]. split; [lia|]. lia.
Qed.

(** C14. No lost wake-up: whenever the worker sleeps because its send space was
    depleted although there is send space again, a wake-up is waiting in the
    [wakeSender] channel or the delivering goroutine is about to send one. *)
Theorem flow_no_lost_wakeup {V : Varint} `{!VarintLaws V} cap s t :
  1 <= cap <= 65535 -> reachable (sys_init cap) sys_step s -> t = s \/ t = swap s ->
  hpc (me t) = HTop -> sendSpaceDepleted (me t) = true -> 0 < sendSpace (me t) ->
  wakeSender (me t) = true \/ exists m, dpc (me t) = DWake m.
Proof.
  intros Hc Hr Ht Hh Hd Hp. pose proof (reachable_inv_dir _ _ _ Hc Hr Ht) as [[] _ _ _ _ _ _ _].
  apply si_wake; [done| |done]. by rewrite Hh.
Qed.

(** The state in which nothing is left to happen for the direction from the first
    end to the second: links empty, no operation in progress, no signal pending,
    and the consumer of the second end waits on an empty queue. *)
Definition quiescent (t : Sys) : Prop :=
  net (outL t) = [] /\ net (inL t) = [] /\
  hpc (me t) = HTop /\ hpc (peer t) = HTop /\ dpc (me t) = DIdle /\ dpc (peer t) = DIdle /\
  wakeSender (me t) = false /\ forceSpaceReport (peer t) = false /\
  cpc (peer t) = CWait /\ recvQueue (peer t) = [].
#[export] Instance quiescent_dec t : Decision (quiescent t).
Proof.
  unfold quiescent.
  assert (forall {A} (l : list A), Decision (l = [])) by (intros A []; [by left|by right]).
  assert (forall h, Decision (h = HTop)) by (intros []; ((by left) || (by right))).
  assert (forall d, Decision (d = DIdle)) by (intros []; ((by left) || (by right))).
  assert (forall c, Decision (c = CWait)) by (intros []; ((by left) || (by right))).
  apply _.
Defined.

(** C15. The sender is not starved: with a queue size from 2 to 65535, and as long as no
    message with empty data was submitted in its direction - each of these takes a space
    that is never given back -, once the receiver has consumed everything and nothing is
    left to happen, the sending worker is not waiting for space; the space reports it
    needs were forced. *)
Theorem flow_no_starvation {V : Varint} `{!VarintLaws V} cap s t :
  2 <= cap <= 65535 -> reachable (sys_init cap) sys_step s -> t = s \/ t = swap s ->
  leaked (outL t) = 0 -> quiescent t ->
  sendSpaceDepleted (me t) = false /\ 0 < sendSpace (me t).
Proof.
  intros Hc Hr Ht Hl (Hn1 & Hn2 & Hm & Hp & Hdm & Hdp & Hw & Hf & Hcw & Hq).
  assert (1 <= cap <= 65535) as Hc1 by lia.
  pose proof (reachable_inv_dir _ _ _ Hc1 Hr Ht) as [Hs _ _ Hrc [Hcr _ _ _] _ _ _].
  unfold dataInFlight, creditInFlight, pendingWeight in Hcr.
  rewrite Hn1, Hn2, Hm, Hp, Hdm, Hdp, Hl in Hcr. cbn in Hcr. rewrite !sumZ_nil in Hcr.
  assert (0 < sendSpace (me t)) as Hpos.
  { destruct (forceReportThreshold_bounds cap) as [_ Hthr]; [lia|].
    destruct Hs, Hrc. rewrite Hdp in *. unfold forceComing in *. rewrite Hp, Hf in *.
    destruct (decide (0 < sendSpace (me t))) as [?|Hz]; [done|].
    destruct ri_force; simpl in *; try done; lia. }
  split; [|done]. destruct (sendSpaceDepleted (me t)) eqn:Hd; [|done].
  destruct Hs. destruct si_wake as [?|[m ?]]; try done; congruence.
Qed.

(** *** Queue sizes for which the protocol fails *)

(** Operations started by the users of the queue, as opposed to the worker and
    the delivering goroutine. *)
Definition clientAction (a : action) : bool :=
  match a with
  | ASend _ | ASendTimeout _ | ASendStopping _ | AFlush _ | AReceive | ACancel => true
  | _ => false
  end.

Module Runs.
Definition msg (b : Z) : Msg := mkMsg [b] false.
Definition on (side : bool) (l : list action) : list (bool * sysAction) :=
  (fun a => (side, SLocal a)) <$> l.
Definition sendOne (b : Z) : list (bool * sysAction) :=
  on true [ASend (msg b); ASendMsg; AReport; AReport; ASubmit; ADecrement; AFlushCheck].
Definition receiveOne : list (bool * sysAction) :=
  (false, SDeliver) :: on false [APush; ADecrReported].
Definition starve : list (bool * sysAction) :=
  on false [AReceive] ++ sendOne 7 ++ receiveOne ++ on false [ATake; AReceive]
  ++ on true [ASend (msg 8)].
(** Two messages with a size of two; the receiver consumes and reports. *)
Definition exchange : list (bool * sysAction) :=
  on false [AReceive] ++ sendOne 7 ++ sendOne 8 ++ receiveOne ++ on false [ATake; AReceive]
  ++ receiveOne ++ on false [ASetForce; ATake; AReceive; AReceiveForce;
                             AForced; AReport; AReport; AReport; ASubmit]
  ++ [(true, SDeliver)] ++ on true [AAddSpace].
Definition wakeAndSettle : list (bool * sysAction) :=
  on true [AWakeSender; APush; AWake; ACheckSpace].
Definition run (cap : Z) (l : list (bool * sysAction)) : Sys :=
  default (initSys cap) (sysRun (V := leb128) l (initSys cap)).

Lemma run_reachable cap l :
  is_Some (sysRun (V := leb128) l (initSys cap)) ->
  reachable (sys_init cap) (sys_step (V := leb128)) (run cap l).
Proof.
  intros [s Hs]. unfold run. rewrite Hs. simpl.
  eapply (sysRun_reachable (V := leb128)); [|exact Hs]. exists (initSys cap). split; [done|constructor].
Qed.
End Runs.

(** A queue size of one, which [TerminalOpts.Check] accepts, stalls for good:
    after one message the sender waits for space with another message queued,
    the receiver has consumed everything, and neither worker nor the delivering
    goroutine can take a step, because a free space of one is never reported. *)
Theorem flow_size_one_starves :
  exists s, reachable (sys_init 1) (sys_step (V := leb128)) s /\ quiescent s /\
    leaked (outL s) = 0 /\ sendSpaceDepleted (me s) = true /\ sendQueue (me s) <> [] /\
    (forall a, clientAction a = false ->
      actMe (V := leb128) (SLocal a) s = None /\ actMe (V := leb128) (SLocal a) (swap s) = None) /\
    actMe (V := leb128) SDeliver s = None /\ actMe (V := leb128) SDeliver (swap s) = None.
Proof.
  exists (Runs.run 1 Runs.starve). split.
  { apply Runs.run_reachable. vm_compute. eauto. }
  split; [by apply (bool_decide_unpack _); vm_compute|].
  split; [done|]. split; [done|]. split; [done|]. split; [|done].
  intros a Ha. destruct a; try done.
Qed.

Lemma flow_size_one_accepted (opts : TerminalOpts) :
  Version opts = 1 -> FlowControl opts = FlowControlDFQ -> FlowControlSize opts = 1 ->
  (CheckOpts opts false).2 = None.
Proof. destruct opts. simpl. by intros -> -> ->. Qed.

(** A queue size above 65535, which [TerminalOpts.Check] accepts up to one
    million, can break the connection: when the receiver has more than 65535
    unreported free slots, the report it sends is refused by the other end's
    [Deliver] as malformed data, because reports are read as 16-bit numbers. *)
Theorem flow_large_report_rejected {V : Varint} `{!VarintLaws V} q p :
  qcap q <= MaxQueueSize -> 0 <= reportedSpace q ->
  65535 < qcap q - Z.of_nat (length (recvQueue q)) - reportedSpace q ->
  hpc q = HReport RForced RLoad -> dpc p = DIdle ->
  exists q1 q2 q3 q4 n,
    dfq_step AReport q = Some (q1, []) /\ dfq_step AReport q1 = Some (q2, []) /\
    dfq_step AReport q2 = Some (q3, []) /\ dfq_step ASubmit q3 = Some (q4, [ESubmitReport n]) /\
    let w := wireMsg n (mkMsg [] false) in
    dfq_step (ADeliver (Some w)) p = Some (p, [EFinish w; EErr ErrMalformedData]).
Proof.
  unfold MaxQueueSize. intros Hc Hr Hfree Hh Hd.
  destruct q as [cp sq pm ss ws rq rs fs h sd ff d c pp cd]; simpl in *; subst h.
  set (n := cp - Z.of_nat (length rq) - rs) in *.
  do 4 eexists. exists n.
  split; [done|]. split.
  { cbn. rewrite (toReport_spec cp) by (unfold MaxQueueSize; simpl; lia). simpl. fold n.
    destruct (n <=? 1) eqn:E; bool_prop; [lia|].
    destruct (n =? 0) eqn:E2; bool_prop; [lia|]. done. }
  split; [done|]. split.
  { cbn. destruct (0 <? n) eqn:E; bool_prop; [done|lia]. }
  cbn. rewrite Hd. unfold GetNextN16, wireMsg. simpl. rewrite u64_id by lia.
  rewrite app_nil_r, <- (app_nil_r (Pack64 n)), unpack16_overflow by lia. done.
Qed.


(** *** Terminal options *)

(** The options [CheckOpts] leaves unchanged. *)
Lemma check_opts_valid opts b :
  Version opts = 1 -> FlowControl opts ∈ [FlowControlDFQ; FlowControlNone] ->
  1 <= FlowControlSize opts <= MaxQueueSize -> CheckOpts opts b = (opts, None).
Proof.
  destruct opts as [v e p fc sz u]. unfold MaxQueueSize. simpl. intros -> Hf Hs.
  unfold CheckOpts, Check_version, Check_size, MaxQueueSize. simpl.
  assert ((sz =? 0) = false) as Hz by lia.
  assert ((sz <=? 0) || (1000000 <? sz) = false) as Hz2 by lia.
  repeat (apply elem_of_cons in Hf as [->|Hf];
    [simpl; rewrite Hz; simpl; by rewrite Hz2|]); by apply elem_of_nil in Hf.
Qed.

(** The check of terminal options: options it accepts have version 1, a known
    flow control type and a queue size in [1, MaxQueueSize]; they pass the check
    without defaults unchanged (what [Pack] sends is accepted by
    [ParseTerminalOpts]); with defaults permitted, every options value with a
    known type, a version of 0 or 1 and a size of at most [MaxQueueSize] is
    accepted. *)
Theorem check_opts_spec opts b opts' :
  (CheckOpts opts b = (opts', None) ->
     Version opts' = 1 /\ FlowControl opts' ∈ [FlowControlDFQ; FlowControlNone] /\
     1 <= FlowControlSize opts' <= MaxQueueSize /\ CheckOpts opts' false = (opts', None)) /\
  (0 <= Version opts <= 1 ->
   FlowControl opts ∈ [FlowControlDefault; FlowControlDFQ; FlowControlNone] ->
   0 <= FlowControlSize opts <= MaxQueueSize -> (CheckOpts opts true).2 = None).
Proof.
  split.
  - intros H.
    assert (Version opts' = 1 /\ FlowControl opts' ∈ [FlowControlDFQ; FlowControlNone] /\
      1 <= FlowControlSize opts' <= MaxQueueSize) as (?&?&?); [|by rewrite check_opts_valid].
    destruct opts as [v e p fc sz u]. unfold CheckOpts, Check_version, Check_size,
      minSupportedTerminalVersion, maxSupportedTerminalVersion, MaxQueueSize in *. simpl in H.
    destruct fc, b; simpl in *; repeat (case_in H; simplify_eq/=); bool_prop;
      (split; [lia|split; [set_solver|cbn; lia]]).
  - destruct opts as [v e p fc sz u]. simpl. intros Hv Hf Hs.
    unfold CheckOpts, Check_version, Check_size, minSupportedTerminalVersion,
      maxSupportedTerminalVersion, MaxQueueSize in *. simpl.
    assert (sz =? 0 = true \/ (sz =? 0) = false /\ (sz <=? 0) || (1000000 <? sz) = false)
      as [Hz|[Hz Hz2]] by lia;
    assert (v = 0 \/ v = 1) as [-> | ->] by lia;
    repeat (apply elem_of_cons in Hf as [->|Hf];
      [simpl; rewrite ?Hz; simpl; by rewrite ?Hz2|]); by apply elem_of_nil in Hf.
Qed.
