(* ===== verification/FlowFlush.v ===== *)
(** * Flushing and priority accounting of the flow queue

    Runs of one queue ([dfqRun]): the flush functions handed to the worker and
    the calls it makes, and the range of the high-priority counter. *)

From S2P Require Import Prelude Varint FlowQueue FlowSystem FlowInv.

(** *** Flushing *)
Section flush.
Context {V : Varint}.

Fixpoint dfqRun (acts : list action) (q : DFQ) : option (DFQ * list event) :=
  match acts with
  | [] => Some (q, [])
  | a :: acts =>
      '(q1, es1) ← dfq_step a q; '(q2, es2) ← dfqRun acts q1; Some (q2, es1 ++ es2)
  end.

Definition flushRequests (acts : list action) : list nat :=
  omap (fun a => match a with AFlush f => Some f | _ => None end) acts.
Definition flushSignals (es : list event) : list nat :=
  concat ((fun e => match e with EFlushed fs => fs | _ => [] end) <$> es).
Definition sends (acts : list action) : nat :=
  length (omap (fun a => match a with ASend m => Some m | _ => None end) acts).
Definition submits (es : list event) : nat :=
  length (omap (fun e => match e with ESubmit _ m => Some m | _ => None end) es).

(** The messages the worker holds. *)
Definition inHand (h : handlerPC) : nat :=
  match h with HReport (RMsg _) _ => 1 | _ => 0 end.

Record flushInv (q : DFQ) (reqs sigs : list nat) (nsend nsub : nat) : Prop := {
  fi_waiting : match hpc q with
    | HTop | HWoken | HReport RForced _ => is_Some (flushFinished q) -> sendQueue q <> []
    | _ => True end;
  fi_order : reqs = sigs ++ default [] (flushFinished q);
  fi_count : hpc q <> HStopped -> nsend = (nsub + length (sendQueue q) + inHand (hpc q))%nat;
}.

Lemma flushInv_step a q q' es reqs sigs nsend nsub :
  flushInv q reqs sigs nsend nsub -> dfq_step a q = Some (q', es) ->
  flushInv q' (reqs ++ flushRequests [a]) (sigs ++ flushSignals es)
    (nsend + sends [a]) (nsub + submits es).
Proof.
  intros [Hw Ho Hn] H. destruct_dfq q. simpl in *.
  destruct a; simpl in H;
    unfold handlerStep, deliverStep, receiveStep, sendStep, takeSendMsg, reportStep in H; simpl in H;
    repeat (case_in H; simplify_eq/=); simplify_eq/=;
    unfold flushSignals, flushRequests, sends, submits; simpl;
    rewrite ?app_nil_r, ?Nat.add_0_r, ?length_app; constructor; simpl; auto.
  all: try (destruct (0 <? _); simpl).
  all: try (intros _; specialize (Hn ltac:(done)); simpl in *; lia).
  all: try (by intros []); try by rewrite ?app_nil_r, ?app_assoc.
  all: try (intros; rewrite ?length_app; simpl in *; intuition lia).
  all: try solve [intuition congruence].
  all: try solve [intros Hs; apply Hw in Hs; by destruct sq].
  - destruct ff; [by destruct Hw|]. by rewrite !app_nil_r.
  - repeat case_match; try done; intros _; by destruct sq.
Qed.

Lemma flushRequests_app l k : flushRequests (l ++ k) = flushRequests l ++ flushRequests k.
Proof. apply omap_app. Qed.
Lemma flushSignals_app l k : flushSignals (l ++ k) = flushSignals l ++ flushSignals k.
Proof. unfold flushSignals. by rewrite fmap_app, concat_app. Qed.
Lemma sends_app l k : sends (l ++ k) = (sends l + sends k)%nat.
Proof. unfold sends. by rewrite omap_app, length_app. Qed.
Lemma submits_app l k : submits (l ++ k) = (submits l + submits k)%nat.
Proof. unfold submits. by rewrite omap_app, length_app. Qed.

Lemma flushInv_run acts q q' es reqs sigs nsend nsub :
  flushInv q reqs sigs nsend nsub -> dfqRun acts q = Some (q', es) ->
  flushInv q' (reqs ++ flushRequests acts) (sigs ++ flushSignals es)
    (nsend + sends acts) (nsub + submits es).
Proof.
  revert q es reqs sigs nsend nsub. induction acts as [|a acts IH];
    intros q es reqs sigs nsend nsub Hi H; simpl in H; simplify_eq.
  - unfold flushSignals, flushRequests, sends, submits. simpl.
    by rewrite !app_nil_r, !Nat.add_0_r.
  - destruct (dfq_step a q) as [[q1 es1]|] eqn:H1; [|done]. simpl in H.
    destruct (dfqRun acts q1) as [[q2 es2]|] eqn:H2; simpl in H; simplify_eq.
    apply (flushInv_step _ _ _ _ _ _ _ _ Hi) in H1. eapply IH in H1; [|exact H2].
    revert H1. change (a :: acts) with ([a] ++ acts).
    rewrite (flushRequests_app [a]), flushSignals_app, (sends_app [a]), submits_app.
    by rewrite <- !app_assoc, !Nat.add_assoc.
Qed.

Lemma flushInv_init cap : flushInv (NewDuplexFlowQueue cap) [] [] 0 0.
Proof. split; simpl; auto. by intros []. Qed.
End flush.

(** C16. Flushing: in every run of a queue the flush functions are called exactly
    once each, in the order in which [Flush] handed them over (those not called
    yet are the ones the worker keeps), and when the worker calls them every
    message queued with [Send] so far was submitted upstream. *)
Theorem flush_exactly_once {V : Varint} cap acts q es a q' es' fs :
  dfqRun acts (NewDuplexFlowQueue cap) = Some (q, es) ->
  flushRequests acts = flushSignals es ++ default [] (flushFinished q) /\
  (dfq_step a q = Some (q', es') -> EFlushed fs ∈ es' -> submits es = sends acts).
Proof.
  intros H. pose proof (flushInv_run _ _ _ _ _ _ _ _ (flushInv_init cap) H) as [Hw Ho Hn].
  split; [done|]. simpl in Hn. intros Hs Hin.
  destruct_dfq q.
  destruct a; simpl in Hs, Hn;
    unfold handlerStep, deliverStep, receiveStep, sendStep, takeSendMsg, reportStep in Hs;
    simpl in Hs; repeat (case_in Hs; simplify_eq/=); simplify_eq/=; try set_solver;
    try (destruct (0 <? _); set_solver); symmetry; rewrite Hn by done; simpl; lia.
Qed.

(** *** Priority *)

(** The counter of high-priority messages stays between -30000 and the queue
    size, so that its decrement never wraps to a positive number, however long
    the queue runs. *)
Theorem prioMsgs_bounds {V : Varint} cap acts q es :
  0 <= cap <= MaxQueueSize -> dfqRun acts (NewDuplexFlowQueue cap) = Some (q, es) ->
  - 30000 <= prioMsgs q <= cap.
Proof.
  unfold MaxQueueSize. intros Hc.
  assert (forall acts q es q0, dfqRun acts q0 = Some (q, es) ->
    qcap q0 = cap /\ Z.of_nat (length (sendQueue q0)) <= cap /\ -30000 <= prioMsgs q0 <= cap ->
    -30000 <= prioMsgs q <= cap) as Hrun.
  { clear acts q es. induction acts as [|a acts IH]; simpl; intros q es q0 H Hi; simplify_eq.
    { lia. }
    destruct (dfq_step a q0) as [[q1 es1]|] eqn:H1; simplify_eq/=.
    destruct (dfqRun acts q1) as [[q2 es2]|] eqn:H2; simplify_eq/=.
    eapply IH; [exact H2|]. clear IH H2. destruct_dfq q0. simpl in *.
    destruct a; simpl in H1;
      unfold handlerStep, deliverStep, receiveStep, sendStep, takeSendMsg, reportStep in H1;
      simpl in H1; repeat (case_in H1; simplify_eq/=); simplify_eq/=; rewrite ?length_app;
      fix_i32; simpl in *; try lia; case_match; lia. }
  intros H. eapply Hrun; [exact H|]. simpl. lia.
Qed.
