(* ===== verification/FlowWitness.v ===== *)
(** * Runs of the flow control at which the theorems apply

    The theorems of [FlowProps] and [FlowFlush] instantiated with the [Leb]
    varint encoding at concrete reachable states. *)

From S2P Require Import Prelude Varint FlowQueue FlowSystem FlowInv FlowProps FlowFlush.

#[local] Existing Instance leb128_laws.

Lemma exchange_reachable :
  reachable (sys_init 2) (sys_step (V := leb128)) (Runs.run 2 Runs.exchange).
Proof. apply Runs.run_reachable. vm_compute. eauto. Qed.
Lemma settled_reachable :
  reachable (sys_init 2) (sys_step (V := leb128))
    (Runs.run 2 (Runs.exchange ++ Runs.wakeAndSettle)).
Proof. apply Runs.run_reachable. vm_compute. eauto. Qed.

(** The wake-up after the report: the send of [wakeSender] is the next step. *)
Lemma flow_no_overflow_witness :
  exists s' es,
    sysExec (V := leb128) (true, SLocal AWakeSender) (Runs.run 2 Runs.exchange) = Some (s', es) /\
    EErr ErrQueueOverflow ∉ es /\ EErr ErrMalformedData ∉ es.
Proof.
  eexists _, _. split; [vm_compute; reflexivity|].
  eapply (flow_no_overflow (V := leb128) 2 (Runs.run 2 Runs.exchange) (true, SLocal AWakeSender));
    [lia|exact exchange_reachable|vm_compute; reflexivity].
Defined.

Lemma flow_exactly_once_witness :
  let t := Runs.run 2 Runs.exchange in
  holding (sent (outL t)) = [Runs.msg 7; Runs.msg 8] /\
  holding (sent (outL t)) =
    taken (outL t) ++ recvQueue (peer t)
    ++ holding (option_list (pendingMsg (dpc (peer t))))
    ++ holding (itemMsg <$> net (outL t)).
Proof.
  split; [vm_compute; reflexivity|].
  apply (flow_exactly_once (V := leb128) 2 (Runs.run 2 Runs.exchange));
    [lia|exact exchange_reachable|by left|vm_compute; discriminate].
Defined.

Lemma flow_credit_conserved_witness :
  let t := Runs.run 2 Runs.exchange in
  sendSpace (me t) - unsubtracted (hpc (me t)) + dataInFlight (outL t) (peer t)
    + creditInFlight (inL t) (me t) (peer t) + leaked (outL t)
    = reportedSpace (peer t) - undecremented (dpc (peer t)) /\
  reportedSpace (peer t) - undecremented (dpc (peer t)) + RecvQueueLen (peer t) <= 2 /\
  0 <= sendSpace (me t) <= 2 + unsubtracted (hpc (me t)) /\ 0 <= reportedSpace (peer t) <= 2.
Proof.
  apply (flow_credit_conserved (V := leb128) 2 (Runs.run 2 Runs.exchange));
    [lia|exact exchange_reachable|by left].
Defined.

Lemma flow_no_lost_wakeup_witness :
  let t := Runs.run 2 Runs.exchange in
  wakeSender (me t) = false /\ (wakeSender (me t) = true \/ exists m, dpc (me t) = DWake m).
Proof.
  split; [vm_compute; reflexivity|].
  apply (flow_no_lost_wakeup (V := leb128) 2 (Runs.run 2 Runs.exchange));
    [lia|exact exchange_reachable|by left|vm_compute; reflexivity..].
Defined.

Lemma flow_no_starvation_witness :
  let t := Runs.run 2 (Runs.exchange ++ Runs.wakeAndSettle) in
  taken (outL t) = [Runs.msg 7; Runs.msg 8] /\
  sendSpaceDepleted (me t) = false /\ 0 < sendSpace (me t).
Proof.
  split; [vm_compute; reflexivity|].
  apply (flow_no_starvation (V := leb128) 2 (Runs.run 2 (Runs.exchange ++ Runs.wakeAndSettle)));
    [lia|exact settled_reachable|by left|vm_compute; reflexivity|].
  apply (bool_decide_unpack _). vm_compute. exact I.
Defined.

Lemma flow_large_report_rejected_witness :
  let q := (NewDuplexFlowQueue 100000) <| reportedSpace := 20 |> <| hpc := HReport RForced RLoad |> in
  let p := NewDuplexFlowQueue 100000 in
  exists q1 q2 q3 q4 n,
    dfq_step (V := leb128) AReport q = Some (q1, []) /\
    dfq_step (V := leb128) AReport q1 = Some (q2, []) /\
    dfq_step (V := leb128) AReport q2 = Some (q3, []) /\
    dfq_step (V := leb128) ASubmit q3 = Some (q4, [ESubmitReport n]) /\
    let w := wireMsg (V := leb128) n (mkMsg [] false) in
    dfq_step (V := leb128) (ADeliver (Some w)) p = Some (p, [EFinish w; EErr ErrMalformedData]).
Proof.
  intros q p. apply (flow_large_report_rejected (V := leb128) q p); vm_compute; congruence.
Defined.

(** Two messages queued, a flush, both messages submitted. *)
Definition flushRun : list action :=
  [ASend (Runs.msg 1); ASend (Runs.msg 2); AFlush 5; ASendMsg; AReport; AReport; ASubmit;
   ADecrement; AFlushCheck; ASendMsg; AReport; AReport; ASubmit; ADecrement].

Lemma flush_exactly_once_witness :
  exists q es q', dfqRun (V := leb128) flushRun (NewDuplexFlowQueue 4) = Some (q, es) /\
    dfq_step (V := leb128) AFlushCheck q = Some (q', [EFlushed [5%nat]]) /\
    flushRequests flushRun = flushSignals es ++ default [] (flushFinished q) /\
    submits es = sends flushRun.
Proof.
  eexists _, _, _. split; [vm_compute; reflexivity|]. split; [vm_compute; reflexivity|].
  destruct (flush_exactly_once (V := leb128) 4 flushRun
    (default (NewDuplexFlowQueue 4)
      (fst <$> dfqRun (V := leb128) flushRun (NewDuplexFlowQueue 4)))
    (default [] (snd <$> dfqRun (V := leb128) flushRun (NewDuplexFlowQueue 4)))
    AFlushCheck
    ((NewDuplexFlowQueue 4) <| sendSpace := 2 |> <| prioMsgs := -2 |>)
    [EFlushed [5%nat]] [5%nat]) as [H1 H2]; [vm_compute; reflexivity|].
  split; [exact H1|]. apply H2; [vm_compute; reflexivity|by left].
Defined.

Lemma prioMsgs_bounds_witness :
  exists q es, dfqRun (V := leb128) flushRun (NewDuplexFlowQueue 4) = Some (q, es) /\
    -30000 <= prioMsgs q <= 4.
Proof.
  eexists _, _. split; [vm_compute; reflexivity|].
  eapply (prioMsgs_bounds (V := leb128) 4 flushRun); [vm_compute; split; discriminate|].
  vm_compute; reflexivity.
Defined.
