(* ===== verification/GoText.v ===== *)
(** * Go text functions: Fields, case conversion, numbers

    [strings.Fields], [strings.ToLower], [strings.ToUpper], [strconv.ParseUint]
    with base 10 and decimal formatting ([strconv.Itoa], [FormatInt]). *)

From S2P Require Import Prelude GoStrings.

(** ** Fields *)

(** The number of bytes of the white space character at the head of a UTF-8
    string ([unicode.IsSpace]: ASCII white space, U+0085, U+00A0, U+1680,
    U+2000..U+200A, U+2028, U+2029, U+202F, U+205F, U+3000); 0: none. *)
Definition space1 (a : ascii) : bool := inRange 9 13 a || (code a =? 32).
Definition space2 (a b : ascii) : bool := (code a =? 194) && ((code b =? 133) || (code b =? 160)).
Definition space3 (a b c : ascii) : bool :=
  (code a =? 225) && (code b =? 154) && (code c =? 128)
  || (code a =? 226) && (code b =? 128) &&
     (inRange 128 138 c || (code c =? 168) || (code c =? 169) || (code c =? 175))
  || (code a =? 226) && (code b =? 129) && (code c =? 159)
  || (code a =? 227) && (code b =? 128) && (code c =? 128).
Definition spaceLen (s : str) : nat :=
  match s with
  | a :: r =>
      if space1 a then 1%nat else
      match r with
      | b :: r =>
          if space2 a b then 2%nat else
          match r with
          | c :: _ => if space3 a b c then 3%nat else 0%nat
          | [] => 0%nat
          end
      | [] => 0%nat
      end
  | [] => 0%nat
  end.

Definition flushWord (w : str) : list str := match w with [] => [] | _ => [w] end.

(** [skip]: bytes of a white space character still to be skipped; [w]: the
    current word. *)
Fixpoint fieldsGo (skip : nat) (w : str) (s : str) : list str :=
  match s with
  | [] => flushWord w
  | c :: s' =>
      match skip with
      | S k => fieldsGo k w s'
      | O =>
          match spaceLen s with
          | O => fieldsGo 0 (w ++ [c]) s'
          | S k => flushWord w ++ fieldsGo k [] s'
          end
      end
  end.
Definition Fields (s : str) : list str := fieldsGo 0 [] s.

(** No white space starts in [w] when [r] follows it. *)
Fixpoint spaceFreeIn (w r : str) : Prop :=
  match w with
  | [] => True
  | _ :: w' => spaceLen (w ++ r) = 0%nat /\ spaceFreeIn w' r
  end.
Definition wordOk (w : str) : Prop := w <> [] /\ spaceFreeIn w [].

Lemma spaceFreeIn_app w1 w2 r :
  spaceFreeIn (w1 ++ w2) r <-> spaceFreeIn w1 (w2 ++ r) /\ spaceFreeIn w2 r.
Proof.
  induction w1 as [|c w1 IH]; [naive_solver|].
  cbn [spaceFreeIn app]. rewrite IH. cbn [app]. rewrite <- app_assoc. tauto.
Qed.

Lemma spaceLen_app_free t r : spaceLen (t ++ r) = 0%nat -> t <> [] -> spaceLen t = 0%nat.
Proof.
  destruct t as [|a [|b [|c t]]]; [done|..]; simpl; intros H _; repeat case_match; done.
Qed.
Lemma spaceFreeIn_nil w r : spaceFreeIn w r -> spaceFreeIn w [].
Proof.
  induction w as [|c w IH]; [done|]. cbn [spaceFreeIn]. intros [H Hw].
  rewrite app_nil_r. split; [by eapply spaceLen_app_free|auto].
Qed.

(** An ASCII byte that is no white space ends no white space character. *)
Definition sepOk (c : ascii) : Prop := code c < 128.
Lemma spaceLen_app_sep t c r : t <> [] -> spaceLen t = 0%nat -> sepOk c -> spaceLen (t ++ c :: r) = 0%nat.
Proof.
  intros Ht H Hc. unfold sepOk in Hc.
  assert (forall a, space2 a c = false) as H2.
  { intros a. unfold space2. lia. }
  assert (forall a b, space3 a b c = false) as H3.
  { intros a b. unfold space3, inRange. lia. }
  assert (forall a b, space3 a c b = false) as H4.
  { intros a b. unfold space3, inRange. lia. }
  destruct t as [|x [|y [|z t]]]; simpl in *; [done|..]; [| |done].
  - destruct (space1 x); [done|]. rewrite H2. destruct r; by rewrite ?H4.
  - destruct (space1 x), (space2 x y); try done. by rewrite H3.
Qed.
Lemma spaceFreeIn_sep w c r : spaceFreeIn w [] -> sepOk c -> spaceFreeIn w (c :: r).
Proof.
  intros H Hc. induction w as [|a w IH]; [done|]. cbn [spaceFreeIn] in *. destruct H as [H Hw].
  rewrite app_nil_r in H. split; [by apply spaceLen_app_sep|auto].
Qed.

Lemma fieldsGo_word w s r :
  spaceFreeIn s r -> fieldsGo 0 w (s ++ r) = fieldsGo 0 (w ++ s) r.
Proof.
  revert w. induction s as [|c s IH]; intros w; [by rewrite app_nil_r|].
  intros [H Hs]. cbn [fieldsGo app]. cbn [app] in H. rewrite H, IH by done.
  by rewrite <- app_assoc.
Qed.
Lemma flushWord_app w s : s <> [] -> flushWord (w ++ s) = [w ++ s].
Proof. by destruct w, s. Qed.

(** Splitting joined words gives the words back. *)
Lemma Fields_Join ws : Forall wordOk ws -> Fields (Join ws $" ") = ws.
Proof.
  unfold Fields. induction ws as [|w ws IH]; [done|]. intros [[Hn Hw] Hws]%Forall_cons.
  destruct ws as [|w2 ws].
  - simpl. rewrite <- (app_nil_r w) at 1. rewrite fieldsGo_word by done. simpl. by destruct w.
  - change (Join (w :: w2 :: ws) $" ") with (w ++ " "%char :: Join (w2 :: ws) $" ").
    rewrite fieldsGo_word by (by apply spaceFreeIn_sep).
    cbn [fieldsGo spaceLen]. change (space1 " ") with true. cbv iota.
    rewrite IH by done. simpl. by destruct w.
Qed.

Lemma fieldsGo_ok k w s :
  spaceFreeIn w s -> (w = [] \/ k = 0%nat) -> Forall wordOk (fieldsGo k w s).
Proof.
  revert k w. induction s as [|c s IH]; intros k w Hw Hk.
  - simpl. destruct w; [constructor|]. by apply Forall_singleton.
  - cbn [fieldsGo]. destruct k as [|k].
    + destruct (spaceLen (c :: s)) as [|k] eqn:E.
      * apply IH; [|by right]. apply spaceFreeIn_app. split; [done|]. by split.
      * apply Forall_app. split; [|apply IH; [done|by left]].
        destruct w; [constructor|]. constructor; [|constructor].
        split; [done|]. by eapply spaceFreeIn_nil.
    + destruct Hk as [->|?]; [|done]. apply IH; [done|by left].
Qed.

(** Every field is a non-empty word without white space. *)
Lemma Fields_ok s : Forall wordOk (Fields s).
Proof. apply fieldsGo_ok; [done|by left]. Qed.

(** A word of ASCII bytes that are no white space. *)
Lemma spaceFreeIn_ascii w :
  Forall (fun c => sepOk c /\ space1 c = false) w -> spaceFreeIn w [].
Proof.
  induction w as [|c w IH]; [done|]. intros [[Hc H1] Hw]%Forall_cons.
  split; [|auto]. rewrite app_nil_r. simpl. rewrite H1. unfold sepOk in Hc.
  destruct w as [|b w]; [done|].
  assert (space2 c b = false) as -> by (unfold space2; lia).
  destruct w as [|d w]; [done|].
  by assert (space3 c b d = false) as -> by (unfold space3; lia).
Qed.

(** ** Case conversion

    ASCII strings are converted byte by byte; the conversion of other strings
    follows the Unicode tables of the Go runtime, which are parameters. *)
Class UnicodeTables := { unicodeLower : str -> str; unicodeUpper : str -> str }.

Definition lowerByte (c : ascii) : ascii :=
  if isUpper c then ascii_of_nat (nat_of_ascii c + 32) else c.
Definition upperByte (c : ascii) : ascii :=
  if isLower c then ascii_of_nat (nat_of_ascii c - 32) else c.

Section case.
Context `{UnicodeTables}.

Definition ToLower (s : str) : str :=
  if all isASCII s then lowerByte <$> s else unicodeLower s.
Definition ToUpper (s : str) : str :=
  if all isASCII s then upperByte <$> s else unicodeUpper s.
End case.

(** ** Numbers *)
Definition digitVal (c : ascii) : Z := code c - 48.
Definition parseDigits (s : str) : Z := foldl (fun n c => n * 10 + digitVal c) 0 s.
(** [strconv.ParseUint(s, 10, bits)]; [None]: an error. *)
Definition ParseUint (s : str) (bits : Z) : option Z :=
  match s with
  | [] => None
  | _ => if all isDigit s && (parseDigits s <? 2 ^ bits) then Some (parseDigits s) else None
  end.

Definition digit (z : Z) : ascii := ascii_of_nat (Z.to_nat (48 + z)).
Fixpoint decGo (fuel : nat) (z : Z) (acc : str) : str :=
  match fuel with
  | O => acc
  | S fuel =>
      let acc := digit (z mod 10) :: acc in
      if z / 10 =? 0 then acc else decGo fuel (z / 10) acc
  end.
(** Decimal formatting of a Go integer; 20 digits hold every 64-bit value. *)
Definition Itoa (z : Z) : str :=
  if z <? 0 then "-"%char :: decGo 20 (- z) [] else decGo 20 z [].

Lemma code_digit z : 0 <= z <= 9 -> code (digit z) = 48 + z.
Proof.
  intros H. unfold code, digit. rewrite nat_ascii_embedding; lia.
Qed.
Lemma isDigit_digit z : 0 <= z <= 9 -> isDigit (digit z) = true.
Proof. intros H. unfold isDigit, inRange. rewrite code_digit by done. lia. Qed.

Lemma parseDigits_app a b :
  parseDigits (a ++ b) = parseDigits a * 10 ^ Z.of_nat (length b) + parseDigits b.
Proof.
  unfold parseDigits. rewrite foldl_app. generalize (foldl (fun n c => n * 10 + digitVal c) 0 a) as x.
  assert (forall b x y, foldl (fun n c => n * 10 + digitVal c) (x + y) b =
    x * 10 ^ Z.of_nat (length b) + foldl (fun n c => n * 10 + digitVal c) y b) as Hg.
  { clear. induction b as [|c b IH]; intros x y; [simpl; lia|].
    cbn [foldl length]. replace ((x + y) * 10 + digitVal c) with (x * 10 + (y * 10 + digitVal c)) by lia.
    rewrite IH, Nat2Z.inj_succ, Z.pow_succ_r by lia. lia. }
  intros x. rewrite <- (Z.add_0_r x) at 1. apply Hg.
Qed.

Lemma decGo_app fuel z acc : decGo fuel z acc = decGo fuel z [] ++ acc.
Proof.
  revert z acc. induction fuel as [|fuel IH]; intros z acc; simpl; [done|].
  case_match; [done|]. rewrite IH, (IH _ [_]). by rewrite <- app_assoc.
Qed.

Lemma decGo_spec fuel z :
  0 <= z < 10 ^ Z.of_nat fuel -> (0 < fuel)%nat ->
  parseDigits (decGo fuel z []) = z /\ all isDigit (decGo fuel z []) = true /\
  decGo fuel z [] <> [].
Proof.
  revert z. induction fuel as [|fuel IH]; intros z Hz Hf; [lia|].
  cbn [decGo]. pose proof (Z.mod_pos_bound z 10). pose proof (Z.div_mod z 10).
  destruct (z / 10 =? 0) eqn:E.
  - split; [|split; [|done]].
    + unfold parseDigits, digitVal. simpl. rewrite code_digit by lia. lia.
    + simpl. by rewrite isDigit_digit by lia.
  - rewrite decGo_app. rewrite Nat2Z.inj_succ, Z.pow_succ_r in Hz by lia.
    assert (0 < fuel)%nat as Hf2.
    { destruct fuel; [|lia]. change (10 ^ Z.of_nat 0) with 1 in Hz. lia. }
    destruct (IH (z / 10)) as (IH1 & IH2 & IH3); [lia|done|].
    split; [|split].
    + rewrite parseDigits_app, IH1. cbn [length]. unfold parseDigits, digitVal. simpl.
      rewrite code_digit by lia. lia.
    + unfold all in *. rewrite forallb_app, IH2. simpl. by rewrite isDigit_digit by lia.
    + by destruct (decGo fuel (z / 10) []).
Qed.

Lemma Itoa_spec z : 0 <= z < 10 ^ 20 ->
  parseDigits (Itoa z) = z /\ all isDigit (Itoa z) = true /\ Itoa z <> [].
Proof.
  intros H. unfold Itoa. assert (z <? 0 = false) as -> by lia.
  apply (decGo_spec 20); [|lia]. change (Z.of_nat 20) with 20. lia.
Qed.
Lemma ParseUint_Itoa z bits : 0 <= z < 2 ^ bits -> bits <= 64 -> ParseUint (Itoa z) bits = Some z.
Proof.
  intros H Hb. assert (2 ^ bits <= 2 ^ 64) by (apply Z.pow_le_mono_r; lia).
  destruct (Itoa_spec z) as (H1 & H2 & H3); [lia|]. unfold ParseUint.
  destruct (Itoa z) eqn:E; [done|]. rewrite H2, H1. simpl.
  by assert (z <? 2 ^ bits = true) as -> by lia.
Qed.
Lemma ParseUint_bounds s bits z : ParseUint s bits = Some z -> 0 <= z < 2 ^ bits.
Proof.
  unfold ParseUint. destruct s as [|c s]; [done|].
  destruct (all isDigit (c :: s)) eqn:E; [|done]. simpl andb. case_match; [|done]. intros [= <-].
  split; [|lia]. unfold parseDigits, all in *. clear H.
  assert (forall l x, forallb isDigit l = true -> 0 <= x ->
    0 <= foldl (fun n c => n * 10 + digitVal c) x l) as Hg; [|by apply Hg].
  clear. induction l as [|c l IH]; simpl; intros x H Hx; [done|].
  apply andb_true_iff in H as [H Hl]. apply IH; [done|].
  unfold isDigit, inRange, digitVal in *. lia.
Qed.
Lemma all_impl f g s : all f s = true -> (forall c, f c = true -> g c = true) -> all g s = true.
Proof. unfold all. rewrite !forallb_forall. auto. Qed.
Lemma all_not_in f s c : all f s = true -> f c = false -> c ∉ s.
Proof. unfold all. rewrite forallb_forall. intros H Hc Hin. apply list_elem_of_In, H in Hin. congruence. Qed.
