(* ===== verification/GoNet.v ===== *)
(** * Go package net

    What the code uses of [net.IP], [net.IPNet], [net.ParseIP] and
    [net.ParseCIDR]: an IP address is the list of its 4 or 16 bytes ([None]: the
    nil slice).  Parsing and formatting follow [netip.ParseAddr] and
    [netip.Addr.String]; parsing the formatted address gives it back. *)

From S2P Require Import Prelude GoStrings GoText.

Abbreviation IP := (list Z).

Definition isByte (b : Z) : Prop := 0 <= b < 256.
Definition v4InV6Prefix : IP := replicate 10 0 ++ [255; 255].
Definition IPv6zero : IP := replicate 16 0.
Definition IPv6loopback : IP := replicate 15 0 ++ [1].

Definition To4 (ip : IP) : option IP :=
  if bool_decide (length ip = 4%nat) then Some ip
  else if bool_decide (length ip = 16%nat) && bool_decide (take 12 ip = v4InV6Prefix)
  then Some (drop 12 ip) else None.

(** The address as 16 bytes; [None] unless it has 4 or 16 bytes. *)
Definition To16 (ip : IP) : option IP :=
  if bool_decide (length ip = 4%nat) then Some (v4InV6Prefix ++ ip)
  else if bool_decide (length ip = 16%nat) then Some ip else None.

Definition IPEqual (ip x : IP) : bool :=
  if bool_decide (length ip = length x) then bool_decide (ip = x)
  else if bool_decide (length ip = 4%nat) && bool_decide (length x = 16%nat)
  then bool_decide (take 12 x = v4InV6Prefix) && bool_decide (ip = drop 12 x)
  else if bool_decide (length ip = 16%nat) && bool_decide (length x = 4%nat)
  then bool_decide (take 12 ip = v4InV6Prefix) && bool_decide (drop 12 ip = x)
  else false.

(** ** Networks *)
Record IPNet := mkIPNet { netIP : IP; netMask : list Z }.
#[export] Instance IPNet_eq_dec : EqDecision IPNet.
Proof. solve_decision. Defined.

(** [net.CIDRMask(ones, bits)] for [0 <= ones <= bits], [bits] 32 or 128. *)
Fixpoint CIDRMaskGo (n : nat) (ones : Z) : list Z :=
  match n with
  | O => []
  | S n =>
      (if 8 <=? ones then 255 else Z.land (Z.lnot (Z.shiftr 255 ones)) 255)
      :: CIDRMaskGo n (Z.max 0 (ones - 8))
  end.
Definition CIDRMask (ones bits : Z) : list Z := CIDRMaskGo (Z.to_nat (bits / 8)) ones.

Definition andBytes (a b : list Z) : list Z := zip_with Z.land a b.

(** [ip.Mask(mask)]; [None]: nil, the lengths do not fit. *)
Definition IPMask (ip : IP) (mask : list Z) : option IP :=
  let mask := if bool_decide (length mask = 16%nat) && bool_decide (length ip = 4%nat)
                 && bool_decide (take 12 mask = replicate 12 255)
              then drop 12 mask else mask in
  let ip := if bool_decide (length mask = 4%nat) && bool_decide (length ip = 16%nat)
               && bool_decide (take 12 ip = v4InV6Prefix)
            then drop 12 ip else ip in
  if bool_decide (length ip = length mask) then Some (andBytes ip mask) else None.

Definition networkNumberAndMask (n : IPNet) : option (IP * list Z) :=
  ip ← match To4 (netIP n) with
       | Some ip => Some ip
       | None => if bool_decide (length (netIP n) = 16%nat) then Some (netIP n) else None
       end;
  if bool_decide (length (netMask n) = 4%nat) then
    if bool_decide (length ip = 4%nat) then Some (ip, netMask n) else None
  else if bool_decide (length (netMask n) = 16%nat) then
    Some (ip, if bool_decide (length ip = 4%nat) then drop 12 (netMask n) else netMask n)
  else None.

Definition NetContains (n : IPNet) (ip : IP) : bool :=
  let x := default ip (To4 ip) in
  match networkNumberAndMask n with
  | Some (nn, m) => bool_decide (length x = length nn) && bool_decide (andBytes nn m = andBytes x m)
  | None => bool_decide (x = [])
  end.

(** ** Parsing *)

(** [parseIPv4Fields]: exactly four decimal numbers below 256 without leading
    zeros, separated by dots. *)
Definition parseOctet (w : str) : option Z :=
  match w with
  | [] => None
  | c :: w' =>
      if bool_decide (c = "0"%char) && negb (bool_decide (w' = [])) then None
      else ParseUint w 8
  end.
Definition parseIPv4 (s : str) : option IP :=
  let ws := Split s "." in
  if bool_decide (length ws = 4%nat) then mapM parseOctet ws else None.

Definition hexVal (c : ascii) : option Z :=
  if isDigit c then Some (code c - 48)
  else if inRange 97 102 c then Some (code c - 87)
  else if inRange 65 70 c then Some (code c - 55)
  else None.

(** Reads the hexadecimal digits at the head of [s]: their number, their value
    and the rest; [None] for more than four digits. *)
Fixpoint hexPrefix (s : str) (n : nat) (acc : Z) : option (nat * Z * str) :=
  match s with
  | [] => Some (n, acc, [])
  | c :: s' =>
      match hexVal c with
      | Some d => if (3 <? Z.of_nat n) then None else hexPrefix s' (S n) (acc * 16 + d)
      | None => Some (n, acc, s)
      end
  end.

(** The loop of [parseIPv6] over the groups: [bs] are the bytes so far, [ell]
    the position of the ellipsis.  The result: all bytes and the ellipsis; each
    round adds two bytes, and a ninth round finds the 16 bytes and stops. *)
Fixpoint v6Loop (fuel : nat) (s : str) (bs : list Z) (ell : option nat) : option (list Z * option nat) :=
  match fuel with
  | O => None
  | S fuel =>
      if (16 <=? Z.of_nat (length bs)) then
        if bool_decide (s = []) then Some (bs, ell) else None
      else
      '(off, acc, r) ← hexPrefix s 0 0;
      if bool_decide (off = 0%nat) then None else
      match r with
      | [] => Some (bs ++ [acc / 256; acc mod 256], ell)
      | "."%char :: _ =>
          if (bool_decide (ell = None) && negb (bool_decide (length bs = 12%nat)))
             || (16 <? Z.of_nat (length bs) + 4) then None
          else q ← parseIPv4 s; Some (bs ++ q, ell)
      | ":"%char :: r =>
          let bs := bs ++ [acc / 256; acc mod 256] in
          match r with
          | [] => None
          | ":"%char :: r =>
              match ell with
              | Some _ => None
              | None => match r with
                        | [] => Some (bs, Some (length bs))
                        | _ => v6Loop fuel r bs (Some (length bs))
                        end
              end
          | _ => v6Loop fuel r bs ell
          end
      | _ => None
      end
  end.
Definition expandEllipsis (bs : list Z) (ell : option nat) : option IP :=
  if (Z.of_nat (length bs) <? 16) then
    match ell with
    | None => None
    | Some e => Some (take e bs ++ replicate (16 - length bs) 0 ++ drop e bs)
    end
  else match ell with None => Some bs | Some _ => None end.
Definition parseIPv6 (s : str) : option IP :=
  if HasPrefix s $"::" then
    match drop 2 s with
    | [] => Some (replicate 16 0)
    | r => '(bs, ell) ← v6Loop 9 r [] (Some 0%nat); expandEllipsis bs ell
    end
  else '(bs, ell) ← v6Loop 9 s [] None; expandEllipsis bs ell.

(** [netip.ParseAddr], zones refused (as [net.ParseIP] and [net.ParseCIDR] do):
    the first dot, colon or percent sign decides the family. *)
Definition ParseAddr (s : str) : option IP :=
  if existsb (fun c => bool_decide (c = "%"%char)) s then None else
  match find (oneOf $".:") s with
  | Some "."%char => parseIPv4 s
  | Some _ => parseIPv6 s
  | None => None
  end.
Definition ParseIP (s : str) : option IP := a ← ParseAddr s; To16 a.

(** [net.ParseCIDR]: the network.  [dtoi] stops at numbers of 0xFFFFFF or more. *)
Fixpoint cut (s : str) (sep : ascii) : option (str * str) :=
  match s with
  | [] => None
  | c :: s => if bool_decide (c = sep) then Some ([], s)
              else '(a, b) ← cut s sep; Some (c :: a, b)
  end.
Definition dtoi (s : str) : option Z :=
  match s with
  | [] => None
  | _ => if all isDigit s && (parseDigits s <? 16777215) then Some (parseDigits s) else None
  end.
Definition ParseCIDR (s : str) : option IPNet :=
  '(addr, mask) ← cut s "/";
  a ← ParseAddr addr;
  n ← dtoi mask;
  let bits := 8 * Z.of_nat (length a) in
  if bits <? n then None else
  let m := CIDRMask n bits in
  a16 ← To16 a;
  ip ← IPMask a16 m;
  Some (mkIPNet ip m).

(** ** Formatting *)
Definition hexDigit (z : Z) : ascii :=
  ascii_of_nat (Z.to_nat (if z <? 10 then 48 + z else 87 + z)).
(** [appendHex]: no leading zeros. *)
Definition hexStr (g : Z) : str :=
  (if 4096 <=? g then [hexDigit (g / 4096)] else []) ++
  (if 256 <=? g then [hexDigit (g / 256 mod 16)] else []) ++
  (if 16 <=? g then [hexDigit (g / 16 mod 16)] else []) ++
  [hexDigit (g mod 16)].

Fixpoint groups (ip : list Z) : list Z :=
  match ip with a :: b :: r => (a * 256 + b) :: groups r | _ => [] end.

(** The number of zero groups at the head. *)
Fixpoint zeroRun (gs : list Z) : nat :=
  match gs with g :: r => if g =? 0 then S (zeroRun r) else O | [] => O end.
(** The longest run of at least two zero groups, the first of those: its start
    and end; [i] is the position of the head of [gs], [best] the run so far. *)
Fixpoint bestRun (gs : list Z) (i : nat) (best : nat * nat) : nat * nat :=
  match gs with
  | [] => best
  | _ :: r =>
      let l := zeroRun gs in
      bestRun r (S i) (if (2 <=? l)%nat && (best.2 - best.1 <? l)%nat then (i, (i + l)%nat) else best)
  end.
Definition appendTo6 (gs : list Z) : str :=
  let '(zs, ze) := bestRun gs 0 (255%nat, 255%nat) in
  if (zs <? 8)%nat
  then Join (hexStr <$> take zs gs) $":" ++ $"::" ++ Join (hexStr <$> drop ze gs) $":"
  else Join (hexStr <$> gs) $":".

Definition IPString (ip : IP) : str :=
  if bool_decide (ip = []) then $"<nil>" else
  match To4 ip with
  | Some p4 => Join (Itoa <$> p4) $"."
  | None =>
      if bool_decide (length ip = 16%nat) then appendTo6 (groups ip)
      else "?"%char :: concat ((fun b => [hexDigit (b / 16); hexDigit (b mod 16)]) <$> ip)
  end.

(** [simpleMaskLength]: the number of leading ones; [None]: not such a mask. *)
Fixpoint maskOnes (k : nat) (b : Z) : nat :=
  match k with
  | O => O
  | S k => if Z.testbit b 7 then S (maskOnes k (Z.land (b * 2) 255)) else O
  end.
Fixpoint simpleMaskLength (m : list Z) : option Z :=
  match m with
  | [] => Some 0
  | b :: m =>
      if b =? 255 then n ← simpleMaskLength m; Some (8 + n)
      else
        let n := maskOnes 8 b in
        if bool_decide (Z.land (Z.shiftl b (Z.of_nat n)) 255 = 0) && forallb (Z.eqb 0) m
        then Some (Z.of_nat n) else None
  end.
Definition hexString (b : list Z) : str :=
  concat ((fun b => [hexDigit (b / 16); hexDigit (b mod 16)]) <$> b).
Definition NetString (n : IPNet) : str :=
  match networkNumberAndMask n with
  | None => $"<nil>"
  | Some (nn, m) =>
      match simpleMaskLength m with
      | None => IPString nn ++ $"/" ++ hexString m
      | Some l => IPString nn ++ $"/" ++ Itoa l
      end
  end.

(** [net.JoinHostPort] *)
Definition JoinHostPort (host port : str) : str :=
  if Contains host $":" then $"[" ++ host ++ $"]:" ++ port else host ++ $":" ++ port.

Example ex1 : ParseIP $"2001:db8::1:0:0:1" = Some [32;1;13;184;0;0;0;0;0;1;0;0;0;0;0;1].
Proof. vm_compute. reflexivity. Qed.
Example ex2 : IPString <$> (ParseIP $"2001:DB8:0:0:1:0:0:1") = Some $"2001:db8::1:0:0:1".
Proof. vm_compute. reflexivity. Qed.
Example ex3 : NetString <$> (ParseCIDR $"192.168.3.77/20") = Some $"192.168.0.0/20".
Proof. vm_compute. reflexivity. Qed.
Example ex4 : IPString <$> (ParseIP $"::ffff:1.2.3.4") = Some $"1.2.3.4".
Proof. vm_compute. reflexivity. Qed.
Example ex5 : IPString <$> (ParseIP $"1::") = Some $"1::".
Proof. vm_compute. reflexivity. Qed.
Example ex6 : ParseIP $"1.2.3.04" = None /\ ParseIP $"1::2::3" = None /\ ParseIP $"1:2:3:4:5:6:7:8:9" = None /\ ParseIP $"12345::" = None /\ ParseIP $"::1:" = None.
Proof. vm_compute. auto. Qed.
Example ex7 : NetString <$> (ParseCIDR $"fe80::1/10") = Some $"fe80::/10".
Proof. vm_compute. reflexivity. Qed.
