(* ===== verification/GoNetFacts.v ===== *)
(** * Facts about net addresses

    Parsing a formatted address gives it back ([ParseIP_IPString]), for
    addresses of 4 and of 16 bytes, and likewise for networks
    ([ParseCIDR_NetString]). *)

From S2P Require Import Prelude GoStrings GoText GoNet.

Lemma Forall_seqZ_check (P : Z -> bool) n :
  forallb P (seqZ 0 n) = true -> forall z, 0 <= z < n -> P z = true.
Proof. rewrite forallb_forall. intros H z Hz. apply H, list_elem_of_In, elem_of_seqZ. lia. Qed.

(** ** Digits *)
Lemma hexDigit_checked z : 0 <= z < 16 ->
  hexVal (hexDigit z) = Some z /\ oneOf $"%.:/ #" (hexDigit z) = false.
Proof.
  intros H.
  assert (forallb (fun z => bool_decide (hexVal (hexDigit z) = Some z)
    && negb (oneOf $"%.:/ #" (hexDigit z))) (seqZ 0 16) = true) as Hall by (vm_compute; reflexivity).
  pose proof (Forall_seqZ_check _ _ Hall z H) as Hz. cbv beta in Hz.
  apply andb_true_iff in Hz as [H1 H2]. apply bool_decide_eq_true in H1.
  apply negb_true_iff in H2. done.
Qed.
Lemma parseOctet_Itoa z : 0 <= z < 256 -> parseOctet (Itoa z) = Some z.
Proof.
  intros H.
  assert (forallb (fun z => bool_decide (parseOctet (Itoa z) = Some z)) (seqZ 0 256) = true)
    as Hall by (vm_compute; reflexivity).
  pose proof (Forall_seqZ_check _ _ Hall z H) as Hz. by apply bool_decide_eq_true in Hz.
Qed.
Lemma Itoa_digits z c : 0 <= z < 10 ^ 20 -> c ∈ Itoa z -> isDigit c = true.
Proof.
  intros H Hc. destruct (Itoa_spec z H) as (_ & Hd & _). unfold all in Hd.
  rewrite forallb_forall in Hd. by apply Hd, list_elem_of_In.
Qed.

Lemma app_sep_inj (c : ascii) (l1 l2 r1 r2 : str) :
  c ∉ l1 -> c ∉ l2 -> l1 ++ c :: r1 = l2 ++ c :: r2 -> l1 = l2 /\ r1 = r2.
Proof.
  revert l2. induction l1 as [|x l1 IH]; intros [|y l2] H1 H2 E.
  - by injection E.
  - injection E as -> _. set_solver.
  - injection E as <- _. set_solver.
  - injection E as <- E. destruct (IH l2) as [-> ->]; [set_solver..|done].
Qed.
Lemma Itoa_inj a b : 0 <= a < 10 ^ 20 -> 0 <= b < 10 ^ 20 -> Itoa a = Itoa b -> a = b.
Proof. intros Ha Hb E. destruct (Itoa_spec a Ha) as [<- _], (Itoa_spec b Hb) as [<- _]. by rewrite E. Qed.

(** ** Characters of joined words *)
Lemma elem_of_Join c ws sep :
  c ∈ Join ws sep -> c ∈ sep \/ exists w, w ∈ ws /\ c ∈ w.
Proof.
  induction ws as [|w ws IH]; simpl; [set_solver|]. destruct ws as [|w2 ws].
  - intros H. right. exists w. split; [left|done].
  - rewrite !elem_of_app. intros [H|[H|H]]; [right; exists w; split; [left|done]|by left|].
    destruct (IH H) as [?|(w' & ? & ?)]; [by left|right; exists w'; split; [by right|done]].
Qed.
Lemma find_none_app {A} (f : A -> bool) l r x :
  Forall (fun a => f a = false) l -> f x = true -> find f (l ++ x :: r) = Some x.
Proof. induction 1 as [|a l Ha _ IH]; simpl; intros Hx; [by rewrite Hx|]. by rewrite Ha, IH. Qed.
Lemma existsb_none {A} (f : A -> bool) l : (forall a, a ∈ l -> f a = false) -> existsb f l = false.
Proof.
  intros H. apply not_true_iff_false. rewrite existsb_exists. intros (a & Ha & Hf).
  apply list_elem_of_In, H in Ha. congruence.
Qed.
Lemma Join_cons2 w w2 ws sep : Join (w :: w2 :: ws) sep = w ++ sep ++ Join (w2 :: ws) sep.
Proof. done. Qed.

(** ** IPv4 *)
Lemma mapM_parseOctet p : Forall isByte p -> mapM parseOctet (Itoa <$> p) = Some p.
Proof.
  rewrite mapM_Some, Forall2_fmap_l. induction 1; constructor; [by apply parseOctet_Itoa|done].
Qed.
Lemma byte_Itoa z : isByte z -> 0 <= z < 10 ^ 20.
Proof. unfold isByte. lia. Qed.

Lemma parseIPv4_join p : Forall isByte p -> length p = 4%nat -> parseIPv4 (Join (Itoa <$> p) $".") = Some p.
Proof.
  intros Hp Hl. unfold parseIPv4. change $"." with ["."%char]. rewrite Split_Join.
  - rewrite length_fmap, Hl. simpl. by apply mapM_parseOctet.
  - by destruct p.
  - apply Forall_fmap. eapply Forall_impl; [exact Hp|]. intros z Hz Hin.
    by apply Itoa_digits in Hin; [|by apply byte_Itoa].
Qed.

Lemma ParseAddr_v4 p : Forall isByte p -> length p = 4%nat ->
  ParseAddr (Join (Itoa <$> p) $".") = Some p.
Proof.
  intros Hp Hl. unfold ParseAddr. rewrite existsb_none.
  - assert (find (oneOf $".:") (Join (Itoa <$> p) $".") = Some "."%char) as ->;
      [|by apply parseIPv4_join].
    destruct p as [|a [|b p]]; try done. apply Forall_cons in Hp as [Ha _].
    rewrite !fmap_cons, Join_cons2. simpl app. rewrite find_none_app; [done| |done].
    apply Forall_forall. intros c Hc. apply Itoa_digits in Hc; [|by apply byte_Itoa].
    unfold oneOf. apply existsb_none. intros d Hd. apply bool_decide_eq_false. intros ->.
    by repeat (apply elem_of_cons in Hd as [->|Hd]; [done|]); apply elem_of_nil in Hd.
  - intros c Hc. apply bool_decide_eq_false. intros ->.
    apply elem_of_Join in Hc as [Hc|(w & Hw & Hc)]; [by apply list_elem_of_singleton in Hc|].
    apply list_elem_of_fmap in Hw as (z & -> & Hz). rewrite Forall_forall in Hp.
    by apply Itoa_digits in Hc; [|by apply byte_Itoa, Hp].
Qed.

(** ** IPv6 groups *)
Definition isGroup (g : Z) : Prop := 0 <= g < 65536.
Definition groupBytes (gs : list Z) : list Z := concat ((fun g => [g / 256; g mod 256]) <$> gs).

Lemma hexPrefix_app s r n acc m v :
  hexPrefix s n acc = Some (m, v, []) ->
  match r with [] => True | c :: _ => hexVal c = None end ->
  hexPrefix (s ++ r) n acc = Some (m, v, r).
Proof.
  revert n acc. induction s as [|c s IH]; simpl; intros n acc H Hr.
  - simplify_eq. destruct r as [|c r]; simpl; [done|]. by rewrite Hr.
  - destruct (hexVal c); [|done]. destruct (3 <? Z.of_nat n); [done|]. by apply IH.
Qed.
Lemma hexPrefix_digit z s n acc : 0 <= z < 16 -> (n <= 3)%nat ->
  hexPrefix (hexDigit z :: s) n acc = hexPrefix s (S n) (acc * 16 + z).
Proof.
  intros Hz Hn. cbn [hexPrefix]. rewrite (proj1 (hexDigit_checked z Hz)).
  by assert (3 <? Z.of_nat n = false) as -> by lia.
Qed.
Lemma hexPrefix_hexStr g : isGroup g ->
  exists n, hexPrefix (hexStr g) 0 0 = Some (S n, g, []).
Proof.
  unfold isGroup. intros Hg. unfold hexStr.
  pose proof (Z.div_mod g 16). pose proof (Z.div_mod (g / 16) 16). pose proof (Z.div_mod (g / 256) 16).
  pose proof (Z.mod_pos_bound g 16). pose proof (Z.mod_pos_bound (g / 16) 16).
  pose proof (Z.mod_pos_bound (g / 256) 16).
  replace (g / 16 / 16) with (g / 256) in * by (by rewrite Z.div_div).
  replace (g / 256 / 16) with (g / 4096) in * by (by rewrite Z.div_div).
  assert (0 <= g / 4096 < 16) by (split; [apply Z.div_pos; lia|apply Z.div_lt_upper_bound; lia]).
  destruct (4096 <=? g) eqn:E1, (256 <=? g) eqn:E2, (16 <=? g) eqn:E3; bool_prop; try lia; cbn [app];
    rewrite !hexPrefix_digit by lia; eexists; simpl; repeat f_equal; lia.
Qed.
Lemma hexStr_cons g : isGroup g -> exists z s, 0 <= z < 16 /\ hexStr g = hexDigit z :: s.
Proof.
  unfold isGroup. intros Hg. unfold hexStr.
  assert (0 <= g / 4096 < 16) by (split; [apply Z.div_pos; lia|apply Z.div_lt_upper_bound; lia]).
  pose proof (Z.mod_pos_bound g 16). pose proof (Z.mod_pos_bound (g / 16) 16).
  pose proof (Z.mod_pos_bound (g / 256) 16).
  repeat case_match; cbn [app]; eexists _, _; (split; [|done]); lia.
Qed.
Lemma hexStr_chars g c : isGroup g -> c ∈ hexStr g -> oneOf $"%.:/ #" c = false.
Proof.
  unfold isGroup. intros Hg.
  assert (0 <= g / 4096 < 16) by (split; [apply Z.div_pos; lia|apply Z.div_lt_upper_bound; lia]).
  pose proof (Z.mod_pos_bound g 16). pose proof (Z.mod_pos_bound (g / 16) 16).
  pose proof (Z.mod_pos_bound (g / 256) 16).
  unfold hexStr. rewrite !elem_of_app.
  intros [Hc|[Hc|[Hc|Hc]]]; try case_match; try (by apply elem_of_nil in Hc);
    apply list_elem_of_singleton in Hc as ->; apply hexDigit_checked; lia.
Qed.

Lemma groupBytes_cons g gs : groupBytes (g :: gs) = [g / 256; g mod 256] ++ groupBytes gs.
Proof. done. Qed.
Lemma length_groupBytes gs : length (groupBytes gs) = (2 * length gs)%nat.
Proof. induction gs as [|g gs IH]; [done|]. rewrite groupBytes_cons, length_app, IH. simpl. lia. Qed.
Lemma groupBytes_app a b : groupBytes (a ++ b) = groupBytes a ++ groupBytes b.
Proof. unfold groupBytes. by rewrite fmap_app, concat_app. Qed.
Lemma hexDigit_not_colon z : 0 <= z < 16 -> hexDigit z <> ":"%char.
Proof. intros H E. pose proof (proj2 (hexDigit_checked z H)) as Hd. by rewrite E in Hd. Qed.
Lemma Join_hex_head gs : Forall isGroup gs -> gs <> [] ->
  exists z s, 0 <= z < 16 /\ Join (hexStr <$> gs) $":" = hexDigit z :: s.
Proof.
  destruct gs as [|g gs]; [done|]. intros [Hg _]%Forall_cons _.
  destruct (hexStr_cons g Hg) as (z & s & Hz & E). exists z.
  destruct gs as [|g2 gs]; [by exists s|].
  rewrite !fmap_cons, Join_cons2, E. by eexists.
Qed.

(** One round of the loop on a group that ends the text. *)
Lemma v6Loop_last fuel g bs ell :
  isGroup g -> (length bs < 16)%nat ->
  v6Loop (S fuel) (hexStr g) bs ell = Some (bs ++ [g / 256; g mod 256], ell).
Proof.
  intros Hg Hl. cbn [v6Loop]. assert (16 <=? Z.of_nat (length bs) = false) as -> by lia.
  destruct (hexPrefix_hexStr g Hg) as [n ->]. done.
Qed.
(** One round on a group followed by a colon and a further group. *)
Lemma v6Loop_more fuel g z s bs ell :
  isGroup g -> (length bs < 16)%nat -> 0 <= z < 16 ->
  v6Loop (S fuel) (hexStr g ++ ":"%char :: hexDigit z :: s) bs ell =
  v6Loop fuel (hexDigit z :: s) (bs ++ [g / 256; g mod 256]) ell.
Proof.
  intros Hg Hl Hz. cbn [v6Loop]. assert (16 <=? Z.of_nat (length bs) = false) as -> by lia.
  destruct (hexPrefix_hexStr g Hg) as [n Hn].
  rewrite (hexPrefix_app _ (":"%char :: hexDigit z :: s) _ _ _ _ Hn) by done. simpl.
  pose proof (hexDigit_not_colon z Hz). destruct (hexDigit z) as [[] [] [] [] [] [] [] []]; done.
Qed.
(** One round on a group followed by the ellipsis. *)
Lemma v6Loop_ellipsis fuel g s bs :
  isGroup g -> (length bs < 16)%nat ->
  v6Loop (S fuel) (hexStr g ++ ":"%char :: ":"%char :: s) bs None =
  let bs' := bs ++ [g / 256; g mod 256] in
  match s with
  | [] => Some (bs', Some (length bs'))
  | _ => v6Loop fuel s bs' (Some (length bs'))
  end.
Proof.
  intros Hg Hl. cbn [v6Loop]. assert (16 <=? Z.of_nat (length bs) = false) as -> by lia.
  destruct (hexPrefix_hexStr g Hg) as [n Hn].
  rewrite (hexPrefix_app _ (":"%char :: ":"%char :: s) _ _ _ _ Hn) by done. simpl.
  by destruct s.
Qed.

Lemma v6Loop_groups gs fuel bs ell :
  gs <> [] -> Forall isGroup gs -> (length bs + 2 * length gs <= 16)%nat -> (length gs <= fuel)%nat ->
  v6Loop fuel (Join (hexStr <$> gs) $":") bs ell = Some (bs ++ groupBytes gs, ell).
Proof.
  revert fuel bs. induction gs as [|g gs IH]; [done|]. intros fuel bs _ [Hg Hgs]%Forall_cons Hl Hf.
  simpl in Hl, Hf. destruct fuel as [|fuel]; [lia|]. destruct gs as [|g2 gs].
  - apply v6Loop_last; [done|lia].
  - rewrite !fmap_cons, Join_cons2, <- fmap_cons. change ($":" ++ ?x) with (":"%char :: x).
    destruct (Join_hex_head (g2 :: gs) Hgs) as (z & s & Hz & E); [done|].
    rewrite E, v6Loop_more by (done || lia). rewrite <- E.
    rewrite IH; [|done|done|rewrite length_app; simpl in *; lia|simpl in *; lia].
    by rewrite (groupBytes_cons g), app_assoc.
Qed.

Lemma v6Loop_groups_ellipsis gs gs2 fuel bs :
  gs <> [] -> Forall isGroup gs -> Forall isGroup gs2 ->
  (length bs + 2 * (length gs + length gs2) <= 16)%nat -> (length gs + length gs2 <= fuel)%nat ->
  v6Loop fuel (Join (hexStr <$> gs) $":" ++ $"::" ++ Join (hexStr <$> gs2) $":") bs None =
  Some (bs ++ groupBytes gs ++ groupBytes gs2, Some (length bs + 2 * length gs)%nat).
Proof.
  revert fuel bs. induction gs as [|g gs IH]; [done|].
  intros fuel bs _ [Hg Hgs]%Forall_cons Hgs2 Hl Hf.
  simpl in Hl, Hf. destruct fuel as [|fuel]; [lia|]. destruct gs as [|g2 gs].
  - change (Join (hexStr <$> [g]) $":") with (hexStr g).
    change ($"::" ++ ?x) with (":"%char :: ":"%char :: x).
    rewrite v6Loop_ellipsis by (done || lia). cbv zeta.
    destruct gs2 as [|g2 gs2].
    + simpl. rewrite length_app. done.
    + destruct (Join_hex_head (g2 :: gs2) Hgs2) as (z & s & Hz & E); [done|].
      rewrite E. rewrite <- E, v6Loop_groups; [|done|done|rewrite length_app; simpl in *; lia|simpl in *; lia].
      rewrite length_app, <- app_assoc. done.
  - rewrite !fmap_cons, Join_cons2, <- fmap_cons, <- !app_assoc.
    change ($":" ++ ?x) with (":"%char :: x).
    destruct (Join_hex_head (g2 :: gs) Hgs) as (z & s & Hz & E); [done|].
    rewrite E. cbn [app]. rewrite v6Loop_more by (done || lia).
    change (hexDigit z :: s ++ ?x) with ((hexDigit z :: s) ++ x). rewrite <- E.
    rewrite (IH fuel); [|done|done|done|rewrite length_app; simpl in *; lia|simpl in *; lia].
    rewrite (groupBytes_cons g), length_app, <- !app_assoc. simpl. do 3 f_equal. lia.
Qed.

(** ** The run of zeros *)
Lemma zeroRun_spec gs : (zeroRun gs <= length gs)%nat /\ take (zeroRun gs) gs = replicate (zeroRun gs) 0.
Proof.
  induction gs as [|g gs [IH1 IH2]]; simpl; [done|].
  destruct (g =? 0) eqn:E; simpl; [|split; [lia|done]]. apply Z.eqb_eq in E. subst.
  split; [lia|by f_equal].
Qed.
Definition runOf (gs : list Z) (r : nat * nat) : Prop :=
  r = (255%nat, 255%nat) \/
  (r.1 + 2 <= r.2 <= length gs)%nat /\ gs = take r.1 gs ++ replicate (r.2 - r.1) 0 ++ drop r.2 gs.
Lemma bestRun_spec gs0 gs i best :
  drop i gs0 = gs -> (i <= length gs0)%nat -> runOf gs0 best -> runOf gs0 (bestRun gs i best).
Proof.
  revert i best. induction gs as [|g gs IH]; intros i best Hd Hi Hb; [done|].
  assert (i < length gs0)%nat.
  { apply (f_equal length) in Hd. rewrite length_drop in Hd. simpl in Hd. lia. }
  cbn [bestRun]. apply IH; [|lia|].
  - by rewrite <- Nat.add_1_r, <- drop_drop, Hd.
  - destruct (_ && _) eqn:E; [|done]. apply andb_true_iff in E as [E1 _]. apply Nat.leb_le in E1.
    pose proof (zeroRun_spec (g :: gs)) as [H1 H2].
    set (k := zeroRun (g :: gs)) in *.
    assert (length (g :: gs) = length gs0 - i)%nat as Hlen by (by rewrite <- Hd, length_drop).
    right. cbn [fst snd]. split; [lia|].
    rewrite <- (take_drop i gs0) at 1. f_equal. rewrite Hd, <- drop_drop, Hd.
    replace (i + k - i)%nat with k by lia. rewrite <- H2. by rewrite take_drop.
Qed.

(** ** IPv6 *)
Lemma groupBytes_zeros n : groupBytes (replicate n 0) = replicate (2 * n) 0.
Proof.
  induction n as [|n IH]; [done|]. cbn [replicate]. rewrite groupBytes_cons, IH.
  change (0 / 256) with 0. change (0 mod 256) with 0. cbn [app].
  by replace (2 * S n)%nat with (S (S (2 * n))) by lia.
Qed.
Lemma groupBytes_groups ip : Forall isByte ip -> Nat.Even (length ip) -> groupBytes (groups ip) = ip.
Proof.
  intros H [n Hn]. revert ip H Hn. induction n as [|n IH]; intros ip H Hn.
  - by destruct ip.
  - destruct ip as [|a [|b ip]]; [simpl in Hn; lia..|].
    apply Forall_cons in H as [Ha H]. apply Forall_cons in H as [Hb H].
    cbn [groups]. rewrite groupBytes_cons, IH; [|done|simpl in Hn; lia].
    unfold isByte in *. rewrite Z.div_add_l, (Z.div_small b), Z.add_0_r by lia.
    by rewrite (Z.add_comm (a * 256)), Z.mod_add, Z.mod_small by lia.
Qed.
Lemma groups_ok ip : Forall isByte ip -> Forall isGroup (groups ip).
Proof.
  revert ip. fix IH 1. intros [|a [|b ip]] H; try constructor.
  - apply Forall_cons in H as [Ha H]. apply Forall_cons in H as [Hb H]. unfold isByte, isGroup in *. lia.
  - apply IH. by do 2 apply Forall_cons in H as [_ H].
Qed.
Lemma length_groups ip n : length ip = (2 * n)%nat -> length (groups ip) = n.
Proof.
  revert ip. induction n as [|n IH]; intros ip H; [by destruct ip|].
  destruct ip as [|a [|b ip]]; simpl in *; [lia..|]. f_equal. apply IH. lia.
Qed.

(** The two forms of a formatted IPv6 address. *)
Lemma appendTo6_cases gs : length gs = 8%nat ->
  appendTo6 gs = Join (hexStr <$> gs) $":" \/
  exists zs ze, (zs + 2 <= ze <= 8)%nat /\ gs = take zs gs ++ replicate (ze - zs) 0 ++ drop ze gs /\
    appendTo6 gs = Join (hexStr <$> take zs gs) $":" ++ $"::" ++ Join (hexStr <$> drop ze gs) $":".
Proof.
  intros Hl. unfold appendTo6.
  assert (runOf gs (bestRun gs 0 (255%nat, 255%nat))) as H.
  { apply bestRun_spec; [done|lia|by left]. }
  destruct (bestRun _ _ _) as [zs ze]. destruct H as [[= -> ->]|[H1 H2]]; [by left|].
  cbn [fst snd] in *. right. exists zs, ze. rewrite Hl in H1.
  assert ((zs <? 8)%nat = true) as -> by (apply Nat.ltb_lt; lia). split; [lia|done].
Qed.

Lemma parseIPv6_appendTo6 gs : length gs = 8%nat -> Forall isGroup gs ->
  parseIPv6 (appendTo6 gs) = Some (groupBytes gs).
Proof.
  intros Hl Hg. destruct (appendTo6_cases gs Hl) as [->|(zs & ze & Hz & Hgs & ->)].
  - unfold parseIPv6. destruct gs as [|g [|g2 gs]]; try done.
    rewrite !fmap_cons, Join_cons2, <- !fmap_cons. apply Forall_cons in Hg as [Hg1 Hg2].
    destruct (hexStr_cons g Hg1) as (z & s & Hz & E).
    assert (HasPrefix (hexStr g ++ $":" ++ Join (hexStr <$> g2 :: gs) $":") $"::" = false) as ->.
    { rewrite E. unfold HasPrefix. simpl. pose proof (hexDigit_not_colon z Hz).
      rewrite bool_decide_false; [done|]. congruence. }
    rewrite fmap_cons, <- Join_cons2, <- !fmap_cons.
    rewrite v6Loop_groups; [|done|by constructor|simpl in *; lia|simpl in *; lia].
    simpl. unfold expandEllipsis. rewrite length_groupBytes, Hl. done.
  - assert (Forall isGroup (take zs gs)) as Ht by (by apply Forall_take).
    assert (Forall isGroup (drop ze gs)) as Hd by (by apply Forall_drop).
    assert (length (take zs gs) = zs) as Hlt by (rewrite length_take; lia).
    assert (length (drop ze gs) = 8 - ze)%nat as Hld by (rewrite length_drop; lia).
    remember (take zs gs) as l1. remember (drop ze gs) as l2.
    assert (groupBytes gs = groupBytes l1 ++ replicate (2 * (ze - zs)) 0 ++ groupBytes l2) as ->.
    { rewrite Hgs, !groupBytes_app, groupBytes_zeros. done. }
    assert (forall e bs, length bs = (2 * (zs + (8 - ze)))%nat -> e = (2 * zs)%nat ->
      bs = groupBytes l1 ++ groupBytes l2 -> expandEllipsis bs (Some e) =
      Some (groupBytes l1 ++ replicate (2 * (ze - zs)) 0 ++ groupBytes l2)) as Hexp.
    { intros e bs Hlb -> ->. unfold expandEllipsis. rewrite Hlb.
      assert (Z.of_nat (2 * (zs + (8 - ze))) <? 16 = true) as ->. { apply Z.ltb_lt. clear Hlb. lia. }
      rewrite take_app_length', drop_app_length' by (rewrite length_groupBytes; lia).
      do 4 f_equal. lia. }
    unfold parseIPv6. destruct l1 as [|g l1].
    + simpl in Hlt. subst zs. cbn [fmap list_fmap Join app].
      change (HasPrefix ($"::" ++ ?x) $"::") with true. cbv iota.
      change (drop 2 ($"::" ++ ?x)) with x. destruct l2 as [|g l2].
      * simpl in Hld. assert (ze = 8%nat) as -> by lia. done.
      * destruct (Join_hex_head (g :: l2) Hd) as (z & s & Hz' & E); [done|].
        rewrite E. rewrite <- E, v6Loop_groups; [|done|done|simpl in *; lia|simpl in *; lia].
        simpl mbind. cbv beta iota. apply Hexp; [|done|done].
        change (length (groupBytes (g :: l2)) = 2 * (0 + (8 - ze)))%nat.
        rewrite length_groupBytes. simpl in *. lia.
    + assert (HasPrefix (Join (hexStr <$> g :: l1) $":" ++ $"::" ++ Join (hexStr <$> l2) $":") $"::" = false) as ->.
      { destruct (Join_hex_head (g :: l1) Ht) as (z & s & Hz' & E); [done|]. rewrite E.
        unfold HasPrefix. simpl. pose proof (hexDigit_not_colon z Hz').
        rewrite bool_decide_false; [done|]. congruence. }
      rewrite v6Loop_groups_ellipsis; [|done|done|done|simpl in *; lia|simpl in *; lia].
      simpl mbind. cbv beta iota. apply Hexp; [|simpl in *; lia|done].
      change (length (groupBytes (g :: l1) ++ groupBytes l2) = 2 * (zs + (8 - ze)))%nat.
      rewrite length_app, !length_groupBytes. simpl in *. lia.
Qed.

Lemma hexJoin_chars gs c : Forall isGroup gs -> c ∈ Join (hexStr <$> gs) $":" ->
  c = ":"%char \/ oneOf $"%.:/ #" c = false.
Proof.
  intros Hg Hc. apply elem_of_Join in Hc as [Hc|(w & Hw & Hc)].
  - left. by apply list_elem_of_singleton in Hc.
  - right. apply list_elem_of_fmap in Hw as (g & -> & Hin). rewrite Forall_forall in Hg.
    by eapply hexStr_chars, Hc; apply Hg.
Qed.
Lemma appendTo6_chars gs c : length gs = 8%nat -> Forall isGroup gs -> c ∈ appendTo6 gs ->
  c = ":"%char \/ oneOf $"%.:/ #" c = false.
Proof.
  intros Hl Hg. destruct (appendTo6_cases gs Hl) as [->|(zs & ze & _ & _ & ->)].
  - by apply hexJoin_chars.
  - rewrite !elem_of_app. intros [Hc|[Hc|Hc]].
    + eapply hexJoin_chars; [|done]. by apply Forall_take.
    + left. by repeat (apply elem_of_cons in Hc as [->|Hc]; [done|]); apply elem_of_nil in Hc.
    + eapply hexJoin_chars; [|done]. by apply Forall_drop.
Qed.
Lemma appendTo6_colon gs : length gs = 8%nat -> ":"%char ∈ appendTo6 gs.
Proof.
  intros Hl. destruct (appendTo6_cases gs Hl) as [->|(zs & ze & _ & _ & ->)].
  - destruct gs as [|g [|g2 gs]]; try done. rewrite !fmap_cons, Join_cons2. set_solver.
  - set_solver.
Qed.
Lemma find_elem (f : ascii -> bool) s c :
  c ∈ s -> f c = true -> (forall d, d ∈ s -> f d = true -> d = c) -> find f s = Some c.
Proof.
  intros Hc Hf Hu. destruct (find f s) as [d|] eqn:E.
  - apply find_some in E as [E1 E2]. f_equal. apply Hu; [by apply list_elem_of_In|done].
  - rewrite (find_none _ _ E c) in Hf; [done|by apply list_elem_of_In].
Qed.

Lemma ParseAddr_v6 ip : Forall isByte ip -> length ip = 16%nat ->
  ParseAddr (appendTo6 (groups ip)) = Some ip.
Proof.
  intros Hb Hl. pose proof (groups_ok ip Hb) as Hg. pose proof (length_groups ip 8 Hl) as Hlg.
  unfold ParseAddr. rewrite existsb_none.
  - assert (find (oneOf $".:") (appendTo6 (groups ip)) = Some ":"%char) as ->.
    { apply find_elem; [by apply appendTo6_colon|done|]. intros d Hd Ho.
      destruct (appendTo6_chars _ d Hlg Hg Hd) as [?|Hn]; [done|].
      unfold oneOf in *. simpl in Ho, Hn. rewrite !orb_false_iff in Hn.
      destruct Hn as (_ & Hn1 & Hn2 & _). by rewrite Hn1, Hn2 in Ho. }
    cbv iota. rewrite parseIPv6_appendTo6, groupBytes_groups by (done || (exists 8%nat; lia)). done.
  - intros c Hc. apply bool_decide_eq_false. intros ->.
    by destruct (appendTo6_chars _ _ Hlg Hg Hc).
Qed.

(** An address has 4 or 16 bytes. *)
Definition wellFormedIP (ip : IP) : Prop := Forall isByte ip /\ (length ip = 4%nat \/ length ip = 16%nat).

Lemma To4_Some ip p : To4 ip = Some p -> Forall isByte ip ->
  length p = 4%nat /\ Forall isByte p /\ (ip = p \/ ip = v4InV6Prefix ++ p).
Proof.
  unfold To4. intros H Hb. case_bool_decide; simplify_eq; [auto|].
  case_bool_decide; [|done]. simpl in H. case_bool_decide as Hp; simplify_eq.
  split; [rewrite length_drop; lia|]. split; [by apply Forall_drop|].
  right. by rewrite <- Hp, take_drop.
Qed.
Lemma To4_length4 ip : length ip = 4%nat -> To4 ip = Some ip.
Proof. intros H. unfold To4. by rewrite bool_decide_true. Qed.

(** The formatted address as [ParseAddr] reads it. *)
Lemma ParseAddr_IPString ip : wellFormedIP ip -> ParseAddr (IPString ip) = Some (default ip (To4 ip)).
Proof.
  intros [Hb Hl]. unfold IPString. rewrite bool_decide_false by (intros ->; simpl in Hl; lia).
  destruct (To4 ip) as [p|] eqn:E.
  - destruct (To4_Some _ _ E Hb) as (Hlp & Hbp & _). simpl. by apply ParseAddr_v4.
  - destruct Hl as [Hl|Hl]; [by rewrite To4_length4 in E|].
    rewrite bool_decide_true by done. simpl. by apply ParseAddr_v6.
Qed.

(** Parsing a formatted address gives it back, as 16 bytes. *)
Lemma ParseIP_IPString ip : wellFormedIP ip -> ParseIP (IPString ip) = To16 ip.
Proof.
  intros Hw. unfold ParseIP. rewrite ParseAddr_IPString by done. destruct Hw as [Hb Hl].
  simpl. destruct (To4 ip) as [p|] eqn:E; [|done].
  destruct (To4_Some _ _ E Hb) as (Hlp & _ & [->| ->]); [done|].
  unfold To16. rewrite (bool_decide_true (length p = _)) by done.
  assert (length (v4InV6Prefix ++ p) = 16%nat) as H16 by (by rewrite length_app, Hlp).
  by rewrite bool_decide_false, bool_decide_true by lia.
Qed.

(** ** Characters of formatted addresses and networks *)
Definition ipChar (c : ascii) : bool := isDigit c || inRange 97 102 c || oneOf $".:" c.
Lemma hexDigit_ipChar z : 0 <= z < 16 -> ipChar (hexDigit z) = true.
Proof.
  intros H. assert (forallb (fun z => ipChar (hexDigit z)) (seqZ 0 16) = true) as Hall
    by (vm_compute; reflexivity).
  by apply (Forall_seqZ_check _ _ Hall).
Qed.
Lemma hexStr_ipChar g : isGroup g -> Forall (fun c => ipChar c = true) (hexStr g).
Proof.
  unfold isGroup. intros Hg.
  assert (0 <= g / 4096 < 16) by (split; [apply Z.div_pos; lia|apply Z.div_lt_upper_bound; lia]).
  pose proof (Z.mod_pos_bound g 16). pose proof (Z.mod_pos_bound (g / 16) 16).
  pose proof (Z.mod_pos_bound (g / 256) 16).
  unfold hexStr. rewrite !Forall_app. repeat case_match; repeat split;
    repeat constructor; apply hexDigit_ipChar; lia.
Qed.
Lemma Join_Forall (P : ascii -> Prop) ws sep :
  Forall P sep -> Forall (Forall P) ws -> Forall P (Join ws sep).
Proof.
  intros Hs Hw. apply Forall_forall. intros c Hc. rewrite !Forall_forall in *.
  apply elem_of_Join in Hc as [Hc|(w & Hin & Hc)]; [auto|].
  specialize (Hw w Hin). rewrite Forall_forall in Hw. auto.
Qed.
Lemma IPString_chars ip : wellFormedIP ip -> Forall (fun c => ipChar c = true) (IPString ip).
Proof.
  intros [Hb Hl]. unfold IPString. rewrite bool_decide_false by (intros ->; simpl in Hl; lia).
  destruct (To4 ip) as [p|] eqn:E.
  - destruct (To4_Some _ _ E Hb) as (_ & Hbp & _). apply Join_Forall; [by repeat constructor|].
    apply Forall_fmap. eapply Forall_impl; [exact Hbp|]. intros z Hz. apply Forall_forall.
    intros c Hc. apply Itoa_digits in Hc; [|by apply byte_Itoa]. unfold ipChar. by rewrite Hc.
  - destruct Hl as [Hl|Hl]; [by rewrite To4_length4 in E|]. rewrite bool_decide_true by done.
    pose proof (groups_ok ip Hb) as Hg.
    assert (forall l, Forall isGroup l -> Forall (fun c => ipChar c = true) (Join (hexStr <$> l) $":")) as Hj.
    { intros l H. apply Join_Forall; [by repeat constructor|]. apply Forall_fmap.
      eapply Forall_impl; [exact H|]. apply hexStr_ipChar. }
    destruct (appendTo6_cases (groups ip) (length_groups ip 8 Hl)) as [->|(zs & ze & _ & _ & ->)]; [by apply Hj|].
    rewrite !Forall_app. repeat split; [by apply Hj, Forall_take|by repeat constructor|by apply Hj, Forall_drop].
Qed.
Lemma ipChar_sep c : ipChar c = true -> sepOk c /\ space1 c = false /\ c <> "/"%char /\ c <> "#"%char /\ c <> "*"%char.
Proof. destruct c as [[] [] [] [] [] [] [] []]; vm_compute; try done; intros _; repeat split; congruence. Qed.
Lemma IPString_nonempty ip : wellFormedIP ip -> IPString ip <> [].
Proof.
  intros H E. pose proof (ParseAddr_IPString ip H) as Hp. by rewrite E in Hp.
Qed.

(** ** Networks *)
Lemma parseIPv4_wf s a : parseIPv4 s = Some a -> Forall isByte a /\ length a = 4%nat.
Proof.
  unfold parseIPv4. case_bool_decide as Hl; [|done]. intros H%mapM_Some.
  split; [|by rewrite <- Hl, <- (Forall2_length _ _ _ H)].
  eapply Forall2_Forall_r; [exact H|]. apply Forall_forall. intros w _ z Hz.
  unfold parseOctet in Hz. destruct w as [|c w]; [done|]. case_match; [done|].
  apply ParseUint_bounds in Hz. unfold isByte. lia.
Qed.
Lemma hexPrefix_bounds s n acc m v r : hexPrefix s n acc = Some (m, v, r) ->
  (n <= 4)%nat -> 0 <= acc < 16 ^ Z.of_nat n -> 0 <= v < 65536.
Proof.
  revert n acc. induction s as [|c s IH]; simpl; intros n acc H Hn Ha.
  - simplify_eq. split; [lia|]. eapply Z.lt_le_trans; [apply Ha|].
    change 65536 with (16 ^ 4). apply Z.pow_le_mono_r; lia.
  - destruct (hexVal c) as [d|] eqn:E.
    + destruct (3 <? Z.of_nat n) eqn:E3; [done|]. apply IH in H; [done|lia|].
      assert (0 <= d < 16).
      { unfold hexVal, isDigit, inRange in E. repeat (case_match; simplify_eq; try lia). }
      rewrite Nat2Z.inj_succ, Z.pow_succ_r by lia. lia.
    + simplify_eq. split; [lia|]. eapply Z.lt_le_trans; [apply Ha|].
      change 65536 with (16 ^ 4). apply Z.pow_le_mono_r; lia.
Qed.
Definition v6State (bs : list Z) : Prop := Forall isByte bs /\ (length bs <= 16)%nat.
Lemma v6State_group bs v : v6State bs -> (length bs < 16)%nat -> Nat.Even (length bs) -> 0 <= v < 65536 ->
  v6State (bs ++ [v / 256; v mod 256]) /\ Nat.Even (length (bs ++ [v / 256; v mod 256])).
Proof.
  intros [H1 H2] Hl [k Hk] Hv. pose proof (Z.mod_pos_bound v 256).
  assert (0 <= v / 256 < 256) by (split; [apply Z.div_pos; lia|apply Z.div_lt_upper_bound; lia]).
  split; [split|].
  - apply Forall_app. split; [done|]. unfold isByte. by repeat constructor; lia.
  - rewrite length_app. simpl. lia.
  - rewrite length_app. exists (S k). simpl. lia.
Qed.
Lemma v6Loop_wf fuel s bs ell bs' ell' :
  v6Loop fuel s bs ell = Some (bs', ell') -> v6State bs -> Nat.Even (length bs) -> v6State bs'.
Proof.
  revert s bs ell. induction fuel as [|fuel IH]; intros s bs ell H Hs He; [done|].
  cbn [v6Loop] in H. destruct (16 <=? Z.of_nat (length bs)) eqn:El.
  { case_bool_decide; by simplify_eq. }
  destruct (hexPrefix s 0 0) as [[[off acc] r]|] eqn:Ehp; [|done]. simpl in H.
  case_bool_decide; [done|]. apply hexPrefix_bounds in Ehp; [|lia|simpl; lia].
  destruct (v6State_group bs acc Hs) as [Hs2 He2]; [lia|done|done|].
  destruct r as [|c r]; [by simplify_eq|].
  assert ((c = "."%char /\ exists q, parseIPv4 s = Some q /\ bs' = bs ++ q /\ Z.of_nat (length bs) + 4 <= 16) \/
    bs' = bs ++ [acc / 256; acc mod 256] \/
    exists r' e, v6Loop fuel r' (bs ++ [acc / 256; acc mod 256]) e = Some (bs', ell'))
    as [(-> & q & Hq & -> & Hl)|[->|(r' & e & Hr)]]; [| |done|by eapply IH].
  - destruct c as [[] [] [] [] [] [] [] []]; try done.
    + left. split; [done|]. destruct (_ || _) eqn:Eo in H; [done|].
      destruct (parseIPv4 s) as [q|] eqn:Hq; [|done]. simpl in H. simplify_eq.
      apply orb_false_iff in Eo as [_ Eo]. exists q. split; [done|]. split; [done|]. lia.
    + right. destruct r as [|d r]; [done|].
      destruct d as [[] [] [] [] [] [] [] []]; try (right; by eauto).
      destruct ell; [done|]. destruct r; [left; by simplify_eq|right; by eauto].
  - apply parseIPv4_wf in Hq as [Hq1 Hq2]. destruct Hs. split; [by apply Forall_app|].
    rewrite length_app. lia.
Qed.
Lemma expandEllipsis_wf bs ell a : v6State bs -> expandEllipsis bs ell = Some a ->
  Forall isByte a /\ length a = 16%nat.
Proof.
  intros [Hb Hl] H. unfold expandEllipsis in H. case_match eqn:E; destruct ell as [e|]; simplify_eq.
  - split.
    + rewrite !Forall_app. repeat split; [by apply Forall_take| |by apply Forall_drop].
      apply Forall_replicate. unfold isByte. lia.
    + rewrite !length_app, length_take, length_replicate, length_drop. lia.
  - split; [done|]. lia.
Qed.
Lemma ParseAddr_wf s a : ParseAddr s = Some a -> wellFormedIP a.
Proof.
  unfold ParseAddr. case_match; [done|]. intros Hp.
  assert (parseIPv4 s = Some a \/ parseIPv6 s = Some a) as [H4|H6].
  { destruct (find _ _) as [[[] [] [] [] [] [] [] []]|]; try done; auto. }
  - apply parseIPv4_wf in H4 as [? ?]. split; auto.
  - assert (v6State [] /\ Nat.Even (length (@nil Z))) as [Hn He] by (repeat split; [constructor|simpl; lia|by exists 0%nat]).
    assert (Forall isByte a /\ length a = 16%nat) as [? ?]; [|split; auto].
    unfold parseIPv6 in H6. destruct (HasPrefix s _).
    + destruct (drop 2 s) as [|c r]; [injection H6 as <-|].
      { split; [apply (Forall_replicate isByte 16 0); unfold isByte; lia|done]. }
      destruct (v6Loop _ _ _ _) as [[bs ell]|] eqn:E; [|done]. simpl in H6.
      eapply expandEllipsis_wf; [|done]. by eapply v6Loop_wf.
    + destruct (v6Loop _ _ _ _) as [[bs ell]|] eqn:E; [|done]. simpl in H6.
      eapply expandEllipsis_wf; [|done]. by eapply v6Loop_wf.
Qed.
Lemma ParseIP_wf s ip : ParseIP s = Some ip -> wellFormedIP ip /\ length ip = 16%nat.
Proof.
  unfold ParseIP. destruct (ParseAddr s) as [a|] eqn:E; [|done]. simpl.
  apply ParseAddr_wf in E as [Hb Hl]. unfold To16. case_bool_decide as H4.
  - intros [= <-]. assert (length (v4InV6Prefix ++ a) = 16%nat) by (by rewrite length_app, H4).
    split; [split; [|auto]|done].
    by repeat (apply Forall_cons; split; [unfold isByte; lia|]).
  - case_bool_decide; [|done]. intros [= <-]. repeat split; auto.
Qed.

(** What [ParseCIDR] gives, up to the normalisation of [networkNumberAndMask]:
    a network number of 4 or 16 bytes (not an IPv4 address in 16), a mask of
    that length with [k] leading ones, all other bits of the number zero. *)
Record netOk (n : IPNet) (nn m : list Z) (k : Z) : Prop := {
  no_num : networkNumberAndMask n = Some (nn, m);
  no_wf : wellFormedIP nn;
  no_norm : default nn (To4 nn) = nn;
  no_k : 0 <= k <= 8 * Z.of_nat (length nn);
  no_mask : m = CIDRMask k (8 * Z.of_nat (length nn));
  no_masked : andBytes nn m = nn;
}.

#[local] Arguments CIDRMask : simpl never.

Lemma CIDRMask_length k bits : length (CIDRMask k bits) = Z.to_nat (bits / 8).
Proof.
  unfold CIDRMask. generalize (Z.to_nat (bits / 8)) as n. intros n. revert k.
  induction n as [|n IH]; intros k; simpl; [done|]. by rewrite IH.
Qed.
Lemma CIDRMask_length4 k : length (CIDRMask k 32) = 4%nat.
Proof. by rewrite CIDRMask_length. Qed.
Lemma CIDRMask_length16 k : length (CIDRMask k 128) = 16%nat.
Proof. by rewrite CIDRMask_length. Qed.
Lemma simpleMaskLength_CIDRMask k bits : bits = 32 \/ bits = 128 -> 0 <= k <= bits ->
  simpleMaskLength (CIDRMask k bits) = Some k.
Proof.
  assert (forallb (fun k => bool_decide (simpleMaskLength (CIDRMask k 32) = Some k)) (seqZ 0 33) = true)
    as H1 by (vm_compute; reflexivity).
  assert (forallb (fun k => bool_decide (simpleMaskLength (CIDRMask k 128) = Some k)) (seqZ 0 129) = true)
    as H2 by (vm_compute; reflexivity).
  intros [-> | ->] Hk; [pose proof (Forall_seqZ_check _ _ H1 k) as H|pose proof (Forall_seqZ_check _ _ H2 k) as H];
    cbv beta in H; (apply bool_decide_eq_true in H; [done|lia]).
Qed.
Lemma CIDRMask_byte11 k : 0 <= k <= 128 -> nth 11 (CIDRMask k 128) 0 = 255 ->
  96 <= k /\ drop 12 (CIDRMask k 128) = CIDRMask (k - 96) 32.
Proof.
  assert (forallb (fun k => implb (nth 11 (CIDRMask k 128) 0 =? 255)
    ((96 <=? k) && bool_decide (drop 12 (CIDRMask k 128) = CIDRMask (k - 96) 32))) (seqZ 0 129) = true)
    as H by (vm_compute; reflexivity).
  intros Hk H11. pose proof (Forall_seqZ_check _ _ H k ltac:(lia)) as Hc. cbv beta in Hc.
  rewrite H11, Z.eqb_refl in Hc. cbn [implb] in Hc. apply andb_true_iff in Hc as [Hc1 Hc2].
  apply bool_decide_eq_true in Hc2. split; [lia|done].
Qed.
Lemma CIDRMask_bytes k bits : Forall isByte (CIDRMask k bits).
Proof.
  unfold CIDRMask. generalize (Z.to_nat (bits / 8)) as n. intros n. revert k.
  induction n as [|n IH]; intros k; simpl; constructor; [|done].
  case_match; unfold isByte; [lia|].
  assert (0 <= Z.land (Z.lnot (Z.shiftr 255 k)) 255) by (apply Z.land_nonneg; right; lia).
  split; [done|]. change 255 with (Z.ones 8). rewrite Z.land_ones by lia.
  pose proof (Z.mod_pos_bound (Z.lnot (Z.shiftr (Z.ones 8) k)) (2 ^ 8)). lia.
Qed.
Lemma land_byte_range a b : isByte a -> isByte b -> isByte (Z.land a b).
Proof.
  unfold isByte. intros Ha Hb. split; [apply Z.land_nonneg; lia|].
  destruct (Z.eq_dec (Z.land a b) 0) as [->|Hn]; [lia|].
  assert (0 <= Z.land a b) by (apply Z.land_nonneg; lia).
  apply Z.log2_lt_pow2 with (b := 8); [lia|].
  eapply Z.le_lt_trans; [apply Z.log2_land; lia|].
  eapply Z.le_lt_trans; [apply Z.le_min_l|].
  destruct (Z.eq_dec a 0) as [->|]; [by vm_compute|]. apply Z.log2_lt_pow2; lia.
Qed.
Lemma andBytes_ok a m : Forall isByte a -> Forall isByte m -> Forall isByte (andBytes a m).
Proof.
  intros Ha. revert m. induction Ha as [|x a Hx _ IH]; intros m Hm; [constructor|].
  destruct Hm; [constructor|]. constructor; [by apply land_byte_range|by apply IH].
Qed.
Lemma andBytes_idem a m : andBytes (andBytes a m) m = andBytes a m.
Proof.
  revert m. induction a as [|x a IH]; intros [|y m]; try done.
  unfold andBytes in *. simpl. rewrite IH. f_equal. by rewrite <- Z.land_assoc, Z.land_diag.
Qed.
Lemma andBytes_length a m : length a = length m -> length (andBytes a m) = length a.
Proof. intros H. unfold andBytes. rewrite length_zip_with. lia. Qed.
Lemma andBytes_nth a m i : length a = length m ->
  nth i (andBytes a m) 0 = Z.land (nth i a 0) (nth i m 0).
Proof.
  revert m i. induction a as [|x a IH]; intros [|y m] i H; try done; destruct i; try done.
  simpl in *. apply IH. lia.
Qed.
Lemma To4_not16 ip : To4 ip = None -> default ip (To4 ip) = ip.
Proof. by intros ->. Qed.
Lemma IPMask_same ip m : length ip = length m -> (length ip = 4%nat \/ length ip = 16%nat) ->
  IPMask ip m = Some (andBytes ip m).
Proof.
  intros H [Hl|Hl]; unfold IPMask.
  - rewrite (bool_decide_false (length m = 16%nat)) by lia. cbn [andb].
    rewrite (bool_decide_false (length ip = 16%nat)) by lia. rewrite andb_false_r. cbn [andb].
    by rewrite bool_decide_true.
  - rewrite (bool_decide_false (length ip = 4%nat)) by lia. rewrite andb_false_r. cbn [andb].
    rewrite (bool_decide_false (length m = 4%nat)) by lia. cbn [andb].
    by rewrite bool_decide_true.
Qed.

Lemma IPMask_v4in6 a m : length a = 4%nat -> length m = 4%nat ->
  IPMask (v4InV6Prefix ++ a) m = Some (andBytes a m).
Proof.
  intros Ha Hm. unfold IPMask.
  assert (length (v4InV6Prefix ++ a) = 16%nat) as H16 by (by rewrite length_app, Ha).
  rewrite (bool_decide_false (length m = 16%nat)) by lia. cbn [andb].
  rewrite (bool_decide_true (length m = 4%nat)), (bool_decide_true _ H16) by lia. cbn [andb].
  rewrite (bool_decide_true (take 12 (v4InV6Prefix ++ a) = v4InV6Prefix)) by reflexivity.
  change (drop 12 (v4InV6Prefix ++ a)) with a.
  by rewrite bool_decide_true by lia.
Qed.

Lemma ParseCIDR_ok s n : ParseCIDR s = Some n -> exists nn m k, netOk n nn m k.
Proof.
  unfold ParseCIDR. destruct (cut s "/") as [[addr mask]|]; [|done]. cbn [mbind option_bind].
  destruct (ParseAddr addr) as [a|] eqn:Ea; [|done]. cbn [mbind option_bind].
  destruct (dtoi mask) as [k|] eqn:Ek; [|done]. cbn [mbind option_bind].
  destruct (_ <? k) eqn:Elt; [done|]. apply Z.ltb_ge in Elt.
  assert (0 <= k) as Hk0.
  { unfold dtoi in Ek. destruct mask as [|c mask]; [done|]. case_match eqn:E; [|done]. simplify_eq.
    apply andb_true_iff in E as [E1 E2]. apply Z.ltb_lt in E2.
    assert (ParseUint (c :: mask) 24 = Some (parseDigits (c :: mask))) as Hp.
    { unfold ParseUint. rewrite E1. simpl. case_match; [done|]. lia. }
    apply ParseUint_bounds in Hp. lia. }
  apply ParseAddr_wf in Ea as [Hb Hl]. intros H.
  destruct Hl as [Hl|Hl]; rewrite Hl in *; cbn in Elt.
  - change (8 * Z.of_nat 4) with 32 in *.
    unfold To16 in H. rewrite (bool_decide_true (length a = 4%nat)) in H by done. cbn [mbind option_bind] in H.
    pose proof (CIDRMask_length4 k) as Hm.
    assert (IPMask (v4InV6Prefix ++ a) (CIDRMask k 32) = Some (andBytes a (CIDRMask k 32))) as HM.
    { by apply IPMask_v4in6. }
    rewrite HM in H. cbn [mbind option_bind] in H. injection H as <-.
    assert (length (andBytes a (CIDRMask k 32)) = 4%nat) as Hla by (rewrite andBytes_length; lia).
    exists (andBytes a (CIDRMask k 32)), (CIDRMask k 32), k.
    split; rewrite ?Hla; try done.
    + unfold networkNumberAndMask. cbn [netIP netMask]. rewrite To4_length4 by done.
      cbn [mbind option_bind]. by rewrite !bool_decide_true.
    + split; [apply andBytes_ok; [done|apply CIDRMask_bytes]|by left].
    + by rewrite To4_length4.
    + apply andBytes_idem.
  - change (8 * Z.of_nat 16) with 128 in *.
    unfold To16 in H. rewrite bool_decide_false, bool_decide_true in H by lia. cbn [mbind option_bind] in H.
    pose proof (CIDRMask_length16 k) as Hm.
    rewrite IPMask_same in H by (rewrite ?Hm; auto). cbn [mbind option_bind] in H. injection H as <-.
    set (x := andBytes a (CIDRMask k 128)).
    assert (length x = 16%nat) as Hlx by (unfold x; rewrite andBytes_length; lia).
    assert (Forall isByte x) as Hbx by (apply andBytes_ok; [done|apply CIDRMask_bytes]).
    destruct (To4 x) as [p|] eqn:E4.
    + destruct (To4_Some _ _ E4 Hbx) as (Hlp & Hbp & [Hxp|Hxp]); [rewrite Hxp in Hlx; lia|].
      assert (nth 11 (CIDRMask k 128) 0 = 255) as H11.
      { assert (nth 11 x 0 = 255) as Hx by (rewrite Hxp; done).
        assert (nth 11 x 0 = Z.land (nth 11 a 0) (nth 11 (CIDRMask k 128) 0)) as Hn.
        { apply andBytes_nth. lia. }
        rewrite Hx in Hn.
        assert (isByte (nth 11 (CIDRMask k 128) 0)) as Hr.
        { assert (isByte 0) by (unfold isByte; lia).
          pose proof (CIDRMask_bytes k 128) as Hf. rewrite Forall_nth in Hf. apply Hf. lia. }
        unfold isByte in Hr. clear - Hn Hr.
        assert (Z.land 255 (nth 11 (CIDRMask k 128) 0) = 255) as H2.
        { rewrite Hn at 1. rewrite <- Z.land_assoc, Z.land_diag. by rewrite <- Hn. }
        change 255 with (Z.ones 8) in H2 at 1. rewrite Z.land_comm, Z.land_ones, Z.mod_small in H2 by lia.
        done. }
      destruct (CIDRMask_byte11 k) as [Hk96 Hd]; [lia|done|].
      exists p, (CIDRMask (k - 96) 32), (k - 96). split; rewrite ?Hlp.
      * unfold networkNumberAndMask. cbn [netIP netMask]. rewrite E4. cbn [mbind option_bind].
        rewrite (bool_decide_false (length (CIDRMask k 128) = 4%nat)), !bool_decide_true by lia. by rewrite Hd.
      * split; [done|by left].
      * by rewrite To4_length4.
      * lia.
      * done.
      * rewrite <- Hd. assert (p = drop 12 x) as -> by (by rewrite Hxp).
        transitivity (drop 12 (andBytes x (CIDRMask k 128))).
        { unfold andBytes. by rewrite zip_with_drop. }
        unfold x. by rewrite andBytes_idem.
    + exists x, (CIDRMask k 128), k. split; rewrite ?Hlx; try done.
      * unfold networkNumberAndMask. cbn [netIP netMask]. rewrite E4, (bool_decide_true _ Hlx).
        cbn [mbind option_bind].
        by rewrite (bool_decide_false (length (CIDRMask k 128) = 4%nat)),
          (bool_decide_true (length (CIDRMask k 128) = 16%nat)), bool_decide_false by lia.
      * split; [done|by right].
      * by rewrite E4.
      * apply andBytes_idem.
Qed.

(** ** The network round trip *)
Lemma cut_app w s sep : sep ∉ w -> cut (w ++ sep :: s) sep = Some (w, s).
Proof.
  induction w as [|c w IH]; intros H; simpl.
  - by rewrite bool_decide_true.
  - rewrite bool_decide_false by set_solver. by rewrite IH by set_solver.
Qed.
Lemma dtoi_Itoa k : 0 <= k <= 128 -> dtoi (Itoa k) = Some k.
Proof.
  intros H. destruct (Itoa_spec k) as (H1 & H2 & H3); [lia|]. unfold dtoi.
  destruct (Itoa k) eqn:E; [done|]. rewrite H1, H2.
  by assert (k <? 16777215 = true) as -> by lia.
Qed.

Lemma NetString_ok n nn m k : netOk n nn m k -> NetString n = IPString nn ++ $"/" ++ Itoa k.
Proof.
  intros [Hn [Hb Hl] _ Hk Hm _]. unfold NetString. rewrite Hn, Hm, simpleMaskLength_CIDRMask; [done| |done].
  destruct Hl as [-> | ->]; [by left|by right].
Qed.

(** Parsing a formatted network gives the normalised network back. *)
Lemma ParseCIDR_NetString n nn m k : netOk n nn m k -> ParseCIDR (NetString n) = Some (mkIPNet nn m).
Proof.
  intros Hok. rewrite (NetString_ok _ _ _ _ Hok). destruct Hok as [_ Hw Hn Hk Hm Hmask].
  unfold ParseCIDR. change (IPString nn ++ $"/" ++ Itoa k) with (IPString nn ++ "/"%char :: Itoa k).
  rewrite cut_app.
  - cbn [mbind option_bind]. rewrite ParseAddr_IPString, Hn by done. cbn [mbind option_bind].
    destruct Hw as [Hb Hl]. rewrite dtoi_Itoa by (destruct Hl as [Hl|Hl]; rewrite Hl in *; lia).
    cbn [mbind option_bind]. assert (8 * Z.of_nat (length nn) <? k = false) as -> by lia.
    rewrite <- Hm. destruct Hl as [Hl|Hl].
    + unfold To16. rewrite bool_decide_true by done. cbn [mbind option_bind].
      rewrite IPMask_v4in6; [by rewrite Hmask|done|].
      rewrite Hm, Hl. apply CIDRMask_length4.
    + unfold To16. rewrite bool_decide_false, bool_decide_true by lia. cbn [mbind option_bind].
      rewrite IPMask_same; [by rewrite Hmask| |by right].
      rewrite Hm, Hl. symmetry. apply CIDRMask_length16.
  - intros Hin. pose proof (IPString_chars nn Hw) as Hc. rewrite Forall_forall in Hc.
    by destruct (ipChar_sep _ (Hc _ Hin)) as (_ & _ & ? & _).
Qed.

(** The normalised network has the same network number, mask and members. *)
Lemma netOk_norm n nn m k : netOk n nn m k -> netOk (mkIPNet nn m) nn m k.
Proof.
  intros [Hnum Hw Hn Hk Hm Hmask]. split; try done. unfold networkNumberAndMask. cbn [netIP netMask].
  destruct Hw as [Hb Hl].
  assert (length m = length nn) as Hlm.
  { rewrite Hm, CIDRMask_length. destruct Hl as [-> | ->]; done. }
  destruct (To4 nn) as [p|] eqn:E4.
  - simpl in Hn. subst p. destruct (To4_Some _ _ E4 Hb) as (Hl4 & _). cbn [mbind option_bind].
    by rewrite !bool_decide_true by lia.
  - destruct Hl as [Hl|Hl]; [by rewrite To4_length4 in E4|].
    rewrite (bool_decide_true (length nn = 16%nat)) by done. cbn [mbind option_bind].
    by rewrite (bool_decide_false (length m = 4%nat)), bool_decide_true, bool_decide_false by lia.
Qed.
Lemma NetContains_norm n nn m k ip : netOk n nn m k -> NetContains (mkIPNet nn m) ip = NetContains n ip.
Proof.
  intros Hok. unfold NetContains. by rewrite (no_num _ _ _ _ Hok), (no_num _ _ _ _ (netOk_norm _ _ _ _ Hok)).
Qed.

(** ** Texts that are no address *)
Lemma parseOctet_no_slash w z : parseOctet w = Some z -> "/"%char ∉ w.
Proof.
  unfold parseOctet, ParseUint. destruct w as [|c w]; [done|]. case_match; [done|].
  destruct (all isDigit (c :: w)) eqn:E; [|done]. intros _. exact (all_not_in isDigit _ "/"%char E eq_refl).
Qed.
Lemma parseIPv4_no_slash s a : parseIPv4 s = Some a -> "/"%char ∉ s.
Proof.
  unfold parseIPv4. case_bool_decide; [|done]. intros Hm%mapM_Some Hin.
  rewrite <- (Join_Split s ".") in Hin.
  apply elem_of_Join in Hin as [Hin|(w & Hw & Hin)]; [by apply list_elem_of_singleton in Hin|].
  apply list_elem_of_lookup in Hw as [i Hi]. destruct (Forall2_lookup_l _ _ _ _ _ Hm Hi) as (z & _ & Hz).
  by apply parseOctet_no_slash in Hz.
Qed.
Lemma hexPrefix_no_slash s n acc m v r : hexPrefix s n acc = Some (m, v, r) -> "/"%char ∉ r -> "/"%char ∉ s.
Proof.
  revert n acc. induction s as [|c s IH]; simpl; intros n acc H Hr; [by simplify_eq|].
  destruct (hexVal c) as [d|] eqn:E; [|by simplify_eq].
  destruct (3 <? Z.of_nat n); [done|]. apply IH in H; [|done].
  intros [<-|?]%elem_of_cons; [by vm_compute in E|done].
Qed.
Lemma v6Loop_no_slash fuel s bs ell r : v6Loop fuel s bs ell = Some r -> "/"%char ∉ s.
Proof.
  revert s bs ell. induction fuel as [|fuel IH]; intros s bs ell H; [done|].
  cbn [v6Loop] in H. destruct (16 <=? Z.of_nat (length bs)).
  { case_bool_decide; [subst; set_solver|done]. }
  destruct (hexPrefix s 0 0) as [[[off acc] rest]|] eqn:Eh; [|done]. simpl in H.
  case_bool_decide; [done|]. destruct rest as [|c rest].
  { eapply hexPrefix_no_slash; [exact Eh|]. set_solver. }
  assert ((exists q, parseIPv4 s = Some q) \/
    (c = ":"%char /\ (rest = [":"%char] \/ exists r' bs' e, (rest = r' \/ rest = ":"%char :: r') /\ v6Loop fuel r' bs' e = Some r)))
    as [[q Hq]|[-> [->|(r' & bs' & e & Hr' & Hl)]]].
  - destruct c as [[] [] [] [] [] [] [] []]; try done.
    + left. destruct (_ || _); [done|]. destruct (parseIPv4 s) as [q|]; [by eexists|done].
    + right. split; [done|]. destruct rest as [|d rest]; [done|].
      destruct d as [[] [] [] [] [] [] [] []]; try (right; by eauto 10).
      destruct ell; [done|]. destruct rest; [by left|right; by eauto 10].
  - by eapply parseIPv4_no_slash.
  - eapply hexPrefix_no_slash; [exact Eh|].
    intros Hi. by repeat (apply elem_of_cons in Hi as [?|Hi]; [done|]); apply elem_of_nil in Hi.
  - eapply hexPrefix_no_slash; [exact Eh|]. apply IH in Hl.
    destruct Hr' as [-> | ->]; rewrite !elem_of_cons; naive_solver.
Qed.
Lemma HasPrefix_drop s p : HasPrefix s p = true -> s = p ++ drop (length p) s.
Proof. intros [r ->]%HasPrefix_spec. by rewrite drop_app_length. Qed.
Lemma ParseAddr_no_slash s a : ParseAddr s = Some a -> "/"%char ∉ s.
Proof.
  unfold ParseAddr. case_match; [done|]. intros Hp.
  assert (parseIPv4 s = Some a \/ parseIPv6 s = Some a) as [H4|H6].
  { destruct (find _ _) as [[[] [] [] [] [] [] [] []]|]; try done; auto. }
  - by eapply parseIPv4_no_slash.
  - unfold parseIPv6 in H6. destruct (HasPrefix s _) eqn:E.
    + apply HasPrefix_drop in E. rewrite E, elem_of_app.
      change (drop (length $"::") s) with (drop 2 s).
      assert ("/"%char ∉ drop 2 s) as Hd.
      { destruct (drop 2 s) as [|c r]; [set_solver|].
        destruct (v6Loop _ _ _ _) as [x|] eqn:El; [|done]. by eapply v6Loop_no_slash. }
      intros [Hi|Hi]; [|done].
      by repeat (apply elem_of_cons in Hi as [?|Hi]; [done|]); apply elem_of_nil in Hi.
    + destruct (v6Loop _ _ _ _) as [x|] eqn:El; [|done]. by eapply v6Loop_no_slash.
Qed.
Lemma ParseIP_slash s : "/"%char ∈ s -> ParseIP s = None.
Proof.
  intros Hs. unfold ParseIP. destruct (ParseAddr s) as [a|] eqn:E; [|done].
  by apply ParseAddr_no_slash in E.
Qed.
Lemma ParseIP_plain s : "."%char ∉ s -> ":"%char ∉ s -> ParseIP s = None.
Proof.
  intros H1 H2. unfold ParseIP, ParseAddr. case_match; [done|].
  destruct (find _ s) as [c|] eqn:E; [|done]. apply find_some in E as [Hc%list_elem_of_In Ho].
  unfold oneOf in Ho. simpl in Ho. rewrite orb_false_r in Ho.
  apply orb_true_iff in Ho as [Ho|Ho]; apply bool_decide_eq_true in Ho; by subst.
Qed.
Lemma cut_none s sep : sep ∉ s -> cut s sep = None.
Proof.
  induction s as [|c s IH]; [done|]. intros H. simpl. rewrite bool_decide_false by set_solver.
  by rewrite IH by set_solver.
Qed.
Lemma ParseCIDR_plain s : "/"%char ∉ s -> ParseCIDR s = None.
Proof. intros H. unfold ParseCIDR. by rewrite cut_none. Qed.
