(* ===== verification/NetUtils.v ===== *)
(** * Network utilities (service/network/netutils)

    The scope of an IP address ([GetIPScope]), broadcast addresses, and the
    check of fully qualified domain names.  The comments of the code give each
    scope as a list of networks in CIDR notation: [GetIPScope_table] proves that
    the bit tests of the code decide exactly the first matching network. *)

From S2P Require Import Prelude GoStrings GoText GoNet GoNetFacts.

Inductive IPScope :=
| Invalid | Undefined | HostLocal | LinkLocal | SiteLocal | Global | LocalMulticast
| GlobalMulticast.
#[export] Instance IPScope_eq_dec : EqDecision IPScope.
Proof. solve_decision. Defined.

Definition GetIPScope (ip : IP) : IPScope :=
  match To4 ip with
  | Some ip4 =>
      let b i := nth i ip4 0 in
      if (b 0%nat =? 0) && (b 1%nat =? 0) && (b 2%nat =? 0) && (b 3%nat =? 0) then LocalMulticast
      else if b 0%nat =? 0 then Invalid
      else if b 0%nat =? 10 then SiteLocal
      else if (b 0%nat =? 100) && (Z.land (b 1%nat) 192 =? 64) then SiteLocal
      else if b 0%nat =? 127 then HostLocal
      else if (b 0%nat =? 169) && (b 1%nat =? 254) then LinkLocal
      else if (b 0%nat =? 172) && (Z.land (b 1%nat) 240 =? 16) then SiteLocal
      else if (b 0%nat =? 192) && (b 1%nat =? 0) && (b 2%nat =? 2) then Invalid
      else if (b 0%nat =? 192) && (b 1%nat =? 168) then SiteLocal
      else if (b 0%nat =? 198) && (b 1%nat =? 51) && (b 2%nat =? 100) then Invalid
      else if (b 0%nat =? 203) && (b 1%nat =? 0) && (b 2%nat =? 113) then Invalid
      else if b 0%nat =? 224 then LocalMulticast
      else if (b 0%nat =? 233) && (b 1%nat =? 252) && (b 2%nat =? 0) then Invalid
      else if (225 <=? b 0%nat) && (b 0%nat <=? 238) then GlobalMulticast
      else if b 0%nat =? 239 then LocalMulticast
      else if (b 0%nat =? 255) && (b 1%nat =? 255) && (b 2%nat =? 255) && (b 3%nat =? 255)
      then LocalMulticast
      else if 240 <=? b 0%nat then Invalid
      else Global
  | None =>
      if bool_decide (length ip = 16%nat) then
        let b i := nth i ip 0 in
        if IPEqual ip IPv6zero then Invalid
        else if IPEqual ip IPv6loopback then HostLocal
        else if Z.land (b 0%nat) 254 =? 252 then SiteLocal
        else if (b 0%nat =? 254) && (Z.land (b 1%nat) 192 =? 128) then LinkLocal
        else if (b 0%nat =? 255) && (b 1%nat <=? 5) then LocalMulticast
        else if b 0%nat =? 255 then GlobalMulticast
        else Global
      else Invalid
  end.
Definition ClassifyIP (ip : IP) : IPScope := GetIPScope ip.

Definition IsLocalhost (scope : IPScope) : bool := bool_decide (scope = HostLocal).
Definition IsLAN (scope : IPScope) : bool :=
  match scope with SiteLocal | LinkLocal | LocalMulticast => true | _ => false end.
Definition IsGlobal (scope : IPScope) : bool :=
  match scope with Global | GlobalMulticast => true | _ => false end.

(** [GetBroadcastAddress]; [None]: nil. *)
Definition GetBroadcastAddress (ip : IP) (netMask : list Z) : option IP :=
  let ip := default ip (To4 ip) in
  let mask := default netMask (To4 netMask) in
  if negb (bool_decide (length ip = length mask)) then None
  else Some (zip_with (fun i m => Z.lor i (Z.land (Z.lnot m) 255)) ip mask).

(** ** Domain names *)

(** The functions of the DNS library. *)
Class DNSLib := { IsFqdn : str -> bool; IsDomainName : str -> bool }.

Definition cleanChar (c : ascii) : bool :=
  isLower c || isDigit c || oneOf $"_-" c.
(** [(xn--)?[a-z0-9_-]{1,63}]: the characters of the prefix are in the class. *)
Definition cleanLabel (w : str) : bool :=
  let n := length w in
  all cleanChar w &&
  ((1 <=? n)%nat && (n <=? 63)%nat || HasPrefix w $"xn--" && (5 <=? n)%nat && (n <=? 67)%nat).
Definition cleanDomainRegex (s : str) : bool :=
  match rev (Split s ".") with
  | [] :: w :: ws => forallb cleanLabel (w :: ws)
  | _ => false
  end.

(** The character class of [dnsSDDomainRegex] over the bytes of UTF-8.  In the
    expression the escape [\a] is the bell character: [\a-z] is the range from
    7 to [z]. *)
Definition sdChar1 (a : ascii) : bool := inRange 7 122 a || inRange 123 126 a.
Definition sdChar2 (a b : ascii) : bool :=
  (code a =? 197) && existsb (Z.eqb (code b)) [160; 146; 189; 161; 147; 190; 184]
  || (code a =? 194) && existsb (Z.eqb (code b)) [161; 191]
  || (code a =? 195) && inRange 128 191 b && negb (code b =? 151) && negb (code b =? 183).
Fixpoint dnsSDDomainRegex (s : str) : bool :=
  match s with
  | [] => true
  | a :: r =>
      if sdChar1 a then dnsSDDomainRegex r
      else match r with b :: r => sdChar2 a b && dnsSDDomainRegex r | [] => false end
  end.

Definition IsValidFqdn `{DNSLib} (fqdn : str) : bool :=
  if eqs fqdn $"." then true
  else if (256 <? Z.of_nat (length fqdn)) then false
  else if negb (IsFqdn fqdn) then false
  else if HasSuffix fqdn $".local." then dnsSDDomainRegex fqdn
  else if negb (cleanDomainRegex fqdn) then false
  else IsDomainName fqdn.

(** ** The scopes as networks *)
Definition octetNets (from n : Z) : list str :=
  (fun o => Itoa o ++ $".0.0.0/8") <$> seqZ from n.
Definition scopeTable4 : list (str * IPScope) :=
  [($"0.0.0.0/32", LocalMulticast); ($"0.0.0.0/8", Invalid); ($"10.0.0.0/8", SiteLocal);
   ($"100.64.0.0/10", SiteLocal); ($"127.0.0.0/8", HostLocal); ($"169.254.0.0/16", LinkLocal);
   ($"172.16.0.0/12", SiteLocal); ($"192.0.2.0/24", Invalid); ($"192.168.0.0/16", SiteLocal);
   ($"198.51.100.0/24", Invalid); ($"203.0.113.0/24", Invalid); ($"224.0.0.0/8", LocalMulticast);
   ($"233.252.0.0/24", Invalid)]
  ++ ((fun n => (n, GlobalMulticast)) <$> octetNets 225 14)
  ++ [($"239.0.0.0/8", LocalMulticast); ($"255.255.255.255/32", LocalMulticast);
      ($"240.0.0.0/4", Invalid)].
Definition scopeTable6 : list (str * IPScope) :=
  [($"::/128", Invalid); ($"::1/128", HostLocal); ($"fc00::/7", SiteLocal); ($"fe80::/10", LinkLocal);
   ($"ff00::/16", LocalMulticast); ($"ff01::/16", LocalMulticast); ($"ff02::/16", LocalMulticast);
   ($"ff03::/16", LocalMulticast); ($"ff04::/16", LocalMulticast); ($"ff05::/16", LocalMulticast);
   ($"ff00::/8", GlobalMulticast)].
Definition inRow (ip : IP) (row : str * IPScope) : option IPScope :=
  match ParseCIDR row.1 with
  | Some n => if NetContains n ip then Some row.2 else None
  | None => None
  end.
Definition scopeByTable (ip : IP) : IPScope :=
  default Global (first_some (inRow ip)
    (match To4 ip with Some _ => scopeTable4 | None => scopeTable6 end)).

(** A row as masked network number and mask. *)
Definition rowNet (row : str * IPScope) : option (list Z * list Z * IPScope) :=
  n ← ParseCIDR row.1; '(nn, m) ← networkNumberAndMask n; Some (andBytes nn m, m, row.2).
Fixpoint maskEq (x nn m : list Z) : bool :=
  match x, nn, m with
  | [], [], [] => true
  | a :: x, n :: nn, k :: m => (Z.land a k =? n) && maskEq x nn m
  | _, _, _ => false
  end.
Definition inNet (x : IP) (r : list Z * list Z * IPScope) : option IPScope :=
  let '(nn, m, sc) := r in if maskEq x nn m then Some sc else None.

Lemma maskEq_spec x nn m : length x = length m -> length nn = length m ->
  maskEq x (andBytes nn m) m = bool_decide (andBytes nn m = andBytes x m).
Proof.
  revert nn m. induction x as [|a x IH]; intros [|n nn] [|k m] H1 H2; try done.
  cbn [andBytes zip_with maskEq]. unfold andBytes in IH. rewrite IH by (simpl in *; lia).
  rewrite (bool_decide_ext (Z.land n k :: _ = _)
    (Z.land a k = Z.land n k /\ zip_with Z.land nn m = zip_with Z.land x m))
    by (split; [by intros [= -> ->]|by intros [-> ->]]).
  rewrite bool_decide_and. f_equal. case_bool_decide; lia.
Qed.
Lemma maskEq_length x nn m : length x <> length nn -> maskEq x nn m = false.
Proof.
  revert nn m. induction x as [|a x IH]; intros [|n nn] [|k m] H; try done. simpl in *.
  rewrite IH by lia. by rewrite andb_false_r.
Qed.
Lemma inRow_inNet ip row r : rowNet row = Some r ->
  inRow ip row = inNet (default ip (To4 ip)) r.
Proof.
  unfold rowNet, inRow. destruct (ParseCIDR row.1) as [n|] eqn:E; [|done]. cbn [mbind option_bind].
  destruct (ParseCIDR_ok _ _ E) as (nn & m & k & Hok). destruct Hok as [Hn [_ Hl] _ _ Hm _].
  rewrite Hn. cbn [mbind option_bind]. intros [= <-]. unfold NetContains, inNet. rewrite Hn.
  assert (length m = length nn) as Hlm.
  { rewrite Hm, CIDRMask_length. destruct Hl as [-> | ->]; done. }
  set (x := default ip (To4 ip)). destruct (decide (length x = length nn)) as [Hx|Hx].
  - rewrite maskEq_spec by lia. by rewrite (bool_decide_true (length x = length nn)).
  - rewrite maskEq_length by (rewrite andBytes_length; lia). by rewrite bool_decide_false.
Qed.
Lemma first_some_rows ip t l : rowNet <$> t = Some <$> l ->
  first_some (inRow ip) t = first_some (inNet (default ip (To4 ip))) l.
Proof.
  revert l. induction t as [|row t IH]; intros [|r l] H; try done. cbn in H.
  injection H as H1 H2. cbn [first_some]. rewrite (inRow_inNet _ _ _ H1), (IH l) by done. done.
Qed.

Definition nets4 : list (list Z * list Z * IPScope) :=
  Eval vm_compute in omap rowNet scopeTable4.
Definition nets6 : list (list Z * list Z * IPScope) :=
  Eval vm_compute in omap rowNet scopeTable6.

Lemma byte_land_255 a : isByte a -> Z.land a 255 = a.
Proof. unfold isByte. intros H. change 255 with (Z.ones 8). rewrite Z.land_ones, Z.mod_small by lia. done. Qed.
Lemma byte_land_240 a : isByte a -> (Z.land a 240 =? 240) = (240 <=? a).
Proof.
  intros H. assert (forallb (fun a => Bool.eqb (Z.land a 240 =? 240) (240 <=? a)) (seqZ 0 256) = true)
    as Hall by (vm_compute; reflexivity).
  by apply Bool.eqb_prop, (Forall_seqZ_check _ _ Hall).
Qed.

Lemma default_if {A} (g y : A) (c : bool) (r : option A) :
  default g (match (if c then Some y else None) with Some y => Some y | None => r end)
  = if c then y else default g r.
Proof. by destruct c. Qed.
Lemma if_same_test {A} (c c' : bool) (x r r' : A) :
  c' = c -> (c = false -> r = r') -> (if c then x else r) = (if c' then x else r').
Proof. intros ->. destruct c; auto. Qed.

(** The multicast blocks 225/8 to 238/8 as one test. *)
Lemma octet_rows {A} (a : Z) (x r : A) :
  (if a =? 225 then x else if a =? 226 then x else if a =? 227 then x else if a =? 228 then x
   else if a =? 229 then x else if a =? 230 then x else if a =? 231 then x else if a =? 232 then x
   else if a =? 233 then x else if a =? 234 then x else if a =? 235 then x else if a =? 236 then x
   else if a =? 237 then x else if a =? 238 then x else r)
  = if (225 <=? a) && (a <=? 238) then x else r.
Proof.
  destruct ((225 <=? a) && (a <=? 238)) eqn:E.
  - assert (In a (seqZ 225 14)) as H by (apply list_elem_of_In, elem_of_seqZ; lia).
    repeat (destruct H as [<-|H]; [reflexivity|]). done.
  - repeat match goal with |- context [a =? ?n] => replace (a =? n) with false by lia end. done.
Qed.
Lemma ff_rows {A} (b : Z) (t : bool) (x r : A) : 0 <= b ->
  (if t && (b =? 0) then x else if t && (b =? 1) then x else if t && (b =? 2) then x
   else if t && (b =? 3) then x else if t && (b =? 4) then x else if t && (b =? 5) then x else r)
  = if t && (b <=? 5) then x else r.
Proof.
  intros Hb. destruct t; [|done]. cbn [andb]. destruct (b <=? 5) eqn:E.
  - assert (In b (seqZ 0 6)) as H by (apply list_elem_of_In, elem_of_seqZ; lia).
    repeat (destruct H as [<-|H]; [reflexivity|]). done.
  - repeat match goal with |- context [b =? ?n] => replace (b =? n) with false by lia end. done.
Qed.

(** Compares two chains of tests, test by test. *)
Ltac same_tests :=
  repeat (apply if_same_test; [rewrite ?andb_assoc; reflexivity|intros _]); try reflexivity.

Lemma GetIPScope_table4 ip p : To4 ip = Some p -> Forall isByte p -> length p = 4%nat ->
  GetIPScope ip = default Global (first_some (inNet p) nets4).
Proof.
  intros E4 Hbp Hlp. unfold GetIPScope. rewrite E4.
  destruct p as [|a [|b [|c [|d [|]]]]]; try done.
  apply Forall_cons in Hbp as [Ha Hbp]. apply Forall_cons in Hbp as [Hb' Hbp].
  apply Forall_cons in Hbp as [Hc Hbp]. apply Forall_cons in Hbp as [Hd _].
  cbn [nets4 first_some inNet maskEq nth].
  rewrite ?Z.land_0_r, ?byte_land_255, ?byte_land_240, ?Z.eqb_refl, ?andb_true_r by done.
  cbn [andb]. rewrite !default_if, octet_rows. same_tests.
Qed.

Lemma eq16_tests (x : IP) (y : list Z) : Forall isByte x -> length x = length y ->
  IPEqual x y = maskEq x y (replicate (length y) 255).
Proof.
  intros Hb Hl. unfold IPEqual. rewrite bool_decide_true by done. revert y Hl.
  induction Hb as [|a x Ha _ IH]; intros [|c y] Hl; try done.
  simpl in *. rewrite <- IH by lia. rewrite byte_land_255 by done.
  rewrite (bool_decide_ext (a :: x = c :: y) (a = c /\ x = y)) by (split; [by intros [= -> ->]|by intros [-> ->]]).
  rewrite bool_decide_and. f_equal. case_bool_decide; lia.
Qed.

Lemma GetIPScope_table6 ip : To4 ip = None -> Forall isByte ip -> length ip = 16%nat ->
  GetIPScope ip = default Global (first_some (inNet ip) nets6).
Proof.
  intros E4 Hb Hl. unfold GetIPScope. rewrite E4, bool_decide_true by done.
  rewrite !eq16_tests by (done || by rewrite Hl).
  destruct ip as [|a [|b ip]]; try done.
  apply Forall_cons in Hb as [Ha Hb]. apply Forall_cons in Hb as [Hb' Hb].
  do 14 (destruct ip as [|? ip]; [done|]). destruct ip; [|done].
  cbn [nets6 first_some inNet nth]. rewrite !default_if.
  apply if_same_test; [reflexivity|intros _]. apply if_same_test; [reflexivity|intros _].
  cbn [maskEq]. rewrite ?Z.land_0_r, ?byte_land_255, ?Z.eqb_refl, ?andb_true_r by done.
  rewrite ff_rows by (unfold isByte in *; lia). same_tests.
Qed.

(** The bit tests of [GetIPScope] classify every address as the comments say:
    by the first of the listed networks that contains it, as global otherwise. *)
Theorem GetIPScope_table ip : wellFormedIP ip -> GetIPScope ip = scopeByTable ip.
Proof.
  intros [Hb Hl]. unfold scopeByTable. destruct (To4 ip) as [p|] eqn:E4.
  - rewrite (first_some_rows ip _ nets4) by (vm_compute; reflexivity). rewrite E4.
    destruct (To4_Some _ _ E4 Hb) as (Hlp & Hbp & _). by apply GetIPScope_table4.
  - destruct Hl as [Hl|Hl]; [by rewrite To4_length4 in E4|].
    rewrite (first_some_rows ip _ nets6) by (vm_compute; reflexivity). rewrite E4.
    by apply GetIPScope_table6.
Qed.

(** ** Broadcast addresses *)
Lemma host_bits x m i : 0 <= i ->
  Z.testbit (Z.lor x (Z.land (Z.lnot m) 255)) i
  = Z.testbit x i || (negb (Z.testbit m i) && (i <? 8)).
Proof.
  intros Hi. rewrite Z.lor_spec, Z.land_spec, Z.lnot_spec by done. do 2 f_equal.
  change 255 with (Z.ones 8). destruct (i <? 8) eqn:E; bool_prop.
  - by apply Z.ones_spec_low.
  - by apply Z.ones_spec_high.
Qed.
Lemma broadcast_byte_same x y m : isByte x -> isByte y -> Z.land x m = Z.land y m ->
  Z.lor x (Z.land (Z.lnot m) 255) = Z.lor y (Z.land (Z.lnot m) 255).
Proof.
  intros Hx Hy H. apply Z.bits_inj'. intros i Hi. rewrite !host_bits by done.
  assert (Z.testbit (Z.land x m) i = Z.testbit (Z.land y m) i) as Hb by (by rewrite H).
  rewrite !Z.land_spec in Hb. destruct (i <? 8) eqn:E; bool_prop.
  - by destruct (Z.testbit m i), (Z.testbit x i), (Z.testbit y i).
  - assert (forall z, isByte z -> Z.testbit z i = false) as Hz.
    { intros z Hz. rewrite <- (byte_land_255 z Hz). change 255 with (Z.ones 8).
      rewrite Z.land_spec, Z.ones_spec_high, andb_false_r by lia. done. }
    by rewrite (Hz x), (Hz y) by done.
Qed.
Lemma broadcast_byte_net x m : Z.land (Z.lor x (Z.land (Z.lnot m) 255)) m = Z.land x m.
Proof.
  apply Z.bits_inj'. intros i Hi. rewrite Z.land_spec, host_bits, Z.land_spec by done.
  destruct (Z.testbit m i); simpl; by rewrite ?orb_false_r, ?andb_false_r.
Qed.
Definition broadcast (x m : list Z) : IP := zip_with (fun i m => Z.lor i (Z.land (Z.lnot m) 255)) x m.
Lemma broadcast_same x y m : Forall isByte x -> Forall isByte y -> length x = length y ->
  andBytes x m = andBytes y m -> broadcast x m = broadcast y m.
Proof.
  intros Hx. revert y m. induction Hx as [|a x Ha _ IH]; intros [|b y] m Hy Hl H; try done.
  apply Forall_cons in Hy as [Hb Hy]. destruct m as [|k m]; [done|].
  unfold andBytes, broadcast in *. simpl in *. injection H as H1 H2.
  rewrite (broadcast_byte_same a b k) by done. f_equal. apply IH; [done|lia|done].
Qed.
Lemma broadcast_net x m : andBytes (broadcast x m) m = andBytes x m.
Proof.
  revert m. induction x as [|a x IH]; intros [|k m]; try done.
  unfold andBytes, broadcast in *. simpl. by rewrite IH, broadcast_byte_net.
Qed.

(** For an IPv4 network, all its addresses have the same broadcast address
    under its mask, and that address lies in the network. *)
Theorem broadcast_of_network s n ip :
  ParseCIDR s = Some n -> length (netIP n) = 4%nat -> length (netMask n) = 4%nat ->
  wellFormedIP ip -> NetContains n ip = true ->
  exists b, GetBroadcastAddress ip (netMask n) = Some b /\
    GetBroadcastAddress (netIP n) (netMask n) = Some b /\ NetContains n b = true.
Proof.
  intros Hp Hl Hlm [Hb _] Hc. destruct (ParseCIDR_ok _ _ Hp) as (nn & m & k & [Hn [Hnb _] _ _ _ _]).
  assert (nn = netIP n /\ m = netMask n) as [-> ->].
  { unfold networkNumberAndMask in Hn. rewrite To4_length4 in Hn by done. cbn [mbind option_bind] in Hn.
    rewrite !bool_decide_true in Hn by done. by injection Hn as -> ->. }
  unfold NetContains in Hc. rewrite Hn in Hc.
  apply andb_true_iff in Hc as [Hc1%bool_decide_eq_true Hc2%bool_decide_eq_true].
  assert (Forall isByte (default ip (To4 ip))) as Hbx.
  { destruct (To4 ip) as [p|] eqn:E4; [|done]. by destruct (To4_Some _ _ E4 Hb) as (_ & ? & _). }
  exists (broadcast (netIP n) (netMask n)).
  unfold GetBroadcastAddress. rewrite (To4_length4 (netIP n)), (To4_length4 (netMask n)) by done.
  cbn [from_option id]. rewrite !bool_decide_true by lia. cbn [negb]. split; [|split; [done|]].
  - f_equal. by apply broadcast_same.
  - assert (length (broadcast (netIP n) (netMask n)) = 4%nat) as Hlb
      by (unfold broadcast; rewrite length_zip_with; lia).
    unfold NetContains. rewrite Hn, (To4_length4 _ Hlb). cbn [from_option id].
    rewrite bool_decide_true by lia. rewrite broadcast_net. by rewrite bool_decide_true.
Qed.

(** ** Names *)
Definition dotted (labels : list str) : str := concat ((fun w => w ++ $".") <$> labels).
Lemma dotted_Join labels : dotted labels = Join (labels ++ [[]]) $".".
Proof.
  induction labels as [|w ws IH]; [done|].
  change (dotted (w :: ws)) with ((w ++ $".") ++ dotted ws). rewrite IH, <- app_assoc.
  by destruct ws.
Qed.

Lemma cleanDomainRegex_spec s : cleanDomainRegex s = true <->
  exists labels, labels <> [] /\ s = dotted labels /\ Forall (fun w => cleanLabel w = true) labels.
Proof.
  assert (forall w, cleanLabel w = true -> "."%char ∉ w) as Hdot.
  { intros w Hw. unfold cleanLabel in Hw. apply andb_true_iff in Hw as [Hw _].
    by eapply all_not_in. }
  unfold cleanDomainRegex. split.
  - destruct (rev (Split s ".")) as [|[|] [|w ws]] eqn:E; try done.
    intros H. exists (rev (w :: ws)).
    apply (f_equal (@rev str)) in E. rewrite rev_involutive in E. simpl in E. split; [|split].
    + simpl. by destruct (rev ws).
    + rewrite dotted_Join. simpl. rewrite <- E. by rewrite Join_Split.
    + apply Forall_rev. rewrite forallb_forall in H. apply Forall_forall. intros x Hx. by apply H, list_elem_of_In.
  - intros (labels & Hn & -> & Hl). rewrite dotted_Join.
    change $"." with ["."%char]. rewrite Split_Join.
    + rewrite rev_app_distr. simpl. destruct (rev labels) as [|w ws] eqn:E.
      { apply (f_equal (@rev str)) in E. rewrite rev_involutive in E. done. }
      change (forallb cleanLabel (w :: ws) = true). rewrite <- E. apply forallb_forall. intros x Hx%in_rev. rewrite Forall_forall in Hl.
      by apply Hl, list_elem_of_In.
    + by destruct labels.
    + apply Forall_app. split; [|repeat constructor; set_solver].
      eapply Forall_impl; [exact Hl|]. done.
Qed.

(** A name other than the root and outside [.local.] that [IsValidFqdn] accepts
    is a sequence of dot-terminated labels of lower-case letters, digits, dashes
    and underscores, none empty and none longer than 63 (67 with the IDN prefix),
    of at most 256 bytes in total. *)
Theorem valid_fqdn_labels `{DNSLib} s :
  IsValidFqdn s = true -> s <> $"." -> HasSuffix s $".local." = false ->
  (length s <= 256)%nat /\ exists labels, labels <> [] /\ s = dotted labels /\
    Forall (fun w => Forall (fun c => cleanChar c = true) w /\
      (1 <= length w <= if HasPrefix w $"xn--" then 67 else 63)%nat) labels.
Proof.
  unfold IsValidFqdn, eqs. intros Hv Hr Hl. rewrite bool_decide_false, Hl in Hv by done.
  destruct (256 <? _) eqn:E; [done|]. destruct (negb (IsFqdn s)); [done|].
  destruct (cleanDomainRegex s) eqn:Ec; [|done]. split; [lia|].
  apply cleanDomainRegex_spec in Ec as (labels & Hn & Hs & Hf). exists labels.
  split; [done|]. split; [done|]. eapply Forall_impl; [exact Hf|]. clear. intros w Hw. cbv beta in Hw.
  unfold cleanLabel in Hw. apply andb_true_iff in Hw as [Hc Hw]. split.
  - unfold all in Hc. rewrite forallb_forall in Hc. apply Forall_forall. intros c Hin.
    by apply Hc, list_elem_of_In.
  - revert Hw. destruct (HasPrefix w $"xn--"); rewrite ?orb_true_iff, ?andb_true_iff, ?Nat.leb_le; lia.
Qed.

(** A name with a line break, quotation marks and angle brackets. *)
Definition oddName : str := $"<script " ++ [ascii_of_nat 10; ascii_of_nat 34] ++ $"'`>.local.".

(** The check of [.local.] names accepts line breaks, quotation marks and
    angle brackets: in the character class the escape [\a] is the bell, so that
    [\a-z] spans all of 7 to 122. *)
Theorem local_fqdn_odd_chars `{DNSLib} :
  IsFqdn oddName = true -> IsValidFqdn oddName = true.
Proof.
  intros H1. unfold IsValidFqdn.
  assert (eqs oddName $"." = false) as -> by (vm_compute; reflexivity).
  assert (256 <? Z.of_nat (length oddName) = false) as -> by (vm_compute; reflexivity).
  rewrite H1. vm_compute. reflexivity.
Qed.

(** ** Witnesses *)
#[local] Instance simpleDNS : DNSLib := {|
  IsFqdn s := HasSuffix s $".";
  IsDomainName s := forallb (fun w => (length w <=? 63)%nat) (Split s ".");
|}.

Lemma GetIPScope_table_witness :
  wellFormedIP [172; 20; 1; 1] /\ scopeByTable [172; 20; 1; 1] = SiteLocal /\
  GetIPScope [172; 20; 1; 1] = scopeByTable [172; 20; 1; 1].
Proof.
  assert (wellFormedIP [172; 20; 1; 1]) as H.
  { split; [|by left]. by repeat (apply Forall_cons; split; [unfold isByte; lia|]). }
  split; [exact H|]. split; [vm_compute; reflexivity|]. exact (GetIPScope_table _ H).
Defined.

Lemma broadcast_of_network_witness :
  exists n, ParseCIDR $"10.1.2.0/23" = Some n /\
    exists b, GetBroadcastAddress [10; 1; 3; 7] (netMask n) = Some b /\
      GetBroadcastAddress (netIP n) (netMask n) = Some b /\ NetContains n b = true.
Proof.
  assert (wellFormedIP [10; 1; 3; 7]) as H.
  { split; [|by left]. by repeat (apply Forall_cons; split; [unfold isByte; lia|]). }
  exists (mkIPNet [10; 1; 2; 0] [255; 255; 254; 0]). split; [vm_compute; reflexivity|].
  apply (broadcast_of_network $"10.1.2.0/23" _ [10; 1; 3; 7]);
    [vm_compute; reflexivity|reflexivity|reflexivity|exact H|vm_compute; reflexivity].
Defined.

Lemma valid_fqdn_labels_witness :
  IsValidFqdn $"www.example-1.com." = true /\
  (length $"www.example-1.com." <= 256)%nat /\ exists labels, labels <> [] /\
    $"www.example-1.com." = dotted labels /\
    Forall (fun w => Forall (fun c => cleanChar c = true) w /\
      (1 <= length w <= if HasPrefix w $"xn--" then 67 else 63)%nat) labels.
Proof.
  split; [vm_compute; reflexivity|].
  apply (valid_fqdn_labels $"www.example-1.com."); [vm_compute; reflexivity|done|vm_compute; reflexivity].
Defined.

Lemma local_fqdn_odd_chars_witness : IsFqdn oddName = true /\ IsValidFqdn oddName = true.
Proof.
  split; [vm_compute; reflexivity|]. apply local_fqdn_odd_chars. vm_compute; reflexivity.
Defined.
