(* ===== verification/Reference.v ===== *)
(** * Names of protocols and ports (service/network/reference)

    The lookup tables, and that every name the lookups give for a protocol or a
    port is read back as the same number (the rendering and parsing of endpoint
    rules relies on it). *)

From S2P Require Import Prelude GoStrings GoText.

(** The value of the first entry with key [k]. *)
Fixpoint lookupKey {K V} `{EqDecision K} (k : K) (l : list (K * V)) : option V :=
  match l with
  | [] => None
  | (k', v) :: l => if bool_decide (k = k') then Some v else lookupKey k l
  end.

Definition portNames : list (Z * str) :=
  [(20, $"FTP-DATA"); (21, $"FTP"); (22, $"SSH"); (23, $"TELNET"); (25, $"SMTP"); (43, $"WHOIS");
   (53, $"DNS"); (67, $"DHCP_SERVER"); (68, $"DHCP_CLIENT"); (69, $"TFTP"); (80, $"HTTP");
   (110, $"POP3"); (123, $"NTP"); (143, $"IMAP"); (161, $"SNMP"); (179, $"BGP"); (194, $"IRC");
   (389, $"LDAP"); (443, $"HTTPS"); (445, $"SMB"); (587, $"SMTP_ALT"); (465, $"SMTP_SSL");
   (993, $"IMAP_SSL"); (995, $"POP3_SSL")].
Definition portNumbers : list (str * Z) :=
  [($"FTP-DATA", 20); ($"FTP", 21); ($"SSH", 22); ($"TELNET", 23); ($"SMTP", 25); ($"WHOIS", 43);
   ($"DNS", 53); ($"DHCP-SERVER", 67); ($"DHCP_SERVER", 67); ($"DHCP-CLIENT", 68);
   ($"DHCP_CLIENT", 68); ($"TFTP", 69); ($"HTTP", 80); ($"POP3", 110); ($"NTP", 123);
   ($"IMAP", 143); ($"SNMP", 161); ($"BGP", 179); ($"IRC", 194); ($"LDAP", 389); ($"HTTPS", 443);
   ($"SMB", 445); ($"SMTP-ALT", 587); ($"SMTP_ALT", 587); ($"SMTP-SSL", 465); ($"SMTP_SSL", 465);
   ($"IMAP-SSL", 993); ($"IMAP_SSL", 993); ($"POP3-SSL", 995); ($"POP3_SSL", 995)].
Definition protocolNames : list (Z * str) :=
  [(1, $"ICMP"); (2, $"IGMP"); (6, $"TCP"); (17, $"UDP"); (27, $"RDP"); (58, $"ICMP6");
   (33, $"DCCP"); (136, $"UDP-LITE")].
Definition protocolNumbers : list (str * Z) :=
  [($"ICMP", 1); ($"IGMP", 2); ($"TCP", 6); ($"UDP", 17); ($"RDP", 27); ($"DCCP", 33);
   ($"ICMP6", 58); ($"UDP-LITE", 136)].

Section reference.
Context `{UnicodeTables}.

Definition GetPortName (port : Z) : str := default (Itoa port) (lookupKey port portNames).
Definition GetPortNumber (port : str) : option Z := lookupKey (ToUpper port) portNumbers.
Definition GetProtocolName (protocol : Z) : str :=
  default (Itoa protocol) (lookupKey protocol protocolNames).
Definition GetProtocolNumber (protocol : str) : option Z :=
  lookupKey (ToUpper protocol) protocolNumbers.
End reference.

Definition IsPacketProtocol (protocol : Z) : bool := existsb (Z.eqb protocol) [1; 17; 27; 58; 33; 136].
Definition IsStreamProtocol (protocol : Z) : bool := protocol =? 6.
Definition IsICMP (protocol : Z) : bool := existsb (Z.eqb protocol) [1; 58].

(** ** Facts *)
Lemma lookupKey_in {K V} `{EqDecision K} (k : K) (l : list (K * V)) v :
  lookupKey k l = Some v -> (k, v) ∈ l.
Proof.
  induction l as [|[k' v'] l IH]; simpl; [done|]. case_bool_decide; [|set_solver].
  intros [= ->]. subst. left.
Qed.

(** The characters of the names: letters, digits, underscores and dashes. *)
Definition nameChar (c : ascii) : bool := isUpper c || isDigit c || oneOf $"_-" c.

Lemma portNames_ok `{UnicodeTables} p w : lookupKey p portNames = Some w ->
  GetPortNumber w = Some p /\ 0 < p < 2 ^ 16 /\ all nameChar w = true /\ ParseUint w 16 = None /\
  ("-"%char ∈ w -> p = 20) /\ "/"%char ∉ w.
Proof.
  intros Hl%lookupKey_in. unfold GetPortNumber, portNames in *.
  repeat (apply elem_of_cons in Hl as [[= -> ->]|Hl];
    [split; [vm_compute; reflexivity|]; split; [lia|];
     split; [vm_compute; reflexivity|]; split; [vm_compute; reflexivity|]; set_solver|]).
  by apply elem_of_nil in Hl.
Qed.
Lemma protocolNames_ok `{UnicodeTables} p w : lookupKey p protocolNames = Some w ->
  GetProtocolNumber w = Some p /\ 0 < p < 2 ^ 8 /\ all nameChar w = true /\ ParseUint w 8 = None /\
  "/"%char ∉ w.
Proof.
  intros Hl%lookupKey_in. unfold GetProtocolNumber, protocolNames in *.
  repeat (apply elem_of_cons in Hl as [[= -> ->]|Hl];
    [split; [vm_compute; reflexivity|]; split; [lia|];
     split; [vm_compute; reflexivity|]; split; [vm_compute; reflexivity|]; set_solver|]).
  by apply elem_of_nil in Hl.
Qed.
