(* ===== verification/Entity.v ===== *)
(** * Network entities (service/intel/entity.go)

    An [Entity] describes the remote side of a connection and loads, at most
    once each, its reverse domain, its location and the filter lists it occurs
    on.  The location database, the filter lists, the reverse resolver, the
    public suffix list and the iteration order of Go maps are the environment
    [IntelEnv]. *)

From S2P Require Import Prelude GoStrings GoText GoNet NetUtils.

(** ** Data *)
Record ContinentInfo := mkContinent { ContinentCode : str; ContinentName : str }.
Record CountryInfo := mkCountry { CountryCode : str; CountryName : str; Continent : ContinentInfo }.
Record Location := mkLocation {
  LocCountry : CountryInfo;
  Coordinates : Z * Z;
  AutonomousSystemNumber : Z;
  AutonomousSystemOrganization : str;
}.

(** A value or the text of an error. *)
Abbreviation result A := (A + str)%type.

Class IntelEnv := {
  geoipGetLocation : IP -> result Location;
  LookupDomain : str -> result (list str);
  LookupASNString : str -> result (list str);
  LookupCountry : str -> result (list str);
  LookupIP : IP -> result (list str);
  reverseResolver : option (str -> result str);
  (** The public suffix of a domain, always a suffix of it, and whether it is
      managed by the ICANN. *)
  PublicSuffix : str -> str * bool;
  (** The order in which a map with these keys is iterated. *)
  mapOrder : list str -> list str;
}.

Record Entity := mkEntity {
  domainListLoaded : bool; ipListLoaded : bool; countryListLoaded : bool; asnListLoaded : bool;
  reverseResolveEnabled : bool; resolveSubDomainLists : bool; checkCNAMEs : bool;
  EIP : option IP; EIPScope : IPScope; Protocol : Z; EPort : Z; dstPort : Z;
  Domain : str; ReverseDomain : str; CNAME : list str;
  Country : str; ECoordinates : option (Z * Z); ASN : Z; ASOrg : str;
  LocationError : str; location : option Location;
  BlockedByLists : list str; BlockedEntities : list str;
  ListOccurences : gmap str (list str); ListsError : str;
  fetchLocationOnce : bool; reverseResolveOnce : bool; loadDomainListOnce : bool;
  loadIPListOnce : bool; loadCountryListOnce : bool; loadAsnListOnce : bool;
}.
#[export] Instance eta_Entity : Eta Entity := fun e =>
  mkEntity (domainListLoaded e) (ipListLoaded e) (countryListLoaded e) (asnListLoaded e)
    (reverseResolveEnabled e) (resolveSubDomainLists e) (checkCNAMEs e)
    (EIP e) (EIPScope e) (Protocol e) (EPort e) (dstPort e)
    (Domain e) (ReverseDomain e) (CNAME e)
    (Country e) (ECoordinates e) (ASN e) (ASOrg e) (LocationError e) (location e)
    (BlockedByLists e) (BlockedEntities e) (ListOccurences e) (ListsError e)
    (fetchLocationOnce e) (reverseResolveOnce e) (loadDomainListOnce e)
    (loadIPListOnce e) (loadCountryListOnce e) (loadAsnListOnce e).

(** A new entity with the fields the callers set. *)
Definition newEntity (ip : option IP) (proto port : Z) (domain : str) (cname : list str) : Entity := {|
  domainListLoaded := false; ipListLoaded := false; countryListLoaded := false;
  asnListLoaded := false; reverseResolveEnabled := false; resolveSubDomainLists := false;
  checkCNAMEs := false; EIP := ip; EIPScope := Undefined; Protocol := proto; EPort := port;
  dstPort := 0; Domain := domain; ReverseDomain := []; CNAME := cname; Country := [];
  ECoordinates := None; ASN := 0; ASOrg := []; LocationError := []; location := None;
  BlockedByLists := []; BlockedEntities := []; ListOccurences := ∅; ListsError := [];
  fetchLocationOnce := false; reverseResolveOnce := false; loadDomainListOnce := false;
  loadIPListOnce := false; loadCountryListOnce := false; loadAsnListOnce := false;
|}.

(** ** String lists *)

(** The first occurrence of every string ([makeDistinct]). *)
Fixpoint makeDistinctGo (seen : list str) (slice : list str) : list str :=
  match slice with
  | [] => []
  | v :: slice =>
      if bool_decide (v ∈ seen) then makeDistinctGo seen slice
      else v :: makeDistinctGo (v :: seen) slice
  end.
Definition makeDistinct (slice : list str) : list str := makeDistinctGo [] slice.
Definition makeMap (slice : list str) : gset str := list_to_set slice.

(** [sort.Strings]: byte order. *)
Fixpoint strLe (a b : str) : bool :=
  match a, b with
  | [], _ => true
  | _ :: _, [] => false
  | c :: a, d :: b => (code c <? code d) || ((code c =? code d) && strLe a b)
  end.
Fixpoint insertStr (v : str) (l : list str) : list str :=
  match l with
  | [] => [v]
  | w :: l => if strLe v w then v :: w :: l else w :: insertStr v l
  end.
Definition sortStrings (l : list str) : list str := foldr insertStr [] l.
Definition mergeStringList (a b : list str) : list str := sortStrings (makeDistinct (a ++ b)).

Section entity.
Context `{IntelEnv}.

(** ** Basics *)
Definition EntityInit (port : Z) (e : Entity) : Entity :=
  let e := e <| EIPScope := match EIP e with Some ip => GetIPScope ip | None => Undefined end |> in
  e <| dstPort := if 0 <? port then port else EPort e |>.
Definition DstPort (e : Entity) : Z := dstPort e.

Definition ResetLists (e : Entity) : Entity :=
  e <| BlockedByLists := [] |> <| BlockedEntities := [] |> <| ListOccurences := ∅ |>
    <| domainListLoaded := false |> <| ipListLoaded := false |> <| countryListLoaded := false |>
    <| asnListLoaded := false |> <| resolveSubDomainLists := false |> <| checkCNAMEs := false |>
    <| loadDomainListOnce := false |> <| loadIPListOnce := false |>
    <| loadCountryListOnce := false |> <| loadAsnListOnce := false |>.

Definition ResolveSubDomainLists (enabled : bool) (e : Entity) : Entity :=
  e <| resolveSubDomainLists := enabled |>.
Definition EnableCNAMECheck (enabled : bool) (e : Entity) : Entity := e <| checkCNAMEs := enabled |>.
Definition CNAMECheckEnabled (e : Entity) : bool := checkCNAMEs e.
Definition EnableReverseResolving (e : Entity) : Entity := e <| reverseResolveEnabled := true |>.

(** ** Domain and IP *)
Definition reverseResolve (e : Entity) : Entity :=
  if reverseResolveOnce e then e else
  let e := e <| reverseResolveOnce := true |> in
  match EIP e, reverseResolver with
  | Some ip, Some resolve =>
      match resolve (IPString ip) with
      | inl domain => e <| ReverseDomain := domain |>
      | inr _ => e
      end
  | _, _ => e
  end.
Definition setOr (s : str) : option str := if bool_decide (s = []) then None else Some s.
Definition GetDomain (mayUseReverseDomain : bool) (e : Entity) : option str * Entity :=
  if mayUseReverseDomain && reverseResolveEnabled e then
    let e := reverseResolve e in (setOr (ReverseDomain e), e)
  else (setOr (Domain e), e).
Definition GetIP (e : Entity) : option IP := EIP e.

(** ** Location *)
Definition getLocation (e : Entity) : Entity :=
  if fetchLocationOnce e then e else
  let e := e <| fetchLocationOnce := true |> in
  match EIP e with
  | None => e
  | Some ip =>
      if negb (IsGlobal (EIPScope e)) then e else
      match geoipGetLocation ip with
      | inr err => e <| LocationError := err |>
      | inl loc =>
          e <| location := Some loc |> <| Country := CountryCode (LocCountry loc) |>
            <| ECoordinates := Some (Coordinates loc) |> <| ASN := AutonomousSystemNumber loc |>
            <| ASOrg := AutonomousSystemOrganization loc |>
      end
  end.
Definition GetLocation (e : Entity) : option Location * Entity :=
  let e := getLocation e in (location e, e).
Definition GetCountry (e : Entity) : option str * Entity :=
  let e := getLocation e in
  (if bool_decide (LocationError e = []) then Some (Country e) else None, e).
(** [Panic]: the location is a nil pointer although there was no error. *)
Definition GetCountryInfo (e : Entity) : outcome str (option CountryInfo * Entity) :=
  let e := getLocation e in
  if negb (bool_decide (LocationError e = [])) then Ret (None, e)
  else match location e with
       | Some loc => Ret (Some (LocCountry loc), e)
       | None => Panic
       end.
Definition GetASN (e : Entity) : option Z * Entity :=
  let e := getLocation e in
  (if bool_decide (LocationError e = []) then Some (ASN e) else None, e).

(** ** Lists *)
Definition mergeList (key : str) (l : list str) (e : Entity) : Entity :=
  match l with
  | [] => e
  | _ => e <| ListOccurences ::= fun m => <[key := mergeStringList (default [] (m !! key)) l]> m |>
  end.

(** The parent domains of [domain] up to the public suffix. *)
Fixpoint tails_join (labels : list str) (suffix : str) : list str :=
  match labels with
  | [] => []
  | _ :: rest => (Join labels $"." ++ $"." ++ suffix ++ $".") :: tails_join rest suffix
  end.
Definition splitDomain (domain : str) : list str :=
  let d := TrimSuffix domain $"." in
  let '(suffix, icann) := PublicSuffix d in
  if eqs suffix d then [domain] else
  let labels := filter (fun w => w <> []) (Split (take (length d - length suffix) d) ".") in
  tails_join labels suffix ++ (if icann then [] else [suffix ++ $"."]).

(** The loop over the domains: stops at the first error. *)
Fixpoint loadDomains (domains : list str) (e : Entity) : Entity :=
  match domains with
  | [] => e <| domainListLoaded := true |>
  | d :: domains =>
      match LookupDomain d with
      | inr err => e <| ListsError := err |>
      | inl l => loadDomains domains (mergeList d l e)
      end
  end.
Definition getDomainLists (e : Entity) : Entity :=
  if domainListLoaded e then e else
  match GetDomain false e with
  | (None, e) => e
  | (Some domain, e) =>
      if loadDomainListOnce e then e else
      let e := e <| loadDomainListOnce := true |> in
      let domainsToInspect := domain :: (if checkCNAMEs e then CNAME e else []) in
      let domains := if resolveSubDomainLists e then concat (splitDomain <$> domainsToInspect)
                     else domainsToInspect in
      loadDomains (makeDistinct domains) e
  end.
Definition getASNLists (e : Entity) : Entity :=
  if asnListLoaded e then e else
  match GetASN e with
  | (None, e) => e
  | (Some asn, e) =>
      if asn =? 0 then e else
      if loadAsnListOnce e then e else
      let e := e <| loadAsnListOnce := true |> in
      match LookupASNString (Itoa asn) with
      | inr err => e <| ListsError := err |>
      | inl l => (mergeList (Itoa asn) l e) <| asnListLoaded := true |>
      end
  end.
Definition getCountryLists (e : Entity) : Entity :=
  if countryListLoaded e then e else
  match GetCountry e with
  | (None, e) => e
  | (Some country, e) =>
      if bool_decide (country = []) then e else
      if loadCountryListOnce e then e else
      let e := e <| loadCountryListOnce := true |> in
      match LookupCountry country with
      | inr err => e <| ListsError := err |>
      | inl l => (mergeList country l e) <| countryListLoaded := true |>
      end
  end.
Definition getIPLists (e : Entity) : Entity :=
  if ipListLoaded e then e else
  match GetIP e with
  | None => e
  | Some ip =>
      if negb (IsGlobal (EIPScope e)) then e else
      if loadIPListOnce e then e else
      let e := e <| loadIPListOnce := true |> in
      match LookupIP ip with
      | inr err => e <| ListsError := err |>
      | inl l => (mergeList (IPString ip) l e) <| ipListLoaded := true |>
      end
  end.
Definition getLists (e : Entity) : Entity :=
  getCountryLists (getIPLists (getASNLists (getDomainLists e))).
Definition LoadLists (e : Entity) : Entity := getLists e.
Definition FetchData (e : Entity) : Entity := getLists (getLocation e).

(** The matches of the iteration: list and entity key. *)
Definition listMatches (lm : gset str) (e : Entity) : list (str * str) :=
  concat ((fun key =>
    (fun l => (l, key)) <$> filter (fun l => l ∈ lm) (default [] (ListOccurences e !! key)))
    <$> mapOrder (map fst (map_to_list (ListOccurences e)))).
Definition MatchLists (lists : list str) (e : Entity) : bool * Entity :=
  match lists with
  | [] => (false, e)
  | _ =>
      let ms := listMatches (makeMap lists) e in
      let by_ := makeDistinct (fst <$> ms) in
      let entities := makeDistinct (snd <$> ms) in
      let e := e <| BlockedByLists := by_ |> <| BlockedEntities := entities |> in
      (negb (bool_decide (by_ = [])), e)
  end.

Record ListMatch := mkListMatch { LMEntity : str; ActiveLists : list str; InactiveLists : list str }.
Definition ListBlockReason (e : Entity) : list ListMatch :=
  let lm := makeMap (BlockedByLists e) in
  (fun blocked =>
     match ListOccurences e !! blocked with
     | Some ls => mkListMatch blocked (filter (fun l => l ∈ lm) ls) (filter (fun l => l ∉ lm) ls)
     | None => mkListMatch [] [] []
     end) <$> BlockedEntities e.
End entity.
