(* ===== verification/EntityFacts.v ===== *)
(** * Facts about entities

    What [MatchLists] finds, that the country lookup never dereferences the nil
    location, and that every list is loaded at most once. *)

From S2P Require Import Prelude GoStrings GoText GoNet NetUtils Entity.

(** ** Distinct lists *)
Lemma elem_of_makeDistinctGo seen l v : v ∈ makeDistinctGo seen l <-> v ∈ l /\ v ∉ seen.
Proof.
  revert seen. induction l as [|w l IH]; intros seen; simpl; [set_solver|].
  case_bool_decide as H; [|rewrite elem_of_cons]; rewrite IH; [set_solver|].
  rewrite !elem_of_cons. destruct (decide (v = w)) as [->|]; [naive_solver|]. naive_solver.
Qed.
Lemma elem_of_makeDistinct l v : v ∈ makeDistinct l <-> v ∈ l.
Proof. unfold makeDistinct. rewrite elem_of_makeDistinctGo. set_solver. Qed.
Lemma NoDup_makeDistinctGo seen l : NoDup (makeDistinctGo seen l).
Proof.
  revert seen. induction l as [|w l IH]; intros seen; simpl; [constructor|].
  case_bool_decide; [done|]. constructor; [|done]. rewrite elem_of_makeDistinctGo. set_solver.
Qed.
Lemma NoDup_makeDistinct l : NoDup (makeDistinct l).
Proof. apply NoDup_makeDistinctGo. Qed.

Section facts.
Context `{IntelEnv}.

(** [l] is a list on which the entity occurs under [key]. *)
Definition occursOn (e : Entity) (key l : str) : Prop :=
  exists ls, ListOccurences e !! key = Some ls /\ l ∈ ls.

Lemma elem_of_listMatches lm e l key : (forall ks, mapOrder ks ≡ₚ ks) ->
  (l, key) ∈ listMatches lm e <-> l ∈ lm /\ occursOn e key l.
Proof.
  intros Hord. unfold listMatches, occursOn. rewrite list_elem_of_In, in_concat. split.
  - intros (x & Hx & Hin). apply list_elem_of_In in Hx, Hin.
    apply list_elem_of_fmap in Hx as (k & -> & Hk).
    apply list_elem_of_fmap in Hin as (l' & [= -> ->] & Hl).
    apply list_elem_of_filter in Hl as [Hlm Hl]. split; [done|].
    destruct (ListOccurences e !! k) as [ls|] eqn:E; [|by apply elem_of_nil in Hl]. by exists ls.
  - intros [Hlm (ls & E & Hl)].
    exists ((fun l => (l, key)) <$> filter (fun l => l ∈ lm) ls). split.
    + apply list_elem_of_In, list_elem_of_fmap. exists key. rewrite E. split; [done|].
      rewrite Hord. apply list_elem_of_fmap. exists (key, ls). split; [done|].
      by apply elem_of_map_to_list.
    + apply list_elem_of_In, list_elem_of_fmap. exists l. split; [done|].
      by apply list_elem_of_filter.
Qed.
End facts.

Lemma MatchLists_ok `{IntelEnv} lists e b e' :
  (forall ks, mapOrder ks ≡ₚ ks) -> MatchLists lists e = (b, e') -> lists <> [] ->
  (b = true <-> exists key l, l ∈ lists /\ occursOn e key l) /\
  NoDup (BlockedByLists e') /\ NoDup (BlockedEntities e') /\
  (forall l, l ∈ BlockedByLists e' <-> l ∈ lists /\ exists key, occursOn e key l) /\
  (forall key, key ∈ BlockedEntities e' <-> exists l, l ∈ lists /\ occursOn e key l) /\
  ListOccurences e' = ListOccurences e.
Proof.
  intros Hord Hm Hne. destruct lists as [|l0 lists]; [done|]. clear Hne.
  unfold MatchLists in Hm. injection Hm as <- <-. simpl BlockedByLists. simpl BlockedEntities.
  set (ms := listMatches _ e).
  assert (forall l key, (l, key) ∈ ms <-> l ∈ l0 :: lists /\ occursOn e key l) as Hms.
  { intros l key. unfold ms. rewrite elem_of_listMatches by done.
    unfold makeMap. by rewrite elem_of_list_to_set. }
  assert (forall l, l ∈ makeDistinct (fst <$> ms) <-> l ∈ l0 :: lists /\ exists key, occursOn e key l) as Hb.
  { intros l. rewrite elem_of_makeDistinct, list_elem_of_fmap. split.
    - intros ([l' key] & -> & Hin). apply Hms in Hin as [? ?]. eauto.
    - intros [Hl [key Ho]]. exists (l, key). split; [done|]. by apply Hms. }
  split; [split|].
  - intros Hn. apply negb_true_iff, bool_decide_eq_false in Hn.
    destruct (makeDistinct (fst <$> ms)) as [|l r] eqn:E; [done|].
    destruct (proj1 (Hb l)) as [Hl [key Ho]]; [left|]. eauto.
  - intros (key & l & Hl & Ho). apply negb_true_iff, bool_decide_eq_false. intros E.
    apply (not_elem_of_nil l). rewrite <- E. apply Hb. eauto.
  - split; [apply NoDup_makeDistinct|]. split; [apply NoDup_makeDistinct|]. split; [exact Hb|].
    split; [|done]. intros key. simpl. rewrite elem_of_makeDistinct, list_elem_of_fmap. split.
    + intros ([l' k] & -> & Hin). apply Hms in Hin as [? ?]. eauto.
    + intros (l & Hl & Ho). exists (l, key). split; [done|]. by apply Hms.
Qed.

(** [MatchLists]: it answers whether the entity occurs on one of the given
    lists, and records the lists and the entity keys that matched, each once and
    in the order of the iteration; no given lists leave the entity unchanged. *)
Theorem match_lists_spec `{IntelEnv} lists e b e' :
  (forall ks, mapOrder ks ≡ₚ ks) -> MatchLists lists e = (b, e') -> lists <> [] ->
  (b = true <-> exists key l, l ∈ lists /\ occursOn e key l) /\
  NoDup (BlockedByLists e') /\ NoDup (BlockedEntities e') /\
  (forall l, l ∈ BlockedByLists e' <-> l ∈ lists /\ exists key, occursOn e key l) /\
  (forall key, key ∈ BlockedEntities e' <-> exists l, l ∈ lists /\ occursOn e key l) /\
  ListOccurences e' = ListOccurences e.
Proof. apply MatchLists_ok. Qed.

(** ** Sequences of operations *)
Inductive entityOp :=
| OpResetLists | OpResolveSubDomains (b : bool) | OpCNAMECheck (b : bool) | OpReverse
| OpGetDomain (b : bool) | OpGetLocation | OpGetASN | OpGetCountry | OpLoadLists | OpFetchData
| OpMatchLists (lists : list str).

Section ops.
Context `{IntelEnv}.

Definition entityExec (o : entityOp) (e : Entity) : Entity :=
  match o with
  | OpResetLists => ResetLists e
  | OpResolveSubDomains b => ResolveSubDomainLists b e
  | OpCNAMECheck b => EnableCNAMECheck b e
  | OpReverse => EnableReverseResolving e
  | OpGetDomain b => (GetDomain b e).2
  | OpGetLocation => (GetLocation e).2
  | OpGetASN => (GetASN e).2
  | OpGetCountry => (GetCountry e).2
  | OpLoadLists => LoadLists e
  | OpFetchData => FetchData e
  | OpMatchLists lists => (MatchLists lists e).2
  end.

(** The fields that describe the remote side and its location. *)
Definition locFields (e : Entity) :=
  (EIP e, EIPScope e, fetchLocationOnce e, location e, LocationError e, ASN e, Country e).
(** The location was not fetched yet, or what was fetched is stored. *)
Record locInv (ip : option IP) (sc : IPScope) (e : Entity) : Prop := {
  li_ip : EIP e = ip;
  li_scope : EIPScope e = sc;
  li_none : fetchLocationOnce e = false -> LocationError e = [] /\ location e = None;
  li_loc : fetchLocationOnce e = true -> forall a, ip = Some a -> IsGlobal sc = true ->
    match geoipGetLocation a with
    | inl loc => location e = Some loc /\ LocationError e = [] /\ ASN e = AutonomousSystemNumber loc
                 /\ Country e = CountryCode (LocCountry loc)
    | inr err => LocationError e = err
    end;
}.

Lemma locInv_fields ip sc e e' : locFields e = locFields e' -> locInv ip sc e -> locInv ip sc e'.
Proof.
  unfold locFields. intros Hf [H1 H2 H3 H4]. injection Hf as E1 E2 E3 E4 E5 E6 E7.
  rewrite E1, E2, E3, E4, E5, E6, E7 in *. by split.
Qed.
Lemma locInv_getLocation ip sc e : locInv ip sc e ->
  locInv ip sc (getLocation e) /\ fetchLocationOnce (getLocation e) = true.
Proof.
  intros Hi. pose proof Hi as [H1 H2 H3 H4]. unfold getLocation.
  destruct (fetchLocationOnce e) eqn:Ef; [done|]. clear Hi. destruct e. simpl in *. subst.
  destruct (H3 eq_refl) as [-> ->]. destruct ip as [a|]; [|split; [by split|done]].
  destruct (IsGlobal sc) eqn:Eg; simpl.
  - destruct (geoipGetLocation a) as [loc|err] eqn:El; (split; [|done]);
      split; simpl; try done; intros _ a' [= <-] _; by rewrite El.
  - split; [|done]. split; simpl; try done. congruence.
Qed.
Lemma mergeList_loc key l e : locFields (mergeList key l e) = locFields e.
Proof. by destruct l. Qed.
Lemma loadDomains_loc ds e : locFields (loadDomains ds e) = locFields e.
Proof.
  revert e. induction ds as [|d ds IH]; intros e; simpl; [done|].
  destruct (LookupDomain d); [|done]. by rewrite IH, mergeList_loc.
Qed.
Lemma getDomainLists_loc e : locFields (getDomainLists e) = locFields e.
Proof.
  unfold getDomainLists. destruct (domainListLoaded e); [done|]. simpl.
  destruct (setOr (Domain e)); [|done]. destruct (loadDomainListOnce e); [done|].
  by rewrite loadDomains_loc.
Qed.
Lemma getIPLists_loc e : locFields (getIPLists e) = locFields e.
Proof.
  unfold getIPLists. destruct (ipListLoaded e); [done|]. destruct (GetIP e) as [a|]; [|done].
  destruct (negb _); [done|]. destruct (loadIPListOnce e); [done|].
  destruct (LookupIP a) as [l|]; [|done]. by destruct l.
Qed.
Lemma getASNLists_loc e : asnListLoaded e = true \/ locFields (getASNLists e) = locFields (getLocation e).
Proof.
  unfold getASNLists. destruct (asnListLoaded e); [by left|right]. unfold GetASN.
  set (e1 := getLocation e). destruct (bool_decide (LocationError e1 = [])); [|done].
  destruct (ASN e1 =? 0); [done|]. destruct (loadAsnListOnce e1); [done|].
  destruct (LookupASNString _) as [l|]; [|done]. by destruct l.
Qed.
Lemma getCountryLists_loc e :
  countryListLoaded e = true \/ locFields (getCountryLists e) = locFields (getLocation e).
Proof.
  unfold getCountryLists. destruct (countryListLoaded e); [by left|right]. unfold GetCountry.
  set (e1 := getLocation e). destruct (bool_decide (LocationError e1 = [])); [|done].
  destruct (bool_decide (Country e1 = [])); [done|]. destruct (loadCountryListOnce e1); [done|].
  destruct (LookupCountry _) as [l|]; [|done]. by destruct l.
Qed.
Lemma getASNLists_inv ip sc e : locInv ip sc e -> locInv ip sc (getASNLists e).
Proof.
  intros Hi. destruct (getASNLists_loc e) as [Ha|Hl].
  - unfold getASNLists. by rewrite Ha.
  - eapply locInv_fields; [symmetry; exact Hl|]. by apply locInv_getLocation.
Qed.
Lemma getCountryLists_inv ip sc e : locInv ip sc e -> locInv ip sc (getCountryLists e).
Proof.
  intros Hi. destruct (getCountryLists_loc e) as [Ha|Hl].
  - unfold getCountryLists. by rewrite Ha.
  - eapply locInv_fields; [symmetry; exact Hl|]. by apply locInv_getLocation.
Qed.
Lemma getLists_inv ip sc e : locInv ip sc e -> locInv ip sc (getLists e).
Proof.
  intros Hi. unfold getLists. apply getCountryLists_inv.
  eapply locInv_fields; [symmetry; apply getIPLists_loc|]. apply getASNLists_inv.
  eapply locInv_fields; [symmetry; apply getDomainLists_loc|]. done.
Qed.
Lemma reverseResolve_loc e : locFields (reverseResolve e) = locFields e.
Proof.
  unfold reverseResolve. destruct e. simpl. by repeat case_match.
Qed.
Lemma GetDomain_loc b e : locFields (GetDomain b e).2 = locFields e.
Proof. unfold GetDomain. destruct (b && _); [|done]. apply reverseResolve_loc. Qed.
Lemma MatchLists_loc lists e : locFields (MatchLists lists e).2 = locFields e.
Proof. by destruct lists. Qed.

Lemma locInv_exec ip sc o e : locInv ip sc e -> locInv ip sc (entityExec o e).
Proof.
  intros Hi. destruct o; simpl; try (by apply locInv_getLocation); try (by apply getLists_inv);
    try (by eapply locInv_fields; [|exact Hi]).
  - eapply locInv_fields; [symmetry; apply GetDomain_loc|done].
  - by apply getLists_inv, locInv_getLocation.
  - eapply locInv_fields; [symmetry; apply MatchLists_loc|done].
Qed.
Lemma locInv_foldl ip sc ops e :
  locInv ip sc e -> locInv ip sc (foldl (fun e o => entityExec o e) e ops).
Proof. revert e. induction ops as [|o ops IH]; simpl; intros e Hi; [done|]. by apply IH, locInv_exec. Qed.
Lemma locInv_new ip proto port domain cname dst :
  let e := EntityInit dst (newEntity ip proto port domain cname) in locInv ip (EIPScope e) e.
Proof. split; done. Qed.
End ops.

(** The location of an entity is looked up once and never a nil pointer: after
    any operations on a new entity with a global IP address, the country is the
    one of the database, or missing exactly when the lookup failed; [GetASN] and
    [GetCountry] agree with it. *)
Theorem location_lookup `{IntelEnv} ip proto port domain cname dst ops :
  let e0 := EntityInit dst (newEntity (Some ip) proto port domain cname) in
  let e := foldl (fun e o => entityExec o e) e0 ops in
  (forall a err, geoipGetLocation a = inr err -> err <> []) ->
  IsGlobal (EIPScope e0) = true ->
  match geoipGetLocation ip with
  | inl loc => (exists e', GetCountryInfo e = Ret (Some (LocCountry loc), e')) /\
      (GetASN e).1 = Some (AutonomousSystemNumber loc) /\
      (GetCountry e).1 = Some (CountryCode (LocCountry loc))
  | inr _ => (exists e', GetCountryInfo e = Ret (None, e')) /\
      (GetASN e).1 = None /\ (GetCountry e).1 = None
  end.
Proof.
  intros e0 e Herr Hg.
  pose proof (locInv_foldl _ _ ops _ (locInv_new (Some ip) proto port domain cname dst)) as Hi.
  fold e0 in Hi. fold e in Hi. apply locInv_getLocation in Hi as [[_ _ _ Hl] Hf].
  specialize (Hl Hf ip eq_refl Hg). unfold GetCountryInfo, GetASN, GetCountry. cbv zeta. cbn [fst].
  destruct (geoipGetLocation ip) as [loc|err] eqn:El.
  - destruct Hl as (H1 & H2 & H3 & H4). rewrite H1, H2, H3, H4. simpl. eauto.
  - rewrite Hl, bool_decide_false by eauto. simpl. eauto.
Qed.

(** ** Loading at most once *)
Section once.
Context `{IntelEnv}.

Lemma mergeList_eq key l e : exists m, mergeList key l e = e <| ListOccurences := m |>.
Proof. destruct l; [exists (ListOccurences e); by destruct e|]. by eexists. Qed.
Lemma loadDomains_eq ds e : exists m err b,
  loadDomains ds e = e <| ListOccurences := m |> <| ListsError := err |> <| domainListLoaded := b |>.
Proof.
  revert e. induction ds as [|d ds IH]; intros e; simpl loadDomains.
  - exists (ListOccurences e), (ListsError e), true. by destruct e.
  - destruct (LookupDomain d) as [l|err].
    + destruct (mergeList_eq d l e) as [m ->]. destruct (IH (e <| ListOccurences := m |>)) as (m' & err & b & ->).
      exists m', err, b. by destruct e.
    + exists (ListOccurences e), err, (domainListLoaded e). by destruct e.
Qed.

(** When the loaders have nothing left to do. *)
Definition domainDone (e : Entity) : Prop :=
  domainListLoaded e = true \/ Domain e = [] \/ loadDomainListOnce e = true.
Definition asnDone (e : Entity) : Prop :=
  asnListLoaded e = true \/
  fetchLocationOnce e = true /\ (LocationError e <> [] \/ ASN e = 0 \/ loadAsnListOnce e = true).
Definition countryDone (e : Entity) : Prop :=
  countryListLoaded e = true \/
  fetchLocationOnce e = true /\ (LocationError e <> [] \/ Country e = [] \/ loadCountryListOnce e = true).
Definition ipDone (e : Entity) : Prop :=
  ipListLoaded e = true \/ EIP e = None \/ IsGlobal (EIPScope e) = false \/ loadIPListOnce e = true.

Lemma getLocation_once e : fetchLocationOnce e = true -> getLocation e = e.
Proof. unfold getLocation. by intros ->. Qed.
Lemma domainDone_fix e : domainDone e -> getDomainLists e = e.
Proof.
  unfold domainDone, getDomainLists, GetDomain, setOr. simpl.
  intros [-> | [-> | Hl]]; [done|by destruct (domainListLoaded e)|].
  destruct (domainListLoaded e), (bool_decide (Domain e = [])); by rewrite ?Hl.
Qed.
Lemma asnDone_fix e : asnDone e -> getASNLists e = e.
Proof.
  unfold asnDone, getASNLists, GetASN. intros [-> | [Hf Hc]]; [done|].
  rewrite (getLocation_once e Hf). destruct (asnListLoaded e); [done|].
  destruct Hc as [Hc|[-> | Hc]]; [by rewrite bool_decide_false|by destruct (bool_decide (LocationError e = []))|].
  destruct (bool_decide (LocationError e = [])), (ASN e =? 0); by rewrite ?Hc.
Qed.
Lemma countryDone_fix e : countryDone e -> getCountryLists e = e.
Proof.
  unfold countryDone, getCountryLists, GetCountry. intros [-> | [Hf Hc]]; [done|].
  rewrite (getLocation_once e Hf). destruct (countryListLoaded e); [done|].
  destruct Hc as [Hc|[-> | Hc]]; [by rewrite bool_decide_false|by destruct (bool_decide (LocationError e = []))|].
  destruct (bool_decide (LocationError e = [])), (bool_decide (Country e = [])); by rewrite ?Hc.
Qed.
Lemma ipDone_fix e : ipDone e -> getIPLists e = e.
Proof.
  unfold ipDone, getIPLists, GetIP. intros [-> | [-> | [-> | ->]]]; try done;
    destruct (ipListLoaded e), (EIP e), (IsGlobal (EIPScope e)); done.
Qed.

(** The fields the loaders decide on; loading changes [ListOccurences] and
    [ListsError] besides. *)
Definition doneAll (e : Entity) : Prop := domainDone e /\ asnDone e /\ ipDone e /\ countryDone e.

Lemma getLocation_done e : (domainDone e -> domainDone (getLocation e)) /\
  (asnDone e -> asnDone (getLocation e)) /\ (ipDone e -> ipDone (getLocation e)) /\
  fetchLocationOnce (getLocation e) = true.
Proof.
  unfold getLocation. destruct (fetchLocationOnce e) eqn:Ef; [auto|]. destruct e. simpl in *. subst.
  repeat case_match; simpl; (split; [|split; [|split; [|done]]]); intros Hd;
    unfold domainDone, asnDone, ipDone in *; simpl in *; intuition congruence.
Qed.

Lemma getDomainLists_done e : domainDone (getDomainLists e).
Proof.
  unfold getDomainLists. destruct (domainListLoaded e) eqn:E1; [by left|]. simpl. unfold setOr.
  case_bool_decide as E2; [by right; left|]. destruct (loadDomainListOnce e) eqn:E3; [by right; right|].
  match goal with |- domainDone (loadDomains ?ds ?x) => destruct (loadDomains_eq ds x) as (m & err & b & ->) end.
  by right; right.
Qed.
Lemma getASNLists_done e :
  asnDone (getASNLists e) /\ (domainDone e -> domainDone (getASNLists e)) /\
  (asnListLoaded e = false -> fetchLocationOnce (getASNLists e) = true).
Proof.
  unfold getASNLists. destruct (asnListLoaded e) eqn:E1; [split; [by left|done]|].
  destruct (getLocation_done e) as (Hd & _ & _ & Hf). unfold GetASN. set (e1 := getLocation e) in *.
  destruct (bool_decide (LocationError e1 = [])) eqn:E2; bool_prop.
  2: { split; [right; auto|auto]. }
  destruct (ASN e1 =? 0) eqn:E3; bool_prop; [split; [right; auto|auto]|].
  destruct (loadAsnListOnce e1) eqn:E4; [split; [right; auto|auto]|].
  destruct (LookupASNString _) as [l|err].
  - match goal with |- context [mergeList ?k ?l ?x] => destruct (mergeList_eq k l x) as [m ->] end.
    destruct e1. split; [by left|done].
  - destruct e1. simpl in *. split; [right; auto|done].
Qed.
Lemma getIPLists_done e :
  ipDone (getIPLists e) /\ (domainDone e -> domainDone (getIPLists e)) /\ (asnDone e -> asnDone (getIPLists e)).
Proof.
  unfold getIPLists. destruct (ipListLoaded e) eqn:E1; [split; [by left|auto]|].
  unfold GetIP. destruct (EIP e) as [ip|] eqn:E2; [|split; [by right; left|auto]].
  destruct (IsGlobal (EIPScope e)) eqn:E3; simpl; [|split; [by right; right; left|auto]].
  destruct (loadIPListOnce e) eqn:E4; [split; [by right; right; right|auto]|].
  destruct (LookupIP ip) as [l|err].
  - match goal with |- context [mergeList ?k ?l ?x] => destruct (mergeList_eq k l x) as [m Hm] end.
    simpl in Hm. rewrite Hm. clear Hm. destruct e. split; [by left|done].
  - destruct e. simpl in *. split; [by right; right; right|done].
Qed.
Lemma getCountryLists_done e :
  countryDone (getCountryLists e) /\ (domainDone e -> domainDone (getCountryLists e)) /\
  (ipDone e -> ipDone (getCountryLists e)) /\ (asnDone e -> asnDone (getCountryLists e)).
Proof.
  unfold getCountryLists. destruct (countryListLoaded e) eqn:E1; [split; [by left|auto]|].
  destruct (getLocation_done e) as (Hd & Ha & Hi & Hf). unfold GetCountry. set (e1 := getLocation e) in *.
  destruct (bool_decide (LocationError e1 = [])) eqn:E2; bool_prop.
  2: { split; [right; auto|auto]. }
  case_bool_decide as E3; [split; [right; auto|auto]|].
  destruct (loadCountryListOnce e1) eqn:E4; [split; [right; auto|auto]|].
  destruct (LookupCountry _) as [l|err].
  - match goal with |- context [mergeList ?k ?l ?x] => destruct (mergeList_eq k l x) as [m ->] end.
    destruct e1. split; [by left|done].
  - destruct e1. simpl in *. split; [right; auto|done].
Qed.
Lemma getLists_done e : doneAll (getLists e).
Proof.
  unfold getLists, doneAll.
  pose proof (getDomainLists_done e) as D1. set (e1 := getDomainLists e) in *.
  destruct (getASNLists_done e1) as (A2 & D2 & _). set (e2 := getASNLists e1) in *.
  destruct (getIPLists_done e2) as (I3 & D3 & A3). set (e3 := getIPLists e2) in *.
  destruct (getCountryLists_done e3) as (C4 & D4 & I4 & A4). auto 10.
Qed.
End once.

(** Filter lists are loaded at most once: loading them again changes nothing
    until [ResetLists]. *)
Theorem load_lists_once `{IntelEnv} e : LoadLists (LoadLists e) = LoadLists e.
Proof.
  unfold LoadLists. destruct (getLists_done e) as (Hd & Ha & Hi & Hc).
  set (e' := getLists e) in *. unfold getLists.
  by rewrite domainDone_fix, asnDone_fix, ipDone_fix, countryDone_fix.
Qed.

(** ** Witnesses *)
Module Demo.
Definition loc : Location := mkLocation (mkCountry $"AT" $"Austria" (mkContinent $"EU" $"Europe")) (48, 16) 1853 $"ACOnet".
Definition env : IntelEnv := {|
  geoipGetLocation ip := if bool_decide (ip = [9; 9; 9; 9]) then inr $"not found" else inl loc;
  LookupDomain d := inl (if eqs d $"ads.example." then [$"TRAC"; $"ADS"] else []);
  LookupASNString _ := inl [];
  LookupCountry _ := inl [];
  LookupIP _ := inl [$"ADS"];
  reverseResolver := None;
  PublicSuffix d := (default [] (last (Split d ".")), true);
  mapOrder ks := ks;
|}.
Definition ent : Entity :=
  EntityInit 0 (newEntity (Some [1; 2; 3; 4]) 6 443 $"x.ads.example." []).
Definition ops : list entityOp :=
  [OpResolveSubDomains true; OpLoadLists; OpResetLists; OpResolveSubDomains true; OpLoadLists;
   OpGetDomain true].
Definition loaded : Entity := foldl (fun e o => entityExec (H := env) o e) ent ops.
End Demo.

Lemma match_lists_spec_witness :
  let r := MatchLists (H := Demo.env) [$"ADS"; $"MAL"] Demo.loaded in
  r.1 = true /\ BlockedEntities r.2 = [$"1.2.3.4"; $"ads.example."] /\
  (r.1 = true <-> exists key l, l ∈ [$"ADS"; $"MAL"] /\ occursOn Demo.loaded key l).
Proof.
  split; [vm_compute; reflexivity|]. split; [vm_compute; reflexivity|].
  refine (proj1 (match_lists_spec (H := Demo.env) [$"ADS"; $"MAL"] Demo.loaded _ _ _ _ _));
    [intros ks; exact (Permutation_refl ks)|apply surjective_pairing|discriminate].
Defined.

Lemma location_lookup_witness :
  (exists e', GetCountryInfo (H := Demo.env) Demo.loaded = Ret (Some (LocCountry Demo.loc), e')) /\
  (GetASN (H := Demo.env) Demo.loaded).1 = Some 1853 /\
  (GetCountry (H := Demo.env) Demo.loaded).1 = Some $"AT".
Proof.
  apply (location_lookup (H := Demo.env) [1; 2; 3; 4] 6 443 $"x.ads.example." [] 0 Demo.ops).
  - intros a err. simpl. destruct (bool_decide _); [intros [= <-]; discriminate|discriminate].
  - vm_compute. reflexivity.
Defined.
