(* ===== verification/Endpoints.v ===== *)
(** * Endpoint rules (service/profile/endpoints)

    A rule permits or denies connections by destination: any, IP, IP range,
    country, continent, AS number, network scope, filter list or domain, each
    with an optional protocol and port range.  This file has the rules, their
    matching and their text form; [EndpointParse] has the parser. *)

From S2P Require Import Prelude GoStrings GoText GoNet NetUtils Reference Entity.

(** ** Results and reasons *)
Inductive EPResult := NoMatch | MatchError | Denied | Permitted.
#[export] Instance EPResult_eq_dec : EqDecision EPResult.
Proof. solve_decision. Defined.
Definition IsDecision (r : EPResult) : bool :=
  match r with Denied | Permitted | MatchError => true | NoMatch => false end.
Definition EPResultString (r : EPResult) : str :=
  match r with
  | NoMatch => $"No Match" | MatchError => $"Match Error"
  | Denied => $"Denied" | Permitted => $"Permitted"
  end.

Record reason := mkReason {
  description : str; Filter : str; Value : str; rPermitted : bool;
  Extra : list (str * list ListMatch);
}.
(** [r.Filter[2:]] *)
Definition reasonString (r : reason) : str :=
  (if rPermitted r then $"allowed by rule: " else $"denied by rule: ")
  ++ description r ++ $" " ++ drop 2 (Filter r).

(** ** Rules *)
Record EndpointBase := mkBase { EProtocol : Z; StartPort : Z; EndPort : Z; EPermitted : bool }.
#[export] Instance eta_EndpointBase : Eta EndpointBase := fun b =>
  mkBase (EProtocol b) (StartPort b) (EndPort b) (EPermitted b).
#[export] Instance EndpointBase_eq_dec : EqDecision EndpointBase.
Proof. solve_decision. Defined.

Inductive matchType := TExact | TZone | TSuffix | TPrefix | TContains.
#[export] Instance matchType_eq_dec : EqDecision matchType.
Proof. solve_decision. Defined.

(** What a rule matches, by the Go type of the endpoint. *)
Inductive target :=
| EndpointAny
| EndpointIP (ip : IP)
| EndpointIPRange (net : IPNet)
| EndpointCountry (code : str)
| EndpointContinent (code : str)
| EndpointASN (asn : Z)
| EndpointScope (scopes : Z)
| EndpointLists (ListSet : list str) (Lists : str)
| EndpointDomain (OriginalValue dom DomainZone : str) (MatchType : matchType).
#[export] Instance target_eq_dec : EqDecision target.
Proof. solve_decision. Defined.

Record Endpoint := mkEp { base : EndpointBase; tgt : target }.
#[export] Instance Endpoint_eq_dec : EqDecision Endpoint.
Proof. solve_decision. Defined.

Definition scopeLocalhost : Z := 1.
Definition scopeLAN : Z := 2.
Definition scopeInternet : Z := 4.

(** ** Text form *)
Definition Scopes (scopes : Z) : str :=
  if scopes =? scopeLocalhost then $"Localhost"
  else if scopes =? scopeLAN then $"LAN"
  else if scopes =? scopeInternet then $"Internet"
  else
    Join ((if 0 <? Z.land scopes scopeLocalhost then [$"Localhost"] else [])
       ++ (if 0 <? Z.land scopes scopeLAN then [$"LAN"] else [])
       ++ (if 0 <? Z.land scopes scopeInternet then [$"Internet"] else [])) $",".

Definition renderPPP (ep : EndpointBase) (s : str) : str :=
  let rendered := (if EPermitted ep then $"+ " else $"- ") ++ s in
  if (0 <? EProtocol ep) || (0 <? StartPort ep) then
    let rendered := rendered ++
      (if 0 <? EProtocol ep then $" " ++ GetProtocolName (EProtocol ep) else $" *") in
    if 0 <? StartPort ep then
      rendered ++ (if StartPort ep =? EndPort ep then $"/" ++ GetPortName (StartPort ep)
                   else $"/" ++ Itoa (StartPort ep) ++ $"-" ++ Itoa (EndPort ep))
    else rendered
  else rendered.

Definition targetString (t : target) : str :=
  match t with
  | EndpointAny => $"*"
  | EndpointIP ip => IPString ip
  | EndpointIPRange net => NetString net
  | EndpointCountry code => code
  | EndpointContinent code => $"C:" ++ code
  | EndpointASN asn => $"AS" ++ Itoa (i64 asn)
  | EndpointScope scopes => Scopes scopes
  | EndpointLists _ lists => lists
  | EndpointDomain orig _ _ _ => orig
  end.
Definition EndpointString (ep : Endpoint) : str := renderPPP (base ep) (targetString (tgt ep)).

(** ** Matching *)
Definition matchesPPP (ep : EndpointBase) (entity : Entity) : EPResult :=
  if (0 <? EProtocol ep) && negb (Protocol entity =? EProtocol ep) then NoMatch
  else if (0 <? StartPort ep) &&
          ((DstPort entity <? StartPort ep) || (EndPort ep <? DstPort entity)) then NoMatch
  else if EPermitted ep then Permitted else Denied.

(** [keyval]: alternating keys and values.  The loop runs while [idx] is below
    half their number, in steps of two. *)
Fixpoint extraLoop (fuel idx : nat) (n : nat) (keyval : list (str * list ListMatch))
    : list (str * list ListMatch) :=
  match fuel with
  | O => []
  | S fuel =>
      if (idx <? n)%nat then
        option_list (keyval !! (idx / 2)%nat) ++ extraLoop fuel (idx + 2) n keyval
      else []
  end.
Definition makeReason (ep : Endpoint) (value desc : str) (keyval : list (str * list ListMatch)) : reason :=
  mkReason desc (EndpointString ep) value (EPermitted (base ep))
    (extraLoop (S (length keyval)) 0 (length keyval) keyval).

(** A result with its reason. *)
Abbreviation verdict := (EPResult * option reason)%type.

Definition match_ (ep : Endpoint) (entity : Entity) (value desc : str)
    (keyval : list (str * list ListMatch)) : verdict :=
  let result := matchesPPP (base ep) entity in
  if bool_decide (result = NoMatch) then (result, None)
  else (result, Some (makeReason ep value desc keyval)).

Definition scopeOf (s : IPScope) : option Z :=
  match s with
  | HostLocal => Some scopeLocalhost
  | LinkLocal | SiteLocal | LocalMulticast => Some scopeLAN
  | Global | GlobalMulticast => Some scopeInternet
  | Undefined | Invalid => None
  end.

Definition domainMatches (dom zone : str) (mt : matchType) (domain : str) : bool :=
  match mt with
  | TExact => eqs domain dom
  | TZone => eqs domain dom || HasSuffix domain zone
  | TSuffix => HasSuffix domain dom
  | TPrefix => HasPrefix domain dom
  | TContains => Contains domain dom
  end.
Definition domainCheck (ep : Endpoint) (orig dom zone : str) (mt : matchType)
    (entity : Entity) (domain : str) : verdict :=
  let v := match_ ep entity orig $"domain matches" [] in
  if domainMatches dom zone mt domain then v else (NoMatch, None).
(** The loop over the CNAMEs: only a denial counts. *)
Fixpoint cnameLoop (ep : Endpoint) (orig dom zone : str) (mt : matchType)
    (entity : Entity) (cnames : list str) : verdict :=
  match cnames with
  | [] => (NoMatch, None)
  | c :: cnames =>
      let v := domainCheck ep orig dom zone mt entity c in
      if bool_decide (v.1 = Denied) then v else cnameLoop ep orig dom zone mt entity cnames
  end.

Section match_.
Context `{IntelEnv}.

Definition EndpointAny_Matches (ep : Endpoint) (e : Entity) : outcome str (verdict * Entity) :=
  Ret (match_ ep e $"*" $"matches" [], e).

Definition EndpointIP_Matches (ep : Endpoint) (ip : IP) (e : Entity) : outcome str (verdict * Entity) :=
  match EIP e with
  | None => Ret ((NoMatch, None), e)
  | Some eip => if IPEqual ip eip then Ret (match_ ep e (IPString ip) $"IP matches" [], e)
                else Ret ((NoMatch, None), e)
  end.

Definition EndpointIPRange_Matches (ep : Endpoint) (net : IPNet) (e : Entity)
    : outcome str (verdict * Entity) :=
  match EIP e with
  | None => Ret ((NoMatch, None), e)
  | Some eip => if NetContains net eip then Ret (match_ ep e (NetString net) $"IP is in" [], e)
                else Ret ((NoMatch, None), e)
  end.

(** Country and continent rules differ in the code and name they take from the
    country data, which exist for an IP in global scope. *)
Definition countryMatch (ep : Endpoint) (e : Entity)
    (code : CountryInfo -> str) (name : CountryInfo -> str) (want : str) : outcome str (verdict * Entity) :=
  match EIP e with
  | None => Ret ((NoMatch, None), e)
  | Some _ =>
      if negb (IsGlobal (EIPScope e)) then Ret ((NoMatch, None), e) else
      '(info, e) ← GetCountryInfo e;
      match info with
      | None => Ret ((MatchError, Some (makeReason ep [] $"country data not available to match" [])), e)
      | Some c =>
          if eqs want (code c)
          then Ret (match_ ep e (name c ++ $" (" ++ code c ++ $")") $"IP is located in" [], e)
          else Ret ((NoMatch, None), e)
      end
  end.
Definition EndpointCountry_Matches (ep : Endpoint) (want : str) (e : Entity) :=
  countryMatch ep e CountryCode CountryName want.
Definition EndpointContinent_Matches (ep : Endpoint) (want : str) (e : Entity) :=
  countryMatch ep e (fun c => ContinentCode (Continent c)) (fun c => ContinentName (Continent c)) want.

Definition EndpointASN_Matches (ep : Endpoint) (asn : Z) (e : Entity) : outcome str (verdict * Entity) :=
  match EIP e with
  | None => Ret ((NoMatch, None), e)
  | Some _ =>
      if negb (IsGlobal (EIPScope e)) then Ret ((NoMatch, None), e) else
      let '(a, e) := GetASN e in
      match a with
      | None => Ret ((MatchError, Some (makeReason ep (Itoa (i64 asn)) $"ASN data not available to match" [])), e)
      | Some a => if a =? asn then Ret (match_ ep e (Itoa (i64 asn)) $"IP is part of AS" [], e)
                  else Ret ((NoMatch, None), e)
      end
  end.

Definition EndpointScope_Matches (ep : Endpoint) (scopes : Z) (e : Entity)
    : outcome str (verdict * Entity) :=
  match EIP e, scopeOf (EIPScope e) with
  | Some _, Some scope =>
      if 0 <? Z.land scopes scope then Ret (match_ ep e (Scopes scopes) $"scope matches" [], e)
      else Ret ((NoMatch, None), e)
  | _, _ => Ret ((NoMatch, None), e)
  end.

Definition EndpointLists_Matches (ep : Endpoint) (ListSet : list str) (lists : str) (e : Entity)
    : outcome str (verdict * Entity) :=
  let '(b, e) := MatchLists ListSet e in
  if b then Ret (match_ ep e lists $"filterlist contains" [($"filterlist", ListBlockReason e)], e)
  else Ret ((NoMatch, None), e).

Definition EndpointDomain_Matches (ep : Endpoint) (orig dom zone : str) (mt : matchType) (e : Entity)
    : outcome str (verdict * Entity) :=
  match GetDomain true e with
  | (None, e) => Ret ((NoMatch, None), e)
  | (Some domain, e) =>
      let v := domainCheck ep orig dom zone mt e domain in
      if negb (bool_decide (v.1 = NoMatch)) then Ret (v, e)
      else if CNAMECheckEnabled e then Ret (cnameLoop ep orig dom zone mt e (CNAME e), e)
      else Ret ((NoMatch, None), e)
  end.

(** The method of the rule's type. *)
Definition Matches (ep : Endpoint) (e : Entity) : outcome str (verdict * Entity) :=
  match tgt ep with
  | EndpointAny => EndpointAny_Matches ep e
  | EndpointIP ip => EndpointIP_Matches ep ip e
  | EndpointIPRange net => EndpointIPRange_Matches ep net e
  | EndpointCountry code => EndpointCountry_Matches ep code e
  | EndpointContinent code => EndpointContinent_Matches ep code e
  | EndpointASN asn => EndpointASN_Matches ep asn e
  | EndpointScope scopes => EndpointScope_Matches ep scopes e
  | EndpointLists ListSet lists => EndpointLists_Matches ep ListSet lists e
  | EndpointDomain orig dom zone mt => EndpointDomain_Matches ep orig dom zone mt e
  end.

(** [Endpoints.Match]: the first rule that decides; nil entries are skipped. *)
Fixpoint Match (eps : list (option Endpoint)) (e : Entity) : outcome str (verdict * Entity) :=
  match eps with
  | [] => Ret ((NoMatch, None), e)
  | None :: eps => Match eps e
  | Some ep :: eps =>
      '(v, e) ← Matches ep e;
      if bool_decide (v.1 = NoMatch) then Match eps e else Ret (v, e)
  end.

(** [Endpoints.MatchMulti]: for every rule, the entities in turn. *)
Fixpoint matchEntities (ep : Endpoint) (es : list (option Entity)) : outcome str (verdict * list (option Entity)) :=
  match es with
  | [] => Ret ((NoMatch, None), [])
  | None :: es => '(v, es) ← matchEntities ep es; Ret (v, None :: es)
  | Some e :: es =>
      '(v, e) ← Matches ep e;
      if bool_decide (v.1 = NoMatch) then '(v, es) ← matchEntities ep es; Ret (v, Some e :: es)
      else Ret (v, Some e :: es)
  end.
Fixpoint MatchMulti (eps : list (option Endpoint)) (es : list (option Entity))
    : outcome str (verdict * list (option Entity)) :=
  match eps with
  | [] => Ret ((NoMatch, None), es)
  | None :: eps => MatchMulti eps es
  | Some ep :: eps =>
      '(v, es) ← matchEntities ep es;
      if bool_decide (v.1 = NoMatch) then MatchMulti eps es else Ret (v, es)
  end.
End match_.

Definition EndpointsIsSet (eps : list (option Endpoint)) : bool := negb (bool_decide (eps = [])).
(** [Endpoints.String]: a nil entry panics. *)
Definition EndpointsString (eps : list (option Endpoint)) : outcome str str :=
  (fix go (eps : list (option Endpoint)) (acc : list str) :=
     match eps with
     | [] => Ret ($"[" ++ Join acc $", " ++ $"]")
     | None :: _ => Panic
     | Some ep :: eps => go eps (acc ++ [EndpointString ep])
     end) eps [].
