(* ===== verification/EndpointParse.v ===== *)
(** * Parsing endpoint rules (service/profile/endpoints)

    [parseEndpoint] and [ParseEndpoints].  A parser of one rule type returns an
    endpoint, no endpoint (the text is of another type) or an error; a panic is
    an index out of range. *)

From S2P Require Import Prelude GoStrings GoText GoNet NetUtils Reference Entity Endpoints.

Abbreviation parsed := (outcome str (option Endpoint)).

Section parse.
Context `{UnicodeTables, DNSLib}.

(** The quotation mark. *)
Definition quote : str := [ascii_of_nat 34].
Definition invalidDefinitionError (fields : list str) (msg : str) : str :=
  $"invalid endpoint definition: " ++ quote ++ Join fields $" " ++ quote ++ $" - " ++ msg.
Definition invalid {A} (fields : list str) (msg : str) : outcome str A :=
  Err (invalidDefinitionError fields msg).

(** A port number, or else a port name. *)
Definition parsePort (w : str) : option Z :=
  match ParseUint w 16 with Some n => Some n | None => GetPortNumber w end.
Definition parseProtocol (w : str) : option Z :=
  match ParseUint w 8 with Some n => Some n | None => GetProtocolNumber w end.

Definition parsePorts (fields : list str) (ep : EndpointBase) (w : str) : outcome str EndpointBase :=
  if eqs w [] || eqs w $"*" then invalid fields $"omit port if should match any" else
  let portSplitted := Split w "-" in
  if (2 <? length portSplitted)%nat then invalid fields $"ports must be in format from-to" else
  match parsePort (nth 0 portSplitted []) with
  | None => invalid fields $"port number parsing error"
  | Some n16 =>
      if n16 =? 0 then invalid fields $"port number cannot be 0" else
      let ep := ep <| StartPort := n16 |> in
      match (if (1 <? length portSplitted)%nat then parsePort (nth 1 portSplitted []) else Some n16) with
      | None => invalid fields $"port number parsing error"
      | Some n16 =>
          if n16 =? 0 then invalid fields $"port number cannot be 0" else Ret (ep <| EndPort := n16 |>)
      end
  end.
Definition parseProtoPorts (fields : list str) (ep : EndpointBase) (w : str) : outcome str EndpointBase :=
  let splitted := Split w "/" in
  if (2 <? length splitted)%nat then invalid fields $"protocol and port must be in format <protocol>/<port>" else
  let proto := nth 0 splitted [] in
  if eqs proto [] then invalid fields $"protocol can't be empty" else
  match (if eqs proto $"*" then Some 0 else parseProtocol proto) with
  | None => invalid fields $"protocol number parsing error"
  | Some n8 =>
      let ep := if eqs proto $"*" then ep else ep <| EProtocol := n8 |> in
      ep ← (if (1 <? length splitted)%nat then parsePorts fields ep (nth 1 splitted []) else Ret ep);
      if (EProtocol ep =? 0) && (StartPort ep =? 0)
      then invalid fields $"omit protocol/port if should match any" else Ret ep
  end.

(** [ep.parsePPP(ep, fields)] for a new endpoint with the target [t]. *)
Definition parsePPP (t : target) (fields : list str) : parsed :=
  ep ← (if (length fields =? 2)%nat then Ret (mkBase 0 0 0 false) : outcome str EndpointBase
        else if (length fields =? 3)%nat then
          parseProtoPorts fields (mkBase 0 0 0 false) (nth 2 fields [])
        else invalid fields $"there should be only 2 or 3 segments");
  f0 ← go_index fields 0;
  if eqs f0 $"+" then Ret (Some (mkEp (ep <| EPermitted := true |>) t))
  else if eqs f0 $"-" then Ret (Some (mkEp (ep <| EPermitted := false |>) t))
  else invalid fields $"invalid permission prefix".

Definition parseTypeAny (fields : list str) : parsed :=
  f1 ← go_index fields 1;
  if eqs f1 $"*" then parsePPP EndpointAny fields else Ret None.
Definition parseTypeIP (fields : list str) : parsed :=
  f1 ← go_index fields 1;
  match ParseIP f1 with Some ip => parsePPP (EndpointIP ip) fields | None => Ret None end.
Definition parseTypeIPRange (fields : list str) : parsed :=
  f1 ← go_index fields 1;
  match ParseCIDR f1 with Some n => parsePPP (EndpointIPRange n) fields | None => Ret None end.

(** [^[A-Z]{2}$], [^C:[A-Z]{2}$] and [^AS[0-9]+$] *)
Definition countryRegex (s : str) : bool := (length s =? 2)%nat && all isUpper s.
Definition continentRegex (s : str) : bool :=
  match TrimPrefixOpt $"C:" s with Some r => countryRegex r | None => false end.
Definition asnRegex (s : str) : bool :=
  match TrimPrefixOpt $"AS" s with
  | Some r => negb (bool_decide (r = [])) && all isDigit r
  | None => false
  end.

Definition parseTypeCountry (fields : list str) : parsed :=
  f1 ← go_index fields 1;
  if countryRegex f1 then parsePPP (EndpointCountry (ToUpper f1)) fields else Ret None.
Definition parseTypeContinent (fields : list str) : parsed :=
  f1 ← go_index fields 1;
  if continentRegex f1
  then parsePPP (EndpointContinent (TrimPrefix (ToUpper f1) $"C:")) fields else Ret None.
Definition parseTypeASN (fields : list str) : parsed :=
  f1 ← go_index fields 1;
  if asnRegex f1 then
    let asnString := TrimPrefix f1 $"AS" in
    match ParseUint asnString 64 with
    | None => Err ($"failed to parse AS number " ++ asnString)
    | Some asn => parsePPP (EndpointASN asn) fields
    end
  else Ret None.

Fixpoint scopeLoop (vals : list str) (scopes : Z) : option Z :=
  match vals with
  | [] => Some scopes
  | val :: vals =>
      if eqs val $"localhost" then scopeLoop vals (Z.lxor scopes scopeLocalhost)
      else if eqs val $"lan" then scopeLoop vals (Z.lxor scopes scopeLAN)
      else if eqs val $"internet" then scopeLoop vals (Z.lxor scopes scopeInternet)
      else None
  end.
Definition parseTypeScope (fields : list str) : parsed :=
  f1 ← go_index fields 1;
  match scopeLoop (Split (ToLower f1) ",") 0 with
  | Some scopes => parsePPP (EndpointScope scopes) fields
  | None => Ret None
  end.
Definition parseTypeList (fields : list str) : parsed :=
  f1 ← go_index fields 1;
  if HasPrefix f1 $"L:" then
    let lists := Split (TrimPrefix f1 $"L:") "," in
    parsePPP (EndpointLists lists ($"L:" ++ Join lists $",")) fields
  else Ret None.

(** [^[a-z0-9\.-]+$] and [^[0-9\.:]+$] *)
Definition allowedDomainChars (s : str) : bool :=
  negb (bool_decide (s = [])) && all (fun c => isLower c || isDigit c || oneOf $".-" c) s.
Definition looksLikeAnIP (s : str) : bool :=
  negb (bool_decide (s = [])) && all (fun c => isDigit c || oneOf $".:" c) s.

(** The match type, domain and zone of a domain in lower case with its ending
    fixed; an error; or no domain rule. *)
Definition domainForm (domain : str) : outcome str (option (matchType * str * str * bool)) :=
  if HasPrefix domain $"*" && HasSuffix domain $"*" then
    Ret (Some (TContains, TrimSuffix (TrimPrefix domain $"*") $"*", [], false))
  else if HasSuffix domain $"*" then
    let d := TrimSuffix domain $"*" in
    if HasPrefix d $"." then Ret None
    else if looksLikeAnIP d
    then Err $"use CIDR notation (eg. 10.0.0.0/24) for matching ip address ranges"
    else Ret (Some (TPrefix, d, [], false))
  else if HasPrefix domain $"*" then Ret (Some (TSuffix, TrimPrefix domain $"*", [], false))
  else if HasPrefix domain $"." then
    let d := TrimPrefix domain $"." in Ret (Some (TZone, d, $"." ++ d, true))
  else Ret (Some (TExact, domain, [], true)).

(** [switch domain[len(domain)-1]]: a dot is added unless it ends in one or in a
    wildcard. *)
Definition fixEnding (domain : str) : outcome str str :=
  match last domain with
  | None => Panic
  | Some c => Ret (if oneOf $".*" c then domain else domain ++ $".")
  end.
Definition parseTypeDomain (fields : list str) : parsed :=
  orig ← go_index fields 1;
  domain ← fixEnding orig;
  if looksLikeAnIP domain then Ret None else
  form ← domainForm (ToLower domain);
  match form with
  | None => Ret None
  | Some (mt, d, zone, needValidFQDN) =>
      if needValidFQDN && negb (IsValidFqdn d) then Ret None
      else if negb needValidFQDN && negb (allowedDomainChars d) then Ret None
      else if Contains d $".." then Ret None
      else parsePPP (EndpointDomain orig d zone mt) fields
  end.

(** The parsers in the order they are tried. *)
Definition typeParsers : list (list str -> parsed) :=
  [parseTypeAny; parseTypeIP; parseTypeIPRange; parseTypeCountry; parseTypeContinent;
   parseTypeASN; parseTypeScope; parseTypeList; parseTypeDomain].
Fixpoint tryParsers (ps : list (list str -> parsed)) (value : str) (fields : list str)
    : outcome str Endpoint :=
  match ps with
  | [] => Err ($"unknown endpoint definition: " ++ quote ++ value ++ quote)
  | p :: ps =>
      r ← p fields;
      match r with Some ep => Ret ep | None => tryParsers ps value fields end
  end.
(** The fields before the first one that starts with [#]. *)
Fixpoint removeComment (fields : list str) : list str :=
  match fields with
  | [] => []
  | f :: fields => if HasPrefix f $"#" then [] else f :: removeComment fields
  end.
Definition parseEndpoint (value : str) : outcome str Endpoint :=
  let fields := Fields value in
  if (length fields <? 2)%nat then Err ($"invalid endpoint definition: " ++ quote ++ value ++ quote) else
  tryParsers typeParsers value (removeComment fields).

(** [ParseEndpoints]: the endpoints that parse, and the number of errors with the
    first one. *)
Fixpoint parseEntries (entries : list str) : outcome str (list (option Endpoint) * list str) :=
  match entries with
  | [] => Ret ([], [])
  | entry :: entries =>
      match parseEndpoint entry with
      | Panic => Panic
      | Err e => '(eps, errs) ← parseEntries entries; Ret (eps, e :: errs)
      | Ret ep => '(eps, errs) ← parseEntries entries; Ret (Some ep :: eps, errs)
      end
  end.
Definition ParseEndpoints (entries : list str)
    : outcome str (list (option Endpoint) * option (nat * str)) :=
  '(eps, errs) ← parseEntries entries;
  Ret (eps, match errs with [] => None | first :: _ => Some (length errs, first) end).
End parse.
