(* ===== verification/EndpointFacts.v ===== *)
(** * Facts about parsing endpoint rules

    The type of a rule depends on its second field alone ([classify]); a rule
    rendered as text parses to the same rule ([endpoint_roundtrip]). *)

From S2P Require Import Prelude GoStrings GoText GoNet GoNetFacts NetUtils Reference Entity Endpoints.
From S2P Require Import EndpointParse.

Section classify.
Context `{UnicodeTables, DNSLib}.

(** ** Classification by the second field *)
Definition clsAny (f : str) : outcome str (option target) :=
  Ret (if eqs f $"*" then Some EndpointAny else None).
Definition clsIP (f : str) : outcome str (option target) := Ret (EndpointIP <$> ParseIP f).
Definition clsIPRange (f : str) : outcome str (option target) := Ret (EndpointIPRange <$> ParseCIDR f).
Definition clsCountry (f : str) : outcome str (option target) :=
  Ret (if countryRegex f then Some (EndpointCountry (ToUpper f)) else None).
Definition clsContinent (f : str) : outcome str (option target) :=
  Ret (if continentRegex f then Some (EndpointContinent (TrimPrefix (ToUpper f) $"C:")) else None).
Definition clsASN (f : str) : outcome str (option target) :=
  if asnRegex f then
    match ParseUint (TrimPrefix f $"AS") 64 with
    | None => Err ($"failed to parse AS number " ++ TrimPrefix f $"AS")
    | Some asn => Ret (Some (EndpointASN asn))
    end
  else Ret None.
Definition clsScope (f : str) : outcome str (option target) :=
  Ret (EndpointScope <$> scopeLoop (Split (ToLower f) ",") 0).
Definition clsList (f : str) : outcome str (option target) :=
  Ret (if HasPrefix f $"L:" then
         let lists := Split (TrimPrefix f $"L:") "," in
         Some (EndpointLists lists ($"L:" ++ Join lists $","))
       else None).
Definition clsDomain (f : str) : outcome str (option target) :=
  domain ← fixEnding f;
  if looksLikeAnIP domain then Ret None else
  form ← domainForm (ToLower domain);
  Ret (match form with
       | None => None
       | Some (mt, d, zone, needValidFQDN) =>
           if needValidFQDN && negb (IsValidFqdn d) then None
           else if negb needValidFQDN && negb (allowedDomainChars d) then None
           else if Contains d $".." then None
           else Some (EndpointDomain f d zone mt)
       end).

Definition classifiers : list (str -> outcome str (option target)) :=
  [clsAny; clsIP; clsIPRange; clsCountry; clsContinent; clsASN; clsScope; clsList; clsDomain].
Fixpoint tryClassifiers (cs : list (str -> outcome str (option target))) (f : str)
    : outcome str (option target) :=
  match cs with
  | [] => Ret None
  | c :: cs => r ← c f; match r with Some t => Ret (Some t) | None => tryClassifiers cs f end
  end.
Definition classify (f : str) : outcome str (option target) := tryClassifiers classifiers f.

(** A parser classifies the second field and parses the rest. *)
Definition parserOf (p : list str -> parsed) (c : str -> outcome str (option target)) : Prop :=
  forall fields, p fields =
    (f1 ← go_index fields 1; t ← c f1;
     match t with Some t => parsePPP t fields | None => Ret None end).

Lemma parsePPP_not_None t fields : parsePPP t fields <> Ret None.
Proof.
  unfold parsePPP, invalid.
  match goal with |- (?m ≫= _) <> _ => destruct m as [ep|e|]; cbn [mbind outcome_bind]; [|done..] end.
  destruct (go_index fields 0) as [f0|e|]; cbn [mbind outcome_bind]; [|done..].
  by repeat case_match.
Qed.

Lemma typeParsers_classify : Forall2 parserOf typeParsers classifiers.
Proof.
  unfold typeParsers, classifiers.
  repeat constructor; intros fields; cbv [parseTypeAny parseTypeIP parseTypeIPRange parseTypeCountry
    parseTypeContinent parseTypeASN parseTypeScope parseTypeList parseTypeDomain
    clsAny clsIP clsIPRange clsCountry clsContinent clsASN clsScope clsList clsDomain];
    destruct (go_index fields 1) as [f1| |]; try done;
    cbn [mbind outcome_bind]; repeat (case_match; simplify_eq/=; try done).
  destruct (fixEnding f1) as [domain| |]; cbn [mbind outcome_bind]; [|done..].
  destruct (looksLikeAnIP domain); [done|].
  destruct (domainForm (ToLower domain)) as [form| |]; cbn [mbind outcome_bind]; [|done..].
  by repeat case_match.
Qed.

Lemma tryParsers_classify ps cs value fields f1 :
  Forall2 parserOf ps cs -> fields !! 1%nat = Some f1 ->
  tryParsers ps value fields =
  (t ← tryClassifiers cs f1;
   match t with
   | Some t => r ← parsePPP t fields;
       match r with Some ep => Ret ep | None => Err [] end
   | None => Err ($"unknown endpoint definition: " ++ quote ++ value ++ quote)
   end).
Proof.
  intros Hps Hf. induction Hps as [|p c ps cs Hp _ IH]; [done|]. cbn [tryParsers tryClassifiers].
  rewrite Hp. unfold go_index. rewrite Hf. cbn [mbind outcome_bind].
  destruct (c f1) as [[t|]| |]; cbn [mbind outcome_bind]; [|done..].
  pose proof (parsePPP_not_None t fields). by destruct (parsePPP t fields) as [[|]| |].
Qed.
Lemma parseEndpoint_classify value f1 fields :
  removeComment (Fields value) = fields -> (2 <= length (Fields value))%nat -> fields !! 1%nat = Some f1 ->
  parseEndpoint value =
  (t ← classify f1;
   match t with
   | Some t => r ← parsePPP t fields;
       match r with Some ep => Ret ep | None => Err [] end
   | None => Err ($"unknown endpoint definition: " ++ quote ++ value ++ quote)
   end).
Proof.
  intros Hr Hl Hf. unfold parseEndpoint.
  assert ((length (Fields value) <? 2)%nat = false) as -> by (apply Nat.ltb_ge; lia).
  rewrite Hr. by apply tryParsers_classify; [apply typeParsers_classify|].
Qed.

(** What a successful parse went through. *)
Lemma parseEndpoint_Ret value ep : parseEndpoint value = Ret ep ->
  exists f1 t, removeComment (Fields value) !! 1%nat = Some f1 /\ classify f1 = Ret (Some t) /\
    parsePPP t (removeComment (Fields value)) = Ret (Some ep).
Proof.
  intros Hp. destruct (removeComment (Fields value) !! 1%nat) as [f1|] eqn:Hf.
  - assert (2 <= length (Fields value))%nat as Hl.
    { unfold parseEndpoint in Hp. destruct (_ <? _)%nat eqn:E; [done|]. by apply Nat.ltb_ge in E. }
    rewrite (parseEndpoint_classify _ f1 _ eq_refl Hl Hf) in Hp.
    destruct (classify f1) as [[t|]| |] eqn:Ec; cbn [mbind outcome_bind] in Hp; try done.
    exists f1, t. split; [done|]. split; [done|].
    destruct (parsePPP t _) as [[ep'|]| |]; cbn [mbind outcome_bind] in Hp; try done. by injection Hp as ->.
  - unfold parseEndpoint in Hp. destruct (_ <? _)%nat; [done|].
    unfold typeParsers in Hp. cbn [tryParsers] in Hp. unfold parseTypeAny, go_index in Hp.
    by rewrite Hf in Hp.
Qed.

(** ** Protocol and ports *)
Definition baseOk (b : EndpointBase) : Prop :=
  0 <= EProtocol b < 256 /\
  (StartPort b = 0 /\ EndPort b = 0 \/ 1 <= StartPort b < 65536 /\ 1 <= EndPort b < 65536).

Lemma lookupKey_bounds (w : str) lim l n : Forall (fun p => 0 < p.2 < lim) l ->
  lookupKey w l = Some n -> 0 < n < lim.
Proof. intros Hl Hk%lookupKey_in. rewrite Forall_forall in Hl. by apply (Hl (w, n)). Qed.
Lemma parsePort_bounds w n : parsePort w = Some n -> 0 <= n < 65536.
Proof.
  unfold parsePort. destruct (ParseUint w 16) eqn:E; [intros [= <-]; by apply ParseUint_bounds in E|].
  intros Hn. assert (0 < n < 65536); [|lia]. apply (lookupKey_bounds _ 65536 portNumbers n) in Hn; [done|].
  unfold portNumbers. repeat (apply Forall_cons; split; [simpl; lia|]). by apply Forall_nil.
Qed.
Lemma parseProtocol_bounds w n : parseProtocol w = Some n -> 0 <= n < 256.
Proof.
  unfold parseProtocol. destruct (ParseUint w 8) eqn:E; [intros [= <-]; by apply ParseUint_bounds in E|].
  intros Hn. assert (0 < n < 256); [|lia]. apply (lookupKey_bounds _ 256 protocolNumbers n) in Hn; [done|].
  unfold protocolNumbers. repeat (apply Forall_cons; split; [simpl; lia|]). by apply Forall_nil.
Qed.

Lemma parsePorts_ok fields b w b' : parsePorts fields b w = Ret b' ->
  StartPort b' <> 0 /\ 1 <= StartPort b' < 65536 /\ 1 <= EndPort b' < 65536 /\
  EProtocol b' = EProtocol b /\ EPermitted b' = EPermitted b.
Proof.
  unfold parsePorts, invalid. intros Hp.
  destruct (_ || _); [done|]. destruct (2 <? _)%nat; [done|].
  destruct (parsePort (nth 0 _ _)) as [n|] eqn:E1; [|done]. apply parsePort_bounds in E1.
  destruct (n =? 0) eqn:En; [done|].
  assert (exists m, 0 <= m < 65536 /\ (m =? 0) = false /\ b' = b <| StartPort := n |> <| EndPort := m |>)
    as (m & Hm & Hm0 & ->).
  { destruct (1 <? _)%nat.
    - destruct (parsePort (nth 1 _ _)) as [m|] eqn:E2; [|done]. apply parsePort_bounds in E2.
      destruct (m =? 0) eqn:Em; [done|]. exists m. split; [done|]. split; [done|]. by injection Hp.
    - rewrite En in Hp. exists n. split; [done|]. split; [done|]. by injection Hp. }
  simpl. bool_prop. repeat split; lia.
Qed.
Lemma parseProtoPorts_ok fields b w b' : baseOk b -> StartPort b = 0 -> EProtocol b = 0 ->
  parseProtoPorts fields b w = Ret b' -> baseOk b' /\ (0 < EProtocol b' \/ 0 < StartPort b').
Proof.
  intros Hb Hs0 Hp0 Hp. unfold parseProtoPorts, invalid in Hp.
  destruct (2 <? _)%nat; [done|]. destruct (eqs (nth 0 _ _) []); [done|].
  destruct (if eqs _ $"*" then Some 0 else _) as [n8|] eqn:En; [|done].
  assert (0 <= n8 < 256) as Hn8.
  { destruct (eqs _ $"*"); [injection En as <-; lia|]. by apply parseProtocol_bounds in En. }
  set (b1 := if eqs _ $"*" then b else _) in Hp.
  assert (baseOk b1 /\ StartPort b1 = 0) as [Hb1 Hs1].
  { unfold b1. destruct (eqs _ $"*"); [done|]. split; [|done]. destruct Hb. by split. }
  clearbody b1. destruct (1 <? _)%nat.
  - destruct (parsePorts fields b1 _) as [b2| |] eqn:E2; cbn [mbind outcome_bind] in Hp; [|done..].
    apply parsePorts_ok in E2 as (_ & H1 & H2 & H3 & _). destruct Hb1 as [Hb1 _].
    destruct (_ && _); [done|]. injection Hp as <-. split; [|right; lia]. split; [lia|by right].
  - cbn [mbind outcome_bind] in Hp. rewrite Hs1, andb_true_r in Hp.
    destruct (EProtocol b1 =? 0) eqn:Ep; [done|]. injection Hp as <-. split; [done|].
    left. destruct Hb1 as [? _]. bool_prop. lia.
Qed.
Lemma parsePPP_ok t fields ep : parsePPP t fields = Ret (Some ep) -> tgt ep = t /\ baseOk (base ep).
Proof.
  unfold parsePPP. assert (baseOk (mkBase 0 0 0 false)) as H0' by (split; simpl; lia).
  match goal with |- (?m ≫= _) = _ -> _ => destruct m as [b|e|] eqn:E; cbn [mbind outcome_bind]; [|done..] end.
  assert (baseOk b) as Hb.
  { destruct (_ =? 2)%nat; [by injection E as <-|]. destruct (_ =? 3)%nat; [|done].
    by apply parseProtoPorts_ok in E as [? _]. }
  destruct (go_index fields 0) as [f0|e|]; cbn [mbind outcome_bind]; [|done..].
  destruct (eqs f0 $"+"); [intros [= <-]; by destruct Hb|].
  destruct (eqs f0 $"-"); [intros [= <-]; by destruct Hb|done].
Qed.

(** *** Rendering *)
Definition portsText (b : EndpointBase) : str :=
  if StartPort b =? EndPort b then GetPortName (StartPort b)
  else Itoa (StartPort b) ++ $"-" ++ Itoa (EndPort b).
Definition pppField (b : EndpointBase) : str :=
  (if 0 <? EProtocol b then GetProtocolName (EProtocol b) else $"*") ++
  (if 0 <? StartPort b then $"/" ++ portsText b else []).
Definition pppFields (b : EndpointBase) : list str :=
  if (0 <? EProtocol b) || (0 <? StartPort b) then [pppField b] else [].
Definition sign (b : EndpointBase) : str := if EPermitted b then $"+" else $"-".

Lemma EndpointString_fields ep :
  EndpointString ep = Join (sign (base ep) :: targetString (tgt ep) :: pppFields (base ep)) $" ".
Proof.
  unfold EndpointString, renderPPP, pppFields, pppField, portsText, sign.
  generalize (targetString (tgt ep)) as s. intros s.
  destruct (base ep) as [p st en perm]. simpl.
  destruct perm, (0 <? p), (0 <? st), (st =? en); simpl; repeat (f_equal; []); rewrite ?app_nil_r, <- ?app_assoc; done.
Qed.

(** The port 20, whose name has the dash that separates port ranges. *)
Definition ftpDataPort (b : EndpointBase) : Prop := StartPort b = 20 /\ EndPort b = 20.

Lemma parsePort_name p : 1 <= p < 65536 -> p <> 20 ->
  parsePort (GetPortName p) = Some p /\ "-"%char ∉ GetPortName p /\ "/"%char ∉ GetPortName p /\
  all nameChar (GetPortName p) = true /\ GetPortName p <> [].
Proof.
  intros Hp H20. unfold GetPortName, parsePort. destruct (lookupKey p portNames) as [w|] eqn:E; simpl.
  - destruct (portNames_ok p w E) as (H1 & _ & H3 & H4 & H5 & H6). rewrite H4, H1.
    repeat split; try done; [by intros Hd%H5|by intros ->].
  - destruct (Itoa_spec p) as (_ & Hd & Hn); [lia|]. rewrite ParseUint_Itoa by lia.
    repeat split; try done; [by eapply all_not_in|by eapply all_not_in|].
    eapply all_impl; [exact Hd|]. intros c Hc. unfold nameChar. by rewrite Hc, orb_true_r.
Qed.
Lemma parseProtocol_name p : 1 <= p < 256 ->
  parseProtocol (GetProtocolName p) = Some p /\ "/"%char ∉ GetProtocolName p /\
  all nameChar (GetProtocolName p) = true /\ GetProtocolName p <> [].
Proof.
  intros Hp. unfold GetProtocolName, parseProtocol. destruct (lookupKey p protocolNames) as [w|] eqn:E; simpl.
  - destruct (protocolNames_ok p w E) as (H1 & _ & H3 & H4 & H5). rewrite H4, H1.
    repeat split; try done. by intros ->.
  - destruct (Itoa_spec p) as (_ & Hd & Hn); [lia|]. rewrite ParseUint_Itoa by lia.
    repeat split; try done; [by eapply all_not_in|].
    eapply all_impl; [exact Hd|]. intros c Hc. unfold nameChar. by rewrite Hc, orb_true_r.
Qed.
Lemma nameChar_facts w : all nameChar w = true -> w <> $"*" /\ (w <> [] -> eqs w [] = false) /\ eqs w $"*" = false.
Proof.
  intros H1. assert (w <> $"*") as Hw by (by intros ->). split; [done|].
  split; [intros Hn|]; unfold eqs; by rewrite bool_decide_false.
Qed.

Lemma parsePorts_text fields b : 1 <= StartPort b < 65536 -> 1 <= EndPort b < 65536 ->
  ~ ftpDataPort b -> forall b0,
  parsePorts fields b0 (portsText b) = Ret (b0 <| StartPort := StartPort b |> <| EndPort := EndPort b |>).
Proof.
  intros Hs He Hftp b0. unfold parsePorts, portsText. destruct (StartPort b =? EndPort b) eqn:E.
  - apply Z.eqb_eq in E. rewrite <- E.
    destruct (parsePort_name (StartPort b)) as (H1 & H2 & H3 & H4 & H5);
      [done|unfold ftpDataPort in Hftp; lia|].
    destruct (nameChar_facts _ H4) as (_ & Hn & Hst). rewrite Hn, Hst by done. cbn [orb].
    rewrite Split_single by done. cbn [length nth Nat.ltb Nat.leb]. rewrite H1.
    assert (StartPort b =? 0 = false) as Hz by lia. by rewrite Hz.
  - destruct (Itoa_spec (StartPort b)) as (_ & Hd1 & Hn1); [lia|].
    destruct (Itoa_spec (EndPort b)) as (_ & Hd2 & Hn2); [lia|].
    assert (parsePort (Itoa (StartPort b)) = Some (StartPort b)) as P1
      by (unfold parsePort; by rewrite ParseUint_Itoa by lia).
    assert (parsePort (Itoa (EndPort b)) = Some (EndPort b)) as P2
      by (unfold parsePort; by rewrite ParseUint_Itoa by lia).
    set (s := Itoa (StartPort b)) in *. set (e := Itoa (EndPort b)) in *. clearbody s e.
    assert (eqs (s ++ $"-" ++ e) [] || eqs (s ++ $"-" ++ e) $"*" = false) as ->.
    { unfold eqs. rewrite !bool_decide_false; [done| |]; destruct s as [|c s]; try done.
      intros [= -> Hs']. by destruct s. }
    change (s ++ $"-" ++ e) with (s ++ "-"%char :: e).
    rewrite Split_cons, Split_single by (by eapply all_not_in).
    cbn [length nth Nat.ltb Nat.leb]. rewrite P1, P2.
    assert (StartPort b =? 0 = false) as -> by lia. assert (EndPort b =? 0 = false) as -> by lia. done.
Qed.

Lemma portsText_chars b : 1 <= StartPort b < 65536 -> 1 <= EndPort b < 65536 ->
  ~ ftpDataPort b -> all nameChar (portsText b) = true /\ "/"%char ∉ portsText b.
Proof.
  intros Hs He Hftp. unfold portsText. destruct (StartPort b =? EndPort b) eqn:E.
  - destruct (parsePort_name (StartPort b)) as (H1 & H2 & H3 & H4 & H5);
      [done|unfold ftpDataPort in Hftp; lia|]. done.
  - destruct (Itoa_spec (StartPort b)) as (_ & Hd1 & Hn1); [lia|].
    destruct (Itoa_spec (EndPort b)) as (_ & Hd2 & Hn2); [lia|].
    assert (forall w, all isDigit w = true -> all nameChar w = true) as Hdn.
    { intros w Hw. eapply all_impl; [exact Hw|]. intros c Hc. unfold nameChar. by rewrite Hc, orb_true_r. }
    unfold all in *. rewrite !forallb_app, (Hdn _ Hd1), (Hdn _ Hd2). split; [done|].
    rewrite !elem_of_app. intros [Hi|[Hi|Hi]].
    + exact (all_not_in isDigit _ "/"%char Hd1 eq_refl Hi).
    + by apply list_elem_of_singleton in Hi.
    + exact (all_not_in isDigit _ "/"%char Hd2 eq_refl Hi).
Qed.

Lemma parseProtoPorts_text fields b perm : baseOk b -> ~ ftpDataPort b ->
  (0 < EProtocol b \/ 0 < StartPort b) ->
  parseProtoPorts fields (mkBase 0 0 0 perm) (pppField b) = Ret (b <| EPermitted := perm |>).
Proof.
  intros [Hp Hports] Hftp Hset. unfold parseProtoPorts, pppField.
  set (proto := if 0 <? EProtocol b then GetProtocolName (EProtocol b) else $"*").
  assert ("/"%char ∉ proto /\ eqs proto [] = false /\
    (if eqs proto $"*" then Some 0 else parseProtocol proto) = Some (EProtocol b) /\
    (eqs proto $"*" = true -> EProtocol b = 0)) as (Hsl & Hne & Hpp & Hst).
  { unfold proto. destruct (0 <? EProtocol b) eqn:E.
    - destruct (parseProtocol_name (EProtocol b)) as (H1 & H2 & H3 & H4); [lia|].
      destruct (nameChar_facts _ H3) as (_ & Hn & Hs). rewrite Hs, H1, Hn by done. done.
    - assert (EProtocol b = 0) as -> by lia. split; [|done]. intros Hi. by apply list_elem_of_singleton in Hi. }
  clearbody proto. destruct (0 <? StartPort b) eqn:Es.
  - destruct Hports as [?|[Hs He]]; [lia|]. destruct (portsText_chars b Hs He Hftp) as [_ Hps].
    change (proto ++ $"/" ++ portsText b) with (proto ++ "/"%char :: portsText b).
    rewrite Split_cons, Split_single by done. cbn [length nth Nat.ltb Nat.leb]. rewrite Hne, Hpp.
    rewrite parsePorts_text by done. clear Hpp. cbn [mbind outcome_bind].
    destruct b as [p st en pm]. cbn [EProtocol StartPort EndPort EPermitted] in *.
    assert (st =? 0 = false) as Hst0 by lia.
    destruct (eqs proto $"*"); simpl; rewrite Hst0, ?andb_false_r; [|done]. by rewrite (Hst eq_refl).
  - rewrite app_nil_r, Split_single by done. cbn [length nth Nat.ltb Nat.leb]. rewrite Hne, Hpp.
    assert (0 < EProtocol b) as Hp0 by lia. destruct Hports as [[Hs0 He0]|?]; [|lia]. clear Hpp.
    destruct b as [p st en pm]. cbn [EProtocol StartPort EndPort EPermitted] in *. subst st en.
    assert (p =? 0 = false) as Hp1 by lia.
    destruct (eqs proto $"*"); cbn [mbind outcome_bind]; simpl; [specialize (Hst eq_refl); lia|].
    by rewrite Hp1.
Qed.

Lemma parsePPP_text t f1 b : baseOk b -> ~ ftpDataPort b ->
  parsePPP t (sign b :: f1 :: pppFields b) = Ret (Some (mkEp b t)).
Proof.
  intros Hb Hftp. unfold parsePPP, pppFields, go_index, sign.
  destruct ((0 <? EProtocol b) || (0 <? StartPort b)) eqn:E.
  - cbn [length Nat.eqb nth lookup list_lookup]. rewrite parseProtoPorts_text; [|done|done|lia].
    cbn [mbind outcome_bind]. destruct b as [p st en []]; done.
  - cbn [length Nat.eqb nth lookup list_lookup mbind outcome_bind].
    destruct Hb as [Hp Hports]. apply orb_false_iff in E as [E1 E2].
    apply Z.ltb_ge in E1, E2. destruct Hports as [[Hs He]|?]; [|lia].
    destruct b as [p st en pm]. cbn [EProtocol StartPort EndPort EPermitted] in *. subst st en.
    assert (p = 0) as -> by lia. by destruct pm.
Qed.

Lemma nameChar_wordOk w : all (fun c => nameChar c || oneOf $"*/" c) w = true -> w <> [] -> wordOk w.
Proof.
  intros Hw Hn. split; [done|]. apply spaceFreeIn_ascii. unfold all in Hw.
  rewrite forallb_forall in Hw. apply Forall_forall. intros c Hc%list_elem_of_In%Hw. revert Hc.
  unfold sepOk. destruct c as [[] [] [] [] [] [] [] []]; vm_compute; done.
Qed.
Lemma pppField_ok b : baseOk b -> ~ ftpDataPort b -> (0 < EProtocol b \/ 0 < StartPort b) ->
  wordOk (pppField b) /\ HasPrefix (pppField b) $"#" = false.
Proof.
  intros [Hp Hports] Hftp Hset.
  assert (all (fun c => nameChar c || oneOf $"*/" c) (pppField b) = true /\ pppField b <> []) as [H1 H2].
  { assert (forall w, all nameChar w = true -> all (fun c => nameChar c || oneOf $"*/" c) w = true) as Himp.
    { intros w Hw. eapply all_impl; [exact Hw|]. by intros c ->. }
    unfold pppField. split.
    - unfold all. rewrite forallb_app. apply andb_true_iff. split.
      + destruct (0 <? EProtocol b) eqn:E; [|done]. apply Himp.
        by destruct (parseProtocol_name (EProtocol b)) as (_ & _ & ? & _); [lia|].
      + destruct (0 <? StartPort b) eqn:E; [|done]. destruct Hports as [?|[Hs He]]; [lia|].
        rewrite forallb_app. apply andb_true_iff. split; [done|]. apply Himp. by apply portsText_chars.
    - destruct (0 <? EProtocol b) eqn:E; [|done].
      destruct (parseProtocol_name (EProtocol b)) as (_ & _ & _ & Hn); [lia|].
      by destruct (GetProtocolName _). }
  split; [by apply nameChar_wordOk|]. destruct (pppField b) as [|c w]; [done|].
  unfold all in H1. simpl in H1. apply andb_true_iff in H1 as [Hc _].
  assert (c <> "#"%char) as Hx by (intros ->; by vm_compute in Hc).
  unfold HasPrefix. simpl. by rewrite bool_decide_false by congruence.
Qed.

(** ** The target's text *)

(** The targets whose text does not parse back: an AS number above the signed
    range, and a scope rule in which every scope cancelled out. *)
Definition textOk (t : target) : Prop :=
  match t with
  | EndpointASN a => a < 2 ^ 63
  | EndpointScope s => s <> 0
  | _ => True
  end.
(** The same rule, up to the normal form of networks. *)
Definition sameTarget (t t' : target) : Prop :=
  match t with
  | EndpointIPRange n => exists n', t' = EndpointIPRange n' /\
      (forall ip, NetContains n' ip = NetContains n ip) /\ NetString n' = NetString n
  | _ => t' = t
  end.

Lemma classify_None (c : str -> outcome str (option target)) cs f :
  c f = Ret None -> tryClassifiers (c :: cs) f = tryClassifiers cs f.
Proof. intros Hc. cbn [tryClassifiers]. by rewrite Hc. Qed.
Lemma classify_Some (c : str -> outcome str (option target)) cs f t :
  c f = Ret (Some t) -> tryClassifiers (c :: cs) f = Ret (Some t).
Proof. intros Hc. cbn [tryClassifiers]. by rewrite Hc. Qed.
Lemma classify_inv (c : str -> outcome str (option target)) cs f t :
  tryClassifiers (c :: cs) f = Ret (Some t) ->
  c f = Ret (Some t) \/ c f = Ret None /\ tryClassifiers cs f = Ret (Some t).
Proof. cbn [tryClassifiers]. destruct (c f) as [[t'|]| |]; cbn [mbind outcome_bind]; auto. Qed.

Lemma scopeLoop_range vals s s' : 0 <= s < 8 -> scopeLoop vals s = Some s' -> 0 <= s' < 8.
Proof.
  assert (forall a b, 0 <= a < 8 -> 0 <= b < 8 -> 0 <= Z.lxor a b < 8) as Hx.
  { intros a b Ha Hb.
    assert (forallb (fun a => forallb (fun b => (0 <=? Z.lxor a b) && (Z.lxor a b <? 8)) (seqZ 0 8)) (seqZ 0 8) = true)
      as Hall by (vm_compute; reflexivity).
    pose proof (Forall_seqZ_check _ _ Hall a Ha) as Hb'. cbv beta in Hb'.
    pose proof (Forall_seqZ_check _ _ Hb' b Hb) as Hr. cbv beta in Hr. lia. }
  revert s. induction vals as [|v vals IH]; simpl; intros s Hs Hl; [by injection Hl as <-|].
  destruct (eqs v _); [by apply IH in Hl; [|apply Hx; unfold scopeLocalhost; lia]|].
  destruct (eqs v _); [by apply IH in Hl; [|apply Hx; unfold scopeLAN; lia]|].
  destruct (eqs v _); [by apply IH in Hl; [|apply Hx; unfold scopeInternet; lia]|done].
Qed.
Lemma scope_text_checked s : 1 <= s < 8 ->
  classify (Scopes s) = Ret (Some (EndpointScope s)) /\ all (fun c => nameChar c || isLower c || oneOf $"," c) (Scopes s) = true /\
  Scopes s <> [].
Proof.
  intros Hs. assert (In s (seqZ 1 7)) as Hin by (apply list_elem_of_In, elem_of_seqZ; lia).
  repeat (destruct Hin as [<-|Hin]; [split; [vm_compute; reflexivity|split; [vm_compute; reflexivity|vm_compute; discriminate]]|]).
  done.
Qed.

Lemma upperByte_upper w : all isUpper w = true -> upperByte <$> w = w.
Proof.
  induction w as [|c w IH]; [done|]. unfold all. cbn [forallb]. intros [Hc Hw]%andb_true_iff.
  change (upperByte <$> c :: w) with (upperByte c :: (upperByte <$> w)). rewrite IH by done. f_equal.
  unfold upperByte. by assert (isLower c = false) as -> by (unfold isUpper, isLower, inRange in *; lia).
Qed.
Lemma isUpper_ASCII w : all isUpper w = true -> all isASCII w = true.
Proof.
  intros Hw. eapply all_impl; [exact Hw|]. intros c. unfold isUpper, inRange, isASCII. lia.
Qed.
Lemma ToUpper_upper w : all isUpper w = true -> ToUpper w = w.
Proof. intros Hw. unfold ToUpper. rewrite isUpper_ASCII by done. by apply upperByte_upper. Qed.
Lemma all_app f a b : all f (a ++ b) = all f a && all f b.
Proof. apply forallb_app. Qed.

Lemma country_text f : countryRegex f = true -> ToUpper f = f.
Proof. unfold countryRegex. intros [_ Hu]%andb_true_iff. by apply ToUpper_upper. Qed.
Lemma continent_text f : continentRegex f = true -> $"C:" ++ TrimPrefix (ToUpper f) $"C:" = f.
Proof.
  unfold continentRegex. destruct (TrimPrefixOpt _ f) as [r|] eqn:E; [|done].
  apply TrimPrefixOpt_Some in E as ->. unfold countryRegex. intros [_ Hu]%andb_true_iff.
  assert (ToUpper ($"C:" ++ r) = $"C:" ++ r) as ->.
  { unfold ToUpper. assert (all isASCII ($"C:" ++ r) = true) as ->.
    { rewrite all_app, (isUpper_ASCII r) by done. reflexivity. }
    rewrite fmap_app, (upperByte_upper r) by done. done. }
  by rewrite TrimPrefix_app.
Qed.
Lemma list_text f : HasPrefix f $"L:" = true -> $"L:" ++ Join (Split (TrimPrefix f $"L:") ",") $"," = f.
Proof. intros [r ->]%HasPrefix_spec. rewrite TrimPrefix_app. change $"," with [","%char]. by rewrite Join_Split. Qed.
Lemma domain_orig f t : clsDomain f = Ret (Some t) -> exists d z mt, t = EndpointDomain f d z mt.
Proof.
  unfold clsDomain. destruct (fixEnding f) as [dm| |]; cbn [mbind outcome_bind]; [|done..].
  destruct (looksLikeAnIP dm); [done|].
  destruct (domainForm _) as [[[[[mt d] z] n]|]| |]; cbn [mbind outcome_bind]; try done.
  repeat case_match; try done. intros [= <-]. eauto.
Qed.

Lemma asn_text a : 0 <= a < 2 ^ 63 ->
  classify ($"AS" ++ Itoa (i64 a)) = Ret (Some (EndpointASN a)).
Proof.
  intros Ha. rewrite i64_id by lia. destruct (Itoa_spec a) as (_ & Hd & Hn); [lia|].
  assert (ParseUint (Itoa a) 64 = Some a) as Hp by (apply ParseUint_Itoa; lia).
  set (w := Itoa a) in *. clearbody w.
  assert (forall c, isDigit c = false -> c <> "A"%char -> c <> "S"%char -> c ∉ $"AS" ++ w) as Hni.
  { intros c Hc H1 H2. rewrite elem_of_app. intros [Hi|Hi].
    - by repeat (apply elem_of_cons in Hi as [?|Hi]; [done|]); apply elem_of_nil in Hi.
    - exact (all_not_in isDigit _ c Hd Hc Hi). }
  unfold classify, classifiers.
  rewrite classify_None by done.
  rewrite classify_None by (unfold clsIP; by rewrite ParseIP_plain by (by apply Hni)).
  rewrite classify_None by (unfold clsIPRange; by rewrite ParseCIDR_plain by (by apply Hni)).
  rewrite classify_None.
  2: { unfold clsCountry, countryRegex. by destruct w. }
  rewrite classify_None by done.
  apply classify_Some. unfold clsASN, asnRegex. rewrite TrimPrefix_app.
  change (TrimPrefixOpt $"AS" ($"AS" ++ w)) with (Some w). cbv iota beta.
  rewrite bool_decide_false, Hd, Hp by done. done.
Qed.

Lemma NetString_not_any n nn m k : netOk n nn m k -> "/"%char ∈ NetString n /\ eqs (NetString n) $"*" = false.
Proof.
  intros Hok. rewrite (NetString_ok _ _ _ _ Hok). split; [set_solver|].
  unfold eqs. apply bool_decide_eq_false. pose proof (IPString_nonempty nn (no_wf _ _ _ _ Hok)).
  destruct (IPString nn) as [|c [|? s]]; try done.
Qed.

(** The text of a classified target classifies as that target. *)
Lemma classify_text f t : classify f = Ret (Some t) -> textOk t ->
  exists t', classify (targetString t) = Ret (Some t') /\ sameTarget t t'.
Proof.
  intros Hc Ht. pose proof Hc as Hc0. unfold classify, classifiers in Hc.
  apply classify_inv in Hc as [Hc|[_ Hc]].
  { unfold clsAny in Hc. destruct (eqs f _) eqn:E; [|done]. injection Hc as <-. by exists EndpointAny. }
  apply classify_inv in Hc as [Hc|[_ Hc]].
  { unfold clsIP in Hc. destruct (ParseIP f) as [ip|] eqn:E; [|done]. injection Hc as <-.
    apply ParseIP_wf in E as [Hw Hl]. exists (EndpointIP ip). split; [|done].
    unfold classify, classifiers. cbn [targetString].
    pose proof (IPString_chars ip Hw) as Hch.
    rewrite classify_None.
    2: { unfold clsAny, eqs. rewrite bool_decide_false; [done|]. intros Eq. rewrite Eq in Hch.
         by apply Forall_cons in Hch as [Hch _]. }
    apply classify_Some. unfold clsIP. rewrite ParseIP_IPString by done. unfold To16.
    by rewrite bool_decide_false, bool_decide_true by lia. }
  apply classify_inv in Hc as [Hc|[_ Hc]].
  { unfold clsIPRange in Hc. destruct (ParseCIDR f) as [n|] eqn:E; [|done]. injection Hc as <-.
    apply ParseCIDR_ok in E as (nn & m & k & Hok). exists (EndpointIPRange (mkIPNet nn m)). split.
    - unfold classify, classifiers. cbn [targetString].
      destruct (NetString_not_any _ _ _ _ Hok) as [Hsl Hna].
      rewrite classify_None by (unfold clsAny; by rewrite Hna).
      rewrite classify_None by (unfold clsIP; by rewrite ParseIP_slash).
      apply classify_Some. unfold clsIPRange. by rewrite (ParseCIDR_NetString _ _ _ _ Hok).
    - exists (mkIPNet nn m). split; [done|]. split; [intros ip; by apply (NetContains_norm _ _ _ k)|].
      by rewrite (NetString_ok _ _ _ _ Hok), (NetString_ok _ _ _ _ (netOk_norm _ _ _ _ Hok)). }
  apply classify_inv in Hc as [Hc|[_ Hc]].
  { unfold clsCountry in Hc. destruct (countryRegex f) eqn:E; [|done]. injection Hc as <-.
    cbn [targetString]. eexists. split; [|done].
    etransitivity; [|exact Hc0]. f_equal. exact (country_text f E). }
  apply classify_inv in Hc as [Hc|[_ Hc]].
  { unfold clsContinent in Hc. destruct (continentRegex f) eqn:E; [|done]. injection Hc as <-.
    cbn [targetString]. eexists. split; [|done].
    etransitivity; [|exact Hc0]. f_equal. exact (continent_text f E). }
  apply classify_inv in Hc as [Hc|[_ Hc]].
  { unfold clsASN in Hc. destruct (asnRegex f); [|done].
    destruct (ParseUint _ 64) as [a|] eqn:E; [|done]. injection Hc as <-. apply ParseUint_bounds in E.
    cbn [targetString textOk] in *. exists (EndpointASN a). split; [|done]. apply asn_text. lia. }
  apply classify_inv in Hc as [Hc|[_ Hc]].
  { unfold clsScope in Hc. destruct (scopeLoop _ 0) as [s|] eqn:E; [|done]. injection Hc as <-.
    apply scopeLoop_range in E; [|lia]. cbn [targetString textOk] in *.
    exists (EndpointScope s). split; [|done]. apply scope_text_checked. lia. }
  apply classify_inv in Hc as [Hc|[_ Hc]].
  { unfold clsList in Hc. destruct (HasPrefix f _) eqn:E; [|done]. injection Hc as <-.
    cbn [targetString]. eexists. split; [|done].
    etransitivity; [|exact Hc0]. f_equal. exact (list_text f E). }
  apply classify_inv in Hc as [Hc|[_ Hc]]; [|done].
  apply domain_orig in Hc as (d & z & mt & ->). cbn [targetString]. by eexists.
Qed.

(** ** Words of rendered rules *)
Definition plainChar (c : ascii) : bool := nameChar c || isLower c || oneOf $"*/.,:" c.
Lemma plain_word w : all plainChar w = true -> w <> [] -> wordOk w /\ HasPrefix w $"#" = false.
Proof.
  intros Hw Hn. unfold all in Hw. rewrite forallb_forall in Hw. split.
  - split; [done|]. apply spaceFreeIn_ascii. apply Forall_forall. intros c Hc%list_elem_of_In%Hw. revert Hc.
    unfold sepOk. destruct c as [[] [] [] [] [] [] [] []]; vm_compute; done.
  - destruct w as [|c w]; [done|]. assert (c <> "#"%char) as Hx.
    { intros ->. specialize (Hw "#"%char (or_introl eq_refl)). by vm_compute in Hw. }
    unfold HasPrefix. simpl. by rewrite bool_decide_false by congruence.
Qed.
Lemma all_Forall f w : Forall (fun c => f c = true) w -> all f w = true.
Proof. intros H1. unfold all. apply forallb_forall. rewrite Forall_forall in H1. intros c Hc. by apply H1, list_elem_of_In. Qed.
Lemma ipChar_plain c : ipChar c = true -> plainChar c = true.
Proof. destruct c as [[] [] [] [] [] [] [] []]; vm_compute; done. Qed.
Lemma IPString_plain ip : wellFormedIP ip -> all plainChar (IPString ip) = true.
Proof.
  intros Hw. eapply all_impl; [apply all_Forall, IPString_chars, Hw|]. apply ipChar_plain.
Qed.
Lemma Itoa_plain a : 0 <= a < 10 ^ 20 -> all plainChar (Itoa a) = true.
Proof.
  intros Ha. destruct (Itoa_spec a Ha) as (_ & Hd & _). eapply all_impl; [exact Hd|].
  intros c Hc. unfold plainChar, nameChar. by rewrite Hc, orb_true_r.
Qed.

Lemma target_word f t : classify f = Ret (Some t) -> textOk t -> wordOk f -> HasPrefix f $"#" = false ->
  wordOk (targetString t) /\ HasPrefix (targetString t) $"#" = false.
Proof.
  intros Hc Ht Hw Hh. unfold classify, classifiers in Hc.
  apply classify_inv in Hc as [Hc|[_ Hc]].
  { unfold clsAny in Hc. destruct (eqs f _); [|done]. injection Hc as <-. by apply plain_word. }
  apply classify_inv in Hc as [Hc|[_ Hc]].
  { unfold clsIP in Hc. destruct (ParseIP f) as [ip|] eqn:E; [|done]. injection Hc as <-.
    apply ParseIP_wf in E as [Hip Hl]. apply plain_word; [by apply IPString_plain|by apply IPString_nonempty]. }
  apply classify_inv in Hc as [Hc|[_ Hc]].
  { unfold clsIPRange in Hc. destruct (ParseCIDR f) as [n|] eqn:E; [|done]. injection Hc as <-.
    apply ParseCIDR_ok in E as (nn & m & k & Hok). cbn [targetString].
    rewrite (NetString_ok _ _ _ _ Hok). destruct Hok as [_ Hip _ Hk _ _]. apply plain_word.
    - rewrite !all_app, IPString_plain, Itoa_plain; [done| |done].
      destruct Hip as [_ [Hl|Hl]]; rewrite Hl in Hk; lia.
    - apply IPString_nonempty in Hip. by destruct (IPString nn). }
  apply classify_inv in Hc as [Hc|[_ Hc]].
  { unfold clsCountry in Hc. destruct (countryRegex f) eqn:E; [|done]. injection Hc as <-.
    cbn [targetString]. by rewrite (country_text f E). }
  apply classify_inv in Hc as [Hc|[_ Hc]].
  { unfold clsContinent in Hc. destruct (continentRegex f) eqn:E; [|done]. injection Hc as <-.
    change (targetString _) with ($"C:" ++ TrimPrefix (ToUpper f) $"C:"). by rewrite (continent_text f E). }
  apply classify_inv in Hc as [Hc|[_ Hc]].
  { unfold clsASN in Hc. destruct (asnRegex f); [|done].
    destruct (ParseUint _ 64) as [a|] eqn:E; [|done]. injection Hc as <-. apply ParseUint_bounds in E.
    cbn [targetString textOk] in *. rewrite i64_id by lia. apply plain_word; [|done].
    rewrite all_app, Itoa_plain by lia. done. }
  apply classify_inv in Hc as [Hc|[_ Hc]].
  { unfold clsScope in Hc. destruct (scopeLoop _ 0) as [s|] eqn:E; [|done]. injection Hc as <-.
    apply scopeLoop_range in E; [|lia]. cbn [targetString textOk] in *.
    destruct (scope_text_checked s) as (_ & Hp & Hn); [lia|]. apply plain_word; [|done].
    eapply all_impl; [exact Hp|]. intros c. clear. destruct c as [[] [] [] [] [] [] [] []]; vm_compute; done. }
  apply classify_inv in Hc as [Hc|[_ Hc]].
  { unfold clsList in Hc. destruct (HasPrefix f $"L:") eqn:E; [|done]. injection Hc as <-.
    change (targetString _) with ($"L:" ++ Join (Split (TrimPrefix f $"L:") ",") $","). by rewrite (list_text f E). }
  apply classify_inv in Hc as [Hc|[_ Hc]]; [|done].
  by apply domain_orig in Hc as (d & z & mt & ->).
Qed.

Lemma removeComment_elem fs f : f ∈ removeComment fs -> f ∈ fs /\ HasPrefix f $"#" = false.
Proof.
  induction fs as [|g fs IH]; simpl; [set_solver|]. destruct (HasPrefix g _) eqn:E; [set_solver|].
  intros [->|Hf]%elem_of_cons; [split; [left|done]|]. destruct (IH Hf). split; [by right|done].
Qed.
Lemma removeComment_none fs : Forall (fun f => HasPrefix f $"#" = false) fs -> removeComment fs = fs.
Proof. induction 1 as [|f fs Hf _ IH]; [done|]. cbn [removeComment]. by rewrite Hf, IH. Qed.
End classify.

(** C40. Rules survive being written out: the text of a parsed rule parses to the
    same rule (networks in their normal form), with the exceptions of the single
    port 20, AS numbers beyond the signed range, and scope rules in which every
    scope cancelled out. *)
Theorem endpoint_roundtrip `{UnicodeTables, DNSLib} value ep :
  parseEndpoint value = Ret ep -> textOk (tgt ep) -> ~ ftpDataPort (base ep) ->
  exists t', parseEndpoint (EndpointString ep) = Ret (mkEp (base ep) t') /\ sameTarget (tgt ep) t'.
Proof.
  intros Hp Ht Hftp. apply parseEndpoint_Ret in Hp as (f1 & t & Hf & Hc & Hppp).
  pose proof (parsePPP_ok _ _ _ Hppp) as [Htgt Hb]. rewrite Htgt in *.
  assert (f1 ∈ removeComment (Fields value)) as Hin by (by eapply list_elem_of_lookup_2).
  apply removeComment_elem in Hin as [Hin Hh]. pose proof (Fields_ok value) as Hok.
  rewrite Forall_forall in Hok. specialize (Hok _ Hin).
  destruct (target_word f1 t Hc Ht Hok Hh) as [Hw Hh'].
  destruct (classify_text f1 t Hc Ht) as (t' & Hc' & Hsame). exists t'. split; [|done].
  set (b := base ep) in *.
  assert (Forall wordOk (sign b :: targetString t :: pppFields b) /\
    Forall (fun f => HasPrefix f $"#" = false) (sign b :: targetString t :: pppFields b)) as [Hwords Hhash].
  { assert (wordOk (sign b) /\ HasPrefix (sign b) $"#" = false) as [Hs1 Hs2].
    { unfold sign. destruct (EPermitted b); (split; [|done]); (split; [done|]);
        apply spaceFreeIn_ascii; repeat constructor. }
    unfold pppFields. destruct ((0 <? EProtocol b) || (0 <? StartPort b)) eqn:E.
    - destruct (pppField_ok b Hb Hftp) as [Hp1 Hp2]; [lia|]. split; repeat (constructor; [done|]); constructor.
    - split; repeat (constructor; [done|]); constructor. }
  rewrite EndpointString_fields, Htgt. fold b.
  rewrite (parseEndpoint_classify _ (targetString t) (sign b :: targetString t :: pppFields b));
    rewrite ?(Fields_Join _ Hwords); [|by apply removeComment_none|simpl; lia|done].
  rewrite Hc'. cbn [mbind outcome_bind]. rewrite parsePPP_text by done. done.
Qed.

(** The exception of port 20: the rule that allows it is written out with the
    name [FTP-DATA], whose dash the parser takes for a port range. *)
Theorem endpoint_port20_not_reparsed `{UnicodeTables, DNSLib} :
  exists ep, parseEndpoint $"+ * TCP/20" = Ret ep /\ EndpointString ep = $"+ * TCP/FTP-DATA" /\
    exists err, parseEndpoint (EndpointString ep) = Err err.
Proof.
  eexists. split; [vm_compute; reflexivity|]. split; [vm_compute; reflexivity|].
  eexists. vm_compute. reflexivity.
Qed.

Lemma fixEnding_ok `{UnicodeTables, DNSLib} f : f <> [] -> exists d, fixEnding f = Ret d.
Proof.
  unfold fixEnding. destruct (last f) eqn:E; [by eexists|]. by apply last_None in E.
Qed.
Lemma tryClassifiers_no_panic cs f :
  Forall (fun c => c f <> Panic) cs -> tryClassifiers cs f <> Panic.
Proof.
  induction 1 as [|c cs Hc _ IH]; [done|]. cbn [tryClassifiers].
  by destruct (c f) as [[t|]| |].
Qed.
Lemma classify_no_panic `{UnicodeTables, DNSLib} f : f <> [] -> classify f <> Panic.
Proof.
  intros Hf. apply tryClassifiers_no_panic. unfold classifiers.
  repeat (apply Forall_cons; split; [try done|]); [| |by apply Forall_nil].
  - unfold clsASN. by repeat case_match.
  - unfold clsDomain. destruct (fixEnding_ok f Hf) as [d ->]. cbn [mbind outcome_bind].
    destruct (looksLikeAnIP d); [done|]. unfold domainForm.
    repeat (case_match; cbn [mbind outcome_bind]; try done).
Qed.
Lemma parsePPP_no_panic `{UnicodeTables, DNSLib} t fields : fields <> [] -> parsePPP t fields <> Panic.
Proof.
  intros Hf. destruct fields as [|f0 fields]; [done|]. unfold parsePPP, invalid, go_index. simpl lookup.
  assert (forall b w, parseProtoPorts (f0 :: fields) b w <> Panic) as Hpp.
  { intros b w. unfold parseProtoPorts, invalid. destruct (2 <? _)%nat; [done|].
    destruct (eqs _ []); [done|]. destruct (if eqs _ $"*" then Some 0 else _) as [n8|]; [|done]. cbv zeta.
    match goal with |- (?m ≫= _) <> _ =>
      assert (m <> Panic) as Hm; [|destruct m; cbn [mbind outcome_bind]; [by case_match|done..]] end.
    destruct (1 <? _)%nat; [|done]. unfold parsePorts, invalid. by repeat case_match. }
  match goal with |- (?m ≫= _) <> _ =>
    assert (m <> Panic) as Hm; [|destruct m; cbn [mbind outcome_bind]; [by repeat case_match|done..]] end.
  destruct (_ =? 2)%nat; [done|]. destruct (_ =? 3)%nat; [apply Hpp|done].
Qed.

(** The parser indexes out of range exactly when the text has two or more
    fields of which a comment leaves fewer than two (the comment is removed
    after the check of the number of fields). *)
Theorem parse_endpoint_panics `{UnicodeTables, DNSLib} value :
  parseEndpoint value = Panic <->
  (2 <= length (Fields value))%nat /\ (length (removeComment (Fields value)) < 2)%nat.
Proof.
  unfold parseEndpoint. destruct (length (Fields value) <? 2)%nat eqn:E.
  { apply Nat.ltb_lt in E. split; [done|lia]. }
  apply Nat.ltb_ge in E. set (fields := removeComment (Fields value)).
  destruct (fields !! 1%nat) as [f1|] eqn:Hf.
  - assert (1 < length fields)%nat by (by eapply lookup_lt_Some). split; [|lia]. intros Hp. exfalso.
    assert (f1 <> []) as Hn.
    { assert (f1 ∈ fields) as Hin by (by eapply list_elem_of_lookup_2).
      apply removeComment_elem in Hin as [Hin _]. pose proof (Fields_ok value) as Hok.
      rewrite Forall_forall in Hok. by destruct (Hok _ Hin). }
    rewrite (tryParsers_classify _ _ _ _ _ typeParsers_classify Hf) in Hp. fold (classify f1) in Hp.
    pose proof (classify_no_panic f1 Hn). destruct (classify f1) as [[t|]| |]; cbn [mbind outcome_bind] in Hp; try done.
    assert (parsePPP t fields <> Panic) as Hnp by (apply parsePPP_no_panic; by destruct fields).
    destruct (parsePPP t fields) as [[ep|]| |];
      cbn [mbind outcome_bind] in Hp; done.
  - apply lookup_ge_None in Hf. split; [intros _; split; [done|lia]|]. intros _.
    unfold typeParsers. cbn [tryParsers]. unfold parseTypeAny, go_index.
    by rewrite (lookup_ge_None_2 fields 1) by lia.
Qed.

(** ** Witnesses *)
#[local] Instance plainTables : UnicodeTables := {| unicodeLower s := s; unicodeUpper s := s |}.
#[local] Instance plainDNS : DNSLib := {|
  IsFqdn s := HasSuffix s $".";
  IsDomainName s := forallb (fun w => (length w <=? 63)%nat) (Split s ".");
|}.
Definition sampleRule : str := $"-  10.1.2.3/8 udp/1000-2000 # a comment".

Lemma endpoint_roundtrip_witness :
  exists ep, parseEndpoint sampleRule = Ret ep /\
    EndpointString ep = $"- 10.0.0.0/8 UDP/1000-2000" /\
    exists t', parseEndpoint (EndpointString ep) = Ret (mkEp (base ep) t') /\ sameTarget (tgt ep) t'.
Proof.
  exists (mkEp (mkBase 17 1000 2000 false) (EndpointIPRange (mkIPNet [10; 0; 0; 0] [255; 0; 0; 0]))).
  split; [vm_compute; reflexivity|]. split; [vm_compute; reflexivity|].
  apply (endpoint_roundtrip sampleRule); [vm_compute; reflexivity|exact I|].
  intros [E _]. vm_compute in E. discriminate.
Defined.
