(* ===== verification/EndpointMatch.v ===== *)
(** * Matching endpoint rules

    Rules load what they need (the reverse domain, the location) while they
    match.  [specMatches] is the result of a rule as a function of the facts about
    the connection; [match_spec] shows that a list of rules decides by its first
    rule with a result, whatever was loaded before. *)

From S2P Require Import Prelude GoStrings GoText GoNet NetUtils Entity EntityFacts Endpoints.

Section spec.
Context `{IntelEnv}.

(** ** What a connection offers to the rules *)

(** The domain used for matching: the reverse domain when reverse resolving is
    enabled. *)
Definition resolvedDomain (e : Entity) : option str := (GetDomain true e).1.
(** [None]: no location because the lookup failed. *)
Definition geo (ip : IP) : option Location :=
  match geoipGetLocation ip with inl loc => Some loc | inr _ => None end.
Definition occurs (e : Entity) (lists : list str) : bool :=
  existsb (fun kv => existsb (fun l => bool_decide (l ∈ lists)) kv.2) (map_to_list (ListOccurences e)).

(** The facts that matching reads; matching itself changes none of them. *)
Definition facts (e : Entity) :=
  (EIP e, EIPScope e, Protocol e, dstPort e, (resolvedDomain e, CNAME e, checkCNAMEs e, ListOccurences e)).

(** The result for a rule that needs data located by IP address. *)
Definition specLocated (e : Entity) (r : EPResult) (test : Location -> bool) : EPResult :=
  match EIP e with
  | None => NoMatch
  | Some ip =>
      if IsGlobal (EIPScope e) then
        match geo ip with
        | None => MatchError
        | Some loc => if test loc then r else NoMatch
        end
      else NoMatch
  end.
Definition specMatches (ep : Endpoint) (e : Entity) : EPResult :=
  let r := matchesPPP (base ep) e in
  let on (b : bool) := if b then r else NoMatch in
  match tgt ep with
  | EndpointAny => r
  | EndpointIP ip => on (match EIP e with Some a => IPEqual ip a | None => false end)
  | EndpointIPRange n => on (match EIP e with Some a => NetContains n a | None => false end)
  | EndpointCountry code => specLocated e r (fun loc => eqs code (CountryCode (LocCountry loc)))
  | EndpointContinent code => specLocated e r (fun loc => eqs code (ContinentCode (Continent (LocCountry loc))))
  | EndpointASN asn => specLocated e r (fun loc => AutonomousSystemNumber loc =? asn)
  | EndpointScope scopes =>
      on (match EIP e, scopeOf (EIPScope e) with
          | Some _, Some s => 0 <? Z.land scopes s
          | _, _ => false
          end)
  | EndpointLists lists _ => on (occurs e lists)
  | EndpointDomain _ dom zone mt =>
      match resolvedDomain e with
      | None => NoMatch
      | Some d =>
          if domainMatches dom zone mt d then
            if bool_decide (r = NoMatch) then NoMatch else r
          else if checkCNAMEs e && existsb (domainMatches dom zone mt) (CNAME e) && bool_decide (r = Denied)
          then Denied else NoMatch
      end
  end.

(** The first result that is not [NoMatch]. *)
Definition firstDecision (rs : list EPResult) : EPResult :=
  default NoMatch (first_some (fun r => if bool_decide (r = NoMatch) then None else Some r) rs).

(** The state in which matching works: the location invariant of [EntityFacts]
    for its own address and scope. *)
Definition ready (e : Entity) : Prop := locInv (EIP e) (EIPScope e) e.

Lemma facts_specMatches ep e e' : facts e' = facts e -> specMatches ep e' = specMatches ep e.
Proof.
  unfold facts. intros Hf. injection Hf as E1 E2 E3 E4 E5 E6 E7 E8.
  assert (matchesPPP (base ep) e' = matchesPPP (base ep) e) as Hm
    by (unfold matchesPPP, DstPort; by rewrite E3, E4).
  unfold specMatches, specLocated, occurs. by rewrite Hm, E1, E2, E5, E6, E7, E8.
Qed.

(** ** Lookups change no fact *)
Lemma resolvedDomain_eq e : resolvedDomain e =
  if reverseResolveEnabled e then
    setOr (if reverseResolveOnce e then ReverseDomain e else
           match EIP e, reverseResolver with
           | Some ip, Some f => match f (IPString ip) with inl d => d | inr _ => ReverseDomain e end
           | _, _ => ReverseDomain e
           end)
  else setOr (Domain e).
Proof.
  unfold resolvedDomain, GetDomain, reverseResolve. simpl. destruct (reverseResolveEnabled e); [|done]. simpl.
  destruct (reverseResolveOnce e); [done|]. destruct e. simpl. by repeat case_match.
Qed.
Definition staticFields (e : Entity) :=
  (EIP e, EIPScope e, Protocol e, dstPort e,
   (Domain e, ReverseDomain e, reverseResolveEnabled e, reverseResolveOnce e),
   (CNAME e, checkCNAMEs e, ListOccurences e)).
Lemma static_facts e e' : staticFields e' = staticFields e -> facts e' = facts e.
Proof.
  unfold staticFields. intros Hs. injection Hs as E1 E2 E3 E4 E5 E6 E7 E8 E9 E10 E11.
  unfold facts. rewrite !resolvedDomain_eq. by rewrite E1, E2, E3, E4, E5, E6, E7, E8, E9, E10, E11.
Qed.
Lemma getLocation_facts e : facts (getLocation e) = facts e.
Proof.
  apply static_facts. unfold getLocation. destruct (fetchLocationOnce e); [done|].
  destruct e. simpl. by repeat case_match.
Qed.
Lemma MatchLists_facts lists e : facts (MatchLists lists e).2 = facts e.
Proof. apply static_facts. by destruct lists. Qed.
Lemma reverseResolve_fields e : reverseResolveOnce e = false ->
  (EIP (reverseResolve e), EIPScope (reverseResolve e), Protocol (reverseResolve e), dstPort (reverseResolve e),
   (reverseResolveEnabled (reverseResolve e), CNAME (reverseResolve e), checkCNAMEs (reverseResolve e),
    ListOccurences (reverseResolve e)))
  = (EIP e, EIPScope e, Protocol e, dstPort e, (reverseResolveEnabled e, CNAME e, checkCNAMEs e, ListOccurences e)) /\
  reverseResolveOnce (reverseResolve e) = true /\
  ReverseDomain (reverseResolve e) =
    match EIP e, reverseResolver with
    | Some ip, Some f => match f (IPString ip) with inl d => d | inr _ => ReverseDomain e end
    | _, _ => ReverseDomain e
    end.
Proof.
  intros Eo. unfold reverseResolve. rewrite Eo. clear Eo. destruct e. simpl. by repeat case_match.
Qed.
Lemma GetDomain_facts e : facts (GetDomain true e).2 = facts e.
Proof.
  unfold GetDomain. simpl. destruct (reverseResolveEnabled e) eqn:E; [|done]. simpl.
  destruct (reverseResolveOnce e) eqn:Eo.
  { unfold reverseResolve. by rewrite Eo. }
  destruct (reverseResolve_fields e Eo) as (Hf & Ho & Hd). injection Hf as E1 E2 E3 E4 E5 E6 E7 E8.
  unfold facts. rewrite !resolvedDomain_eq. by rewrite E1, E2, E3, E4, E5, E6, E7, E8, Ho, Hd, E, Eo.
Qed.
Lemma ready_facts_loc e e' : facts e' = facts e -> locFields e' = locFields e -> ready e -> ready e'.
Proof.
  unfold ready. intros Hf Hl Hr. pose proof Hf as Hf'. unfold facts in Hf'. injection Hf' as E1 E2 _ _ _ _ _ _.
  rewrite E1, E2. by eapply locInv_fields; [symmetry|].
Qed.
Lemma ready_getLocation e : ready e -> ready (getLocation e).
Proof.
  unfold ready. intros Hr. pose proof (getLocation_facts e) as Hf. unfold facts in Hf.
  injection Hf as E1 E2 _ _ _ _ _ _. rewrite E1, E2. by apply locInv_getLocation.
Qed.

(** ** Lists *)
Lemma occurs_spec lists e : occurs e lists = true <-> exists key l, l ∈ lists /\ occursOn e key l.
Proof.
  unfold occurs, occursOn. rewrite existsb_exists. split.
  - intros ([key ls] & Hin & He). apply existsb_exists in He as (l & Hl & Hd).
    apply bool_decide_eq_true in Hd. apply list_elem_of_In, elem_of_map_to_list in Hin.
    exists key, l. split; [done|]. exists ls. split; [done|]. by apply list_elem_of_In.
  - intros (key & l & Hl & ls & Hk & Hin). exists (key, ls).
    split; [by apply list_elem_of_In, elem_of_map_to_list|].
    apply existsb_exists. exists l. split; [by apply list_elem_of_In|]. by apply bool_decide_eq_true.
Qed.
Lemma MatchLists_occurs lists e : (forall ks, mapOrder ks ≡ₚ ks) -> (MatchLists lists e).1 = occurs e lists.
Proof.
  intros Hord. destruct (occurs e lists) eqn:E.
  - apply occurs_spec in E as (key & l & Hl & Ho). destruct lists as [|l0 lists]; [by apply elem_of_nil in Hl|].
    unfold MatchLists. cbn [fst]. apply negb_true_iff, bool_decide_eq_false. intros Hnil.
    apply (not_elem_of_nil l). rewrite <- Hnil. apply elem_of_makeDistinct, list_elem_of_fmap.
    exists (l, key). split; [done|]. apply elem_of_listMatches; [done|]. split; [|done].
    unfold makeMap. by apply elem_of_list_to_set.
  - apply not_true_iff_false in E. destruct lists as [|l0 lists]; [done|].
    unfold MatchLists. cbn [fst]. apply negb_false_iff, bool_decide_eq_true.
    match goal with |- makeDistinct ?x = _ => destruct (makeDistinct x) as [|l r] eqn:Ed; [done|] end.
    exfalso. apply E, occurs_spec.
    assert (l ∈ l :: r) as Hin by left. rewrite <- Ed in Hin.
    apply elem_of_makeDistinct, list_elem_of_fmap in Hin as ([l' key] & -> & Hin).
    apply elem_of_listMatches in Hin as [Hin Ho]; [|done].
    unfold makeMap in Hin. apply elem_of_list_to_set in Hin. by exists key, l'.
Qed.

(** ** One rule *)
Lemma match__fst ep e value desc kv : (match_ ep e value desc kv).1 = matchesPPP (base ep) e.
Proof. unfold match_. by case_bool_decide. Qed.
(** A result comes with a reason exactly when it is not [NoMatch]. *)
Definition reasoned (v : verdict) : Prop := v.2 = None <-> v.1 = NoMatch.
Lemma match__reasoned ep e value desc kv : reasoned (match_ ep e value desc kv).
Proof. unfold reasoned, match_. case_bool_decide; simpl; split; congruence. Qed.
Lemma cnameLoop_spec ep orig dom zone mt e cs :
  (cnameLoop ep orig dom zone mt e cs).1 =
    (if existsb (domainMatches dom zone mt) cs && bool_decide (matchesPPP (base ep) e = Denied)
     then Denied else NoMatch) /\ reasoned (cnameLoop ep orig dom zone mt e cs).
Proof.
  induction cs as [|c cs [IH1 IH2]]; [done|]. cbn [cnameLoop existsb]. unfold domainCheck.
  destruct (domainMatches dom zone mt c); cbn [orb fst].
  - rewrite match__fst. case_bool_decide as Hd; [rewrite match__fst; split; [done|apply match__reasoned]|].
    rewrite IH1, andb_false_r. split; [done|]. done.
  - by rewrite bool_decide_false.
Qed.

Lemma ready_location e : (forall a err, geoipGetLocation a = inr err -> err <> []) -> ready e ->
  forall ip, EIP e = Some ip -> IsGlobal (EIPScope e) = true ->
  let e' := getLocation e in
  facts e' = facts e /\ ready e' /\
  match geo ip with
  | Some loc => location e' = Some loc /\ LocationError e' = [] /\ ASN e' = AutonomousSystemNumber loc
  | None => LocationError e' <> []
  end.
Proof.
  intros Herr Hr ip Hip Hg e'. split; [apply getLocation_facts|]. split; [by apply ready_getLocation|].
  apply locInv_getLocation in Hr as [[_ _ _ Hl] Hf]. specialize (Hl Hf ip Hip Hg). fold e' in Hl.
  unfold geo. destruct (geoipGetLocation ip) as [loc|err] eqn:E; [tauto|].
  rewrite Hl. by eapply Herr.
Qed.
Lemma matchesPPP_facts b e e' : facts e' = facts e -> matchesPPP b e' = matchesPPP b e.
Proof.
  unfold facts. intros Hf. injection Hf as _ _ E3 E4 _ _ _ _. unfold matchesPPP, DstPort. by rewrite E3, E4.
Qed.

Definition matchesOk (ep : Endpoint) (e : Entity) (o : outcome str (verdict * Entity)) : Prop :=
  exists v e', o = Ret (v, e') /\ v.1 = specMatches ep e /\ reasoned v /\ facts e' = facts e /\ ready e'.

Lemma on_ok ep e e' (b : bool) value desc kv r :
  facts e' = facts e -> ready e' -> r = (if b then matchesPPP (base ep) e else NoMatch) ->
  specMatches ep e = r ->
  matchesOk ep e (if b then Ret (match_ ep e' value desc kv, e') else Ret ((NoMatch, None), e')).
Proof.
  intros Hf Hr -> Hs. destruct b; eexists _, _; (split; [reflexivity|]); rewrite Hs.
  - rewrite match__fst. split; [by apply matchesPPP_facts|]. split; [apply match__reasoned|done].
  - done.
Qed.

Lemma country_ok ep e code name want :
  (forall a err, geoipGetLocation a = inr err -> err <> []) -> ready e ->
  specMatches ep e = specLocated e (matchesPPP (base ep) e) (fun loc => eqs want (code (LocCountry loc))) ->
  matchesOk ep e (countryMatch ep e code name want).
Proof.
  intros Herr Hr Hs. unfold countryMatch. unfold specLocated in Hs.
  destruct (EIP e) as [ip|] eqn:Hip; [|by eexists _, _; rewrite Hs].
  destruct (IsGlobal (EIPScope e)) eqn:Hg; simpl negb; [|by eexists _, _; rewrite Hs].
  destruct (ready_location e Herr Hr ip Hip Hg) as (Hf & Hr' & Hl). unfold GetCountryInfo. cbv zeta.
  destruct (geo ip) as [loc|].
  - destruct Hl as (H1 & H2 & _). rewrite H2, H1. simpl negb. cbn [mbind outcome_bind].
    by eapply on_ok.
  - rewrite (bool_decide_false _ Hl). simpl negb. cbn [mbind outcome_bind].
    eexists _, _. split; [reflexivity|]. rewrite Hs. by split.
Qed.

Lemma Matches_ok ep e :
  (forall a err, geoipGetLocation a = inr err -> err <> []) -> (forall ks, mapOrder ks ≡ₚ ks) ->
  ready e -> matchesOk ep e (Matches ep e).
Proof.
  intros Herr Hord Hr. destruct (tgt ep) as [ |ip|n|code|code|asn|scopes|lists ls|orig dom zone mt] eqn:Et;
    unfold Matches; rewrite Et;
    unfold EndpointAny_Matches, EndpointIP_Matches, EndpointIPRange_Matches, EndpointCountry_Matches,
      EndpointContinent_Matches, EndpointASN_Matches, EndpointScope_Matches, EndpointLists_Matches,
      EndpointDomain_Matches.
  - eexists _, _. split; [reflexivity|]. unfold specMatches. rewrite Et, match__fst.
    split; [done|]. split; [apply match__reasoned|done].
  - destruct (EIP e) as [a|] eqn:Ea.
    + eapply on_ok; try done. unfold specMatches. by rewrite Et, Ea.
    + eexists _, _. split; [reflexivity|]. unfold specMatches. by rewrite Et, Ea.
  - destruct (EIP e) as [a|] eqn:Ea.
    + eapply on_ok; try done. unfold specMatches. by rewrite Et, Ea.
    + eexists _, _. split; [reflexivity|]. unfold specMatches. by rewrite Et, Ea.
  - apply country_ok; try done. unfold specMatches. by rewrite Et.
  - apply country_ok; try done. unfold specMatches. by rewrite Et.
  - destruct (EIP e) as [a|] eqn:Ea.
    2: { eexists _, _. split; [reflexivity|]. unfold specMatches, specLocated. by rewrite Et, Ea. }
    destruct (IsGlobal (EIPScope e)) eqn:Hg; simpl negb.
    2: { eexists _, _. split; [reflexivity|]. unfold specMatches, specLocated. by rewrite Et, Ea, Hg. }
    destruct (ready_location e Herr Hr a Ea Hg) as (Hf & Hr' & Hl). unfold GetASN. cbv zeta.
    destruct (geo a) as [loc|] eqn:Eg.
    + destruct Hl as (_ & H2 & H3). rewrite H2, H3. simpl.
      eapply on_ok; try done. unfold specMatches, specLocated. by rewrite Et, Ea, Hg, Eg.
    + rewrite (bool_decide_false _ Hl). eexists _, _. split; [reflexivity|].
      unfold specMatches, specLocated. rewrite Et, Ea, Hg, Eg. by split.
  - destruct (EIP e) as [a|] eqn:Ea; [destruct (scopeOf (EIPScope e)) as [s|] eqn:Es|].
    + eapply on_ok; try done. unfold specMatches. by rewrite Et, Ea, Es.
    + eexists _, _. split; [reflexivity|]. unfold specMatches. by rewrite Et, Ea, Es.
    + eexists _, _. split; [reflexivity|]. unfold specMatches. by rewrite Et, Ea.
  - pose proof (MatchLists_occurs lists e Hord) as Hm. pose proof (MatchLists_facts lists e) as Hf.
    pose proof (MatchLists_loc lists e) as Hl. destruct (MatchLists lists e) as [b e']. simpl in Hm, Hf, Hl. subst b.
    eapply on_ok; [done|by eapply ready_facts_loc|done|]. unfold specMatches. by rewrite Et.
  - pose proof (GetDomain_facts e) as Hf. pose proof (GetDomain_loc true e) as Hl.
    assert (resolvedDomain e = (GetDomain true e).1) as Hd by done.
    destruct (GetDomain true e) as [d e'] eqn:Eg. simpl in Hf, Hl, Hd.
    assert (ready e') as Hr' by (by eapply ready_facts_loc).
    destruct d as [d|].
    2: { eexists _, _. split; [reflexivity|]. unfold specMatches. by rewrite Et, Hd. }
    pose proof (matchesPPP_facts (base ep) _ _ Hf) as Hppp. unfold domainCheck.
    destruct (domainMatches dom zone mt d) eqn:Em.
    + rewrite match__fst. case_bool_decide as Hn.
      * simpl negb. cbv iota.
        destruct (cnameLoop_spec ep orig dom zone mt e' (CNAME e')) as [Hc1 Hc2].
        rewrite Hn, (bool_decide_false (NoMatch = Denied)), andb_false_r in Hc1 by done.
        destruct (CNAMECheckEnabled e'); eexists _, _; (split; [reflexivity|]); unfold specMatches;
          rewrite Et, Hd, Em; rewrite <- Hppp, Hn; by split.
      * eexists _, _. split; [reflexivity|]. rewrite match__fst. unfold specMatches. rewrite Et, Hd, Em, <- Hppp.
        rewrite bool_decide_false by done. split; [done|]. split; [apply match__reasoned|done].
    + simpl fst. rewrite bool_decide_true by done. simpl negb. cbv iota.
      destruct (cnameLoop_spec ep orig dom zone mt e' (CNAME e')) as [Hc1 Hc2].
      pose proof Hf as Hf'. unfold facts in Hf'. injection Hf' as _ _ _ _ _ E6 E7 _.
      unfold CNAMECheckEnabled. rewrite E7. destruct (checkCNAMEs e) eqn:Ec; eexists _, _;
        (split; [reflexivity|]); unfold specMatches; rewrite Et, Hd, Em, Ec; cbn [andb].
      * rewrite Hc1, Hppp, <- E6. split; [done|]. split; [exact Hc2|done].
      * by split.
Qed.

(** ** Lists of rules *)
Lemma firstDecision_cons r rs : firstDecision (r :: rs) = if bool_decide (r = NoMatch) then firstDecision rs else r.
Proof. unfold firstDecision. cbn [first_some]. by case_bool_decide. Qed.

Lemma Match_ok eps e :
  (forall a err, geoipGetLocation a = inr err -> err <> []) -> (forall ks, mapOrder ks ≡ₚ ks) ->
  ready e -> exists v e', Match eps e = Ret (v, e') /\
    v.1 = firstDecision ((fun ep => specMatches ep e) <$> omap id eps) /\ reasoned v /\
    facts e' = facts e /\ ready e'.
Proof.
  intros Herr Hord. revert e. induction eps as [|[ep|] eps IH]; intros e Hr; [by eexists _, _| |].
  - destruct (Matches_ok ep e Herr Hord Hr) as (v & e' & Hm & Hv & Hrs & Hf & Hr').
    cbn [Match]. rewrite Hm. cbn [mbind outcome_bind].
    change (omap id (Some ep :: eps)) with (ep :: omap id eps).
    rewrite fmap_cons, firstDecision_cons, <- Hv. case_bool_decide as Hn.
    + destruct (IH e' Hr') as (v2 & e2 & Hm2 & Hv2 & Hrs2 & Hf2 & Hr2). exists v2, e2.
      split; [done|]. split; [|split; [done|split; [congruence|done]]]. rewrite Hv2. f_equal.
      apply list_fmap_ext. intros i x _. by apply facts_specMatches.
    + by exists v, e'.
  - by apply IH.
Qed.

Definition allFacts (es : list (option Entity)) :=
  (fun o : option Entity => facts <$> o) <$> es.
Lemma matchEntities_ok ep es :
  (forall a err, geoipGetLocation a = inr err -> err <> []) -> (forall ks, mapOrder ks ≡ₚ ks) ->
  Forall (fun o => forall e, o = Some e -> ready e) es ->
  exists v es', matchEntities ep es = Ret (v, es') /\
    v.1 = firstDecision ((fun e => specMatches ep e) <$> omap id es) /\ reasoned v /\
    allFacts es' = allFacts es /\ Forall (fun o => forall e, o = Some e -> ready e) es'.
Proof.
  intros Herr Hord. induction es as [|[e|] es IH]; intros Hr; [by eexists _, _| |];
    apply Forall_cons in Hr as [Hre Hr]; destruct (IH Hr) as (v2 & es2 & Hm2 & Hv2 & Hrs2 & Hf2 & Hr2);
    cbn [matchEntities].
  - destruct (Matches_ok ep e Herr Hord (Hre e eq_refl)) as (v & e' & Hm & Hv & Hrs & Hf & Hr').
    rewrite Hm. cbn [mbind outcome_bind]. change (omap id (Some e :: es)) with (e :: omap id es).
    rewrite fmap_cons, firstDecision_cons, <- Hv. case_bool_decide as Hn.
    + rewrite Hm2. cbn [mbind outcome_bind]. exists v2, (Some e' :: es2). split; [done|]. split; [done|].
      split; [done|]. split; [unfold allFacts in *; cbn; rewrite Hf; by f_equal|].
      constructor; [by intros ? [= <-]|done].
    + exists v, (Some e' :: es). split; [done|]. split; [done|].
      split; [done|]. split; [unfold allFacts in *; cbn; by rewrite Hf|].
      constructor; [by intros ? [= <-]|done].
  - rewrite Hm2. cbn [mbind outcome_bind]. exists v2, (None :: es2). split; [done|]. split; [done|].
    split; [done|]. split; [unfold allFacts in *; cbn; by f_equal|]. by constructor.
Qed.
Lemma allFacts_spec (eps : list Endpoint) es es' : allFacts es' = allFacts es ->
  (fun ep => firstDecision ((fun e => specMatches ep e) <$> omap id es')) <$> eps
  = (fun ep => firstDecision ((fun e => specMatches ep e) <$> omap id es)) <$> eps.
Proof.
  intros Hf. apply list_fmap_ext. intros i ep _. f_equal. clear eps i.
  revert es' Hf. induction es as [|o es IH]; intros es' Hf; destruct es' as [|o' es']; [done|discriminate Hf|discriminate Hf|].
  unfold allFacts in Hf. rewrite !fmap_cons in Hf.
  assert (Ho : facts <$> o' = facts <$> o) by congruence.
  assert (Ht : allFacts es' = allFacts es) by (unfold allFacts; congruence).
  destruct o as [e|], o' as [e'|]; cbn in Ho; try discriminate Ho; [|exact (IH es' Ht)].
  change (specMatches ep e' :: ((fun e => specMatches ep e) <$> omap id es')
    = specMatches ep e :: ((fun e => specMatches ep e) <$> omap id es)).
  f_equal; [|exact (IH es' Ht)]. apply facts_specMatches. congruence.
Qed.
Lemma MatchMulti_ok eps es :
  (forall a err, geoipGetLocation a = inr err -> err <> []) -> (forall ks, mapOrder ks ≡ₚ ks) ->
  Forall (fun o => forall e, o = Some e -> ready e) es ->
  exists v es', MatchMulti eps es = Ret (v, es') /\
    v.1 = firstDecision ((fun ep => firstDecision ((fun e => specMatches ep e) <$> omap id es)) <$> omap id eps) /\
    reasoned v /\ allFacts es' = allFacts es.
Proof.
  intros Herr Hord. revert es. induction eps as [|[ep|] eps IH]; intros es Hr; [by eexists _, _| |].
  - destruct (matchEntities_ok ep es Herr Hord Hr) as (v & es' & Hm & Hv & Hrs & Hf & Hr').
    cbn [MatchMulti]. rewrite Hm. cbn [mbind outcome_bind].
    change (omap id (Some ep :: eps)) with (ep :: omap id eps).
    rewrite fmap_cons, firstDecision_cons, <- Hv. case_bool_decide as Hn.
    + destruct (IH es' Hr') as (v2 & es2 & Hm2 & Hv2 & Hrs2 & Hf2). exists v2, es2.
      split; [done|]. split; [|split; [done|congruence]]. rewrite Hv2. f_equal. by apply allFacts_spec.
    + by exists v, es'.
  - by apply IH.
Qed.
Lemma ready_ops ip proto port domain cname dst ops :
  ready (foldl (fun e o => entityExec o e) (EntityInit dst (newEntity ip proto port domain cname)) ops).
Proof.
  pose proof (locInv_foldl _ _ ops _ (locInv_new ip proto port domain cname dst)) as Hi.
  unfold ready. set (e := foldl _ _ _) in *. destruct Hi as [H1 H2 H3 H4].
  split; [done|done|done|]. intros Hf a Ha Hg. rewrite H1 in Ha. rewrite H2 in Hg. by apply H4.
Qed.
End spec.

(** C39. Matching decides by the first rule with a result: whatever was loaded for
    the entity before, [Endpoints.Match] never panics, gives the result of the
    first rule that applies to the connection's facts, with a reason unless no
    rule applies, and changes none of these facts. *)
Theorem match_spec `{IntelEnv} eps ip proto port domain cname dst ops :
  let e := foldl (fun e o => entityExec o e) (EntityInit dst (newEntity ip proto port domain cname)) ops in
  (forall a err, geoipGetLocation a = inr err -> err <> []) -> (forall ks, mapOrder ks ≡ₚ ks) ->
  exists v e', Match eps e = Ret (v, e') /\
    v.1 = firstDecision ((fun ep => specMatches ep e) <$> omap id eps) /\
    (v.2 = None <-> v.1 = NoMatch) /\ facts e' = facts e.
Proof.
  intros e Herr Hord. destruct (Match_ok eps e Herr Hord) as (v & e' & H1 & H2 & H3 & H4 & _).
  { apply ready_ops. }
  by exists v, e'.
Qed.

(** With several entities every rule is tried on all of them before the next
    rule: [MatchMulti] gives the first result in that order. *)
Theorem match_multi_spec `{IntelEnv} eps (es : list (option Entity)) :
  (forall a err, geoipGetLocation a = inr err -> err <> []) -> (forall ks, mapOrder ks ≡ₚ ks) ->
  (forall e, Some e ∈ es -> exists ip proto port domain cname dst ops,
     e = foldl (fun e o => entityExec o e) (EntityInit dst (newEntity ip proto port domain cname)) ops) ->
  exists v es', MatchMulti eps es = Ret (v, es') /\
    v.1 = firstDecision ((fun ep => firstDecision ((fun e => specMatches ep e) <$> omap id es)) <$> omap id eps) /\
    (v.2 = None <-> v.1 = NoMatch).
Proof.
  intros Herr Hord Hes. destruct (MatchMulti_ok eps es Herr Hord) as (v & es' & H1 & H2 & H3 & _).
  { apply Forall_forall. intros o Ho e ->. destruct (Hes e Ho) as (? & ? & ? & ? & ? & ? & ? & ->). apply ready_ops. }
  by exists v, es'.
Qed.

(** ** Witnesses *)
Definition demoRules : list (option Endpoint) :=
  [Some (mkEp (mkBase 17 0 0 false) EndpointAny);
   None;
   Some (mkEp (mkBase 6 400 500 true) (EndpointCountry $"AT"));
   Some (mkEp (mkBase 0 0 0 false) EndpointAny)].
Lemma demo_errors : forall a err, geoipGetLocation (IntelEnv := Demo.env) a = inr err -> err <> [].
Proof. intros a err. simpl. destruct (bool_decide _); [intros [= <-]; discriminate|discriminate]. Defined.

Lemma match_spec_witness :
  exists v e', Match (H := Demo.env) demoRules Demo.loaded = Ret (v, e') /\ v.1 = Permitted /\
    v.1 = firstDecision ((fun ep => specMatches (H := Demo.env) ep Demo.loaded) <$> omap id demoRules) /\
    (v.2 = None <-> v.1 = NoMatch) /\ facts (H := Demo.env) e' = facts (H := Demo.env) Demo.loaded.
Proof.
  destruct (match_spec (H := Demo.env) demoRules (Some [1; 2; 3; 4]) 6 443 $"x.ads.example." [] 0 Demo.ops
    demo_errors (fun ks => Permutation_refl ks)) as (v & e' & H1 & H2 & H3).
  exists v, e'. split; [exact H1|]. split; [rewrite H2; vm_compute; reflexivity|]. split; [exact H2|exact H3].
Defined.

Lemma match_multi_spec_witness :
  exists v es', MatchMulti (H := Demo.env) demoRules [None; Some Demo.loaded] = Ret (v, es') /\
    v.1 = Permitted /\ (v.2 = None <-> v.1 = NoMatch).
Proof.
  destruct (match_multi_spec (H := Demo.env) demoRules [None; Some Demo.loaded]
    demo_errors (fun ks => Permutation_refl ks)) as (v & es' & H1 & H2 & H3).
  { intros e He. apply elem_of_cons in He as [He|He]; [discriminate|].
    apply list_elem_of_singleton in He. apply (inj Some) in He. rewrite He. clear He e.
    exists (Some [1; 2; 3; 4]), 6, 443, $"x.ads.example.", [], 0, Demo.ops. reflexivity. }
  exists v, es'. split; [exact H1|]. split; [rewrite H2; vm_compute; reflexivity|exact H3].
Defined.
