(* ===== verification/Profile.v ===== *)
(** * Profiles (base/config/perspective.go, service/profile)

    A [Profile] holds the settings of an application; a [LayeredProfile] stacks
    profiles on top of the global configuration [Cfg].  Options of a layered
    profile are closures that cache their value until the revision counter
    changes; the model keeps the closure variables as [cached] fields of the
    layered profile. *)

From S2P Require Import Prelude GoStrings GoText GoNet NetUtils Reference Entity Endpoints.

(** ** Configuration perspectives *)
Inductive OptionType := optTypeAny | OptTypeString | OptTypeStringArray | OptTypeInt | OptTypeBool.
#[export] Instance OptionType_eq_dec : EqDecision OptionType.
Proof. solve_decision. Defined.

Record valueCache := mkValue { stringVal : str; stringArrayVal : list str; intVal : Z; boolVal : bool }.
(** The option's type and release level, and the value. *)
Record perspectiveOption := mkPO { OptType : OptionType; ReleaseLevel : Z; poValue : valueCache }.
Abbreviation Perspective := (gmap str perspectiveOption).

(** [level]: the release level of the configuration. *)
Definition getPerspectiveValueCache (level : Z) (p : Perspective) (name : str) (requestedType : OptionType)
    : option valueCache :=
  match p !! name with
  | None => None
  | Some o =>
      if negb (bool_decide (requestedType = OptType o)) && negb (bool_decide (requestedType = optTypeAny))
      then None
      else if level <? ReleaseLevel o then None
      else Some (poValue o)
  end.
Definition PHas (level : Z) (p : Perspective) (name : str) : bool :=
  match getPerspectiveValueCache level p name optTypeAny with Some _ => true | None => false end.
Definition PGetAsString (level : Z) (p : Perspective) (name : str) : option str :=
  stringVal <$> getPerspectiveValueCache level p name OptTypeString.
Definition PGetAsStringArray (level : Z) (p : Perspective) (name : str) : option (list str) :=
  stringArrayVal <$> getPerspectiveValueCache level p name OptTypeStringArray.
Definition PGetAsInt (level : Z) (p : Perspective) (name : str) : option Z :=
  intVal <$> getPerspectiveValueCache level p name OptTypeInt.
Definition PGetAsBool (level : Z) (p : Perspective) (name : str) : option bool :=
  boolVal <$> getPerspectiveValueCache level p name OptTypeBool.

(** ** Profiles *)
Definition DefaultActionNotSet : Z := 0.
Definition DefaultActionBlock : Z := 1.
Definition DefaultActionAsk : Z := 2.
Definition DefaultActionPermit : Z := 3.

Abbreviation EPs := (list (option Endpoint)).

Record Profile := mkProfile {
  ID : str; Source : str; Internal : bool;
  configPerspective : Perspective;
  defaultAction : Z;
  endpoints : EPs; serviceEndpoints : EPs;
  filterListsSet : bool; filterListIDs : list str;
  spnUsagePolicy : EPs; spnTransitHubPolicy : EPs; spnExitHubPolicy : EPs;
  outdated : bool; lastActive : Z;
}.
#[export] Instance eta_Profile : Eta Profile := fun p =>
  mkProfile (ID p) (Source p) (Internal p) (configPerspective p) (defaultAction p)
    (endpoints p) (serviceEndpoints p) (filterListsSet p) (filterListIDs p)
    (spnUsagePolicy p) (spnTransitHubPolicy p) (spnExitHubPolicy p) (outdated p) (lastActive p).

Definition SourceLocal : str := $"local".
Definition MakeScopedID (source id : str) : str := source ++ $"/" ++ id.
Definition MakeProfileKey (source id : str) : str := $"core:profiles/" ++ source ++ $"/" ++ id.
Definition ScopedID (p : Profile) : str := MakeScopedID (Source p) (ID p).
Definition Key (p : Profile) : str := MakeProfileKey (Source p) (ID p).
Definition MarkStillActive (now : Z) (p : Profile) : Profile := p <| lastActive := now |>.
Definition GetEndpoints (p : Profile) : EPs := endpoints p.
Definition GetServiceEndpoints (p : Profile) : EPs := serviceEndpoints p.

(** ** The global configuration *)
Inductive BoolOption :=
| DisableAutoPermit | BlockScopeLocal | BlockScopeLAN | BlockScopeInternet | BlockP2P | BlockInbound
| RemoveOutOfScopeDNS | RemoveBlockedDNS | FilterSubDomains | FilterCNAMEs | PreventBypassing
| DomainHeuristics | UseSPN | EnableHistory.
#[export] Instance BoolOption_eq_dec : EqDecision BoolOption.
Proof. solve_decision. Defined.

Definition boolKey (k : BoolOption) : str :=
  match k with
  | DisableAutoPermit => $"filter/disableAutoPermit"
  | BlockScopeLocal => $"filter/blockLocal"
  | BlockScopeLAN => $"filter/blockLAN"
  | BlockScopeInternet => $"filter/blockInternet"
  | BlockP2P => $"filter/blockP2P"
  | BlockInbound => $"filter/blockInbound"
  | RemoveOutOfScopeDNS => $"filter/removeOutOfScopeDNS"
  | RemoveBlockedDNS => $"filter/removeBlockedDNS"
  | FilterSubDomains => $"filter/includeSubdomains"
  | FilterCNAMEs => $"filter/includeCNAMEs"
  | PreventBypassing => $"filter/preventBypassing"
  | DomainHeuristics => $"filter/domainHeuristics"
  | UseSPN => $"spn/use"
  | EnableHistory => $"history/enable"
  end.
Definition CfgOptionDefaultActionKey : str := $"filter/defaultAction".
Definition CfgOptionEndpointsKey : str := $"filter/endpoints".
Definition CfgOptionServiceEndpointsKey : str := $"filter/serviceEndpoints".
Definition CfgOptionFilterListsKey : str := $"filter/lists".
Definition CfgOptionRoutingAlgorithmKey : str := $"spn/routingAlgorithm".
Definition CfgOptionKeepHistoryKey : str := $"history/keep".

(** [generation] counts the calls of [signalChanges]: each one replaces the
    validity flag that is handed out. *)
Record Cfg := mkCfg {
  generation : Z;
  releaseLevel : Z;
  globalBool : BoolOption -> bool;
  globalRoutingAlgorithm : str;
  globalKeepHistory : Z;
  cfgDefaultAction : Z;
  cfgEndpoints : EPs; cfgServiceEndpoints : EPs;
  cfgSPNUsagePolicy : EPs; cfgSPNTransitHubPolicy : EPs; cfgSPNExitHubPolicy : EPs;
  cfgFilterLists : list str;
}.

(** ** Layered profiles *)

(** The closure variables of a wrapped option. *)
Record cached (A : Type) := mkCached { revCnt : Z; value : A }.
Arguments mkCached {A}. Arguments revCnt {A}. Arguments value {A}.

(** [globalValidityFlag]: the generation of the flag it was refreshed to; [None]
    for the flag of a new layered profile, which is never valid. *)
Record LayeredProfile := mkLP {
  localProfile : option Profile;
  layers : list Profile;
  LayerIDs : list str;
  RevisionCounter : Z;
  globalValidityFlag : option Z;
  securityLevel : Z;
  boolOptions : BoolOption -> cached bool;
  SPNRoutingAlgorithm : cached str;
  KeepHistory : cached Z;
}.
#[export] Instance eta_LP : Eta LayeredProfile := fun lp =>
  mkLP (localProfile lp) (layers lp) (LayerIDs lp) (RevisionCounter lp) (globalValidityFlag lp)
    (securityLevel lp) (boolOptions lp) (SPNRoutingAlgorithm lp) (KeepHistory lp).

Definition NewLayeredProfile (p : Profile) : LayeredProfile := {|
  localProfile := Some p; layers := [p]; LayerIDs := [ScopedID p]; RevisionCounter := 1;
  globalValidityFlag := None; securityLevel := 0;
  boolOptions := fun _ => mkCached 0 false;
  SPNRoutingAlgorithm := mkCached 0 []; KeepHistory := mkCached 0 0;
|}.
Definition LocalProfileWithoutLocking (lp : option LayeredProfile) : option Profile := lp ≫= localProfile.
Definition SecurityLevel (lp : LayeredProfile) : Z := u8 (securityLevel lp).
Definition LPMarkStillActive (now : Z) (lp : LayeredProfile) : LayeredProfile :=
  lp <| layers ::= fmap (MarkStillActive now) |> <| localProfile ::= fmap (MarkStillActive now) |>.

Section layered.
Context (g : Cfg).

(** The refresh shared by the three kinds of wrapped options: the first layer
    that has a value, else the global value. *)
Definition refresh {A} (get : Profile -> option A) (global : A) (lp : LayeredProfile) (c : cached A)
    : A * cached A :=
  if revCnt c =? RevisionCounter lp then (value c, c)
  else let v := default global (first_some get (layers lp)) in (v, mkCached (RevisionCounter lp) v).

Definition getBool (k : BoolOption) (p : Profile) : option bool :=
  PGetAsBool (releaseLevel g) (configPerspective p) (boolKey k).
Definition wrapBoolOption (k : BoolOption) (lp : LayeredProfile) : bool * LayeredProfile :=
  let '(v, c) := refresh (getBool k) (globalBool g k) lp (boolOptions lp k) in
  (v, lp <| boolOptions ::= fun f k' => if decide (k' = k) then c else f k' |>).
Definition wrapStringOption (lp : LayeredProfile) : str * LayeredProfile :=
  let '(v, c) := refresh (fun p => PGetAsString (releaseLevel g) (configPerspective p) CfgOptionRoutingAlgorithmKey)
                   (globalRoutingAlgorithm g) lp (SPNRoutingAlgorithm lp) in
  (v, lp <| SPNRoutingAlgorithm := c |>).
Definition wrapIntOption (lp : LayeredProfile) : Z * LayeredProfile :=
  let '(v, c) := refresh (fun p => PGetAsInt (releaseLevel g) (configPerspective p) CfgOptionKeepHistoryKey)
                   (globalKeepHistory g) lp (KeepHistory lp) in
  (v, lp <| KeepHistory := c |>).

Definition GetProfileSource (configKey : str) (lp : LayeredProfile) : str :=
  default [] (first_some (fun p => if PHas (releaseLevel g) (configPerspective p) configKey
                                   then Some (Key p) else None) (layers lp)).

(** ** Updates *)
Definition IsValid (flag : option Z) : bool := bool_decide (flag = Some (generation g)).
Definition NeedsUpdate (lp : LayeredProfile) : bool :=
  negb (IsValid (globalValidityFlag lp)) || existsb outdated (layers lp).
Definition increaseRevisionCounter (lp : LayeredProfile) : LayeredProfile :=
  lp <| RevisionCounter ::= fun n => u64 (n + 1) |>.

(** The loop over the layers, from index [i] on: the new layers, whether one
    changed, and the local profile.  [fetch] is [GetLocalProfile] with the
    matching data of the process.  The local profile, when there is one, is the
    same object as the first layer. *)
Fixpoint updateLayers (fetch : str -> result Profile) (i : nat) (ls : list Profile)
    (changed : bool) (local : option Profile) : list Profile * bool * option Profile :=
  match ls with
  | [] => ([], changed, local)
  | p :: ls =>
      if outdated p then
        if negb (bool_decide (Source p = SourceLocal)) then
          let p := p <| outdated := false |> in
          let '(ls, changed, local) := updateLayers fetch (S i) ls changed
              (if (i =? 0)%nat then (fun _ => p) <$> local else local) in
          (p :: ls, changed, local)
        else
          let new := match fetch (ID p) with inl p' => Some p' | inr _ => None end in
          let '(ls, changed, local) :=
            updateLayers fetch (S i) ls true (if (i =? 0)%nat then new else local) in
          (default p new :: ls, changed, local)
      else
        let '(ls, changed, local) := updateLayers fetch (S i) ls changed local in
        (p :: ls, changed, local)
  end.
Definition Update (fetch : str -> result Profile) (lp : LayeredProfile) : Z * LayeredProfile :=
  let '(ls, changed, local) := updateLayers fetch 0 (layers lp) false (localProfile lp) in
  let lp := lp <| layers := ls |> <| localProfile := local |> in
  let changed := changed || negb (IsValid (globalValidityFlag lp)) in
  let lp := if changed
            then increaseRevisionCounter (lp <| globalValidityFlag := Some (generation g) |>)
            else lp in
  (RevisionCounter lp, lp).

(** ** Policies *)
Definition DefaultAction (lp : LayeredProfile) : Z :=
  default (cfgDefaultAction g)
    (first_some (fun p => if 0 <? defaultAction p then Some (defaultAction p) else None) (layers lp)).

Context `{IntelEnv}.

(** The layers' rule lists [sel] in order, then the global list. *)
Fixpoint matchLayers (sel : Profile -> EPs) (ls : list Profile) (global : EPs) (e : Entity)
    : outcome str (verdict * Entity) :=
  match ls with
  | [] => Match global e
  | p :: ls =>
      if EndpointsIsSet (sel p) then
        '(v, e) ← Match (sel p) e;
        if IsDecision v.1 then Ret (v, e) else matchLayers sel ls global e
      else matchLayers sel ls global e
  end.
Definition MatchEndpoint (lp : LayeredProfile) (e : Entity) : outcome str (verdict * Entity) :=
  matchLayers endpoints (layers lp) (cfgEndpoints g) e.
Definition MatchServiceEndpoint (lp : LayeredProfile) (e : Entity) : outcome str (verdict * Entity) :=
  let e := EnableReverseResolving e in
  matchLayers serviceEndpoints (layers lp) (cfgServiceEndpoints g) e.
Definition MatchSPNUsagePolicy (lp : LayeredProfile) (e : Entity) : outcome str (verdict * Entity) :=
  matchLayers spnUsagePolicy (layers lp) (cfgSPNUsagePolicy g) e.

Definition StackedTransitHubPolicies (lp : LayeredProfile) : list EPs :=
  filter (fun l => EndpointsIsSet l = true) (spnTransitHubPolicy <$> layers lp) ++ [cfgSPNTransitHubPolicy g].
Definition StackedExitHubPolicies (lp : LayeredProfile) : list EPs :=
  filter (fun l => EndpointsIsSet l = true) (spnExitHubPolicy <$> layers lp) ++ [cfgSPNExitHubPolicy g].

(** Denied with the reason, or no match. *)
Definition matchListIDs (lists : list str) (e : Entity) : (EPResult * list ListMatch) * Entity :=
  let '(b, e) := MatchLists lists e in
  if b then ((Denied, ListBlockReason e), e) else ((NoMatch, []), e).
Definition MatchFilterLists (lp : LayeredProfile) (e : Entity)
    : (EPResult * list ListMatch) * Entity * LayeredProfile :=
  let '(sub, lp) := wrapBoolOption FilterSubDomains lp in
  let e := ResolveSubDomainLists sub e in
  let '(cn, lp) := wrapBoolOption FilterCNAMEs lp in
  let e := EnableCNAMECheck cn e in
  match first_some (fun p => if filterListsSet p then Some (filterListIDs p) else None) (layers lp) with
  | Some lists => (matchListIDs lists e, lp)
  | None => match cfgFilterLists g with
            | [] => ((NoMatch, []), e, lp)
            | lists => (matchListIDs lists e, lp)
            end
  end.
End layered.
