(* ===== verification/ProfileFacts.v ===== *)
(** * Layered profiles: options and rules

    [options_current]: the options of a layered profile that needs no update have
    the value of the first layer that sets them, else the current global value,
    whatever was cached before.  [layered_rules_spec]: the rule lists of the
    layers and the global list act as one list. *)

From S2P Require Import Prelude GoStrings GoText GoNet NetUtils Entity EntityFacts Endpoints EndpointMatch.
From S2P Require Import Profile.

(** ** Values of options *)

(** The value without caching. *)
Definition effectiveOf {A} (get : Profile -> option A) (global : A) (lp : LayeredProfile) : A :=
  default global (first_some get (layers lp)).
Definition effective (g : Cfg) (k : BoolOption) (lp : LayeredProfile) : bool :=
  effectiveOf (getBool g k) (globalBool g k) lp.

(** The layers up to their lifecycle flags. *)
Definition settings (lp : LayeredProfile) := configPerspective <$> layers lp.
Lemma effective_settings g k lp lp' : settings lp' = settings lp -> effective g k lp' = effective g k lp.
Proof.
  unfold settings, effective, effectiveOf. intros Hs. f_equal. revert Hs. generalize (layers lp').
  induction (layers lp) as [|p ls IH]; intros [|p' ls'] Hs; try done.
  rewrite !fmap_cons in Hs. injection Hs as Hp Hs. cbn [first_some]. unfold getBool at 1 3. rewrite Hp.
  case_match; [done|]. by apply IH.
Qed.

(** ** Histories of a layered profile *)
Inductive lpStep : Cfg * LayeredProfile -> Cfg * LayeredProfile -> Prop :=
| StepConfig g g' lp : generation g' = generation g + 1 -> lpStep (g, lp) (g', lp)
| StepOutdate g lp i : lpStep (g, lp) (g, lp <| layers ::= alter (fun p => p <| outdated := true |>) i |>)
| StepUpdate g lp fetch : lpStep (g, lp) (g, (Update g fetch lp).2)
| StepRead g lp k : lpStep (g, lp) (g, (wrapBoolOption g k lp).2)
| StepReadString g lp : lpStep (g, lp) (g, (wrapStringOption g lp).2)
| StepReadInt g lp : lpStep (g, lp) (g, (wrapIntOption g lp).2).

(** Cached values of the current revision are current while the validity flag
    is. *)
Record coherent (g : Cfg) (lp : LayeredProfile) : Prop := {
  co_rev : 1 <= RevisionCounter lp;
  co_old : forall k, revCnt (boolOptions lp k) <= RevisionCounter lp;
  co_gen : forall n, globalValidityFlag lp = Some n -> n <= generation g;
  co_val : globalValidityFlag lp = Some (generation g) -> forall k,
    revCnt (boolOptions lp k) = RevisionCounter lp -> value (boolOptions lp k) = effective g k lp;
}.

Lemma coherent_read g k lp : coherent g lp -> coherent g (wrapBoolOption g k lp).2.
Proof.
  intros [H1 H2 H3 H4]. unfold wrapBoolOption, refresh.
  destruct (Z.eqb_spec (revCnt (boolOptions lp k)) (RevisionCounter lp)) as [E|E]; simpl; split; simpl; try done;
    [intros k'; by case_decide; subst| | |]; intros *.
  - intros Hv k'. case_decide; subst; [intros _|]; by apply H4.
  - case_decide; simpl; [done|apply H2].
  - intros Hv k'. case_decide; subst; simpl; [done|by apply H4].
Qed.
Lemma read_value g k lp : coherent g lp -> globalValidityFlag lp = Some (generation g) ->
  (wrapBoolOption g k lp).1 = effective g k lp.
Proof.
  intros Hc Hv. unfold wrapBoolOption, refresh.
  destruct (Z.eqb_spec (revCnt (boolOptions lp k)) (RevisionCounter lp)) as [E|E]; [|done].
  by apply (co_val _ _ Hc Hv).
Qed.
(** Changes outside the options that keep the settings. *)
Lemma coherent_settings g lp lp' : settings lp' = settings lp ->
  RevisionCounter lp' = RevisionCounter lp -> boolOptions lp' = boolOptions lp ->
  globalValidityFlag lp' = globalValidityFlag lp -> coherent g lp -> coherent g lp'.
Proof.
  intros Hs E1 E2 E3 [H1 H2 H3 H4]. split; rewrite ?E1, ?E2, ?E3; try done.
  intros Hv k. rewrite (effective_settings _ _ _ _ Hs). by apply H4.
Qed.

Lemma updateLayers_settings fetch i ls changed local ls' local' :
  updateLayers fetch i ls changed local = (ls', false, local') ->
  configPerspective <$> ls' = configPerspective <$> ls /\ changed = false.
Proof.
  revert i changed local ls' local'. induction ls as [|p ls IH]; intros i changed local ls' local' Hu.
  { by injection Hu as <- -> _. }
  cbn [updateLayers] in Hu. destruct (outdated p).
  - destruct (negb _).
    + destruct (updateLayers _ _ ls _ _) as [[ls1 c1] l1] eqn:E. injection Hu as <- -> _.
      apply IH in E as [E ->]. by rewrite !fmap_cons, E.
    + destruct (updateLayers _ _ ls _ _) as [[ls1 c1] l1] eqn:E. injection Hu as <- -> _.
      by apply IH in E as [_ ?].
  - destruct (updateLayers _ _ ls _ _) as [[ls1 c1] l1] eqn:E. injection Hu as <- -> _.
    apply IH in E as [E ->]. by rewrite !fmap_cons, E.
Qed.
Lemma coherent_update g fetch lp : coherent g lp -> RevisionCounter lp < 2 ^ 64 - 1 ->
  coherent g (Update g fetch lp).2 /\
  RevisionCounter (Update g fetch lp).2 <= RevisionCounter lp + 1.
Proof.
  intros Hc Hb. unfold Update. destruct (updateLayers fetch 0 (layers lp) false (localProfile lp)) as [[ls ch] local] eqn:E.
  cbn [globalValidityFlag set_field]. destruct (ch || negb (IsValid g (globalValidityFlag lp))) eqn:Ec.
  - destruct Hc as [H1 H2 H3 H4]. simpl. rewrite u64_id by lia. split; [|lia].
    split; simpl; rewrite ?u64_id by lia; [lia|intros k; specialize (H2 k); lia|by intros n [= <-]|].
    intros _ k Hk. specialize (H2 k). lia.
  - apply orb_false_iff in Ec as [-> _]. apply updateLayers_settings in E as [E _].
    simpl. split; [|lia]. by eapply coherent_settings; [| | | |exact Hc].
Qed.
Lemma alter_settings i (ls : list Profile) :
  configPerspective <$> alter (fun p => p <| outdated := true |>) i ls = configPerspective <$> ls.
Proof. revert i. induction ls as [|p ls IH]; intros [|i]; simpl; [done..|]. f_equal. apply IH. Qed.

Lemma coherent_steps n s0 g lp :
  nsteps lpStep n s0 (g, lp) -> coherent s0.1 s0.2 -> RevisionCounter s0.2 + Z.of_nat n < 2 ^ 64 ->
  coherent g lp /\ RevisionCounter lp <= RevisionCounter s0.2 + Z.of_nat n.
Proof.
  remember (g, lp) as s eqn:Es. intros Hs. revert g lp Es.
  induction Hs as [s|n s1 s2 s3 Hstep Hs IH]; intros g lp -> Hc Hb; [split; [done|simpl; lia]|].
  assert (coherent s2.1 s2.2 /\ RevisionCounter s2.2 <= RevisionCounter s1.2 + 1) as [Hc2 Hb2].
  { destruct Hstep as [g1 g2 lp1 Hg|g1 lp1 i|g1 lp1 fetch|g1 lp1 k|g1 lp1|g1 lp1]; simpl fst; simpl snd in *.
    - split; [|lia]. destruct Hc as [H1 H2 H3 H4]. simpl in *. split; try done.
      + intros m Hm. specialize (H3 m Hm). lia.
      + intros Hm. specialize (H3 _ Hm). lia.
    - split; [|simpl; lia]. eapply coherent_settings; [| | | |exact Hc]; try done. apply alter_settings.
    - apply coherent_update; [done|lia].
    - split; [by apply coherent_read|]. unfold wrapBoolOption. destruct (refresh _ _ _ _). simpl. lia.
    - unfold wrapStringOption. destruct (refresh _ _ _ _). split; [|simpl; lia].
      by eapply coherent_settings; [| | | |exact Hc].
    - unfold wrapIntOption. destruct (refresh _ _ _ _). split; [|simpl; lia].
      by eapply coherent_settings; [| | | |exact Hc]. }
  destruct (IH g lp eq_refl Hc2 ltac:(lia)) as [Hc3 Hb3]. split; [done|lia].
Qed.
Lemma coherent_new g p : coherent g (NewLayeredProfile p).
Proof. split; simpl; try done; lia. Qed.

(** C30. Options are current: after any history of a layered profile (config
    changes, outdated layers, updates and reads of options in any order), when no
    update is needed every option has the value of the first layer that sets it,
    else the value of the present global configuration. *)
Theorem options_current n g0 p g lp k :
  nsteps lpStep n (g0, NewLayeredProfile p) (g, lp) -> Z.of_nat n < 2 ^ 64 - 1 ->
  NeedsUpdate g lp = false -> (wrapBoolOption g k lp).1 = effective g k lp.
Proof.
  intros Hs Hn Hu. destruct (coherent_steps _ _ _ _ Hs) as [Hc _]; [apply coherent_new|simpl; lia|].
  apply read_value; [done|]. unfold NeedsUpdate, IsValid in Hu. apply orb_false_iff in Hu as [Hu _].
  by apply negb_false_iff, bool_decide_eq_true in Hu.
Qed.

Lemma updateLayers_fresh fetch i ls changed local :
  (forall id, exists p, fetch id = inl p /\ outdated p = false) ->
  existsb outdated (updateLayers fetch i ls changed local).1.1 = false.
Proof.
  intros Hf. revert i changed local. induction ls as [|p ls IH]; intros i changed local; [done|].
  cbn [updateLayers]. destruct (outdated p) eqn:Eo.
  - destruct (negb _).
    + match goal with |- context [updateLayers ?a ?b ?c ?d ?e] => pose proof (IH b d e) as IH'; destruct (updateLayers a b c d e) as [[ls1 c1] l1] end.
      done.
    + destruct (Hf (ID p)) as (p' & -> & Ho).
      match goal with |- context [updateLayers ?a ?b ?c ?d ?e] => pose proof (IH b d e) as IH'; destruct (updateLayers a b c d e) as [[ls1 c1] l1] end.
      simpl in *. by rewrite Ho.
  - match goal with |- context [updateLayers ?a ?b ?c ?d ?e] => pose proof (IH b d e) as IH'; destruct (updateLayers a b c d e) as [[ls1 c1] l1] end.
    simpl in *. by rewrite Eo.
Qed.
(** An update that can fetch the outdated profiles leaves nothing to update. *)
Theorem update_settles g fetch lp :
  (forall id, exists p, fetch id = inl p /\ outdated p = false) ->
  NeedsUpdate g (Update g fetch lp).2 = false.
Proof.
  intros Hf. unfold Update. pose proof (updateLayers_fresh fetch 0 (layers lp) false (localProfile lp) Hf) as Hl.
  destruct (updateLayers fetch 0 (layers lp) false (localProfile lp)) as [[ls ch] local]. simpl in Hl.
  cbn [globalValidityFlag set_field]. destruct (ch || _) eqn:Ec; unfold NeedsUpdate; simpl; rewrite Hl, orb_false_r.
  - unfold IsValid. by rewrite bool_decide_true.
  - by apply orb_false_iff in Ec as [_ ->].
Qed.

(** ** Rules *)
Lemma IsDecision_spec r : IsDecision r = negb (bool_decide (r = NoMatch)).
Proof. by destruct r. Qed.
Lemma firstDecision_app l1 l2 : firstDecision (l1 ++ l2) =
  if IsDecision (firstDecision l1) then firstDecision l1 else firstDecision l2.
Proof.
  induction l1 as [|r l1 IH]; [done|]. rewrite <- app_comm_cons, !firstDecision_cons, IH.
  case_bool_decide as Hr; [done|]. rewrite IsDecision_spec. by rewrite bool_decide_false.
Qed.

Section rules.
Context `{IntelEnv}.
Lemma matchLayers_ok sel ls global e :
  (forall a err, geoipGetLocation a = inr err -> err <> []) -> (forall ks, mapOrder ks ≡ₚ ks) ->
  ready e -> exists v e', matchLayers sel ls global e = Ret (v, e') /\
    v.1 = firstDecision ((fun ep => specMatches ep e) <$> omap id (concat (sel <$> ls) ++ global)) /\
    reasoned v /\ facts e' = facts e /\ ready e'.
Proof.
  intros Herr Hord. revert e. induction ls as [|p ls IH]; intros e Hr; [by apply Match_ok|].
  cbn [matchLayers]. rewrite fmap_cons. cbn [concat]. rewrite <- app_assoc, omap_app, fmap_app, firstDecision_app.
  destruct (EndpointsIsSet (sel p)) eqn:Es.
  - destruct (Match_ok (sel p) e Herr Hord Hr) as (v & e1 & Hm & Hv & Hrs & Hf & Hr1).
    rewrite Hm. cbn [mbind outcome_bind]. rewrite <- Hv. destruct (IsDecision v.1); [by exists v, e1|].
    destruct (IH e1 Hr1) as (v2 & e2 & Hm2 & Hv2 & Hrs2 & Hf2 & Hr2). exists v2, e2.
    split; [done|]. split; [|split; [done|split; [congruence|done]]]. rewrite Hv2. f_equal.
    apply list_fmap_ext. intros i x _. by apply facts_specMatches.
  - unfold EndpointsIsSet in Es. apply negb_false_iff, bool_decide_eq_true in Es. rewrite Es. by apply IH.
Qed.
End rules.

(** The rules of the layers and the global rules act as one list: the first
    rule of their concatenation that applies decides, for outgoing and (with
    reverse resolving enabled) for incoming connections. *)
Theorem layered_rules_spec `{IntelEnv} g lp ip proto port domain cname dst ops :
  let e := foldl (fun e o => entityExec o e) (EntityInit dst (newEntity ip proto port domain cname)) ops in
  (forall a err, geoipGetLocation a = inr err -> err <> []) -> (forall ks, mapOrder ks ≡ₚ ks) ->
  (exists v e', MatchEndpoint g lp e = Ret (v, e') /\ v.1 = firstDecision
     ((fun ep => specMatches ep e) <$> omap id (concat (endpoints <$> layers lp) ++ cfgEndpoints g))) /\
  (exists v e', MatchServiceEndpoint g lp e = Ret (v, e') /\ v.1 = firstDecision
     ((fun ep => specMatches ep (EnableReverseResolving e)) <$>
        omap id (concat (serviceEndpoints <$> layers lp) ++ cfgServiceEndpoints g))).
Proof.
  intros e Herr Hord. split.
  - destruct (matchLayers_ok endpoints (layers lp) (cfgEndpoints g) e Herr Hord) as (v & e' & H1 & H2 & _);
      [apply ready_ops|by exists v, e'].
  - destruct (matchLayers_ok serviceEndpoints (layers lp) (cfgServiceEndpoints g) (EnableReverseResolving e)
      Herr Hord) as (v & e' & H1 & H2 & _); [|by exists v, e'].
    pose proof (ready_ops ip proto port domain cname dst (ops ++ [OpReverse])) as Hr.
    by rewrite foldl_app in Hr.
Qed.

(** ** Witnesses *)
Module ProfileDemo.
Definition set (k : BoolOption) (b : bool) : Perspective :=
  {[ boolKey k := mkPO OptTypeBool 0 (mkValue [] [] 0 b) ]}.
Definition rule (b : bool) (t : target) : option Endpoint := Some (mkEp (mkBase 0 0 0 b) t).
Definition prof : Profile :=
  mkProfile $"app" SourceLocal false (set BlockP2P true) 0 [rule false (EndpointIP [1; 2; 3; 4])] []
    false [] [] [] [] false 0.
Definition cfg (gen : Z) (b : bool) : Cfg := {|
  generation := gen; releaseLevel := 0; globalBool := fun _ => b;
  globalRoutingAlgorithm := []; globalKeepHistory := 30; cfgDefaultAction := DefaultActionPermit;
  cfgEndpoints := [rule true EndpointAny]; cfgServiceEndpoints := [rule false EndpointAny];
  cfgSPNUsagePolicy := []; cfgSPNTransitHubPolicy := []; cfgSPNExitHubPolicy := []; cfgFilterLists := [];
|}.
Definition fetch (id : str) : result Profile := inl prof.
(** Read, change of the configuration, update, read. *)
Definition lp0 : LayeredProfile := NewLayeredProfile prof.
Definition lp1 : LayeredProfile := (wrapBoolOption (cfg 1 false) BlockScopeLAN lp0).2.
Definition lp2 : LayeredProfile := (Update (cfg 2 true) fetch lp1).2.
Definition lp3 : LayeredProfile := (wrapBoolOption (cfg 2 true) UseSPN lp2).2.
Lemma history : nsteps lpStep 4 (cfg 1 false, lp0) (cfg 2 true, lp3).
Proof.
  eapply nsteps_l; [apply (StepRead _ _ BlockScopeLAN)|].
  eapply nsteps_l; [apply (StepConfig (cfg 1 false) (cfg 2 true)); reflexivity|].
  eapply nsteps_l; [apply (StepUpdate _ _ fetch)|].
  eapply nsteps_l; [apply (StepRead _ _ UseSPN)|]. apply nsteps_O.
Defined.
End ProfileDemo.

Lemma options_current_witness :
  let read k := (wrapBoolOption (ProfileDemo.cfg 2 true) k ProfileDemo.lp3).1 in
  read BlockScopeLAN = true /\ read BlockP2P = true /\
  read BlockScopeLAN = effective (ProfileDemo.cfg 2 true) BlockScopeLAN ProfileDemo.lp3.
Proof.
  split; [vm_compute; reflexivity|]. split; [vm_compute; reflexivity|].
  apply (options_current 4 _ _ _ _ BlockScopeLAN ProfileDemo.history); vm_compute; reflexivity.
Defined.
Lemma update_settles_witness :
  NeedsUpdate (ProfileDemo.cfg 2 true) ProfileDemo.lp1 = true /\
  NeedsUpdate (ProfileDemo.cfg 2 true) (Update (ProfileDemo.cfg 2 true) ProfileDemo.fetch ProfileDemo.lp1).2 = false.
Proof.
  split; [vm_compute; reflexivity|]. apply update_settles. intros id. exists ProfileDemo.prof. split; reflexivity.
Defined.
Lemma layered_rules_spec_witness :
  exists v e', MatchEndpoint (H := Demo.env) (ProfileDemo.cfg 2 true) ProfileDemo.lp3 Demo.loaded = Ret (v, e') /\
    v.1 = Denied.
Proof.
  destruct (proj1 (layered_rules_spec (H := Demo.env) (ProfileDemo.cfg 2 true) ProfileDemo.lp3
    (Some [1; 2; 3; 4]) 6 443 $"x.ads.example." [] 0 Demo.ops
    demo_errors (fun ks => Permutation_refl ks))) as (v & e' & H1 & H2).
  exists v, e'. split; [exact H1|]. rewrite H2. vm_compute. reflexivity.
Defined.
