(* ===== verification/Connection.v ===== *)
(** * Connections (service/network)

    The part of a [Connection] the firewall decides on, the verdicts
    ([status.go]), the operations that set a verdict ([connection.go]), the
    process facts they use ([service/process/process.go]) and the search for the
    request a multicast response belongs to ([multicast.go]).  A connection points
    to its process and the process to its layered profile; the model nests them. *)

From S2P Require Import Prelude GoStrings GoText GoNet NetUtils Entity Endpoints Profile.

(** ** Verdicts *)
Inductive Verdict :=
| VerdictUndecided | VerdictUndeterminable | VerdictAccept | VerdictBlock | VerdictDrop
| VerdictRerouteToNameserver | VerdictRerouteToTunnel | VerdictFailed.
#[export] Instance Verdict_eq_dec : EqDecision Verdict.
Proof. solve_decision. Defined.
Definition VerdictString (v : Verdict) : str :=
  match v with
  | VerdictUndecided => $"<Undecided>" | VerdictUndeterminable => $"<Undeterminable>"
  | VerdictAccept => $"Accept" | VerdictBlock => $"Block" | VerdictDrop => $"Drop"
  | VerdictRerouteToNameserver => $"RerouteToNameserver"
  | VerdictRerouteToTunnel => $"RerouteToTunnel" | VerdictFailed => $"Failed"
  end.
Definition Verb (v : Verdict) : str :=
  match v with
  | VerdictUndecided => $"undecided" | VerdictUndeterminable => $"undeterminable"
  | VerdictAccept => $"accepted" | VerdictBlock => $"blocked" | VerdictDrop => $"dropped"
  | VerdictRerouteToNameserver => $"redirected to nameserver"
  | VerdictRerouteToTunnel => $"tunneled" | VerdictFailed => $"failed"
  end.

(** ** Processes *)
Definition UndefinedProcessID : Z := -1.
Definition UnidentifiedProcessID : Z := -2.
Definition UnsolicitedProcessID : Z := -3.

Record Process := mkProcess {
  Pid : Z; Name : str; Path : str; ExecName : str;
  PrimaryProfileID : str;
  profile : option LayeredProfile;
}.
#[export] Instance eta_Process : Eta Process := fun p =>
  mkProcess (Pid p) (Name p) (Path p) (ExecName p) (PrimaryProfileID p) (profile p).

(** The methods on a nil process answer. *)
Definition ProcProfile (p : option Process) : option LayeredProfile := p ≫= profile.
Definition IsIdentified (p : option Process) : bool :=
  match p with
  | None => false
  | Some p => negb (Pid p =? UndefinedProcessID) && negb (Pid p =? UnidentifiedProcessID)
              && negb (Pid p =? UnsolicitedProcessID)
  end.
(** [other.Pid] is not evaluated for a nil process. *)
Definition ProcEqual (p other : option Process) : bool :=
  IsIdentified p && IsIdentified other &&
  match p, other with Some p, Some o => Pid p =? Pid o | _, _ => false end.
Definition systemResolverScopedID : str := $"local/_system-resolver".
Definition IsSystemResolver (p : option Process) : bool :=
  match p with None => false | Some p => eqs (PrimaryProfileID p) systemResolverScopedID end.

(** ** Connections *)
Inductive ConnectionType := UndefinedConnection | IPConnection | DNSRequest.
#[export] Instance ConnectionType_eq_dec : EqDecision ConnectionType.
Proof. solve_decision. Defined.

(** What the context of a verdict's reason holds. *)
Inductive reasonCtx :=
| NoCtx | RuleCtx (r : reason) | ListsCtx (l : list ListMatch) | ResponderCtx (responder : str).
Record Reason := mkReasonInfo { Msg : str; OptionKey : str; RProfile : str; Context : reasonCtx }.
#[export] Instance eta_Reason : Eta Reason := fun r =>
  mkReasonInfo (Msg r) (OptionKey r) (RProfile r) (Context r).

Record Connection := mkConn {
  Type_ : ConnectionType; Scope : str; Inbound : bool; IPProtocol : Z;
  LocalIP : IP; LocalIPScope : IPScope; LocalPort : Z;
  entity : option Entity;
  (** The scope of the resolver the domain was resolved with. *)
  ResolverScope : option IPScope;
  verdict : Verdict; reasonInfo : Reason;
  Ended : Z; Inspecting : bool; Encrypted : bool; Internal : bool; dataComplete : bool;
  process : option Process;
  saveWhenFinished : bool; ProfileRevisionCounter : Z;
}.
#[export] Instance eta_Connection : Eta Connection := fun c =>
  mkConn (Type_ c) (Scope c) (Inbound c) (IPProtocol c) (LocalIP c) (LocalIPScope c) (LocalPort c)
    (entity c) (ResolverScope c) (verdict c) (reasonInfo c) (Ended c) (Inspecting c) (Encrypted c)
    (Internal c) (dataComplete c) (process c) (saveWhenFinished c) (ProfileRevisionCounter c).

Definition SetLocalIP (ip : IP) (c : Connection) : Connection :=
  c <| LocalIP := ip |> <| LocalIPScope := GetIPScope ip |>.
Definition SaveWhenFinished (c : Connection) : Connection := c <| saveWhenFinished := true |>.
Definition SetVerdictDirectly (v : Verdict) (c : Connection) : Connection := c <| verdict := v |>.
Definition VerdictVerb (c : Connection) : str := Verb (verdict c).

(** [conn.Scope] of an IP connection ([GatherConnectionInfo]). *)
Definition connScope (inbound : bool) (scope : IPScope) : str :=
  if inbound then
    match scope with
    | HostLocal => $"IH"
    | LinkLocal | SiteLocal | LocalMulticast => $"IL"
    | Global | GlobalMulticast => $"II"
    | Undefined | Invalid => $"IX"
    end
  else
    match scope with
    | HostLocal => $"PH"
    | LinkLocal | SiteLocal | LocalMulticast => $"PL"
    | Global | GlobalMulticast => $"PI"
    | Undefined | Invalid => $"PX"
    end.

Section verdicts.
Context (g : Cfg).

Definition SetVerdict (v : Verdict) (msg key : str) (ctx : reasonCtx) (c : Connection) : Connection :=
  let c := SetVerdictDirectly v c in
  let c := c <| reasonInfo := mkReasonInfo msg [] [] ctx |> in
  if bool_decide (key = []) then c else
  match ProcProfile (process c) with
  | None => c
  | Some lp => c <| reasonInfo := mkReasonInfo msg key (GetProfileSource g key lp) ctx |>
  end.
Definition AcceptWithContext (msg key : str) (ctx : reasonCtx) (c : Connection) : Connection :=
  SetVerdict VerdictAccept msg key ctx c.
Definition Accept (msg key : str) : Connection -> Connection := AcceptWithContext msg key NoCtx.
Definition BlockWithContext (msg key : str) (ctx : reasonCtx) (c : Connection) : Connection :=
  SetVerdict VerdictBlock msg key ctx c.
Definition Block (msg key : str) : Connection -> Connection := BlockWithContext msg key NoCtx.
Definition DropWithContext (msg key : str) (ctx : reasonCtx) (c : Connection) : Connection :=
  SetVerdict VerdictDrop msg key ctx c.
Definition Drop (msg key : str) : Connection -> Connection := DropWithContext msg key NoCtx.
Definition DenyWithContext (msg key : str) (ctx : reasonCtx) (c : Connection) : Connection :=
  if Inbound c then DropWithContext msg key ctx c else BlockWithContext msg key ctx c.
Definition Deny (msg key : str) : Connection -> Connection := DenyWithContext msg key NoCtx.
Definition FailedWithContext (msg key : str) (ctx : reasonCtx) (c : Connection) : Connection :=
  SetVerdict VerdictFailed msg key ctx c.
Definition Failed (msg key : str) : Connection -> Connection := FailedWithContext msg key NoCtx.
End verdicts.

(** ** Multicast and broadcast requests *)

(** An entity's IP as the byte slice it is, nil without one. *)
Definition ipBytes (e : Entity) : IP := default [] (EIP e).

(** The search through the connections, in the order of iteration.  A complete
    connection without an entity would be a nil dereference. *)
Fixpoint findRequest (conns : list Connection) (resp : Connection) (respE : Entity)
    (net : IPNet) (bcast : option IP) : outcome str (option (Connection * Entity)) :=
  match conns with
  | [] => Ret None
  | c :: conns =>
      let next := findRequest conns resp respE net bcast in
      if negb (dataComplete c) then next
      else if Inbound c then next
      else if negb (Ended c =? 0) then next
      else match entity c with
      | None => Panic
      | Some e =>
          if negb (Protocol e =? Protocol respE) then next
          else if negb (LocalPort c =? LocalPort resp) then next
          else if negb (IPEqual (LocalIP c) (LocalIP resp)) then next
          else if negb (ProcEqual (process c) (process resp)) then next
          else if bool_decide (EIPScope e = LocalMulticast) &&
                  (bool_decide (EIPScope respE = LinkLocal) || bool_decide (EIPScope respE = SiteLocal))
          then Ret (Some (c, e))
          else if IPEqual (ipBytes e) (default [] bcast) && NetContains net (LocalIP c)
          then Ret (Some (c, e))
          else next
      end
  end.
(** [conns]: the active connections in the order of iteration. *)
Definition GetMulticastRequestConn (conns : list Connection) (resp : Connection) (respE : Entity)
    (net : IPNet) : outcome str (option (Connection * Entity)) :=
  findRequest conns resp respE net (GetBroadcastAddress (netIP net) (netMask net)).
