(* ===== verification/Firewall.v ===== *)
(** * The privacy filter (service/firewall)

    [decideOnConnection] runs the deciders of [master.go] one after the other until
    one sets a verdict, else applies the default action.  Deciders run in the monad
    [M]: they change the connection (with the entity, the process and the layered
    profile it points to), and panic where the Go code would.  What they ask other
    parts of the system is the environment [FirewallEnv]. *)

From S2P Require Import Prelude GoStrings GoText GoNet NetUtils Reference Entity Endpoints Profile Connection.

(** ** Environment *)

(** How a prompt ends ([prompt.go]): nothing to do, an answer given earlier, an
    answer while waiting, the time ran out, or the program shuts down. *)
Inductive promptEvent :=
| PromptNone | PromptAnswered (action : str) | PromptResponse (action : str) | PromptTimeout | PromptShutdown.

Class FirewallEnv := {
  ownPID : Z;
  IsMyIP : option IP -> result bool;
  GetLocalNetwork : option IP -> result (option IPNet);
  (** The active connections in the order the map is iterated. *)
  activeConns : list Connection;
  GetOnlineStatus : Z;
  IsConnectivityDomain : str -> bool;
  GetUnbreakFilterListIDs : list str;
  customListsLoaded : bool;
  customLookupDomain : str -> bool -> option str;
  customLookupIP : IP -> bool;
  customLookupASN : Z -> bool;
  customLookupCountry : str -> bool;
  EffectiveTLDPlusOne : str -> result str;
  (** Whether the (floating point) score of a name is below a number. *)
  LmsScoreBelow : str -> Z -> bool;
  LmsScoreOfDomainBelow : str -> Z -> bool;
  (** [levenshtein.Match] gives more than 0.5. *)
  levenshteinClose : str -> str -> bool;
  ResolverIsDisabled : bool;
  (** How a prompt for the connection ends. *)
  prompted : promptEvent;
  (** [GetLocalProfile] for the process of the connection. *)
  fetchProfile : str -> result Profile;
}.

(** ** The monad of the deciders *)
Definition M (A : Type) := Connection -> outcome str (A * Connection).
#[export] Instance M_ret : MRet M := fun A a c => Ret (a, c).
#[export] Instance M_bind : MBind M := fun A B f m c =>
  match m c with Ret (a, c) => f a c | Err e => Err e | Panic => Panic end.

Definition get : M Connection := fun c => Ret (c, c).
Definition modify (f : Connection -> Connection) : M unit := fun c => Ret (tt, f c).
Definition panic {A} : M A := fun _ => Panic.
(** A nil pointer is dereferenced. *)
Definition deref {A} (o : option A) : M A := match o with Some a => mret a | None => panic end.

(** A call that only depends on its arguments. *)
Definition call {A} (o : outcome str A) : M A := fun c =>
  match o with Ret a => Ret (a, c) | Err e => Err e | Panic => Panic end.

Definition getEntity : M Entity := c ← get; deref (entity c).
Definition setEntity (e : Entity) : M unit := modify (fun c => c <| entity := Some e |>).
Definition getProcess : M Process := c ← get; deref (process c).
Definition getLP : M LayeredProfile := c ← get; deref (ProcProfile (process c)).
Definition setLP (lp : LayeredProfile) : M unit :=
  modify (fun c => c <| process ::= fmap (fun p => p <| profile := Some lp |>) |>).

(** ** Constants *)
Definition noReasonOptionKey : str := [].
Definition CfgOptionCustomListFileKey : str := $"filter/customListFile".
Definition p2pFilterLists : list str := [$"17-P2P"].
Definition resolverFilterLists : list str := [$"17-DNS"].
Definition StatusPortal : Z := 3.
Definition ICMP : Z := 1.
Definition ICMPv6 : Z := 58.
Definition UDP : Z := 17.

(** [packet.IPProtocol.String] *)
Definition IPProtocolString (p : Z) : str :=
  if p =? 255 then $"RAW" else if p =? 6 then $"TCP" else if p =? 17 then $"UDP"
  else if p =? 136 then $"UDPLite" else if p =? 1 then $"ICMP" else if p =? 58 then $"ICMPv6"
  else if p =? 2 then $"IGMP" else $"<unknown protocol, " ++ Itoa p ++ $">".
(** [ListMatch.String], [ListBlockReason.String] *)
Definition ListMatchString (lm : ListMatch) : str :=
  LMEntity lm ++ $" in activated lists " ++ Join (ActiveLists lm) $"," ++
  match InactiveLists lm with
  | [] => []
  | l => $" and in deactivated lists " ++ Join l $", "
  end.
Definition ListBlockReasonString (br : list ListMatch) : str := Join (ListMatchString <$> br) $" and ".

Section firewall.
Context {IE : IntelEnv} {UT : UnicodeTables} {FE : FirewallEnv} (g : Cfg).

Definition option_ (k : BoolOption) : M bool :=
  lp ← getLP; let '(v, lp) := wrapBoolOption g k lp in setLP lp ;; mret v.
(** Entity methods. *)
Definition matchListsM (lists : list str) : M bool :=
  e ← getEntity; let '(b, e) := MatchLists lists e in setEntity e ;; mret b.
(** Runs the rules on the entity. *)
Definition matchRules (f : LayeredProfile -> Entity -> outcome str (Endpoints.verdict * Entity)) : M Endpoints.verdict :=
  lp ← getLP; e ← getEntity;
  '(v, e) ← call (f lp e); setEntity e ;; mret v.

Definition Accept_ (msg key : str) : M unit := modify (Accept g msg key).
Definition Block_ (msg key : str) : M unit := modify (Block g msg key).
Definition Drop_ (msg key : str) : M unit := modify (Drop g msg key).
Definition Deny_ (msg key : str) : M unit := modify (Deny g msg key).

(** ** Deciders *)
Definition checkPortmasterConnection : M bool :=
  p ← getProcess;
  if negb (Pid p =? ownPID) then mret false else
  c ← get;
  grant ← (if Inbound c then
             e ← getEntity;
             mret (match IsMyIP (EIP e) with inl myIP => myIP | inr _ => false end)
           else mret true);
  if negb grant then mret false else
  Accept_ $"connection by Portmaster" noReasonOptionKey ;;
  modify (fun c => c <| Internal := true |>) ;;
  mret true.

Definition checkIfBroadcastReply : M bool :=
  c ← get;
  if negb (Inbound c) then mret false
  else if negb (IsIdentified (process c)) then mret false
  else
    e ← getEntity;
    match GetLocalNetwork (EIP e) with
    | inr _ | inl None => mret false
    | inl (Some localNet) =>
        requestingConn ← call (GetMulticastRequestConn activeConns c e localNet);
        match requestingConn with
        | None => mret false
        | Some (_, re) =>
            Accept_ ($"response to multi/broadcast query to " ++ IPProtocolString (Protocol re) ++ $"/" ++
              JoinHostPort (IPString (ipBytes re)) (Itoa (EPort re))) [] ;;
            mret true
        end
    end.

(** The verdict for the result of a rule. *)
Definition applyRule (v : Endpoints.verdict) (key : str) : M bool :=
  match v with
  | (NoMatch, _) => mret false
  | ((Denied | MatchError), Some r) => modify (DenyWithContext g (reasonString r) key (RuleCtx r)) ;; mret true
  | (Permitted, Some r) => modify (AcceptWithContext g (reasonString r) key (RuleCtx r)) ;; mret true
  | (_, None) => panic
  end.
Definition checkEndpointListsForSystemResolverDNSRequests : M bool :=
  lp ← getLP;
  p ← deref (localProfile lp);
  c ← get;
  let profileEndpoints := if Inbound c then GetServiceEndpoints p else GetEndpoints p in
  let optionKey := if Inbound c then CfgOptionServiceEndpointsKey else CfgOptionEndpointsKey in
  if EndpointsIsSet profileEndpoints then
    v ← matchRules (fun _ => Match profileEndpoints);
    if IsDecision v.1 then applyRule v optionKey else mret false
  else mret false.
Definition checkEndpointLists : M bool :=
  c ← get;
  if bool_decide (Type_ c = DNSRequest) && IsSystemResolver (process c)
  then checkEndpointListsForSystemResolverDNSRequests
  else if Inbound c then
    v ← matchRules (MatchServiceEndpoint g); applyRule v CfgOptionServiceEndpointsKey
  else
    v ← matchRules (MatchEndpoint g); applyRule v CfgOptionEndpointsKey.

Definition checkConnectionType : M bool :=
  blockInbound ← option_ BlockInbound;
  c ← get;
  e ← (if blockInbound && Inbound c then getEntity ≫= fun e => mret (Some e) else mret None);
  if match e with Some e => negb (IsLocalhost (EIPScope e)) | None => false end then
    Drop_ $"inbound connections blocked" (boolKey BlockInbound) ;; mret true
  else
  blockP2P ← option_ BlockP2P;
  if blockP2P && negb (Inbound c) then
    onList ← matchListsM p2pFilterLists;
    if onList : bool then
      Block_ $"P2P assistive infrastructure blocked based on filter list" (boolKey BlockP2P) ;; mret true
    else if negb (bool_decide (Type_ c = IPConnection)) then mret false
    else
    e ← getEntity;
    if (DstPort e =? 3478) || (DstPort e =? 5349) then
      Block_ $"P2P assistive infrastructure blocked based on port" (boolKey BlockP2P) ;; mret true
    else if IsGlobal (EIPScope e) && bool_decide (Domain e = []) then
      Block_ $"direct connections (P2P) blocked" (boolKey BlockP2P) ;; mret true
    else mret false
  else mret false.

Definition checkConnectivityDomain : M bool :=
  e ← getEntity;
  if bool_decide (Domain e = []) then mret false
  else if StatusPortal <? GetOnlineStatus then mret false
  else
    c ← get;
    if Inbound c then mret false else
    blockInternet ← option_ BlockScopeInternet;
    if blockInternet : bool then mret false
    else if IsConnectivityDomain (Domain e) then
      Accept_ $"special grant for connectivity domain during network bootstrap" noReasonOptionKey ;; mret true
    else mret false.

Definition checkConnectionScope : M bool :=
  c ← get;
  if bool_decide (Type_ c = DNSRequest) then
    (* [&&] evaluates the second option only if the first is set. *)
    blockInternet ← option_ BlockScopeInternet;
    both ← (if blockInternet : bool then option_ BlockScopeLAN else mret false);
    if both : bool then Block_ $"Internet and LAN access blocked" (boolKey BlockScopeInternet) ;; mret true
    else mret false
  else
  e ← getEntity;
  match EIPScope e with
  | Global | GlobalMulticast =>
      b ← option_ BlockScopeInternet;
      if b : bool then Deny_ $"Internet access blocked" (boolKey BlockScopeInternet) ;; mret true else mret false
  | SiteLocal | LinkLocal | LocalMulticast =>
      b ← option_ BlockScopeLAN;
      if b : bool then Block_ $"LAN access blocked" (boolKey BlockScopeLAN) ;; mret true else mret false
  | HostLocal =>
      b ← option_ BlockScopeLocal;
      if b : bool then Block_ $"Localhost access blocked" (boolKey BlockScopeLocal) ;; mret true else mret false
  | Undefined | Invalid => mret false
  end.

Definition checkInvalidIP : M bool :=
  c ← get;
  if negb (bool_decide (Type_ c = IPConnection)) then mret false else
  e ← getEntity;
  match EIPScope e with
  | Undefined | Invalid => Deny_ $"invalid IP" noReasonOptionKey ;; mret true
  | _ => mret false
  end.

Definition looksLikeOutgoingDNSRequest (c : Connection) (e : Entity) : bool :=
  negb (Inbound c) && (EPort e =? 53) && (IPProtocol c =? UDP).

(** The result, its reason and the responder of the blocked query. *)
Definition PreventBypassing : M (EPResult * str * reasonCtx) :=
  c ← get;
  if Inbound c then mret (NoMatch, [], NoCtx) else
  e ← getEntity;
  if (Protocol e =? ICMP) || (Protocol e =? ICMPv6) then mret (NoMatch, [], NoCtx)
  else if eqs (ToLower (Domain e)) $"use-application-dns.net." then
    mret (Denied, $"blocked canary domain to prevent enabling of DNS-over-HTTPs", ResponderCtx $"nxdomain")
  else if bool_decide (Type_ c = DNSRequest) && IsSystemResolver (process c) then mret (NoMatch, [], NoCtx)
  else if ResolverIsDisabled &&
          (IsSystemResolver (process c) || ((EPort e =? 53) && IsLocalhost (EIPScope e)))
  then mret (NoMatch, [], NoCtx)
  else if looksLikeOutgoingDNSRequest c e && ResolverIsDisabled then
    modify (fun c => c <| Inspecting := true |>) ;; mret (NoMatch, [], NoCtx)
  else if EPort e =? 53 then
    mret (Denied, $"blocked DNS query, manual dns setup required", ResponderCtx $"blockip")
  else
    rogue ← (if EPort e =? 853 then mret true else matchListsM resolverFilterLists);
    if rogue : bool then
      mret (Denied, $"blocked rogue connection to DNS resolver", ResponderCtx $"blockip")
    else mret (NoMatch, [], NoCtx).
Definition checkBypassPrevention : M bool :=
  prevent ← option_ Profile.PreventBypassing;
  if prevent : bool then
    '(result, reason, ctx) ← PreventBypassing;
    match result with
    | Denied | MatchError =>
        modify (BlockWithContext g ($"bypass prevention: " ++ reason) (boolKey Profile.PreventBypassing) ctx) ;; mret true
    | Permitted =>
        modify (AcceptWithContext g ($"bypass prevention: " ++ reason) (boolKey Profile.PreventBypassing) ctx) ;; mret true
    | NoMatch => mret false
    end
  else mret false.

(** [GetUnbreakFilterListIDs] lifts a block when one of the matched lists is on
    it. *)
Definition checkFilterLists : M bool :=
  lp ← getLP; e ← getEntity;
  let '(result, reason, e, lp) := MatchFilterLists g lp e in
  setLP lp ;; setEntity e ;;
  match result with
  | Denied =>
      if existsb (fun blocked => existsb (eqs blocked) GetUnbreakFilterListIDs) (BlockedByLists e) then mret false
      else
        modify (DenyWithContext g (ListBlockReasonString reason) CfgOptionFilterListsKey (ListsCtx reason)) ;;
        mret true
  | NoMatch | Permitted | MatchError => mret false
  end.

Definition checkResolverScope : M bool :=
  c ← get;
  if negb (bool_decide (Type_ c = IPConnection)) then mret false else
  remove ← option_ RemoveOutOfScopeDNS;
  if negb remove then mret false else
  match ResolverScope c with
  | None => mret false
  | Some rs =>
      e ← getEntity;
      if IsGlobal rs && (IsLAN (EIPScope e) || IsLocalhost (EIPScope e)) then
        Block_ $"DNS server horizon violation: global DNS server returned local IP address"
          (boolKey RemoveOutOfScopeDNS) ;; mret true
      else if IsLAN rs && IsLocalhost (EIPScope e) then
        Block_ $"DNS server horizon violation: LAN DNS server returned localhost IP address"
          (boolKey RemoveOutOfScopeDNS) ;; mret true
      else mret false
  end.

(** [strings.TrimRight(s, ".")] *)
Definition TrimRightDots (s : str) : str :=
  reverse ((fix go (s : str) : str := match s with c :: s' => if oneOf $"." c then go s' else s | [] => [] end)
             (reverse s)).
Definition checkDomainHeuristics : M bool :=
  e ← getEntity;
  if bool_decide (Domain e = []) then mret false else
  heuristics ← option_ DomainHeuristics;
  if negb heuristics then mret false else
  let trimmedDomain := TrimRightDots (Domain e) in
  match EffectiveTLDPlusOne trimmedDomain with
  | inr _ => mret false
  | inl etld1 =>
      if LmsScoreBelow (default [] (head (Split etld1 "."))) 5 then
        Block_ $"possible DGA domain commonly used by malware" (boolKey DomainHeuristics) ;; mret true
      else if (length etld1 + 100 <? length (Domain e))%nat &&
              LmsScoreOfDomainBelow (take (length etld1) trimmedDomain) 10 then
        Block_ $"possible data tunnel for covert communication and protection bypassing"
          (boolKey DomainHeuristics) ;; mret true
      else mret false
  end.

(** The first pair of a domain element and a process name that are close. *)
Definition relatedPair (domain path name execName : str) : option (str * str) :=
  let pathElements := Split path "/" in
  let pathElements := if (2 <? length pathElements)%nat then drop (length pathElements - 2) pathElements
                      else pathElements in
  first_some (fun d =>
    match first_some (fun p => if levenshteinClose d p then Some p else None)
                     (pathElements ++ [name; execName]) with
    | Some p => Some (d, p)
    | None => None
    end) (Split domain ".").
Definition checkRelation : M (bool * str) :=
  e ← getEntity;
  if bool_decide (Domain e = []) then mret (false, []) else
  p ← getProcess;
  if Pid p <? 0 then mret (false, []) else
  mret match relatedPair (Domain e) (Path p) (Name p) (ExecName p) with
       | Some (d, x) => (true, $"auto allowed: domain is related to process: " ++ d ++ $" is related to " ++ x)
       | None => (false, [])
       end.
Definition checkAutoPermitRelated : M bool :=
  lp ← getLP;
  if DefaultAction g lp =? DefaultActionPermit then mret false else
  disabled ← option_ DisableAutoPermit;
  if disabled : bool then mret false else
  '(related, reason) ← checkRelation;
  if related : bool then Accept_ reason (boolKey DisableAutoPermit) ;; mret true else mret false.

Definition customDomain (domain : str) : M (option str) :=
  sub ← option_ FilterSubDomains; mret (customLookupDomain domain sub).
Fixpoint customCNAMEs (cnames : list str) : M bool :=
  match cnames with
  | [] => mret false
  | cname :: cnames =>
      m ← customDomain cname;
      match m with
      | Some match_ =>
          Deny_ ($"domain alias (CNAME) " ++ cname ++ $" matches " ++ match_ ++ $" in custom filter list")
            CfgOptionCustomListFileKey ;; mret true
      | None => customCNAMEs cnames
      end
  end.
Definition checkCustomFilterList : M bool :=
  if negb customListsLoaded then mret false else
  e ← getEntity;
  m ← (if bool_decide (Domain e = []) then mret None else customDomain (Domain e));
  match m with
  | Some match_ =>
      Deny_ ($"domain " ++ Domain e ++ $" matches " ++ match_ ++ $" in custom filter list")
        CfgOptionCustomListFileKey ;; mret true
  | None =>
  cnames ← option_ FilterCNAMEs;
  byCNAME ← (if cnames : bool then customCNAMEs (CNAME e) else mret false);
  if byCNAME : bool then mret true
  else if match EIP e with Some ip => customLookupIP ip | None => false end then
    Deny_ $"IP address is in the custom filter list" CfgOptionCustomListFileKey ;; mret true
  else if negb (ASN e =? 0) && customLookupASN (ASN e) then
    Deny_ $"AS is in the custom filter list" CfgOptionCustomListFileKey ;; mret true
  else if negb (bool_decide (Country e = [])) && customLookupCountry (Country e) then
    Deny_ $"country is in the custom filter list" CfgOptionCustomListFileKey ;; mret true
  else mret false
  end.

(** ** Decision *)
Definition defaultDeciders : list (M bool) :=
  [checkPortmasterConnection; checkIfBroadcastReply; checkConnectionType; checkConnectionScope;
   checkEndpointLists; checkInvalidIP; checkResolverScope; checkConnectivityDomain;
   checkBypassPrevention; checkFilterLists; checkCustomFilterList; checkDomainHeuristics;
   checkAutoPermitRelated].

(** [(true, _)]: a decider has decided; else the default action. *)
Fixpoint runDeciders (deciders : list (M bool)) : M (bool * Z) :=
  match deciders with
  | [] => lp ← getLP; mret (false, DefaultAction g lp)
  | decider :: deciders =>
      done ← decider;
      if done : bool then mret (true, DefaultActionNotSet) else runDeciders deciders
  end.

Definition isAllow (action : str) : bool :=
  bool_decide (action ∈ [$"allow-domain-all"; $"allow-domain-distinct"; $"allow-ip"; $"allow-serving-ip"]).
Definition prompt : M unit :=
  match prompted with
  | PromptNone => mret tt
  | PromptAnswered action =>
      if isAllow action then Accept_ $"allowed via prompt" CfgOptionEndpointsKey
      else Deny_ $"blocked via prompt" CfgOptionEndpointsKey
  | PromptResponse action =>
      if isAllow action then Accept_ $"allowed via prompt" CfgOptionEndpointsKey
      else if bool_decide (action = []) then
        Deny_ $"prompting canceled, waiting for new decision" CfgOptionDefaultActionKey
      else Deny_ $"blocked via prompt" CfgOptionEndpointsKey
  | PromptTimeout => Deny_ $"prompting in progress, please respond to prompt" CfgOptionDefaultActionKey
  | PromptShutdown => Drop_ $"shutting down" noReasonOptionKey
  end.

(** The layered profile is updated if needed, and the revision noted. *)
Definition updateProfile (lp : LayeredProfile) : M unit :=
  c ← get;
  if NeedsUpdate g lp then
    let '(rev, lp) := Update g (fetchProfile) lp in
    setLP lp ;;
    modify (fun c => c <| ProfileRevisionCounter := rev |>) ;;
    modify SaveWhenFinished ;;
    modify (fun c => c <| entity ::= fmap ResetLists |>)
  else if ProfileRevisionCounter c =? RevisionCounter lp then mret tt
  else
    modify (fun c => c <| ProfileRevisionCounter := RevisionCounter lp |>) ;;
    modify SaveWhenFinished.
(** The entity is prepared and its filter lists are loaded. *)
Definition prepareEntity : M unit :=
  sub ← option_ FilterSubDomains;
  e ← getEntity; setEntity (ResolveSubDomainLists sub e) ;;
  cnames ← option_ FilterCNAMEs;
  e ← getEntity; setEntity (EnableCNAMECheck cnames e) ;;
  e ← getEntity; setEntity (LoadLists e).

Definition concludeDecision (done : bool) (action : Z) : M unit :=
  if done then mret tt else
  c ← get;
  if bool_decide (Type_ c = DNSRequest) then Accept_ $"allowing dns request" noReasonOptionKey
  else if action =? DefaultActionPermit then Accept_ $"allowed by default action" CfgOptionDefaultActionKey
  else if action =? DefaultActionAsk then
    if bool_decide (verdict c = VerdictUndecided) then prompt else mret tt
  else Deny_ $"blocked by default action" CfgOptionDefaultActionKey.

Definition decideOnConnection : M unit :=
  c ← get;
  match ProcProfile (process c) with
  | None => Deny_ $"unknown process or profile" noReasonOptionKey
  | Some lp =>
      updateProfile lp ;;
      prepareEntity ;;
      '(done, action) ← runDeciders defaultDeciders;
      concludeDecision done action
  end.
End firewall.

(** ** Pre-authenticated ports (preauth.go) *)
Definition generateLocalPreAuthKey (protocol port : Z) : str := Itoa protocol ++ $":" ++ Itoa port.
(** [unused]: the result of [GetUnusedLocalPort]. *)
Definition GetPermittedPort (unused : option Z) (protocol : Z) (ports : gset str) : Z * gset str :=
  match unused with
  | None => (0, ports)
  | Some port => (port, {[generateLocalPreAuthKey protocol port]} ∪ ports)
  end.
Definition localPortIsPreAuthenticated (protocol port : Z) (ports : gset str) : bool * gset str :=
  let key := generateLocalPreAuthKey protocol port in
  if bool_decide (key ∈ ports) then (true, ports ∖ {[key]}) else (false, ports).
