(* ===== verification/EntityView.v ===== *)
(** * What the filter reads of an entity

    Rules and filter lists load data into the entity they are matched against.
    [reads] is the relation between an entity before and after such reading; it
    keeps what the filter decides on ([entView]) once the location was fetched. *)

From S2P Require Import Prelude GoStrings GoText GoNet NetUtils Entity EntityFacts Endpoints EndpointMatch.
From S2P Require Import Profile ProfileFacts.

Section view.
Context `{IntelEnv}.

Inductive readStep (e : Entity) : Entity -> Prop :=
| ReadLocation : readStep e (getLocation e)
| ReadLists lists : readStep e (MatchLists lists e).2
| ReadDomain : readStep e (GetDomain true e).2.
Definition reads : Entity -> Entity -> Prop := rtc readStep.
Lemma reads_refl e : reads e e.
Proof. apply rtc_refl. Qed.
Lemma reads_once e e' : readStep e e' -> reads e e'.
Proof. apply rtc_once. Qed.
Lemma reads_trans e1 e2 e3 : reads e1 e2 -> reads e2 e3 -> reads e1 e3.
Proof. intros H1 H2. by etrans. Qed.

(** ** Matching only reads *)
Lemma countryMatch_reads ep e code name want v e' : countryMatch ep e code name want = Ret (v, e') -> reads e e'.
Proof.
  unfold countryMatch, GetCountryInfo. destruct (EIP e); [|intros [= _ <-]; apply reads_refl].
  destruct (negb (IsGlobal _)); [intros [= _ <-]; apply reads_refl|].
  pose proof (reads_once _ _ (ReadLocation e)) as Hr. set (e1 := getLocation e) in *. cbv zeta.
  destruct (negb (bool_decide _)); cbn [mbind outcome_bind]; [by intros [= _ <-]|].
  destruct (location e1); cbn [mbind outcome_bind]; [|done]. destruct (eqs _ _); by intros [= _ <-].
Qed.
Lemma Matches_reads ep e v e' : Matches ep e = Ret (v, e') -> reads e e'.
Proof.
  unfold Matches. destruct (tgt ep) as [ |ip|n|code|code|asn|scopes|lists ls|orig dom zone mt].
  - intros [= _ <-]. apply reads_refl.
  - unfold EndpointIP_Matches. repeat case_match; intros [= _ <-]; apply reads_refl.
  - unfold EndpointIPRange_Matches. repeat case_match; intros [= _ <-]; apply reads_refl.
  - apply countryMatch_reads.
  - apply countryMatch_reads.
  - unfold EndpointASN_Matches, GetASN. destruct (EIP e); [|intros [= _ <-]; apply reads_refl].
    destruct (negb _); [intros [= _ <-]; apply reads_refl|].
    repeat case_match; intros [= _ <-]; apply reads_once, ReadLocation.
  - unfold EndpointScope_Matches. repeat case_match; intros [= _ <-]; apply reads_refl.
  - unfold EndpointLists_Matches. pose proof (reads_once _ _ (ReadLists e lists)) as Hr.
    destruct (MatchLists lists e) as [b e1]. destruct b; by intros [= _ <-].
  - unfold EndpointDomain_Matches. pose proof (reads_once _ _ (ReadDomain e)) as Hr.
    destruct (GetDomain true e) as [[d|] e1]; [|by intros [= _ <-]].
    repeat case_match; by intros [= _ <-].
Qed.
Lemma Match_reads eps e v e' : Match eps e = Ret (v, e') -> reads e e'.
Proof.
  revert e. induction eps as [|[ep|] eps IH]; intros e; cbn [Match].
  - intros [= _ <-]. apply reads_refl.
  - destruct (Matches ep e) as [[v1 e1]| |] eqn:E; cbn [mbind outcome_bind]; [|done|done].
    apply Matches_reads in E. case_bool_decide; [|by intros [= _ <-]].
    intros Hm. by eapply reads_trans; [|eapply IH].
  - apply IH.
Qed.
Lemma matchLayers_reads sel ls global e v e' : matchLayers sel ls global e = Ret (v, e') -> reads e e'.
Proof.
  revert e. induction ls as [|p ls IH]; intros e; cbn [matchLayers]; [apply Match_reads|].
  destruct (EndpointsIsSet (sel p)); [|apply IH].
  destruct (Match (sel p) e) as [[v1 e1]| |] eqn:E; cbn [mbind outcome_bind]; [|done|done].
  apply Match_reads in E. destruct (IsDecision v1.1); [by intros [= _ <-]|].
  intros Hm. by eapply reads_trans; [|eapply IH].
Qed.

(** ** The view *)

(** The entity rules are matched against, with reverse resolving enabled or not. *)
Definition rulesEntity (rev : bool) (e : Entity) : Entity :=
  if rev then EnableReverseResolving e else e.
Definition entView (rev : bool) (e : Entity) :=
  (facts (rulesEntity rev e), Domain e, EPort e, ASN e, Country e).
(** Ready for matching, and the location was fetched. *)
Definition located (e : Entity) : Prop := ready e /\ fetchLocationOnce e = true.

Lemma locFields_view inb e e' : facts (rulesEntity inb e') = facts (rulesEntity inb e) ->
  locFields e' = locFields e -> Domain e' = Domain e -> EPort e' = EPort e -> entView inb e' = entView inb e.
Proof.
  unfold entView, locFields. intros -> Hl -> ->. injection Hl as _ _ _ _ _ Ha Hc. by rewrite Ha, Hc.
Qed.
Lemma located_loc e e' : locFields e' = locFields e -> located e -> located e'.
Proof.
  unfold located, ready. intros Hl [Hr Hf]. pose proof Hl as Hl'. injection Hl' as E1 E2 E3 _ _ _ _.
  rewrite E1, E2, E3. split; [|done]. by eapply locInv_fields; [symmetry|].
Qed.
Lemma readStep_view inb e e' : readStep e e' -> located e -> located e' /\ entView inb e' = entView inb e.
Proof.
  intros Hs Hl. destruct Hs as [|lists|].
  - unfold getLocation. rewrite (proj2 Hl). done.
  - split; [eapply located_loc; [apply MatchLists_loc|done]|].
    apply locFields_view; [|apply MatchLists_loc|by destruct lists|by destruct lists].
    replace (rulesEntity inb (MatchLists lists e).2) with (MatchLists lists (rulesEntity inb e)).2
      by (by destruct inb, lists). apply MatchLists_facts.
  - unfold GetDomain. destruct (reverseResolveEnabled e) eqn:Er; [|done]. simpl andb. cbv iota. cbn [snd].
    split; [eapply located_loc; [apply reverseResolve_loc|done]|].
    assert (EnableReverseResolving e = e) as He
      by (unfold EnableReverseResolving; clear Hl; destruct e; simpl in *; by rewrite Er).
    assert (EnableReverseResolving (reverseResolve e) = reverseResolve e) as He'.
    { assert (reverseResolveEnabled (reverseResolve e) = true) as Er'
        by (unfold reverseResolve; clear -Er; destruct e; simpl in *; by repeat case_match).
      unfold EnableReverseResolving. clear -Er'. destruct (reverseResolve e). simpl in *. by rewrite Er'. }
    apply locFields_view; [|apply reverseResolve_loc| |].
    + assert (rulesEntity inb e = e /\ rulesEntity inb (reverseResolve e) = reverseResolve e) as [-> ->]
        by (by destruct inb; simpl; rewrite ?He, ?He').
      pose proof (GetDomain_facts e) as Hf. unfold GetDomain in Hf. by rewrite Er in Hf.
    + unfold reverseResolve. clear. destruct e. simpl. by repeat case_match.
    + unfold reverseResolve. clear. destruct e. simpl. by repeat case_match.
Qed.
Lemma reads_view inb e e' : reads e e' -> located e -> located e' /\ entView inb e' = entView inb e.
Proof.
  induction 1 as [e|e1 e2 e3 Hs _ IH]; intros Hl; [done|].
  destruct (readStep_view inb _ _ Hs Hl) as [Hl2 Hv2]. destruct (IH Hl2) as [Hl3 Hv3].
  split; [done|congruence].
Qed.
Lemma located_reverse e : located e -> located (EnableReverseResolving e).
Proof. by apply located_loc. Qed.
Lemma view_reverse e : entView true (EnableReverseResolving e) = entView true e.
Proof. by destruct e. Qed.

(** ** Loading the lists fetches the location *)

(** The invariant of entities: ready, and lists by AS number were only loaded
    after the location. *)
Definition entityInv (e : Entity) : Prop :=
  ready e /\ (asnListLoaded e = true -> fetchLocationOnce e = true).
Lemma getDomainLists_asn e : asnListLoaded (getDomainLists e) = asnListLoaded e.
Proof.
  unfold getDomainLists. destruct (domainListLoaded e); [done|].
  destruct (GetDomain false e) as [[d|] e1] eqn:E; injection E as E1 E2; subst e1; [|done].
  destruct (loadDomainListOnce e); [done|]. match goal with |- asnListLoaded (loadDomains ?l ?x) = _ =>
    change (asnListLoaded (loadDomains l x) = asnListLoaded x); generalize l; generalize x end.
  clear. intros x l. revert x. induction l as [|d l IH]; intros x; cbn [loadDomains]; [done|].
  destruct (LookupDomain d) as [ls|]; [|done]. rewrite IH. by destruct ls.
Qed.
Lemma getASNLists_located e : entityInv e -> located (getASNLists e).
Proof.
  intros [Hr Ha]. unfold getASNLists. destruct (asnListLoaded e) eqn:E; [by split; [|apply Ha]|].
  assert (located (getLocation e)) as Hl.
  { split; [by apply ready_getLocation|]. by apply locInv_getLocation in Hr as [_ ?]. }
  unfold GetASN. set (e1 := getLocation e) in *. destruct (bool_decide _); [|done].
  destruct (ASN e1 =? 0); [done|]. destruct (loadAsnListOnce e1); [done|].
  destruct (LookupASNString _) as [l|]; [|by eapply located_loc; [|exact Hl]].
  eapply located_loc; [|exact Hl]. by destruct l.
Qed.
Lemma LoadLists_located e : entityInv e -> located (LoadLists e).
Proof.
  intros Hi. unfold LoadLists, getLists.
  assert (entityInv (getDomainLists e)) as Hi2.
  { destruct Hi as [Hr Ha]. split; [unfold ready in *|].
    - pose proof (getDomainLists_loc e) as Hl. pose proof Hl as Hl'. injection Hl' as E1 E2 _ _ _ _ _.
      rewrite E1, E2. by eapply locInv_fields; [symmetry|].
    - pose proof (getDomainLists_loc e) as Hl. injection Hl as _ _ E3 _ _ _ _. rewrite E3.
      intros Hx. apply Ha. by rewrite getDomainLists_asn in Hx. }
  apply getASNLists_located in Hi2. set (e2 := getASNLists _) in *. clearbody e2.
  assert (located (getIPLists e2)) as H3 by (eapply located_loc; [apply getIPLists_loc|done]).
  set (e3 := getIPLists e2) in *. destruct (getCountryLists_loc e3) as [Ec|El].
  - unfold getCountryLists. by rewrite Ec.
  - eapply located_loc; [|exact H3]. rewrite El. unfold getLocation. by rewrite (proj2 H3).
Qed.

(** ** The invariant holds after any operations *)
Lemma entityInv_keep e e' : ready e' -> asnListLoaded e' = asnListLoaded e ->
  (fetchLocationOnce e = true -> fetchLocationOnce e' = true) -> entityInv e -> entityInv e'.
Proof. intros Hr Ha Hf [_ Hi]. split; [done|]. rewrite Ha. auto. Qed.
Lemma getLocation_asn e : asnListLoaded (getLocation e) = asnListLoaded e.
Proof.
  unfold getLocation. destruct (fetchLocationOnce e); [done|]. simpl. destruct (EIP e) as [a|]; [|done].
  destruct (negb _); [done|]. by destruct (geoipGetLocation a).
Qed.
Lemma getLocation_fetched e : fetchLocationOnce e = true -> fetchLocationOnce (getLocation e) = true.
Proof. unfold getLocation. intros Hf. by rewrite Hf. Qed.
Lemma entityInv_exec o e : ready (entityExec o e) -> entityInv e -> entityInv (entityExec o e).
Proof.
  intros Hr Hi. destruct o; simpl in *.
  - by split.
  - by apply (entityInv_keep e).
  - by apply (entityInv_keep e).
  - by apply (entityInv_keep e).
  - apply (entityInv_keep e); [done| | |done].
    + unfold GetDomain. destruct b; simpl; [|done]. destruct (reverseResolveEnabled e); [|done]. simpl.
      unfold reverseResolve. destruct (reverseResolveOnce e); [done|]. cbn [EIP set_field]. destruct (EIP e) as [a|]; [|done].
      destruct reverseResolver as [f|]; [|done]. by destruct (f _).
    + pose proof (GetDomain_loc b e) as Hl. injection Hl as _ _ E _ _ _ _. by rewrite E.
  - apply (entityInv_keep e); [done|apply getLocation_asn|apply getLocation_fetched|done].
  - apply (entityInv_keep e); [done|apply getLocation_asn|apply getLocation_fetched|done].
  - apply (entityInv_keep e); [done|apply getLocation_asn|apply getLocation_fetched|done].
  - apply LoadLists_located in Hi as [? ?]. by split.
  - assert (entityInv (getLocation e)) as Hi'.
    { apply (entityInv_keep e); [|apply getLocation_asn|apply getLocation_fetched|done].
      apply ready_getLocation, Hi. }
    apply LoadLists_located in Hi' as [? ?]. by split.
  - apply (entityInv_keep e); [done| | |done]; by destruct lists.
Qed.
Lemma entityInv_ops ip proto port domain cname dst ops :
  entityInv (foldl (fun e o => entityExec o e) (EntityInit dst (newEntity ip proto port domain cname)) ops).
Proof.
  induction ops as [|o ops IH] using rev_ind; [split; [apply (ready_ops ip proto port domain cname dst [])|done]|].
  rewrite foldl_app. apply entityInv_exec; [|done].
  pose proof (ready_ops ip proto port domain cname dst (ops ++ [o])) as Hr. by rewrite foldl_app in Hr.
Qed.
End view.
