(* ===== verification/FirewallPolicy.v ===== *)
(** * The policy of the privacy filter

    [policy] states, as a function of the facts about a connection, which verdict
    the filter comes to: the first row of a table that applies, else the default.
    It has no caches, no loading of data and no state.  [FirewallFacts] shows that
    [decideOnConnection] implements it. *)

From S2P Require Import Prelude GoStrings GoText GoNet NetUtils Reference Entity EntityFacts Endpoints.
From S2P Require Import EndpointMatch Profile ProfileFacts Connection Firewall EntityView.

(** The facts a decision is made on: the immutable parts of the connection, its
    process and profile layers, and the prepared entity. *)
Record Facts := mkFacts {
  fType : ConnectionType; fInbound : bool; fIPProtocol : Z;
  fLocalIP : IP; fLocalPort : Z; fResolver : option IPScope; fVerdict : Verdict;
  fProcess : Process; fLayers : LayeredProfile; fEntity : Entity;
}.

Section policy.
Context {IE : IntelEnv} {UT : UnicodeTables} {FE : FirewallEnv} (g : Cfg) (F : Facts).

Definition ent := fEntity F.
(** The value of an option: of the first layer that sets it, else the global one. *)
Definition opt (k : BoolOption) : bool := effective g k (fLayers F).
Definition scope : IPScope := EIPScope ent.
Definition ipConn : bool := bool_decide (fType F = IPConnection).
Definition dnsRequest : bool := bool_decide (fType F = DNSRequest).
Definition noDomain : bool := bool_decide (Domain ent = []).
Definition sysResolver : bool := IsSystemResolver (Some (fProcess F)).
(** Denied connections are dropped when incoming, blocked when outgoing. *)
Definition deny : Verdict := if fInbound F then VerdictDrop else VerdictBlock.

Definition ownConnection : bool :=
  (Pid (fProcess F) =? ownPID) &&
  (negb (fInbound F) || match IsMyIP (EIP ent) with inl b => b | inr _ => false end).

(** [c] is a request the connection may be the response to. *)
Definition isRequest (net : IPNet) (c : Connection) : bool :=
  dataComplete c && negb (Inbound c) && (Ended c =? 0) &&
  match entity c with
  | None => false
  | Some re =>
      (Protocol re =? Protocol ent) && (LocalPort c =? fLocalPort F) && IPEqual (LocalIP c) (fLocalIP F) &&
      ProcEqual (process c) (Some (fProcess F)) &&
      ((bool_decide (EIPScope re = LocalMulticast) &&
        (bool_decide (scope = LinkLocal) || bool_decide (scope = SiteLocal))) ||
       (IPEqual (ipBytes re) (default [] (GetBroadcastAddress (netIP net) (netMask net))) &&
        NetContains net (LocalIP c)))
  end.
Definition broadcastReply : bool :=
  fInbound F && IsIdentified (Some (fProcess F)) &&
  match GetLocalNetwork (EIP ent) with
  | inl (Some net) => existsb (isRequest net) activeConns
  | _ => false
  end.

Definition blockedInbound : bool := opt BlockInbound && fInbound F && negb (IsLocalhost scope).
Definition blockedP2P : bool :=
  opt BlockP2P && negb (fInbound F) &&
  (occurs ent p2pFilterLists ||
   (ipConn && ((dstPort ent =? 3478) || (dstPort ent =? 5349) || (IsGlobal scope && noDomain)))).

Definition blockedScope : option Verdict :=
  if dnsRequest then if opt BlockScopeInternet && opt BlockScopeLAN then Some VerdictBlock else None
  else match scope with
  | Global | GlobalMulticast => if opt BlockScopeInternet then Some deny else None
  | SiteLocal | LinkLocal | LocalMulticast => if opt BlockScopeLAN then Some VerdictBlock else None
  | HostLocal => if opt BlockScopeLocal then Some VerdictBlock else None
  | Undefined | Invalid => None
  end.

(** The rules that apply: for queries of the system resolver only those of the
    app's own profile, else those of all layers and the global ones. *)
Definition ownRules (p : Profile) : EPs := if fInbound F then serviceEndpoints p else endpoints p.
Definition globalRules : EPs := if fInbound F then cfgServiceEndpoints g else cfgEndpoints g.
Definition rules : EPs :=
  if dnsRequest && sysResolver
  then match localProfile (fLayers F) with Some p => ownRules p | None => [] end
  else concat (ownRules <$> layers (fLayers F)) ++ globalRules.
(** Incoming connections are matched with reverse resolving, except queries of the
    system resolver. *)
Definition rev : bool := fInbound F && negb (dnsRequest && sysResolver).
Definition rulesFor : Entity := rulesEntity rev ent.
Definition ruleResult : EPResult :=
  firstDecision ((fun ep => specMatches ep rulesFor) <$> omap id rules).
Definition byRules : option Verdict :=
  match ruleResult with
  | NoMatch => None
  | Permitted => Some VerdictAccept
  | Denied | MatchError => Some deny
  end.

Definition invalidIP : bool := ipConn && match scope with Undefined | Invalid => true | _ => false end.
Definition outOfScope : bool :=
  ipConn && opt RemoveOutOfScopeDNS &&
  match fResolver F with
  | None => false
  | Some rs => (IsGlobal rs && (IsLAN scope || IsLocalhost scope)) || (IsLAN rs && IsLocalhost scope)
  end.
Definition connectivityGrant : bool :=
  negb noDomain && (GetOnlineStatus <=? StatusPortal) && negb (fInbound F) &&
  negb (opt BlockScopeInternet) && IsConnectivityDomain (Domain ent).

Definition icmp : bool := (Protocol ent =? ICMP) || (Protocol ent =? ICMPv6).
Definition canary : bool := eqs (ToLower (Domain ent)) $"use-application-dns.net.".
Definition toDNS : bool := (EPort ent =? 53).
Definition outgoingDNS : bool := toDNS && (fIPProtocol F =? UDP).
Definition bypass : bool :=
  opt Profile.PreventBypassing && negb (fInbound F) && negb icmp &&
  (canary ||
   (negb (dnsRequest && sysResolver) &&
    negb (ResolverIsDisabled && (sysResolver || (toDNS && IsLocalhost scope) || outgoingDNS)) &&
    (toDNS || (EPort ent =? 853) || occurs ent resolverFilterLists))).

(** The filter lists of the first layer that sets them, else the global ones. *)
Definition activeLists : list str :=
  default (cfgFilterLists g)
    (first_some (fun p => if filterListsSet p then Some (filterListIDs p) else None) (layers (fLayers F))).
Definition unbroken : bool :=
  existsb (fun l => occurs ent [l] && existsb (eqs l) GetUnbreakFilterListIDs) activeLists.
Definition onFilterList : bool := occurs ent activeLists && negb unbroken.

Definition customHit (domain : str) : bool :=
  match customLookupDomain domain (opt FilterSubDomains) with Some _ => true | None => false end.
Definition onCustomList : bool :=
  customListsLoaded &&
  ((negb noDomain && customHit (Domain ent)) || (opt FilterCNAMEs && existsb customHit (CNAME ent)) ||
   match EIP ent with Some ip => customLookupIP ip | None => false end ||
   (negb (ASN ent =? 0) && customLookupASN (ASN ent)) ||
   (negb (bool_decide (Country ent = [])) && customLookupCountry (Country ent))).

Definition suspiciousDomain : bool :=
  negb noDomain && opt DomainHeuristics &&
  let trimmed := TrimRightDots (Domain ent) in
  match EffectiveTLDPlusOne trimmed with
  | inr _ => false
  | inl etld1 =>
      LmsScoreBelow (default [] (head (Split etld1 "."))) 5 ||
      ((length etld1 + 100 <? length (Domain ent))%nat &&
       LmsScoreOfDomainBelow (take (length etld1) trimmed) 10)
  end.

Definition related : bool :=
  negb noDomain && (0 <=? Pid (fProcess F)) &&
  match relatedPair (Domain ent) (Path (fProcess F)) (Name (fProcess F)) (ExecName (fProcess F)) with
  | Some _ => true | None => false
  end.
Definition autoPermitted : bool :=
  negb (DefaultAction g (fLayers F) =? DefaultActionPermit) && negb (opt DisableAutoPermit) && related.

(** ** The table *)
Definition when (b : bool) (v : Verdict) : option Verdict := if b then Some v else None.
Definition table : list (option Verdict) :=
  [when ownConnection VerdictAccept; when broadcastReply VerdictAccept;
   (if blockedInbound then Some VerdictDrop else when blockedP2P VerdictBlock);
   blockedScope; byRules; when invalidIP deny; when outOfScope VerdictBlock;
   when connectivityGrant VerdictAccept; when bypass VerdictBlock; when onFilterList deny;
   when onCustomList deny; when suspiciousDomain VerdictBlock; when autoPermitted VerdictAccept].

Definition promptVerdict : Verdict :=
  match prompted with
  | PromptNone => fVerdict F
  | PromptAnswered a | PromptResponse a => if isAllow a then VerdictAccept else deny
  | PromptTimeout => deny
  | PromptShutdown => VerdictDrop
  end.
Definition defaultVerdict : Verdict :=
  let action := DefaultAction g (fLayers F) in
  if dnsRequest then VerdictAccept
  else if action =? DefaultActionPermit then VerdictAccept
  else if action =? DefaultActionAsk then
    if bool_decide (fVerdict F = VerdictUndecided) then promptVerdict else fVerdict F
  else deny.
Definition policy : Verdict := default defaultVerdict (first_some id table).
End policy.
