(* ===== verification/FirewallFacts.v ===== *)
(** * The privacy filter implements its policy

    [returns m c Q]: the monadic code [m] returns from connection [c] with a result
    and a connection that satisfy [Q]; [good] is the invariant the deciders keep
    until one of them decides. *)

From S2P Require Import Prelude GoStrings GoText GoNet NetUtils Reference Entity EntityFacts Endpoints.
From S2P Require Import EndpointMatch Profile ProfileFacts Connection Firewall EntityView FirewallPolicy.

(** ** Reasoning about the monad *)
Definition returns {A} (m : M A) (c : Connection) (Q : A -> Connection -> Prop) : Prop :=
  exists a c', m c = Ret (a, c') /\ Q a c'.

Lemma returns_ret {A} (a : A) c Q : Q a c -> returns (mret a) c Q.
Proof. intros HQ. by exists a, c. Qed.
Lemma returns_bind {A B} (m : M A) (f : A -> M B) c Q :
  returns m c (fun a c' => returns (f a) c' Q) -> returns (m ≫= f) c Q.
Proof.
  intros (a & c' & Hm & b & c'' & Hf & HQ). exists b, c''. split; [|done].
  unfold mbind, M_bind. by rewrite Hm.
Qed.
Lemma returns_get c Q : Q c c -> returns get c Q.
Proof. intros HQ. by exists c, c. Qed.
Lemma returns_modify f c Q : Q tt (f c) -> returns (modify f) c Q.
Proof. intros HQ. by exists tt, (f c). Qed.
Lemma returns_deref {A} (o : option A) a c Q : o = Some a -> Q a c -> returns (deref o) c Q.
Proof. intros -> HQ. by exists a, c. Qed.
Lemma returns_call {A} (o : outcome str A) a c Q : o = Ret a -> Q a c -> returns (call o) c Q.
Proof. intros -> HQ. by exists a, c. Qed.
Lemma returns_mono {A} (m : M A) c (Q Q' : A -> Connection -> Prop) :
  returns m c Q -> (forall a c', Q a c' -> Q' a c') -> returns m c Q'.
Proof. intros (a & c' & Hm & HQ) HQQ. exists a, c'. auto. Qed.

(** ** The invariant of the deciders *)
Section facts.
Context {IE : IntelEnv} {UT : UnicodeTables} {FE : FirewallEnv} (g : Cfg) (F : Facts).

(** The layered profile of the facts up to cached values, which are current. *)
Record goodLP (lp : LayeredProfile) : Prop := {
  gl_layers : layers lp = layers (fLayers F);
  gl_local : localProfile lp = localProfile (fLayers F);
  gl_coherent : coherent g lp;
  gl_valid : globalValidityFlag lp = Some (generation g);
}.
Record goodEntity (e : Entity) : Prop := {
  ge_located : located e;
  ge_view : entView (rev F) e = entView (rev F) (fEntity F);
  ge_done : doneAll e;
}.
Record goodConn (c : Connection) : Prop := {
  gc_type : Type_ c = fType F;
  gc_inbound : Inbound c = fInbound F;
  gc_protocol : IPProtocol c = fIPProtocol F;
  gc_ip : LocalIP c = fLocalIP F;
  gc_port : LocalPort c = fLocalPort F;
  gc_resolver : ResolverScope c = fResolver F;
  gc_verdict : verdict c = fVerdict F;
  gc_process : exists p lp, process c = Some p /\ p <| profile := None |> = (fProcess F) <| profile := None |> /\
    profile p = Some lp /\ goodLP lp;
}.
Definition good (c : Connection) : Prop := goodConn c /\ exists e, entity c = Some e /\ goodEntity e.

(** The parts of the entity the deciders read. *)
Lemma view_fields e : goodEntity e ->
  EIP e = EIP (fEntity F) /\ EIPScope e = scope F /\ Protocol e = Protocol (fEntity F) /\
  dstPort e = dstPort (fEntity F) /\ CNAME e = CNAME (fEntity F) /\ checkCNAMEs e = checkCNAMEs (fEntity F) /\
  ListOccurences e = ListOccurences (fEntity F) /\ Domain e = Domain (fEntity F) /\
  EPort e = EPort (fEntity F) /\ ASN e = ASN (fEntity F) /\ Country e = Country (fEntity F).
Proof.
  intros [_ Hv _]. unfold entView, facts in Hv. injection Hv as E1 E2 E3 E4 E5 E6 E7 E8 E9 E10 E11 E12.
  unfold rulesEntity in *. unfold scope, ent.
  destruct (rev F); simpl in *; auto 12.
Qed.
Lemma occurs_view e lists : goodEntity e -> occurs e lists = occurs (fEntity F) lists.
Proof. intros (_ & _ & _ & _ & _ & _ & Ho & _)%view_fields. unfold occurs. by rewrite Ho. Qed.
Lemma reads_done e e' : reads e e' -> located e -> doneAll e -> doneAll e'.
Proof.
  induction 1 as [|e1 e2 e3 Hs _ IH]; [done|]. intros Hl Hd. destruct (readStep_view false _ _ Hs Hl) as [Hl2 _].
  apply IH; [done|]. destruct Hs as [|lists|]; [by rewrite getLocation_once by apply Hl|by destruct e1, lists|].
  unfold GetDomain, reverseResolve. clear -Hd. destruct e1. simpl. by repeat case_match.
Qed.
Lemma reads_good e e' : reads e e' -> goodEntity e -> goodEntity e'.
Proof.
  intros Hr [Hl Hv Hd]. destruct (reads_view (rev F) _ _ Hr Hl) as [Hl' Hv']. split; [done|congruence|].
  by eapply reads_done.
Qed.

(** ** Rules for the primitives *)
Lemma good_entity c e' : good c -> goodEntity e' -> good (c <| entity := Some e' |>).
Proof. intros [[H1 H2 H3 H4 H5 H6 H7 H8] _] He. split; [by split|]. by exists e'. Qed.
Lemma returns_getEntity c Q : good c -> (forall e, goodEntity e -> entity c = Some e -> Q e c) -> returns getEntity c Q.
Proof.
  intros [_ (e & He & Hg)] HQ. apply returns_bind, returns_get. eapply returns_deref; [done|]. by apply HQ.
Qed.
Lemma returns_setEntity c e Q : good c -> goodEntity e -> (forall c', good c' -> Q tt c') -> returns (setEntity e) c Q.
Proof. intros Hc He HQ. apply returns_modify, HQ. by eapply good_entity. Qed.
Lemma returns_getProcess c Q : good c ->
  (forall p, p <| profile := None |> = (fProcess F) <| profile := None |> -> process c = Some p -> Q p c) ->
  returns getProcess c Q.
Proof.
  intros [[_ _ _ _ _ _ _ (p & lp & Hp & Hf & _)] _] HQ. apply returns_bind, returns_get.
  eapply returns_deref; [done|]. by apply HQ.
Qed.
Lemma returns_getLP c Q : good c ->
  (forall lp, goodLP lp -> ProcProfile (process c) = Some lp -> Q lp c) -> returns getLP c Q.
Proof.
  intros [[_ _ _ _ _ _ _ (p & lp & Hp & _ & Hl & Hg)] _] HQ. apply returns_bind, returns_get.
  eapply returns_deref; [by rewrite Hp|]. apply HQ; [done|]. by rewrite Hp.
Qed.
Lemma returns_setLP c lp Q : good c -> goodLP lp -> (forall c', good c' -> Q tt c') -> returns (setLP lp) c Q.
Proof.
  intros [[H1 H2 H3 H4 H5 H6 H7 (p & lp0 & Hp & Hf & Hl & _)] He] Hg HQ. apply returns_modify, HQ.
  split; [|done]. split; try done. exists (p <| profile := Some lp |>), lp. simpl. by rewrite Hp.
Qed.
(** Changes of fields that no decider reads. *)
Lemma good_fields c c' : good c ->
  (Type_ c', Inbound c', IPProtocol c', LocalIP c', LocalPort c') =
  (Type_ c, Inbound c, IPProtocol c, LocalIP c, LocalPort c) ->
  (ResolverScope c', verdict c', process c', entity c') = (ResolverScope c, verdict c, process c, entity c) ->
  good c'.
Proof.
  intros [[H1 H2 H3 H4 H5 H6 H7 H8] H9] E1 E2. injection E1 as E1 E3 E4 E5 E6. injection E2 as E2 E7 E8 E9.
  split; [split; try congruence|]; by rewrite ?E8, ?E9.
Qed.

Lemma goodLP_option k lp : goodLP lp ->
  (wrapBoolOption g k lp).1 = opt g F k /\ goodLP (wrapBoolOption g k lp).2.
Proof.
  intros [H1 H2 H3 H4]. split.
  - rewrite (read_value g k lp H3 H4). unfold opt, effective, effectiveOf. by rewrite H1.
  - pose proof (coherent_read g k lp H3) as Hc. unfold wrapBoolOption in *. destruct (refresh _ _ _ _) as [v c].
    by split.
Qed.
(** Reading an option changes neither the entity nor the invariant. *)
Lemma option_conn k c Q : goodConn c ->
  (forall c', goodConn c' -> entity c' = entity c -> Q (opt g F k) c') -> returns (option_ g k) c Q.
Proof.
  intros [H1 H2 H3 H4 H5 H6 H7 (p & lp & Hp & Hf & Hl & Hlp)] HQ.
  destruct (goodLP_option k lp Hlp) as [Hv Hg].
  apply returns_bind, returns_bind, returns_get. eapply returns_deref; [by rewrite Hp|].
  destruct (wrapBoolOption g k lp) as [v lp']. simpl in Hv, Hg. subst v.
  apply returns_bind, returns_modify, returns_ret, HQ; [|done]. split; try done.
  exists (p <| profile := Some lp' |>), lp'. simpl. by rewrite Hp.
Qed.
Lemma returns_option k c Q : good c -> (forall c', good c' -> Q (opt g F k) c') -> returns (option_ g k) c Q.
Proof.
  intros [Hc He] HQ. apply option_conn; [done|]. intros c' Hc' E. apply HQ. split; [done|]. by rewrite E.
Qed.
Lemma returns_matchLists lists c Q : (forall ks, mapOrder ks ≡ₚ ks) -> good c ->
  (forall c', good c' -> Q (occurs (fEntity F) lists) c') -> returns (matchListsM lists) c Q.
Proof.
  intros Hord Hc HQ. apply returns_bind, returns_getEntity; [done|]. intros e He _.
  pose proof (MatchLists_occurs lists e Hord) as Ho.
  pose proof (reads_good _ _ (reads_once _ _ (ReadLists e lists)) He) as He'.
  destruct (MatchLists lists e) as [b e']. simpl in Ho, He'. subst b. rewrite (occurs_view _ _ He).
  apply returns_bind, returns_setEntity; [done..|]. intros c' Hc'. by apply returns_ret, HQ.
Qed.

(** ** Deciders *)

(** The connection has the verdict [v], and the invariant holds but for that. *)
Definition decidedAs (v : Verdict) (c : Connection) : Prop :=
  verdict c = v /\ good (c <| verdict := fVerdict F |>).
(** The decider sets the verdict, or leaves the invariant. *)
Definition verdictOr (r : option Verdict) (b : bool) (c : Connection) : Prop :=
  match r with Some v => b = true /\ decidedAs v c | None => b = false /\ good c end.
Definition decides (d : M bool) (r : option Verdict) : Prop :=
  forall c, good c -> returns d c (verdictOr r).

Lemma SetVerdict_verdict v msg key ctx c : good c -> decidedAs v (SetVerdict g v msg key ctx c).
Proof.
  intros Hc. unfold SetVerdict. split; [case_bool_decide; [done|]; by destruct (ProcProfile _)|].
  pose proof (gc_verdict _ (proj1 Hc)) as Hv.
  eapply good_fields; [exact Hc|..]; (case_bool_decide; [|destruct (ProcProfile _)]); simpl; by rewrite ?Hv.
Qed.
Lemma Deny_verdict msg key ctx c : good c -> decidedAs (deny F) (DenyWithContext g msg key ctx c).
Proof.
  intros Hc. unfold DenyWithContext, deny. rewrite (gc_inbound _ (proj1 Hc)).
  destruct (fInbound F); by apply SetVerdict_verdict.
Qed.
Lemma good_decided c : good c -> decidedAs (fVerdict F) c.
Proof.
  intros Hc. split; [apply (gc_verdict _ (proj1 Hc))|]. eapply good_fields; [exact Hc|done|].
  simpl. by rewrite (gc_verdict _ (proj1 Hc)).
Qed.
Lemma decided_Internal v b c : decidedAs v c -> decidedAs v (c <| Internal := b |>).
Proof. intros [Hv Hc]. split; [done|]. by eapply good_fields; [exact Hc|..]. Qed.
(** A decider that sets a verdict. *)
Lemma returns_verdict f v c : decidedAs v (f c) ->
  returns (modify f ;; mret true) c (verdictOr (Some v)).
Proof. intros Hv. apply returns_bind, returns_modify, returns_ret. by split. Qed.
Lemma returns_no c : good c -> returns (mret false) c (verdictOr None).
Proof. intros Hc. apply returns_ret. by split. Qed.
End facts.

(** One step of a decider: the rule of its next primitive. *)
Ltac step :=
  lazymatch goal with
  | |- returns (mret false) _ (verdictOr _ _ _) => apply returns_no; assumption
  | |- returns (mret _) _ _ => apply returns_ret; cbv beta
  | |- returns (mret _ ≫= _) _ _ => apply returns_bind, returns_ret; cbv beta
  | |- returns ((if ?b then _ else _) ≫= _) _ _ =>
      lazymatch b with true => cbv iota | false => cbv iota | _ => destruct b eqn:? end
  | |- returns (get ≫= _) _ _ => apply returns_bind, returns_get
  | |- returns (getEntity ≫= _) _ _ =>
      let e := fresh "e" in let He := fresh "He" in let Hce := fresh "Hce" in
      apply returns_bind; eapply returns_getEntity; [eassumption|]; intros e He Hce
  | |- returns (getProcess ≫= _) _ _ =>
      let p := fresh "p" in let Hp := fresh "Hp" in let Hcp := fresh "Hcp" in
      apply returns_bind; eapply returns_getProcess; [eassumption|]; intros p Hp Hcp
  | |- returns (getLP ≫= _) _ _ =>
      let lp := fresh "lp" in let Hlp := fresh "Hlp" in let Hclp := fresh "Hclp" in
      apply returns_bind; eapply returns_getLP; [eassumption|]; intros lp Hlp Hclp
  | |- returns (option_ _ _ ≫= _) _ _ =>
      let c := fresh "c" in let Hc := fresh "Hc" in
      apply returns_bind; eapply returns_option; [eassumption|]; intros c Hc; cbv beta
  | |- returns (matchListsM _ ≫= _) _ _ =>
      let c := fresh "c" in let Hc := fresh "Hc" in
      apply returns_bind; eapply returns_matchLists; [eassumption|eassumption|]; intros c Hc; cbv beta
  | |- returns (Accept_ _ _ _ ;; mret true) _ (verdictOr _ _ _) =>
      apply returns_verdict, SetVerdict_verdict; eassumption
  | |- returns (Block_ _ _ _ ;; mret true) _ (verdictOr _ _ _) =>
      apply returns_verdict, SetVerdict_verdict; eassumption
  | |- returns (Drop_ _ _ _ ;; mret true) _ (verdictOr _ _ _) =>
      apply returns_verdict, SetVerdict_verdict; eassumption
  | |- returns (Deny_ _ _ _ ;; mret true) _ (verdictOr _ _ _) =>
      apply returns_verdict; eapply Deny_verdict; eassumption
  | |- returns (if ?b then _ else _) _ _ =>
      lazymatch b with true => cbv iota | false => cbv iota | _ => destruct b eqn:? end
  | |- returns (match ?b with _ => _ end) _ _ => destruct b eqn:?
  end.

Section deciders.
Context {IE : IntelEnv} {UT : UnicodeTables} {FE : FirewallEnv} (g : Cfg) (F : Facts).
Context (Hord : forall ks, mapOrder ks ≡ₚ ks).

Lemma checkInvalidIP_ok : decides g F (checkInvalidIP g) (when (invalidIP F) (deny F)).
Proof.
  intros c Hc. unfold checkInvalidIP, invalidIP, ipConn, when. step. rewrite (gc_type _ _ _ (proj1 Hc)).
  case_bool_decide; simpl negb; cbv iota; [|step]. simpl andb.
  step. destruct (view_fields _ _ He) as (_ & -> & _). destruct (scope F); step.
Qed.
Lemma checkConnectionScope_ok : decides g F (checkConnectionScope g) (blockedScope g F).
Proof.
  intros c Hc. unfold checkConnectionScope, blockedScope, dnsRequest. step. rewrite (gc_type _ _ _ (proj1 Hc)).
  case_bool_decide.
  - step. destruct (opt g F BlockScopeInternet); simpl andb; repeat step.
  - step. destruct (view_fields _ _ He) as (_ & -> & _). destruct (scope F); try step;
      match goal with |- context [opt g F ?k] => destruct (opt g F k) end; step.
Qed.

Lemma proc_fields p : p <| profile := None |> = (fProcess F) <| profile := None |> ->
  Pid p = Pid (fProcess F) /\ Name p = Name (fProcess F) /\ Path p = Path (fProcess F) /\
  ExecName p = ExecName (fProcess F) /\ PrimaryProfileID p = PrimaryProfileID (fProcess F).
Proof. intros E. injection E. auto. Qed.
Lemma proc_good c : good g F c -> exists p, process c = Some p /\
  Pid p = Pid (fProcess F) /\ IsSystemResolver (process c) = sysResolver F /\
  IsIdentified (process c) = IsIdentified (Some (fProcess F)) /\
  (forall q, ProcEqual q (process c) = ProcEqual q (Some (fProcess F))).
Proof.
  intros [[_ _ _ _ _ _ _ (p & lp & Hp & Hf & _)] _]. apply proc_fields in Hf as (E1 & _ & _ & _ & E5).
  exists p. rewrite Hp. unfold sysResolver, ProcEqual. simpl. rewrite E1, E5. auto.
Qed.

Lemma checkPortmasterConnection_ok :
  decides g F (checkPortmasterConnection g) (when (ownConnection F) VerdictAccept).
Proof.
  intros c Hc. unfold checkPortmasterConnection, ownConnection, when. step.
  apply proc_fields in Hp as (-> & _). destruct (Pid (fProcess F) =? ownPID); simpl negb; cbv iota; [|step].
  step. rewrite (gc_inbound _ _ _ (proj1 Hc)). destruct (fInbound F); simpl andb.
  - apply returns_bind. step. destruct (view_fields _ _ He) as (-> & _). step.
    unfold ent. destruct (IsMyIP (EIP (fEntity F))) as [[]|]; simpl negb; cbv iota; try step.
    apply returns_bind, returns_modify, returns_verdict, decided_Internal. by apply SetVerdict_verdict.
  - step. simpl negb. cbv iota. apply returns_bind, returns_modify, returns_verdict, decided_Internal. by apply SetVerdict_verdict.
Qed.

Lemma findRequest_ok c re net conns : good g F c -> goodEntity F re ->
  Forall (fun x => dataComplete x = true -> entity x <> None) conns ->
  exists r, findRequest conns c re net (GetBroadcastAddress (netIP net) (netMask net)) = Ret r /\
    existsb (isRequest F net) conns = match r with Some _ => true | None => false end.
Proof.
  intros Hc He Hall. destruct (view_fields _ _ He) as (_ & Hs & Hp & _).
  destruct (proc_good c Hc) as (p & _ & _ & _ & _ & Heq).
  induction Hall as [|x conns Hx Hall IH]; [by exists None|]. destruct IH as (r & Hr & Hex).
  cbn [findRequest existsb]. unfold isRequest at 1, ent.
  rewrite Hr, Hex, Hs, Hp, Heq, (gc_ip _ _ _ (proj1 Hc)), (gc_port _ _ _ (proj1 Hc)).
  destruct (dataComplete x); [|by exists r]. destruct (Inbound x); [by exists r|].
  destruct (Ended x =? 0); [|by exists r]. destruct (entity x) as [xe|]; [|by specialize (Hx eq_refl)].
  simpl negb. cbv iota. simpl andb. destruct (Protocol xe =? _); [|by exists r]. destruct (LocalPort x =? _); [|by exists r].
  destruct (IPEqual (LocalIP x) _); [|by exists r]. destruct (ProcEqual _ _); [|by exists r].
  simpl negb. cbv iota. simpl andb. destruct (bool_decide (EIPScope xe = LocalMulticast) && _); [by eexists|].
  simpl orb. destruct (IPEqual _ _ && _); by eexists.
Qed.
Lemma checkIfBroadcastReply_ok : Forall (fun x => dataComplete x = true -> entity x <> None) activeConns ->
  decides g F (checkIfBroadcastReply g) (when (broadcastReply F) VerdictAccept).
Proof.
  intros Hall c Hc. unfold checkIfBroadcastReply, broadcastReply, when. step.
  rewrite (gc_inbound _ _ _ (proj1 Hc)). destruct (fInbound F); simpl negb; cbv iota; [|step].
  destruct (proc_good c Hc) as (p & _ & _ & _ & -> & _).
  destruct (IsIdentified (Some (fProcess F))); simpl negb; cbv iota; [|step]. simpl andb.
  step. pose proof (view_fields _ _ He) as (-> & _). unfold ent.
  destruct (GetLocalNetwork (EIP (fEntity F))) as [[net|]|]; [|step..].
  destruct (findRequest_ok c e net activeConns Hc He Hall) as (r & Hr & ->).
  apply returns_bind. eapply returns_call; [exact Hr|]. destruct r as [[x xe]|]; step.
Qed.

Lemma checkConnectionType_ok : decides g F (checkConnectionType g)
  (if blockedInbound g F then Some VerdictDrop else when (blockedP2P g F) VerdictBlock).
Proof.
  intros c Hc. unfold checkConnectionType, blockedInbound, blockedP2P, when, ipConn, noDomain, ent. step. step.
  rewrite (gc_inbound _ _ _ (proj1 Hc0)), (gc_type _ _ _ (proj1 Hc0)).
  set (blocked := opt g F BlockInbound && fInbound F).
  apply returns_bind.
  apply (returns_mono _ _ (fun oe c' => good g F c' /\
    match oe with Some e => negb (IsLocalhost (EIPScope e)) | None => false end
    = blocked && negb (IsLocalhost (scope F)))).
  { destruct blocked; [|by apply returns_ret]. step. step. split; [done|].
    by destruct (view_fields _ _ He) as (_ & -> & _). }
  intros oe c1 [Hc1 ->]. destruct (blocked && _); [step|]. clear blocked.
  step. destruct (opt g F BlockP2P && negb (fInbound F)); simpl andb; cbv iota; [|step].
  step. destruct (occurs (fEntity F) p2pFilterLists); [step|]. simpl orb.
  destruct (bool_decide (fType F = IPConnection)); simpl negb; cbv iota; [|step]. simpl andb.
  step. unfold DstPort. destruct (view_fields _ _ He) as (_ & -> & _ & -> & _ & _ & _ & -> & _).
  destruct (_ || _); simpl orb; [step|]. destruct (_ && _); step.
Qed.

(** ** Rules *)
Context (Herr : forall a err, geoipGetLocation a = inr err -> err <> []).

Definition ruleVerdict (r : EPResult) : option Verdict :=
  match r with NoMatch => None | Permitted => Some VerdictAccept | Denied | MatchError => Some (deny F) end.
Lemma applyRule_ok v key c : good g F c -> reasoned v ->
  returns (applyRule g v key) c (verdictOr g F (ruleVerdict v.1)).
Proof.
  intros Hc Hr. unfold reasoned in Hr. destruct v as [r [x|]]; simpl in Hr.
  - destruct r; cbn [applyRule ruleVerdict fst].
    + step.
    + apply returns_verdict. by eapply Deny_verdict.
    + apply returns_verdict. by eapply Deny_verdict.
    + apply returns_verdict. by apply SetVerdict_verdict.
  - destruct Hr as [Hr _]. rewrite (Hr eq_refl). cbn [applyRule ruleVerdict fst]. step.
Qed.
Lemma specMatches_view e eps : goodEntity F e ->
  firstDecision ((fun ep => specMatches ep (rulesEntity (rev F) e)) <$> omap id eps)
  = firstDecision ((fun ep => specMatches ep (rulesFor F)) <$> omap id eps).
Proof.
  intros [_ Hv _]. apply (f_equal (fun x => x.1.1.1.1)) in Hv. f_equal.
  apply list_fmap_ext. intros i ep _. by apply facts_specMatches.
Qed.
(** A rule list [f] that reads the entity. *)
Lemma matchRules_ok f eps key c : good g F c ->
  (forall lp e, goodLP g F lp -> goodEntity F e -> exists v e', f lp e = Ret (v, e') /\ reasoned v /\
     v.1 = firstDecision ((fun ep => specMatches ep (rulesEntity (rev F) e)) <$> omap id eps) /\ goodEntity F e') ->
  returns (v ← matchRules f; applyRule g v key) c
    (verdictOr g F (ruleVerdict (firstDecision ((fun ep => specMatches ep (rulesFor F)) <$> omap id eps)))).
Proof.
  intros Hc Hf. apply returns_bind. unfold matchRules. step. step.
  destruct (Hf lp e Hlp He) as (v & e' & Hm & Hr & Hv & He'). rewrite <- (specMatches_view _ _ He), <- Hv.
  apply returns_bind. eapply returns_call; [exact Hm|]. cbv beta iota.
  apply returns_bind. eapply returns_setEntity; [exact Hc|exact He'|]. intros c' Hc'.
  apply returns_ret. by apply applyRule_ok.
Qed.

Lemma rulesEntity_good e : goodEntity F e -> goodEntity F (rulesEntity (rev F) e).
Proof.
  intros [Hl Hv Hd]. destruct (rev F) eqn:Er; simpl in *; [|split; by rewrite ?Er].
  split; [by apply located_reverse|by rewrite Er, view_reverse|by destruct e].
Qed.
Lemma matchLayers_good sel ls global e : goodEntity F e ->
  exists v e', matchLayers sel ls global (rulesEntity (rev F) e) = Ret (v, e') /\ reasoned v /\
    v.1 = firstDecision ((fun ep => specMatches ep (rulesEntity (rev F) e)) <$>
            omap id (concat (sel <$> ls) ++ global)) /\ goodEntity F e'.
Proof.
  intros He%rulesEntity_good.
  destruct (matchLayers_ok sel ls global _ Herr Hord (proj1 (ge_located _ _ He))) as (v & e' & Hm & H1 & H2 & _).
  exists v, e'. split; [done|]. split; [done|]. split; [done|].
  eapply reads_good; [by eapply matchLayers_reads|done].
Qed.

Lemma checkEndpointLists_ok :
  (dnsRequest F && sysResolver F = true -> localProfile (fLayers F) <> None) ->
  decides g F (checkEndpointLists g) (byRules g F).
Proof.
  intros Hlocal c Hc. unfold checkEndpointLists. step.
  destruct (proc_good c Hc) as (_ & _ & _ & -> & _ & _). rewrite (gc_type _ _ _ (proj1 Hc)).
  change (bool_decide (fType F = DNSRequest)) with (dnsRequest F).
  unfold byRules, ruleResult, rules. change (match ?r with NoMatch => None | _ => _ end) with (ruleVerdict r).
  destruct (dnsRequest F && sysResolver F) eqn:Esys.
  - unfold checkEndpointListsForSystemResolverDNSRequests. step.
    rewrite <- (gl_local _ _ _ Hlp) in *. destruct (localProfile lp) as [p|] eqn:Ep; [|by destruct (Hlocal eq_refl)].
    apply returns_bind. eapply returns_deref; [done|]. step. rewrite (gc_inbound _ _ _ (proj1 Hc)).
    assert ((if fInbound F then GetServiceEndpoints p else GetEndpoints p) = ownRules F p) as ->
      by (unfold ownRules; by destruct (fInbound F)).
    destruct (EndpointsIsSet (ownRules F p)) eqn:Es.
    + assert (rev F = false) as Hrev by (unfold rev; rewrite Esys; apply andb_false_r).
      match goal with |- context [applyRule g _ ?k] => pose (key := k) end.
      assert (forall lp e, goodLP g F lp -> goodEntity F e -> exists v e',
        Match (ownRules F p) e = Ret (v, e') /\ reasoned v /\
        v.1 = firstDecision ((fun ep => specMatches ep (rulesEntity (rev F) e)) <$> omap id (ownRules F p)) /\
        goodEntity F e') as Hm.
      { intros lp' e _ He. rewrite Hrev. simpl rulesEntity.
        destruct (Match_ok (ownRules F p) e Herr Hord (proj1 (ge_located _ _ He))) as (v & e' & Hm & H1 & H2 & _).
        exists v, e'. split; [done|]. split; [done|]. split; [done|]. by eapply reads_good; [eapply Match_reads|]. }
      eapply returns_mono; [|intros b c' Hb; exact Hb].
      pose proof (matchRules_ok (fun _ => Match (ownRules F p)) (ownRules F p) key c Hc Hm) as (b & c' & Hr & HQ).
      exists b, c'. split; [|exact HQ]. rewrite <- Hr. unfold mbind, M_bind.
      destruct (matchRules (fun _ => Match (ownRules F p)) c) as [[v c1]| |]; [|done|done].
      unfold key. by destruct v as [[] ?].
    + unfold EndpointsIsSet in Es. apply negb_false_iff, bool_decide_eq_true in Es. rewrite Es. step.
  - rewrite (gc_inbound _ _ _ (proj1 Hc)).
    assert (rev F = fInbound F) as Hrev by (unfold rev; rewrite Esys; apply andb_true_r).
    destruct (fInbound F) eqn:Ei; apply matchRules_ok; try done; intros lp e Hlp He.
    + unfold MatchServiceEndpoint. rewrite (gl_layers _ _ _ Hlp).
      change (EnableReverseResolving e) with (rulesEntity true e). rewrite <- Hrev.
      unfold ownRules, globalRules. rewrite Ei. by apply matchLayers_good.
    + unfold MatchEndpoint. rewrite (gl_layers _ _ _ Hlp).
      assert (rulesEntity (rev F) e = e) as He1 by (by rewrite Hrev).
      unfold ownRules, globalRules. rewrite Ei.
      pose proof (matchLayers_good endpoints (layers (fLayers F)) (cfgEndpoints g) e He) as Hm.
      by rewrite !He1 in Hm |- *.
Qed.

(** ** The other deciders *)
Lemma checkResolverScope_ok : decides g F (checkResolverScope g) (when (outOfScope g F) VerdictBlock).
Proof.
  intros c Hc. unfold checkResolverScope, outOfScope, when, ipConn. step. rewrite (gc_type _ _ _ (proj1 Hc)).
  destruct (bool_decide (fType F = IPConnection)); simpl negb; cbv iota; [|step]. simpl andb. step.
  destruct (opt g F RemoveOutOfScopeDNS); simpl negb; cbv iota; [|step]. simpl andb.
  rewrite (gc_resolver _ _ _ (proj1 Hc)). destruct (fResolver F) as [rs|]; [|step].
  step. destruct (view_fields _ _ He) as (_ & -> & _).
  destruct (IsGlobal rs && _); simpl orb; cbv iota; [step|]. destruct (_ && _); step.
Qed.
Lemma checkConnectivityDomain_ok :
  decides g F (checkConnectivityDomain g) (when (connectivityGrant g F) VerdictAccept).
Proof.
  intros c Hc. unfold checkConnectivityDomain, connectivityGrant, when, noDomain, ent. step.
  destruct (view_fields _ _ He) as (_ & _ & _ & _ & _ & _ & _ & -> & _).
  destruct (bool_decide _); simpl negb; cbv iota; [step|]. simpl andb. rewrite Z.leb_antisym.
  destruct (StatusPortal <? GetOnlineStatus); simpl negb; cbv iota; [step|]. simpl andb. step.
  rewrite (gc_inbound _ _ _ (proj1 Hc)). destruct (fInbound F); simpl negb; cbv iota; [step|]. simpl andb. step.
  destruct (opt g F BlockScopeInternet); simpl negb; cbv iota; [step|]. simpl andb.
  destruct (IsConnectivityDomain _); step.
Qed.

(** [PreventBypassing] denies exactly a bypass. *)
Lemma PreventBypassing_ok c : good g F c -> opt g F Profile.PreventBypassing = true ->
  returns PreventBypassing c (fun r c' => r.1.1 = (if bypass g F then Denied else NoMatch) /\ good g F c').
Proof.
  intros Hc Hopt. unfold PreventBypassing, bypass. rewrite Hopt. step.
  rewrite (gc_inbound _ _ _ (proj1 Hc)). destruct (fInbound F) eqn:Ei; simpl negb; cbv iota; [by repeat step|]. simpl andb.
  step. destruct (view_fields _ _ He) as (_ & E2 & E3 & _ & _ & _ & _ & E8 & E9 & _).
  rewrite E2, E3, E8, E9. change (_ || _) with (icmp F) at 1. destruct (icmp F); simpl negb; cbv iota; [by repeat step|].
  simpl andb. change (eqs (ToLower (Domain (fEntity F))) _) with (canary F).
  destruct (canary F); cbv iota; [by repeat step|]. simpl orb.
  destruct (proc_good c Hc) as (_ & _ & _ & -> & _ & _). rewrite (gc_type _ _ _ (proj1 Hc)).
  change (bool_decide (fType F = DNSRequest)) with (dnsRequest F).
  destruct (dnsRequest F && sysResolver F); simpl negb; cbv iota; [by repeat step|]. simpl andb.
  unfold looksLikeOutgoingDNSRequest, outgoingDNS, toDNS, ent.
  rewrite (gc_inbound _ _ _ (proj1 Hc)), (gc_protocol _ _ _ (proj1 Hc)), E9, Ei. simpl andb.
  destruct ResolverIsDisabled eqn:Er; simpl andb.
  - destruct (sysResolver F); simpl orb; cbv iota; [by repeat step|].
    destruct (EPort (fEntity F) =? 53) eqn:Ep; simpl andb.
    + destruct (IsLocalhost (scope F)); simpl orb; cbv iota; [by repeat step|]. simpl andb.
      destruct (fIPProtocol F =? UDP); simpl negb; cbv iota; [|by repeat step]. simpl andb.
      apply returns_bind, returns_modify. step. split; [done|]. by eapply good_fields.
    + simpl orb. destruct (EPort (fEntity F) =? 853); simpl orb; cbv iota; [by repeat step|].
      step. destruct (occurs _ _); by repeat step.
  - rewrite andb_false_r. destruct (EPort (fEntity F) =? 53) eqn:Ep; simpl orb; cbv iota; [by repeat step|].
    destruct (EPort (fEntity F) =? 853); simpl orb; cbv iota; [by repeat step|].
    step. destruct (occurs _ _); by repeat step.
Qed.
Lemma checkBypassPrevention_ok : decides g F (checkBypassPrevention g) (when (bypass g F) VerdictBlock).
Proof.
  intros c Hc. unfold checkBypassPrevention. step. destruct (opt g F Profile.PreventBypassing) eqn:Eo.
  - apply returns_bind. eapply returns_mono; [by apply PreventBypassing_ok|].
    intros [[r msg] ctx] c1 [Hr Hc1]. simpl in Hr. subst r. unfold when.
    destruct (bypass g F); [|step]. apply returns_verdict. by apply SetVerdict_verdict.
  - unfold bypass. rewrite Eo. step.
Qed.

(** ** Filter lists *)
Context (Hcn : checkCNAMEs (fEntity F) = opt g F FilterCNAMEs).

Lemma goodEntity_resolve b e : goodEntity F e -> goodEntity F (ResolveSubDomainLists b e).
Proof. intros [Hl Hv Hd]. split; [by eapply located_loc; [|exact Hl]| |by destruct e]. rewrite <- Hv.
  apply locFields_view; [|done..]. apply static_facts. by destruct (rev F). Qed.
Lemma goodEntity_cname e : goodEntity F e -> goodEntity F (EnableCNAMECheck (opt g F FilterCNAMEs) e).
Proof.
  intros He. destruct (view_fields _ _ He) as (_ & _ & _ & _ & _ & E & _). rewrite <- Hcn, <- E.
  by replace (EnableCNAMECheck (checkCNAMEs e) e) with e by by destruct e.
Qed.
Lemma unbroken_ok lists e b e' : goodEntity F e -> MatchLists lists e = (b, e') -> lists <> [] ->
  existsb (fun x => existsb (eqs x) GetUnbreakFilterListIDs) (BlockedByLists e') =
  existsb (fun l => occurs (fEntity F) [l] && existsb (eqs l) GetUnbreakFilterListIDs) lists.
Proof.
  intros He Hm Hne. destruct (MatchLists_ok lists e b e' Hord Hm Hne) as (_ & _ & _ & Hb & _).
  apply eq_true_iff_eq. rewrite !existsb_exists. split.
  - intros (l & Hl & Hu). apply list_elem_of_In, Hb in Hl as [Hl [key Ho]]. exists l.
    split; [by apply list_elem_of_In|]. rewrite Hu, andb_true_r, <- (occurs_view _ _ _ He).
    apply occurs_spec. exists key, l. split; [left|done].
  - intros (l & Hl & [Ho Hu]%andb_true_iff). exists l. split; [|done]. apply list_elem_of_In, Hb.
    split; [by apply list_elem_of_In|]. rewrite <- (occurs_view _ _ _ He) in Ho.
    apply occurs_spec in Ho as (key & l' & Hl' & Ho). apply list_elem_of_singleton in Hl' as ->. by exists key.
Qed.
(** The result for the lists that are active. *)
Lemma matchListIDs_ok lists e : goodEntity F e -> exists result reason e',
  matchListIDs lists e = ((result, reason), e') /\ goodEntity F e' /\
  match result with
  | Denied => negb (existsb (fun x => existsb (eqs x) GetUnbreakFilterListIDs) (BlockedByLists e'))
  | _ => false
  end = (occurs (fEntity F) lists && negb (existsb (fun l => occurs (fEntity F) [l] &&
           existsb (eqs l) GetUnbreakFilterListIDs) lists)) /\ (result = Denied \/ result = NoMatch).
Proof.
  intros He. unfold matchListIDs. pose proof (MatchLists_occurs lists e Hord) as Ho.
  pose proof (reads_good _ _ _ (reads_once _ _ (ReadLists e lists)) He) as He'.
  destruct (MatchLists lists e) as [b e'] eqn:Em. simpl in Ho, He'. subst b. rewrite (occurs_view _ _ _ He) in *.
  destruct (occurs (fEntity F) lists) eqn:Eo.
  - eexists _, _, _. split; [reflexivity|]. split; [done|]. split; [|by left].
    rewrite (unbroken_ok lists e true e' He Em); [done|]. by intros ->.
  - eexists _, _, _. split; [reflexivity|]. split; [done|]. split; [done|by right].
Qed.
Lemma MatchFilterLists_ok lp e : goodLP g F lp -> goodEntity F e -> exists result reason e' lp',
  MatchFilterLists g lp e = ((result, reason), e', lp') /\ goodLP g F lp' /\ goodEntity F e' /\
  match result with
  | Denied => negb (existsb (fun x => existsb (eqs x) GetUnbreakFilterListIDs) (BlockedByLists e'))
  | _ => false
  end = onFilterList g F /\ (result = Denied \/ result = NoMatch).
Proof.
  intros Hlp He. unfold MatchFilterLists, onFilterList, unbroken, activeLists, ent.
  destruct (goodLP_option g F FilterSubDomains lp Hlp) as [_ Hg1].
  destruct (wrapBoolOption g FilterSubDomains lp) as [sub lp1]. simpl in Hg1.
  destruct (goodLP_option g F FilterCNAMEs lp1 Hg1) as [Hv2 Hg2].
  destruct (wrapBoolOption g FilterCNAMEs lp1) as [cn lp2]. simpl in Hv2, Hg2. subst cn.
  pose proof (goodEntity_cname _ (goodEntity_resolve sub e He)) as He2.
  set (e2 := EnableCNAMECheck _ _) in *. clearbody e2. rewrite (gl_layers _ _ _ Hg2).
  destruct (first_some _ (layers (fLayers F))) as [lists|] eqn:Ef; cbn [default from_option id].
  - destruct (matchListIDs_ok lists e2 He2) as (r & re & e' & -> & He' & Hr & Hd). by eexists _, _, _, _.
  - destruct (cfgFilterLists g) as [|l0 lists] eqn:El.
    + eexists _, _, _, _. split; [reflexivity|]. split; [done|]. split; [done|]. split; [|by right].
      unfold occurs. destruct (existsb _ (map_to_list _)) eqn:E; [|done]. exfalso.
      apply existsb_exists in E as (kv & _ & E). apply existsb_exists in E as (l & _ & E).
      apply bool_decide_eq_true in E. by apply not_elem_of_nil in E.
    + destruct (matchListIDs_ok (l0 :: lists) e2 He2) as (r & re & e' & -> & He' & Hr & Hd). by eexists _, _, _, _.
Qed.
Lemma checkFilterLists_ok : decides g F (checkFilterLists g) (when (onFilterList g F) (deny F)).
Proof.
  intros c Hc. unfold checkFilterLists. step. step.
  destruct (MatchFilterLists_ok lp e Hlp He) as (r & re & e' & lp' & -> & Hlp' & He' & <- & Hd).
  apply returns_bind. eapply returns_setLP; [done..|]. intros c1 Hc1.
  apply returns_bind. eapply returns_setEntity; [done..|]. intros c2 Hc2. unfold when.
  destruct Hd as [-> | ->]; [|step]. destruct (existsb _ (BlockedByLists e')); simpl negb; cbv iota; [step|].
  apply returns_verdict. by eapply Deny_verdict.
Qed.

(** ** Custom lists, heuristics, relations *)
Lemma customDomain_ok domain c : good g F c ->
  returns (customDomain g domain) c (fun m c' => m = customLookupDomain domain (opt g F FilterSubDomains) /\ good g F c').
Proof. intros Hc. unfold customDomain. step. by step. Qed.
Lemma customCNAMEs_ok cnames c : good g F c ->
  returns (customCNAMEs g cnames) c (verdictOr g F (when (existsb (customHit g F) cnames) (deny F))).
Proof.
  revert c. induction cnames as [|cname cnames IH]; intros c Hc; cbn [customCNAMEs existsb]; [step|].
  apply returns_bind. eapply returns_mono; [by apply customDomain_ok|]. intros m c1 [-> Hc1].
  unfold customHit at 1. destruct (customLookupDomain _ _); cbn [orb]; [step|]. by apply IH.
Qed.
Lemma checkCustomFilterList_ok : decides g F (checkCustomFilterList g) (when (onCustomList g F) (deny F)).
Proof.
  intros c Hc. unfold checkCustomFilterList, onCustomList, noDomain, ent.
  destruct customListsLoaded; simpl negb; cbv iota; [|step]. simpl andb. step.
  destruct (view_fields _ _ He) as (E1 & _ & _ & _ & E5 & _ & _ & E8 & _ & E10 & E11).
  rewrite E1, E5, E8, E10, E11. clear E1 E5 E8 E10 E11. apply returns_bind.
  apply (returns_mono _ _ (fun m c' => good g F c' /\ match m with Some _ => true | None => false end =
    negb (bool_decide (Domain (fEntity F) = [])) && customHit g F (Domain (fEntity F)))).
  { case_bool_decide; [by apply returns_ret|]. eapply returns_mono; [by apply customDomain_ok|]. by intros m c' [-> ?]. }
  intros m c1 [Hc1 <-]. destruct m as [m|]; [step|]. simpl orb. step. apply returns_bind.
  apply (returns_mono _ _ (verdictOr g F (when (opt g F FilterCNAMEs && existsb (customHit g F) (CNAME (fEntity F))) (deny F)))).
  { destruct (opt g F FilterCNAMEs); simpl andb; [by apply customCNAMEs_ok|step]. }
  intros b c2. destruct (opt g F FilterCNAMEs && _); simpl when; intros [-> Hc2]; [by apply returns_ret|]. simpl orb.
  destruct (match EIP (fEntity F) with Some ip => _ | None => _ end); simpl orb; cbv iota; [step|].
  destruct (negb (ASN _ =? 0) && _); simpl orb; cbv iota; [step|]. destruct (_ && _); step.
Qed.
Lemma checkDomainHeuristics_ok : decides g F (checkDomainHeuristics g) (when (suspiciousDomain g F) VerdictBlock).
Proof.
  intros c Hc. unfold checkDomainHeuristics, suspiciousDomain, noDomain, ent. step.
  destruct (view_fields _ _ He) as (_ & _ & _ & _ & _ & _ & _ & -> & _).
  destruct (bool_decide _); simpl negb; cbv iota; [step|]. simpl andb. step.
  destruct (opt g F DomainHeuristics); simpl negb; cbv iota; [|step]. simpl andb. cbv zeta.
  destruct (EffectiveTLDPlusOne _) as [etld1|]; [|step].
  destruct (LmsScoreBelow _ 5); simpl orb; cbv iota; [step|]. destruct (_ && _); step.
Qed.
Lemma checkRelation_ok c : good g F c ->
  returns checkRelation c (fun r c' => r.1 = related F /\ good g F c').
Proof.
  intros Hc. unfold checkRelation, related, noDomain, ent. step.
  destruct (view_fields _ _ He) as (_ & _ & _ & _ & _ & _ & _ & -> & _).
  destruct (bool_decide _); simpl negb; cbv iota; [by step|]. simpl andb. step.
  apply proc_fields in Hp as (-> & -> & -> & -> & _). rewrite Z.leb_antisym.
  destruct (Pid (fProcess F) <? 0); simpl negb; cbv iota; [by step|]. simpl andb. step.
  by destruct (relatedPair _ _ _ _) as [[]|].
Qed.
Lemma DefaultAction_good lp : goodLP g F lp -> DefaultAction g lp = DefaultAction g (fLayers F).
Proof. intros Hlp. unfold DefaultAction. by rewrite (gl_layers _ _ _ Hlp). Qed.
Lemma checkAutoPermitRelated_ok :
  decides g F (checkAutoPermitRelated g) (when (autoPermitted g F) VerdictAccept).
Proof.
  intros c Hc. unfold checkAutoPermitRelated, autoPermitted. step. rewrite (DefaultAction_good _ Hlp).
  destruct (_ =? DefaultActionPermit); simpl negb; cbv iota; [step|]. simpl andb. step.
  destruct (opt g F DisableAutoPermit); simpl negb; cbv iota; [step|]. simpl andb.
  apply returns_bind. eapply returns_mono; [by apply checkRelation_ok|]. intros [r msg] c1 [Hr Hc1]. simpl in Hr. subst r.
  destruct (related F); step.
Qed.
End deciders.

(** ** The decision *)
Section decision.
Context {IE : IntelEnv} {UT : UnicodeTables} {FE : FirewallEnv} (g : Cfg) (F : Facts).

Lemma runDeciders_ok ds rs c : Forall2 (decides g F) ds rs -> good g F c ->
  returns (runDeciders g ds) c (fun r c' =>
    match first_some id rs with
    | Some v => r.1 = true /\ decidedAs g F v c'
    | None => r = (false, DefaultAction g (fLayers F)) /\ good g F c'
    end).
Proof.
  intros Hds. revert c. induction Hds as [|d r ds rs Hd Hds IH]; intros c Hc; cbn [runDeciders first_some].
  - step. step. by rewrite (DefaultAction_good _ _ _ Hlp).
  - apply returns_bind. eapply returns_mono; [by apply Hd|]. intros b c1. unfold id.
    destruct r as [v|]; intros [-> Hc1]; [by step|]. by apply IH.
Qed.

Lemma prompt_ok c : good g F c -> returns (prompt g) c (fun _ c' => decidedAs g F (promptVerdict F) c').
Proof.
  intros Hc. unfold prompt, promptVerdict. destruct prompted as [|a|a| |]; [step|..].
  - by apply good_decided.
  - destruct (isAllow a); apply returns_modify; [by apply SetVerdict_verdict|by apply Deny_verdict].
  - destruct (isAllow a); [by apply returns_modify, SetVerdict_verdict|].
    case_bool_decide; apply returns_modify; by apply Deny_verdict.
  - apply returns_modify. by apply Deny_verdict.
  - by apply returns_modify, SetVerdict_verdict.
Qed.
Lemma concludeDecision_ok c : good g F c ->
  returns (concludeDecision g false (DefaultAction g (fLayers F))) c
    (fun _ c' => decidedAs g F (defaultVerdict g F) c').
Proof.
  intros Hc. unfold concludeDecision, defaultVerdict, dnsRequest. step.
  rewrite (gc_type _ _ _ (proj1 Hc)), (gc_verdict _ _ _ (proj1 Hc)).
  destruct (bool_decide (fType F = DNSRequest)); [by apply returns_modify, SetVerdict_verdict|].
  destruct (_ =? DefaultActionPermit); [by apply returns_modify, SetVerdict_verdict|].
  destruct (_ =? DefaultActionAsk); [|apply returns_modify; by apply Deny_verdict].
  case_bool_decide; [by apply prompt_ok|]. step. by apply good_decided.
Qed.

(** What the filter takes from the rest of the program. *)
Record envOk : Prop := {
  ok_order : forall ks, mapOrder ks ≡ₚ ks;
  ok_errors : forall a err, geoipGetLocation a = inr err -> err <> [];
  ok_conns : Forall (fun x => dataComplete x = true -> entity x <> None) activeConns;
}.
Lemma defaultDeciders_ok : envOk -> checkCNAMEs (fEntity F) = opt g F FilterCNAMEs ->
  (dnsRequest F && sysResolver F = true -> localProfile (fLayers F) <> None) ->
  Forall2 (decides g F) (defaultDeciders g) (table g F).
Proof.
  intros [Ho He Ha] Hcn Hl. unfold defaultDeciders, table.
  repeat first [apply Forall2_cons; split | apply Forall2_nil_2].
  - apply checkPortmasterConnection_ok.
  - by apply checkIfBroadcastReply_ok.
  - by apply checkConnectionType_ok.
  - by apply checkConnectionScope_ok.
  - by apply checkEndpointLists_ok.
  - by apply checkInvalidIP_ok.
  - by apply checkResolverScope_ok.
  - by apply checkConnectivityDomain_ok.
  - by apply checkBypassPrevention_ok.
  - by apply checkFilterLists_ok.
  - by apply checkCustomFilterList_ok.
  - by apply checkDomainHeuristics_ok.
  - by apply checkAutoPermitRelated_ok.
Qed.
Lemma decided_ok c : envOk -> checkCNAMEs (fEntity F) = opt g F FilterCNAMEs ->
  (dnsRequest F && sysResolver F = true -> localProfile (fLayers F) <> None) -> good g F c ->
  returns ('(done, action) ← runDeciders g (defaultDeciders g); concludeDecision g done action) c
    (fun _ c' => decidedAs g F (policy g F) c').
Proof.
  intros Henv Hcn Hl Hc. apply returns_bind.
  eapply returns_mono; [by apply runDeciders_ok; [apply defaultDeciders_ok|]|].
  intros [d a] c1. unfold policy. destruct (first_some id (table g F)) as [v|]; cbn [fst].
  - intros [-> Hv]. by apply returns_ret.
  - intros [[= -> ->] Hc1]. by apply concludeDecision_ok.
Qed.
End decision.

(** ** Preparation *)
#[local] Strategy 1000 [LoadLists EnableCNAMECheck ResolveSubDomainLists effective Update].
#[local] Arguments LoadLists : simpl never.
#[local] Arguments EnableCNAMECheck : simpl never.
#[local] Arguments ResolveSubDomainLists : simpl never.
Section prepare.
Context {IE : IntelEnv} {UT : UnicodeTables} {FE : FirewallEnv} (g : Cfg).

(** The layered profile, and the entity, after [updateProfile]. *)
Definition updatedLP (lp : LayeredProfile) : LayeredProfile :=
  if NeedsUpdate g lp then (Update g fetchProfile lp).2 else lp.
Definition updatedEntity (lp : LayeredProfile) (e : Entity) : Entity :=
  if NeedsUpdate g lp then ResetLists e else e.
Definition preparedEntity (lp : LayeredProfile) (e : Entity) : Entity :=
  LoadLists (EnableCNAMECheck (effective g FilterCNAMEs lp)
    (ResolveSubDomainLists (effective g FilterSubDomains lp) e)).
Lemma preparedEntity_eq lp e : preparedEntity lp e =
  LoadLists (EnableCNAMECheck (effective g FilterCNAMEs lp) (ResolveSubDomainLists (effective g FilterSubDomains lp) e)).
Proof. reflexivity. Qed.
(** The facts on which the decision for [c] is made. *)
Definition factsOf (c : Connection) (p : Process) (lp : LayeredProfile) (e : Entity) : Facts :=
  let lp' := updatedLP lp in
  mkFacts (Type_ c) (Inbound c) (IPProtocol c) (LocalIP c) (LocalPort c) (ResolverScope c) (verdict c)
    (p <| profile := None |>) lp' (preparedEntity lp' (updatedEntity lp e)).

Lemma mergeList_cnames key l e : checkCNAMEs (mergeList key l e) = checkCNAMEs e.
Proof. by destruct l. Qed.
Lemma loadDomains_cnames ds e : checkCNAMEs (loadDomains ds e) = checkCNAMEs e.
Proof.
  revert e. induction ds as [|d ds IH]; intros e; cbn [loadDomains]; [done|].
  destruct (LookupDomain d); [|done]. by rewrite IH, mergeList_cnames.
Qed.
Lemma getLocation_cnames e : checkCNAMEs (getLocation e) = checkCNAMEs e.
Proof. pose proof (getLocation_facts e) as Hf. by injection Hf. Qed.
Lemma LoadLists_cnames e : checkCNAMEs (LoadLists e) = checkCNAMEs e.
Proof.
  assert (forall x, checkCNAMEs (getDomainLists x) = checkCNAMEs x) as H1.
  { intros x. unfold getDomainLists. destruct (domainListLoaded x); [done|]. simpl.
    destruct (setOr (Domain x)); [|done]. destruct (loadDomainListOnce x); [done|]. by rewrite loadDomains_cnames. }
  assert (forall x, checkCNAMEs (getASNLists x) = checkCNAMEs x) as H2.
  { intros x. unfold getASNLists, GetASN. destruct (asnListLoaded x); [done|].
    pose proof (getLocation_cnames x) as E. set (y := getLocation x) in *.
    destruct (bool_decide _); [|done]. destruct (ASN y =? 0); [done|]. destruct (loadAsnListOnce y); [done|].
    destruct (LookupASNString _) as [l|]; [|done]. by destruct l. }
  assert (forall x, checkCNAMEs (getIPLists x) = checkCNAMEs x) as H3.
  { intros x. unfold getIPLists. destruct (ipListLoaded x); [done|]. destruct (GetIP x) as [a|]; [|done].
    destruct (negb _); [done|]. destruct (loadIPListOnce x); [done|]. destruct (LookupIP a) as [l|]; [|done].
    by destruct l. }
  assert (forall x, checkCNAMEs (getCountryLists x) = checkCNAMEs x) as H4.
  { intros x. unfold getCountryLists, GetCountry. destruct (countryListLoaded x); [done|].
    pose proof (getLocation_cnames x) as E. set (y := getLocation x) in *.
    destruct (bool_decide _); [|done]. destruct (bool_decide (Country y = [])); [done|].
    destruct (loadCountryListOnce y); [done|]. destruct (LookupCountry _) as [l|]; [|done]. by destruct l. }
  unfold LoadLists, getLists. by rewrite H4, H3, H2, H1.
Qed.
Lemma factsOf_cnames c p lp e : checkCNAMEs (fEntity (factsOf c p lp e)) = opt g (factsOf c p lp e) FilterCNAMEs.
Proof.
  unfold factsOf, opt. cbn [fEntity fLayers]. rewrite preparedEntity_eq, LoadLists_cnames. reflexivity.
Qed.
Lemma factsOf_resolver c p lp e : dnsRequest (factsOf c p lp e) && sysResolver (factsOf c p lp e) =
  bool_decide (Type_ c = DNSRequest) && IsSystemResolver (Some p).
Proof. reflexivity. Qed.
Lemma factsOf_local c p lp e : localProfile (fLayers (factsOf c p lp e)) = localProfile (updatedLP lp).
Proof. reflexivity. Qed.
Lemma entityInv_prepared lp lp' e : entityInv e ->
  located (preparedEntity lp' (updatedEntity lp e)).
Proof.
  intros Hi. apply LoadLists_located.
  assert (entityInv (updatedEntity lp e)) as [Hr Ha].
  { unfold updatedEntity. destruct (NeedsUpdate g lp); [|done]. destruct Hi as [Hr Ha].
    split; [|done]. by destruct Hr. }
  split; [|done]. by destruct Hr.
Qed.

(** The conditions on the connection: it has a process with a layered profile, and
    an entity. *)
Record connOk (c : Connection) (p : Process) (lp : LayeredProfile) (e : Entity) : Prop := {
  cn_process : process c = Some p;
  cn_profile : profile p = Some lp;
  cn_entity : entity c = Some e;
  cn_inv : entityInv e;
  cn_coherent : coherent g lp;
  cn_revision : RevisionCounter lp < 2 ^ 64 - 1;
}.

Lemma updateProfile_ok c p lp e F : connOk c p lp e -> F = factsOf c p lp e ->
  returns (updateProfile g lp) c (fun _ c' => goodConn g F c' /\ entity c' = Some (updatedEntity lp e)).
Proof.
  intros [Hp Hl He Hi Hc Hr] ->. unfold updateProfile, updatedEntity, factsOf, updatedLP. step.
  destruct (NeedsUpdate g lp) eqn:En.
  - destruct (coherent_update g fetchProfile lp Hc Hr) as [Hc' _].
    assert (globalValidityFlag (Update g fetchProfile lp).2 = Some (generation g)) as Hv.
    { unfold Update. destruct (updateLayers _ _ _ _ _) as [[ls ch] local]. cbn [globalValidityFlag set_field].
      destruct (ch || negb (IsValid g (globalValidityFlag lp))) eqn:E; [done|]. simpl.
      apply orb_false_iff in E as [_ E]. by apply negb_false_iff, bool_decide_eq_true in E. }
    destruct (Update g fetchProfile lp) as [rv lp']. simpl in Hc', Hv.
    apply returns_bind, returns_modify. apply returns_bind, returns_modify. apply returns_bind, returns_modify.
    apply returns_modify. simpl. rewrite Hp, He. split; [|done]. split; try done. simpl.
    by exists (p <| profile := Some lp' |>), lp'.
  - assert (goodConn g (factsOf c p lp e) c) as Hg.
    { unfold factsOf, updatedLP. rewrite En. split; try done. simpl. exists p, lp. split; [done|]. split; [done|].
      split; [done|]. split; try done. unfold NeedsUpdate in En. apply orb_false_iff in En as [En _].
      by apply negb_false_iff, bool_decide_eq_true in En. }
    unfold factsOf, updatedLP in Hg. rewrite En in Hg.
    destruct (_ =? _); [by apply returns_ret|]. apply returns_bind, returns_modify, returns_modify. simpl.
    split; [|done]. by destruct Hg.
Qed.
Lemma prepareEntity_ok c p lp e F c1 : connOk c p lp e -> F = factsOf c p lp e ->
  goodConn g F c1 -> entity c1 = Some (updatedEntity lp e) ->
  returns (prepareEntity g) c1 (fun _ c' => good g F c').
Proof.
  intros Hok HF Hc1 He1. unfold prepareEntity.
  assert (forall k, opt g F k = effective g k (updatedLP lp)) as Hopt by (by subst F).
  apply returns_bind, (option_conn g F); [done|]. intros c2 Hc2 E2. rewrite He1 in E2.
  apply returns_bind, returns_bind, returns_get. eapply returns_deref; [exact E2|].
  apply returns_bind, returns_modify. simpl.
  match goal with |- returns _ ?c _ => assert (goodConn g F c) as Hc3 by (by destruct Hc2) end.
  apply returns_bind, (option_conn g F); [exact Hc3|]. intros c4 Hc4 E4. simpl in E4.
  apply returns_bind, returns_bind, returns_get. eapply returns_deref; [exact E4|].
  apply returns_bind, returns_modify. apply returns_bind, returns_bind, returns_get.
  eapply returns_deref; [reflexivity|]. apply returns_modify. rewrite !Hopt.
  split; [by destruct Hc4|]. eexists. split; [reflexivity|].
  assert (fEntity F = preparedEntity (updatedLP lp) (updatedEntity lp e)) as HFe by (by subst F).
  rewrite <- preparedEntity_eq, <- HFe. split; [|reflexivity|rewrite HFe; apply getLists_done]. rewrite HFe. exact (entityInv_prepared lp _ e (cn_inv _ _ _ _ Hok)).
Qed.

(** The verdict is the policy's, and the rest is as the facts say. *)
Lemma decide_settled c p lp e : envOk -> connOk c p lp e ->
  (bool_decide (Type_ c = DNSRequest) && IsSystemResolver (Some p) = true -> localProfile (updatedLP lp) <> None) ->
  let F := factsOf c p lp e in
  exists c', decideOnConnection g c = Ret (tt, c') /\ decidedAs g F (policy g F) c'.
Proof.
  intros Henv Hok Hl F0.
  assert (returns (decideOnConnection g) c (fun _ c' => decidedAs g F0 (policy g F0) c')) as ([] & c' & H1 & H2);
    [|by exists c'].
  unfold F0, decideOnConnection. clear F0. step. rewrite (cn_process _ _ _ _ Hok). change (ProcProfile (Some p)) with (profile p).
  rewrite (cn_profile _ _ _ _ Hok).
  apply returns_bind. eapply returns_mono; [by eapply updateProfile_ok|]. intros [] c1 [Hc1 He1].
  apply returns_bind. eapply returns_mono; [by eapply prepareEntity_ok|]. intros [] c2 Hc2.
  pose proof (factsOf_cnames c p lp e) as Hcn. rewrite <- (factsOf_resolver c p lp e), <- (factsOf_local c p lp e) in Hl. revert Hl Hcn Hc2.
  generalize (factsOf c p lp e). intros F Hl Hcn Hc2. by apply decided_ok.
Qed.
Lemma decide_ok c p lp e : envOk -> connOk c p lp e ->
  (bool_decide (Type_ c = DNSRequest) && IsSystemResolver (Some p) = true -> localProfile (updatedLP lp) <> None) ->
  exists c', decideOnConnection g c = Ret (tt, c') /\ verdict c' = policy g (factsOf c p lp e).
Proof. intros Henv Hok Hl. destruct (decide_settled c p lp e Henv Hok Hl) as (c' & Hd & Hv & _). by exists c'. Qed.
End prepare.
