(* ===== verification/FirewallProps.v ===== *)
(** * Properties of the privacy filter

    The decision implements the policy of [FirewallPolicy], and what follows from
    it for connections in use: what is never accepted, what rules cannot override,
    how decisions fail; and the one-time permission of pre-authenticated ports. *)

From S2P Require Import Prelude GoStrings GoText GoNet GoNetFacts NetUtils Reference Entity EntityFacts Endpoints.
From S2P Require Import EndpointMatch Profile ProfileFacts Connection Firewall EntityView FirewallPolicy FirewallFacts.

(** ** Connections in use *)
Section inuse.
Context {IE : IntelEnv} {UT : UnicodeTables} {FE : FirewallEnv} (g : Cfg).

(** A connection with a process, whose layered profile has any history, and an
    entity on which any operations were done. *)
Record inUse (c : Connection) (p : Process) (lp : LayeredProfile) (e : Entity) : Prop := {
  iu_process : process c = Some p;
  iu_profile : profile p = Some lp;
  iu_entity : entity c = Some e;
  iu_history : exists n g0 p0, nsteps lpStep n (g0, NewLayeredProfile p0) (g, lp) /\ Z.of_nat n < 2 ^ 64 - 2;
  iu_ops : exists ip proto port domain cname dst ops,
    e = foldl (fun e o => entityExec o e) (EntityInit dst (newEntity ip proto port domain cname)) ops;
}.
Lemma inUse_ok c p lp e : inUse c p lp e -> connOk g c p lp e.
Proof.
  intros [Hp Hl He (n & g0 & p0 & Hs & Hn) (ip & proto & port & domain & cname & dst & ops & ->)].
  destruct (coherent_steps _ _ _ _ Hs) as [Hc Hr]; [apply coherent_new|simpl; lia|]. simpl in Hr.
  split; try done; [apply entityInv_ops|lia].
Qed.
(** The profile of the app is known if the system resolver makes a query. *)
Definition resolverProfile (c : Connection) (p : Process) (lp : LayeredProfile) : Prop :=
  bool_decide (Type_ c = DNSRequest) && IsSystemResolver (Some p) = true -> localProfile (updatedLP g lp) <> None.

Lemma decided c p lp e c' : envOk -> inUse c p lp e -> resolverProfile c p lp ->
  decideOnConnection g c = Ret (tt, c') -> verdict c' = policy g (factsOf g c p lp e).
Proof.
  intros Henv Hu Hl Hd. destruct (decide_ok g c p lp e Henv (inUse_ok _ _ _ _ Hu) Hl) as (c1 & H1 & <-).
  rewrite Hd in H1. by injection H1 as ->.
Qed.

(** The policy, row by row. *)
Lemma policy_rows F : policy g F =
  if ownConnection F then VerdictAccept else if broadcastReply F then VerdictAccept
  else if blockedInbound g F then VerdictDrop else if blockedP2P g F then VerdictBlock
  else match blockedScope g F with Some v => v | None =>
  match byRules g F with Some v => v | None =>
  if invalidIP F then deny F else if outOfScope g F then VerdictBlock
  else if connectivityGrant g F then VerdictAccept else if bypass g F then VerdictBlock
  else if onFilterList g F then deny F else if onCustomList g F then deny F
  else if suspiciousDomain g F then VerdictBlock else if autoPermitted g F then VerdictAccept
  else defaultVerdict g F end end.
Proof.
  unfold policy, table, when. cbn [first_some]. unfold id.
  destruct (ownConnection F); [done|]. destruct (broadcastReply F); [done|].
  destruct (blockedInbound g F); [done|]. destruct (blockedP2P g F); [done|].
  destruct (blockedScope g F); [done|]. destruct (byRules g F); [done|].
  destruct (invalidIP F); [done|]. destruct (outOfScope g F); [done|].
  destruct (connectivityGrant g F); [done|]. destruct (bypass g F); [done|].
  destruct (onFilterList g F); [done|]. destruct (onCustomList g F); [done|].
  destruct (suspiciousDomain g F); [done|]. by destruct (autoPermitted g F).
Qed.
Lemma deny_refuses F : deny F = VerdictBlock \/ deny F = VerdictDrop.
Proof. unfold deny. destruct (fInbound F); auto. Qed.
Lemma deny_not_accept F : deny F <> VerdictAccept.
Proof. by destruct (deny_refuses F) as [-> | ->]. Qed.
Lemma blockedScope_refuses F v : blockedScope g F = Some v -> v = VerdictBlock \/ v = VerdictDrop.
Proof.
  unfold blockedScope. pose proof (deny_refuses F).
  destruct (dnsRequest F); [destruct (_ && _); intros [= <-]; auto|].
  destruct (scope F); try done; destruct (opt _ _ _); intros [= <-]; auto.
Qed.
Lemma byRules_cases F : byRules g F = match ruleResult g F with
  | NoMatch => None | Permitted => Some VerdictAccept | Denied | MatchError => Some (deny F) end.
Proof. done. Qed.

(** The checks before the rules let the connection through. *)
Definition networkAllows (F : Facts) : Prop :=
  blockedInbound g F = false /\ blockedP2P g F = false /\ blockedScope g F = None.
(** The checks after the rules let the connection through. *)
Definition filtersAllow (F : Facts) : Prop :=
  bypass g F = false /\ onFilterList g F = false /\ onCustomList g F = false /\ suspiciousDomain g F = false.
(** Why a connection is accepted. *)
Definition justified (F : Facts) : Prop :=
  ownConnection F = true \/ broadcastReply F = true \/
  (networkAllows F /\
   (ruleResult g F = Permitted \/
    (ruleResult g F = NoMatch /\ invalidIP F = false /\ outOfScope g F = false /\
     (connectivityGrant g F = true \/
      (filtersAllow F /\ (autoPermitted g F = true \/ defaultVerdict g F = VerdictAccept)))))).
Lemma policy_accepts F : policy g F = VerdictAccept <-> justified F.
Proof.
  rewrite policy_rows, byRules_cases. unfold justified, networkAllows, filtersAllow.
  pose proof (deny_not_accept F) as Hd.
  destruct (ownConnection F); [tauto|]. destruct (broadcastReply F); [tauto|].
  destruct (blockedInbound g F); [intuition congruence|]. destruct (blockedP2P g F); [intuition congruence|].
  destruct (blockedScope g F) as [v|] eqn:Es; [apply blockedScope_refuses in Es; intuition congruence|].
  destruct (ruleResult g F); [|intuition congruence..].
  destruct (invalidIP F); [intuition congruence|]. destruct (outOfScope g F); [intuition congruence|].
  destruct (connectivityGrant g F); [intuition congruence|]. destruct (bypass g F); [intuition congruence|].
  destruct (onFilterList g F); [intuition congruence|]. destruct (onCustomList g F); [intuition congruence|].
  destruct (suspiciousDomain g F); [intuition congruence|]. destruct (autoPermitted g F); intuition congruence.
Qed.
End inuse.

(** ** The decision *)

(** C1. [decideOnConnection] implements the policy: for a connection in use it
    returns, without panic, and its verdict is that of the first row of the policy
    table that applies to the facts, else the default; caches, the loading of data
    and the order of loading make no difference. *)
Theorem decide_policy {IE : IntelEnv} {UT : UnicodeTables} {FE : FirewallEnv} g c p lp e :
  envOk -> inUse g c p lp e -> resolverProfile g c p lp ->
  exists c', decideOnConnection g c = Ret (tt, c') /\ verdict c' = policy g (factsOf g c p lp e).
Proof. intros Henv Hu Hl. by apply decide_ok; [|apply inUse_ok|]. Qed.

(** C3. A connection is accepted exactly when it is Portmaster's own or a reply to
    a request, or the network checks let it through and a rule permits it, or no rule
    applies and it passes every check after the rules by a grant or by default. *)
Theorem accept_justified {IE : IntelEnv} {UT : UnicodeTables} {FE : FirewallEnv} g c p lp e c' :
  envOk -> inUse g c p lp e -> resolverProfile g c p lp -> decideOnConnection g c = Ret (tt, c') ->
  (verdict c' = VerdictAccept <-> justified g (factsOf g c p lp e)).
Proof. intros Henv Hu Hl Hd. rewrite (decided g c p lp e c' Henv Hu Hl Hd). apply policy_accepts. Qed.

(** C2. No rule overrides the network checks: connections that are neither
    Portmaster's own nor replies are dropped when incoming connections are blocked,
    blocked when they are peer-to-peer and that is blocked, and get the refusing
    verdict of a blocked scope, whatever the rules and lists say. *)
Theorem network_blocks_final {IE : IntelEnv} {UT : UnicodeTables} {FE : FirewallEnv} g c p lp e c' :
  let F := factsOf g c p lp e in
  envOk -> inUse g c p lp e -> resolverProfile g c p lp -> decideOnConnection g c = Ret (tt, c') ->
  ownConnection F = false -> broadcastReply F = false ->
  (blockedInbound g F = true -> verdict c' = VerdictDrop) /\
  (blockedInbound g F = false -> blockedP2P g F = true -> verdict c' = VerdictBlock) /\
  (is_Some (blockedScope g F) -> verdict c' = VerdictBlock \/ verdict c' = VerdictDrop).
Proof.
  intros F Henv Hu Hl Hd Ho Hb. rewrite (decided g c p lp e c' Henv Hu Hl Hd). fold F.
  rewrite policy_rows, Ho, Hb. split; [by intros ->|]. split; [by intros -> ->|]. intros [v Hv].
  destruct (blockedInbound g F); [by right|]. destruct (blockedP2P g F); [by left|].
  rewrite Hv. by apply blockedScope_refuses in Hv.
Qed.

(** C4. The rules precede the filters and fail closed: when the earlier checks let a
    connection through, a permitting rule accepts it although filter lists, bypass
    prevention or heuristics would refuse it, and a denying rule or one whose data
    is not available refuses it. *)
Theorem rules_decide {IE : IntelEnv} {UT : UnicodeTables} {FE : FirewallEnv} g c p lp e c' :
  let F := factsOf g c p lp e in
  envOk -> inUse g c p lp e -> resolverProfile g c p lp -> decideOnConnection g c = Ret (tt, c') ->
  ownConnection F = false -> broadcastReply F = false -> networkAllows g F ->
  (ruleResult g F = Permitted -> verdict c' = VerdictAccept) /\
  (ruleResult g F = Denied \/ ruleResult g F = MatchError ->
   verdict c' = if Inbound c then VerdictDrop else VerdictBlock).
Proof.
  intros F Henv Hu Hl Hd Ho Hb (H1 & H2 & H3). rewrite (decided g c p lp e c' Henv Hu Hl Hd). fold F.
  rewrite policy_rows, byRules_cases, Ho, Hb, H1, H2, H3.
  split; [by intros ->|]. by intros [-> | ->].
Qed.

Definition final (v : Verdict) : Prop := v = VerdictAccept \/ v = VerdictBlock \/ v = VerdictDrop.
Lemma final_intro v : v = VerdictAccept \/ v = VerdictBlock \/ v = VerdictDrop -> final v.
Proof. done. Qed.
#[local] Hint Resolve final_intro : core.
(** Every decision is one: an undecided connection is accepted, blocked or
    dropped, unless the default action is to ask and the prompt has no outcome. *)
Theorem verdict_decided {IE : IntelEnv} {UT : UnicodeTables} {FE : FirewallEnv} g c p lp e c' :
  envOk -> inUse g c p lp e -> resolverProfile g c p lp -> decideOnConnection g c = Ret (tt, c') ->
  verdict c = VerdictUndecided ->
  final (verdict c') \/
  (verdict c' = VerdictUndecided /\ DefaultAction g (updatedLP g lp) = DefaultActionAsk /\ prompted = PromptNone).
Proof.
  intros Henv Hu Hl Hd Hc. rewrite (decided g c p lp e c' Henv Hu Hl Hd). set (F := factsOf g c p lp e).
  assert (final (deny F)) as Hdeny
    by (destruct (deny_refuses F) as [-> | ->]; auto).
  assert (fVerdict F = VerdictUndecided) as HF by done.
  assert (final (defaultVerdict g F) \/ (defaultVerdict g F = VerdictUndecided /\
    DefaultAction g (fLayers F) = DefaultActionAsk /\ prompted = PromptNone)) as Hdef.
  { unfold defaultVerdict. destruct (dnsRequest F); [left; auto|].
    destruct (_ =? DefaultActionPermit); [left; auto|].
    destruct (Z.eqb_spec (DefaultAction g (fLayers F)) DefaultActionAsk) as [E|]; [|by left].
    rewrite HF. simpl. unfold promptVerdict.
    destruct prompted as [|a|a| |]; [by right|destruct (isAllow a)..| |]; left; auto. }
  change (fLayers F) with (updatedLP g lp) in Hdef. clearbody F. revert Hdef Hdeny.
  rewrite policy_rows. clear HF. generalize (defaultVerdict g F). intros v Hv Hdeny.
  pose proof (blockedScope_refuses g F) as Hs. rewrite byRules_cases.
  repeat match goal with |- context [if ?b then _ else _] => destruct b; [by left; auto|] end.
  destruct (blockedScope g F) as [s|]; [destruct (Hs s eq_refl) as [-> | ->]; left; auto|].
  destruct (ruleResult g F); [|by left; auto..].
  repeat match goal with |- context [if ?b then _ else _] => destruct b; [by left; auto|] end. done.
Qed.

(** Without a process or its profile every connection is refused. *)
Theorem unknown_profile_refused {IE : IntelEnv} {UT : UnicodeTables} {FE : FirewallEnv} g c :
  ProcProfile (process c) = None ->
  exists c', decideOnConnection g c = Ret (tt, c') /\ verdict c' = (if Inbound c then VerdictDrop else VerdictBlock) /\
    Msg (reasonInfo c') = $"unknown process or profile".
Proof.
  intros Hp. unfold decideOnConnection, mbind, M_bind, get. rewrite Hp. eexists. split; [reflexivity|].
  unfold Deny, DenyWithContext. by destruct (Inbound c).
Qed.

(** A blocked local network refuses incoming connections with the verdict
    meant for outgoing ones: they are blocked, not dropped like those from the
    Internet. *)
Theorem lan_inbound_blocked {IE : IntelEnv} {UT : UnicodeTables} {FE : FirewallEnv} g c p lp e c' :
  let F := factsOf g c p lp e in
  envOk -> inUse g c p lp e -> resolverProfile g c p lp -> decideOnConnection g c = Ret (tt, c') ->
  Type_ c = IPConnection -> Inbound c = true ->
  ownConnection F = false -> broadcastReply F = false -> opt g F BlockInbound = false ->
  (IsLAN (scope F) = true -> opt g F BlockScopeLAN = true -> verdict c' = VerdictBlock) /\
  (IsGlobal (scope F) = true -> opt g F BlockScopeInternet = true -> verdict c' = VerdictDrop).
Proof.
  intros F Henv Hu Hl Hd Ht Hi Ho Hb Hbi. rewrite (decided g c p lp e c' Henv Hu Hl Hd). fold F.
  assert (blockedP2P g F = false /\ dnsRequest F = false /\ deny F = VerdictDrop) as (Hp & Hdns & Hdeny).
  { unfold blockedP2P, dnsRequest, deny. change (fInbound F) with (Inbound c). change (fType F) with (Type_ c).
    by rewrite Hi, Ht, andb_false_r. }
  rewrite policy_rows, Ho, Hb, Hp. unfold blockedInbound, blockedScope. rewrite Hbi, Hdns, Hdeny. clearbody F.
  split; intros Hs ->; by destruct (scope F).
Qed.

(** ** A failed update of the profile *)
Lemma updateLayers_local fetch i ls changed local : (updateLayers fetch (S i) ls changed local).2 = local.
Proof.
  revert i changed local. induction ls as [|p ls IH]; intros i changed local; [done|]. cbn [updateLayers].
  destruct (outdated p); [destruct (negb _)|].
  all: match goal with |- context [updateLayers ?f ?j ?l ?ch ?lo] =>
    specialize (IH (S i) ch lo); destruct (updateLayers f j l ch lo) as [[? ?] ?] end; done.
Qed.
Lemma failed_update g fetch lp first rest err : layers lp = first :: rest -> outdated first = true ->
  Source first = SourceLocal -> fetch (ID first) = inr err -> localProfile (Update g fetch lp).2 = None.
Proof.
  intros Hl Ho Hs Hf. unfold Update. rewrite Hl. cbn [updateLayers]. rewrite Ho, Hs, bool_decide_true, Hf by done.
  simpl negb. cbv iota. match goal with |- context [updateLayers fetch 1 rest true ?l] =>
    pose proof (updateLayers_local fetch 0 rest true l) as Hn; destruct (updateLayers fetch 1 rest true l) as [[ls ch] local] end.
  simpl in Hn. subst local.
  by destruct (ch || _).
Qed.

Section panics.
Context {IE : IntelEnv} {UT : UnicodeTables} {FE : FirewallEnv} (g : Cfg) (F : Facts).
Lemma returns_panic {A B} (m : M A) (f : A -> M B) c :
  returns m c (fun a c' => f a c' = Panic) -> (m ≫= f) c = Panic.
Proof. intros (a & c' & Hm & Hf). unfold mbind, M_bind. by rewrite Hm. Qed.
Lemma runDeciders_panic ds rs d ds' c : Forall2 (decides g F) ds rs -> first_some id rs = None ->
  (forall c', good g F c' -> d c' = Panic) -> good g F c -> runDeciders g (ds ++ d :: ds') c = Panic.
Proof.
  intros Hds Hn Hd. revert c Hn. induction Hds as [|d1 r ds rs Hd1 Hds IH]; intros c Hn Hc.
  - simpl. unfold mbind, M_bind. by rewrite (Hd c Hc).
  - cbn [app runDeciders]. apply returns_panic. eapply returns_mono; [by apply Hd1|].
    cbn [first_some] in Hn. unfold id in Hn. destruct r; [done|]. intros b c' [-> Hc']. by apply IH.
Qed.
Lemma rules_panic c : dnsRequest F && sysResolver F = true -> localProfile (fLayers F) = None ->
  good g F c -> checkEndpointLists g c = Panic.
Proof.
  intros Hd Hl Hc. unfold checkEndpointLists. apply returns_panic, returns_get.
  destruct (proc_good g F c Hc) as (p & _ & _ & Hs & _). rewrite Hs, (gc_type _ _ _ (proj1 Hc)).
  unfold dnsRequest in Hd. rewrite Hd. unfold checkEndpointListsForSystemResolverDNSRequests.
  apply returns_panic. apply (returns_getLP g F); [done|]. intros lp Hlp _.
  unfold mbind, M_bind, deref. by rewrite (gl_local _ _ _ Hlp), Hl.
Qed.
End panics.

(** After a failed update of the app's profile, the filter panics on DNS
    requests of the system resolver that reach the rules. *)
Theorem resolver_update_panics {IE : IntelEnv} {UT : UnicodeTables} {FE : FirewallEnv} g c p lp e first rest err :
  let F := factsOf g c p lp e in
  envOk -> inUse g c p lp e -> Type_ c = DNSRequest -> IsSystemResolver (Some p) = true ->
  layers lp = first :: rest -> outdated first = true -> Source first = SourceLocal ->
  fetchProfile (ID first) = inr err ->
  ownConnection F = false -> broadcastReply F = false -> networkAllows g F ->
  decideOnConnection g c = Panic.
Proof.
  intros F Henv Hu Ht Hs Hl Ho Hsrc Hf Hown Hrep (Hn1 & Hn2 & Hn3).
  assert (localProfile (fLayers F) = None) as Hlocal.
  { unfold F. rewrite factsOf_local. unfold updatedLP, NeedsUpdate. rewrite Hl. cbn [existsb]. rewrite Ho, orb_true_r.
    by eapply failed_update. }
  assert (dnsRequest F && sysResolver F = true) as Hres.
  { unfold F. by rewrite factsOf_resolver, Ht, Hs, bool_decide_true. }
  pose proof (inUse_ok _ _ _ _ _ Hu) as Hok. unfold decideOnConnection. apply returns_panic, returns_get.
  rewrite (iu_process _ _ _ _ _ Hu). change (ProcProfile (Some p)) with (profile p). rewrite (iu_profile _ _ _ _ _ Hu).
  apply returns_panic. eapply returns_mono; [by apply (updateProfile_ok g c p lp e F)|]. intros [] c1 [Hc1 He1].
  apply returns_panic. eapply returns_mono; [by eapply (prepareEntity_ok g c p lp e F)|]. intros [] c2 Hc2.
  clearbody F. unfold mbind, M_bind.
  match goal with |- match ?x with _ => _ end = _ => assert (x = Panic) as ->; [|done] end.
  apply (runDeciders_panic g F [checkPortmasterConnection g; checkIfBroadcastReply g; checkConnectionType g; checkConnectionScope g]
    [when (ownConnection F) VerdictAccept; when (broadcastReply F) VerdictAccept;
     (if blockedInbound g F then Some VerdictDrop else when (blockedP2P g F) VerdictBlock); blockedScope g F]); [|..|done].
  - destruct Henv. repeat first [apply Forall2_cons; split | apply Forall2_nil_2].
    + apply checkPortmasterConnection_ok.
    + by apply checkIfBroadcastReply_ok.
    + by apply checkConnectionType_ok.
    + by apply checkConnectionScope_ok.
  - by rewrite Hown, Hrep, Hn1, Hn2, Hn3.
  - intros c3 Hc3. by apply (rules_panic g F).
Qed.

(** ** Pre-authenticated ports *)
(** The protocol (8 bits) and port (16 bits) of a key. *)
Definition portOk (x : Z * Z) : Prop := 0 <= x.1 < 2 ^ 8 /\ 0 <= x.2 < 2 ^ 16.
Definition keyOf (x : Z * Z) : str := generateLocalPreAuthKey x.1 x.2.
Lemma keyOf_inj x y : portOk x -> portOk y -> keyOf x = keyOf y -> x = y.
Proof.
  destruct x as [p1 q1], y as [p2 q2]. intros [Hp1 Hq1] [Hp2 Hq2] E. cbn [fst snd] in *.
  assert (forall z, 0 <= z < 2 ^ 16 -> ":"%char ∉ Itoa z) as Hno.
  { intros z Hz Hin. apply Itoa_digits in Hin; [done|lia]. }
  unfold keyOf, generateLocalPreAuthKey in E. cbn [fst snd] in E.
  apply app_sep_inj in E as [E1 E2]; [|apply Hno; lia..].
  apply Itoa_inj in E1; [|lia..]. apply Itoa_inj in E2; [|lia..]. by subst.
Qed.

(** The set of keys against a set of pairs. *)
Definition represents (ports : gset str) (S : gset (Z * Z)) : Prop :=
  (forall x, x ∈ S -> portOk x) /\ ports = set_map keyOf S.
Inductive preOp := Permit (unused : option Z) (protocol : Z) | Consume (protocol port : Z).
Definition preOpOk (o : preOp) : Prop :=
  match o with
  | Permit (Some port) protocol | Consume protocol port => portOk (protocol, port)
  | Permit None protocol => True
  end.
(** An operation on the keys, and what it means: a permission is granted, or used
    up by the connection that has it. *)
Definition preExec (o : preOp) (ports : gset str) : Z * gset str :=
  match o with
  | Permit unused protocol => GetPermittedPort unused protocol ports
  | Consume protocol port => let '(ok, ports) := localPortIsPreAuthenticated protocol port ports in (Z.b2z ok, ports)
  end.
Definition preSpec (o : preOp) (S : gset (Z * Z)) : Z * gset (Z * Z) :=
  match o with
  | Permit None _ => (0, S)
  | Permit (Some port) protocol => (port, {[(protocol, port)]} ∪ S)
  | Consume protocol port => (Z.b2z (bool_decide ((protocol, port) ∈ S)), S ∖ {[(protocol, port)]})
  end.
Fixpoint runs {A} (exec : preOp -> A -> Z * A) (ops : list preOp) (s : A) : list Z * A :=
  match ops with
  | [] => ([], s)
  | o :: ops => let '(r, s) := exec o s in let '(rs, s) := runs exec ops s in (r :: rs, s)
  end.
Lemma preExec_refines o ports S : preOpOk o -> represents ports S ->
  (preExec o ports).1 = (preSpec o S).1 /\ represents (preExec o ports).2 (preSpec o S).2.
Proof.
  intros Ho [HS ->]. destruct o as [[port|] protocol|protocol port]; simpl.
  - split; [done|]. split; [set_solver|]. rewrite set_map_union_L, set_map_singleton_L. done.
  - done.
  - unfold localPortIsPreAuthenticated. change (generateLocalPreAuthKey protocol port) with (keyOf (protocol, port)).
    assert (keyOf (protocol, port) ∈ (set_map keyOf S : gset str) <-> (protocol, port) ∈ S) as Hin.
    { rewrite elem_of_map. split; [|by eauto]. intros (x & Hk & Hx). apply keyOf_inj in Hk; [by subst|done|by apply HS]. }
    case_bool_decide as H1; simpl.
    + rewrite bool_decide_true by (by apply Hin). split; [done|]. split; [set_solver|].
      apply set_eq. intros k. rewrite elem_of_difference, !elem_of_map, elem_of_singleton. split.
      * intros [(x & -> & Hx) Hne]. exists x. split; [done|]. apply elem_of_difference. split; [done|].
        rewrite elem_of_singleton. by intros ->.
      * intros (x & -> & Hx). apply elem_of_difference in Hx as [Hx Hne]. rewrite elem_of_singleton in Hne.
        split; [by eauto|]. intros Hk. apply Hne, keyOf_inj; [by apply HS|done|done].
    + assert ((protocol, port) ∉ S) as H2 by (by rewrite <- Hin). rewrite bool_decide_false by done.
      split; [done|]. split; [set_solver|]. f_equal. apply set_eq. intros x. set_solver.
Qed.

(** Pre-authenticated ports are permissions that are used up: for any sequence
    of grants and checks, the keys in the map answer as a set of pairs of protocol and
    port from which a check removes what it finds. *)
Theorem preauth_refines ops : Forall preOpOk ops ->
  (runs preExec ops ∅).1 = (runs preSpec ops ∅).1.
Proof.
  assert (represents ∅ ∅) as Hr by (split; [set_solver|by rewrite set_map_empty]).
  revert Hr. generalize (∅ : gset str), (∅ : gset (Z * Z)). induction ops as [|o ops IH]; intros ports S Hr Ho; [done|].
  apply Forall_cons in Ho as [Ho Hos]. destruct (preExec_refines o ports S Ho Hr) as [Hv Hr'].
  simpl. destruct (preExec o ports) as [r ports'], (preSpec o S) as [r' S']. simpl in *. subst r'.
  specialize (IH _ _ Hr' Hos). destruct (runs preExec ops ports'), (runs preSpec ops S'). simpl in *. by rewrite IH.
Qed.
Lemma preauth_refines_witness :
  (runs preExec [Permit (Some 5353) 17; Consume 6 5353; Consume 17 5353; Consume 17 5353; Permit None 6] ∅).1 = [5353; 0; 1; 0; 0].
Proof.
  rewrite preauth_refines; [vm_compute; reflexivity|].
  repeat (apply Forall_cons_2; [unfold preOpOk, portOk; cbn [fst snd]; first [exact I|lia]|]). apply Forall_nil_2.
Defined.

(** ** Witnesses *)
Module FirewallDemo.
Definition envWith (fetch : str -> result Profile) : FirewallEnv := {|
  ownPID := 1; IsMyIP ip := inl false; GetLocalNetwork ip := inl None; activeConns := [];
  GetOnlineStatus := 5; IsConnectivityDomain d := false; GetUnbreakFilterListIDs := [$"UNBREAK"];
  customListsLoaded := true; customLookupDomain d sub := None; customLookupIP ip := false;
  customLookupASN n := false; customLookupCountry c := false; EffectiveTLDPlusOne d := inr $"no suffix";
  LmsScoreBelow d n := false; LmsScoreOfDomainBelow d n := false; levenshteinClose a b := false;
  ResolverIsDisabled := false; prompted := PromptTimeout; fetchProfile := fetch;
|}.
Definition env : FirewallEnv := envWith ProfileDemo.fetch.
Definition failing : FirewallEnv := envWith (fun _ => inr $"not found").
Definition unicode : UnicodeTables := {| unicodeLower s := s; unicodeUpper s := s |}.

(** An app with the given settings; all other settings are the global [b]. *)
Definition app (settings : Perspective) (out : bool) : Profile :=
  (ProfileDemo.prof <| configPerspective := settings |>) <| outdated := out |>.
Definition layered (settings : Perspective) (out : bool) : LayeredProfile := NewLayeredProfile (app settings out).
Definition proc (id : str) (lp : LayeredProfile) : Process :=
  mkProcess 100 $"app" $"/bin/app" $"app" id (Some lp).
Definition remote (ip : IP) : Entity := EntityInit 0 (newEntity (Some ip) 6 443 [] []).
Definition conn (ty : ConnectionType) (inbound : bool) (p : Process) (e : Entity) : Connection :=
  mkConn ty [] inbound 6 [10; 0; 0; 1] SiteLocal 5000 (Some e) None VerdictUndecided
    (mkReasonInfo [] [] [] NoCtx) 0 false false false true (Some p) false 0.
Definition cfg (b : bool) : Cfg := ProfileDemo.cfg 1 b.

Lemma env_ok fetch : envOk (IE := Demo.env) (FE := envWith fetch).
Proof. split; [intros ks; exact (Permutation_refl ks)|exact demo_errors|constructor]. Defined.
Lemma in_use settings out id ty inbound b ip :
  let lp := layered settings out in
  inUse (IE := Demo.env) (cfg b) (conn ty inbound (proc id lp) (remote ip)) (proc id lp) lp (remote ip).
Proof.
  split; [reflexivity|reflexivity|reflexivity| |].
  - exists 0%nat, (cfg b), (app settings out). split; [apply nsteps_O|lia].
  - exists (Some ip), 6, 443, [], [], 0, []. reflexivity.
Defined.
End FirewallDemo.
#[local] Existing Instances Demo.env FirewallDemo.unicode FirewallDemo.env.

(** The decision for the demo connection: it returns with the policy's verdict. *)
Lemma demo_decided settings out id ty inbound b ip v :
  let lp := FirewallDemo.layered settings out in
  let p := FirewallDemo.proc id lp in
  let c := FirewallDemo.conn ty inbound p (FirewallDemo.remote ip) in
  resolverProfile (FirewallDemo.cfg b) c p lp ->
  policy (FirewallDemo.cfg b) (factsOf (FirewallDemo.cfg b) c p lp (FirewallDemo.remote ip)) = v ->
  exists c', decideOnConnection (FirewallDemo.cfg b) c = Ret (tt, c') /\ verdict c' = v.
Proof.
  intros lp p c Hl <-. apply decide_ok; [apply FirewallDemo.env_ok|apply inUse_ok, FirewallDemo.in_use|exact Hl].
Qed.

Lemma decide_policy_witness :
  exists c', decideOnConnection (FirewallDemo.cfg false) (FirewallDemo.conn IPConnection false
    (FirewallDemo.proc $"local/app" (FirewallDemo.layered ∅ false)) (FirewallDemo.remote [1; 2; 3; 4])) = Ret (tt, c') /\
    verdict c' = VerdictBlock.
Proof.
  destruct (decide_policy (FirewallDemo.cfg false) _ _ _ _ (FirewallDemo.env_ok ProfileDemo.fetch)
    (FirewallDemo.in_use ∅ false $"local/app" IPConnection false false [1; 2; 3; 4])) as (c' & H1 & H2).
  - intros H. vm_compute in H. discriminate.
  - exists c'. split; [exact H1|]. rewrite H2. vm_compute. reflexivity.
Defined.

Lemma accept_justified_witness :
  let c := FirewallDemo.conn IPConnection false (FirewallDemo.proc $"local/app" (FirewallDemo.layered ∅ false))
    (FirewallDemo.remote [5; 6; 7; 8]) in
  exists c' F, decideOnConnection (FirewallDemo.cfg false) c = Ret (tt, c') /\ verdict c' = VerdictAccept /\
    justified (FirewallDemo.cfg false) F.
Proof.
  destruct (demo_decided ∅ false $"local/app" IPConnection false false [5; 6; 7; 8] VerdictAccept) as (c' & H1 & H2);
    [intros H; vm_compute in H; discriminate|vm_compute; reflexivity|].
  exists c'. eexists. split; [exact H1|]. split; [exact H2|].
  apply (accept_justified (FirewallDemo.cfg false) _ _ _ _ c' (FirewallDemo.env_ok ProfileDemo.fetch)
    (FirewallDemo.in_use ∅ false $"local/app" IPConnection false false [5; 6; 7; 8])); [|exact H1|exact H2].
  intros H. vm_compute in H. discriminate.
Defined.

Lemma network_blocks_final_witness :
  exists c', decideOnConnection (FirewallDemo.cfg true) (FirewallDemo.conn IPConnection true
    (FirewallDemo.proc $"local/app" (FirewallDemo.layered ∅ false)) (FirewallDemo.remote [5; 6; 7; 8])) = Ret (tt, c') /\
    verdict c' = VerdictDrop.
Proof.
  destruct (demo_decided ∅ false $"local/app" IPConnection true true [5; 6; 7; 8] VerdictDrop) as (c' & H1 & H2);
    [intros H; vm_compute in H; discriminate|vm_compute; reflexivity|].
  exists c'. split; [exact H1|].
  apply (network_blocks_final (FirewallDemo.cfg true) _ _ _ _ c' (FirewallDemo.env_ok ProfileDemo.fetch)
    (FirewallDemo.in_use ∅ false $"local/app" IPConnection true true [5; 6; 7; 8]));
    [intros H; vm_compute in H; discriminate|exact H1|vm_compute; reflexivity..].
Defined.

Lemma rules_decide_witness :
  exists c', decideOnConnection (FirewallDemo.cfg false) (FirewallDemo.conn IPConnection false
    (FirewallDemo.proc $"local/app" (FirewallDemo.layered ∅ false)) (FirewallDemo.remote [1; 2; 3; 4])) = Ret (tt, c') /\
    verdict c' = VerdictBlock.
Proof.
  destruct (demo_decided ∅ false $"local/app" IPConnection false false [1; 2; 3; 4] VerdictBlock) as (c' & H1 & H2);
    [intros H; vm_compute in H; discriminate|vm_compute; reflexivity|].
  exists c'. split; [exact H1|].
  apply (rules_decide (FirewallDemo.cfg false) _ _ _ _ c' (FirewallDemo.env_ok ProfileDemo.fetch)
    (FirewallDemo.in_use ∅ false $"local/app" IPConnection false false [1; 2; 3; 4]));
    [intros H; vm_compute in H; discriminate|exact H1|vm_compute; reflexivity..| |].
  - split; [|split]; vm_compute; reflexivity.
  - left. vm_compute. reflexivity.
Defined.

Lemma verdict_decided_witness :
  exists c', decideOnConnection (FirewallDemo.cfg false) (FirewallDemo.conn IPConnection false
    (FirewallDemo.proc $"local/app" (FirewallDemo.layered ∅ false)) (FirewallDemo.remote [1; 2; 3; 4])) = Ret (tt, c') /\
    (final (verdict c') \/ (verdict c' = VerdictUndecided /\ DefaultAction (FirewallDemo.cfg false)
      (updatedLP (FirewallDemo.cfg false) (FirewallDemo.layered ∅ false)) = DefaultActionAsk /\ prompted = PromptNone)).
Proof.
  destruct (demo_decided ∅ false $"local/app" IPConnection false false [1; 2; 3; 4] VerdictBlock) as (c' & H1 & H2);
    [intros H; vm_compute in H; discriminate|vm_compute; reflexivity|].
  exists c'. split; [exact H1|].
  apply (verdict_decided (FirewallDemo.cfg false) _ _ _ _ c' (FirewallDemo.env_ok ProfileDemo.fetch)
    (FirewallDemo.in_use ∅ false $"local/app" IPConnection false false [1; 2; 3; 4]));
    [intros H; vm_compute in H; discriminate|exact H1|reflexivity].
Defined.

Lemma unknown_profile_refused_witness :
  let c := FirewallDemo.conn IPConnection true (mkProcess 100 [] [] [] [] None) (FirewallDemo.remote [5; 6; 7; 8]) in
  exists c', decideOnConnection (FirewallDemo.cfg false) c = Ret (tt, c') /\ verdict c' = VerdictDrop.
Proof.
  destruct (unknown_profile_refused (FirewallDemo.cfg false) (FirewallDemo.conn IPConnection true
    (mkProcess 100 [] [] [] [] None) (FirewallDemo.remote [5; 6; 7; 8])) eq_refl) as (c' & H1 & H2 & _).
  exists c'. split; [exact H1|exact H2].
Defined.

Lemma lan_inbound_blocked_witness :
  exists c', decideOnConnection (FirewallDemo.cfg false) (FirewallDemo.conn IPConnection true
    (FirewallDemo.proc $"local/app" (FirewallDemo.layered (ProfileDemo.set BlockScopeLAN true) false))
    (FirewallDemo.remote [192; 168; 0; 7])) = Ret (tt, c') /\ verdict c' = VerdictBlock.
Proof.
  destruct (demo_decided (ProfileDemo.set BlockScopeLAN true) false $"local/app" IPConnection true false [192; 168; 0; 7]
    VerdictBlock) as (c' & H1 & H2); [intros H; vm_compute in H; discriminate|vm_compute; reflexivity|].
  exists c'. split; [exact H1|].
  apply (lan_inbound_blocked (FirewallDemo.cfg false) _ _ _ _ c' (FirewallDemo.env_ok ProfileDemo.fetch)
    (FirewallDemo.in_use (ProfileDemo.set BlockScopeLAN true) false $"local/app" IPConnection true false [192; 168; 0; 7]));
    [intros H; vm_compute in H; discriminate|exact H1|vm_compute; reflexivity..].
Defined.

Lemma resolver_update_panics_witness :
  decideOnConnection (FE := FirewallDemo.failing) (FirewallDemo.cfg false) (FirewallDemo.conn DNSRequest false
    (FirewallDemo.proc systemResolverScopedID (FirewallDemo.layered ∅ true)) (FirewallDemo.remote [5; 6; 7; 8])) = Panic.
Proof.
  eapply (resolver_update_panics (FE := FirewallDemo.failing) (FirewallDemo.cfg false) _ _ _ _ _ _ _
    (FirewallDemo.env_ok _)
    (FirewallDemo.in_use ∅ true systemResolverScopedID DNSRequest false false [5; 6; 7; 8]));
    [reflexivity..|vm_compute; reflexivity|vm_compute; reflexivity|].
  split; [|split]; vm_compute; reflexivity.
Defined.
