(* ===== verification/DbRecord.v ===== *)
(** * Database records (base/database/record)

    The metadata of records, their keys, and the records the database interfaces
    hand out.  The payload of a record is a type parameter; times are Unix seconds
    and passed as [now]. *)

From S2P Require Import Prelude GoStrings GoNet.

(** ** Metadata *)
Record Meta := mkMeta {
  Created : Z; Modified : Z; Expires : Z;
  (** Positive: the time of deletion; negative: the relative expiry, negated. *)
  Deleted : Z;
  secret : bool; cronjewel : bool;
}.
#[export] Instance eta_Meta : Eta Meta := fun m =>
  mkMeta (Created m) (Modified m) (Expires m) (Deleted m) (secret m) (cronjewel m).
#[export] Instance Meta_eq_dec : EqDecision Meta.
Proof. solve_decision. Defined.

Definition newMeta : Meta := mkMeta 0 0 0 0 false false.
Definition SetAbsoluteExpiry (seconds : Z) (m : Meta) : Meta := m <| Expires := seconds |> <| Deleted := 0 |>.
Definition SetRelativateExpiry (seconds : Z) (m : Meta) : Meta :=
  if 0 <=? seconds then m <| Deleted := i64 (- seconds) |> else m.
Definition GetAbsoluteExpiry (m : Meta) : Z := Expires m.
Definition GetRelativeExpiry (now : Z) (m : Meta) : Z :=
  if Expires m =? 0 then -1 else
  let abs := i64 (Expires m - now) in
  if abs <? 0 then 0 else abs.
Definition MakeCrownJewel (m : Meta) : Meta := m <| cronjewel := true |>.
Definition IsCrownJewel (m : Meta) : bool := cronjewel m.
Definition MakeSecret (m : Meta) : Meta := m <| secret := true |>.
Definition IsSecret (m : Meta) : bool := secret m.
Definition Update (now : Z) (m : Meta) : Meta :=
  let m := m <| Modified := now |> in
  let m := if Created m =? 0 then m <| Created := now |> else m in
  if Deleted m <? 0 then m <| Expires := i64 (now - Deleted m) |> else m.
Definition Reset (m : Meta) : Meta :=
  m <| Created := 0 |> <| Modified := 0 |> <| Expires := 0 |> <| Deleted := 0 |>.
Definition Delete (now : Z) (m : Meta) : Meta := m <| Deleted := now |>.
Definition IsDeleted (m : Meta) : bool := 0 <? Deleted m.
(** The checks answer for a missing (nil) metadata object too. *)
Definition CheckValidity (now : Z) (m : option Meta) : bool :=
  match m with
  | None => false
  | Some m =>
      if 0 <? Deleted m then false
      else if (0 <? Expires m) && (Expires m <? now) then false
      else true
  end.
Definition CheckPermission (local internal : bool) (m : option Meta) : bool :=
  match m with
  | None => false
  | Some m =>
      if negb local && cronjewel m then false
      else if negb internal && secret m then false
      else true
  end.
Definition Duplicate (m : Meta) : Meta :=
  mkMeta (Created m) (Modified m) (Expires m) (Deleted m) (secret m) (cronjewel m).

(** ** Keys *)
Definition ParseKey (key : str) : str * str :=
  match cut key ":" with Some (a, b) => (a, b) | None => (key, []) end.
Definition makeKey (db key : str) : str := db ++ $":" ++ key.

(** ** Records *)
Record Rec (V : Type) := mkRec { dbName : str; dbKey : str; rmeta : option Meta; payload : V }.
Arguments mkRec {V}. Arguments dbName {V}. Arguments dbKey {V}. Arguments rmeta {V}. Arguments payload {V}.
#[export] Instance eta_Rec {V} : Eta (Rec V) := fun r => mkRec (dbName r) (dbKey r) (rmeta r) (payload r).

Section base.
Context {V : Type}.
Implicit Type r : Rec V.
Definition KeyIsSet r : bool := negb (bool_decide (dbName r = [])).
Definition SetKey (key : str) r : Rec V :=
  if KeyIsSet r then r
  else let '(a, b) := ParseKey key in r <| dbName := a |> <| dbKey := b |>.
Definition ResetKey r : Rec V := r <| dbName := [] |> <| dbKey := [] |>.
Definition Key r : str := makeKey (dbName r) (dbKey r).
Definition CreateMeta r : Rec V := r <| rmeta := Some newMeta |>.
Definition UpdateMeta (now : Z) r : Rec V := r <| rmeta := Some (Update now (default newMeta (rmeta r))) |>.
Definition SetMeta (m : Meta) r : Rec V := r <| rmeta := Some m |>.
End base.

(** ** Facts *)
Lemma cut_key (db key : str) : ":"%char ∉ db -> cut (makeKey db key) ":" = Some (db, key).
Proof.
  change (makeKey db key) with (db ++ ":"%char :: key). induction db as [|c db IH]; simpl; intros Hn; [done|].
  rewrite bool_decide_false by set_solver. rewrite IH by set_solver. done.
Qed.
Lemma ParseKey_makeKey db key : ":"%char ∉ db -> ParseKey (makeKey db key) = (db, key).
Proof. intros Hn. unfold ParseKey. by rewrite cut_key. Qed.
Lemma makeKey_inj db k1 k2 : makeKey db k1 = makeKey db k2 -> k1 = k2.
Proof. unfold makeKey. intros E. apply app_inv_head in E. by injection E. Qed.

(** A record without expiry and deletion stays valid. *)
Definition lasting (m : Meta) : Prop := Expires m = 0 /\ Deleted m = 0.
Lemma lasting_valid now m : lasting m -> CheckValidity now (Some m) = true.
Proof. intros [H1 H2]. unfold CheckValidity. by rewrite H1, H2. Qed.
Lemma lasting_update now m : lasting m -> lasting (Update now m).
Proof. destruct m as [cr mo ex de s c]. intros [H1 H2]. simpl in *. subst. unfold Update. simpl. by destruct (cr =? 0). Qed.
Lemma lasting_new : lasting newMeta.
Proof. done. Qed.
#[export] Hint Resolve lasting_update lasting_new : pm.
