(* ===== verification/Database.v ===== *)
(** * Database interfaces (base/database)

    An [Interface] gives access to the databases with a read cache of records and,
    optionally, delayed writes to one database.  Records are shared objects: the
    caller, the read cache and the write cache point to the same one, so the model
    keeps them in a [heap].  A storage keeps a copy of what is put ([store]).
    Which entries the cache library evicts to make room, and when it calls the
    evict function, is not known: evicted keys are arguments of the operations,
    the rest is the class [GCache].  No hooks and subscriptions are registered, and
    all databases are started. *)

From S2P Require Import Prelude GoStrings GoNet DbRecord.

(** Whether the evict function is called for entries that are removed, and for
    expired entries that are found. *)
Class GCache := { removeEvicts : bool; expiredEvicts : bool }.

Inductive dbErr :=
| ErrNotFound | ErrPermissionDenied | ErrReadOnly | ErrShuttingDown
| ErrNoDatabase | ErrOutOfScope | ErrInvalid.
#[export] Instance dbErr_eq_dec : EqDecision dbErr.
Proof. solve_decision. Defined.

Record Options := mkOptions {
  Local : bool; Internal : bool; AlwaysMakeSecret : bool; AlwaysMakeCrownjewel : bool;
  AlwaysSetRelativateExpiry : Z; AlwaysSetAbsoluteExpiry : Z;
  CacheSize : Z; DelayCachedWrites : str;
}.
Definition HasAllPermissions (o : Options) : bool := Local o && Internal o.
(** [Options.Apply]: the metadata afterwards. *)
Definition applyMeta (o : Options) (now : Z) (m : option Meta) : Meta :=
  let m := Update now (default newMeta m) in
  let m := if AlwaysMakeSecret o then MakeSecret m else m in
  let m := if AlwaysMakeCrownjewel o then MakeCrownJewel m else m in
  if 0 <? AlwaysSetAbsoluteExpiry o then SetAbsoluteExpiry (AlwaysSetAbsoluteExpiry o) m
  else if 0 <? AlwaysSetRelativateExpiry o then SetRelativateExpiry (AlwaysSetRelativateExpiry o) m
  else m.

Section database.
Context {GC : GCache} {V : Type}.

Record Controller := mkController {
  store : gmap str (Meta * V);
  shadowDelete : bool;
  readOnly : bool;
}.
Record World := mkWorld {
  controllers : gmap str Controller;
  shuttingDown : bool;
  heap : list (Rec V);
  (** The records of the read cache with their time of expiry. *)
  rcache : gmap str (nat * option Z);
  wcache : gmap str nat;
  triggerCacheWrite : bool;
  now : Z;
}.
#[export] Instance eta_Controller : Eta Controller := fun c => mkController (store c) (shadowDelete c) (readOnly c).
#[export] Instance eta_World : Eta World := fun w =>
  mkWorld (controllers w) (shuttingDown w) (heap w) (rcache w) (wcache w) (triggerCacheWrite w) (now w).

(** ** The monad: errors keep the state, panics end it *)
Definition M (A : Type) := World -> outcome dbErr A * World.
#[export] Instance M_ret : MRet M := fun A a w => (Ret a, w).
#[export] Instance M_bind : MBind M := fun A B f m w =>
  let '(r, w) := m w in match r with Ret a => f a w | Err e => (Err e, w) | Panic => (Panic, w) end.
Definition get : M World := fun w => (Ret w, w).
Definition modify (f : World -> World) : M unit := fun w => (Ret tt, f w).
Definition throw {A} (e : dbErr) : M A := fun w => (Err e, w).
Definition deref {A} (o : option A) : M A := fun w => (match o with Some a => Ret a | None => Panic end, w).
(** The error is logged. *)
Definition ignore (m : M unit) : M unit := fun w =>
  let '(r, w) := m w in match r with Err _ => (Ret tt, w) | _ => (r, w) end.
Fixpoint forM {A} (l : list A) (f : A -> M unit) : M unit :=
  match l with [] => mret tt | x :: l => f x ;; forM l f end.

(** A record object is read, created, changed. *)
Definition readRec (l : nat) : M (Rec V) := w ← get; deref (heap w !! l).
Definition newRec (r : Rec V) : M nat := w ← get; modify (fun w => w <| heap ::= fun h => h ++ [r] |>) ;; mret (length (heap w)).
Definition changeRec (l : nat) (f : Rec V -> Rec V) : M unit := modify (fun w => w <| heap ::= alter f l |>).
Definition Apply (o : Options) (l : nat) : M unit :=
  w ← get; changeRec l (fun r => r <| rmeta := Some (applyMeta o (now w) (rmeta r)) |>).
Definition changeMeta (l : nat) (f : Meta -> Meta) : M unit := changeRec l (fun r => r <| rmeta ::= fmap f |>).

(** ** Controllers *)
Definition getController (name : str) : M Controller :=
  w ← get; match controllers w !! name with Some c => mret c | None => throw ErrNoDatabase end.
Definition ctrlGet (db key : str) : M nat :=
  c ← getController db; w ← get;
  if shuttingDown w then throw ErrShuttingDown else
  match store c !! key with
  | None => throw ErrNotFound
  | Some (m, v) => if CheckValidity (now w) (Some m) then newRec (mkRec db key (Some m) v) else throw ErrNotFound
  end.
Definition ctrlGetMeta (db key : str) : M Meta :=
  c ← getController db; w ← get;
  if shuttingDown w then throw ErrShuttingDown else
  match store c !! key with
  | None => throw ErrNotFound
  | Some (m, _) => if CheckValidity (now w) (Some m) then mret m else throw ErrNotFound
  end.
Definition putStore (db : str) (f : gmap str (Meta * V) -> gmap str (Meta * V)) : M unit :=
  modify (fun w => w <| controllers ::= alter (fun c => c <| store ::= f |>) db |>).
(** The record is put, or deleted when it is marked so and that is not kept. *)
Definition putOrDelete (db : str) (shadow : bool) (l : nat) : M unit :=
  r ← readRec l; m ← deref (rmeta r);
  if negb shadow && IsDeleted m then putStore db (delete (dbKey r))
  else putStore db (insert (dbKey r) (m, payload r)).
Definition ctrlPut (db : str) (l : nat) : M unit :=
  c ← getController db; w ← get;
  if shuttingDown w then throw ErrShuttingDown
  else if readOnly c then throw ErrReadOnly
  else putOrDelete db (shadowDelete c) l.

(** ** The caches *)
Definition cacheInUse (o : Options) : bool := 0 <? CacheSize o.
Definition delaysWrites (o : Options) : bool := negb (bool_decide (DelayCachedWrites o = [])).
Definition cacheEvictHandler (key : str) : M unit :=
  w ← get;
  match wcache w !! key with
  | None => mret tt
  | Some l =>
      modify (fun w => w <| wcache ::= delete key |>) ;;
      r ← readRec l;
      w ← get;
      match controllers w !! dbName r with
      | None => mret tt
      | Some _ =>
          ignore (ctrlPut (dbName r) l) ;;
          modify (fun w => w <| triggerCacheWrite := true |>)
      end
  end.
(** The library drops the entry; the handler is registered for delayed writes. *)
Definition dropEntry (o : Options) (called : bool) (key : str) : M unit :=
  w ← get;
  match rcache w !! key with
  | None => mret tt
  | Some _ =>
      modify (fun w => w <| rcache ::= delete key |>) ;;
      if called && delaysWrites o then cacheEvictHandler key else mret tt
  end.
Definition checkCache (o : Options) (key : str) : M (option nat) :=
  if negb (cacheInUse o) then mret None else
  w ← get;
  match rcache w !! key with
  | None => mret None
  | Some (l, None) => mret (Some l)
  | Some (l, Some expiry) =>
      if expiry <? now w then dropEntry o expiredEvicts key ;; mret None else mret (Some l)
  end.
(** The entry is set and [evicted] ones make room for it. *)
Definition setEntry (o : Options) (key : str) (l : nat) (expiry : option Z) (evicted : list str) : M unit :=
  forM (filter (fun k => k <> key) evicted) (dropEntry o true) ;;
  modify (fun w => w <| rcache ::= insert key (l, expiry) |>).
Definition updateCache (o : Options) (l : nat) (write remove : bool) (ttl : Z) (evicted : list str) : M bool :=
  if negb (cacheInUse o) then mret false else
  r ← readRec l;
  if remove then dropEntry o removeEvicts (Key r) ;; mret false else
  w ← get;
  setEntry o (Key r) l (if 0 <=? ttl then Some (now w + ttl) else None) evicted ;;
  if write && bool_decide (dbName r = DelayCachedWrites o) then
    modify (fun w => w <| wcache ::= insert (Key r) l |>) ;; mret true
  else mret false.
Definition ClearCache (o : Options) : M unit :=
  if negb (cacheInUse o) then mret tt else modify (fun w => w <| rcache := ∅ |>).

(** ** Batches *)
Definition putMany_ (o : Options) (db : str) (ls : list nat) : M unit :=
  c ← getController db;
  forM ls (fun l =>
    r ← readRec l;
    if negb (bool_decide (dbName r = db)) then throw ErrOutOfScope
    else Apply o l ;; putOrDelete db (shadowDelete c) l).
Definition PutMany (o : Options) (db : str) (ls : list nat) : M unit :=
  if negb (HasAllPermissions o) then throw ErrPermissionDenied else
  c ← getController db; w ← get;
  if readOnly c then throw ErrReadOnly
  else if shuttingDown w then throw ErrShuttingDown
  else putMany_ o db ls.
(** Records that are refused by the batch are logged and dropped. *)
Definition flushWriteCache (o : Options) (percentThreshold : Z) : M unit :=
  w ← get;
  if bool_decide (wcache w = ∅) then mret tt
  else if Z.of_nat (size (wcache w)) * 100 / CacheSize o <? percentThreshold then mret tt
  else
    ignore (PutMany o (DelayCachedWrites o) (snd <$> map_to_list (wcache w))) ;;
    modify (fun w => w <| wcache := ∅ |>).
Definition FlushCache (o : Options) : M unit :=
  if delaysWrites o then mret tt else flushWriteCache o 0.
(** One round of the [DelayedCacheWriter]. *)
Inductive writerEvent := WriterDone | WriterTriggered | WriterTick | WriterForced.
Definition writerStep (o : Options) (ev : writerEvent) : M unit :=
  match ev with
  | WriterTick => flushWriteCache o 25
  | WriterTriggered => modify (fun w => w <| triggerCacheWrite := false |>) ;; flushWriteCache o 0
  | WriterDone | WriterForced => flushWriteCache o 0
  end.

(** ** Reading *)
Definition hasAccessPermission (o : Options) (l : nat) : M bool :=
  if HasAllPermissions o then mret true else
  r ← readRec l; mret (CheckPermission (Local o) (Internal o) (rmeta r)).
Definition requirePermission (o : Options) (l : nat) : M unit :=
  ok ← hasAccessPermission o l; if ok : bool then mret tt else throw ErrPermissionDenied.
Definition getRecord (o : Options) (key : str) (mustBeWriteable : bool) (evicted : list str) : M nat :=
  let '(db, key) := ParseKey key in
  c ← getController db;
  if mustBeWriteable && readOnly c then throw ErrReadOnly else
  cached ← checkCache o (makeKey db key);
  match cached with
  | Some l => requirePermission o l ;; mret l
  | None =>
      l ← ctrlGet db key;
      requirePermission o l ;;
      r ← readRec l; m ← deref (rmeta r); w ← get;
      updateCache o l false false (GetRelativeExpiry (now w) m) evicted ;;
      mret l
  end.
Definition Get (o : Options) (key : str) (evicted : list str) : M nat := getRecord o key false evicted.
Definition Exists (o : Options) (key : str) (evicted : list str) : M bool := fun w =>
  let '(r, w) := Get o key evicted w in
  match r with
  | Ret _ => (Ret true, w)
  | Err ErrNotFound => (Ret false, w)
  | Err ErrPermissionDenied => (Ret true, w)
  | Err e => (Err e, w)
  | Panic => (Panic, w)
  end.
(** Only the errors of [getMeta] are used. *)
Definition getMeta (o : Options) (db key : str) (mustBeWriteable : bool) : M unit :=
  c ← getController db;
  if mustBeWriteable && readOnly c then throw ErrReadOnly else
  cached ← checkCache o (makeKey db key);
  match cached with
  | Some l => requirePermission o l
  | None =>
      m ← ctrlGetMeta db key;
      if CheckPermission (Local o) (Internal o) (Some m) then mret tt else throw ErrPermissionDenied
  end.

(** ** Writing *)
Definition catchNotFound (m : M unit) : M unit := fun w =>
  let '(r, w) := m w in match r with Err ErrNotFound => (Ret tt, w) | _ => (r, w) end.
(** The end of [Put] and [PutNew]: the caches and the storage. *)
Definition putApplied (o : Options) (l : nat) (evicted : list str) : M unit :=
  r ← readRec l; m ← deref (rmeta r); w ← get;
  written ← updateCache o l true (IsDeleted m) (GetRelativeExpiry (now w) m) evicted;
  if written : bool then mret tt else ctrlPut (dbName r) l.
Definition Put (o : Options) (l : nat) (evicted : list str) : M unit :=
  r ← readRec l;
  (if HasAllPermissions o then mret tt else catchNotFound (getMeta o (dbName r) (dbKey r) true)) ;;
  c ← getController (dbName r);
  if readOnly c then throw ErrReadOnly else
  Apply o l ;; putApplied o l evicted.
(** [PutNew] resets the metadata after the same checks. *)
Definition PutNew (o : Options) (l : nat) (evicted : list str) : M unit :=
  r ← readRec l;
  (if HasAllPermissions o then mret tt else catchNotFound (getMeta o (dbName r) (dbKey r) true)) ;;
  c ← getController (dbName r);
  if readOnly c then throw ErrReadOnly else
  changeMeta l Reset ;;
  Apply o l ;; putApplied o l evicted.

(** Change of the metadata of a stored record. *)
Definition changeStored (o : Options) (key : str) (f : Z -> Meta -> Meta) (evicted : list str) : M unit :=
  l ← getRecord o key true evicted;
  Apply o l ;; w ← get; changeMeta l (f (now w)) ;;
  r ← readRec l; ctrlPut (dbName r) l.
Definition ISetAbsoluteExpiry (o : Options) (key : str) (time : Z) := changeStored o key (fun _ => SetAbsoluteExpiry time).
Definition ISetRelativateExpiry (o : Options) (key : str) (duration : Z) := changeStored o key (fun _ => SetRelativateExpiry duration).
Definition IMakeSecret (o : Options) (key : str) := changeStored o key (fun _ => MakeSecret).
Definition IMakeCrownJewel (o : Options) (key : str) := changeStored o key (fun _ => MakeCrownJewel).
Definition IDelete (o : Options) (key : str) := changeStored o key Delete.
End database.
Arguments World : clear implicits.
Arguments Controller : clear implicits.
