(* ===== verification/DatabaseFacts.v ===== *)
(** * A database interface is a map

    [exec] are the operations of a client that alone reads and writes the records
    of one database through one interface, in any order, with evictions by the
    cache library and rounds of the delayed writer between them.  [inv] relates the
    caches and the storage to the map the client expects. *)

From S2P Require Import Prelude GoStrings GoNet DbRecord Database.

#[local] Arguments putOrDelete : simpl never.
#[local] Arguments ctrlPut : simpl never.
#[local] Arguments applyMeta : simpl never.
Section map.
Context {GC : GCache} {V : Type} (o : Options) (D : str).
Notation World := (World V).
Notation M := (M (V := V)).

(** ** Operations of the client *)
Inductive op :=
| OPut (key : str) (v : V) (evicted : list str)
| OGet (key : str) (evicted : list str)
| OWriter (ev : writerEvent)
| OTime (seconds : Z).
Definition exec (x : op) : M (option V) :=
  match x with
  | OPut key v evicted => l ← newRec (mkRec D key None v); Put o l evicted ;; mret None
  | OGet key evicted => l ← Get o (makeKey D key) evicted; r ← readRec l; mret (Some (payload r))
  | OWriter ev => writerStep o ev ;; mret None
  | OTime seconds => modify (fun w => w <| now ::= Z.add seconds |>) ;; mret None
  end.
Definition spec (x : op) (S : gmap str V) : outcome dbErr (option V) * gmap str V :=
  match x with
  | OPut key v _ => (Ret None, <[key := v]> S)
  | OGet key _ => (match S !! key with Some v => Ret (Some v) | None => Err ErrNotFound end, S)
  | OWriter _ | OTime _ => (Ret None, S)
  end.

(** ** The invariant *)
Definition known (w : World) (S : gmap str V) (k : str) (l : nat) (full : bool) : Prop :=
  exists r m, heap w !! l = Some r /\ dbName r = D /\ Key r = k /\ rmeta r = Some m /\ lasting m /\
    (full = true -> S !! dbKey r = Some (payload r)).
(** The storage has the value of the keys in [Q]. *)
Definition stored (Q : str -> Prop) (S : gmap str V) (w : World) : Prop :=
  exists c, controllers w !! D = Some c /\ readOnly c = false /\
    (forall key m v, store c !! key = Some (m, v) -> lasting m) /\
    (forall key, Q (makeKey D key) -> snd <$> store c !! key = S !! key).
Record inv (S : gmap str V) (w : World) : Prop := {
  inv_use : cacheInUse o = false -> rcache w = ∅;
  inv_up : shuttingDown w = false;
  inv_cached : forall k l e, rcache w !! k = Some (l, e) -> e = None /\ known w S k l true;
  inv_write : forall k l, wcache w !! k = Some l -> rcache w !! k = Some (l, None) /\ DelayCachedWrites o = D;
  inv_store : stored (fun k => wcache w !! k = None) S w;
}.
Context (HD : ":"%char ∉ D) (HD0 : D <> []).
Context (Hperm : HasAllPermissions o = true).
Context (Habs : AlwaysSetAbsoluteExpiry o <= 0) (Hrel : AlwaysSetRelativateExpiry o <= 0).

Lemma bind_ret {A B} (m : M A) (f : A -> M B) w a w' : m w = (Ret a, w') -> (m ≫= f) w = f a w'.
Proof. unfold mbind, M_bind. by intros ->. Qed.
Lemma bind_assoc {A B C} (m : M A) (f : A -> M B) (g : B -> M C) w :
  (x ← m; y ← f x; g y) w = (y ← (x ← m; f x); g y) w.
Proof. unfold mbind, M_bind. by destruct (m w) as [[a|e|] w']. Qed.
Lemma bind_err {A B} (m : M A) (f : A -> M B) w e w' : m w = (Err e, w') -> (m ≫= f) w = (Err e, w').
Proof. unfold mbind, M_bind. by intros ->. Qed.

Lemma lasting_apply t m : lasting m -> lasting (applyMeta o t (Some m)).
Proof.
  intros Hm. apply (lasting_update t) in Hm. unfold applyMeta. simpl. set (x := Update t m) in *. clearbody x.
  assert (0 <? AlwaysSetAbsoluteExpiry o = false) as -> by lia.
  assert (0 <? AlwaysSetRelativateExpiry o = false) as -> by lia.
  destruct (AlwaysMakeSecret o), (AlwaysMakeCrownjewel o); exact Hm.
Qed.
Lemma applyMeta_None t : applyMeta o t None = applyMeta o t (Some newMeta).
Proof. done. Qed.
Lemma lasting_ttl t m : lasting m -> GetRelativeExpiry t m = -1.
Proof. intros [H _]. unfold GetRelativeExpiry. by rewrite H. Qed.
Lemma lasting_kept m : lasting m -> IsDeleted m = false.
Proof. intros [_ H]. unfold IsDeleted. by rewrite H. Qed.

(** Records are put under their key. *)
Lemma putOrDelete_ok w l r m b : heap w !! l = Some r -> rmeta r = Some m -> lasting m ->
  putOrDelete (V := V) D b l w =
    (Ret tt, w <| controllers ::= alter (fun c => c <| store ::= <[dbKey r := (m, payload r)]> |>) D |>).
Proof.
  intros Hl Hm Hk. unfold putOrDelete, readRec, deref, putStore, modify, mbind, M_bind, get. rewrite Hl, Hm.
  by rewrite lasting_kept, andb_false_r by done.
Qed.

Lemma ctrlPut_ok w c l r m : controllers w !! D = Some c -> shuttingDown w = false -> readOnly c = false ->
  heap w !! l = Some r -> rmeta r = Some m -> lasting m ->
  ctrlPut (V := V) D l w =
    (Ret tt, w <| controllers ::= alter (fun c => c <| store ::= <[dbKey r := (m, payload r)]> |>) D |>).
Proof.
  intros Hc Hs Hr Hl Hm Hk. unfold ctrlPut, getController, get, mbind, M_bind, mret, M_ret. rewrite Hc, Hs, Hr.
  by apply putOrDelete_ok.
Qed.

Lemma stored_put Q S S' w c r m : stored Q S w -> controllers w !! D = Some c ->
  dbName r = D -> lasting m -> S' !! dbKey r = Some (payload r) ->
  (forall key, key <> dbKey r -> S' !! key = S !! key) ->
  stored (fun k => Q k \/ k = Key r) S'
    (w <| controllers ::= alter (fun c => c <| store ::= <[dbKey r := (m, payload r)]> |>) D |>).
Proof.
  intros (c' & Hc' & Hro & Hst & Hv) Hc HrD Hm HS HS'. rewrite Hc in Hc'. injection Hc' as <-.
  exists (c <| store ::= <[dbKey r := (m, payload r)]> |>). simpl. rewrite lookup_alter_eq, Hc.
  split; [done|]. split; [done|]. split.
  - intros key m' v'. destruct (decide (dbKey r = key)) as [<-|Hne].
    + rewrite lookup_insert_eq. by intros [= <- <-].
    + rewrite lookup_insert_ne by done. apply Hst.
  - intros key HQ. destruct (decide (dbKey r = key)) as [<-|Hne].
    + by rewrite lookup_insert_eq, HS.
    + rewrite lookup_insert_ne, HS' by done. apply Hv. destruct HQ as [HQ|HQ]; [done|].
      unfold Key in HQ. rewrite HrD in HQ. by apply makeKey_inj in HQ.
Qed.
Lemma stored_mono (Q Q' : str -> Prop) S w w' : (forall k, Q' k -> Q k) -> controllers w' = controllers w ->
  stored Q S w -> stored Q' S w'.
Proof. intros HQ Hc (c & H1 & H2 & H3 & H4). exists c. rewrite Hc. auto 10. Qed.

(** ** Evictions *)
Lemma drop_other S w k : inv S w -> rcache w !! k = None -> dropEntry o true k w = (Ret tt, w).
Proof. intros Hi Hn. unfold dropEntry, get, mbind, M_bind. by rewrite Hn. Qed.
Lemma drop_ok S w k : inv S w -> exists w', dropEntry o true k w = (Ret tt, w') /\ inv S w' /\ heap w' = heap w /\
  now w' = now w /\ rcache w' = delete k (rcache w) /\ wcache w' = delete k (wcache w).
Proof.
  intros Hi. destruct (rcache w !! k) as [[l e]|] eqn:Ek.
  2: { assert (wcache w !! k = None) as Ew.
       { destruct (wcache w !! k) as [l|] eqn:Ew; [|done]. apply (inv_write _ _ Hi) in Ew as [Ew _]. congruence. }
       exists w. rewrite (drop_other S), !delete_id by done. done. }
  unfold dropEntry, modify, get, mbind, M_bind. rewrite Ek. simpl andb.
  destruct (inv_cached _ _ Hi _ _ _ Ek) as [-> (r & m & Hl & HrD & HrK & Hm & Hlast & HS)].
  destruct (wcache w !! k) as [lw|] eqn:Ew.
  - destruct (inv_write _ _ Hi _ _ Ew) as [Er Hd]. rewrite Ek in Er. injection Er as <-.
    assert (delaysWrites o = true) as -> by (unfold delaysWrites; rewrite Hd; by rewrite bool_decide_false).
    destruct (inv_store _ _ Hi) as (c & Hc & Hro & Hst & Hv).
    unfold cacheEvictHandler, modify, get, readRec, deref, ignore, mbind, M_bind. simpl. rewrite Ew. simpl. rewrite Hl. simpl.
    rewrite HrD, Hc. rewrite (ctrlPut_ok _ c l r m) by (done || apply (inv_up _ _ Hi)). simpl. eexists. split; [reflexivity|]. split; [|done].
    split; simpl; [intros Hu; by rewrite (inv_use _ _ Hi Hu), delete_empty|apply Hi| | |].
    + intros k' l' e' [Hk' Hl']%lookup_delete_Some. by apply (inv_cached _ _ Hi).
    + intros k' l' [Hk' Hl']%lookup_delete_Some. rewrite lookup_delete_ne by done. by apply (inv_write _ _ Hi).
    + pose proof (stored_put _ S S w c r m (inv_store _ _ Hi) Hc HrD Hlast (HS eq_refl) (fun _ _ => eq_refl)) as Hs.
      eapply stored_mono; [| |exact Hs]; [|done]. intros k'. simpl. intros [<-|Hk]%lookup_delete_None; [by right|by left].
  - eexists. split.
    { destruct (delaysWrites o); [|reflexivity]. unfold cacheEvictHandler, get, mbind, M_bind. simpl. rewrite Ew. reflexivity. }
    split; [|simpl; by rewrite (delete_id (wcache w))].
    split; simpl; [intros Hu; by rewrite (inv_use _ _ Hi Hu), delete_empty|apply Hi| | |by apply (stored_mono _ _ _ _ _ (fun _ H => H) eq_refl (inv_store _ _ Hi))].
    + intros k' l' e' [Hk' Hl']%lookup_delete_Some. by apply (inv_cached _ _ Hi).
    + intros k' l' Hl'. rewrite lookup_delete_ne by congruence. by apply (inv_write _ _ Hi).
Qed.
Lemma drops_ok S k ks w : inv S w -> k ∉ ks -> exists w', forM ks (dropEntry o true) w = (Ret tt, w') /\ inv S w' /\
  heap w' = heap w /\ now w' = now w /\ rcache w' !! k = rcache w !! k /\ wcache w' !! k = wcache w !! k.
Proof.
  revert w. induction ks as [|k1 ks IH]; intros w Hi Hk; [by exists w|].
  destruct (drop_ok S w k1 Hi) as (w1 & E1 & Hi1 & Hh1 & Hn1 & Hr1 & Hw1).
  destruct (IH w1 Hi1) as (w2 & E2 & Hi2 & Hh2 & Hn2 & Hr2 & Hw2); [set_solver|]. exists w2.
  split; [simpl; by rewrite (bind_ret _ _ _ _ _ E1)|]. split; [done|]. rewrite Hh2, Hn2, Hr2, Hw2, Hr1, Hw1.
  rewrite !lookup_delete_ne by set_solver. done.
Qed.
Lemma setEntry_ok S w k l ks : inv S w -> exists w', setEntry o k l None ks w = (Ret tt, w' <| rcache ::= insert k (l, None) |>) /\
  inv S w' /\ heap w' = heap w /\ now w' = now w /\ rcache w' !! k = rcache w !! k /\ wcache w' !! k = wcache w !! k.
Proof.
  intros Hi. destruct (drops_ok S k (filter (fun k' => k' <> k) ks) w Hi) as (w' & E & Hw).
  { rewrite list_elem_of_filter. tauto. }
  exists w'. split; [|done]. unfold setEntry. by rewrite (bind_ret _ _ _ _ _ E).
Qed.

(** ** Reading *)
Lemma known_mono S S' w w' k l b b' : (forall r, heap w !! l = Some r -> heap w' !! l = Some r) ->
  (b' = true -> b = true) -> (forall r, heap w !! l = Some r -> S !! dbKey r = Some (payload r) -> S' !! dbKey r = Some (payload r)) ->
  known w S k l b -> known w' S' k l b'.
Proof. intros Hh Hb HS (r & m & H1 & H2 & H3 & H4 & H5 & H6). exists r, m. repeat split; auto; apply H5. Qed.
Lemma heap_app (h : list (Rec V)) x l r : h !! l = Some r -> (h ++ x) !! l = Some r.
Proof. apply lookup_app_l_Some. Qed.
(** New objects change nothing. *)
Lemma inv_alloc S w x : inv S w -> inv S (w <| heap ::= fun h => h ++ x |>).
Proof.
  intros [H0 H1 H2 H3 H4]. split; simpl; [done|done| |done|].
  - intros k l e Hk. destruct (H2 k l e Hk) as [-> Hn]. split; [done|].
    eapply known_mono; [..|exact Hn]; simpl; auto. intros r. apply heap_app.
  - by apply (stored_mono _ _ _ _ _ (fun _ H => H) eq_refl H4).
Qed.
Lemma checkCache_ok S w k : inv S w -> checkCache o k w =
  (Ret (if cacheInUse o then fst <$> rcache w !! k else None), w).
Proof.
  intros Hi. unfold checkCache. destruct (cacheInUse o); [|done]. simpl. unfold get, mbind, M_bind.
  destruct (rcache w !! k) as [[l e]|] eqn:E; [|done]. by destruct (inv_cached _ _ Hi _ _ _ E) as [-> _].
Qed.
Lemma permitted l w : requirePermission (V := V) o l w = (Ret tt, w).
Proof. unfold requirePermission, hasAccessPermission. by rewrite Hperm. Qed.
Lemma inv_get_controller S w : inv S w -> exists c, getController D w = (Ret c, w) /\ readOnly c = false /\
  controllers w !! D = Some c /\ (forall key m v, store c !! key = Some (m, v) -> lasting m) /\
  (forall key, wcache w !! makeKey D key = None -> snd <$> store c !! key = S !! key).
Proof.
  intros Hi. destruct (inv_store _ _ Hi) as (c & Hc & Hr & Hs). exists c.
  unfold getController, get, mbind, M_bind. by rewrite Hc.
Qed.
(** A record is cached. *)
Lemma inv_cache S w k l : cacheInUse o = true -> inv S w -> known w S k l true -> wcache w !! k = None ->
  inv S (w <| rcache ::= insert k (l, None) |>).
Proof.
  intros Hu [H0 H1 H2 H3 H4] Hk Hw. split; simpl; [congruence|done| | |by apply (stored_mono _ _ _ _ _ (fun _ H => H) eq_refl H4)].
  - intros k' l' e'. destruct (decide (k = k')) as [<-|Hne]; [rewrite lookup_insert_eq; by intros [= <- <-]|].
    rewrite lookup_insert_ne by done. apply H2.
  - intros k' l' Hk'. rewrite lookup_insert_ne by congruence. by apply H3.
Qed.
Lemma ctrlGet_ok S w key : inv S w -> wcache w !! makeKey D key = None ->
  match S !! key with
  | Some v => exists m, lasting m /\ ctrlGet D key w =
      (Ret (length (heap w)), w <| heap ::= fun h => h ++ [mkRec D key (Some m) v] |>)
  | None => ctrlGet D key w = (Err ErrNotFound, w)
  end.
Proof.
  intros Hi Hw. destruct (inv_get_controller _ _ Hi) as (c & Ec & Hro & Hc & Hlast & Hst).
  rewrite <- (Hst key Hw). unfold ctrlGet. rewrite (bind_ret _ _ _ _ _ Ec).
  unfold mbind, M_bind, get. rewrite (inv_up _ _ Hi).
  destruct (store c !! key) as [[m v]|] eqn:Es; simpl; [|done].
  specialize (Hlast _ _ _ Es). exists m. split; [done|]. pose proof (lasting_valid (now w) m Hlast) as Hv.
  simpl in Hv. by rewrite Hv.
Qed.
(** The record object that is handed out. *)
Definition handed (w : World) (key : str) (v : V) (l : nat) : Prop :=
  exists r m, heap w !! l = Some r /\ payload r = v /\ dbName r = D /\ dbKey r = key /\ rmeta r = Some m /\ lasting m /\
    (cacheInUse o = true -> rcache w !! makeKey D key = Some (l, None)).
Lemma getRecord_ok S w key b ks : inv S w -> exists w', inv S w' /\ now w' = now w /\
  match S !! key with
  | Some v => exists l, getRecord o (makeKey D key) b ks w = (Ret l, w') /\ handed w' key v l
  | None => getRecord o (makeKey D key) b ks w = (Err ErrNotFound, w')
  end.
Proof.
  intros Hi. unfold getRecord. rewrite ParseKey_makeKey by done.
  destruct (inv_get_controller _ _ Hi) as (c & Ec & Hro & Hc & Hlast & Hst).
  rewrite (bind_ret _ _ _ _ _ Ec), Hro, andb_false_r. rewrite (bind_ret _ _ _ _ _ (checkCache_ok _ _ _ Hi)).
  destruct (if cacheInUse o then fst <$> rcache w !! makeKey D key else None) as [l|] eqn:El.
  - destruct (cacheInUse o) eqn:Eu; [|done]. destruct (rcache w !! makeKey D key) as [[l' e]|] eqn:Er; [|done].
    injection El as ->. destruct (inv_cached _ _ Hi _ _ _ Er) as [-> (r & m & Hl & HrD & HrK & Hm & Hlm & HS)].
    unfold Key in HrK. rewrite HrD in HrK. apply makeKey_inj in HrK. subst key. rewrite HS by done.
    exists w. split; [done|]. split; [done|]. exists l. rewrite (bind_ret _ _ _ _ _ (permitted l w)). split; [done|].
    exists r, m. auto 10.
  - assert (wcache w !! makeKey D key = None) as Ew.
    { destruct (wcache w !! makeKey D key) as [l|] eqn:Ew; [|done]. apply (inv_write _ _ Hi) in Ew as [Er _].
      destruct (cacheInUse o) eqn:Eu; [by rewrite Er in El|]. by rewrite (inv_use _ _ Hi Eu) in Er. }
    pose proof (ctrlGet_ok S w key Hi Ew) as Hget. destruct (S !! key) as [v|] eqn:HS.
    2: { exists w. split; [done|]. split; [done|]. by rewrite (bind_err _ _ _ _ _ Hget). }
    destruct Hget as (m & Hlm & Hget). set (r := mkRec D key (Some m) v) in *.
    set (w1 := w <| heap ::= fun h => h ++ [r] |>) in *. rewrite (bind_ret _ _ _ _ _ Hget).
    set (l := length (heap w)).    assert (heap w1 !! l = Some r) as Hl by (unfold l; by apply list_lookup_middle).
    assert (inv S w1) as Hi1 by (by apply inv_alloc).
    rewrite (bind_ret _ _ _ _ _ (permitted l w1)). unfold readRec, deref, get, mbind, M_bind. rewrite Hl. cbn [rmeta r].
    rewrite lasting_ttl by done. unfold updateCache. destruct (cacheInUse o) eqn:Eu; cbn [negb].
    2: { exists w1. split; [done|]. split; [done|]. exists l. split; [done|]. exists r, m. by rewrite Eu. }
    unfold readRec, deref, get, mbind, M_bind. rewrite Hl. cbn [Z.leb Z.compare].
    destruct (setEntry_ok S w1 (Key r) l ks Hi1) as (w2 & E2 & Hi2 & Hh & Hn & Hr & Hw).
    unfold mret, M_ret. change (0 <=? -1) with false. cbv iota. rewrite E2. cbn [andb].
    exists (w2 <| rcache ::= insert (Key r) (l, None) |>). rewrite <- Hh in Hl. split; [|split; [exact Hn|]].
    + apply inv_cache; [done|done| |].
      * by exists r, m.
      * by rewrite Hw.
    + exists l. split; [done|]. exists r, m. split; [done|]. do 5 (split; [done|]). intros _. apply lookup_insert_eq.
Qed.

(** ** Writing *)
Lemma known_insert S w k l b key v : known w S k l b -> k <> makeKey D key -> known w (<[key := v]> S) k l b.
Proof.
  intros (r & m & H1 & H2 & H3 & H4 & H5 & H6) Hne. exists r, m. repeat split; auto; [apply H5..|].
  intros Hb. rewrite lookup_insert_ne; [by apply H6|]. intros ->. apply Hne. by rewrite <- H3, <- H2.
Qed.
Lemma changeRec_new (w : World) r f : changeRec (length (heap w)) f (w <| heap ::= fun h => h ++ [r] |>) =
  (Ret tt, w <| heap ::= fun h => h ++ [f r] |>).
Proof.
  unfold changeRec, modify. simpl. do 2 f_equal. induction (heap w) as [|x h IH]; [done|]. simpl. f_equal. exact IH.
Qed.
Lemma Apply_new (w : World) r : Apply o (length (heap w)) (w <| heap ::= fun h => h ++ [r] |>) =
  (Ret tt, w <| heap ::= fun h => h ++ [r <| rmeta := Some (applyMeta o (now w) (rmeta r)) |>] |>).
Proof. exact (changeRec_new w r (fun r => r <| rmeta := Some (applyMeta o (now w) (rmeta r)) |>)). Qed.
(** The record is cached; it is written through, or waits in the write cache. *)
Lemma inv_put S (w : World) l r m : inv S w -> heap w !! l = Some r -> dbName r = D -> rmeta r = Some m -> lasting m ->
  let S' := <[dbKey r := payload r]> S in
  let cached := w <| rcache ::= (if cacheInUse o then insert (Key r) (l, None) else id) |> in
  (cacheInUse o = true -> D = DelayCachedWrites o -> inv S' (cached <| wcache ::= insert (Key r) l |>)) /\
  (wcache w !! Key r = None ->
   exists w', ctrlPut D l cached = (Ret tt, w') /\ inv S' w').
Proof.
  intros Hi Hl HrD Hm Hlm S' cached.
  assert (forall k' l' e', rcache cached !! k' = Some (l', e') -> e' = None /\ known w S' k' l' true) as Hcached.
  { intros k' l' e'. simpl. destruct (cacheInUse o) eqn:Eu.
    2: { unfold id. by rewrite (inv_use _ _ Hi Eu). }
    destruct (decide (Key r = k')) as [<-|Hne].
    - rewrite lookup_insert_eq. intros [= <- <-]. split; [done|]. exists r, m. repeat split; auto; [apply Hlm..|].
      intros _. apply lookup_insert_eq.
    - rewrite lookup_insert_ne by done. intros Hk'. destruct (inv_cached _ _ Hi _ _ _ Hk') as [-> Hk]. split; [done|].
      apply known_insert; [done|]. unfold Key in Hne. rewrite HrD in Hne. congruence. }
  assert (cacheInUse o = false -> rcache cached = ∅) as Huse.
  { intros Eu. simpl. rewrite Eu. by apply (inv_use _ _ Hi). }
  assert (forall k' l', k' <> Key r -> wcache w !! k' = Some l' -> rcache cached !! k' = Some (l', None)) as Hold.
  { intros k' l' Hne Hk'. apply (inv_write _ _ Hi) in Hk' as [Hk' _]. simpl. destruct (cacheInUse o); [|done].
    by rewrite lookup_insert_ne. }
  split.
  - intros Hu Hd. split; [done|apply Hi|exact Hcached| |].
    + intros k' l'. simpl. rewrite Hu. destruct (decide (Key r = k')) as [<-|Hne].
      * rewrite !lookup_insert_eq. by intros [= ->].
      * rewrite lookup_insert_ne by done. intros Hk'. pose proof (Hold k' l' (not_eq_sym Hne) Hk') as Hr. simpl in Hr.
        rewrite Hu in Hr. done.
    + destruct (inv_store _ _ Hi) as (c & Hc & Hro & Hst & Hv). exists c. split; [done|]. split; [done|]. split; [done|].
      intros key. simpl. intros [Hk Hne]%lookup_insert_None. unfold S'. rewrite lookup_insert_ne; [by apply Hv|].
      intros <-. apply Hne. unfold Key. by rewrite HrD.
  - intros Hw. destruct (inv_get_controller _ _ Hi) as (c & Ec & Hro & Hc & _).
    eexists. split; [apply (ctrlPut_ok cached c l r m); try done; apply Hi|].
    split; [exact Huse|apply Hi|exact Hcached| |].
    + intros k' l' Hk'. split; [|by apply (inv_write _ _ Hi) in Hk' as [_ ?]]. apply Hold; [|done].
      intros ->. simpl in Hk'. congruence.
    + assert (stored (fun k => wcache w !! k = None) S cached) as Hs
        by (by apply (stored_mono _ _ _ _ _ (fun _ H => H) eq_refl (inv_store _ _ Hi))).
      pose proof (stored_put _ S S' cached c r m Hs Hc HrD Hlm (lookup_insert_eq _ _ _)
        (fun key Hne => lookup_insert_ne _ _ _ _ (not_eq_sym Hne))) as Hs'.
      eapply stored_mono; [| |exact Hs']; [|done]. intros k' Hk'. left. exact Hk'.
Qed.
Lemma putApplied_ok S w l r m ks : inv S w -> heap w !! l = Some r -> dbName r = D -> rmeta r = Some m -> lasting m ->
  exists w', putApplied o l ks w = (Ret tt, w') /\ inv (<[dbKey r := payload r]> S) w'.
Proof.
  intros Hi Hl HrD Hm Hlm. unfold putApplied. unfold readRec, deref, get, mbind, M_bind. rewrite Hl, Hm.
  rewrite lasting_ttl, lasting_kept, HrD by done. unfold updateCache. destruct (cacheInUse o) eqn:Eu; cbn [negb].
  - unfold readRec, deref, get, mbind, M_bind. rewrite Hl. change (0 <=? -1) with false. cbv iota.
    destruct (setEntry_ok S w (Key r) l ks Hi) as (w2 & E2 & Hi2 & Hh & Hn & Hr & Hw). rewrite E2.
    rewrite <- Hh in Hl. destruct (inv_put S w2 l r m Hi2 Hl HrD Hm Hlm) as [Hd Hp]. rewrite Eu in Hd, Hp.
    rewrite HrD. cbn [andb]. case_bool_decide as HDd.
    + eexists. split; [reflexivity|]. by apply Hd.
    + apply Hp. destruct (wcache w2 !! Key r) as [l'|] eqn:Ew; [|done]. by apply (inv_write _ _ Hi2) in Ew as [_ ?].
  - destruct (inv_put S w l r m Hi Hl HrD Hm Hlm) as [_ Hp]. rewrite Eu in Hp. unfold mret, M_ret.
    destruct Hp as (w' & Ep & Hip).
    { destruct (wcache w !! Key r) as [l'|] eqn:Ew; [|done]. apply (inv_write _ _ Hi) in Ew as [Er _].
      by rewrite (inv_use _ _ Hi Eu) in Er. }
    exists w'. split; [|done]. rewrite <- Ep. by destruct w.
Qed.
(** A new record object [r0] that is prepared as [r] and put. *)
Lemma put_new S w r0 r m ks (op : nat -> M unit) : inv S w -> dbName r = D -> rmeta r = Some m -> lasting m ->
  (forall c w0 w1 l, getController D w0 = (Ret c, w0) -> readOnly c = false -> heap w0 !! l = Some r0 -> l = length (heap w) ->
     w0 = w <| heap ::= fun h => h ++ [r0] |> -> w1 = w <| heap ::= fun h => h ++ [r] |> -> op l w0 = putApplied o l ks w1) ->
  exists w', (l ← newRec r0; op l) w = (Ret tt, w') /\ inv (<[dbKey r := payload r]> S) w'.
Proof.
  intros Hi HD' Hm Hlm Hop. set (l := length (heap w)). set (w0 := w <| heap ::= fun h => h ++ [r0] |>).
  set (w1 := w <| heap ::= fun h => h ++ [r] |>).
  assert (newRec r0 w = (Ret l, w0)) as E0 by reflexivity. rewrite (bind_ret _ _ _ _ _ E0).
  destruct (inv_get_controller S w0) as (c & Ec & Hro & _); [by apply inv_alloc|].
  rewrite (Hop c w0 w1 l Ec Hro); try done; [|by apply list_lookup_middle].
  apply (putApplied_ok S w1 l r m ks); try done; [by apply inv_alloc|by apply list_lookup_middle].
Qed.
Lemma read_new (w : World) l r : heap w !! l = Some r -> readRec l w = (Ret r, w).
Proof. intros Hl. unfold readRec, deref, get, mbind, M_bind. by rewrite Hl. Qed.
Lemma Put_ok S w key v ks : inv S w -> exists w', exec (OPut key v ks) w = (Ret None, w') /\ inv (<[key := v]> S) w'.
Proof.
  intros Hi. set (r0 := mkRec D key None v).
  destruct (put_new S w r0 (r0 <| rmeta := Some (applyMeta o (now w) None) |>) (applyMeta o (now w) None) ks
    (fun l => Put o l ks) Hi) as (w' & E & Hi'); [reflexivity|reflexivity|..].
  - rewrite applyMeta_None. by apply lasting_apply.
  - intros c w0 w1 l Ec Hro Hl Hlen H0 H1. unfold Put. rewrite (bind_ret _ _ _ _ _ (read_new _ _ _ Hl)), Hperm.
    unfold mbind at 1, M_bind at 1. cbn [mret M_ret dbName r0]. rewrite (bind_ret _ _ _ _ _ Ec), Hro.
    assert (Apply o l w0 = (Ret tt, w1)) as Ea by (subst; exact (Apply_new w r0)). by rewrite (bind_ret _ _ _ _ _ Ea).
  - exists w'. split; [|done]. unfold exec. fold r0.
    rewrite (bind_assoc (newRec r0) (fun l => Put o l ks) (fun _ => mret None)). by rewrite (bind_ret _ _ _ _ _ E).
Qed.

(** ** Flushing the write cache *)
(** What the batch keeps. *)
Definition batchKeeps (S : gmap str V) (w w' : World) : Prop :=
  rcache w' = rcache w /\ wcache w' = wcache w /\ shuttingDown w' = shuttingDown w /\ now w' = now w /\
  (forall k l b, known w S k l b -> known w' S k l b).
Lemma batchKeeps_trans S w1 w2 w3 : batchKeeps S w1 w2 -> batchKeeps S w2 w3 -> batchKeeps S w1 w3.
Proof. unfold batchKeeps. intros (-> & -> & -> & -> & H1) (-> & -> & -> & -> & H2). auto 10. Qed.
Lemma batch_step S Q (w : World) k l b : stored Q S w -> known w S k l true ->
  exists w', (Apply o l ;; putOrDelete D b l) w = (Ret tt, w') /\ batchKeeps S w w' /\
    stored (fun k' => Q k' \/ k' = k) S w'.
Proof.
  intros Hs (r & m & Hl & HrD & HrK & Hm & Hlm & HS).
  set (m' := applyMeta o (now w) (Some m)). set (r' := r <| rmeta := Some m' |>).
  set (mark := fun r : Rec V => r <| rmeta := Some (applyMeta o (now w) (rmeta r)) |>).
  set (w1 := w <| heap ::= alter mark l |>). assert (heap w1 !! l = Some r') as Hl1.
  { change (alter mark l (heap w) !! l = Some r'). by rewrite list_lookup_alter_eq, Hl; unfold mark; simpl; rewrite Hm. }
  assert (lasting m') as Hlm' by (by apply lasting_apply).
  assert (Apply o l w = (Ret tt, w1)) as Ea by reflexivity.
  rewrite (bind_ret _ _ _ _ _ Ea), (putOrDelete_ok w1 l r' m') by done. eexists. split; [reflexivity|]. split.
  - split; [done|]. split; [done|]. split; [done|]. split; [done|].
    intros k' l' b' (r1 & m1 & H1 & H2 & H3 & H4 & H5 & H6). destruct (decide (l = l')) as [<-|Hne].
    + rewrite Hl in H1. injection H1 as <-. exists r', m'. repeat split; auto; apply Hlm'.
    + exists r1, m1. change (heap _) with (alter mark l (heap w)). rewrite list_lookup_alter_ne by done. repeat split; auto; apply H5.
  - destruct Hs as (c & Hc & Hs). rewrite <- HrK. change (Key r) with (Key r').
    apply (stored_put Q S S w1 c r' m'); try done; [by exists c|by apply HS].
Qed.
Lemma batch_ok S Q (w : World) c L : controllers w !! D = Some c -> stored Q S w ->
  (forall k l, (k, l) ∈ L -> known w S k l true) ->
  exists w', forM (snd <$> L) (fun l =>
      r ← readRec l;
      if negb (bool_decide (dbName r = D)) then throw ErrOutOfScope
      else Apply o l ;; putOrDelete D (shadowDelete c) l) w = (Ret tt, w') /\
    batchKeeps S w w' /\ stored (fun k => Q k \/ k ∈ L.*1) S w'.
Proof.
  intros _. revert Q w. induction L as [|[k l] L IH]; intros Q w Hs HL.
  - exists w. split; [done|]. split; [done|]. eapply stored_mono; [| |exact Hs]; [|done]. intros k [Hk|Hk]; [done|set_solver].
  - destruct (HL k l ltac:(set_solver)) as (r & m & Hl & HrD & Hrest).
    destruct (batch_step S Q w k l (shadowDelete c) Hs) as (w1 & E1 & Hk1 & Hs1); [apply HL; set_solver|].
    destruct (IH _ w1 Hs1) as (w2 & E2 & Hk2 & Hs2).
    { intros k' l' Hin. apply Hk1, HL. set_solver. }
    exists w2. split; [|split; [by eapply batchKeeps_trans|]].
    + cbn [fmap list_fmap forM]. assert (readRec l w = (Ret r, w)) as Er.
      { unfold readRec, deref, get, mbind, M_bind. by rewrite Hl. }
      erewrite (bind_ret _ _ w tt w1); [exact E2|]. rewrite (bind_ret _ _ _ _ _ Er).
      rewrite HrD, bool_decide_true by done. exact E1.
    + eapply stored_mono; [| |exact Hs2]; [|done]. intros k'. cbn [fmap list_fmap fst]. rewrite elem_of_cons. tauto.
Qed.
(** Records wait to be written, cached or not. *)
Record pending (S : gmap str V) (w : World) : Prop := {
  pd_use : cacheInUse o = false -> rcache w = ∅;
  pd_up : shuttingDown w = false;
  pd_cached : forall k l e, rcache w !! k = Some (l, e) -> e = None /\ known w S k l true;
  pd_write : forall k l, wcache w !! k = Some l -> known w S k l true /\ DelayCachedWrites o = D;
  pd_store : stored (fun k => wcache w !! k = None) S w;
}.
Lemma inv_pending S w : inv S w -> pending S w.
Proof.
  intros [H0 H1 H2 H3 H4]. split; try done. intros k l Hk. destruct (H3 k l Hk) as [Hr Hd]. split; [|done].
  by apply (H2 k l None).
Qed.
Lemma clear_pending S w : inv S w -> pending S (w <| rcache := ∅ |>).
Proof.
  intros Hi. destruct (inv_pending _ _ Hi) as [H0 H1 H2 H3 H4]. split; try done.
Qed.
Lemma flush_pending S w : pending S w -> wcache w <> ∅ ->
  exists w', (ignore (PutMany o (DelayCachedWrites o) (snd <$> map_to_list (wcache w))) ;;
    modify (fun w => w <| wcache := ∅ |>)) w = (Ret tt, w') /\ inv S w'.
Proof.
  intros Hi Hempty. apply map_choose in Hempty as (k0 & l0 & Hk0).
  destruct (pd_write _ _ Hi _ _ Hk0) as [_ Hd]. rewrite Hd.
  destruct (pd_store _ _ Hi) as (c & Hc & Hro & _).
  assert (getController D w = (Ret c, w)) as Ec by (unfold getController, get, mbind, M_bind; by rewrite Hc).
  destruct (batch_ok S _ w c (map_to_list (wcache w)) Hc (pd_store _ _ Hi)) as (w1 & E1 & (K1 & K2 & K3 & K4 & K5) & Hs1).
  { intros k l Hkl%elem_of_map_to_list. by apply (pd_write _ _ Hi) in Hkl as [Hkl _]. }
  assert (PutMany o D (snd <$> map_to_list (wcache w)) w = (Ret tt, w1)) as Ep.
  { unfold PutMany. rewrite Hperm. cbn [negb]. rewrite (bind_ret _ _ _ _ _ Ec). unfold mbind at 1, M_bind at 1, get.
    rewrite Hro, (pd_up _ _ Hi). unfold putMany_. rewrite (bind_ret _ _ _ _ _ Ec). exact E1. }
  exists (w1 <| wcache := ∅ |>). split.
  { unfold ignore, modify, mbind, M_bind. by rewrite Ep. }
  split; simpl.
  - rewrite K1. apply (pd_use _ _ Hi).
  - rewrite K3. apply (pd_up _ _ Hi).
  - intros k l e. rewrite K1. intros Hk. destruct (pd_cached _ _ Hi _ _ _ Hk) as [-> Hkn]. split; [done|]. by apply K5 in Hkn.
  - intros k l. by rewrite lookup_empty.
  - eapply stored_mono; [| |exact Hs1]; [|done]. intros k _. simpl. destruct (wcache w !! k) as [l|] eqn:Ek; [|by left].
    right. apply list_elem_of_fmap. exists (k, l). split; [done|]. by apply elem_of_map_to_list.
Qed.
Lemma flush_ok S w t : inv S w -> exists w', flushWriteCache o t w = (Ret tt, w') /\ inv S w'.
Proof.
  intros Hi. unfold flushWriteCache. unfold mbind at 1, M_bind at 1, get.
  case_bool_decide as Hempty; [by exists w|]. destruct (_ <? t); [by exists w|].
  by apply flush_pending; [apply inv_pending|].
Qed.

(** ** Every operation *)
Lemma exec_ok S w x : inv S w -> exists w', exec x w = ((spec x S).1, w') /\ inv (spec x S).2 w'.
Proof.
  intros Hi. destruct x as [key v ks|key ks|ev|t]; simpl spec.
  - by apply Put_ok.
  - destruct (getRecord_ok S w key false ks Hi) as (w' & Hi' & _ & Hg). exists w'. unfold exec, Get. destruct (S !! key) as [v|]; [|split; [by rewrite (bind_err _ _ _ _ _ Hg)|done]].
    destruct Hg as (l & Hg & r & m & Hl & <- & _). split; [|done]. rewrite (bind_ret _ _ _ _ _ Hg).
    unfold readRec, deref, get, mbind, M_bind. by rewrite Hl.
  - unfold exec, writerStep. destruct ev.
    + destruct (flush_ok S w 0 Hi) as (w' & E & Hi'). exists w'. by rewrite (bind_ret _ _ _ _ _ E).
    + set (w0 := w <| triggerCacheWrite := false |>).
      assert (inv S w0) as Hi0 by (destruct Hi as [H0 H1 H2 H3 H4]; split; done).
      destruct (flush_ok S w0 0 Hi0) as (w' & E & Hi'). exists w'. split; [|done].
      erewrite (bind_ret _ _ w tt w'); [done|]. unfold modify, mbind, M_bind. exact E.
    + destruct (flush_ok S w 25 Hi) as (w' & E & Hi'). exists w'. by rewrite (bind_ret _ _ _ _ _ E).
    + destruct (flush_ok S w 0 Hi) as (w' & E & Hi'). exists w'. by rewrite (bind_ret _ _ _ _ _ E).
  - eexists. split; [reflexivity|]. destruct Hi as [H0 H1 H2 H3 H4]. split; done.
Qed.

(** ** Sequences of operations *)
Fixpoint run (xs : list op) (w : World) : list (outcome dbErr (option V)) * World :=
  match xs with
  | [] => ([], w)
  | x :: xs => let '(r, w) := exec x w in let '(rs, w) := run xs w in (r :: rs, w)
  end.
Fixpoint specRun (xs : list op) (T : gmap str V) : list (outcome dbErr (option V)) * gmap str V :=
  match xs with
  | [] => ([], T)
  | x :: xs => let '(r, T) := spec x T in let '(rs, T) := specRun xs T in (r :: rs, T)
  end.
Lemma run_ok xs S w : inv S w -> (run xs w).1 = (specRun xs S).1 /\ inv (specRun xs S).2 (run xs w).2.
Proof.
  revert S w. induction xs as [|x xs IH]; intros S w Hi; [done|]. simpl.
  destruct (exec_ok S w x Hi) as (w1 & E & Hi1). rewrite E. destruct (spec x S) as [r S1]. simpl in *.
  destruct (IH S1 w1 Hi1) as [H1 H2]. destruct (run xs w1), (specRun xs S1). simpl in *. by rewrite H1.
Qed.
(** A new interface to a running database. *)
Record ready (w : World) (c : Controller V) : Prop := {
  rd_up : shuttingDown w = false;
  rd_caches : rcache w = ∅ /\ wcache w = ∅;
  rd_db : controllers w !! D = Some c /\ readOnly c = false;
  rd_lasting : forall key m v, store c !! key = Some (m, v) -> lasting m;
}.
Definition contents (c : Controller V) : gmap str V := snd <$> store c.
Lemma ready_inv w c : ready w c -> inv (contents c) w.
Proof.
  intros [H1 [H2 H3] [H4 H5] H6]. split; rewrite ?H2, ?H3; try done.
  exists c. split; [done|]. split; [done|]. split; [done|]. intros key _. unfold contents. by rewrite lookup_fmap.
Qed.
End map.
Arguments op : clear implicits.
