(* ===== verification/NameRecords.v ===== *)
(** * DNS cache records and resolved IPs (service/resolver)

    [NameRecord]s are kept in the "cache" database through an interface with a read
    cache and delayed writes; [IPInfo]s note which domains an IP was resolved
    from. *)

From S2P Require Import Prelude GoStrings GoNet NetUtils DbRecord Database.

Record ResolverInfo := mkResolver {
  RName : str; RType : str; RSource : str; RIP : option IP; RDomain : str; RIPScope : IPScope; RPort : Z;
}.
#[export] Instance eta_ResolverInfo : Eta ResolverInfo := fun r =>
  mkResolver (RName r) (RType r) (RSource r) (RIP r) (RDomain r) (RIPScope r) (RPort r).

(** ** Name records (namerecord.go) *)
Record NameRecord := mkNameRecord {
  NRDomain : str; Question : str; RCode : Z;
  Answer : list str; Ns : list str; Extra : list str;
  NRExpires : Z; Resolver : option ResolverInfo;
}.
Definition databaseOvertime : Z := 86400 * 14.
Definition nameRecordsKeyPrefix : str := $"cache:intel/nameRecord/".
Definition recordDatabase : Options := {|
  Local := true; Internal := true; AlwaysMakeSecret := false; AlwaysMakeCrownjewel := false;
  AlwaysSetRelativateExpiry := 0; AlwaysSetAbsoluteExpiry := 0; CacheSize := 256; DelayCachedWrites := $"cache";
|}.
Definition NRIsValid (n : NameRecord) : bool :=
  match Resolver n with None => false | Some r => negb (bool_decide (RType r = [])) end.
Definition makeNameRecordKey (domain question : str) : str := nameRecordsKeyPrefix ++ domain ++ question.

Section namerecords.
Context {GC : GCache}.
Notation M := (M (V := NameRecord)).

(** What the storage keeps is unwrapped to an equal record. *)
Definition GetNameRecord (domain question : str) (evicted : list str) : M NameRecord :=
  l ← Get recordDatabase (makeNameRecordKey domain question) evicted;
  r ← readRec l;
  if NRIsValid (payload r) then mret (payload r) else throw ErrInvalid.
Definition ResetCachedRecord (domain question : str) (evicted : list str) : M unit :=
  FlushCache recordDatabase ;;
  ClearCache recordDatabase ;;
  IDelete recordDatabase (makeNameRecordKey domain question) evicted.
(** [l]: the record object. *)
Definition NRSave (l : nat) (evicted : list str) : M unit :=
  r ← readRec l;
  let n := payload r in
  if bool_decide (NRDomain n = []) || bool_decide (Question n = []) then throw ErrInvalid else
  w ← get;
  changeRec l (fun r => UpdateMeta (now w) (SetKey (makeNameRecordKey (NRDomain n) (Question n)) r)) ;;
  changeMeta l (SetAbsoluteExpiry (NRExpires n + databaseOvertime)) ;;
  PutNew recordDatabase l evicted.
End namerecords.

(** ** Resolved domains (ipinfo.go) *)
Record ResolvedDomain := mkResolvedDomain {
  RDDomain : str; CNAMEs : list str; RDResolver : option ResolverInfo; RDExpires : Z;
}.
#[export] Instance eta_ResolvedDomain : Eta ResolvedDomain := fun r =>
  mkResolvedDomain (RDDomain r) (CNAMEs r) (RDResolver r) (RDExpires r).
(** At most [n] steps of the loop from [domain]. *)
Fixpoint followCNAMEs (n : nat) (cnames : gmap str str) (start domain : str) : list str :=
  match n with
  | O => []
  | S n =>
      match cnames !! domain with
      | None => []
      | Some next =>
          if bool_decide (next = start) || bool_decide (next = domain) then []
          else next :: followCNAMEs n cnames start next
      end
  end.
Definition AddCNAMEs (cnames : gmap str str) (r : ResolvedDomain) : ResolvedDomain :=
  r <| CNAMEs ::= fun l => l ++ followCNAMEs 50 cnames (RDDomain r) (RDDomain r) |>.
Definition RDString (r : ResolvedDomain) : str :=
  RDDomain r ++ match CNAMEs r with [] => [] | l => $" (-> " ++ Join l $"->" ++ $")" end.
Definition RDsString (l : list ResolvedDomain) : str := Join (RDString <$> l) $" or ".

Record IPInfo := mkIPInfo { InfoIP : str; ProfileID : str; ResolvedDomains : list ResolvedDomain }.
#[export] Instance eta_IPInfo : Eta IPInfo := fun i => mkIPInfo (InfoIP i) (ProfileID i) (ResolvedDomains i).
(** The first entry of the same domain is removed. *)
Fixpoint removeDomain (domain : str) (l : list ResolvedDomain) : list ResolvedDomain :=
  match l with
  | [] => []
  | d :: l => if bool_decide (RDDomain d = domain) then l else d :: removeDomain domain l
  end.
Definition AddDomain (resolved : ResolvedDomain) (i : IPInfo) : IPInfo :=
  i <| ResolvedDomains ::= fun l => removeDomain (RDDomain resolved) l ++ [resolved] |>.
Definition MostRecentDomain (i : IPInfo) : option ResolvedDomain := last (ResolvedDomains i).
Definition IPInfoProfileScopeGlobal : str := $"global".
Definition makeIPInfoKey (profileID ip : str) : str := $"cache:intel/ipInfo/" ++ profileID ++ $"/" ++ ip.
Definition ipInfoDatabase : Options := recordDatabase.

Section ipinfo.
Context {GC : GCache}.
Notation M := (M (V := IPInfo)).
Definition GetIPInfo (profileID ip : str) (evicted : list str) : M IPInfo :=
  l ← Get ipInfoDatabase (makeIPInfoKey profileID ip) evicted; r ← readRec l; mret (payload r).
Definition infoExpires (now : Z) (i : IPInfo) : Z :=
  foldl (fun expires rd => if expires <? RDExpires rd then RDExpires rd else expires) (now + 86400) (ResolvedDomains i) + 3600.
Definition InfoSave (l : nat) (evicted : list str) : M unit :=
  w ← get;
  changeRec l (fun r =>
    if KeyIsSet r then r else
    let r := if bool_decide (ProfileID (payload r) = []) then r <| payload ::= fun i => i <| ProfileID := IPInfoProfileScopeGlobal |> |> else r in
    SetKey (makeIPInfoKey (ProfileID (payload r)) (InfoIP (payload r))) r) ;;
  changeRec l (UpdateMeta (now w)) ;;
  r ← readRec l;
  changeMeta l (SetAbsoluteExpiry (infoExpires (now w) (payload r))) ;;
  Put ipInfoDatabase l evicted.

(** ** Attributing addresses (firewall/dns.go) *)
(** A read that fails makes a new object. *)
Definition getOrNewIPInfo (profileID ip : str) (evicted : list str) : M nat := fun w =>
  match Get ipInfoDatabase (makeIPInfoKey profileID ip) evicted w with
  | (Err _, w) => newRec (mkRec [] [] None (mkIPInfo ip profileID [])) w
  | r => r
  end.
Definition saveIP (profileID : str) (record : ResolvedDomain) (evicted : list str) (ip : IP) : M unit :=
  if bool_decide (GetIPScope ip = HostLocal) then mret tt else
  l ← getOrNewIPInfo profileID (IPString ip) evicted;
  changeRec l (fun r => r <| payload ::= AddDomain record |>) ;;
  ignore (InfoSave l evicted).
Definition SaveIPsInCache (ips : list IP) (profileID : str) (record : ResolvedDomain) (evicted : list str) : M unit :=
  forM ips (saveIP profileID record evicted).
End ipinfo.
