(* ===== verification/DatabaseProps.v ===== *)
(** * Properties of the database interfaces and the DNS cache

    With writes and reads through one interface, its caches are invisible; deleting
    through a cache, resetting a record that waits to be written, and the expiry of
    DNS records do not work as intended. *)

From S2P Require Import Prelude GoStrings GoNet NetUtils DbRecord Database DatabaseFacts NameRecords.

(** C17. An interface with all permissions, whose options set no expiry and whose
    records nobody else writes, behaves as a map from keys to records: every
    sequence of puts, gets, rounds of the delayed writer and passing time gives the
    results of the map, with any evictions from the read cache in between. *)
Theorem interface_is_map `{GCache} {V} o D (w : World V) c xs :
  ":"%char ∉ D -> D <> [] -> HasAllPermissions o = true ->
  AlwaysSetAbsoluteExpiry o <= 0 -> AlwaysSetRelativateExpiry o <= 0 -> ready D w c ->
  (run o D xs w).1 = (specRun xs (contents c)).1.
Proof. intros HD HD0 Hp Ha Hr Hw. apply run_ok; try done. by apply ready_inv. Qed.

(** ** Deleting through a cache *)
Section delete.
Context `{GCache} {V : Type} (o : Options) (D : str).
Context (HD : ":"%char ∉ D) (HD0 : D <> []) (Hperm : HasAllPermissions o = true).
Context (Habs : AlwaysSetAbsoluteExpiry o <= 0) (Hrel : AlwaysSetRelativateExpiry o <= 0).

Lemma ctrlPut_deleted (w : World V) c l r m : controllers w !! D = Some c -> shuttingDown w = false -> readOnly c = false ->
  heap w !! l = Some r -> rmeta r = Some m -> IsDeleted m = true ->
  exists c', ctrlPut D l w = (Ret tt, w <| controllers ::= <[D := c']> |>) /\
    forall m' v, store c' !! dbKey r = Some (m', v) -> m' = m.
Proof.
  intros Hc Hs Hro Hl Hm Hd. unfold ctrlPut, putOrDelete, readRec, deref, getController, putStore, modify, get, mbind, M_bind, mret, M_ret.
  rewrite Hc, Hs, Hro, Hl, Hm, Hd. cbn [negb andb].
  exists (if shadowDelete c then c <| store ::= <[dbKey r := (m, payload r)]> |> else c <| store ::= delete (dbKey r) |>).
  destruct (shadowDelete c); cbn [negb andb]; (split; [simpl; rewrite (alter_alt_Some _ _ _ _ Hc); reflexivity|]); simpl; intros m' v.
  - rewrite lookup_insert_eq. by intros [= <- _].
  - by rewrite lookup_delete_eq.
Qed.
Lemma IDelete_ok S (w : World V) key v ks : inv o D S w -> S !! key = Some v -> 0 < now w ->
  exists w' l r m c, IDelete o (makeKey D key) ks w = (Ret tt, w') /\ heap w' !! l = Some r /\ payload r = v /\
    rmeta r = Some m /\ IsDeleted m = true /\ shuttingDown w' = false /\
    (cacheInUse o = true -> rcache w' !! makeKey D key = Some (l, None)) /\
    controllers w' !! D = Some c /\ (forall m' v', store c !! key = Some (m', v') -> m' = m).
Proof.
  intros Hi HS Hnow. destruct (getRecord_ok o D HD HD0 Hperm Habs Hrel S w key true ks Hi) as (w1 & Hi1 & Hn & Hg). rewrite HS in Hg.
  destruct Hg as (l & Hg & r & m & Hl & Hv & HrD & Hk & Hm & Hlm & Hc).
  destruct (inv_get_controller o D S w1 Hi1) as (c & _ & Hro & Hcc & _).
  set (f1 := fun r : Rec V => r <| rmeta := Some (applyMeta o (now w1) (rmeta r)) |>).
  set (f2 := fun r : Rec V => r <| rmeta ::= fmap (Delete (now w1)) |>).
  set (w3 := (w1 <| heap ::= alter f1 l |>) <| heap ::= alter f2 l |>).
  set (m3 := Delete (now w1) (applyMeta o (now w1) (Some m))). set (r3 := f2 (f1 r)).
  assert (heap w3 !! l = Some r3) as Hl3.
  { change (alter f2 l (alter f1 l (heap w1)) !! l = Some r3). by rewrite !list_lookup_alter_eq, Hl. }
  assert (rmeta r3 = Some m3) as Hm3 by (unfold r3, f2, f1; simpl; by rewrite Hm).
  assert (IsDeleted m3 = true) as Hd3 by (unfold IsDeleted, m3, Delete; simpl; lia).
  destruct (ctrlPut_deleted w3 c l r3 m3 Hcc (inv_up _ _ _ _ Hi1) Hro Hl3 Hm3 Hd3) as (c' & Ec & Hc').
  assert (IDelete o (makeKey D key) ks w = (Ret tt, w3 <| controllers ::= <[D := c']> |>)) as Ed.
  { unfold IDelete, changeStored. rewrite (bind_ret _ _ _ _ _ Hg).
    rewrite (bind_ret _ _ w1 tt (w1 <| heap ::= alter f1 l |>)) by reflexivity.
    unfold mbind at 1, M_bind at 1, get. rewrite (bind_ret _ _ _ tt w3) by reflexivity.
    rewrite (bind_ret _ _ w3 r3 w3); [|unfold readRec, deref, mbind, M_bind, get; by rewrite Hl3].
    change (dbName r3) with (dbName r). rewrite HrD. exact Ec. }
  eexists _, l, r3, m3, c'. split; [exact Ed|]. split; [exact Hl3|]. split; [exact Hv|]. split; [exact Hm3|]. split; [exact Hd3|].
  split; [exact (inv_up _ _ _ _ Hi1)|]. split; [exact Hc|]. split; [apply lookup_insert_eq|].
  intros m' v' Hst. apply (Hc' m' v'). by rewrite (Hk : dbKey r3 = key).
Qed.
(** The caches of the interface are asked first. *)
Lemma Get_cached (w : World V) c key l ks : controllers w !! D = Some c -> cacheInUse o = true ->
  rcache w !! makeKey D key = Some (l, None) -> Get o (makeKey D key) ks w = (Ret l, w).
Proof.
  intros Hc Hu Hr. unfold Get, getRecord, checkCache, requirePermission, hasAccessPermission.
  rewrite ParseKey_makeKey by done. unfold getController, mbind, M_bind, get, mret, M_ret. rewrite Hc, Hu, Hperm. cbn [andb negb].
  by rewrite Hr.
Qed.
Lemma Get_deleted (w : World V) c key m ks : controllers w !! D = Some c -> cacheInUse o = false -> shuttingDown w = false ->
  IsDeleted m = true -> (forall m' v, store c !! key = Some (m', v) -> m' = m) ->
  Get o (makeKey D key) ks w = (Err ErrNotFound, w).
Proof.
  intros Hc Hu Hs Hd Hm. unfold Get, getRecord, checkCache, ctrlGet. rewrite ParseKey_makeKey by done.
  unfold getController, mbind, M_bind, get, mret, M_ret. rewrite Hc, Hu. cbn [andb negb]. rewrite Hc, Hs.
  destruct (store c !! key) as [[m' v]|] eqn:E; [|done]. rewrite (Hm _ _ eq_refl). unfold CheckValidity. unfold IsDeleted in Hd.
  by rewrite Hd.
Qed.
End delete.

(** A deleted record is still served from the cache: after any operations, when
    a present record is deleted, an interface with a cache hands out the deleted
    record on the next read, and only one without a cache does not find it. *)
Theorem deleted_record_served `{GCache} {V} o D (w0 : World V) c xs key v ks ks' :
  ":"%char ∉ D -> D <> [] -> HasAllPermissions o = true ->
  AlwaysSetAbsoluteExpiry o <= 0 -> AlwaysSetRelativateExpiry o <= 0 -> ready D w0 c ->
  let w := (run o D xs w0).2 in
  (specRun xs (contents c)).2 !! key = Some v -> 0 < now w ->
  exists w', IDelete o (makeKey D key) ks w = (Ret tt, w') /\
    if cacheInUse o
    then exists l r m, Get o (makeKey D key) ks' w' = (Ret l, w') /\ heap w' !! l = Some r /\ payload r = v /\
      rmeta r = Some m /\ IsDeleted m = true
    else Get o (makeKey D key) ks' w' = (Err ErrNotFound, w').
Proof.
  intros HD HD0 Hp Ha Hr Hw w HS Hnow.
  destruct (run_ok o D HD HD0 Hp Ha Hr xs _ w0 (ready_inv o D w0 c Hw)) as [_ Hi].
  destruct (IDelete_ok o D HD HD0 Hp Ha Hr _ w key v ks Hi HS Hnow) as (w' & l & r & m & c' & E & Hl & Hv & Hm & Hd & Hs & Hc & Hcc & Hst).
  exists w'. split; [done|]. destruct (cacheInUse o) eqn:Eu.
  - exists l, r, m. split; [|done]. by apply (Get_cached o D HD Hp w' c'); [| |apply Hc].
  - by apply (Get_deleted o D HD w' c' key m).
Qed.

(** ** The DNS cache *)
Section names.
Context `{GCache}.
Definition cacheDB : str := $"cache".
Definition nameKey (domain question : str) : str := $"intel/nameRecord/" ++ domain ++ question.
Lemma nameRecordKey domain question : makeNameRecordKey domain question = makeKey cacheDB (nameKey domain question).
Proof. done. Qed.
Lemma cacheDB_plain : ":"%char ∉ cacheDB.
Proof. unfold cacheDB. cbn. rewrite !not_elem_of_cons. repeat split; try done. set_solver. Qed.

Definition saveNew (n : NameRecord) (evicted : list str) : M unit :=
  l ← newRec (mkRec [] [] None n); NRSave l evicted.
Lemma saveNew_ok S (w : World NameRecord) n ks : inv recordDatabase cacheDB S w -> NRDomain n <> [] -> Question n <> [] ->
  exists w', saveNew n ks w = (Ret tt, w') /\ inv recordDatabase cacheDB (<[nameKey (NRDomain n) (Question n) := n]> S) w'.
Proof.
  intros Hi Hd Hq. set (r0 := mkRec [] [] None n : Rec NameRecord).
  set (r1 := UpdateMeta (now w) (SetKey (makeNameRecordKey (NRDomain n) (Question n)) r0)).
  set (r2 := r1 <| rmeta ::= fmap (SetAbsoluteExpiry (NRExpires n + databaseOvertime)) |>).
  set (r3 := r2 <| rmeta ::= fmap Reset |>).
  set (r := r3 <| rmeta := Some (applyMeta recordDatabase (now w) (rmeta r3)) |>).
  assert (exists m, rmeta r3 = Some m /\ lasting m) as (m & Hm3 & Hlm) by (by eexists).
  destruct (put_new recordDatabase cacheDB cacheDB_plain ltac:(done) eq_refl ltac:(done) ltac:(done) S w r0 r
    (applyMeta recordDatabase (now w) (rmeta r3)) ks (fun l => NRSave l ks) Hi) as (w' & E & Hi').
  - reflexivity.
  - reflexivity.
  - rewrite Hm3. by apply lasting_apply.
  - intros c w0 w1 l Ec Hro Hl -> -> ->. unfold NRSave. rewrite (bind_ret _ _ _ _ _ (read_new _ _ _ Hl)). cbn [payload r0].
    rewrite !bool_decide_false by done. cbn [orb]. unfold mbind at 1, M_bind at 1, get.
    rewrite (bind_ret _ _ _ _ _ (changeRec_new w r0 _)). fold r1.
    unfold changeMeta. rewrite (bind_ret _ _ _ _ _ (changeRec_new w r1 _)). fold r2. unfold PutNew.
    assert (readRec (length (heap w)) (w <| heap ::= fun h => h ++ [r2] |>) = (Ret r2, w <| heap ::= fun h => h ++ [r2] |>)) as Er
      by (apply read_new; by apply list_lookup_middle).
    rewrite (bind_ret _ _ _ _ _ Er). change (HasAllPermissions recordDatabase) with true. unfold mbind at 1, M_bind at 1.
    cbn [mret M_ret]. change (dbName r2) with cacheDB.
    rewrite (bind_ret _ _ _ c (w <| heap ::= fun h => h ++ [r2] |>)).
    2: { unfold getController, get, mbind, M_bind in Ec |- *. simpl in Ec |- *. destruct (controllers w !! cacheDB); [|done].
         by injection Ec as ->. }
    rewrite Hro. unfold changeMeta.
    rewrite (bind_ret _ _ _ _ _ (changeRec_new w r2 _)). fold r3.
    by rewrite (bind_ret _ _ _ _ _ (Apply_new recordDatabase w r3)).
  - exists w'. split; [exact E|exact Hi'].
Qed.
(** Operations that put nothing. *)
Definition quiet (x : op NameRecord) : Prop := match x with OPut _ _ _ => False | _ => True end.
Lemma quiet_run S xs : Forall quiet xs -> (specRun xs S).2 = S.
Proof.
  intros Hq. induction Hq as [|x xs Hx Hq IH]; [done|]. simpl. destruct x as [| | |]; simpl in *; [done|..].
  all: destruct (specRun xs S); done.
Qed.
Lemma GetNameRecord_ok S (w : World NameRecord) domain question n ks : inv recordDatabase cacheDB S w ->
  S !! nameKey domain question = Some n -> NRIsValid n = true ->
  exists w', GetNameRecord domain question ks w = (Ret n, w').
Proof.
  intros Hi HS Hv. unfold GetNameRecord, Get. rewrite nameRecordKey.
  destruct (getRecord_ok recordDatabase cacheDB cacheDB_plain ltac:(done) eq_refl ltac:(done) ltac:(done)
    S w (nameKey domain question) false ks Hi) as (w' & _ & _ & Hg). rewrite HS in Hg.
  destruct Hg as (l & Hg & r & m & Hl & <- & _). exists w'. rewrite (bind_ret _ _ _ _ _ Hg).
  rewrite (bind_ret _ _ _ _ _ (read_new _ _ _ Hl)). by rewrite Hv.
Qed.
End names.

(** The records of the DNS cache never expire: whatever expiry a record has when
    it is saved (two weeks after its TTL), it is read again after any time, because
    saving it as new resets the expiry that was just set. *)
Theorem name_record_never_expires `{GCache} (w0 : World NameRecord) c xs n ks ys ks' :
  ready cacheDB w0 c -> NRDomain n <> [] -> Question n <> [] -> NRIsValid n = true -> Forall quiet ys ->
  let w := (run recordDatabase cacheDB xs w0).2 in
  exists w1 w2, saveNew n ks w = (Ret tt, w1) /\
    GetNameRecord (NRDomain n) (Question n) ks' (run recordDatabase cacheDB ys w1).2 = (Ret n, w2).
Proof.
  intros Hw Hd Hq Hv Hys w.
  destruct (run_ok recordDatabase cacheDB cacheDB_plain ltac:(done) eq_refl ltac:(done) ltac:(done) xs _ w0
    (ready_inv _ _ _ _ Hw)) as [_ Hi].
  destruct (saveNew_ok _ w n ks Hi Hd Hq) as (w1 & E & Hi1).
  destruct (run_ok recordDatabase cacheDB cacheDB_plain ltac:(done) eq_refl ltac:(done) ltac:(done) ys _ w1 Hi1) as [_ Hi2].
  rewrite quiet_run in Hi2 by done.
  destruct (GetNameRecord_ok _ _ (NRDomain n) (Question n) n ks' Hi2) as (w2 & E2); [apply lookup_insert_eq|done|].
  by exists w1, w2.
Qed.

(** Resetting a DNS cache record that waits to be written fails: flushing does
    nothing, the cleared cache and the storage do not have the record, so it is not
    found, and the next round of the delayed writer brings it back. *)
Theorem reset_misses_pending_record `{GCache} (w0 : World NameRecord) c xs domain question l ks ks' n :
  ready cacheDB w0 c ->
  let w := (run recordDatabase cacheDB xs w0).2 in
  wcache w !! makeNameRecordKey domain question = Some l ->
  (forall c', controllers w !! cacheDB = Some c' -> store c' !! nameKey domain question = None) ->
  (specRun xs (contents c)).2 !! nameKey domain question = Some n -> NRIsValid n = true ->
  exists w1 w2 w3, ResetCachedRecord domain question ks w = (Err ErrNotFound, w1) /\
    writerStep recordDatabase WriterForced w1 = (Ret tt, w2) /\
    GetNameRecord domain question ks' w2 = (Ret n, w3).
Proof.
  intros Hw w Hpend Hstore HS Hv.
  destruct (run_ok recordDatabase cacheDB cacheDB_plain ltac:(done) eq_refl ltac:(done) ltac:(done) xs _ w0
    (ready_inv _ _ _ _ Hw)) as [_ Hi]. fold w in Hi. set (T := (specRun xs (contents c)).2) in *.
  pose proof (clear_pending _ _ _ _ Hi) as Hp. set (w1 := w <| rcache := ∅ |>) in *.
  destruct (flush_pending recordDatabase cacheDB cacheDB_plain ltac:(done) eq_refl ltac:(done) ltac:(done) T w1 Hp)
    as (w2 & E2 & Hi2); [intros E; simpl in E; by rewrite E, lookup_empty in Hpend|].
  destruct (GetNameRecord_ok T w2 domain question n ks' Hi2 HS Hv) as (w3 & E3).
  exists w1, w2, w3. split; [|split; [|done]].
  - unfold ResetCachedRecord. rewrite nameRecordKey.
    rewrite (bind_ret _ _ w tt w) by reflexivity. rewrite (bind_ret _ _ w tt w1) by reflexivity.
    destruct (inv_store _ _ _ _ Hi) as (c' & Hc & Hro & _). specialize (Hstore c' Hc).
    unfold IDelete, changeStored. apply bind_err. unfold getRecord. rewrite ParseKey_makeKey by apply cacheDB_plain.
    assert (getController cacheDB w1 = (Ret c', w1)) as Ec by (unfold getController, mbind, M_bind, get; simpl; by rewrite Hc).
    rewrite (bind_ret _ _ _ _ _ Ec), Hro. cbn [andb].
    rewrite (bind_ret _ _ w1 None w1); [|unfold checkCache, mbind, M_bind, get; simpl; by rewrite lookup_empty].
    apply bind_err. unfold ctrlGet. rewrite (bind_ret _ _ _ _ _ Ec). unfold mbind, M_bind, get.
    change (shuttingDown w1) with (shuttingDown w). by rewrite (inv_up _ _ _ _ Hi), Hstore.
  - unfold writerStep, flushWriteCache. unfold mbind at 1, M_bind at 1, get.
    rewrite bool_decide_false by (intros E; simpl in E; by rewrite E, lookup_empty in Hpend).
    assert (Z.of_nat (size (wcache w1)) * 100 / CacheSize recordDatabase <? 0 = false) as ->; [|exact E2].
    apply Z.ltb_ge, Z.div_pos; simpl; lia.
Qed.

(** ** Witnesses *)
Module DatabaseDemo.
#[export] Instance gcache : GCache := {| removeEvicts := true; expiredEvicts := true |}.
Definition empty {V} : Controller V := mkController ∅ false false.
Definition world {V} : World V := mkWorld {[ cacheDB := empty ]} false [] ∅ ∅ false 1000.
Lemma world_ready {V} : ready cacheDB (world (V := V)) empty.
Proof. split; [reflexivity|split; reflexivity|split; reflexivity|]. intros key m v Hk. discriminate Hk. Defined.
Definition resolver : ResolverInfo := mkResolver $"quad9" $"dot" $"config" (Some [9; 9; 9; 9]) $"dns.quad9.net" Global 853.
Definition record : NameRecord := mkNameRecord $"example.com." $"A" 0 [$"192.0.2.1"] [] [] 1300 (Some resolver).
(** A century passes. *)
Definition century : list (op NameRecord) := [OWriter WriterTick; OTime (100 * 366 * 86400); OWriter WriterForced].
Definition saved : list (op NameRecord) := [OPut (nameKey $"example.com." $"A") record []].
End DatabaseDemo.
Import DatabaseDemo.

Lemma interface_is_map_witness :
  (run recordDatabase cacheDB [OPut $"a" 1 []; OPut $"b" 2 [makeKey cacheDB $"a"]; OGet $"a" []; OPut $"a" 3 [];
     OWriter WriterTriggered; OGet $"a" []; OGet $"c" []] world).1
  = [Ret None; Ret None; Ret (Some 1); Ret None; Ret None; Ret (Some 3); Err ErrNotFound].
Proof.
  rewrite (interface_is_map recordDatabase cacheDB world empty); [vm_compute; reflexivity|apply cacheDB_plain|discriminate|reflexivity|
    discriminate|discriminate|apply world_ready].
Defined.
Lemma deleted_record_served_witness :
  let w := (run recordDatabase cacheDB [OPut $"a" 1 []] world).2 in
  exists w' l r, IDelete recordDatabase (makeKey cacheDB $"a") [] w = (Ret tt, w') /\
    Get recordDatabase (makeKey cacheDB $"a") [] w' = (Ret l, w') /\ heap w' !! l = Some r /\ payload r = 1.
Proof.
  destruct (deleted_record_served recordDatabase cacheDB world empty [OPut $"a" 1 []] $"a" 1 [] [])
    as (w' & H1 & l & r & m & H2 & H3 & H4 & _);
    [apply cacheDB_plain|discriminate|reflexivity|discriminate|discriminate|apply world_ready|vm_compute; reflexivity|vm_compute; reflexivity|].
  exists w', l, r. split; [exact H1|]. split; [exact H2|]. split; [exact H3|exact H4].
Defined.
Lemma name_record_never_expires_witness :
  exists w1 w2, saveNew record [] world = (Ret tt, w1) /\
    GetNameRecord $"example.com." $"A" [] (run recordDatabase cacheDB century w1).2 = (Ret record, w2).
Proof.
  apply (name_record_never_expires world empty [] record [] century []);
    [apply world_ready|discriminate|discriminate|reflexivity|repeat (apply Forall_cons_2; [exact I|]); apply Forall_nil_2].
Defined.
Lemma reset_misses_pending_record_witness :
  exists w1 w2 w3, ResetCachedRecord $"example.com." $"A" [] (run recordDatabase cacheDB saved world).2 = (Err ErrNotFound, w1) /\
    writerStep recordDatabase WriterForced w1 = (Ret tt, w2) /\ GetNameRecord $"example.com." $"A" [] w2 = (Ret record, w3).
Proof.
  eapply (reset_misses_pending_record world empty saved);
    [apply world_ready|vm_compute; reflexivity| |vm_compute; reflexivity|reflexivity].
  intros c' Hc'. vm_compute in Hc'. apply (inj Some) in Hc'. subst c'. vm_compute. reflexivity.
Defined.
