(* ===== verification/FilterIndex.v ===== *)
(** * The index of the filter lists (service/intel/filterlists/index.go)

    Sources belong to categories, which may be nested; the settings name sources or
    categories, which are resolved to sources.  The code recurses through the child
    categories without a guard, so the model takes fuel. *)

From S2P Require Import Prelude GoStrings GoNet NetUtils Entity.

Record Category := mkCategory { CatID : str; CatParent : str; CatName : str; CatDescription : str }.
Record Source := mkSource { SrcID : str; SrcName : str; SrcType : str; SrcCategory : str }.
Record ListIndexFile := mkIndex { IndexVersion : str; SchemaVersion : str; Categories : list Category; Sources : list Source }.

(** The keys of a Go map, sorted. *)
Definition mapKeys (m : gset str) : list str := sortStrings (elements m).

Section index.
Context (index : ListIndexFile).

(** The sources directly in a category. *)
Definition ownSources (id : str) : gset str :=
  list_to_set (SrcID <$> filter (fun s => SrcCategory s = id) (Sources index)).
(** All child categories are visited with [rec]. *)
Fixpoint visitChildren (rec : str -> option (list str)) (id : str) (cats : list Category) (ids : gset str) : option (gset str) :=
  match cats with
  | [] => Some ids
  | c :: cats =>
      if bool_decide (CatParent c = id) then
        l ← rec (CatID c); visitChildren rec id cats (ids ∪ list_to_set l)
      else visitChildren rec id cats ids
  end.
Fixpoint getCategorySources (fuel : nat) (id : str) : option (list str) :=
  match fuel with
  | O => None
  | S fuel => mapKeys <$> visitChildren (getCategorySources fuel) id (Categories index) (ownSources id)
  end.
Definition getSourcesMatching (fuel : nat) (id : str) : option (list str) :=
  if bool_decide (id ∈ SrcID <$> Sources index) then Some [id] else getCategorySources fuel id.
Fixpoint collectSources (fuel : nat) (ids : list str) (distinct : gset str) : option (gset str) :=
  match ids with
  | [] => Some distinct
  | id :: ids => l ← getSourcesMatching fuel id; collectSources fuel ids (distinct ∪ list_to_set l)
  end.
Definition getDistictSourceIDs (fuel : nat) (ids : list str) : option (list str) :=
  mapKeys <$> collectSources fuel ids ∅.

(** ** What is resolved *)
Definition child (a b : str) : Prop := exists c, c ∈ Categories index /\ CatParent c = a /\ CatID c = b.
(** A source in the category or one nested in it. *)
Definition inCategory (id sid : str) : Prop :=
  exists s, s ∈ Sources index /\ SrcID s = sid /\ rtc child id (SrcCategory s).
Definition resolvesTo (id sid : str) : Prop :=
  if bool_decide (id ∈ SrcID <$> Sources index) then sid = id else inCategory id sid.

Lemma insertStr_perm v l : insertStr v l ≡ₚ v :: l.
Proof. induction l as [|w l IH]; [done|]. simpl. destruct (strLe v w); [done|]. rewrite IH. apply Permutation_swap. Qed.
Lemma sortStrings_perm l : sortStrings l ≡ₚ l.
Proof. unfold sortStrings. induction l as [|v l IH]; [done|]. simpl. by rewrite insertStr_perm, IH. Qed.
Lemma elem_of_mapKeys x m : x ∈ mapKeys m <-> x ∈ m.
Proof. unfold mapKeys. rewrite sortStrings_perm. apply elem_of_elements. Qed.
Lemma mapKeys_NoDup m : NoDup (mapKeys m).
Proof. unfold mapKeys. rewrite sortStrings_perm. apply NoDup_elements. Qed.
Lemma elem_of_own id x : x ∈ ownSources id <-> exists s, s ∈ Sources index /\ SrcID s = x /\ SrcCategory s = id.
Proof.
  unfold ownSources. rewrite elem_of_list_to_set, list_elem_of_fmap. split.
  - intros (s & -> & Hs). apply list_elem_of_filter in Hs as [<- Hs]. eauto.
  - intros (s & Hs & <- & <-). exists s. split; [done|]. by apply list_elem_of_filter.
Qed.
Lemma visitChildren_ok rec id cats ids : (forall c, c ∈ cats -> CatParent c = id -> exists l, rec (CatID c) = Some l) ->
  exists ids', visitChildren rec id cats ids = Some ids' /\
    forall x, x ∈ ids' <-> x ∈ ids \/ exists c l, c ∈ cats /\ CatParent c = id /\ rec (CatID c) = Some l /\ x ∈ l.
Proof.
  revert ids. induction cats as [|c cats IH]; intros ids Hr; simpl.
  { exists ids. split; [done|]. intros x. split; [by left|]. intros [?|(c & l & Hc & _)]; [done|set_solver]. }
  case_bool_decide as Hc.
  - destruct (Hr c ltac:(set_solver) Hc) as (l & Hl). rewrite Hl. simpl.
    destruct (IH (ids ∪ list_to_set l)) as (ids' & E & Hx); [intros; apply Hr; set_solver|]. exists ids'. split; [done|].
    intros x. rewrite Hx, elem_of_union, elem_of_list_to_set. split.
    + intros [[?|?]|(c' & l' & ? & ? & ? & ?)]; [by left|right; exists c, l; set_solver|right; exists c', l'; set_solver].
    + intros [?|(c' & l' & [-> | Hin]%elem_of_cons & Hp & Hl' & Hxl)]; [by left; left| |right; by exists c', l'].
      left. right. congruence.
  - destruct (IH ids) as (ids' & E & Hx); [intros; apply Hr; set_solver|]. exists ids'. split; [done|].
    intros x. rewrite Hx. split; intros [?|(c' & l' & Hin & Hp & ?)]; [by left|right; exists c', l'; set_solver|by left|].
    apply elem_of_cons in Hin as [-> | Hin]; [done|]. right. by exists c', l'.
Qed.
Lemma visitChildren_None rec id cats ids c : c ∈ cats -> CatParent c = id -> rec (CatID c) = None ->
  visitChildren rec id cats ids = None.
Proof.
  intros Hc Hp Hn. revert ids. induction cats as [|c' cats IH]; intros ids; [set_solver|]. simpl.
  apply elem_of_cons in Hc as [<-|Hc].
  - by rewrite bool_decide_true, Hn.
  - case_bool_decide; [|by apply IH]. destruct (rec (CatID c')); [by apply IH|done].
Qed.

(** ** Acyclic categories *)
Lemma categories_ok (rank : str -> nat) : (forall a b, child a b -> (rank b < rank a)%nat) ->
  forall fuel id, (rank id < fuel)%nat -> exists l, getCategorySources fuel id = Some l /\ NoDup l /\
    forall sid, sid ∈ l <-> inCategory id sid.
Proof.
  intros Hrank. induction fuel as [|fuel IH]; intros id Hf; [lia|]. simpl.
  assert (forall c, c ∈ Categories index -> CatParent c = id -> exists l, getCategorySources fuel (CatID c) = Some l) as Hrec.
  { intros c Hc Hp. destruct (IH (CatID c)) as (l & Hl & _); [|by exists l].
    assert (child id (CatID c)) as Hch by (by exists c). apply Hrank in Hch. lia. }
  destruct (visitChildren_ok _ id _ (ownSources id) Hrec) as (ids & E & Hx). rewrite E. simpl.
  exists (mapKeys ids). split; [done|]. split; [apply mapKeys_NoDup|]. intros sid. rewrite elem_of_mapKeys, Hx, elem_of_own. split.
  - intros [(s & Hs & <- & <-)|(c & l & Hc & Hp & Hl & Hin)]; [by exists s|].
    assert (child id (CatID c)) as Hch by (by exists c). pose proof (Hrank _ _ Hch).
    destruct (IH (CatID c) ltac:(lia)) as (l' & Hl' & _ & Hspec). rewrite Hl in Hl'. injection Hl' as <-.
    apply Hspec in Hin as (s & Hs & Hsid & Hr). exists s. split; [done|]. split; [done|]. by eapply rtc_l.
  - intros (s & Hs & <- & Hr). apply rtc_inv in Hr as [Hr|(b & Hch & Hr)]; [left; by exists s|]. right.
    destruct Hch as (c & Hc & Hp & <-). destruct (Hrec c Hc Hp) as (l & Hl). exists c, l. split; [done|]. split; [done|]. split; [done|].
    assert (child id (CatID c)) as Hch by (by exists c). pose proof (Hrank _ _ Hch).
    destruct (IH (CatID c) ltac:(lia)) as (l' & Hl' & _ & Hspec). rewrite Hl in Hl'. injection Hl' as <-.
    apply Hspec. by exists s.
Qed.
Lemma collect_ok (rank : str -> nat) fuel : (forall a b, child a b -> (rank b < rank a)%nat) -> (forall id, (rank id < fuel)%nat) ->
  forall ids distinct, exists ids', collectSources fuel ids distinct = Some ids' /\
    forall x, x ∈ ids' <-> x ∈ distinct \/ exists id, id ∈ ids /\ resolvesTo id x.
Proof.
  intros Hrank Hf. induction ids as [|id ids IH]; intros distinct; simpl.
  { exists distinct. split; [done|]. intros x. split; [by left|]. intros [?|(? & ? & _)]; [done|set_solver]. }
  assert (exists l, getSourcesMatching fuel id = Some l /\ forall x, x ∈ l <-> resolvesTo id x) as (l & El & Hl).
  { unfold getSourcesMatching, resolvesTo. case_bool_decide; [exists [id]; split; [done|set_solver]|].
    destruct (categories_ok rank Hrank fuel id (Hf id)) as (l & El & _ & Hl). by exists l. }
  rewrite El. simpl. destruct (IH (distinct ∪ list_to_set l)) as (ids' & E & Hx). exists ids'. split; [done|].
  intros x. rewrite Hx, elem_of_union, elem_of_list_to_set, Hl. split.
  - intros [[?|?]|(id' & ? & ?)]; [by left|right; exists id; set_solver|right; exists id'; set_solver].
  - intros [?|(id' & [-> | ?]%elem_of_cons & ?)]; [by left; left|by left; right|right; by exists id'].
Qed.

(** ** Cycles *)
Lemma child_None fuel a b : child a b -> getCategorySources fuel b = None -> getCategorySources (S fuel) a = None.
Proof. intros (c & Hc & Hp & <-) Hn. simpl. by rewrite (visitChildren_None _ _ _ _ c). Qed.
Lemma fuel_le n m id l : getCategorySources n id = Some l -> (n <= m)%nat -> is_Some (getCategorySources m id).
Proof.
  revert m id l. induction n as [|n IH]; intros m id l Hl Hle; [done|]. destruct m as [|m]; [lia|]. simpl in *.
  destruct (visitChildren _ _ _ _) as [ids|] eqn:E; [|done].
  destruct (visitChildren_ok (getCategorySources m) id (Categories index) (ownSources id)) as (ids' & E' & _).
  - intros c Hc Hp. destruct (getCategorySources n (CatID c)) as [lc|] eqn:Ec.
    + destruct (IH m _ _ Ec ltac:(lia)) as [l' Hl']. by exists l'.
    + by rewrite (visitChildren_None _ _ _ _ c Hc Hp Ec) in E.
  - rewrite E'. by eexists.
Qed.
Lemma cycle_None a : tc child a a -> forall fuel, getCategorySources fuel a = None.
Proof.
  intros Hc. assert (forall a b, tc child a b -> forall fuel, getCategorySources fuel b = None ->
    getCategorySources (S fuel) a = None) as Hstep.
  { clear. induction 1 as [a b Hab|a b c Hab _ IH]; intros fuel Hn; [by eapply child_None|].
    eapply child_None; [exact Hab|]. destruct (getCategorySources fuel b) as [l|] eqn:E; [|done].
    apply (fuel_le _ (S fuel)) in E as [l' Hl']; [|lia]. by rewrite IH in Hl'. }
  induction fuel as [|fuel IH]; [done|]. by apply (Hstep a a).
Qed.
Lemma reach_None a b : rtc child a b -> (forall fuel, getCategorySources fuel b = None) -> forall fuel, getCategorySources fuel a = None.
Proof.
  induction 1 as [|a b c Hab _ IH]; intros Hn fuel; [done|]. destruct fuel as [|fuel]; [done|].
  eapply child_None; [done|]. by apply IH.
Qed.
End index.

(** C21. Resolving list and category IDs: when no category is nested in itself, the
    recursion ends, with fuel for the depth of the nesting, and gives each source that
    is named, or that is in a named category at any depth, exactly once. *)
Theorem resolve_ids index rank ids fuel :
  (forall a b, child index a b -> (rank b < rank a)%nat) -> (forall id, (rank id < fuel)%nat) ->
  exists l, getDistictSourceIDs index fuel ids = Some l /\ NoDup l /\
    forall sid, sid ∈ l <-> exists id, id ∈ ids /\ resolvesTo index id sid.
Proof.
  intros Hrank Hf. destruct (collect_ok index rank fuel Hrank Hf ids ∅) as (ids' & E & Hx).
  exists (mapKeys ids'). unfold getDistictSourceIDs. rewrite E. split; [done|]. split; [apply mapKeys_NoDup|].
  intros sid. rewrite elem_of_mapKeys, Hx. set_solver.
Qed.
(** A category that is nested in itself, as the index file may say, makes the
    resolution of it and of every category above it recurse without end. *)
Theorem category_cycle_diverges index id x :
  tc (child index) x x -> rtc (child index) id x -> (id ∉ SrcID <$> Sources index) ->
  forall fuel ids, id ∈ ids -> getDistictSourceIDs index fuel ids = None.
Proof.
  intros Hc Hr Hid fuel ids Hin. unfold getDistictSourceIDs.
  assert (getSourcesMatching index fuel id = None) as Hn.
  { unfold getSourcesMatching. rewrite bool_decide_false by done. by apply (reach_None index id x Hr (cycle_None index x Hc)). }
  assert (forall d, collectSources index fuel ids d = None) as ->; [|done].
  induction ids as [|i ids IH]; intros d; [set_solver|]. simpl. apply elem_of_cons in Hin as [<-|Hin]; [by rewrite Hn|].
  destruct (getSourcesMatching index fuel i); [by apply IH|done].
Qed.

(** ** Witnesses *)
Module IndexDemo.
Definition cat (id parent : str) : Category := mkCategory id parent id [].
Definition src (id category : str) : Source := mkSource id id $"domain" category.
Definition index : ListIndexFile := mkIndex $"1" $"1"
  [cat $"MAL" []; cat $"PHISH" $"MAL"; cat $"TRAC" []] [src $"17-A" $"MAL"; src $"17-B" $"PHISH"; src $"17-C" $"TRAC"].
Definition rank (id : str) : nat := if bool_decide (id = []) then 3 else if bool_decide (id = $"MAL") then 2 else 1.
Lemma rank_ok a b : child index a b -> (rank b < rank a)%nat.
Proof.
  intros (c & Hc & <- & <-). repeat (apply elem_of_cons in Hc as [-> | Hc]; [vm_compute; lia|]). by apply not_elem_of_nil in Hc.
Qed.
Definition cyclic : ListIndexFile := mkIndex $"1" $"1" [cat $"A" $"B"; cat $"B" $"A"] [src $"17-A" $"A"].
End IndexDemo.
Lemma resolve_ids_witness :
  getDistictSourceIDs IndexDemo.index 4 [$"MAL"; $"17-C"] = Some [$"17-A"; $"17-B"; $"17-C"] /\
  exists l, getDistictSourceIDs IndexDemo.index 4 [$"MAL"; $"17-C"] = Some l /\ NoDup l /\
    forall sid, sid ∈ l <-> exists id, id ∈ [$"MAL"; $"17-C"] /\ resolvesTo IndexDemo.index id sid.
Proof.
  split; [vm_compute; reflexivity|]. apply (resolve_ids IndexDemo.index IndexDemo.rank).
  - exact IndexDemo.rank_ok.
  - intros id. unfold IndexDemo.rank. destruct (bool_decide _); [lia|]. destruct (bool_decide _); lia.
Defined.
Lemma category_cycle_diverges_witness : getDistictSourceIDs IndexDemo.cyclic 100 [$"A"] = None.
Proof.
  apply (category_cycle_diverges IndexDemo.cyclic $"A" $"A").
  - apply (tc_l _ _ $"B"); [|apply tc_once].
    + exists (IndexDemo.cat $"B" $"A"). split; [right; left|split; reflexivity].
    + exists (IndexDemo.cat $"A" $"B"). split; [left|split; reflexivity].
  - apply rtc_refl.
  - apply (bool_decide_unpack _). vm_compute. exact I.
  - left.
Defined.
