(* ===== verification/FilterDecode.v ===== *)
(** * Filter list files (service/intel/filterlists/decoder.go)

    A file is a header and a sequence of entries, each a length and an encoded entry.
    Decompression and the encoding of entries are the environment. *)

From S2P Require Import Prelude Varint GoStrings GoNet.

Record entryResource := mkResource { SourceID : str; ResourceID : str }.
Record listEntry := mkEntry { EType : str; EEntity : str; Whitelist : bool; Resources : list entryResource }.
#[export] Instance eta_listEntry : Eta listEntry := fun e => mkEntry (EType e) (EEntity e) (Whitelist e) (Resources e).

Definition StringInSlice (a : list str) (s : str) : bool := existsb (eqs s) a.
Definition getSources (e : listEntry) : list str :=
  foldl (fun ids r => if StringInSlice ids (SourceID r) then ids else ids ++ [SourceID r]) [] (Resources e).

Class DSD := {
  LIST : Z;
  GZIP : Z;
  LoadAsFormat : bytes -> Z -> option listEntry;
  (** The decompressed bytes, and whether they end without an error; [None]: no reader. *)
  gunzip : bytes -> option (bytes * bool);
}.

(** ** [binary.ReadUvarint] *)
Inductive readVarint :=
| ReadEOF
| ReadErr
| ReadOk (x : Z) (rest : bytes).
(** After [i] bytes with value [x]; [clean]: the reader ends with [io.EOF]. *)
Fixpoint uvarintLoop (clean : bool) (n i : nat) (x : Z) (bs : bytes) : readVarint :=
  match n with
  | O => ReadErr
  | S n =>
      match bs with
      | [] => if clean && (i =? 0)%nat then ReadEOF else ReadErr
      | b :: bs =>
          if b <? 128 then
            if (i =? 9)%nat && (1 <? b) then ReadErr
            else ReadOk (Z.lor x (Z.shiftl b (7 * Z.of_nat i) mod 2 ^ 64)) bs
          else uvarintLoop clean n (S i) (Z.lor x (Z.shiftl (Z.land b 127) (7 * Z.of_nat i) mod 2 ^ 64)) bs
      end
  end.
Definition ReadUvarint (clean : bool) (bs : bytes) : readVarint := uvarintLoop clean 10 0 0 bs.

Section decode.
Context {DS : DSD}.

(** The compression, the format and the rest of the file. *)
Definition parseHeader (bs : bytes) : option (bool * Z * bytes) :=
  match bs with
  | [] => None
  | h :: bs =>
      if negb (h =? LIST) then None else
      match bs with
      | [] => None
      | c :: bs => if c =? GZIP then match bs with [] => None | f :: bs => Some (true, f, bs) end else Some (false, c, bs)
      end
  end.
(** The entries in order, and whether the reader ended after one; every round reads a
    byte at least. *)
Fixpoint decodeLoop (fuel : nat) (clean : bool) (format : Z) (bs : bytes) : list listEntry * bool :=
  match fuel with
  | O => ([], false)
  | S fuel =>
      match ReadUvarint clean bs with
      | ReadEOF => ([], true)
      | ReadErr => ([], false)
      | ReadOk len rest =>
          if Z.of_nat (length rest) <? len then ([], false) else
          match LoadAsFormat (take (Z.to_nat len) rest) format with
          | None => ([], false)
          | Some e => let '(es, ok) := decodeLoop fuel clean format (drop (Z.to_nat len) rest) in (e :: es, ok)
          end
      end
  end.
Definition decodeFile (bs : bytes) : list listEntry * bool :=
  match parseHeader bs with
  | None => ([], false)
  | Some (compressed, format, rest) =>
      match if compressed : bool then gunzip rest else Some (rest, true) with
      | None => ([], false)
      | Some (stream, clean) => decodeLoop (S (length stream)) clean format stream
      end
  end.

(** ** Frames *)
Definition frame (blob : bytes) : bytes := Leb.pack (Z.of_nat (length blob)) ++ blob.
Definition frames (blobs : list bytes) : bytes := concat (frame <$> blobs).
Definition sized (blob : bytes) : Prop := Z.of_nat (length blob) < 2 ^ 63.
(** The beginning of a frame that is cut off. *)
Definition cut (tail : bytes) : Prop := exists blob rest, sized blob /\ frame blob = tail ++ rest /\ rest <> [] /\ tail <> [].

Lemma lor_add x b k : 0 <= k -> 0 <= x < 2 ^ k -> 0 <= b -> Z.lor x (Z.shiftl b k) = x + b * 2 ^ k.
Proof.
  intros Hk Hx Hb. rewrite Z.shiftl_mul_pow2 by lia. symmetry. apply Z.add_nocarry_lor.
  apply Z.bits_inj'. intros n Hn. rewrite Z.land_spec, Z.bits_0.
  destruct (Z.ltb_spec n k); [rewrite Z.mul_pow2_bits_low by lia; by rewrite andb_false_r|].
  destruct (decide (x = 0)) as [->|]; [by rewrite Z.bits_0|].
  assert (Z.log2 x < k) by (apply Z.log2_lt_pow2; lia). rewrite (Z.bits_above_log2 x) by lia. done.
Qed.
Lemma group_add x b n k : 0 <= k -> 0 <= x < 2 ^ k -> 0 <= b <= n -> n * 2 ^ k < 2 ^ 64 ->
  Z.lor x (Z.shiftl b k mod 2 ^ 64) = x + b * 2 ^ k.
Proof.
  intros Hk Hx Hb Hn. assert (0 < 2 ^ k) by (apply Z.pow_pos_nonneg; lia). rewrite Z.mod_small; [apply lor_add; lia|].
  rewrite Z.shiftl_mul_pow2 by lia. nia.
Qed.
Lemma uvarint_step clean n i x b bs : 128 <= b -> uvarintLoop clean (S n) i x (b :: bs) =
  uvarintLoop clean n (S i) (Z.lor x (Z.shiftl (Z.land b 127) (7 * Z.of_nat i) mod 2 ^ 64)) bs.
Proof. intros Hb. simpl uvarintLoop at 1. by rewrite (proj2 (Z.ltb_ge b 128)). Qed.
Lemma uvarint_pack clean m : forall i n x rest, (m + i = 9)%nat -> 0 <= n -> 0 <= x < 2 ^ (7 * Z.of_nat i) ->
  n * 2 ^ (7 * Z.of_nat i) < 2 ^ 64 ->
  uvarintLoop clean (S m) i x (Leb.enc m n ++ rest) = ReadOk (x + n * 2 ^ (7 * Z.of_nat i)) rest.
Proof.
  induction m as [|m IH]; intros i n x rest Hi Hn Hx Hb.
  - assert (i = 9%nat) as -> by lia. change (2 ^ (7 * Z.of_nat 9)) with 9223372036854775808 in *. change (2 ^ 64) with 18446744073709551616 in *.
    cbn [Leb.enc app uvarintLoop]. rewrite (proj2 (Z.ltb_lt n 128)), (proj2 (Z.ltb_ge 1 n)) by lia. cbn [andb Nat.eqb].
    f_equal. apply (group_add x n n (7 * Z.of_nat 9)); change (2 ^ (7 * Z.of_nat 9)) with 9223372036854775808; lia.
  - cbn [Leb.enc]. destruct (n <? 128) eqn:E.
    + cbn [app uvarintLoop]. rewrite E. assert ((i =? 9)%nat = false) as -> by (apply Nat.eqb_neq; lia). cbn [andb].
      f_equal. apply (group_add x n n); lia.
    + pose proof (Z.mod_pos_bound n 128 ltac:(lia)) as Hm. pose proof (Z.div_mod n 128 ltac:(lia)) as Hd. apply Z.ltb_ge in E.
      assert (0 <= n / 128) by (apply Z.div_pos; lia). cbn [app]. remember (n mod 128 + 128) as b eqn:Eb.
      rewrite uvarint_step by lia.
      assert (Z.land b 127 = n mod 128) as ->.
      { change 127 with (Z.ones 7). rewrite Z.land_ones by lia. subst b. change (2 ^ 7) with 128.
        rewrite <- Zplus_mod_idemp_r, Z_mod_same_full, Z.add_0_r. apply Z.mod_mod. lia. }
      rewrite (group_add x (n mod 128) n) by lia.
      assert (2 ^ (7 * Z.of_nat (S i)) = 128 * 2 ^ (7 * Z.of_nat i)) as Hp.
      { replace (7 * Z.of_nat (S i)) with (7 + 7 * Z.of_nat i) by lia. rewrite Z.pow_add_r by lia. done. }
      assert (0 < 2 ^ (7 * Z.of_nat i)) by (apply Z.pow_pos_nonneg; lia).
      rewrite IH; [|lia|lia|rewrite Hp; nia|rewrite Hp; nia]. f_equal. rewrite Hp. nia.
Qed.
Lemma read_pack clean n rest : 0 <= n < 2 ^ 64 -> ReadUvarint clean (Leb.pack n ++ rest) = ReadOk n rest.
Proof.
  intros Hn. unfold ReadUvarint, Leb.pack. rewrite (uvarint_pack clean 9 0); [|lia|lia|done|change (2 ^ (7 * Z.of_nat 0)) with 1; lia].
  f_equal. change (2 ^ (7 * Z.of_nat 0)) with 1. lia.
Qed.
(** All bytes but the last one of an encoding have the high bit. *)
Lemma enc_prefix m n tail b rest : 0 <= n -> Leb.enc m n = tail ++ b :: rest -> Forall (fun c => 128 <= c) tail /\ (length tail <= m)%nat.
Proof.
  revert n tail. induction m as [|m IH]; intros n tail Hn; cbn [Leb.enc].
  { destruct tail as [|c tail]; [by split; [constructor|simpl; lia]|]. intros [= _ E]. by destruct tail. }
  pose proof (Z.mod_pos_bound n 128 ltac:(lia)). destruct (n <? 128).
  - destruct tail as [|c tail]; [by split; [constructor|simpl; lia]|]. intros [= _ E]. by destruct tail.
  - destruct tail as [|c tail]; [by split; [constructor|simpl; lia]|]. intros [= <- E].
    destruct (IH (n / 128) tail) as [H1 H2]; [apply Z.div_pos; lia|done|]. split; [constructor; [lia|done]|simpl; lia].
Qed.
Lemma uvarint_high clean n i x bs : Forall (fun c => 128 <= c) bs -> (0 < i + length bs)%nat -> uvarintLoop clean n i x bs = ReadErr.
Proof.
  intros Hb. revert n i x. induction Hb as [|b bs Hb _ IH]; intros n i x Hi; (destruct n as [|n]; [done|]); cbn [uvarintLoop].
  - simpl in Hi. assert ((i =? 0)%nat = false) as -> by (apply Nat.eqb_neq; lia). by rewrite andb_false_r.
  - rewrite (proj2 (Z.ltb_ge b 128)) by lia. apply IH. lia.
Qed.
Lemma sized_len blob : sized blob -> 0 <= Z.of_nat (length blob) < 2 ^ 64.
Proof. unfold sized. change (2 ^ 64) with (2 * 2 ^ 63). lia. Qed.
Lemma cut_fails clean tail : cut tail ->
  ReadUvarint clean tail = ReadErr \/ exists len rest, ReadUvarint clean tail = ReadOk len rest /\ Z.of_nat (length rest) < len.
Proof.
  intros (blob & rest & Hs & E & Hr & Ht). unfold frame in E. set (n := Z.of_nat (length blob)) in *.
  destruct (app_eq_inv _ _ _ _ E) as [(k & Ek & Ek')|(k & Ek & Ek')].
  - destruct k as [|b k].
    + rewrite app_nil_r in Ek. right. exists n, []. rewrite <- Ek, <- (app_nil_r (Leb.pack n)). split; [by apply read_pack, sized_len|].
      subst rest. simpl. unfold n. destruct blob; [done|simpl; lia].
    + left. destruct (enc_prefix 9 n tail b k) as [H1 H2]; [lia|exact Ek|]. apply uvarint_high; [done|]. destruct tail; [done|simpl; lia].
  - right. exists n, k. rewrite Ek. split; [by apply read_pack, sized_len|]. unfold n. rewrite Ek', length_app.
    destruct rest; [done|simpl; lia].
Qed.

(** ** Decoding *)
Lemma decode_frames fuel clean format blobs entries tail : (length (frames blobs ++ tail) < fuel)%nat ->
  Forall2 (fun blob e => sized blob /\ LoadAsFormat blob format = Some e) blobs entries -> tail = [] \/ cut tail ->
  decodeLoop fuel clean format (frames blobs ++ tail) = (entries, bool_decide (tail = []) && clean).
Proof.
  intros Hf H Ht. revert fuel Hf. induction H as [|blob e blobs entries [Hs Hl] _ IH]; intros fuel Hf; (destruct fuel as [|fuel]; [lia|]).
  - cbn [frames fmap list_fmap concat app]. destruct Ht as [-> | Ht]; [by destruct clean|].
    rewrite bool_decide_false by (destruct Ht as (_ & _ & _ & _ & _ & H); exact H).
    cbn [decodeLoop]. destruct (cut_fails clean tail Ht) as [->|(len & rest & -> & Hlt)]; [done|].
    by rewrite (proj2 (Z.ltb_lt _ _) Hlt).
  - change (frames (blob :: blobs)) with (frame blob ++ frames blobs) in *. unfold frame in *. rewrite <- !app_assoc in *.
    cbn [decodeLoop]. rewrite read_pack by (by apply sized_len).
    rewrite (proj2 (Z.ltb_ge _ _)) by (rewrite length_app; lia). rewrite Nat2Z.id, take_app_length, drop_app_length, Hl.
    rewrite IH; [done|]. rewrite !length_app in *. assert (0 < length (Leb.pack (Z.of_nat (length blob))))%nat; [|lia].
    unfold Leb.pack. cbn [Leb.enc]. destruct (_ <? 128); simpl; lia.
Qed.
End decode.

(** C22. Decoding a list file that is not compressed: from a sequence of encoded entries, each behind its
    length, come these entries in order; a file that ends within a length or an entry
    gives the entries before and an error, one cut off between two entries is accepted. *)
Theorem decode_file `{DSD} format blobs entries tail : format <> GZIP ->
  Forall2 (fun blob e => sized blob /\ LoadAsFormat blob format = Some e) blobs entries -> tail = [] \/ cut tail ->
  decodeFile (LIST :: format :: frames blobs ++ tail) = (entries, bool_decide (tail = [])).
Proof.
  intros Hf He Ht. unfold decodeFile, parseHeader. rewrite Z.eqb_refl. cbn [negb]. rewrite (proj2 (Z.eqb_neq _ _)) by done.
  rewrite (decode_frames _ _ _ _ entries) by (try done; lia). by rewrite andb_true_r.
Qed.

(** ** Witness *)
Module DecodeDemo.
(** Entries are encoded as a domain name. *)
Definition dsd : DSD := {|
  LIST := 76; GZIP := 90;
  LoadAsFormat := fun blob format => Some (mkEntry $"domain" (ascii_of_nat ∘ Z.to_nat <$> blob) false [mkResource $"17-A" []]);
  gunzip := fun _ => None;
|}.
End DecodeDemo.
Lemma decode_file_witness :
  let e s := mkEntry $"domain" s false [mkResource $"17-A" []] in
  decodeFile (DS := DecodeDemo.dsd) [76; 74; 1; 97; 2; 98; 99] = ([e $"a"; e $"bc"], true) /\
  decodeFile (DS := DecodeDemo.dsd) [76; 74; 1; 97; 2; 98] = ([e $"a"], false).
Proof.
  split.
  - apply (decode_file (H := DecodeDemo.dsd) 74 [[97]; [98; 99]] _ []); [done|by repeat constructor|by left].
  - apply (decode_file (H := DecodeDemo.dsd) 74 [[97]] _ [2; 98]); [done|by repeat constructor|]. right. by exists [98; 99], [99].
Defined.
