(* ===== verification/FilterLists.v ===== *)
(** * Filter lists (service/intel/filterlists)

    The lists an entity is on are records of the "cache" database, guarded by a bloom
    filter per entity type.  Updates decode list files, whose entries set or delete
    records and are added to the filters.  The bloom filter library, version numbers
    and the update files are the environment.  The goroutines that decode and process
    a file stop some entries later when one fails; the model stops right there. *)

From S2P Require Import Prelude Varint GoStrings GoText GoNet NetUtils Entity DbRecord Database FilterIndex FilterDecode.

(** ** Environment *)
Class Ring := {
  ring : Type;
  ringInit : Z -> ring;
  ringAdd : str -> ring -> ring;
  ringTest : str -> ring -> bool;
  MarshalBinary : ring -> bytes;
  UnmarshalBinary : bytes -> option ring;
}.
(** A bloom filter has no false negatives. *)
Class RingLaws `{Ring} : Prop := {
  ring_added : forall v r, ringTest v (ringAdd v r) = true;
  ring_kept : forall v w r, ringTest v r = true -> ringTest v (ringAdd w r) = true;
}.
Class VersionLib := {
  Version : Type;
  NewSemver : str -> option Version;
  GreaterThan : Version -> Version -> bool;
  VEqual : Version -> Version -> bool;
  zeroVersion : Version;
}.

Section artifact.
Context {VL : VersionLib}.
(** [artifactID] tells file objects apart: a file that is got from the updater is a new one. *)
Record Artifact := mkArtifact { artifactID : nat; Filename : str; AVersion : str; versionNum : option Version }.
Definition SemVer (a : Artifact) : option Version := versionNum a.
Definition isFile (a : Artifact) (b : option Artifact) : bool :=
  match b with Some b => (artifactID a =? artifactID b)%nat | None => false end.
(** Newer, and whether the versions can be compared. *)
Definition IsNewerThan (a : Artifact) (b : option Artifact) : bool * bool :=
  match b with
  | None => (true, true)
  | Some b =>
      match versionNum a, versionNum b with
      | Some va, Some vb => (GreaterThan va vb, true)
      | _, _ => (false, false)
      end
  end.
End artifact.

(** The records in the cache database. *)
Inductive cacheRec :=
| CEntity (value : str) (sources : list str) (type : str) (updatedAt : Z)
| CVersion (version reset : str)
| CIndex (index : ListIndexFile)
| CBloom (filter : str).

Class FilterEnv {VL : VersionLib} := {
  GetFile : str -> option Artifact;
  (** The bytes of a file that can be opened. *)
  readFile : Artifact -> option bytes;
  (** The index file, when it can be read. *)
  loadIndex : Artifact -> option ListIndexFile;
  (** Deletes records that were not updated for an hour. *)
  purgeObsolete : World cacheRec -> outcome dbErr unit * World cacheRec;
}.

(** ** Entries *)
(** An empty domain is out of range. *)
Definition normalizeEntry {UT : UnicodeTables} (e : listEntry) : option listEntry :=
  if eqs (ToLower (EType e)) $"domain" then
    let e := e <| EEntity ::= ToLower |> in
    match last (EEntity e) with
    | None => None
    | Some c => Some (if bool_decide (c = "."%char) then e else e <| EEntity ::= fun s => s ++ $"." |>)
    end
  else Some e.

Definition cacheDBPrefix : str := $"cache:intel/filterlists".
Definition filterListCacheVersionKey : str := cacheDBPrefix ++ $"/version".
Definition filterListIndexKey : str := cacheDBPrefix ++ $"/index".
Definition filterListKeyPrefix : str := cacheDBPrefix ++ $"/lists/".
Definition makeBloomCacheKey (scope : str) : str := cacheDBPrefix ++ $"/bloom/" ++ scope.
Definition makeListCacheKey (scope key : str) : str := filterListKeyPrefix ++ scope ++ $"/" ++ key.
Definition resetVersion : str := $"v0.6.0".

(** ** Scoped bloom filters *)
Section bloom.
Context {UT : UnicodeTables} {RG : Ring}.
Record scopedBloom := mkBloom { bDomain : ring; bASN : ring; bCountry : ring; bIPv4 : ring; bIPv6 : ring }.
Definition newScopedBloom : scopedBloom :=
  mkBloom (ringInit 1000000) (ringInit 1000) (ringInit 100) (ringInit 100) (ringInit 100).
Definition getBloomForType (t : str) (bf : scopedBloom) : option ring :=
  let t := ToLower t in
  if eqs t $"domain" then Some (bDomain bf) else if eqs t $"asn" then Some (bASN bf)
  else if eqs t $"ipv4" then Some (bIPv4 bf) else if eqs t $"ipv6" then Some (bIPv6 bf)
  else if eqs t $"country" then Some (bCountry bf) else None.
(** The filter of the type is changed in place. *)
Definition changeBloom (t : str) (f : ring -> ring) (bf : scopedBloom) : scopedBloom :=
  let '(mkBloom d a c v4 v6) := bf in
  let t := ToLower t in
  if eqs t $"domain" then mkBloom (f d) a c v4 v6 else if eqs t $"asn" then mkBloom d (f a) c v4 v6
  else if eqs t $"ipv4" then mkBloom d a c (f v4) v6 else if eqs t $"ipv6" then mkBloom d a c v4 (f v6)
  else if eqs t $"country" then mkBloom d a (f c) v4 v6 else bf.
Definition bloomAdd (scope value : str) (bf : scopedBloom) : scopedBloom := changeBloom scope (ringAdd value) bf.
Definition bloomTest (scope value : str) (bf : scopedBloom) : bool :=
  match getBloomForType scope bf with Some r => ringTest value r | None => true end.
End bloom.

(** ** State *)
Section filterlists.
Context {UT : UnicodeTables} {GC : GCache} {RG : Ring} {VL : VersionLib} {DS : DSD} {FE : FilterEnv}.

Record State := mkState {
  defaultFilter : scopedBloom;
  filterListsLoaded : bool;
  world : World cacheRec;
  baseFile : option Artifact; intermediateFile : option Artifact; urgentFile : option Artifact;
  listIndexUpdate : option Artifact;
  unbreakIDs : list str;
}.
#[export] Instance eta_State : Eta State := fun s =>
  mkState (defaultFilter s) (filterListsLoaded s) (world s) (baseFile s) (intermediateFile s) (urgentFile s)
    (listIndexUpdate s) (unbreakIDs s).
Definition initial (w : World cacheRec) : State := mkState newScopedBloom false w None None None None [].

Definition cacheOptions : Options := {|
  Local := true; Internal := true; AlwaysMakeSecret := false; AlwaysMakeCrownjewel := false;
  AlwaysSetRelativateExpiry := 0; AlwaysSetAbsoluteExpiry := 0; CacheSize := 256; DelayCachedWrites := [];
|}.
Definition batchOptions : Options := {|
  Local := true; Internal := true; AlwaysMakeSecret := false; AlwaysMakeCrownjewel := false;
  AlwaysSetRelativateExpiry := 0; AlwaysSetAbsoluteExpiry := 0; CacheSize := 0; DelayCachedWrites := [];
|}.
(** A database operation; [evicted] is left to the caller. *)
Definition onDB {A} (m : M A) (s : State) : outcome dbErr A * State :=
  let '(r, w) := m (world s) in (r, s <| world := w |>).
Definition getPayload (key : str) (evicted : list str) : M cacheRec :=
  l ← Get cacheOptions key evicted; r ← readRec l; mret (payload r).
Definition putPayload (key : str) (v : cacheRec) (evicted : list str) : M unit :=
  l ← newRec (SetKey key (mkRec [] [] None v)); Put cacheOptions l evicted.

(** Another type of record is an error. *)
Definition asEntity (r : cacheRec) : option (list str) := match r with CEntity _ sources _ _ => Some sources | _ => None end.
Definition asVersion (r : cacheRec) : option (str * str) := match r with CVersion v reset => Some (v, reset) | _ => None end.
Definition asIndex (r : cacheRec) : option ListIndexFile := match r with CIndex i => Some i | _ => None end.
Definition asBloom (r : cacheRec) : option str := match r with CBloom f => Some f | _ => None end.
Definition getAs {A} (view : cacheRec -> option A) (key : str) (evicted : list str) : M A :=
  r ← getPayload key evicted; match view r with Some a => mret a | None => throw ErrInvalid end.
(** The sources of the record. *)
Definition getEntityRecordByKey (key : str) (evicted : list str) : M (list str) := getAs asEntity key evicted.

(** ** Lookups *)
Definition lookupBlockLists (entity value : str) (evicted : list str) (s : State) : outcome dbErr (list str) * State :=
  if negb (filterListsLoaded s) then (Ret [], s)
  else if negb (bloomTest entity value (defaultFilter s)) then (Ret [], s)
  else
    let '(r, s) := onDB (getEntityRecordByKey (makeListCacheKey entity value) evicted) s in
    match r with Err ErrNotFound => (Ret [], s) | _ => (r, s) end.
Definition LookupCountry (country : str) := lookupBlockLists $"country" country.
Definition LookupDomain (domain : str) (evicted : list str) (s : State) : outcome dbErr (list str) * State :=
  if eqs domain [] || eqs domain $"." then (Ret [], s) else lookupBlockLists $"domain" domain evicted s.
Definition LookupASNString (asn : str) := lookupBlockLists $"asn" asn.
Definition LookupIPv4String (ipv4 : str) := lookupBlockLists $"ipv4" ipv4.
Definition LookupIPv4 (ip : IP) (evicted : list str) (s : State) : outcome dbErr (list str) * State :=
  match To4 ip with None => (Err ErrInvalid, s) | Some ip => LookupIPv4String (IPString ip) evicted s end.
Definition LookupIPv6String (ipv6 : str) := lookupBlockLists $"ipv6" ipv6.
Definition LookupIPv6 (ip : IP) (evicted : list str) (s : State) : outcome dbErr (list str) * State :=
  match To16 ip with None => (Err ErrInvalid, s) | Some ip => LookupIPv6String (IPString ip) evicted s end.
Definition LookupIP (ip : IP) (evicted : list str) (s : State) : outcome dbErr (list str) * State :=
  match To4 ip with None => LookupIPv6 ip evicted s | Some _ => LookupIPv4 ip evicted s end.
Definition LookupIPString (ipStr : str) (evicted : list str) (s : State) : outcome dbErr (list str) * State :=
  match ParseIP ipStr with None => (Err ErrInvalid, s) | Some ip => LookupIP ip evicted s end.

(** ** Processing list files *)
Definition entryKey (e : listEntry) : str := makeListCacheKey (ToLower (EType e)) (EEntity e).
(** The record of a normalized entry; deletions are records marked as deleted. *)
Definition entryRec (now : Z) (e : listEntry) : Rec cacheRec :=
  SetKey (entryKey e) (mkRec [] [] (if Whitelist e then Some (Delete now newMeta) else None)
    (CEntity (EEntity e) (getSources e) (EType e) now)).
Definition filterEntry (e : listEntry) (bf : scopedBloom) : scopedBloom :=
  match Resources e with [] => bf | _ => bloomAdd (EType e) (EEntity e) bf end.
Definition persistRecord (e : listEntry) : M unit :=
  w ← get; l ← newRec (entryRec (now w) e); PutMany batchOptions $"cache" [l].
(** The entries are added to the filter and their records put, in order. *)
Fixpoint processEntries (es : list listEntry) (bf : scopedBloom) (w : World cacheRec)
    : outcome dbErr unit * scopedBloom * World cacheRec :=
  match es with
  | [] => (Ret tt, bf, w)
  | e :: es =>
      match normalizeEntry e with
      | None => (Err ErrInvalid, bf, w)
      | Some e =>
          let bf := filterEntry e bf in
          let '(r, w) := persistRecord e w in
          match r with Ret _ => processEntries es bf w | Err err => (Err err, bf, w) | Panic => (Panic, bf, w) end
      end
  end.
Definition processListFile (file : Artifact) (bf : scopedBloom) (w : World cacheRec)
    : outcome dbErr unit * scopedBloom * World cacheRec :=
  match readFile file with
  | None => (Err ErrInvalid, bf, w)
  | Some bs =>
      let '(es, complete) := decodeFile bs in
      let '(r, bf, w) := processEntries es bf w in
      match r with Ret _ => if complete : bool then (Ret tt, bf, w) else (Err ErrInvalid, bf, w) | _ => (r, bf, w) end
  end.

(** ** Update order *)
(** The keys that are evicted to make room for a key. *)
Definition evictions := str -> list str.
Definition lessThan (a b : Artifact) : bool :=
  match SemVer a, SemVer b with Some va, Some vb => GreaterThan vb va | _, _ => false end.
(** [sort.Sort] on at most three files is insertion sort; [r] is the sorted part,
    reversed. *)
Fixpoint insertFile (x : Artifact) (r : list Artifact) : list Artifact :=
  match r with [] => [x] | y :: r => if lessThan x y then y :: insertFile x r else x :: y :: r end.
Definition sortFiles (files : list Artifact) : list Artifact := rev (foldl (fun r x => insertFile x r) [] files).
Definition getCacheDatabaseVersion (evicted : list str) : M Version :=
  v ← getAs asVersion filterListCacheVersionKey evicted;
  if negb (eqs (snd v) resetVersion) then throw ErrNotFound
  else match NewSemver (fst v) with Some v => mret v | None => throw ErrInvalid end.
Definition setCacheDatabaseVersion (ver : str) (evicted : list str) : M unit :=
  putPayload filterListCacheVersionKey (CVersion ver resetVersion) evicted.
(** From the first newer file, or from the base file if it is newer. *)
Fixpoint findStart (base : option Artifact) (cacheVersion : Version) (files : list Artifact) (idx : nat)
    (startAtIdx : option nat) : option nat :=
  match files with
  | [] => startAtIdx
  | file :: files =>
      let newer := match SemVer file with Some v => GreaterThan v cacheVersion | None => false end in
      findStart base cacheVersion files (S idx)
        (if newer && (match startAtIdx with None => true | _ => false end || isFile file base) then Some idx else startAtIdx)
  end.
Definition resolveUpdateOrder (evs : evictions) (files : list Artifact) (s : State) : list Artifact * State :=
  let files := sortFiles files in
  let '(cacheVersion, s) :=
    if filterListsLoaded s then
      let '(r, s) := onDB (getCacheDatabaseVersion (evs filterListCacheVersionKey)) s in
      (match r with Ret v => v | _ => zeroVersion end, s)
    else (zeroVersion, s) in
  (match findStart (baseFile s) cacheVersion files 0 None with None => [] | Some n => drop n files end, s).
Definition upgradable (path : str) (current : option Artifact) (inUse : bool) : list Artifact :=
  match GetFile path with
  | None => []
  | Some file =>
      if (fst (IsNewerThan file current) || negb inUse) && match SemVer file with Some _ => true | None => false end
      then [file] else []
  end.
Definition getUpgradableFiles (evs : evictions) (s : State) : list Artifact * State :=
  let inUse := filterListsLoaded s in
  resolveUpdateOrder evs (upgradable $"base.dsdl" (baseFile s) inUse ++ upgradable $"intermediate.dsdl" (intermediateFile s) inUse ++
    upgradable $"urgent.dsdl" (urgentFile s) inUse) s.

(** ** Updates *)
(** The files in order; [fresh]: the filter is not the default one any more. *)
Fixpoint processFiles (base : option Artifact) (files : list Artifact) (fresh : bool) (bf : scopedBloom) (w : World cacheRec)
    : outcome dbErr unit * bool * scopedBloom * World cacheRec :=
  match files with
  | [] => (Ret tt, fresh, bf, w)
  | file :: files =>
      let isBase := isFile file base in
      let '(r, bf, w) := processListFile file (if isBase then newScopedBloom else bf) w in
      match r with
      | Ret _ => processFiles base files (fresh || isBase) bf w
      | _ => (r, fresh || isBase, bf, w)
      end
  end.
Definition saveBloomToCache (bf : ring) (scope : str) (evs : evictions) : M unit :=
  let key := makeBloomCacheKey scope in putPayload key (CBloom (hexString (MarshalBinary bf))) (evs key).
Definition saveToCache (evs : evictions) (bf : scopedBloom) : M unit :=
  saveBloomToCache (bDomain bf) $"domain" evs ;;
  saveBloomToCache (bASN bf) $"asn" evs ;;
  saveBloomToCache (bCountry bf) $"country" evs ;;
  saveBloomToCache (bIPv4 bf) $"ipv4" evs ;;
  saveBloomToCache (bIPv6 bf) $"ipv6" evs.
(** After the list index was updated.  A filter that is not fresh is the default one,
    which was changed in place. *)
Definition applyUpdates (evs : evictions) (files : list Artifact) (s : State) : outcome dbErr unit * State :=
  let '(r, fresh, bf, w) := processFiles (baseFile s) files false (defaultFilter s) (world s) in
  let s := s <| world := w |> in
  match r with
  | Err _ | Panic => (r, if fresh then s else s <| defaultFilter := bf |>)
  | Ret _ =>
      let s := s <| defaultFilter := bf |> <| filterListsLoaded := true |> in
      let '(_, s) := onDB (ignore (saveToCache evs (defaultFilter s))) s in
      let '(r, s) := if fresh then onDB (fun w => purgeObsolete w) s else (Ret tt, s) in
      match r with
      | Ret _ =>
          match last files with
          | Some f => onDB (ignore (setCacheDatabaseVersion (AVersion f) (evs filterListCacheVersionKey))) s
          | None => (Ret tt, s)
          end
      | _ => (r, s)
      end
  end.

(** ** The list index *)
Definition getListIndexFromCache (evicted : list str) : M ListIndexFile := getAs asIndex filterListIndexKey evicted.
Definition areSemversEqual (v1 v2 : str) : bool :=
  match NewSemver v1, NewSemver v2 with Some a, Some b => VEqual a b | _, _ => false end.
(** With the index in the cache; [fuel] bounds the nesting of categories, and the
    program crashes without it. *)
Definition resolveWith (fuel : nat) (ids : list str) (index : ListIndexFile) : outcome dbErr (list str) :=
  match getDistictSourceIDs index fuel ids with Some l => Ret l | None => Panic end.
Definition updateUnbreakFilterListIDs (evs : evictions) (fuel : nat) (s : State) : outcome dbErr unit * State :=
  let '(r, s) := onDB (getListIndexFromCache (evs filterListIndexKey)) s in
  match r with
  | Ret index =>
      match resolveWith fuel [$"UNBREAK"] index with
      | Ret l => (Ret tt, s <| unbreakIDs := l |>) | _ => (Panic, s) end
  | Panic => (Panic, s)
  | Err _ => (Ret tt, s)
  end.
Definition GetUnbreakFilterListIDs (s : State) : list str := unbreakIDs s.
Definition updateListIndex (evs : evictions) (fuel : nat) (s : State) : outcome dbErr unit * State :=
  match listIndexUpdate s with
  | Some _ => (Ret tt, s)
  | None =>
      match GetFile $"index.dsd" with
      | None => (Err ErrNotFound, s)
      | Some file =>
          let s := s <| listIndexUpdate := Some file |> in
          let '(r, s) := onDB (getListIndexFromCache (evs filterListIndexKey)) s in
          let current := match r with
            | Ret index => eqs (AVersion file) (TrimPrefix (IndexVersion index) $"v") || areSemversEqual (AVersion file) (IndexVersion index)
            | _ => false end in
          if current then updateUnbreakFilterListIDs evs fuel s else
          match loadIndex file with
          | None => (Err ErrInvalid, s)
          | Some index =>
              let '(r, s) := onDB (putPayload filterListIndexKey (CIndex index) (evs filterListIndexKey)) s in
              match r with Ret _ => updateUnbreakFilterListIDs evs fuel s | _ => (r, s) end
          end
      end
  end.
Definition ResolveListIDs (evs : evictions) (fuel : nat) (ids : list str) (s : State) : outcome dbErr (list str) * State :=
  let '(r, s) := onDB (getListIndexFromCache (evs filterListIndexKey)) s in
  match r with
  | Ret index => (resolveWith fuel ids index, s)
  | Err ErrNotFound =>
      let '(r, s) := updateListIndex evs fuel s in
      match r with
      | Ret _ =>
          let '(r, s) := onDB (getListIndexFromCache (evs filterListIndexKey)) s in
          (match r with Ret index => resolveWith fuel ids index | Err e => Err e | Panic => Panic end, s)
      | Err e => (Err e, s)
      | Panic => (Panic, s)
      end
  | Err e => (Err e, s)
  | Panic => (Panic, s)
  end.

(** ** Updates and the start of the module *)
Definition performUpdate (evs : evictions) (fuel : nat) (s : State) : outcome dbErr unit * State :=
  let '(r, s) := updateListIndex evs fuel s in
  match r with
  | Panic => (Panic, s)
  | _ =>
      let '(files, s) := getUpgradableFiles evs s in
      match files with
      | [] => (Ret tt, s)
      | _ => applyUpdates evs files s
      end
  end.
(** [hex.DecodeString]. *)
Fixpoint hexDecode (s : str) : option bytes :=
  match s with
  | [] => Some []
  | a :: b :: s => x ← hexVal a; y ← hexVal b; r ← hexDecode s; Some (16 * x + y :: r)
  | _ => None
  end.
Definition loadBloomFromCache (scope : str) (evs : evictions) : M ring :=
  let key := makeBloomCacheKey scope in
  f ← getAs asBloom key (evs key);
  match hexDecode f ≫= UnmarshalBinary with Some r => mret r | None => throw ErrInvalid end.
(** The filters are loaded in place, one by one. *)
Definition loadScope (evs : evictions) (scope : str) (s : State) : outcome dbErr unit * State :=
  let '(r, s) := onDB (loadBloomFromCache scope evs) s in
  match r with
  | Ret f => (Ret tt, s <| defaultFilter ::= changeBloom scope (fun _ => f) |>)
  | Err e => (Err e, s)
  | Panic => (Panic, s)
  end.
Fixpoint loadScopes (evs : evictions) (scopes : list str) (s : State) : outcome dbErr unit * State :=
  match scopes with
  | [] => (Ret tt, s)
  | scope :: scopes => let '(r, s) := loadScope evs scope s in match r with Ret _ => loadScopes evs scopes s | _ => (r, s) end
  end.
Definition loadFromCache (evs : evictions) : State -> outcome dbErr unit * State :=
  loadScopes evs [$"domain"; $"asn"; $"country"; $"ipv4"; $"ipv6"].
(** The lists are used when the cache has a version and the filters. *)
Definition start (evs : evictions) (s : State) : State :=
  let '(r, s) := onDB (getCacheDatabaseVersion (evs filterListCacheVersionKey)) s in
  match r with
  | Ret _ => let '(r, s) := loadFromCache evs s in match r with Ret _ => s <| filterListsLoaded := true |> | _ => s end
  | _ => s
  end.
Definition stop (s : State) : State := s <| filterListsLoaded := false |>.
End filterlists.
