(* ===== verification/FilterListsProps.v ===== *)
(** * Lookups after filter list updates

    [served] is what the cache database has for a key; the operations of an update
    that do not concern the key are shown to keep it with a small program logic. *)

From S2P Require Import Prelude Varint GoStrings GoText GoNet NetUtils Entity DbRecord Database DatabaseFacts FilterIndex FilterDecode FilterLists.

Definition D : str := $"cache".
Lemma D_plain : ":"%char ∉ D.
Proof. apply (bool_decide_unpack _). vm_compute. exact I. Qed.

(** ** Operations on other keys *)
Section quiet.
Context {GC : GCache} (P : str -> Prop).
Notation World := (World cacheRec).
Notation M := (M (V := cacheRec)).

Record kept (w w' : World) : Prop := {
  kp_now : now w' = now w;
  kp_up : shuttingDown w' = shuttingDown w;
  kp_db : forall c, controllers w !! D = Some c -> exists c', controllers w' !! D = Some c' /\ readOnly c' = readOnly c /\
    forall k, P k -> store c' !! k = store c !! k;
  kp_cache : forall k, P k -> rcache w !! makeKey D k = None -> rcache w' !! makeKey D k = None;
  kp_heap : forall l r, heap w !! l = Some r -> exists r', heap w' !! l = Some r' /\ dbName r' = dbName r /\ dbKey r' = dbKey r;
}.
#[export] Instance kept_preorder : PreOrder kept.
Proof.
  split.
  - intros w. split; eauto.
  - intros w1 w2 w3 [H1 H2 H3 H4 H5] [H1' H2' H3' H4' H5']. split; [congruence|congruence| |auto|].
    + intros c Hc. destruct (H3 c Hc) as (c' & Hc' & Hr & Hs). destruct (H3' c' Hc') as (c'' & Hc'' & Hr' & Hs').
      exists c''. split; [done|]. split; [congruence|]. intros k Hk. by rewrite Hs', Hs.
    + intros l r Hl. destruct (H5 l r Hl) as (r' & Hl' & ? & ?). destruct (H5' l r' Hl') as (r'' & ? & ? & ?). exists r''. repeat split; congruence.
Qed.
(** The record object [l] has another key. *)
Definition other (l : nat) (w : World) : Prop := exists r, heap w !! l = Some r /\ forall k, P k -> Key r <> makeKey D k.
Lemma other_kept l w w' : kept w w' -> other l w -> other l w'.
Proof. intros Hk (r & Hl & Hr). destruct (kp_heap _ _ Hk _ _ Hl) as (r' & Hl' & Hn & Hd). exists r'. split; [done|]. unfold Key. by rewrite Hn, Hd. Qed.

Definition triple {A} (C : World -> Prop) (m : M A) (Q : A -> World -> Prop) : Prop :=
  forall w, C w -> kept w (m w).2 /\ forall a, (m w).1 = Ret a -> Q a (m w).2.
Notation quiet C m := (triple C m (fun _ _ => True)).
Lemma t_bind {A B} C (m : M A) Q (f : A -> M B) R : triple C m Q -> (forall a, triple (Q a) (f a) R) -> triple C (m ≫= f) R.
Proof.
  intros Hm Hf w Hw. destruct (Hm w Hw) as [Hk HQ]. unfold mbind, M_bind. destruct (m w) as [[a|e|] w1]; simpl in *; [|done..].
  destruct (Hf a w1 (HQ a eq_refl)) as [Hk' HR]. split; [by etrans|done].
Qed.
Lemma t_frame {A} (F C : World -> Prop) (m : M A) Q : (forall w w', kept w w' -> F w -> F w') -> triple C m Q ->
  triple (fun w => F w /\ C w) m (fun a w => F w /\ Q a w).
Proof. intros HF Hm w [H1 H2]. destruct (Hm w H2) as [Hk HQ]. split; [done|]. intros a Ha. split; [by eapply HF|by apply HQ]. Qed.
(** A step that promises nothing keeps the condition. *)
Lemma t_seq {A B} l (m : M A) (f : A -> M B) R : quiet (other l) m -> (forall a, triple (other l) (f a) R) -> triple (other l) (m ≫= f) R.
Proof.
  intros Hm Hf. apply (t_bind _ _ (fun _ => other l)); [|done]. intros w Hw. destruct (Hm w Hw) as [Hk _]. split; [done|].
  intros _ _. by eapply other_kept.
Qed.
Lemma t_weak {A} (C C' : World -> Prop) (m : M A) (Q Q' : A -> World -> Prop) :
  (forall w, C w -> C' w) -> (forall a w, Q' a w -> Q a w) -> triple C' m Q' -> triple C m Q.
Proof. intros HC HQ Hm w Hw. destruct (Hm w (HC w Hw)) as [Hk H]. split; [done|]. eauto. Qed.
Lemma t_ret {A} C (a : A) : triple C (mret a : M A) (fun _ => C).
Proof. intros w Hw. split; [done|]. by intros _ _. Qed.
Lemma q_ret {A} C (a : A) : quiet C (mret a : M A).
Proof. by intros w _. Qed.
Lemma q_throw {A} C e Q : triple C (throw e : M A) Q.
Proof. intros w Hw. split; [done|]. by intros a [=]. Qed.
Lemma q_deref {A} C (x : option A) : quiet C (deref x : M A).
Proof. by intros w _. Qed.
Lemma q_get C : quiet C (get : M World).
Proof. by intros w _. Qed.
Lemma q_readRec C l : quiet C (readRec l : M (Rec cacheRec)).
Proof. intros w _. unfold readRec, deref, get, mbind, M_bind. split; [done|]. done. Qed.
Definition elsewhere (r : Rec cacheRec) : Prop := forall k, P k -> Key r <> makeKey D k.
Lemma t_read l : triple (other l) (readRec l) (fun r _ => elsewhere r).
Proof. intros w (r & Hl & Hr). rewrite (read_new _ _ _ Hl). split; [done|]. by intros _ [= <-]. Qed.
Lemma t_pure {A} (C : Prop) (m : M A) : (C -> quiet (fun _ => True) m) -> quiet (fun _ => C) m.
Proof. intros Hm w Hw. by apply Hm. Qed.
Lemma q_controller C db : quiet C (getController db : M (Controller cacheRec)).
Proof. intros w _. unfold getController, get, mbind, M_bind. by destruct (controllers w !! db). Qed.
Lemma q_ignore C (m : M unit) : quiet C m -> quiet C (ignore m).
Proof. intros Hm w Hw. destruct (Hm w Hw) as [Hk _]. unfold ignore. by destruct (m w) as [[]]. Qed.

Lemma kept_world (w w' : World) : now w' = now w -> shuttingDown w' = shuttingDown w -> controllers w' = controllers w ->
  (forall k, P k -> rcache w !! makeKey D k = None -> rcache w' !! makeKey D k = None) ->
  (forall l r, heap w !! l = Some r -> exists r', heap w' !! l = Some r' /\ dbName r' = dbName r /\ dbKey r' = dbKey r) -> kept w w'.
Proof. intros ? ? Hc ? ?. split; try done. rewrite Hc. eauto. Qed.
Lemma q_changeRec C l f : (forall r : Rec cacheRec, dbName (f r) = dbName r /\ dbKey (f r) = dbKey r) -> quiet C (changeRec l f : M unit).
Proof.
  intros Hf w _. split; [|done]. apply kept_world; try done. intros l' r Hl. change (heap _) with (alter f l (heap w)).
  destruct (decide (l = l')) as [<-|Hne]; [rewrite list_lookup_alter_eq, Hl; exists (f r); auto|].
  rewrite list_lookup_alter_ne by done. by exists r.
Qed.
Lemma t_newRec C r : (forall k, P k -> Key r <> makeKey D k) -> triple C (newRec r : M nat) other.
Proof.
  intros Hr w _. split.
  - apply kept_world; try done. intros l' r' Hl. exists r'. split; [by apply heap_app|done].
  - intros a [= <-]. exists r. split; [by apply list_lookup_middle|done].
Qed.
Lemma q_Apply C o l : quiet C (Apply o l : M unit).
Proof. apply (t_bind _ _ (fun _ _ => True)); [by intros w _|]. intros w. by apply (q_changeRec (fun _ => True)). Qed.

(** Without delayed writes. *)
Context (o : Options) (Hp : HasAllPermissions o = true) (Hd : DelayCachedWrites o = []).
Lemma no_delay : delaysWrites o = false.
Proof. unfold delaysWrites. by rewrite Hd. Qed.
Lemma q_drop C b k : quiet C (dropEntry o b k : M unit).
Proof.
  intros w _. split; [|done]. unfold dropEntry, modify, mbind, M_bind, get. destruct (rcache w !! k) as [[l e]|]; [|done].
  rewrite no_delay, andb_false_r. apply kept_world; try done; [|by eauto]. intros k' _ Hn.
  change (delete k (rcache w) !! makeKey D k' = None). rewrite lookup_delete_None. by right.
Qed.
Lemma q_checkCache C k : quiet C (checkCache o k : M (option nat)).
Proof.
  unfold checkCache. destruct (negb _); [apply q_ret|]. apply (t_bind _ _ (fun _ _ => True)); [apply q_get|]. intros w.
  destruct (rcache w !! k) as [[l [e|]]|]; [|apply q_ret..]. destruct (_ <? _); [|apply q_ret].
  apply (t_bind _ _ (fun _ _ => True)); [apply q_drop|]. intros _. apply q_ret.
Qed.
Lemma q_forM {A} C (f : A -> M unit) l : (forall C x, quiet C (f x)) -> quiet C (forM l f).
Proof.
  intros Hf. revert C. induction l as [|x l IH]; intros C; [apply q_ret|]. simpl. apply (t_bind _ _ (fun _ _ => True)); [apply Hf|].
  intros _. apply IH.
Qed.
Lemma q_setEntry C k l e ks : (forall k', P k' -> k <> makeKey D k') -> quiet C (setEntry o k l e ks : M unit).
Proof.
  intros Hk. apply (t_bind _ _ (fun _ _ => True)); [apply q_forM; intros; apply q_drop|]. intros _ w _. split; [|done].
  apply kept_world; try done; [|by eauto]. intros k' Hk' Hn. change (<[k := (l, e)]> (rcache w) !! makeKey D k' = None).
  rewrite lookup_insert_ne; [done|by apply Hk].
Qed.
Lemma q_updateCache l b remove ttl ks : quiet (other l) (updateCache o l b remove ttl ks : M bool).
Proof.
  unfold updateCache. destruct (negb _); [apply q_ret|]. apply (t_bind _ _ _ _ _ (t_read l)). intros r. apply t_pure. intros Hk. destruct remove.
  - apply (t_bind _ _ (fun _ _ => True)); [apply q_drop|]. intros _. apply q_ret.
  - apply (t_bind _ _ (fun _ _ => True)); [apply q_get|]. intros w.
    apply (t_bind _ _ (fun _ _ => True)); [by apply q_setEntry|]. intros _. destruct (b && _); [|apply q_ret].
    apply (t_bind _ _ (fun _ _ => True)); [|intros _; apply q_ret]. intros w' _. split; [|done]. apply kept_world; try done. by eauto.
Qed.
Lemma q_ctrlPut db l : quiet (fun w => exists r, heap w !! l = Some r /\ dbName r = db /\ forall k, P k -> Key r <> makeKey D k) (ctrlPut db l : M unit).
Proof.
  intros w (r & Hl & <- & Hk). split; [|done]. unfold ctrlPut, getController, get, mbind, M_bind, mret, M_ret.
  destruct (controllers w !! dbName r) as [c|] eqn:Ec; [|done]. destruct (shuttingDown w); [done|]. destruct (readOnly c); [done|].
  unfold putOrDelete, mbind, M_bind. rewrite (read_new _ _ _ Hl). destruct (rmeta r) as [m|]; [|done]. cbn [deref].
  assert (forall f, (forall (s : gmap str (Meta * cacheRec)) k, k <> dbKey r -> f s !! k = s !! k) -> kept w (putStore (dbName r) f w).2) as Hf.
  { intros f Hf. split; try done; [|by eauto]. intros c' Hc'. unfold putStore, modify. simpl.
    destruct (decide (dbName r = D)) as [Hn|Hn].
    - rewrite Hn in *. rewrite lookup_alter_eq, Hc'. eexists. split; [done|]. split; [done|]. intros k HP. apply Hf.
      intros ->. apply (Hk _ HP). unfold Key. by rewrite Hn.
    - rewrite lookup_alter_ne by done. eauto. }
  destruct (negb _ && _); apply Hf; intros s k Hne; [by rewrite lookup_delete_ne|by rewrite lookup_insert_ne].
Qed.
Lemma q_permission C l : quiet C (requirePermission o l : M unit).
Proof. unfold requirePermission, hasAccessPermission. rewrite Hp. by intros w _. Qed.
Definition named (l : nat) (db : str) (w : World) : Prop := exists r, heap w !! l = Some r /\ dbName r = db /\ elsewhere r.
Lemma named_other l db w : named l db w -> other l w.
Proof. intros (r & H1 & _ & H2). by exists r. Qed.
Lemma q_named {A} l db (m : M A) : quiet (other l) m -> triple (named l db) m (fun _ => named l db).
Proof.
  intros Hm w Hw. destruct (Hm w (named_other _ _ _ Hw)) as [Hk _]. split; [done|]. intros _ _.
  destruct Hw as (r & Hl & Hn & Hr). destruct (kp_heap _ _ Hk _ _ Hl) as (r' & Hl' & Hn' & Hd'). exists r'. split; [done|].
  split; [congruence|]. intros k. unfold Key. rewrite Hn', Hd'. apply Hr.
Qed.
Lemma q_putApplied l ks : quiet (other l) (putApplied o l ks : M unit).
Proof.
  unfold putApplied. apply (t_bind _ _ (fun r => named l (dbName r))).
  { intros w (r & Hl & Hr). rewrite (read_new _ _ _ Hl). split; [done|]. intros _ [= <-]. by exists r. }
  intros r. apply (t_bind _ _ (fun _ => named l (dbName r))); [apply q_named, q_deref|]. intros m.
  apply (t_bind _ _ (fun _ => named l (dbName r))); [apply q_named, q_get|]. intros w.
  apply (t_bind _ _ (fun _ => named l (dbName r))); [apply q_named, q_updateCache|]. intros [|]; [apply q_ret|apply q_ctrlPut].
Qed.
Lemma q_Put l ks : quiet (other l) (Put o l ks : M unit).
Proof.
  unfold Put. apply t_seq; [apply q_readRec|]. intros r. rewrite Hp. apply t_seq; [apply q_ret|]. intros _.
  apply t_seq; [apply q_controller|]. intros c. destruct (readOnly c); [apply q_throw|].
  apply t_seq; [apply q_Apply|]. intros _. apply q_putApplied.
Qed.
Lemma t_ctrlGet db k : (forall k', P k' -> makeKey db k <> makeKey D k') -> triple (fun _ => True) (ctrlGet db k : M nat) other.
Proof.
  intros Hk. unfold ctrlGet. apply (t_bind _ _ (fun _ _ => True)); [apply q_controller|]. intros c.
  apply (t_bind _ _ (fun _ _ => True)); [apply q_get|]. intros w. destruct (shuttingDown w); [apply q_throw|].
  destruct (store c !! k) as [[m v]|]; [|apply q_throw]. destruct (CheckValidity _ _); [|apply q_throw].
  apply t_newRec. exact Hk.
Qed.
Lemma q_Get key ks : (forall k', P k' -> makeKey (ParseKey key).1 (ParseKey key).2 <> makeKey D k') ->
  quiet (fun _ => True) (Get o key ks : M nat).
Proof.
  intros Hk. unfold Get, getRecord. destruct (ParseKey key) as [db k]. simpl in Hk.
  apply (t_bind _ _ (fun _ _ => True)); [apply q_controller|]. intros c. cbn [andb].
  apply (t_bind _ _ (fun _ _ => True)); [apply q_checkCache|]. intros [l|].
  - apply (t_bind _ _ (fun _ _ => True)); [apply q_permission|]. intros _. apply q_ret.
  - apply (t_bind _ _ other); [by apply t_ctrlGet|]. intros l. apply t_seq; [apply q_permission|]. intros _.
    apply t_seq; [apply q_readRec|]. intros r. apply t_seq; [apply q_deref|]. intros m. apply t_seq; [apply q_get|]. intros w.
    apply (t_bind _ _ (fun _ _ => True)); [apply q_updateCache|]. intros _. apply q_ret.
Qed.
End quiet.
Notation quiet P m := (triple P (fun _ => True) m (fun _ _ => True)).

(** ** The records of the filter lists *)
Section records.
Context {GC : GCache} (P : str -> Prop).
Notation World := (World cacheRec).
(** The key is in another database or not one of [P]. *)
Definition away (key : str) : Prop := forall k, P k -> makeKey (ParseKey key).1 (ParseKey key).2 <> makeKey D k.
Lemma q_getAs {A} (view : cacheRec -> option A) key ks : away key -> quiet P (getAs view key ks).
Proof.
  intros Hk. apply (t_bind P _ _ (fun _ _ => True)); [|intros v; destruct (view v); [by intros w _|by intros w _]].
  apply (t_bind P _ _ (fun _ _ => True)); [by apply q_Get|]. intros l.
  apply (t_bind P _ _ (fun _ _ => True)); [apply q_readRec|]. intros r. by intros w _.
Qed.
Lemma q_putPayload key v ks : away key -> quiet P (putPayload key v ks).
Proof.
  intros Hk. apply (t_bind P _ _ (other P)); [|intros l; by apply q_Put].
  apply t_newRec. unfold SetKey. cbn [KeyIsSet dbName negb bool_decide decide_rel]. unfold away in Hk.
  destruct (ParseKey key) as [db k]. exact Hk.
Qed.
End records.

(** ** What the database has *)
Section served.
Context {UT : UnicodeTables} {GC : GCache}.
Notation World := (World cacheRec).
Definition listKey (scope key : str) : str := $"intel/filterlists/lists/" ++ scope ++ $"/" ++ key.
Definition isList (k : str) : Prop := exists x, k = $"intel/filterlists/lists/" ++ x.
Lemma makeListCacheKey_eq scope key : makeListCacheKey scope key = makeKey D (listKey scope key).
Proof. done. Qed.
Record running (w : World) : Prop := {
  rn_up : shuttingDown w = false;
  rn_now : 0 < now w;
  rn_db : exists c, controllers w !! D = Some c /\ readOnly c = false;
}.
Definition served (w : World) (k : str) : outcome dbErr (list str) :=
  match controllers w !! D with
  | Some c =>
      match store c !! k with
      | Some (m, v) =>
          if CheckValidity (now w) (Some m) then match asEntity v with Some l => Ret l | None => Err ErrInvalid end else Ret []
      | None => Ret []
      end
  | None => Ret []
  end.
Lemma kept_running P w w' : kept P w w' -> running w -> running w'.
Proof.
  intros Hk [H1 H2 (c & Hc & Hr)]. destruct (kp_db _ _ _ Hk c Hc) as (c' & Hc' & Hr' & _).
  split; [by rewrite (kp_up _ _ _ Hk)|by rewrite (kp_now _ _ _ Hk)|]. exists c'. split; [done|congruence].
Qed.
Lemma kept_served (P : str -> Prop) (w w' : World) k : kept P w w' -> running w -> P k -> served w' k = served w k.
Proof.
  intros Hk [_ _ (c & Hc & _)] HP. destruct (kp_db _ _ _ Hk c Hc) as (c' & Hc' & _ & Hs). unfold served.
  by rewrite Hc, Hc', (Hs k HP), (kp_now _ _ _ Hk).
Qed.
Lemma drops_total ks (w : World) : exists m, forM ks (dropEntry cacheOptions true) w = (Ret tt, w <| rcache := m |>).
Proof.
  revert w. induction ks as [|k ks IH]; intros w; [exists (rcache w); by destruct w|]. simpl.
  assert (exists m, dropEntry cacheOptions true k w = (Ret tt, w <| rcache := m |>)) as [m Hm].
  { unfold dropEntry, mbind, M_bind, get. destruct (rcache w !! k); [by eexists|exists (rcache w); by destruct w]. }
  rewrite (bind_ret _ _ _ _ _ Hm). destruct (IH (w <| rcache := m |>)) as [m' ->]. by exists m'.
Qed.
Definition found (r : outcome dbErr (list str)) : outcome dbErr (list str) := match r with Err ErrNotFound => Ret [] | _ => r end.
Lemma lookup_served (w : World) k ks : running w -> rcache w !! makeKey D k = None ->
  found (getEntityRecordByKey (makeKey D k) ks w).1 = served w k.
Proof.
  intros [Hs _ (c & Hc & _)] Hr. unfold served. rewrite Hc. unfold getEntityRecordByKey, getAs, getPayload, Get, getRecord.
  rewrite ParseKey_makeKey by apply D_plain.
  assert (getController D w = (Ret c, w)) as Ec by (unfold getController, get, mbind, M_bind; by rewrite Hc).
  assert (checkCache cacheOptions (makeKey D k) w = (Ret None, w)) as Ek
    by (unfold checkCache, get, mbind, M_bind; simpl; by rewrite Hr).
  destruct (store c !! k) as [[m v]|] eqn:Es.
  2: { assert (ctrlGet D k w = (Err ErrNotFound, w)) as Eg
         by (unfold ctrlGet, get, mbind, M_bind; rewrite Ec, Hs, Es; done).
       unfold mbind, M_bind. rewrite Ec. cbn [andb]. rewrite Ek, Eg. done. }
  destruct (CheckValidity (now w) (Some m)) eqn:Ev.
  2: { assert (ctrlGet D k w = (Err ErrNotFound, w)) as Eg
         by (unfold ctrlGet, get, mbind, M_bind; rewrite Ec, Hs, Es, Ev; done).
       unfold mbind, M_bind. rewrite Ec. cbn [andb]. rewrite Ek, Eg. done. }
  set (r := mkRec D k (Some m) v). set (w1 := w <| heap ::= fun h => h ++ [r] |>).
  assert (ctrlGet D k w = (Ret (length (heap w)), w1)) as Eg
    by (unfold ctrlGet, get, mbind, M_bind; rewrite Ec, Hs, Es, Ev; done).
  assert (heap w1 !! length (heap w) = Some r) as Hl by (by apply list_lookup_middle).
  assert (exists m', updateCache cacheOptions (length (heap w)) false false (GetRelativeExpiry (now w1) m) ks w1 =
    (Ret false, w1 <| rcache := m' |>)) as [m' Eu].
  { unfold updateCache. change (cacheInUse cacheOptions) with true. cbn [negb andb].
    unfold mbind, M_bind. rewrite (read_new _ _ _ Hl). unfold setEntry, mbind, M_bind, get.
    destruct (drops_total (filter (fun k' => k' <> Key r) ks) w1) as [m1 Em1]. rewrite Em1. by eexists. }
  assert (requirePermission cacheOptions (length (heap w)) w1 = (Ret tt, w1)) as Ep by done.
  assert (readRec (length (heap w)) (w1 <| rcache := m' |>) = (Ret r, w1 <| rcache := m' |>)) as El by (by apply read_new).
  unfold mbind, M_bind. rewrite Ec. cbn [andb]. rewrite Ek, Eg, Ep, (read_new _ _ _ Hl). unfold deref, get. cbn [rmeta r].
  rewrite Eu. unfold mret, M_ret. rewrite El. cbn [payload r].
  by destruct (asEntity v).
Qed.

(** ** Entries *)
Definition answer (e : listEntry) : list str := if Whitelist e then [] else getSources e.
Definition entryDbKey (e : listEntry) : str := listKey (ToLower (EType e)) (EEntity e).
Lemma entryRec_eq t e : entryRec t e = mkRec D (entryDbKey e) (if Whitelist e then Some (Delete t newMeta) else None)
  (CEntity (EEntity e) (getSources e) (EType e) t).
Proof.
  unfold entryRec, SetKey. cbn [KeyIsSet dbName negb]. change (entryKey e) with (makeKey D (entryDbKey e)).
  unfold KeyIsSet. cbn [dbName]. rewrite bool_decide_true by done. cbn [negb]. by rewrite ParseKey_makeKey by apply D_plain.
Qed.
Definition entryMeta (t : Z) (e : listEntry) : Meta := applyMeta batchOptions t (if Whitelist e then Some (Delete t newMeta) else None).
Lemma entryMeta_deleted t e : 0 < t -> IsDeleted (entryMeta t e) = Whitelist e.
Proof.
  intros Ht. unfold entryMeta. destruct (Whitelist e); [|done]. unfold applyMeta, Update, IsDeleted. simpl.
  rewrite (proj2 (Z.ltb_ge t 0)) by lia. simpl. apply Z.ltb_lt. lia.
Qed.
Lemma entryMeta_valid t e : 0 < t -> CheckValidity t (Some (entryMeta t e)) = negb (Whitelist e).
Proof.
  intros Ht. pose proof (entryMeta_deleted t e Ht) as Hd. unfold IsDeleted in Hd. unfold CheckValidity. rewrite Hd.
  destruct (Whitelist e) eqn:E; [done|]. unfold entryMeta. rewrite E. done.
Qed.
Definition sameOutside (w w' : World) : Prop := running w' /\ rcache w' = rcache w /\ now w' = now w.
Lemma persist_ok w e : running w -> exists w', persistRecord e w = (Ret tt, w') /\ sameOutside w w' /\
  forall k, served w' k = if bool_decide (k = entryDbKey e) then Ret (answer e) else served w k.
Proof.
  intros [Hs Hn (c & Hc & Hro)]. set (k0 := entryDbKey e). set (v := CEntity (EEntity e) (getSources e) (EType e) (now w)).
  set (r0 := mkRec D k0 (if Whitelist e then Some (Delete (now w) newMeta) else None) v).
  set (m := entryMeta (now w) e). set (r := r0 <| rmeta := Some m |>).
  set (w1 := w <| heap ::= fun h => h ++ [r0] |>). set (w2 := w <| heap ::= fun h => h ++ [r] |>).
  set (f := fun st : gmap str (Meta * cacheRec) => if negb (shadowDelete c) && Whitelist e then delete k0 st else <[k0 := (m, v)]> st).
  set (w' := w2 <| controllers ::= alter (fun c => c <| store ::= f |>) D |>).
  assert (Apply batchOptions (length (heap w)) w1 = (Ret tt, w2)) as Ea.
  { unfold w1. rewrite Apply_new. reflexivity. }
  assert (putOrDelete D (shadowDelete c) (length (heap w)) w2 = (Ret tt, w')) as Ep.
  { unfold putOrDelete, mbind, M_bind. rewrite (read_new w2 _ r) by (by apply list_lookup_middle). change (rmeta r) with (Some m). cbn [deref].
    assert (IsDeleted m = Whitelist e) as -> by (by apply entryMeta_deleted). unfold w', f. by destruct (negb _ && _). }
  exists w'. split; [|split].
  - assert (getController D w1 = (Ret c, w1)) as Ec
      by (unfold getController, get, mbind, M_bind; change (controllers w1) with (controllers w); by rewrite Hc).
    assert (newRec (entryRec (now w) e) w = (Ret (length (heap w)), w1)) as En by (by rewrite entryRec_eq).
    unfold persistRecord. rewrite (bind_ret _ _ w w w) by done. rewrite (bind_ret _ _ _ _ _ En).
    unfold PutMany. cbn [HasAllPermissions batchOptions Local Internal andb negb]. change $"cache" with D.
    rewrite (bind_ret _ _ _ _ _ Ec). rewrite (bind_ret _ _ w1 w1 w1) by done. rewrite Hro.
    change (shuttingDown w1) with (shuttingDown w). rewrite Hs. unfold putMany_. rewrite (bind_ret _ _ _ _ _ Ec). cbn [forM].
    unfold mbind, M_bind. rewrite (read_new w1 _ r0) by (by apply list_lookup_middle). rewrite bool_decide_true by done. cbn [negb].
    by rewrite Ea, Ep.
  - split; [|done]. split; [done|done|]. exists (c <| store ::= f |>). split; [|done].
    change (controllers w') with (alter (fun c => c <| store ::= f |>) D (controllers w)). by rewrite lookup_alter_eq, Hc.
  - intros k. unfold served.
    change (controllers w') with (alter (fun c => c <| store ::= f |>) D (controllers w)). rewrite lookup_alter_eq, Hc.
    cbn [fmap option_fmap option_map]. change (now w') with (now w). change (store (c <| store ::= f |>)) with (f (store c)).
    unfold f. case_bool_decide as Hk.
    + subst k. unfold answer. destruct (Whitelist e) eqn:Ew, (shadowDelete c); cbn [negb andb].
      all: rewrite ?lookup_delete_eq, ?lookup_insert_eq; unfold m; rewrite ?entryMeta_valid, ?Ew by done; done.
    + destruct (negb _ && _); [by rewrite lookup_delete_ne by done|by rewrite lookup_insert_ne by done].
Qed.
(** The last of the entries with the key. *)
Definition lastFor (k : str) (es : list listEntry) : option listEntry := last (filter (fun e => entryDbKey e = k) es).
Lemma processEntries_ok (RG : Ring) es : forall bf w bf' w', running w -> processEntries es bf w = (Ret tt, bf', w') ->
  let nes := omap normalizeEntry es in bf' = foldl (fun bf e => filterEntry e bf) bf nes /\ sameOutside w w' /\
  forall k, served w' k = match lastFor k nes with Some e => Ret (answer e) | None => served w k end.
Proof.
  induction es as [|e es IH]; intros bf w bf' w' Hw; cbn [processEntries omap list_omap]; [intros [= <- <-]; split; [done|]; by split; [split|]|].
  destruct (normalizeEntry e) as [e'|]; [|done]. destruct (persist_ok w e' Hw) as (w1 & -> & (Hw1 & Hr1 & Hn1) & Hs1).
  intros E. destruct (IH _ _ _ _ Hw1 E) as (Hbf & (Hw2 & Hr2 & Hn2) & Hs2). split; [done|]. split; [split; [done|split; congruence]|].
  intros k. rewrite Hs2, Hs1. unfold lastFor. rewrite filter_cons.
  destruct (decide (entryDbKey e' = k)) as [Hk|Hk].
  - rewrite bool_decide_true, last_cons by done. by destruct (last _).
  - by rewrite bool_decide_false.
Qed.

(** ** Filters *)
Section bloom.
Context {RG : Ring} {RL : RingLaws}.
Lemma bloom_kept t v t' v' bf : bloomTest t v bf = true -> bloomTest t v (bloomAdd t' v' bf) = true.
Proof.
  unfold bloomTest, bloomAdd, getBloomForType, changeBloom. destruct bf as [d a c v4 v6]. cbv zeta.
  repeat match goal with |- context [eqs (ToLower t') ?x] => destruct (eqs (ToLower t') x) end;
  repeat match goal with |- context [eqs (ToLower t) ?x] => destruct (eqs (ToLower t) x) end;
  cbn [bDomain bASN bCountry bIPv4 bIPv6]; auto using ring_kept.
Qed.
Lemma bloom_added t t' v bf : ToLower t = ToLower t' -> bloomTest t v (bloomAdd t' v bf) = true.
Proof.
  intros E. unfold bloomTest, bloomAdd, getBloomForType, changeBloom. rewrite E. destruct bf as [d a c v4 v6]. cbv zeta.
  repeat match goal with |- context [eqs (ToLower t') ?x] => destruct (eqs (ToLower t') x) end;
  cbn [bDomain bASN bCountry bIPv4 bIPv6]; auto using ring_added.
Qed.
Lemma filter_kept t v e bf : bloomTest t v bf = true -> bloomTest t v (filterEntry e bf) = true.
Proof. intros H. unfold filterEntry. destruct (Resources e); [done|]. by apply bloom_kept. Qed.
Definition addAll (es : list listEntry) (bf : scopedBloom) : scopedBloom := foldl (fun bf e => filterEntry e bf) bf es.
Lemma addAll_kept t v es bf : bloomTest t v bf = true -> bloomTest t v (addAll es bf) = true.
Proof. revert bf. induction es as [|e es IH]; intros bf H; [done|]. by apply IH, filter_kept. Qed.
Lemma addAll_added t es e bf : e ∈ es -> Resources e <> [] -> ToLower t = ToLower (EType e) -> bloomTest t (EEntity e) (addAll es bf) = true.
Proof.
  intros He Hr Ht. revert bf. induction es as [|e' es IH]; intros bf; [by apply not_elem_of_nil in He|].
  apply elem_of_cons in He as [<-|He]; [|by apply IH].
  change (bloomTest t (EEntity e) (addAll es (filterEntry e bf)) = true). apply addAll_kept. unfold filterEntry.
  destruct (Resources e); [done|]. by apply bloom_added.
Qed.
End bloom.
(** The types of entities that are looked up. *)
Definition types : list str := [$"domain"; $"asn"; $"country"; $"ipv4"; $"ipv6"].
Lemma types_lower t : t ∈ types -> ToLower t = t /\ "/"%char ∉ t.
Proof.
  unfold types. intros Ht. repeat (apply elem_of_cons in Ht as [-> | Ht];
    [split; [vm_compute; reflexivity|apply (bool_decide_unpack _); vm_compute; exact I]|]). by apply not_elem_of_nil in Ht.
Qed.
Lemma split_eq (c : ascii) (a a' b b' : str) : c ∉ a -> c ∉ b -> a' ++ [c] ++ b' = a ++ [c] ++ b -> a' = a /\ b' = b.
Proof.
  intros Ha Hb. revert a'. induction a as [|x a IH]; intros [|y a'] E; simpl in E.
  - by injection E.
  - injection E as -> E. exfalso. apply Hb. rewrite <- E. set_solver.
  - injection E as -> E. set_solver.
  - injection E as -> E. destruct (IH ltac:(set_solver) a' E) as [-> ->]. done.
Qed.
Lemma listKey_inj t v e : t ∈ types -> "/"%char ∉ v -> entryDbKey e = listKey t v -> ToLower t = ToLower (EType e) /\ EEntity e = v.
Proof.
  intros Ht Hv E. destruct (types_lower t Ht) as [Hl Hs]. apply app_inv_head in E. rewrite Hl.
  by destruct (split_eq "/"%char _ _ _ _ Hs Hv E) as [-> ->].
Qed.
End served.

(** ** Updates *)
Section updates.
Context {UT : UnicodeTables} {GC : GCache} {RG : Ring} {RL : RingLaws} {VL : VersionLib} {DS : DSD} {FE : FilterEnv}.
Definition entriesOf (file : Artifact) : list listEntry :=
  match readFile file with Some bs => omap normalizeEntry (decodeFile bs).1 | None => [] end.
Lemma lastFor_app k es es' : lastFor k (es ++ es') = match lastFor k es' with Some e => Some e | None => lastFor k es end.
Proof. unfold lastFor. rewrite filter_app. rewrite last_app. by destruct (last _). Qed.
Lemma processListFile_ok file bf w bf' w' : running w -> processListFile file bf w = (Ret tt, bf', w') ->
  bf' = addAll (entriesOf file) bf /\ sameOutside w w' /\
  forall k, served w' k = match lastFor k (entriesOf file) with Some e => Ret (answer e) | None => served w k end.
Proof.
  intros Hw. unfold processListFile, entriesOf. destruct (readFile file) as [bs|]; [|done]. destruct (decodeFile bs) as [es ok]. cbn [fst].
  destruct (processEntries es bf w) as [[r bf1] w1] eqn:E. destruct r as [[]| |]; [|done..]. destruct ok; [|done]. intros [= <- <-].
  by apply (processEntries_ok RG).
Qed.
Lemma processFiles_ok files : forall bf w fresh bf' w', running w -> processFiles None files false bf w = (Ret tt, fresh, bf', w') ->
  let es := files ≫= entriesOf in fresh = false /\ bf' = addAll es bf /\ sameOutside w w' /\
  forall k, served w' k = match lastFor k es with Some e => Ret (answer e) | None => served w k end.
Proof.
  induction files as [|f files IH]; intros bf w fresh bf' w' Hw; cbn [processFiles].
  { intros [= <- <- <-]. split; [done|]. split; [done|]. split; [by split|done]. }
  cbn [isFile]. destruct (processListFile f bf w) as [[r bf1] w1] eqn:E. destruct r as [[]| |]; [|done..].
  destruct (processListFile_ok _ _ _ _ _ Hw E) as (-> & (Hw1 & Hr1 & Hn1) & Hs1). cbn [orb]. intros E'.
  destruct (IH _ _ _ _ _ Hw1 E') as (-> & -> & (Hw2 & Hr2 & Hn2) & Hs2).
  split; [done|]. cbn [mbind list_bind]. split; [unfold addAll; by rewrite foldl_app|]. split; [split; [done|split; congruence]|].
  intros k. rewrite Hs2, Hs1, lastFor_app. by destruct (lastFor k (_ ≫= _)).
Qed.
(** What the other parts of an update keep. *)
Definition calm (s s' : State) : Prop :=
  kept isList (world s) (world s') /\ defaultFilter s' = defaultFilter s /\ baseFile s' = baseFile s /\ filterListsLoaded s' = filterListsLoaded s.
Lemma calm_refl s : calm s s.
Proof. by split. Qed.
Lemma calm_trans s1 s2 s3 : calm s1 s2 -> calm s2 s3 -> calm s1 s3.
Proof. intros (H1 & H2 & H3 & H4) (H1' & H2' & H3' & H4'). split; [by etrans|]. repeat split; congruence. Qed.
Lemma calm_db {A} (m : M A) s : quiet isList m -> calm s (onDB m s).2.
Proof. intros Hm. unfold onDB. pose proof (Hm (world s) I) as [Hk _]. destruct (m (world s)) as [r w]. by split. Qed.
Lemma away_keys key : ParseKey key = (D, drop 6 key) -> take 5 (drop 24 key) <> $"lists" -> away isList key.
Proof.
  intros E Hk k [x ->]. rewrite E. cbn [fst snd]. intros E'%makeKey_inj. apply Hk. 
  replace (drop 24 key) with (drop 18 (drop 6 key)) by by rewrite drop_drop. by rewrite E'.
Qed.
Lemma away_version : away isList filterListCacheVersionKey.
Proof. by apply away_keys. Qed.
Lemma away_index : away isList filterListIndexKey.
Proof. by apply away_keys. Qed.
Lemma away_bloom t : t ∈ types -> away isList (makeBloomCacheKey t).
Proof. unfold types. intros Ht. apply away_keys; repeat (apply elem_of_cons in Ht as [-> | Ht]; [done|]); by apply not_elem_of_nil in Ht. Qed.
(** The database is changed, then other fields. *)
Ltac calm_step E H := match type of H with calm ?s (onDB ?m ?s).2 => destruct (onDB m s) as [? ?] eqn:E; cbn [snd] in H end.
Lemma calm_unbreak evs fuel s : calm s (updateUnbreakFilterListIDs evs fuel s).2.
Proof.
  unfold updateUnbreakFilterListIDs. pose proof (calm_db (getListIndexFromCache (evs filterListIndexKey)) s (q_getAs _ _ _ _ away_index)) as H.
  calm_step E H. destruct o as [i| |]; [|done..]. by destruct (resolveWith _ _ _).
Qed.
Lemma calm_index evs fuel s : calm s (updateListIndex evs fuel s).2.
Proof.
  unfold updateListIndex. destruct (listIndexUpdate s); [apply calm_refl|]. destruct (GetFile _) as [file|]; [|apply calm_refl].
  set (s1 := s <| listIndexUpdate := Some file |>). assert (calm s s1) as H1 by (by split).
  pose proof (calm_db (getListIndexFromCache (evs filterListIndexKey)) s1 (q_getAs _ _ _ _ away_index)) as H. calm_step E H.
  assert (calm s s0) as H2 by (by eapply calm_trans). cbv zeta. case_match; [eapply calm_trans; [done|apply calm_unbreak]|].
  destruct (loadIndex file) as [i|]; [|done].
  pose proof (calm_db (putPayload filterListIndexKey (CIndex i) (evs filterListIndexKey)) s0 (q_putPayload _ _ _ _ away_index)) as H3.
  calm_step E3 H3. assert (calm s s2) as H4 by (by eapply calm_trans). destruct o0; [|done..].
  eapply calm_trans; [done|apply calm_unbreak].
Qed.
Lemma calm_files evs s : calm s (getUpgradableFiles evs s).2.
Proof.
  unfold getUpgradableFiles, resolveUpdateOrder. destruct (filterListsLoaded s); [|apply calm_refl].
  assert (quiet isList (getCacheDatabaseVersion (evs filterListCacheVersionKey))) as Hq.
  { apply (t_bind _ _ _ (fun _ _ => True)); [apply q_getAs, away_version|]. intros v. destruct (negb _); [apply q_throw|].
    destruct (NewSemver _); [apply q_ret|apply q_throw]. }
  pose proof (calm_db _ s Hq) as H. calm_step E H. done.
Qed.
Lemma q_save evs bf : quiet isList (ignore (saveToCache evs bf)).
Proof.
  assert (forall r t, t ∈ types -> quiet isList (saveBloomToCache r t evs)) as Hs by (intros r t Ht; apply q_putPayload, away_bloom, Ht).
  apply q_ignore. unfold saveToCache. repeat (apply (t_bind _ _ _ (fun _ _ => True)); [apply Hs; unfold types; set_solver|intros _]).
  apply Hs. unfold types. set_solver.
Qed.
(** An update without a base file. *)
Lemma applyUpdates_ok evs files s s' : running (world s) -> baseFile s = None -> applyUpdates evs files s = (Ret tt, s') ->
  let es := files ≫= entriesOf in
  defaultFilter s' = addAll es (defaultFilter s) /\ filterListsLoaded s' = true /\ baseFile s' = None /\ running (world s') /\
  forall k, isList k ->
    (rcache (world s) !! makeKey D k = None -> rcache (world s') !! makeKey D k = None) /\
    served (world s') k = match lastFor k es with Some e => Ret (answer e) | None => served (world s) k end.
Proof.
  intros Hw Hb. unfold applyUpdates. rewrite Hb.
  destruct (processFiles None files false (defaultFilter s) (world s)) as [[[r fresh] bf] w] eqn:E. destruct r as [[]| |]; [|by destruct fresh..].
  destruct (processFiles_ok _ _ _ _ _ _ Hw E) as (-> & -> & (Hw1 & Hr1 & Hn1) & Hs1).
  set (s1 := (s <| world := w |>) <| defaultFilter := _ |> <| filterListsLoaded := true |>).
  pose proof (calm_db (ignore (saveToCache evs (defaultFilter s1))) s1 (q_save _ _)) as H. calm_step E1 H. intros E2.
  assert (calm s1 s') as (Hk & Hf & Hbase & Hl).
  { destruct (last files) as [f|]; [|by injection E2 as <-]. eapply calm_trans; [exact H|].
    pose proof (calm_db (ignore (setCacheDatabaseVersion (AVersion f) (evs filterListCacheVersionKey))) s0
      (q_ignore _ _ _ (q_putPayload _ _ _ _ away_version))) as H2. by rewrite E2 in H2. }
  split; [exact Hf|]. split; [exact Hl|]. split; [by rewrite Hbase|]. split; [by eapply kept_running|]. intros k HP. split.
  - intros Hn. apply (kp_cache _ _ _ Hk k HP). change (rcache w !! makeKey D k = None). by rewrite Hr1.
  - rewrite (kept_served isList (world s1)); [exact (Hs1 k)|done|exact Hw1|done].
Qed.
(** A lookup that is not answered by the read cache. *)
Lemma lookup_ok t v ev s : running (world s) -> rcache (world s) !! makeListCacheKey t v = None -> filterListsLoaded s = true ->
  (lookupBlockLists t v ev s).1 = if bloomTest t v (defaultFilter s) then served (world s) (listKey t v) else Ret [].
Proof.
  intros Hw Hr Hl. unfold lookupBlockLists. rewrite Hl. destruct (bloomTest t v (defaultFilter s)); cbn [negb]; [|done].
  rewrite makeListCacheKey_eq in *. rewrite <- (lookup_served _ (listKey t v) ev Hw Hr). unfold onDB.
  destruct (getEntityRecordByKey _ _ _) as [[l|[]|] w]; done.
Qed.
Lemma listed t v e es : t ∈ types -> "/"%char ∉ v -> lastFor (listKey t v) es = Some e ->
  forall bf, (if bloomTest t v (addAll es bf) then Ret (answer e) else Ret [] : outcome dbErr (list str)) = Ret (answer e).
Proof.
  intros Ht Hv Hl bf. unfold lastFor in Hl. apply last_Some_elem_of in Hl as [Hk He]%list_elem_of_filter.
  destruct (listKey_inj t v e Ht Hv Hk) as [Hlow <-]. destruct (decide (Resources e = [])) as [Hr|Hr].
  - assert (answer e = []) as -> by (unfold answer, getSources; rewrite Hr; by destruct (Whitelist e)). by destruct (bloomTest _ _ _).
  - by rewrite (addAll_added t es e bf He Hr Hlow).
Qed.
End updates.

(** C20. After a successful update, with the files that were chosen, a lookup that the
    read cache does not answer gives the sources of the last entry for the entity in
    these files, none if it is a deletion.  An entity without an entry that the loaded
    filters may hold keeps what it was listed with before, also when a new base list does
    not have it any more: no update knows the base file, so filters are never rebuilt and
    nothing is purged. *)
Theorem update_lookup `{UnicodeTables, GCache, Ring, !RingLaws, VersionLib, DSD, !FilterEnv} evs fuel s s1 files s' t v ev :
  running (world s) -> baseFile s = None -> performUpdate evs fuel s = (Ret tt, s') ->
  s1 = (updateListIndex evs fuel s).2 -> files = (getUpgradableFiles evs s1).1 -> files <> [] ->
  t ∈ types -> "/"%char ∉ v -> rcache (world s) !! makeListCacheKey t v = None ->
  baseFile s' = None /\
  match lastFor (listKey t v) (files ≫= entriesOf) with
  | Some e => (lookupBlockLists t v ev s').1 = Ret (answer e)
  | None => filterListsLoaded s = true -> bloomTest t v (defaultFilter s) = true ->
      (lookupBlockLists t v ev s').1 = (lookupBlockLists t v ev s).1
  end.
Proof.
  intros Hw Hb E -> -> Hne Ht Hv Hr. unfold performUpdate in E.
  pose proof (calm_index evs fuel s) as Hc1. destruct (updateListIndex evs fuel s) as [r s1] eqn:E1. cbn [snd] in *.
  pose proof (calm_files evs s1) as Hc2. destruct (getUpgradableFiles evs s1) as [files s2] eqn:E2. cbn [fst snd] in *.
  destruct (calm_trans _ _ _ Hc1 Hc2) as (Hk & Hf & Hb2 & Hl). rewrite Hb in Hb2.
  assert (applyUpdates evs files s2 = (Ret tt, s')) as Ea by (destruct r; [| |done]; by destruct files).
  assert (running (world s2)) as Hw2 by (by eapply kept_running).
  assert (isList (listKey t v)) as HP by (by eexists).
  destruct (applyUpdates_ok _ _ _ _ Hw2 Hb2 Ea) as (Hd & Hloaded & Hb' & Hw' & Hall). split; [done|].
  destruct (Hall _ HP) as [Hcache Hs]. specialize (Hcache (kp_cache _ _ _ Hk _ HP Hr)).
  rewrite (lookup_ok t v ev s' Hw' Hcache Hloaded), Hd, Hs. destruct (lastFor _ _) as [e|] eqn:El.
  - by apply listed.
  - intros Hl0 Hbl. rewrite Hf, addAll_kept by done. rewrite lookup_ok, Hbl by done. by apply (kept_served isList).
Qed.

(** ** Witness *)
Module ListsDemo.
Definition ut : UnicodeTables := {| unicodeLower := id; unicodeUpper := id |}.
Definition gc : GCache := {| removeEvicts := true; expiredEvicts := true |}.
Definition rings : Ring := {|
  ring := list str; ringInit := fun _ => []; ringAdd := cons; ringTest := fun v r => bool_decide (v ∈ r);
  MarshalBinary := fun _ => []; UnmarshalBinary := fun _ => None;
|}.
Definition versions : VersionLib := {|
  Version := Z; NewSemver := fun s => Some (parseDigits s); GreaterThan := fun a b => b <? a; VEqual := Z.eqb; zeroVersion := 0;
|}.
#[local] Existing Instances ut gc rings versions DecodeDemo.dsd.
Lemma rings_laws : RingLaws.
Proof. split; simpl; intros *; [intros; apply bool_decide_true; left|rewrite !bool_decide_eq_true; by right]. Qed.
(** Only the base file exists. *)
Definition env (v : Z) (content : bytes) : FilterEnv := {|
  GetFile := fun path => if bool_decide (path = $"base.dsdl") then Some (mkArtifact 1 path (Itoa v) (Some v)) else None;
  readFile := fun _ => Some content; loadIndex := fun _ => None; purgeObsolete := fun w => (Ret tt, w);
|}.
Definition env1 : FilterEnv := env 1 [76; 74; 1; 97; 2; 98; 99].
Definition env2 : FilterEnv := env 2 [76; 74; 2; 98; 99].
Definition w0 : World cacheRec := mkWorld {[ D := mkController ∅ false false ]} false [] ∅ ∅ false 100.
Definition s1 : State := (performUpdate (FE := env1) (fun _ => []) 5 (initial w0)).2.
Definition s2 : State := (performUpdate (FE := env2) (fun _ => []) 5 s1).2.
Definition t1 : State := (updateListIndex (FE := env2) (fun _ => []) 5 s1).2.
Definition files : list Artifact := (getUpgradableFiles (FE := env2) (fun _ => []) t1).1.
Definition look (s : State) (d : str) : outcome dbErr (list str) := (lookupBlockLists $"domain" d [] s).1.
End ListsDemo.
Definition runningB (w : World cacheRec) : bool :=
  negb (shuttingDown w) && (0 <? now w) && match controllers w !! D with Some c => negb (readOnly c) | None => false end.
Lemma runningB_ok w : runningB w = true -> running w.
Proof.
  unfold runningB. intros [[H1 H2]%andb_true_iff H3]%andb_true_iff. split; [by destruct (shuttingDown w)|by apply Z.ltb_lt|].
  destruct (controllers w !! D) as [c|]; [|done]. exists c. split; [done|]. by destruct (readOnly c).
Qed.
#[local] Existing Instances ListsDemo.ut ListsDemo.gc ListsDemo.rings ListsDemo.versions DecodeDemo.dsd.
Lemma update_lookup_witness :
  (ListsDemo.look ListsDemo.s1 $"a." = Ret [$"17-A"] /\ ListsDemo.look ListsDemo.s2 $"a." = ListsDemo.look ListsDemo.s1 $"a.") /\
  exists e, lastFor (listKey $"domain" $"bc.") (ListsDemo.files ≫= entriesOf (FE := ListsDemo.env2)) = Some e /\
    ListsDemo.look ListsDemo.s2 $"bc." = Ret (answer e) /\ answer e = [$"17-A"].
Proof.
  assert (running (world ListsDemo.s1)) as Hrun by (apply runningB_ok; vm_compute; reflexivity).
  assert (performUpdate (FE := ListsDemo.env2) (fun _ => []) 5 ListsDemo.s1 = (Ret tt, ListsDemo.s2)) as Hup.
  { unfold ListsDemo.s2. rewrite (surjective_pairing (performUpdate _ _ _)) at 1. f_equal. }
  assert (ListsDemo.files <> []) as Hne by (intros E; apply (f_equal length) in E; revert E; apply Nat.eqb_neq; vm_compute; reflexivity).
  assert ($"domain" ∈ types) as Ht by left.
  assert (baseFile ListsDemo.s1 = None) as Hb by (vm_compute; reflexivity).
  pose proof (fun v => @update_lookup ListsDemo.ut ListsDemo.gc ListsDemo.rings ListsDemo.rings_laws ListsDemo.versions
    DecodeDemo.dsd ListsDemo.env2 (fun _ => []) 5%nat ListsDemo.s1 ListsDemo.t1 ListsDemo.files ListsDemo.s2 $"domain" v []
    Hrun Hb Hup eq_refl eq_refl Hne Ht) as H.
  assert ("/"%char ∉ $"a." /\ "/"%char ∉ $"bc.") as [Hva Hvb] by (split; apply (bool_decide_unpack _); vm_compute; exact I).
  assert (rcache (world ListsDemo.s1) !! makeListCacheKey $"domain" $"a." = None) as Ha by (vm_compute; reflexivity).
  assert (rcache (world ListsDemo.s1) !! makeListCacheKey $"domain" $"bc." = None) as Hbc by (vm_compute; reflexivity).
  split; [split; [vm_compute; reflexivity|]|].
  - destruct (H _ Hva Ha) as [_ H'].
    assert (answer <$> lastFor (listKey $"domain" $"a.") (ListsDemo.files ≫= entriesOf (FE := ListsDemo.env2)) = None) as E by (vm_compute; reflexivity).
    apply fmap_None in E. rewrite E in H'. apply H'; vm_compute; reflexivity.
  - destruct (H _ Hvb Hbc) as [_ H'].
    assert (answer <$> lastFor (listKey $"domain" $"bc.") (ListsDemo.files ≫= entriesOf (FE := ListsDemo.env2)) = Some [$"17-A"]) as E
      by (vm_compute; reflexivity).
    apply fmap_Some in E as (e & E & Ea). rewrite E in H'. exists e. split; [exact E|]. split; [exact H'|symmetry; exact Ea].
Defined.
