(* ===== verification/GoNum.v ===== *)
(** * Go numbers and sorting: float32, sort.Sort

    [float32] is the IEEE binary32 format of the Standard Library's [SpecFloat]; every
    operation rounds (no fused operations, as on amd64).  [sort.Sort] of at most twelve
    elements is insertion sort. *)

From Stdlib Require Import SpecFloat.
From S2P Require Import Prelude.

Definition float32 : Type := spec_float.
Definition f32prec : Z := 24.
Definition f32emax : Z := 128.
(** Conversion of an integer; other constants are quotients of such. *)
Definition f32 (z : Z) : float32 := binary_normalize f32prec f32emax z 0 false.
Definition fadd : float32 -> float32 -> float32 := SFadd f32prec f32emax.
Definition fsub : float32 -> float32 -> float32 := SFsub f32prec f32emax.
Definition fmul : float32 -> float32 -> float32 := SFmul f32prec f32emax.
Definition fdiv : float32 -> float32 -> float32 := SFdiv f32prec f32emax.
Definition fltb : float32 -> float32 -> bool := SFltb.
Definition fgtb (a b : float32) : bool := SFltb b a.
Definition feqb : float32 -> float32 -> bool := SFeqb.

Example f32_tenths : fmul (f32 10) (fdiv (f32 1) (f32 10)) = f32 1.
Proof. vm_compute. reflexivity. Qed.

(** ** [sort.Sort] *)
Section sort.
Context {A : Type} (less : A -> A -> bool).
(** [r] is the sorted part, reversed. *)
Fixpoint insertLast (x : A) (r : list A) : list A :=
  match r with [] => [x] | y :: r => if less x y then y :: insertLast x r else x :: y :: r end.
Definition insertionSort (l : list A) : list A := rev (foldl (fun r x => insertLast x r) [] l).

Lemma insertLast_perm x r : insertLast x r ≡ₚ x :: r.
Proof. induction r as [|y r IH]; [done|]. simpl. destruct (less x y); [|done]. rewrite IH. apply Permutation_swap. Qed.
Lemma foldl_insert_perm l r : foldl (fun r x => insertLast x r) r l ≡ₚ l ++ r.
Proof.
  revert r. induction l as [|x l IH]; intros r; [done|]. simpl. rewrite IH, insertLast_perm. by rewrite Permutation_middle.
Qed.
Lemma insertionSort_perm l : insertionSort l ≡ₚ l.
Proof. unfold insertionSort. rewrite <- Permutation_rev, foldl_insert_perm. by rewrite app_nil_r. Qed.
End sort.
