(* ===== verification/NavMap.v ===== *)
(** * The map of the SPN (spn/navigator: pin.go, state.go, intel.go, map.go, update.go)

    A [Map] has a [Pin] for every known hub.  Pins are shared objects: lanes, the home
    and routes point to them, so they live on a heap and are referred to by index.
    Metrics, regions, measurements and the pushing of changes are left out; hub
    locks are held where the code needs them.  Times are Unix seconds. *)

From S2P Require Import Prelude GoStrings GoText GoNet NetUtils Entity Endpoints GoNum.

(** ** States *)
Definition PinState : Type := Z.
Definition StateNone : PinState := 0.
Definition StateInvalid : PinState := 0x1.
Definition StateSuperseded : PinState := 0x2.
Definition StateFailing : PinState := 0x4.
Definition StateOffline : PinState := 0x8.
Definition StateHasRequiredInfo : PinState := 0x10.
Definition StateReachable : PinState := 0x20.
Definition StateActive : PinState := 0x40.
Definition StateTrusted : PinState := 0x100.
Definition StateUsageDiscouraged : PinState := 0x200.
Definition StateUsageAsHomeDiscouraged : PinState := 0x400.
Definition StateUsageAsDestinationDiscouraged : PinState := 0x800.
Definition StateIsHomeHub : PinState := 0x1000.
Definition StateConnectivityIssues : PinState := 0x2000.
Definition StateAllowUnencrypted : PinState := 0x4000.
Definition Add (s states : PinState) : PinState := Z.lor s states.
Definition Remove (s states : PinState) : PinState := Z.ldiff s states.
Definition Has (s states : PinState) : bool := Z.land s states =? states.
Definition HasAnyOf (s states : PinState) : bool := negb (Z.land s states =? 0).
Definition HasNoneOf (s states : PinState) : bool := Z.land s states =? 0.
Definition StateSummaryRegard : PinState := Add StateReachable StateActive.
Definition StateSummaryDisregard : PinState :=
  Add StateInvalid (Add StateSuperseded (Add StateFailing (Add StateOffline (Add StateUsageDiscouraged StateIsHomeHub)))).
Definition allStates : list (PinState * str) := [
  (StateInvalid, $"Invalid"); (StateSuperseded, $"Superseded"); (StateFailing, $"Failing"); (StateOffline, $"Offline");
  (StateHasRequiredInfo, $"HasRequiredInfo"); (StateReachable, $"Reachable"); (StateActive, $"Active");
  (StateTrusted, $"Trusted"); (StateUsageDiscouraged, $"UsageDiscouraged");
  (StateUsageAsHomeDiscouraged, $"UsageAsHomeDiscouraged");
  (StateUsageAsDestinationDiscouraged, $"UsageAsDestinationDiscouraged"); (StateIsHomeHub, $"IsHomeHub");
  (StateConnectivityIssues, $"ConnectivityIssues"); (StateAllowUnencrypted, $"AllowUnencrypted")].
Definition StateName (s : PinState) : str :=
  if s =? StateNone then $"None" else
  match find (fun p => s =? p.1) allStates with Some p => p.2 | None => $"Unknown" end.
Definition Export (s : PinState) : list str :=
  if s =? StateNone then [] else StateName <$> filter (fun st => Has s st = true) (fst <$> allStates).
Definition StateString (s : PinState) : str := match Export s with [] => $"None" | names => Join names $", " end.

(** ** Hubs (spn/hub) *)
Record hubLane := mkHubLane { LaneID : str; LaneCapacity : Z; LaneLatency : Z }.
Record Announcement := mkAnnouncement {
  AName : str; AGroup : str; ContactAddress : str; ContactService : str; Hosters : list str; Datacenter : str;
  IPv4 : option IP; IPv6 : option IP; entryPolicy : list (option Endpoint); exitPolicy : list (option Endpoint);
  AFlags : list str;
}.
(** [Keys]: when each key expires. *)
Record Status := mkStatus { Timestamp : Z; SVersion : str; Keys : list Z; HubLanes : list hubLane; Load : Z; SFlags : list str }.
Record Hub := mkHub { HubID : str; Info : option Announcement; HStatus : option Status; FirstSeen : Z; InvalidInfo : bool; InvalidStatus : bool }.
Definition HasFlag (h : Hub) (flag : str) : bool :=
  match HStatus h with Some s => bool_decide (flag ∈ SFlags s) | None => false end ||
  match Info h with Some a => bool_decide (flag ∈ AFlags a) | None => false end.
Definition obsoleteValidAfter : Z := 30 * 24 * 3600.
Definition obsoleteInvalidAfter : Z := 7 * 24 * 3600.
Record InfoOverride := mkOverride { oCountryCode : str; oCoordinates : option (Z * Z); oASN : Z; oASOrg : str }.
Record HubIntel := mkHubIntel { Trusted : bool; Discontinued : bool; iVerifiedOwner : str; Override : option InfoOverride }.
(** The parsed advisories. *)
Record Intel := mkIntel {
  Hubs : gmap str HubIntel;
  AdviseOnlyTrustedHubs : bool; AdviseOnlyTrustedHomeHubs : bool; AdviseOnlyTrustedDestinationHubs : bool;
  HubAdvisory : list (option Endpoint); HomeHubAdvisory : list (option Endpoint); DestinationHubAdvisory : list (option Endpoint);
}.

(** ** Pins and the map *)
Record Lane := mkLane { lanePin : nat; Capacity : Z; Latency : Z; Cost : float32; active : bool }.
(** A connection to a terminal: whether it is being abandoned, and its route. *)
Record PinConnection := mkConn { Abandoning : bool; ConnRoute : list nat }.
Record Pin := mkPin {
  pHub : Hub;
  EntityV4 : option Entity; EntityV6 : option Entity; LocationV4 : option Location; LocationV6 : option Location;
  State : PinState; VerifiedOwner : str; HopDistance : Z; PinCost : float32;
  ConnectedTo : gmap str Lane; FailingUntil : Z; Connection : option PinConnection;
}.
#[export] Instance eta_Lane : Eta Lane := fun l => mkLane (lanePin l) (Capacity l) (Latency l) (Cost l) (active l).
#[export] Instance eta_Pin : Eta Pin := fun p =>
  mkPin (pHub p) (EntityV4 p) (EntityV6 p) (LocationV4 p) (LocationV6 p) (State p) (VerifiedOwner p) (HopDistance p) (PinCost p)
    (ConnectedTo p) (FailingUntil p) (Connection p).
Definition pinID (p : Pin) : str := HubID (pHub p).
(** The hub of a pin has both. *)
Definition infoOf (p : Pin) : Announcement := default (mkAnnouncement [] [] [] [] [] [] None None [] [] []) (Info (pHub p)).
Definition statusOf (p : Pin) : Status := default (mkStatus 0 [] [] [] 0 []) (HStatus (pHub p)).
Definition newPin (h : Hub) : Pin := mkPin h None None None None StateNone [] 0 (f32 0) ∅ 0 None.
Record Map := mkMap { pins : list Pin; mapAll : gmap str nat; home : option nat; intel : option Intel }.
#[export] Instance eta_Map : Eta Map := fun m => mkMap (pins m) (mapAll m) (home m) (intel m).
Definition NewMap : Map := mkMap [] ∅ None None.

Definition addStates (s : PinState) (p : Pin) : Pin := p <| State ::= fun x => Add x s |>.
Definition removeStates (s : PinState) (p : Pin) : Pin := p <| State ::= fun x => Remove x s |>.
Definition setState (on : bool) (s : PinState) (p : Pin) : Pin := if on then addStates s p else removeStates s p.
Definition onPin (i : nat) (f : Pin -> Pin) (m : Map) : Map := m <| pins ::= alter f i |>.
Definition GetPin (id : str) (m : Map) : option nat := mapAll m !! id.
Definition hasActiveTerminal (p : Pin) : bool := match Connection p with Some c => negb (Abandoning c) | None => false end.
Definition SetActiveTerminal (c : option PinConnection) (p : Pin) : Pin := p <| Connection := c |>.
Definition IsFailing (now : Z) (p : Pin) : bool := now <? FailingUntil p.
Definition MarkAsFailingFor (now duration : Z) (p : Pin) : Pin :=
  addStates StateFailing (if FailingUntil p <? now + duration then p <| FailingUntil := now + duration |> else p).
Definition ResetFailingState (now : Z) (p : Pin) : Pin :=
  let p := if now <? FailingUntil p then p <| FailingUntil := now |> else p in
  if Has (State p) StateFailing then removeStates StateFailing p else p.
Definition isEmpty (m : Map) : bool :=
  match home m with Some _ => (size (mapAll m) <=? 1)%nat | None => (size (mapAll m) =? 0)%nat end.

(** ** Costs (costs.go) *)
Definition millisecond : Z := 1000000.
Definition cap1Mbit : float32 := f32 1000000.
Definition cap10Mbit : float32 := f32 10000000.
Definition cap100Mbit : float32 := f32 100000000.
Definition cap1Gbit : float32 := f32 1000000000.
Definition cap10Gbit : float32 := f32 10000000000.
Definition capacityCost (base range : Z) (cap c : float32) : float32 :=
  fadd (f32 base) (fmul (f32 range) (fdiv (fsub cap c) cap)).
Definition CalculateLaneCost (latency capacity : Z) : float32 :=
  let cost := if latency =? 0 then f32 1000 else fdiv (f32 latency) (f32 millisecond) in
  let c := f32 capacity in
  if feqb c (f32 0) then fadd cost (f32 4000)
  else if fltb c cap1Mbit then fadd cost (capacityCost 1000 9000 cap1Mbit c)
  else if fltb c cap10Mbit then fadd cost (capacityCost 100 900 cap10Mbit c)
  else if fltb c cap100Mbit then fadd cost (capacityCost 20 80 cap100Mbit c)
  else if fltb c cap1Gbit then fadd cost (capacityCost 5 15 cap1Gbit c)
  else if fltb c cap10Gbit then fadd cost (fmul (f32 5) (fdiv (fsub cap10Gbit c) cap10Gbit))
  else cost.
Definition CalculateHubCost (load : Z) : float32 :=
  if 100 <=? load then f32 10000 else if 95 <=? load then f32 1000 else if 80 <=? load then f32 500 else f32 100.
Definition CalculateDestinationCost (proximity : float32) : float32 :=
  let distance := fsub (f32 100) proximity in
  fdiv (fmul (fmul distance distance) distance) (f32 100).

(** The table of countries of package geoip. *)
Class Countries := { countries : str -> CountryInfo }.

Section map.
Context {IE : IntelEnv} {UT : UnicodeTables} {CO : Countries}.

(** ** Iteration over maps *)
Definition laneList (c : gmap str Lane) : list Lane := omap (fun k => c !! k) (mapOrder (map_to_list c).*1).
Definition pinList (m : Map) : list nat := omap (fun k => mapAll m !! k) (mapOrder (map_to_list (mapAll m)).*1).
Definition onPins (f : Pin -> Pin) (m : Map) : Map := foldl (fun m i => onPin i f m) m (pinList m).

(** ** Reachability *)
Fixpoint visitLanes (rec : nat -> list Pin -> option (list Pin)) (lanes : list Lane) (h : list Pin) : option (list Pin) :=
  match lanes with [] => Some h | l :: lanes => h ← rec (lanePin l) h; visitLanes rec lanes h end.
(** [fuel] bounds the depth of the recursion; [None]: it is not enough. *)
Fixpoint markReachable (fuel : nat) (hopDistance : Z) (i : nat) (h : list Pin) : option (list Pin) :=
  match fuel with
  | O => None
  | S fuel =>
      match h !! i with
      | None => Some h
      | Some pin =>
          let propagate :=
            visitLanes (markReachable fuel (hopDistance + 1)) (laneList (ConnectedTo pin))
              (alter (fun p => addStates StateReachable p <| HopDistance := hopDistance |>) i h) in
          if negb (Has (State pin) StateReachable) then propagate
          else if hopDistance <? HopDistance pin then propagate
          else if HasAnyOf (State pin) StateSummaryDisregard then Some h
          else Some h
      end
  end.
Definition markFrom (hopDistance : Z) (i : nat) (m : Map) : option Map :=
  h ← markReachable (S (length (pins m))) hopDistance i (pins m); Some (m <| pins := h |>).
(** Without a home hub it fails, which is logged. *)
Definition recalculateReachableHubs (m : Map) : option Map :=
  match home m with
  | None => Some m
  | Some i => markFrom 1 i (onPins (fun p => removeStates StateReachable p <| HopDistance := 0 |>) m)
  end.

(** ** Intel *)
(** Matching does not panic ([EndpointMatch.match_spec]). *)
Definition matchList (eps : list (option Endpoint)) (e : Entity) : EPResult * Entity :=
  match Match eps e with Ret (v, e) => (v.1, e) | _ => (NoMatch, e) end.
Definition checkStatusList (state : PinState) (requireTrusted : bool) (eps : list (option Endpoint)) (p : Pin) : Pin :=
  if requireTrusted && negb (Has (State p) StateTrusted) then addStates state p else
  let '(denied, p) :=
    match EntityV4 p with
    | Some e => let '(r, e) := matchList eps e in (bool_decide (r = Denied), p <| EntityV4 := Some e |>)
    | None => (false, p)
    end in
  if denied : bool then addStates state p else
  match EntityV6 p with
  | Some e => let '(r, e) := matchList eps e in
      let p := p <| EntityV6 := Some e |> in if bool_decide (r = Denied) then addStates state p else p
  | None => p
  end.
Definition updateIntelStatuses (i : option Intel) (trustNodes : list str) (p : Pin) : Pin :=
  let p := removeStates (Add StateTrusted (Add StateUsageDiscouraged (Add StateUsageAsHomeDiscouraged StateUsageAsDestinationDiscouraged))) p in
  match i with
  | None => p
  | Some i =>
      let advisories p :=
        let p := if bool_decide (VerifiedOwner p ∈ trustNodes) then addStates StateTrusted p
                 else if bool_decide (pinID p ∈ trustNodes) then addStates StateTrusted p else p in
        let p := checkStatusList StateUsageDiscouraged (AdviseOnlyTrustedHubs i) (HubAdvisory i) p in
        let p := checkStatusList StateUsageAsHomeDiscouraged (AdviseOnlyTrustedHomeHubs i) (HomeHubAdvisory i) p in
        checkStatusList StateUsageAsDestinationDiscouraged (AdviseOnlyTrustedDestinationHubs i) (DestinationHubAdvisory i) p in
      match Hubs i !! pinID p with
      | Some hi =>
          let p := p <| VerifiedOwner := iVerifiedOwner hi |> in
          if Discontinued hi then addStates StateOffline (p <| State := StateNone |>)
          else advisories (if Trusted hi then addStates StateTrusted p else p)
      | None => advisories p
      end
  end.

(** ** Pin data *)
Definition locate (ip : IP) (id : str) : Entity * option Location :=
  let '(l, e) := GetLocation (EntityInit 0 (newEntity (Some ip) 0 0 (ToLower id ++ $".") [])) in (e, l).
(** Without a location for the IPv4 address, the IPv6 data is not updated. *)
Definition updateLocationData (p : Pin) : Pin :=
  let v6 p :=
    match IPv6 (infoOf p) with
    | Some ip => let '(e, l) := locate ip (pinID p) in p <| EntityV6 := Some e |> <| LocationV6 := l |>
    | None => p <| EntityV6 := None |> <| LocationV6 := None |>
    end in
  match IPv4 (infoOf p) with
  | Some ip =>
      let '(e, l) := locate ip (pinID p) in
      let p := p <| EntityV4 := Some e |> <| LocationV4 := l |> in
      match l with None => p | Some _ => v6 p end
  | None => v6 (p <| EntityV4 := None |> <| LocationV4 := None |>)
  end.
Definition updateStateHasRequiredInfo (p : Pin) : Pin :=
  let a := infoOf p in
  let missing := existsb (fun s => eqs s []) [AName a; AGroup a; ContactAddress a; ContactService a] ||
    match Hosters a with [] => true | h :: _ => eqs h [] end || eqs (Datacenter a) [] in
  let p := removeStates StateHasRequiredInfo p in
  if missing then p else addStates StateHasRequiredInfo p.
Definition updateStateActive (now : Z) (p : Pin) : Pin :=
  let p := removeStates StateActive p in
  if existsb (fun expires => now <? expires) (Keys (statusOf p)) then addStates StateActive p else p.
Definition updateActiveHubs (now : Z) (m : Map) : Map := onPins (updateStateActive now) m.
Definition updateFailingStates (now : Z) (m : Map) : Map :=
  onPins (fun p => if Has (State p) StateFailing && negb (IsFailing now p) then removeStates StateFailing p else p) m.
Definition ResetFailingStates (now : Z) (m : Map) : Map := onPins (ResetFailingState now) m.

(** ** Overrides *)
Definition overrideLocation (o : InfoOverride) (l : Location) : Location :=
  mkLocation (if eqs (oCountryCode o) [] then LocCountry l else countries (oCountryCode o))
    (default (Coordinates l) (oCoordinates o))
    (if oASN o =? 0 then AutonomousSystemNumber l else oASN o)
    (if eqs (oASOrg o) [] then AutonomousSystemOrganization l else oASOrg o).
(** The location of a pin is also that of its entity. *)
Definition overrideEntity (o : InfoOverride) (e : Entity) : Entity :=
  e <| location ::= fmap (overrideLocation o) |>
    <| Country ::= fun c => if eqs (oCountryCode o) [] then c else oCountryCode o |>
    <| ECoordinates ::= fun c => match oCoordinates o with Some x => Some x | None => c end |>
    <| ASN ::= fun a => if oASN o =? 0 then a else oASN o |>
    <| ASOrg ::= fun a => if eqs (oASOrg o) [] then a else oASOrg o |>.
Definition updateInfoOverrides (i : option Intel) (p : Pin) : Pin :=
  match i with
  | None => p
  | Some i =>
      match Hubs i !! pinID p ≫= Override with
      | None => p
      | Some o =>
          p <| LocationV4 ::= fmap (overrideLocation o) |> <| EntityV4 ::= fmap (overrideEntity o) |>
            <| LocationV6 ::= fmap (overrideLocation o) |> <| EntityV6 ::= fmap (overrideEntity o) |>
      end
  end.

(** ** Superseding hubs *)
Inductive supersede := supersedeNone | supersedeExisting | supersedeNew.
Definition supersedeAction (n e : Pin) : supersede :=
  if eqs (pinID n) (pinID e) then supersedeNone
  else if Has (State n) StateActive && HasNoneOf (State e) StateActive then supersedeExisting
  else if HasNoneOf (State n) StateActive && Has (State e) StateActive then supersedeNew
  else if Has (State n) StateReachable && HasNoneOf (State e) StateReachable then supersedeExisting
  else if HasNoneOf (State n) StateReachable && Has (State e) StateReachable then supersedeNew
  else if FirstSeen (pHub e) <? FirstSeen (pHub n) then supersedeExisting
  else supersedeNew.
(** Whether checking continues. *)
Definition checkAndHandleSuperseding (i j : nat) (m : Map) : bool * Map :=
  match pins m !! i, pins m !! j with
  | Some n, Some e =>
      match supersedeAction n e with
      | supersedeExisting => (true, onPin j (addStates StateSuperseded) m)
      | supersedeNew => (false, onPin i (addStates StateSuperseded) m)
      | supersedeNone => (true, m)
      end
  | _, _ => (true, m)
  end.
Definition sameIP (a b : option IP) : bool := match a, b with Some a, Some b => IPEqual a b | _, _ => false end.
Fixpoint supersedeLoop (ip : Pin -> option IP) (i : nat) (js : list nat) (m : Map) : Map :=
  match js with
  | [] => m
  | j :: js =>
      match pins m !! i, pins m !! j with
      | Some n, Some e =>
          if eqs (pinID e) (pinID n) then supersedeLoop ip i js m
          else if sameIP (ip n) (ip e) then
            let '(continueChecking, m) := checkAndHandleSuperseding i j m in
            if continueChecking : bool then supersedeLoop ip i js m else m
          else supersedeLoop ip i js m
      | _, _ => supersedeLoop ip i js m
      end
  end.
Definition updateStateSuperseded (i : nat) (m : Map) : Map :=
  let m := onPin i (removeStates StateSuperseded) m in
  let m := supersedeLoop (fun p => IPv4 (infoOf p)) i (pinList m) m in
  supersedeLoop (fun p => IPv6 (infoOf p)) i (pinList m) m.

(** ** Lanes *)
Definition minUnconfirmedLatency : Z := 10 * millisecond.
Definition maxUnconfirmedCapacity : Z := 100000000.
Definition combineLatency (a b : Z) : Z :=
  let c := if a <? b then b else a in
  if ((a =? 0) || (b =? 0)) && (c <? minUnconfirmedLatency) then minUnconfirmedLatency else c.
Definition combineCapacity (a b : Z) : Z :=
  let c := if (a =? 0) || ((0 <? b) && (b <? a)) then b else a in
  if ((a =? 0) || (b =? 0)) && (maxUnconfirmedCapacity <? c) then maxUnconfirmedCapacity else c.
Definition setLane (i : nat) (id : str) (l : Lane) (m : Map) : Map := onPin i (fun p => p <| ConnectedTo ::= <[id := l]> |>) m.
Definition dropLane (i : nat) (id : str) (m : Map) : Map := onPin i (fun p => p <| ConnectedTo ::= delete id |>) m.
(** Both pins get the lane when the peer announces it too. *)
Definition updateHubLane (i : nat) (lane : hubLane) (j : nat) (m : Map) : option Map :=
  match pins m !! i, pins m !! j with
  | Some pin, Some peer =>
      match find (fun l => eqs (LaneID l) (pinID pin)) (HubLanes (statusOf peer)) with
      | None => Some (dropLane i (pinID peer) m)
      | Some peerLane =>
          let latency := combineLatency (LaneLatency lane) (LaneLatency peerLane) in
          let capacity := combineCapacity (LaneCapacity lane) (LaneCapacity peerLane) in
          let cost := CalculateLaneCost latency capacity in
          let m := setLane i (pinID peer) (mkLane j capacity latency cost true) m in
          let m := setLane j (pinID pin) (mkLane i capacity latency cost true) m in
          m ← (if Has (State pin) StateReachable then markFrom (HopDistance pin + 1) j m else Some m);
          match pins m !! j with
          | Some peer => if Has (State peer) StateReachable then markFrom (HopDistance peer + 1) i m else Some m
          | None => Some m
          end
      end
  | _, _ => Some m
  end.
Fixpoint updateLanes (i : nat) (id : str) (lanes : list hubLane) (m : Map) : option Map :=
  match lanes with
  | [] => Some m
  | l :: lanes =>
      m ← (if eqs (LaneID l) id then Some m else
           match mapAll m !! LaneID l with None => Some m | Some j => updateHubLane i l j m end);
      updateLanes i id lanes m
  end.
(** The lanes of the pin that are not active, from both pins. *)
Definition inactiveLanes (c : gmap str Lane) : list str :=
  filter (fun k => (active <$> c !! k) = Some false) (mapOrder (map_to_list c).*1).
Definition removeLane (i : nat) (id : str) (m : Map) (k : str) : Map :=
  let m := dropLane i k m in match mapAll m !! k with Some j => dropLane j id m | None => m end.

(** ** Hubs *)
Definition VersionOffline : str := $"offline".
Definition updatePinData (now : Z) (trustNodes : list str) (i : option Intel) (p : Pin) : Pin :=
  let h := pHub p in
  let p := updateInfoOverrides i (updateLocationData p) in
  let p := p <| PinCost := CalculateHubCost (Load (statusOf p)) |> in
  let p := setState (InvalidInfo h || InvalidStatus h) StateInvalid p in
  let p := setState (HasFlag h $"offline" || eqs (SVersion (statusOf p)) VersionOffline) StateOffline p in
  let p := setState (HasFlag h $"allow-unencrypted") StateAllowUnencrypted p in
  let p := setState (HasFlag h $"net-error") StateConnectivityIssues p in
  updateStateActive now (updateStateHasRequiredInfo (updateIntelStatuses i trustNodes p)).
Definition putHub (h : Hub) (m : Map) : nat * Map :=
  match mapAll m !! HubID h with
  | Some i => (i, onPin i (fun p => p <| pHub := h |>) m)
  | None => (length (pins m), m <| pins ::= fun l => l ++ [newPin h] |> <| mapAll ::= <[HubID h := length (pins m)]> |>)
  end.
(** [None]: the fuel of the reachability search is not enough. *)
Definition updateHub (now : Z) (trustNodes : list str) (h : Hub) (m : Map) : option Map :=
  match Info h, HStatus h with
  | Some _, Some st =>
      let '(i, m) := putHub h m in
      let m := onPin i (updatePinData now trustNodes (intel m)) m in
      let m := onPin i (fun p => p <| ConnectedTo ::= fmap (fun l => l <| active := false |>) |>) m in
      m ← updateLanes i (HubID h) (HubLanes st) m;
      let removed := match pins m !! i with Some p => inactiveLanes (ConnectedTo p) | None => [] end in
      let m := foldl (removeLane i (HubID h)) m removed in
      m ← (match removed with [] => Some m | _ => recalculateReachableHubs m end);
      Some (updateStateSuperseded i m)
  | _, _ => Some m
  end.
Definition RemoveHub (id : str) (m : Map) : Map :=
  match mapAll m !! id with
  | None => m
  | Some i =>
      let m := m <| mapAll ::= delete id |> in
      match pins m !! i with
      | Some pin => foldl (fun m k => match mapAll m !! k with Some j => dropLane j (pinID pin) m | None => m end) m
          (mapOrder (map_to_list (ConnectedTo pin)).*1)
      | None => m
      end
  end.
Definition SetHome (id : str) (m : Map) : option (bool * Map) :=
  match mapAll m !! id with
  | None => Some (false, m)
  | Some i =>
      let m := onPins (removeStates StateIsHomeHub) m in
      let m := onPin i (addStates StateIsHomeHub) (m <| home := Some i |>) in
      m ← recalculateReachableHubs m; Some (true, m)
  end.
Definition UpdateIntel (i : Intel) (trustNodes : list str) (m : Map) : Map :=
  onPins (fun p => updateIntelStatuses (Some i) trustNodes (updateInfoOverrides (Some i) (updateLocationData p))) (m <| intel := Some i |>).
Definition Obsolete (now : Z) (h : Hub) : bool :=
  let valid := negb (InvalidInfo h || InvalidStatus h || HasFlag h $"offline") in
  let ts := match HStatus h with Some s => Timestamp s | None => 0 end in
  let lastSeen := if ts =? 0 then FirstSeen h else ts in
  lastSeen <? now - (if valid then obsoleteValidAfter else obsoleteInvalidAfter).
(** The hubs to delete, which happens later, and the map. *)
Definition updateStates (now : Z) (m : Map) : option (list str * Map) :=
  let obsolete i := p ← pins m !! i;
    if match intel m with Some it => match Hubs it !! pinID p with Some hi => Discontinued hi | None => false end | None => false end
       || (HasNoneOf (State p) StateActive && Obsolete now (pHub p))
    then Some (pinID p) else None in
  let toDelete := omap obsolete (pinList m) in
  m ← recalculateReachableHubs (updateActiveHubs now m); Some (toDelete, m).
End map.
