(* ===== verification/NavReach.v ===== *)
(** * Reachability on the map

    [markReachable] explores the lanes depth first and comes back to a pin when it
    finds a shorter way.  The pins on the stack of calls are the ones whose lanes need
    not agree with their hop distance; [marked] is what one call gives. *)

From S2P Require Import Prelude GoStrings GoText GoNet NetUtils Entity Endpoints GoNum NavMap.

(** A pin without its reachability. *)
Definition core (p : Pin) : Pin := p <| State ::= fun s => Remove s StateReachable |> <| HopDistance := 0 |>.
Lemma bit_reachable n : Z.testbit StateReachable n = bool_decide (n = 5).
Proof.
  change StateReachable with (2 ^ 5). case_bool_decide as E; [subst; reflexivity|]. apply Z.pow2_bits_false. lia.
Qed.
Lemma Has_reachable s : Has s StateReachable = Z.testbit s 5.
Proof.
  unfold Has. destruct (Z.testbit s 5) eqn:E.
  - apply Z.eqb_eq, Z.bits_inj'. intros n _. rewrite Z.land_spec, bit_reachable. case_bool_decide as Hn; [subst; by rewrite E|by rewrite andb_false_r].
  - apply Z.eqb_neq. intros H. apply (f_equal (fun z => Z.testbit z 5)) in H. rewrite Z.land_spec, E in H. done.
Qed.
Lemma Remove_Add s : Remove (Add s StateReachable) StateReachable = Remove s StateReachable.
Proof.
  apply Z.bits_inj'. intros n Hn. unfold Remove, Add. rewrite !Z.ldiff_spec, Z.lor_spec.
  by destruct (Z.testbit s n), (Z.testbit StateReachable n).
Qed.
Lemma Remove_idem s : Remove (Remove s StateReachable) StateReachable = Remove s StateReachable.
Proof.
  apply Z.bits_inj'. intros n Hn. unfold Remove. rewrite !Z.ldiff_spec.
  by destruct (Z.testbit s n), (Z.testbit StateReachable n).
Qed.
Lemma Has_Add s : Has (Add s StateReachable) StateReachable = true.
Proof. rewrite Has_reachable. unfold Add. by rewrite Z.lor_spec, bit_reachable, orb_true_r. Qed.
Lemma Has_Remove s : Has (Remove s StateReachable) StateReachable = false.
Proof. rewrite Has_reachable. unfold Remove. by rewrite Z.ldiff_spec, bit_reachable, andb_false_r. Qed.

Section reach.
Context {IE : IntelEnv}.
Context (Hord : forall ks, mapOrder ks ≡ₚ ks).
Definition mark (d : Z) (p : Pin) : Pin := addStates StateReachable p <| HopDistance := d |>.
Definition edge (h : list Pin) (a b : nat) : Prop := exists p k l, h !! a = Some p /\ ConnectedTo p !! k = Some l /\ lanePin l = b.
Definition reach (h : list Pin) (i : nat) : Prop := exists p, h !! i = Some p /\ Has (State p) StateReachable = true.
Definition dist (h : list Pin) (i : nat) : Z := from_option HopDistance 0 (h !! i).
Definition sim (h h' : list Pin) : Prop := core <$> h' = core <$> h.
Definition better (h h' : list Pin) : Prop := sim h h' /\ (forall i, reach h i -> reach h' i /\ dist h' i <= dist h i) /\
  forall i, h' !! i = h !! i \/ reach h' i.

Lemma elem_of_laneList (c : gmap str Lane) l : l ∈ laneList c <-> exists k, c !! k = Some l.
Proof.
  unfold laneList. rewrite list_elem_of_omap. split; intros (k & H).
  - destruct H as [_ H]. by exists k.
  - exists k. split; [|done]. rewrite Hord. apply list_elem_of_fmap. exists (k, l). split; [done|]. by apply elem_of_map_to_list.
Qed.
Lemma sim_lookup h h' i p : sim h h' -> h !! i = Some p -> exists p', h' !! i = Some p' /\ core p' = core p.
Proof.
  intros Hs Hi. apply (f_equal (.!! i)) in Hs. rewrite !list_lookup_fmap, Hi in Hs.
  destruct (h' !! i) as [p'|]; [|done]. apply (inj Some) in Hs. by exists p'.
Qed.
Lemma sim_refl h : sim h h. Proof. done. Qed.
Lemma sim_sym h h' : sim h h' -> sim h' h. Proof. unfold sim. congruence. Qed.
Lemma sim_trans h1 h2 h3 : sim h1 h2 -> sim h2 h3 -> sim h1 h3. Proof. unfold sim. congruence. Qed.
Lemma sim_length h h' : sim h h' -> length h' = length h.
Proof. intros Hs. apply (f_equal length) in Hs. by rewrite !length_fmap in Hs. Qed.
Lemma core_lanes p p' : core p' = core p -> ConnectedTo p' = ConnectedTo p.
Proof. intros E. by apply (f_equal ConnectedTo) in E. Qed.
Lemma sim_edge h h' a b : sim h h' -> edge h a b <-> edge h' a b.
Proof.
  assert (forall h h', sim h h' -> edge h a b -> edge h' a b) as H; [|intros Hs; split; apply H; [done|by apply sim_sym]].
  intros h1 h2 Hs (p & k & l & Hp & Hk & Hl). destruct (sim_lookup _ _ _ _ Hs Hp) as (p' & Hp' & Hc).
  exists p', k, l. by rewrite (core_lanes _ _ Hc).
Qed.
Lemma better_refl h : better h h.
Proof. split; [done|]. split; [|by left]. intros i Hi. split; [done|lia]. Qed.
Lemma better_trans h1 h2 h3 : better h1 h2 -> better h2 h3 -> better h1 h3.
Proof.
  intros (S1 & H1 & U1) (S2 & H2 & U2). split; [by eapply sim_trans|]. split.
  - intros i Hi. destruct (H1 i Hi) as [Hi2 ?]. destruct (H2 i Hi2) as [? ?]. split; [done|lia].
  - intros i. destruct (U2 i) as [E2|]; [|by right]. destruct (U1 i) as [E1|Hr]; [left; congruence|]. right. by apply H2.
Qed.
(** Marking one pin. *)
Lemma mark_sim h i d : sim h (alter (mark d) i h).
Proof.
  unfold sim. apply list_eq. intros j. rewrite !list_lookup_fmap.
  destruct (decide (i = j)) as [<-|Hne]; [|by rewrite list_lookup_alter_ne].
  rewrite list_lookup_alter_eq. destruct (h !! i) as [p|]; [|done]. cbn. f_equal. unfold core, mark, addStates. destruct p. cbn.
  f_equal. apply Remove_Add.
Qed.
Lemma mark_reach h i d j : reach (alter (mark d) i h) j <-> (i = j /\ (i < length h)%nat) \/ reach h j.
Proof.
  unfold reach. destruct (decide (i = j)) as [<-|Hne].
  - rewrite list_lookup_alter_eq. split.
    + intros (p & Hp & _). destruct (h !! i) eqn:E; [|done]. left. split; [done|]. by eapply lookup_lt_Some.
    + intros [[_ Hi]|(p & Hp & _)].
      * apply lookup_lt_is_Some in Hi as [p Hp]. rewrite Hp. eexists. split; [done|]. apply Has_Add.
      * rewrite Hp. eexists. split; [done|]. apply Has_Add.
  - rewrite list_lookup_alter_ne by done. split; [by right|]. by intros [[? _]|].
Qed.
Lemma mark_dist h i d j : dist (alter (mark d) i h) j = if bool_decide (i = j /\ (i < length h)%nat) then d else dist h j.
Proof.
  unfold dist. destruct (decide (i = j)) as [<-|Hne].
  - rewrite list_lookup_alter_eq. destruct (h !! i) eqn:E.
    + rewrite bool_decide_true; [done|]. split; [done|]. by eapply lookup_lt_Some.
    + rewrite bool_decide_false; [done|]. apply lookup_ge_None in E. intros [_ ?]. lia.
  - rewrite list_lookup_alter_ne by done. by rewrite bool_decide_false by tauto.
Qed.

(** ** One call *)
Section call.
Context (sound : nat -> Z -> Prop) (h0 : list Pin).
(** A pin that was marked before is entered only over fewer lanes. *)
Definition enters (i : nat) (d : Z) : Prop := reach h0 i -> d < dist h0 i.
Context (Hsound : forall i d j, sound i d -> edge h0 i j -> enters j (d + 1) -> sound j (d + 1)).
Context (Hvalid : forall i j, edge h0 i j -> (j < length h0)%nat).
(** The pin was entered. *)
Definition opened (h : list Pin) (i : nat) : Prop := reach h i /\ enters i (dist h i).
(** The lanes of [i] agree with its distance. *)
Definition relaxed (h : list Pin) (i : nat) : Prop :=
  opened h i -> forall j, edge h i j -> reach h j /\ dist h j <= dist h i + 1.
Definition allSound (h : list Pin) : Prop := forall i, opened h i -> sound i (dist h i).
(** With the pins [S] on the stack, all nearer than [d]. *)
Record before (S : list nat) (d : Z) (h : list Pin) : Prop := {
  b_better : better h0 h;
  b_relaxed : forall i, i ∉ S -> relaxed h i;
  b_stack : forall i, i ∈ S -> reach h i /\ dist h i < d;
  b_sound : allSound h;
}.
Definition marked (S : list nat) (h h' : list Pin) : Prop :=
  better h h' /\ (forall i, i ∈ S -> dist h' i = dist h i) /\ (forall i, i ∉ S -> relaxed h' i) /\ allSound h'.
Definition callOk (S : list nat) (d : Z) (rec : nat -> list Pin -> option (list Pin)) : Prop :=
  forall i h, (i < length h0)%nat -> before S d h -> (enters i d -> sound i d) ->
    exists h', rec i h = Some h' /\ marked S h h' /\ reach h' i /\ dist h' i <= d.

Lemma marked_before S d h h' : before S d h -> marked S h h' -> before S d h'.
Proof.
  intros [H1 H2 H3 H4] (Hb & Hd & Hr & Hs). split; [by eapply better_trans|done| |done].
  intros i Hi. destruct (H3 i Hi) as [Hri Hdi]. destruct (proj1 (proj2 Hb) i Hri) as [? _]. split; [done|]. by rewrite Hd.
Qed.
Lemma marked_refl S d h : before S d h -> marked S h h.
Proof. intros [H1 H2 H3 H4]. split; [apply better_refl|]. auto. Qed.
Lemma marked_trans S h1 h2 h3 : marked S h1 h2 -> marked S h2 h3 -> marked S h1 h3.
Proof.
  intros (B1 & D1 & R1 & S1) (B2 & D2 & R2 & S2). split; [by eapply better_trans|]. split; [|done]. intros i Hi. by rewrite D2, D1.
Qed.
Lemma visit_ok S d rec ls : callOk S d rec -> forall h, before S d h ->
  (forall l, l ∈ ls -> (lanePin l < length h0)%nat /\ (enters (lanePin l) d -> sound (lanePin l) d)) ->
  exists h', visitLanes rec ls h = Some h' /\ marked S h h' /\ forall l, l ∈ ls -> reach h' (lanePin l) /\ dist h' (lanePin l) <= d.
Proof.
  intros Hrec. induction ls as [|l ls IH]; intros h Hb Hls.
  { exists h. split; [done|]. split; [by eapply marked_refl|]. intros l Hl. by apply not_elem_of_nil in Hl. }
  destruct (Hls l ltac:(left)) as [Hv Hs]. destruct (Hrec (lanePin l) h Hv Hb Hs) as (h1 & E1 & M1 & Hr1 & Hd1).
  destruct (IH h1) as (h2 & E2 & M2 & Hls2); [by eapply marked_before|intros; apply Hls; by right|].
  exists h2. split; [simpl; by rewrite E1|]. split; [by eapply marked_trans|].
  intros l' [->|Hl']%elem_of_cons; [|by apply Hls2]. destruct M2 as ((_ & Hb2 & _) & _). destruct (Hb2 _ Hr1). split; [done|lia].
Qed.
Lemma stack_bound i (S : list nat) n : NoDup S -> i ∉ S -> (i < n)%nat -> (forall j, j ∈ S -> (j < n)%nat) -> (length S < n)%nat.
Proof.
  intros Hn Hi Hin HS. assert (length (i :: S) <= length (seq 0 n))%nat as H; [|rewrite length_seq in H; simpl in H; lia].
  apply submseteq_length, NoDup_submseteq; [by constructor|]. intros j Hj. apply elem_of_seq.
  apply elem_of_cons in Hj as [->|Hj]; [lia|]. specialize (HS j Hj). lia.
Qed.
Lemma mark_opened h i d j : i <> j -> opened (alter (mark d) i h) j <-> opened h j.
Proof.
  intros Hne. unfold opened. rewrite mark_reach, mark_dist, bool_decide_false by (by intros [? _]). split; [|tauto].
  by intros [[[? _]|?] ?].
Qed.
Lemma mark_better h i d : (reach h i -> d < dist h i) -> better h (alter (mark d) i h).
Proof.
  intros Hd. split; [apply mark_sim|]. split.
  - intros j Hj. split; [apply mark_reach; by right|]. rewrite mark_dist. case_bool_decide as E; [|lia]. destruct E as [<- _]. specialize (Hd Hj). lia.
  - intros j. destruct (decide (i = j)) as [<-|Hne]; [|left; by apply list_lookup_alter_ne].
    destruct (decide (i < length h)%nat); [right; apply mark_reach; by left|]. left. rewrite list_lookup_alter_eq.
    by rewrite (lookup_ge_None_2 h i) by lia.
Qed.
Lemma push_ok S d h i : before S d h -> i ∉ S -> (i < length h0)%nat -> sound i d -> (reach h i -> d < dist h i) ->
  before (i :: S) (d + 1) (alter (mark d) i h).
Proof.
  intros [H1 H2 H3 H4] Hi Hv Hs Hd. assert (i < length h)%nat as Hv' by (by rewrite (sim_length _ _ (proj1 H1))).
  pose proof (mark_better h i d Hd) as Hb. split.
  - by eapply better_trans.
  - intros j [Hne Hj]%not_elem_of_cons Hoj k Hk. apply mark_opened in Hoj; [|done].
    rewrite <- (sim_edge _ _ _ _ (mark_sim h i d)) in Hk. destruct (H2 j Hj Hoj k Hk) as [Hrk Hdk].
    destruct (proj1 (proj2 Hb) k Hrk) as [Hrk' Hdk']. split; [done|].
    rewrite (mark_dist h i d j), (bool_decide_false (i = j /\ _)) by (intros [? _]; by subst). lia.
  - intros j [->|Hj]%elem_of_cons.
    + split; [apply mark_reach; by left|]. rewrite mark_dist, bool_decide_true by done. lia.
    + destruct (H3 j Hj). split; [by apply Hb|]. rewrite mark_dist, bool_decide_false; [lia|]. intros [-> _]. done.
  - intros j Hj. destruct (decide (i = j)) as [<-|Hne].
    + by rewrite mark_dist, bool_decide_true.
    + apply mark_opened in Hj; [|done]. rewrite mark_dist, bool_decide_false by (by intros [? _]). by apply H4.
Qed.
Lemma propagate_ok fuel S d h i pin : callOk (i :: S) (d + 1) (markReachable fuel (d + 1)) -> before S d h -> i ∉ S ->
  (i < length h0)%nat -> sound i d -> (reach h i -> d < dist h i) -> h !! i = Some pin ->
  exists h', visitLanes (markReachable fuel (d + 1)) (laneList (ConnectedTo pin)) (alter (mark d) i h) = Some h' /\
    marked S h h' /\ reach h' i /\ dist h' i <= d.
Proof.
  intros Hrec Hb Hi Hv Hs Hd Hp. pose proof (push_ok S d h i Hb Hi Hv Hs Hd) as Hb1. pose proof (mark_better h i d Hd) as Hbe.
  pose proof (proj1 (b_better _ _ _ Hb)) as Hsim. assert (i < length h)%nat as Hv' by (by rewrite (sim_length _ _ Hsim)).
  assert (forall l, l ∈ laneList (ConnectedTo pin) -> edge h0 i (lanePin l)) as Hedge.
  { intros l [k Hk]%elem_of_laneList. apply (sim_edge _ _ _ _ Hsim). by exists pin, k, l. }
  destruct (visit_ok (i :: S) (d + 1) _ (laneList (ConnectedTo pin)) Hrec _ Hb1) as (h' & E & (Hb2 & Hd2 & Hr2 & Hs2) & Hl).
  { intros l Hl. apply Hedge in Hl. split; [by eapply Hvalid|]. intros He. by eapply Hsound. }
  exists h'. split; [done|]. assert (reach h' i /\ dist h' i = d) as [Hri Hdi].
  { split; [apply Hb2, mark_reach; by left|]. rewrite Hd2 by left. by rewrite mark_dist, bool_decide_true by done. }
  split; [|split; [done|lia]]. split; [by eapply better_trans|]. split; [|split; [|done]].
  - intros j Hj. rewrite Hd2 by (by right). rewrite mark_dist, bool_decide_false; [done|]. by intros [-> _].
  - intros j Hj. destruct (decide (j = i)) as [->|Hne]; [|apply Hr2; by rewrite not_elem_of_cons].
    intros _ k Hk. rewrite <- (sim_edge _ _ _ _ (proj1 Hb2)), <- (sim_edge _ _ _ _ (mark_sim h i d)) in Hk.
    destruct Hk as (pin' & key & l & Hp' & Hk & <-). rewrite Hp in Hp'. injection Hp' as <-.
    rewrite Hdi. apply Hl. apply elem_of_laneList. by exists key.
Qed.
Lemma mark_ok fuel : forall S d, NoDup S -> (forall i, i ∈ S -> (i < length h0)%nat) -> (length h0 - length S < fuel)%nat ->
  callOk S d (markReachable fuel d).
Proof.
  induction fuel as [|fuel IH]; intros S d Hn HS Hf i h Hi Hb Hs; [lia|]. cbn [markReachable].
  pose proof (b_better _ _ _ Hb) as (Hsim & Hle & _). assert (i < length h)%nat as Hi' by (by rewrite (sim_length _ _ Hsim)).
  apply lookup_lt_is_Some in Hi' as [pin Hp]. rewrite Hp.
  assert (reach h i <-> Has (State pin) StateReachable = true) as Hr.
  { split; [intros (p & Hp' & ?); congruence|]. intros ?. by exists pin. }
  assert (dist h i = HopDistance pin) as Hd by (unfold dist; by rewrite Hp).
  destruct (Has (State pin) StateReachable && negb (d <? HopDistance pin)) eqn:E.
  - apply andb_true_iff in E as [Eh Ed]. rewrite Eh. apply negb_true_iff in Ed. rewrite Ed. cbn [negb].
    exists h. split; [by destruct (HasAnyOf _ _)|]. split; [by eapply marked_refl|]. apply Hr in Eh. apply Z.ltb_ge in Ed. split; [done|lia].
  - assert (reach h i -> d < dist h i) as Hlt.
    { intros Hri. apply Hr in Hri. rewrite Hri in E. cbn [andb] in E. apply negb_false_iff, Z.ltb_lt in E. lia. }
    assert (i ∉ S) as HiS by (intros HiS; destruct (b_stack _ _ _ Hb i HiS) as [? ?]; specialize (Hlt ltac:(done)); lia).
    assert (enters i d) as He by (intros H0; destruct (Hle i H0) as [Hri ?]; specialize (Hlt Hri); lia).
    pose proof (stack_bound i S (length h0) Hn HiS Hi HS).
    destruct (propagate_ok fuel S d h i pin) as (h' & E' & Hm); auto.
    { apply IH; [by constructor| |simpl; lia]. intros j [->|Hj]%elem_of_cons; [done|by apply HS]. }
    exists h'. split; [|done]. unfold mark in E'. cbv zeta. rewrite E'. destruct (Has (State pin) StateReachable); [|done]. cbn [negb andb] in *. apply negb_false_iff in E. by rewrite E.
Qed.
End call.
End reach.

(** ** The whole map *)
Definition inMap (m : Map) (i : nat) : Prop := exists id, mapAll m !! id = Some i.
(** Pointers lead to pins. *)
Record valid (m : Map) : Prop := {
  v_pins : forall i, inMap m i -> (i < length (pins m))%nat;
  v_home : forall i, home m = Some i -> (i < length (pins m))%nat;
  v_lanes : forall i j, edge (pins m) i j -> (j < length (pins m))%nat;
}.
(** The search enters a pin at a distance: those on the map are entered whenever it is the
    least; one that was removed keeps its mark, and is entered only below its old distance. *)
Definition admits (m : Map) (i : nat) (d : Z) : Prop :=
  inMap m i \/ (reach (pins m) i -> d < dist (pins m) i).
Inductive walk (m : Map) (i0 : nat) : nat -> nat -> Prop :=
| walk_home : admits m i0 1 -> walk m i0 0 i0
| walk_lane n i j : walk m i0 n i -> edge (pins m) i j -> admits m j (2 + Z.of_nat n) -> walk m i0 (S n) j.
(** The least number of lanes from [a] to [b] is [n]. *)
Definition nearest (m : Map) (a b n : nat) : Prop :=
  walk m a n b /\ forall n', walk m a n' b -> (n <= n')%nat.
(** All lanes of pins on the map lead to pins on the map. *)
Definition closed (m : Map) : Prop := forall i j, inMap m i -> edge (pins m) i j -> inMap m j.
Lemma closed_walk m i0 n i : closed m -> inMap m i0 -> walk m i0 n i <-> nsteps (edge (pins m)) n i0 i.
Proof.
  intros Hc Hi0. split.
  - induction 1 as [|n i j _ IH He _]; [constructor|by eapply nsteps_r].
  - enough (nsteps (edge (pins m)) n i0 i -> walk m i0 n i /\ inMap m i) as H by (intros Hn; by apply H).
    revert i. induction n as [|n IH]; intros i Hn.
    + inversion Hn; subst. split; [|done]. constructor. by left.
    + apply nsteps_inv_r in Hn as (c & Hn & He). destruct (IH c Hn) as [Hw Hm]. pose proof (Hc c i Hm He) as Hi. split; [|done].
      eapply walk_lane; [done..|]. by left.
Qed.
Section recalculate.
Context {IE : IntelEnv}.
Context (Hord : forall ks, mapOrder ks ≡ₚ ks).
Lemma elem_of_pinList m i : i ∈ pinList m <-> inMap m i.
Proof.
  unfold pinList. rewrite list_elem_of_omap. split; intros (k & H).
  - destruct H as [_ H]. by exists k.
  - exists k. split; [|done]. rewrite Hord. apply list_elem_of_fmap. exists (k, i). split; [done|]. by apply elem_of_map_to_list.
Qed.
Lemma onPins_lookup f m i : (forall p, f (f p) = f p) -> pins (onPins f m) !! i = (if bool_decide (i ∈ pinList m) then f else id) <$> pins m !! i.
Proof.
  intros Hf. unfold onPins. generalize (pinList m) as l. intros l. revert m.
  induction l as [|j l IH]; intros m; [simpl; by rewrite option_fmap_id|]. simpl foldl. rewrite IH.
  change (pins (onPin j f m)) with (alter f j (pins m)).
  destruct (decide (i = j)) as [->|Hne].
  - rewrite list_lookup_alter_eq. rewrite (bool_decide_true (j ∈ j :: l)) by left. destruct (pins m !! j) as [p|]; [|done].
    simpl. case_bool_decide; by rewrite ?Hf.
  - rewrite list_lookup_alter_ne by done. by rewrite (bool_decide_ext (i ∈ j :: l) (i ∈ l)) by (rewrite elem_of_cons; tauto).
Qed.
Lemma onPins_rest f m : mapAll (onPins f m) = mapAll m /\ home (onPins f m) = home m /\ intel (onPins f m) = intel m.
Proof. unfold onPins. generalize (pinList m) as l. intros l. revert m. induction l as [|j l IH]; intros m; [done|].
  destruct (IH (onPin j f m)) as (H1 & H2 & H3). done.
Qed.
Lemma core_idem p : core (core p) = core p.
Proof. destruct p. unfold core. cbn. f_equal. apply Remove_idem. Qed.
Definition reset (m : Map) : Map := onPins core m.
Lemma reset_sim m : sim (pins m) (pins (reset m)).
Proof.
  apply list_eq. intros i. rewrite !list_lookup_fmap. unfold reset. rewrite onPins_lookup by apply core_idem.
  destruct (pins m !! i) as [p|]; [|done]. case_bool_decide; simpl; by rewrite ?core_idem.
Qed.
Lemma reset_fresh m i : inMap m i -> pins (reset m) !! i = core <$> pins m !! i.
Proof. intros Hi. unfold reset. rewrite onPins_lookup by apply core_idem. by rewrite bool_decide_true by (by apply elem_of_pinList). Qed.
(** Only pins that are not on the map keep their marks. *)
Lemma reset_enters m i d : (forall i, inMap m i -> (i < length (pins m))%nat) -> enters (pins (reset m)) i d <-> admits m i d.
Proof.
  intros Hv. unfold enters, admits. destruct (decide (i ∈ pinList m)) as [Hi%elem_of_pinList|Hi].
  - split; [by left|]. intros _ (p & Hp & Hr). rewrite reset_fresh in Hp by done. destruct (Hv i Hi) as [].
    + destruct (pins m !! i); [|done]. injection Hp as <-. unfold core in Hr. cbn in Hr. by rewrite Has_Remove in Hr.
    + destruct (pins m !! i); [|done]. injection Hp as <-. unfold core in Hr. cbn in Hr. by rewrite Has_Remove in Hr.
  - unfold reach, dist, reset. rewrite onPins_lookup, bool_decide_false, option_fmap_id by (done || apply core_idem).
    split; [by right|]. intros [Hm|H]; [by apply elem_of_pinList in Hm|done].
Qed.

Lemma recalculate_ok m i0 : home m = Some i0 -> valid m ->
  exists h', recalculateReachableHubs m = Some ((reset m) <| pins := h' |>) /\ sim (pins m) h' /\
    (forall i, h' !! i = pins (reset m) !! i \/ reach h' i) /\
    (forall i, opened (pins (reset m)) h' i -> exists n, walk m i0 n i /\ dist h' i = 1 + Z.of_nat n) /\
    (forall n i, walk m i0 n i -> opened (pins (reset m)) h' i /\ dist h' i <= 1 + Z.of_nat n).
Proof.
  intros Hh [Hv1 Hv2 Hv3]. set (h0 := pins (reset m)). set (sound := fun i d => exists n, walk m i0 n i /\ d = 1 + Z.of_nat n).
  assert (forall i j, edge h0 i j <-> edge (pins m) i j) as He by (intros; symmetry; apply sim_edge, reset_sim).
  assert (length h0 = length (pins m)) as Hlen by apply (sim_length _ _ (reset_sim m)).
  assert (forall i d, enters h0 i d <-> admits m i d) as Hadm by (intros; by apply reset_enters).
  destruct (mark_ok Hord sound h0) with (fuel := S (length h0)) (S := @nil nat) (d := 1) (i := i0) (h := h0)
    as (h' & E & ((Hs & Hb & Hu) & _ & Hrel & Hsnd) & Hr0 & Hd0).
  - intros i d j (n & Hn & ->) Hj Hen. exists (S n). split; [|lia]. apply (walk_lane m i0 n i j); [done|by apply He|].
    apply Hadm. by replace (2 + Z.of_nat n) with (1 + Z.of_nat n + 1) by lia.
  - intros i j Hj%He. rewrite Hlen. by eapply Hv3.
  - constructor.
  - intros i Hi. by apply not_elem_of_nil in Hi.
  - lia.
  - rewrite Hlen. by apply Hv2.
  - split; [apply better_refl| | |].
    + intros i _ [Hr Hen]. specialize (Hen Hr). lia.
    + intros i Hi. by apply not_elem_of_nil in Hi.
    + intros i [Hr Hen]. specialize (Hen Hr). lia.
  - intros Hen. exists 0%nat. split; [|done]. constructor. by apply Hadm.
  - exists h'. split; [|split; [|split; [done|split; [exact Hsnd|]]]].
    + unfold recalculateReachableHubs. rewrite Hh. unfold markFrom. change (onPins _ m) with (reset m).
      change (pins (reset m)) with h0. by rewrite E.
    + eapply sim_trans; [apply reset_sim|done].
    + intros n i Hw. induction Hw as [Ha|n i j Hw IH Hij Ha].
      * split; [|simpl; lia]. split; [done|]. intros H0. apply Hadm in Ha. specialize (Ha H0). lia.
      * destruct IH as [Ho Hd]. destruct (Hrel i (not_elem_of_nil _) Ho j) as [Hrj Hdj].
        { apply (sim_edge _ _ _ _ Hs). by apply He. }
        split; [|lia]. split; [done|]. intros H0. apply Hadm in Ha. specialize (Ha H0). lia.
Qed.
End recalculate.

(** C25. Recalculating reachability ends, and for every pin on the map: it is marked as
    reachable, with one more than the least number of lanes from the home hub as its
    hop distance, or no way leads to it and it is not; nothing else about it changes.
    Ways are over lanes.  They may lead over pins that were removed from the map but are
    still the end of a lane ([remove_hub_lanes]); the mark of such a pin is not reset, and
    with it a pin is passed only at less than its old distance.  On a map that is closed,
    all its lanes leading to pins on it, every way over lanes counts. *)
Theorem reachable_spec `{IntelEnv} m i0 : (forall ks, mapOrder ks ≡ₚ ks) -> home m = Some i0 -> valid m ->
  (exists m', recalculateReachableHubs m = Some m' /\
    (mapAll m' = mapAll m /\ home m' = home m /\ intel m' = intel m) /\
    forall i, inMap m i -> exists p p', pins m !! i = Some p /\ pins m' !! i = Some p' /\ core p' = core p /\
      ((exists n, nearest m i0 i n /\ Has (State p') StateReachable = true /\ HopDistance p' = 1 + Z.of_nat n) \/
       ((forall n, ~ walk m i0 n i) /\ Has (State p') StateReachable = false /\ HopDistance p' = 0))) /\
  (closed m -> inMap m i0 -> forall n i, walk m i0 n i <-> nsteps (edge (pins m)) n i0 i).
Proof.
  intros Hord Hh Hv. split; [|intros Hc Hi0 n i; by apply closed_walk].
  destruct (recalculate_ok Hord m i0 Hh Hv) as (h' & E & Hs & Hu & Hsnd & Hcomp).
  eexists. split; [exact E|]. split; [exact (onPins_rest core m)|]. intros i Hi.
  pose proof (v_pins _ Hv i Hi) as Hlt. apply lookup_lt_is_Some in Hlt as [p Hp].
  destruct (sim_lookup _ _ _ _ Hs Hp) as (p' & Hp' & Hcore). exists p, p'. split; [done|]. split; [done|]. split; [done|].
  assert (forall d, enters (pins (reset m)) i d) as Hen by (intros d; apply (reset_enters Hord); [apply Hv|by left]).
  destruct (Has (State p') StateReachable) eqn:Er.
  - left. assert (opened (pins (reset m)) h' i) as Ho by (split; [by exists p'|done]). destruct (Hsnd i Ho) as (n & Hn & Hd). unfold dist in *.
    rewrite Hp' in Hd. exists n. split; [|done]. split; [done|]. intros n' Hn'. destruct (Hcomp n' i Hn') as [_ Hle].
    rewrite Hp' in Hle. simpl in *. lia.
  - right. split; [|split; [done|]].
    + intros n Hn. destruct (Hcomp n i Hn) as [[(q & Hq & Hqr) _] _]. congruence.
    + destruct (Hu i) as [Hsame|(q & Hq & Hqr)]; [|congruence]. rewrite Hp', reset_fresh, Hp in Hsame by done. by injection Hsame as ->.
Qed.
