(* ===== verification/NavRoutes.v ===== *)
(** * Finding hubs and routes (spn/navigator: options.go, findnearest.go, findroutes.go,
    route.go, routing-profiles.go)

    Matching hubs loads data into the entities of their pins, which does not change
    later results ([EndpointMatch.match_multi_spec]), and is left out here.  Random
    numbers, sorting of long lists and the proximity of locations are parameters. *)

From S2P Require Import Prelude GoStrings GoText GoNet NetUtils Entity Endpoints GoNum NavMap.

Class NavEnv := {
  shuffle : forall A, list A -> list A;
  (** [sort.Sort] of more than twelve elements. *)
  pdqsort : forall A, (A -> A -> bool) -> list A -> list A;
  EstimateNetworkProximity : Location -> Location -> float32;
  IsAnycast : Location -> bool;
}.
Class NavLaws (NE : NavEnv) : Prop := {
  shuffle_perm : forall A (l : list A), shuffle A l ≡ₚ l;
  pdqsort_perm : forall A less (l : list A), pdqsort A less l ≡ₚ l;
}.

(** ** Options *)
Inductive HubType := HomeHub | TransitHub | DestinationHub.
#[export] Instance HubType_eq_dec : EqDecision HubType.
Proof. solve_decision. Defined.
Abbreviation Policy := (list (option Endpoint)).
Record HubOptions := mkHubOptions {
  Regard : PinState; Disregard : PinState; NoDefaults : bool; HubPolicies : list Policy;
  RequireVerifiedOwners : list str; CheckHubPolicyWith : option Entity;
}.
Definition emptyHubOptions : HubOptions := mkHubOptions 0 0 false [] [] None.
Record Options := mkOptions {
  Home : option HubOptions; Transit : option HubOptions; Destination : option HubOptions; optRoutingProfile : str;
}.
#[export] Instance eta_Options : Eta Options := fun o => mkOptions (Home o) (Transit o) (Destination o) (optRoutingProfile o).
Definition HubPoliciesAreSet (policies : list Policy) : bool := existsb EndpointsIsSet policies.

Section navigator.
Context {IE : IntelEnv} {UT : UnicodeTables} {NE : NavEnv}.

(** ** Matching hubs *)
Definition regardFor (o : HubOptions) (t : HubType) : PinState :=
  if NoDefaults o then Regard o else
  let r := Add (Regard o) StateSummaryRegard in
  match t with HomeHub => Remove (Remove r StateReachable) StateActive | _ => r end.
Definition disregardFor (o : HubOptions) (t : HubType) : PinState :=
  if NoDefaults o then Disregard o else
  let d := Add (Disregard o) StateSummaryDisregard in
  match t with
  | HomeHub => Remove (Add d StateUsageAsHomeDiscouraged) StateIsHomeHub
  | TransitHub => d
  | DestinationHub => Add (Add d StateUsageAsDestinationDiscouraged) StateConnectivityIssues
  end.
Definition policiesFor (o : HubOptions) (t : HubType) (i : option Intel) : list Policy :=
  HubPolicies o ++
  match i with
  | None => []
  | Some i =>
      match t with
      | HomeHub => [HubAdvisory i; HomeHubAdvisory i]
      | TransitHub => [HubAdvisory i]
      | DestinationHub => [HubAdvisory i; DestinationHubAdvisory i]
      end
  end.
(** A policy that permits ends the check. *)
Fixpoint policyCheck (policies : list Policy) (p : Pin) : bool :=
  match policies with
  | [] => true
  | policy :: policies =>
      if negb (EndpointsIsSet policy) then policyCheck policies p else
      match MatchMulti policy [EntityV4 p; EntityV6 p] with
      | Ret (v, _) =>
          match v.1 with
          | NoMatch | MatchError => policyCheck policies p
          | Denied => false
          | Permitted => true
          end
      | _ => policyCheck policies p
      end
  end.
Definition endpointListMatch (l : Policy) (e : option Entity) : EPResult :=
  match e with Some e => if EndpointsIsSet l then (matchList l e).1 else NoMatch | None => NoMatch end.
Definition hubMatcher (o : option HubOptions) (t : HubType) (i : option Intel) (p : Pin) : bool :=
  let o := default emptyHubOptions o in
  if negb (Has (State p) (regardFor o t)) || HasAnyOf (State p) (disregardFor o t) then false
  else if negb (bool_decide (RequireVerifiedOwners o = [])) &&
    (eqs (VerifiedOwner p) [] || negb (bool_decide (VerifiedOwner p ∈ RequireVerifiedOwners o))) then false
  else if negb (policyCheck (policiesFor o t i) p) then false
  else match t with
    | HomeHub => negb (bool_decide (endpointListMatch (entryPolicy (infoOf p)) (CheckHubPolicyWith o) = Denied))
    | TransitHub => true
    | DestinationHub => negb (bool_decide (endpointListMatch (exitPolicy (infoOf p)) (CheckHubPolicyWith o) = Denied))
    end.
Definition Matcher (o : Options) (t : HubType) (i : option Intel) : Pin -> bool :=
  match t with
  | HomeHub => hubMatcher (Home o) t i
  | TransitHub => hubMatcher (Transit o) t i
  | DestinationHub => hubMatcher (Destination o) t i
  end.

(** ** Routing profiles *)
Record RoutingProfile := mkProfile { MinHops : nat; MaxHops : nat; MaxExtraHops : nat; MaxExtraCost : float32 }.
Definition RoutingProfileHomeID : str := $"home".
Definition RoutingProfileSingleHopID : str := $"single-hop".
Definition RoutingProfileDoubleHopID : str := $"double-hop".
Definition RoutingProfileTripleHopID : str := $"triple-hop".
Definition RoutingProfileHome : RoutingProfile := mkProfile 1 1 0 (f32 0).
Definition RoutingProfileSingleHop : RoutingProfile := mkProfile 1 3 1 (f32 10000).
Definition RoutingProfileDoubleHop : RoutingProfile := mkProfile 2 4 2 (f32 10000).
Definition RoutingProfileTripleHop : RoutingProfile := mkProfile 3 5 3 (f32 10000).
Definition GetRoutingProfile (id : str) : RoutingProfile :=
  if eqs id RoutingProfileHomeID then RoutingProfileHome
  else if eqs id RoutingProfileSingleHopID then RoutingProfileSingleHop
  else if eqs id RoutingProfileDoubleHopID then RoutingProfileDoubleHop
  else if eqs id RoutingProfileTripleHopID then RoutingProfileTripleHop
  else RoutingProfileDoubleHop.

(** ** Routes *)
Record Hop := mkHop { hopPin : nat; hopCost : float32 }.
Record Route := mkRoute { Path : list Hop; DstCost : float32; TotalCost : float32; Algorithm : str }.
Record Routes := mkRoutes { All : list Route; maxCost : float32; maxRoutes : nat }.
#[export] Instance eta_Route : Eta Route := fun r => mkRoute (Path r) (DstCost r) (TotalCost r) (Algorithm r).
#[export] Instance eta_Routes : Eta Routes := fun r => mkRoutes (All r) (maxCost r) (maxRoutes r).
Definition tenth : float32 := fdiv (f32 1) (f32 10).
Definition defaultMaxRouteMatches : nat := 10.
Definition goSort {A} (less : A -> A -> bool) (l : list A) : list A :=
  if (length l <=? 12)%nat then insertionSort less l else pdqsort A less l.

Section pins.
Context (ps : list Pin).
Definition HasActiveTerminal (i : nat) : bool := match ps !! i with Some p => hasActiveTerminal p | None => false end.
(** The hub ID of a pin object. *)
Definition idOf (i : nat) : str := match ps !! i with Some p => pinID p | None => [] end.
Definition recalculateTotalCost (r : Route) : Route :=
  r <| TotalCost := foldl (fun t h => fadd t (if HasActiveTerminal (hopPin h) then fmul (hopCost h) (fdiv (f32 8) (f32 10)) else hopCost h))
    (DstCost r) (Path r) |>.
Definition addHop (i : nat) (cost : float32) (r : Route) : Route := recalculateTotalCost (r <| Path ::= fun p => p ++ [mkHop i cost] |>).
Definition completeRoute (dstCost : float32) (r : Route) : Route := recalculateTotalCost (r <| DstCost := dstCost |>).
Definition removeHop (r : Route) : Route :=
  recalculateTotalCost (r <| DstCost := f32 0 |> <| Path ::= fun p => take (length p - 1) p |>).
Definition CopyUpTo (n : nat) (r : Route) : Route :=
  let n := if (n =? 0)%nat || (length (Path r) <? n)%nat then length (Path r) else n in
  mkRoute (take n (Path r)) (DstCost r) (TotalCost r) [].
Definition isGoodEnough (rs : Routes) (r : Route) : bool := negb (fgtb (maxCost rs) (f32 0) && fgtb (TotalCost r) (maxCost rs)).
Definition cleanRoutes (rs : Routes) : Routes :=
  let l := take (maxRoutes rs) (goSort (fun a b => fltb (TotalCost a) (TotalCost b)) (All rs)) in
  let rs := rs <| All := l |> in
  if (maxRoutes rs <=? length l)%nat then match last l with Some r => rs <| maxCost := TotalCost r |> | None => rs end else rs.
Definition addRoute (r : Route) (rs : Routes) : Routes :=
  if negb (isGoodEnough rs r) then rs else cleanRoutes (rs <| All ::= fun l => l ++ [CopyUpTo 0 r] |>).
(** The elements up to the first one above the threshold are shuffled. *)
Definition randomizeTop {A} (cost : A -> float32) (l : list A) : list A :=
  match l with
  | [] | [_] => l
  | x :: _ =>
      let threshold := fmul (cost x) (fadd (f32 1) tenth) in
      let n := (fix upTo (l : list A) := match l with [] => O | y :: l => if fgtb (cost y) threshold then O else S (upTo l) end) l in
      if (2 <=? n)%nat then shuffle A (take n l) ++ drop n l else l
  end.

Inductive routeCompliance := routeOk | routeNonCompliant | routeDisqualified.
Definition checkRouteCompliance (rp : RoutingProfile) (r : Route) (found : Routes) : routeCompliance :=
  let path := hopPin <$> Path r in
  let n := length path in
  if (n <? MinHops rp)%nat then routeNonCompliant
  else if (MaxHops rp <? n)%nat then routeDisqualified
  else
    let lastID := from_option idOf [] (last path) in
    let before := take (n - 1) path in
    if (2 <=? n)%nat && existsb (fun i => eqs lastID (idOf i)) before then routeDisqualified
    else if (2 <=? n)%nat &&
      match (i ← last path; p ← ps !! i; Connection p) with
      | None => false
      | Some c =>
          if (length (ConnRoute c) <? 2)%nat then false
          else negb (eqs (from_option idOf [] (ConnRoute c !! (length (ConnRoute c) - 2)%nat)) (from_option idOf [] (path !! (n - 2)%nat)))
      end then routeDisqualified
    else match All found with
      | [] => routeOk
      | best :: _ =>
          if fgtb (TotalCost r) (fadd (TotalCost best) (MaxExtraCost rp)) then routeDisqualified
          else if (length (Path best) + MaxExtraHops rp <? n)%nat then routeDisqualified
          else routeOk
      end.

(** ** Exploring routes *)
Section explore.
Context (rp : RoutingProfile) (transit destination : Pin -> bool) (dsts : str -> option float32).
(** The cost of a selected destination. *)
Fixpoint exploreLanes (rec : Route -> Lane -> Routes -> option Routes) (r : Route) (lanes : list Lane) (rs : Routes) : option Routes :=
  match lanes with [] => Some rs | l :: lanes => rs ← rec r l rs; exploreLanes rec r lanes rs end.
(** [None]: the fuel is not enough for the depth of the search. *)
Fixpoint exploreHop (fuel : nat) (r : Route) (lane : Lane) (rs : Routes) : option Routes :=
  match fuel with
  | O => None
  | S fuel =>
      match ps !! lanePin lane with
      | None => Some rs
      | Some pin =>
          if negb (transit pin) then Some rs else
          let r := addHop (lanePin lane) (fadd (Cost lane) (PinCost pin)) r in
          if negb (isGoodEnough rs r) then Some rs else
          let continue := exploreLanes (exploreHop fuel) r (laneList (ConnectedTo pin)) rs in
          match checkRouteCompliance rp r rs with
          | routeOk =>
              if destination pin then
                match dsts (pinID pin) with
                | Some cost => Some (addRoute (completeRoute cost r) rs)
                | None => continue
                end
              else continue
          | routeNonCompliant => continue
          | routeDisqualified => Some rs
          end
      end
  end.
Definition exploreFrom (i : nat) : option Routes :=
  let rs := mkRoutes [] (f32 0) defaultMaxRouteMatches in
  match ps !! i with
  | None => Some rs
  | Some pin =>
      exploreLanes (exploreHop (S (MaxHops rp))) (mkRoute [mkHop i (f32 0)] (f32 0) (f32 0) []) (laneList (ConnectedTo pin)) rs
  end.
End explore.
End pins.

(** ** Nearest hubs *)
Record nearbyPin := mkNearby { nbPin : nat; nbCost : float32 }.
Record nearbyPins := mkNearbyPins { nbPins : list nearbyPin; nbMaxCost : float32 }.
#[export] Instance eta_nearbyPins : Eta nearbyPins := fun n => mkNearbyPins (nbPins n) (nbMaxCost n).
Definition minPins : nat := 10.
Definition maxPins : nat := 100.
Definition cutOffLimit : float32 := f32 5000.
Definition nbAdd (i : nat) (cost : float32) (nb : nearbyPins) : nearbyPins :=
  if (minPins <? length (nbPins nb))%nat && fgtb (nbMaxCost nb) (f32 0) && fgtb cost (nbMaxCost nb) then nb
  else nb <| nbPins ::= fun l => l ++ [mkNearby i cost] |>.
Definition nbGet (ps : list Pin) (id : str) (nb : nearbyPins) : option nearbyPin := find (fun n => eqs (idOf ps (nbPin n)) id) (nbPins nb).
Fixpoint upToCost (max : float32) (l : list nearbyPin) : list nearbyPin :=
  match l with [] => [] | n :: l => if fgtb (nbCost n) max then [] else n :: upToCost max l end.
Definition nbClean (nb : nearbyPins) : nearbyPins :=
  let l := goSort (fun a b => fltb (nbCost a) (nbCost b)) (nbPins nb) in
  let max := match l with
    | n :: _ => if (minPins <=? length l)%nat then fadd (nbCost n) cutOffLimit else nbMaxCost nb
    | [] => nbMaxCost nb end in
  let l := take maxPins l in
  mkNearbyPins (if (minPins <? length l)%nat then take minPins l ++ upToCost max (drop minPins l) else l) max.
Definition proximityOf (a b : option Location) : float32 := match a, b with Some a, Some b => EstimateNetworkProximity a b | _, _ => f32 0 end.
Definition proximityBetweenPins (a b : Pin) : float32 :=
  let x := proximityOf (LocationV4 a) (LocationV4 b) in
  let y := proximityOf (LocationV6 a) (LocationV6 b) in
  if fgtb x y then x else y.
Definition lessButPositive (a b : float32) : float32 :=
  if feqb a (f32 0) then b else if feqb b (f32 0) then a else if fltb a b then a else b.
Definition isSome {A} (o : option A) : bool := match o with Some _ => true | None => false end.
(** The proximity to the home hub stands in for that to an anycast destination. *)
Definition destinationCost (homePin : option Pin) (pin : Pin) (dst loc : option Location) (cost : float32) : float32 :=
  match dst, loc with
  | Some d, Some l =>
      lessButPositive cost (CalculateDestinationCost
        match IsAnycast d, homePin with
        | true, Some h => proximityBetweenPins pin h
        | _, _ => EstimateNetworkProximity d l
        end)
  | _, _ => cost
  end.
Definition bestLane (lanes : list hubLane) : Z * Z :=
  foldl (fun '(c, t) l =>
    (if c <? LaneCapacity l then LaneCapacity l else c,
     if (t =? 0) || (LaneLatency l <? t) then LaneLatency l else t)) (0, 0) lanes.
Definition nearbyCost (homePin : option Pin) (v4 v6 : option Location) (t : HubType) (pin : Pin) : float32 :=
  let cost := destinationCost homePin pin v4 (LocationV4 pin) (f32 0) in
  let cost := destinationCost homePin pin v6 (LocationV6 pin) cost in
  let cost := if feqb cost (f32 0) then CalculateDestinationCost (f32 50) else cost in
  let cost := fadd cost (CalculateHubCost (Load (statusOf pin))) in
  match t with
  | HomeHub => let '(c, l) := bestLane (HubLanes (statusOf pin)) in fadd cost (CalculateLaneCost l c)
  | _ => cost
  end.
(** [homeRouting]: the global routing algorithm is the one of the home profile. *)
Definition regarded (homeRouting : bool) (v4 v6 : option Location) (matcher : Pin -> bool) (t : HubType) (pin : Pin) : bool :=
  matcher pin &&
  ((isSome v4 && isSome (LocationV4 pin)) || (isSome v6 && isSome (LocationV6 pin))) &&
  negb (bool_decide (t = HomeHub) && homeRouting &&
    ((isSome v4 && negb (isSome (LocationV4 pin))) || (isSome v6 && negb (isSome (LocationV6 pin))))).
Inductive navErr := ErrEmptyMap | ErrHomeHubUnset | ErrHubNotFound | ErrAllPinsDisregarded | ErrNoLocation | ErrGeoIP | ErrNoRoutes.
Definition addNearby (homeRouting : bool) (m : Map) (v4 v6 : option Location) (o : Options) (t : HubType) (nb : nearbyPins) (i : nat) : nearbyPins :=
  match pins m !! i with
  | None => nb
  | Some pin =>
      if negb (regarded homeRouting v4 v6 (Matcher o t (intel m)) t pin) then nb else
      let nb := nbAdd i (nearbyCost (h ← home m; pins m !! h) v4 v6 t pin) nb in
      if (maxPins * 2 <=? length (nbPins nb))%nat then nbClean nb else nb
  end.
Definition findNearestPins (homeRouting : bool) (m : Map) (v4 v6 : option Location) (o : Options) (t : HubType) : navErr + nearbyPins :=
  if negb (isSome v4) && negb (isSome v6) then inl ErrNoLocation else
  let nb := foldl (addNearby homeRouting m v4 v6 o t) (mkNearbyPins [] (f32 0)) (pinList m) in
  match nbPins nb with
  | [] => inl ErrAllPinsDisregarded
  | _ => let nb := nbClean nb in inr (nb <| nbPins := randomizeTop nbCost (nbPins nb) |>)
  end.
Definition defaultOptions : Options := mkOptions None None None RoutingProfileDoubleHopID.
Definition FindNearestHubs (homeRouting : bool) (m : Map) (v4 v6 : option Location) (o : option Options) (t : HubType) : navErr + list Hub :=
  if isEmpty m then inl ErrEmptyMap else
  match findNearestPins homeRouting m v4 v6 (default defaultOptions o) t with
  | inl e => inl e
  | inr nb => inr (omap (fun n => pHub <$> pins m !! nbPin n) (nbPins nb))
  end.

(** ** Finding routes *)
(** [None]: out of fuel. *)
Definition findRoutes (m : Map) (dsts : nearbyPins) (o : Options) : option (navErr + list Route) :=
  match home m with
  | None => Some (inl ErrHomeHubUnset)
  | Some i =>
      rs ← exploreFrom (pins m) (GetRoutingProfile (optRoutingProfile o)) (Matcher o TransitHub (intel m)) (Matcher o DestinationHub (intel m))
        (fun id => nbCost <$> nbGet (pins m) id dsts) i;
      match All rs with
      | [] => Some (inl ErrNoRoutes)
      | l => Some (inr ((fun r => r <| Algorithm := optRoutingProfile o |>) <$> randomizeTop TotalCost l))
      end
  end.
Definition FindRoutes (homeRouting : bool) (m : Map) (ip : IP) (o : option Options) : option (navErr + list Route) :=
  if isEmpty m then Some (inl ErrEmptyMap) else
  match home m with
  | None => Some (inl ErrHomeHubUnset)
  | Some i =>
      match geoipGetLocation ip with
      | inr _ => Some (inl ErrGeoIP)
      | inl loc =>
          let '(v4, v6) := match To4 ip with Some _ => (Some loc, None) | None => (None, Some loc) end in
          let o := default defaultOptions o in
          let has f := match pins m !! i with Some h => isSome (f h : option Location) | None => false end in
          let upgrade := (isSome v4 && negb (has LocationV4)) || (isSome v6 && negb (has LocationV6)) in
          if eqs (optRoutingProfile o) RoutingProfileHomeID && negb upgrade then
            Some (inr [mkRoute [mkHop i (f32 0)] (f32 0) (f32 0) RoutingProfileHomeID])
          else
            let o := if eqs (optRoutingProfile o) RoutingProfileHomeID then o <| optRoutingProfile := RoutingProfileSingleHopID |> else o in
            match findNearestPins homeRouting m v4 v6 o DestinationHub with
            | inl e => Some (inl e)
            | inr nb => findRoutes m nb o
            end
      end
  end.
Definition FindRouteToHub (m : Map) (hubID : str) (o : Options) : option (navErr + list Route) :=
  match mapAll m !! hubID with
  | None => Some (inl ErrHubNotFound)
  | Some i => findRoutes m (mkNearbyPins [mkNearby i (f32 0)] (f32 0)) o
  end.
End navigator.
