(* ===== verification/NavProps.v ===== *)
(** * Properties of the map and of routes

    Updates of hubs end, lanes are symmetric up to a gap in [updateHubLane], and routes
    are found exactly when the lanes allow one, over usable hubs only. *)

From S2P Require Import Prelude GoStrings GoText GoNet NetUtils Entity Endpoints GoNum NavMap NavReach NavRoutes.

(** ** The routes that are found

    [routed] are the sequences of hops the search may go along, without the pruning by
    routes found before; [arrives] the ones that end at a destination.  [search] is the
    invariant of the collected routes. *)

Section routes.
Context {IE : IntelEnv} {UT : UnicodeTables} {NE : NavEnv}.
Context (Hord : forall ks, mapOrder ks ≡ₚ ks).
Context (ps : list Pin) (rp : RoutingProfile) (transit destination : Pin -> bool) (dsts : str -> option float32) (start : nat).

Definition ids (path : list Hop) : list str := idOf ps ∘ hopPin <$> path.
(** The last hop is in use by a session over another hub. *)
Definition sessionElsewhere (path : list Hop) : bool :=
  match (h ← last path; p ← ps !! hopPin h; Connection p) with
  | None => false
  | Some c =>
      if (length (ConnRoute c) <? 2)%nat then false
      else negb (eqs (from_option (idOf ps) [] (ConnRoute c !! (length (ConnRoute c) - 2)%nat)) (from_option id [] (ids path !! (length path - 2)%nat)))
  end.
Definition allowed (path : list Hop) : Prop :=
  (length path < MinHops rp)%nat \/
  ((length path <= MaxHops rp)%nat /\ (forall i, last (ids path) = Some i -> i ∉ take (length path - 1) (ids path)) /\ sessionElsewhere path = false).
(** A lane from the last hop. *)
Definition leads (path : list Hop) (l : Lane) (pin : Pin) : Prop :=
  exists h p k, last path = Some h /\ ps !! hopPin h = Some p /\ ConnectedTo p !! k = Some l /\ ps !! lanePin l = Some pin.
Inductive routed : list Hop -> Prop :=
| routed_start : routed [mkHop start (f32 0)]
| routed_step path l pin : routed path -> leads path l pin -> transit pin = true ->
    let path' := path ++ [mkHop (lanePin l) (fadd (Cost l) (PinCost pin))] in allowed path' -> routed path'.
Definition arrives (path : list Hop) : Prop :=
  routed path /\ (MinHops rp <= length path)%nat /\ (2 <= length path)%nat /\
  exists h pin, last path = Some h /\ ps !! hopPin h = Some pin /\ destination pin = true /\ is_Some (dsts (pinID pin)).
Definition costed (r : Route) : Prop := TotalCost r = TotalCost (recalculateTotalCost ps r).
Record search (rs : Routes) : Prop := {
  s_valid : Forall (fun r => arrives (Path r) /\ costed r) (All rs);
  s_max : maxRoutes rs = 10%nat /\ (length (All rs) <= 10)%nat;
  s_fresh : All rs = [] -> maxCost rs = f32 0;
}.

Lemma routed_nonempty path : routed path -> path <> [].
Proof. destruct 1; [done|]. unfold path'. by destruct path. Qed.
Lemma goSort_perm {NL : NavLaws NE} {A} less (l : list A) : goSort less l ≡ₚ l.
Proof. unfold goSort. destruct (_ <=? _)%nat; [apply insertionSort_perm|apply pdqsort_perm]. Qed.
Lemma good_fresh rs r : search rs -> All rs = [] -> isGoodEnough rs r = true.
Proof. intros Hs E. unfold isGoodEnough. by rewrite (s_fresh _ Hs E). Qed.
Lemma recalc_idem r : recalculateTotalCost ps (recalculateTotalCost ps r) = recalculateTotalCost ps r.
Proof. by destruct r. Qed.
Lemma search_clean {NL : NavLaws NE} rs : Forall (fun r => arrives (Path r) /\ costed r) (All rs) -> maxRoutes rs = 10%nat -> All rs <> [] ->
  search (cleanRoutes rs) /\ All (cleanRoutes rs) <> [].
Proof.
  intros Hv Hm Hne. unfold cleanRoutes. cbv zeta.
  set (sorted := goSort (fun a b => fltb (TotalCost a) (TotalCost b)) (All rs)).
  assert (sorted ≡ₚ All rs) as Hp by apply goSort_perm.
  assert (sorted <> []) as Hs by (intros E; rewrite E in Hp; by apply Permutation_nil_l in Hp).
  set (l := take (maxRoutes rs) sorted).
  assert (l <> []) as Hl by (unfold l; rewrite Hm; by destruct sorted).
  assert (Forall (fun r => arrives (Path r) /\ costed r) l) as Hvl by (apply Forall_take; by rewrite Hp).
  assert (length l <= 10)%nat as Hlen by (unfold l; rewrite Hm; apply firstn_le_length).
  clearbody l. clear Hs Hp sorted.
  assert (search (rs <| All := l |>)) as H0 by (by split).
  cbn [maxRoutes set_field]. match goal with |- context [if ?b then _ else _] => destruct b end; [|done].
  destruct (last l); [|done]. by split; [split|].
Qed.
Lemma addRoute_ok {NL : NavLaws NE} rs r : search rs -> arrives (Path r) -> costed r ->
  search (addRoute r rs) /\ (All rs <> [] \/ isGoodEnough rs r = true -> All (addRoute r rs) <> []).
Proof.
  intros Hs Ha Hc. unfold addRoute. destruct (isGoodEnough rs r) eqn:Eg; cbn [negb].
  - destruct (search_clean (rs <| All ::= fun l => l ++ [CopyUpTo 0 r] |>)) as [H1 H2].
    + apply Forall_app. split; [apply Hs|]. constructor; [|constructor]. unfold CopyUpTo. cbn [Nat.eqb orb Path].
      rewrite take_ge by lia. split; [done|]. unfold costed in *. simpl in *. rewrite Hc. by destruct r.
    + apply Hs.
    + simpl. by destruct (All rs).
    + done.
  - split; [done|]. by intros [|].
Qed.

(** ** Compliance *)
Definition hard (path : list Hop) : bool :=
  (length path <=? MaxHops rp)%nat && negb (existsb (fun i => eqs (from_option id [] (last (ids path))) i) (take (length path - 1) (ids path))) &&
  negb (sessionElsewhere path).
Lemma allowed_hard path : allowed path <-> (length path < MinHops rp)%nat \/ hard path = true.
Proof.
  unfold allowed, hard. rewrite !andb_true_iff, !negb_true_iff, Nat.leb_le.
  assert (existsb (fun i => eqs (from_option id [] (last (ids path))) i) (take (length path - 1) (ids path)) = false <->
    forall i, last (ids path) = Some i -> i ∉ take (length path - 1) (ids path)) as H; [|tauto].
  destruct (last (ids path)) as [x|] eqn:El; simpl.
  - split.
    + intros Hf i [= <-] Hi. apply not_true_iff_false in Hf. apply Hf. apply existsb_exists. exists x.
      split; [by apply list_elem_of_In|]. by apply bool_decide_eq_true.
    + intros Hi. apply not_true_iff_false. intros (y & Hy & E)%existsb_exists. apply bool_decide_eq_true in E as <-.
      apply (Hi x eq_refl). by apply list_elem_of_In.
  - apply last_None in El. rewrite El, take_nil. by split.
Qed.
Lemma check_eq r found : (2 <= length (Path r))%nat -> checkRouteCompliance ps rp r found =
  if (length (Path r) <? MinHops rp)%nat then routeNonCompliant
  else if negb (hard (Path r)) then routeDisqualified
  else match All found with
    | [] => routeOk
    | best :: _ =>
        if fgtb (TotalCost r) (fadd (TotalCost best) (MaxExtraCost rp)) then routeDisqualified
        else if (length (Path best) + MaxExtraHops rp <? length (Path r))%nat then routeDisqualified
        else routeOk
    end.
Proof.
  intros Hn. unfold checkRouteCompliance. rewrite length_fmap. destruct (_ <? MinHops rp)%nat; [done|].
  unfold hard. rewrite (Nat.leb_antisym (MaxHops rp)). destruct (MaxHops rp <? _)%nat; [done|]. cbn [negb andb].
  rewrite (proj2 (Nat.leb_le 2 _) Hn). cbn [andb].
  replace (from_option (idOf ps) [] (last (hopPin <$> Path r))) with (from_option id [] (last (ids (Path r)))).
  2: { unfold ids. rewrite list_fmap_compose, fmap_last. by destruct (last _). }
  replace (existsb (fun i => eqs (from_option id [] (last (ids (Path r)))) (idOf ps i)) (take (length (Path r) - 1) (hopPin <$> Path r)))
    with (existsb (fun i => eqs (from_option id [] (last (ids (Path r)))) i) (take (length (Path r) - 1) (ids (Path r)))).
  2: { generalize (from_option id [] (last (ids (Path r)))) as x. intros x. unfold ids. rewrite list_fmap_compose, <- fmap_take. generalize (take (length (Path r) - 1) (hopPin <$> Path r)) as l.
       intros l. induction l as [|y l IH]; [done|]. simpl. f_equal. exact IH. }
  destruct (existsb _ _); [done|]. cbn [negb andb].
  match goal with |- (if ?b then _ else _) = _ => replace b with (sessionElsewhere (Path r)) end.
  - by destruct (sessionElsewhere (Path r)).
  - unfold sessionElsewhere. rewrite fmap_last. destruct (last (Path r)) as [h|]; [|done]. cbn [fmap option_fmap option_map mbind option_bind].
    destruct (ps !! hopPin h) as [p|]; [|done]. cbn [mbind option_bind]. destruct (Connection p) as [c|]; [|done].
    destruct (_ <? 2)%nat; [done|]. do 2 f_equal. unfold ids. rewrite list_fmap_compose, list_lookup_fmap.
    by destruct ((hopPin <$> Path r) !! _).
Qed.

(** ** The search *)
Definition hopOf (l : Lane) (pin : Pin) : Hop := mkHop (lanePin l) (fadd (Cost l) (PinCost pin)).
Lemma routed_inv path h : routed (path ++ [h]) -> path <> [] ->
  routed path /\ allowed (path ++ [h]) /\ exists l pin, leads path l pin /\ transit pin = true /\ h = hopOf l pin.
Proof.
  intros Hr Hne. inversion Hr as [E|path1 l pin Hr1 Hl Ht path' Ha E].
  - destruct path as [|x path]; [done|]. by destruct path.
  - unfold path' in E. apply app_inj_tail in E as [-> E]. split; [done|]. split; [|by exists l, pin]. done.
Qed.
Lemma routed_prefix path q : path <> [] -> routed (path ++ q) -> routed path.
Proof.
  intros Hne. induction q as [|h q IH] using rev_ind; [by rewrite app_nil_r|]. rewrite app_assoc. intros Hr.
  apply routed_inv in Hr as [Hr _]; [by apply IH|]. by destruct path.
Qed.
(** A destination can be reached over the lane. *)
Definition reaches (path : list Hop) (l : Lane) : Prop := exists pin q, ps !! lanePin l = Some pin /\ arrives (path ++ hopOf l pin :: q).
Definition laneFrom (path : list Hop) (l : Lane) : Prop :=
  exists h p, last path = Some h /\ ps !! hopPin h = Some p /\ l ∈ laneList (ConnectedTo p).
Definition grown (P : Prop) (rs rs' : Routes) : Prop := search rs' /\ (All rs <> [] \/ P -> All rs' <> []).
Lemma lanes_ok {NL : NavLaws NE} rec r lanes : (forall l rs, l ∈ lanes -> search rs -> exists rs', rec r l rs = Some rs' /\ grown (reaches (Path r) l) rs rs') ->
  forall rs, search rs -> exists rs', exploreLanes rec r lanes rs = Some rs' /\ grown (exists l, l ∈ lanes /\ reaches (Path r) l) rs rs'.
Proof.
  induction lanes as [|l lanes IH]; intros Hrec rs Hs.
  { exists rs. split; [done|]. split; [done|]. intros [?|(l & Hl & _)]; [done|]. by apply not_elem_of_nil in Hl. }
  destruct (Hrec l rs ltac:(left) Hs) as (rs1 & E1 & Hs1 & H1).
  destruct (IH ltac:(intros; apply Hrec; [by right|done]) rs1 Hs1) as (rs2 & E2 & Hs2 & H2).
  exists rs2. split; [simpl; by rewrite E1|]. split; [done|]. intros [?|(l' & [->|Hl']%elem_of_cons & Hr)]; apply H2.
  - left. apply H1. by left.
  - left. apply H1. by right.
  - right. by exists l'.
Qed.
Lemma reach_on path l pin : path <> [] -> ps !! lanePin l = Some pin -> reaches path l ->
  transit pin = true /\ allowed (path ++ [hopOf l pin]) /\
  (arrives (path ++ [hopOf l pin]) \/ exists l2, l2 ∈ laneList (ConnectedTo pin) /\ reaches (path ++ [hopOf l pin]) l2).
Proof.
  intros Hne Hp (pin' & q & Hp' & Ha). rewrite Hp in Hp'. injection Hp' as <-.
  rewrite (cons_middle (hopOf l pin) path q) in Ha. rewrite app_assoc in Ha.
  assert (routed (path ++ [hopOf l pin])) as Hr by (eapply routed_prefix; [by destruct path|apply Ha]).
  destruct (routed_inv _ _ Hr Hne) as (_ & Hal & l1 & pin1 & (_ & _ & _ & _ & _ & _ & Hp1) & Ht & E).
  assert (lanePin l1 = lanePin l) as El by (by injection E). rewrite El, Hp in Hp1. injection Hp1 as <-.
  split; [done|]. split; [done|]. destruct q as [|h2 q]; [left; by rewrite app_nil_r in Ha|]. right.
  assert (routed ((path ++ [hopOf l pin]) ++ [h2])) as Hr2.
  { apply (routed_prefix _ q); [by destruct path|]. rewrite <- (app_assoc (path ++ _)). apply Ha. }
  destruct (routed_inv _ _ Hr2) as (_ & _ & l2 & pin2 & (h & p & k & Hl & Hph & Hk & Hp2) & _ & ->); [by destruct path|].
  rewrite last_snoc in Hl. injection Hl as <-. cbn [hopPin hopOf] in Hph. rewrite Hp in Hph. injection Hph as <-.
  exists l2. split; [apply elem_of_laneList; [done|by exists k]|]. by exists pin2, q.
Qed.
Lemma hop_ok {NL : NavLaws NE} fuel : (MinHops rp <= MaxHops rp)%nat -> forall r l rs, (fuel + length (Path r) = MaxHops rp + 2)%nat ->
  (length (Path r) <= MaxHops rp)%nat -> routed (Path r) -> search rs -> laneFrom (Path r) l ->
  exists rs', exploreHop ps rp transit destination dsts fuel r l rs = Some rs' /\ grown (reaches (Path r) l) rs rs'.
Proof.
  intros Hmm. induction fuel as [|fuel IH]; intros r l rs Hf Hlen Hr Hs Hl; [lia|]. cbn [exploreHop].
  pose proof (routed_nonempty _ Hr) as Hne.
  destruct (ps !! lanePin l) as [pin|] eqn:Hp; [|exists rs; split; [done|]; split; [done|]; intros [?|(pin & q & Hp' & _)]; [done|congruence]].
  pose proof (reach_on (Path r) l pin Hne Hp) as Hreach. set (path := Path r ++ [hopOf l pin]) in *.
  destruct (transit pin) eqn:Ht; cbn [negb]; [|exists rs; split; [done|]; split; [done|]; intros [?|Hre]; [done|by apply Hreach in Hre as [? _]]].
  cbv zeta. set (r1 := addHop ps (lanePin l) (fadd (Cost l) (PinCost pin)) r). assert (Path r1 = path) as Hp1 by done.
  assert (costed r1) as Hc1 by (unfold costed, r1, addHop; by rewrite recalc_idem).
  assert (isGoodEnough rs r1 = false \/ isGoodEnough rs r1 = true) as [Eg|Eg] by (by destruct (isGoodEnough rs r1); auto); rewrite Eg; cbn [negb].
  { exists rs. split; [done|]. split; [done|]. intros _ E. by rewrite good_fresh in Eg. }
  assert (2 <= length path)%nat as Hlen2 by (unfold path; rewrite length_app; simpl; destruct (Path r); [done|simpl; lia]).
  assert (length path = S (length (Path r))) as Hlenp by (unfold path; rewrite length_app; simpl; lia).
  assert (allowed path -> (length path <= MaxHops rp)%nat -> ~ arrives path -> exists rs',
    exploreLanes (exploreHop ps rp transit destination dsts fuel) r1 (laneList (ConnectedTo pin)) rs = Some rs' /\
    grown (reaches (Path r) l) rs rs') as Hcont.
  { intros Hal Hb Hna. assert (routed path) as Hrp.
    { destruct Hl as (h & p & Hh & Hph & Hk). apply elem_of_laneList in Hk as [k Hk]; [|done].
      apply (routed_step (Path r) l pin Hr); [by exists h, p, k|done|done]. }
    destruct (lanes_ok (exploreHop ps rp transit destination dsts fuel) r1 (laneList (ConnectedTo pin))) with (rs := rs) as (rs' & E & Hs' & Hg).
    - intros l2 rs2 Hl2 Hs2. apply IH; rewrite ?Hp1; try done; [lia|]. exists (hopOf l pin), pin. split; [apply last_snoc|done].
    - done.
    - exists rs'. split; [done|]. split; [done|]. intros [?|Hre]; apply Hg; [by left|]. right.
      destruct (Hreach Hre) as (_ & _ & [?|Hl2]); [done|exact Hl2]. }
  rewrite check_eq by (by rewrite Hp1). rewrite Hp1. destruct (length path <? MinHops rp)%nat eqn:Emin.
  { apply Nat.ltb_lt in Emin. apply Hcont; [by left|lia|]. intros (_ & ? & _). lia. }
  apply Nat.ltb_ge in Emin. destruct (hard path) eqn:Eh; cbn [negb].
  2: { exists rs. split; [done|]. split; [done|]. intros [?|Hre]; [done|]. apply Hreach in Hre as (_ & Hal & _).
       apply allowed_hard in Hal as [?|?]; [lia|congruence]. }
  assert (allowed path) as Hal by (apply allowed_hard; by right).
  assert (length path <= MaxHops rp)%nat as Hb by (unfold hard in Eh; rewrite !andb_true_iff, Nat.leb_le in Eh; tauto).
  assert (exists rs', (if destination pin then
      match dsts (pinID pin) with
      | Some cost => Some (addRoute (completeRoute ps cost r1) rs)
      | None => exploreLanes (exploreHop ps rp transit destination dsts fuel) r1 (laneList (ConnectedTo pin)) rs
      end
    else exploreLanes (exploreHop ps rp transit destination dsts fuel) r1 (laneList (ConnectedTo pin)) rs) = Some rs' /\ grown (reaches (Path r) l) rs rs') as Hok.
  { assert (forall h pin', last path = Some h -> ps !! hopPin h = Some pin' -> pin' = pin) as Hlast.
    { intros h pin'. unfold path. rewrite last_snoc. intros [= <-]. cbn [hopPin hopOf]. rewrite Hp. by intros [= <-]. }
    destruct (destination pin) eqn:Ed; [destruct (dsts (pinID pin)) as [cost|] eqn:Edst|].
    - eexists. split; [done|]. assert (arrives path) as Ha.
      { destruct Hl as (h & p & Hh & Hph & Hk). apply elem_of_laneList in Hk as [k Hk]; [|done]. split; [|split; [done|split; [done|]]].
        - apply (routed_step (Path r) l pin Hr); [by exists h, p, k|done|done].
        - exists (hopOf l pin), pin. unfold path. rewrite last_snoc. split; [done|]. split; [done|]. split; [done|]. by eexists. }
      destruct (addRoute_ok rs (completeRoute ps cost r1) Hs Ha) as [H1 H2]; [unfold costed, completeRoute; by rewrite recalc_idem|].
      split; [done|]. intros _. apply H2. destruct (All rs) eqn:E; [right; by apply good_fresh|by left].
    - apply Hcont; [done|done|]. intros (_ & _ & _ & h & pin' & Hh & Hph & _ & [c Hc]). rewrite (Hlast _ _ Hh Hph) in Hc. congruence.
    - apply Hcont; [done|done|]. intros (_ & _ & _ & h & pin' & Hh & Hph & Hd & _). rewrite (Hlast _ _ Hh Hph) in Hd. congruence. }
  assert (All rs <> [] -> exists rs', Some rs = Some rs' /\ grown (reaches (Path r) l) rs rs') as Hstop by (intros ?; by exists rs).
  destruct (All rs) as [|best rest] eqn:Ea; [exact Hok|].
  destruct (fgtb _ _); [by apply Hstop|]. destruct (_ <? _)%nat; [by apply Hstop|exact Hok].
Qed.
Lemma explore_ok {NL : NavLaws NE} pin : (MinHops rp <= MaxHops rp)%nat -> (1 <= MaxHops rp)%nat -> ps !! start = Some pin ->
  exists rs, exploreFrom ps rp transit destination dsts start = Some rs /\ search rs /\
    (All rs <> [] <-> exists path, arrives path).
Proof.
  intros Hmm Hm Hp. unfold exploreFrom. rewrite Hp. cbv zeta. set (r0 := mkRoute [mkHop start (f32 0)] (f32 0) (f32 0) []).
  set (rs0 := mkRoutes [] (f32 0) defaultMaxRouteMatches). assert (search rs0) as Hs0 by (split; [constructor|split; [done|simpl; lia]|done]).
  destruct (lanes_ok (exploreHop ps rp transit destination dsts (S (MaxHops rp))) r0 (laneList (ConnectedTo pin))) with (rs := rs0) as (rs & E & Hs & Hg).
  - intros l rs Hl Hs. apply hop_ok; [done|simpl; lia|done|constructor|done|]. exists (mkHop start (f32 0)), pin. done.
  - done.
  - exists rs. split; [done|]. split; [done|]. split.
    + intros Hne. pose proof (s_valid _ Hs) as Hv. destruct (All rs) as [|r l]; [done|]. inversion Hv as [|? ? [Ha _] _]. by exists (Path r).
    + intros (path & Ha). apply Hg. right. destruct Ha as (Hr & Hmin & Hl2 & Hd).
      assert (exists q, path = mkHop start (f32 0) :: q) as [q Eq].
      { clear -Hr. induction Hr as [|path l p _ [q ->] _ _ path' _]; [by exists []|]. by eexists. }
      destruct q as [|h q]; [rewrite Eq in Hl2; simpl in Hl2; lia|].
      assert (routed ([mkHop start (f32 0)] ++ [h])) as Hr2 by (apply (routed_prefix _ q); [done|]; by subst path).
      destruct (routed_inv _ _ Hr2) as (_ & _ & l & pin2 & (h1 & p & k & Hl & Hph & Hk & Hp2) & _ & Eh); [done|].
      injection Hl as <-. cbn [hopPin] in Hph. rewrite Hp in Hph. injection Hph as <-.
      exists l. split; [apply elem_of_laneList; [done|by exists k]|]. exists pin2, q. split; [done|]. rewrite <- Eh. by subst path.
Qed.
End routes.

(** ** Updates end *)
Section total.
Context {IE : IntelEnv} {UT : UnicodeTables} {CO : Countries}.
(** The stack of calls, whatever the lanes are. *)
Definition stacked (S : list nat) (d : Z) (h : list Pin) : Prop := forall i, i ∈ S -> reach h i /\ dist h i < d.
Definition keeps (S : list nat) (h h' : list Pin) : Prop := length h' = length h /\ forall i, i ∈ S -> h' !! i = h !! i.
Lemma stacked_keeps S d h h' : stacked S d h -> keeps S h h' -> stacked S d h'.
Proof. intros Hs [_ Hk] i Hi. destruct (Hs i Hi) as [(p & Hp & Hr) Hd]. unfold reach, dist in *. rewrite (Hk i Hi). split; [by exists p|done]. Qed.
Lemma mark_total fuel : forall S d i h, NoDup S -> (length h - length S < fuel)%nat -> stacked S d h ->
  exists h', markReachable fuel d i h = Some h' /\ keeps S h h'.
Proof.
  induction fuel as [|fuel IH]; intros S d i h Hn Hf Hs; [lia|]. cbn [markReachable].
  destruct (h !! i) as [pin|] eqn:Hp; [|by exists h]. cbv zeta.
  assert (i ∉ S \/ (Has (State pin) StateReachable = true /\ HopDistance pin < d)) as Hcase.
  { destruct (decide (i ∈ S)) as [Hi|]; [right|by left]. destruct (Hs i Hi) as [(p & Hp' & Hr) Hd].
    unfold dist in Hd. rewrite Hp in *. injection Hp' as <-. done. }
  assert (forall ls h1, i ∉ S -> keeps S h h1 -> stacked (i :: S) (d + 1) h1 ->
    exists h', visitLanes (markReachable fuel (d + 1)) ls h1 = Some h' /\ keeps S h h') as Hvisit.
  { intros ls. induction ls as [|l ls IHl]; intros h1 Hi Hk Hs1; [by exists h1|]. cbn [visitLanes].
    destruct (IH (i :: S) (d + 1) (lanePin l) h1) as (h2 & E2 & Hk2); [by constructor| |done|].
    - simpl. destruct Hk as [-> _]. assert (i < length h)%nat by (by eapply lookup_lt_Some).
      pose proof (stack_bound i S (length h) Hn Hi). 
      assert (length S < length h)%nat; [|lia]. apply H0; [done|]. intros j Hj. destruct (Hs j Hj) as [(p & Hpj & _) _]. by eapply lookup_lt_Some.
    - rewrite E2. cbn [mbind option_bind]. apply IHl; [done| |by eapply stacked_keeps].
      destruct Hk as [Hk1 Hk1'], Hk2 as [Hk2 Hk2']. split; [congruence|]. intros j Hj. rewrite Hk2' by (by right). by apply Hk1'. }
  assert (i ∉ S -> exists h', visitLanes (markReachable fuel (d + 1)) (laneList (ConnectedTo pin))
      (alter (fun p => addStates StateReachable p <| HopDistance := d |>) i h) = Some h' /\ keeps S h h') as Hprop.
  { intros Hi. apply Hvisit; [done| |].
    - split; [apply length_alter|]. intros j Hj. apply list_lookup_alter_ne. by intros ->.
    - change (alter _ i h) with (alter (mark d) i h). intros j [->|Hj]%elem_of_cons.
      + split; [apply mark_reach; left; split; [done|by eapply lookup_lt_Some]|]. rewrite mark_dist.
        rewrite bool_decide_true; [lia|]. split; [done|by eapply lookup_lt_Some].
      + destruct (Hs j Hj) as [Hr Hd]. split; [apply mark_reach; by right|]. rewrite mark_dist, bool_decide_false; [lia|]. by intros [-> _]. }
  destruct Hcase as [Hi|[Hr Hd]].
  - destruct (Has (State pin) StateReachable); cbn [negb]; [|by apply Hprop].
    destruct (_ <? _); [by apply Hprop|]. destruct (HasAnyOf _ _); by exists h.
  - rewrite Hr, (proj2 (Z.ltb_ge d (HopDistance pin))) by lia. cbn [negb]. destruct (HasAnyOf _ _); by exists h.
Qed.
Lemma markFrom_total d i m : is_Some (markFrom d i m).
Proof.
  unfold markFrom. destruct (mark_total (S (length (pins m))) [] d i (pins m)) as (h' & E & _); [constructor|simpl; lia| |].
  - intros j Hj. by apply not_elem_of_nil in Hj.
  - rewrite E. by eexists.
Qed.
Lemma recalculate_total m : is_Some (recalculateReachableHubs m).
Proof. unfold recalculateReachableHubs. destruct (home m); [apply markFrom_total|by eexists]. Qed.
Lemma updateHubLane_total i l j m : is_Some (updateHubLane i l j m).
Proof.
  unfold updateHubLane. destruct (pins m !! i) as [pin|]; [|by eexists]. destruct (pins m !! j) as [peer|]; [|by eexists].
  destruct (find _ _) as [pl|]; [|by eexists]. cbv zeta. set (m1 := setLane j _ _ _).
  assert (exists m2, (if Has (State pin) StateReachable then markFrom (HopDistance pin + 1) j m1 else Some m1) = Some m2) as [m2 ->].
  { destruct (Has _ _); [apply markFrom_total|by eexists]. }
  cbn [mbind option_bind]. destruct (pins m2 !! j) as [p|]; [|by eexists]. destruct (Has _ _); [apply markFrom_total|by eexists].
Qed.
Lemma updateLanes_total i id ls m : is_Some (updateLanes i id ls m).
Proof.
  revert m. induction ls as [|l ls IH]; intros m; [by eexists|]. cbn [updateLanes].
  destruct (eqs _ _); [apply IH|]. destruct (mapAll m !! LaneID l) as [j|]; [|apply IH].
  destruct (updateHubLane_total i l j m) as [m1 ->]. apply IH.
Qed.
End total.

(** Every update of a hub, every choice of a home hub and every update of the states
    ends, whatever the lanes on the map are: coming back to a pin over longer ways stops
    the search for reachable pins. *)
Theorem updates_end `{IntelEnv, UnicodeTables, Countries} now trustNodes h id (m : Map) :
  is_Some (updateHub now trustNodes h m) /\ is_Some (SetHome id m) /\ is_Some (updateStates now m).
Proof.
  split; [|split].
  - unfold updateHub. destruct (Info h) as [a|]; [|by eexists]. destruct (HStatus h) as [st|]; [|by eexists].
    destruct (putHub h m) as [i m1]. cbv zeta. set (m2 := onPin i _ (onPin i _ m1)).
    destruct (updateLanes_total i (HubID h) (HubLanes st) m2) as [m3 ->]. cbn [mbind option_bind].
    set (removed := match pins m3 !! i with Some _ => _ | None => _ end). set (m4 := foldl _ m3 removed).
    destruct removed; [by eexists|]. destruct (recalculate_total m4) as [m5 ->]. by eexists.
  - unfold SetHome. destruct (mapAll m !! id) as [i|]; [|by eexists]. cbv zeta.
    match goal with |- context [recalculateReachableHubs ?x] => destruct (recalculate_total x) as [m' ->] end. by eexists.
  - unfold updateStates. cbv zeta. destruct (recalculate_total (updateActiveHubs now m)) as [m' ->]. by eexists.
Qed.

(** ** Lanes *)
Section lanes.
Context {IE : IntelEnv}.
Lemma visit_sim rec ls : (forall i h h', rec i h = Some h' -> sim h h') -> forall h h', visitLanes rec ls h = Some h' -> sim h h'.
Proof.
  intros Hr. induction ls as [|l ls IH]; intros h h'; cbn [visitLanes]; [by intros [= <-]|].
  destruct (rec (lanePin l) h) as [h1|] eqn:E; [|done]. cbn [mbind option_bind]. intros E2. eapply sim_trans; [by eapply Hr|by apply IH].
Qed.
Lemma mark_keeps_core fuel : forall d i h h', markReachable fuel d i h = Some h' -> sim h h'.
Proof.
  induction fuel as [|fuel IH]; intros d i h h'; [done|]. cbn [markReachable]. destruct (h !! i) as [pin|]; [|by intros [= <-]]. cbv zeta.
  assert (forall ls, visitLanes (markReachable fuel (d + 1)) ls (alter (mark d) i h) = Some h' -> sim h h') as Hp.
  { intros ls E. eapply sim_trans; [apply mark_sim|]. eapply visit_sim; [|exact E]. by apply IH. }
  destruct (negb _); [by apply Hp|]. destruct (_ <? _); [by apply Hp|]. by destruct (HasAnyOf _ _); intros [= <-].
Qed.
Definition lanesOf (m : Map) (i : nat) : option (gmap str Lane) := ConnectedTo <$> pins m !! i.
Definition hubAt (m : Map) (i : nat) : option Hub := pHub <$> pins m !! i.
Lemma core_hub p p' : core p' = core p -> pHub p' = pHub p.
Proof. intros E. by apply (f_equal pHub) in E. Qed.
Lemma markFrom_lanes d j m m' i : markFrom d j m = Some m' -> lanesOf m' i = lanesOf m i /\ mapAll m' = mapAll m /\ hubAt m' i = hubAt m i.
Proof.
  unfold markFrom. destruct (markReachable _ _ _ _) as [h|] eqn:E; [|done]. intros [= <-].
  apply mark_keeps_core in E. unfold lanesOf, hubAt. simpl. destruct (pins m !! i) as [p|] eqn:Ep.
  - destruct (sim_lookup _ _ _ _ E Ep) as (p' & -> & Hc). simpl. by rewrite (core_lanes _ _ Hc), (core_hub _ _ Hc).
  - destruct (h !! i) as [p'|] eqn:Ep'; [|done]. apply sim_sym in E. destruct (sim_lookup _ _ _ _ E Ep') as (p & ? & _). congruence.
Qed.
Definition laneOf (i : nat) (a : hubLane) (b : hubLane) : Lane :=
  let latency := combineLatency (LaneLatency a) (LaneLatency b) in
  let capacity := combineCapacity (LaneCapacity a) (LaneCapacity b) in
  mkLane i capacity latency (CalculateLaneCost latency capacity) true.
Definition announces (peer pin : Pin) : option hubLane := find (fun l => eqs (LaneID l) (pinID pin)) (HubLanes (statusOf peer)).
Lemma updateHubLane_lanes i l j m pin peer : i <> j -> pins m !! i = Some pin -> pins m !! j = Some peer ->
  exists m', updateHubLane i l j m = Some m' /\ mapAll m' = mapAll m /\
    lanesOf m' i = Some match announces peer pin with
      Some b => <[pinID peer := laneOf j l b]> (ConnectedTo pin) | None => delete (pinID peer) (ConnectedTo pin) end /\
    lanesOf m' j = Some match announces peer pin with
      Some b => <[pinID pin := laneOf i l b]> (ConnectedTo peer) | None => ConnectedTo peer end /\
    hubAt m' i = Some (pHub pin).
Proof.
  intros Hij Hi Hj. destruct (updateHubLane_total i l j m) as [m' E]. exists m'. split; [done|]. revert E.
  unfold updateHubLane. rewrite Hi, Hj. fold (announces peer pin). destruct (announces peer pin) as [b|].
  2: { intros [= <-]. unfold lanesOf, hubAt, dropLane, onPin. cbn. by rewrite list_lookup_alter_eq, (list_lookup_alter_ne _ _ _ _ Hij), Hi, Hj. }
  cbv zeta. set (m1 := setLane j _ _ (setLane i _ _ m)).
  assert (mapAll m1 = mapAll m /\ lanesOf m1 i = Some (<[pinID peer := laneOf j l b]> (ConnectedTo pin)) /\
    lanesOf m1 j = Some (<[pinID pin := laneOf i l b]> (ConnectedTo peer)) /\ hubAt m1 i = Some (pHub pin)) as (H0 & H1 & H2 & H4).
  { split; [done|]. unfold m1, lanesOf, hubAt, setLane, onPin. cbn. rewrite list_lookup_alter_ne, !list_lookup_alter_eq by done.
    rewrite (list_lookup_alter_ne _ _ i) by done. by rewrite Hi, Hj. }
  clearbody m1. rewrite <- H0, <- H1, <- H2, <- H4. clear H0 H1 H2 H4.
  assert (exists m2, (if Has (State pin) StateReachable then markFrom (HopDistance pin + 1) j m1 else Some m1) = Some m2 /\
    mapAll m2 = mapAll m1 /\ forall k, lanesOf m2 k = lanesOf m1 k /\ hubAt m2 k = hubAt m1 k) as (m2 & -> & H2 & H3).
  { destruct (Has _ _); [|by exists m1]. destruct (markFrom_total (HopDistance pin + 1) j m1) as [m2 E]. exists m2.
    split; [done|]. destruct (markFrom_lanes _ _ _ _ i E) as (_ & ? & _).
    split; [done|]. intros k. by destruct (markFrom_lanes _ _ _ _ k E) as (? & _ & ?). }
  cbn [mbind option_bind]. destruct (H3 i) as [<- <-], (H3 j) as [<- _]. rewrite <- H2. destruct (pins m2 !! j) as [p|]; [|by intros [= <-]].
  destruct (Has _ _); [|by intros [= <-]]. intros E.
  destruct (markFrom_lanes _ _ _ _ i E) as (? & ? & ?), (markFrom_lanes _ _ _ _ j E) as (? & _ & _). done.
Qed.
Lemma drop_fold id j kj ks : forall m, mapAll m !! kj = Some j -> (forall k, mapAll m !! k = Some j -> k = kj) -> forall c, lanesOf m j = Some c ->
  exists c', lanesOf (foldl (fun m k => match mapAll m !! k with Some j => dropLane j id m | None => m end) m ks) j = Some c' /\
    c' !! id = if bool_decide (kj ∈ ks) then None else c !! id.
Proof.
  induction ks as [|k ks IH]; intros m Hj Hinj c Hc; [by exists c|]. simpl.
  set (m1 := match mapAll m !! k with Some j => dropLane j id m | None => m end).
  assert (mapAll m1 = mapAll m /\ exists c1, lanesOf m1 j = Some c1 /\ c1 !! id = if bool_decide (k = kj) then None else c !! id) as (H0 & c1 & H1 & H2).
  { unfold m1. destruct (decide (k = kj)) as [->|Hne].
    - rewrite Hj, bool_decide_true by done. split; [done|]. exists (delete id c). split; [|apply lookup_delete_eq].
      unfold lanesOf, dropLane, onPin in *. cbn. rewrite list_lookup_alter_eq. destruct (pins m !! j); [|done]. by injection Hc as <-.
    - rewrite (bool_decide_false (k = kj)) by done. destruct (mapAll m !! k) as [j'|] eqn:Ek; [|split; [done|by exists c]]. split; [done|].
      exists c. split; [|done]. unfold lanesOf, dropLane, onPin in *. cbn. rewrite list_lookup_alter_ne; [done|].
      intros ->. apply Hne. by apply Hinj. }
  clearbody m1. destruct (IH m1) with (c := c1) as (c' & E & Hc'); [by rewrite H0|by rewrite H0|done|]. exists c'. split; [done|].
  rewrite Hc', H2. destruct (decide (k = kj)) as [->|Hne].
  - rewrite !(bool_decide_true (_ = _)), (bool_decide_true (kj ∈ kj :: ks)) by (done || left). by destruct (bool_decide _).
  - rewrite (bool_decide_false (k = kj)) by done. by rewrite (bool_decide_ext (kj ∈ k :: ks) (kj ∈ ks)) by (rewrite elem_of_cons; naive_solver).
Qed.
End lanes.

(** A hub that leaves the map after its last update, which saw a lane to a peer: the
    peer loses its lane to the hub exactly when it announces the lane itself.  If it
    does not, the update forgets the lane on the side of the hub only, and the peer
    keeps leading to the removed hub. *)
Theorem remove_hub_lanes `{IntelEnv} (m : Map) i l j pin peer : (forall ks, mapOrder ks ≡ₚ ks) ->
  pins m !! i = Some pin -> pins m !! j = Some peer -> pinID pin <> pinID peer ->
  mapAll m !! pinID pin = Some i -> mapAll m !! pinID peer = Some j ->
  (forall k i p, mapAll m !! k = Some i -> pins m !! i = Some p -> pinID p = k) ->
  exists m1, updateHubLane i l j m = Some m1 /\
    let m2 := RemoveHub (pinID pin) m1 in
    mapAll m2 !! pinID pin = None /\
    exists peer', pins m2 !! j = Some peer' /\
      ConnectedTo peer' !! pinID pin = match announces peer pin with Some _ => None | None => ConnectedTo peer !! pinID pin end.
Proof.
  intros Hord Hi Hj Hne Hai Haj Hkey. assert (i <> j) as Hij.
  { intros ->. rewrite Hi in Hj. by injection Hj as ->. }
  destruct (updateHubLane_lanes i l j m pin peer Hij Hi Hj) as (m1 & E & Hall & Hli & Hlj & Hhub). exists m1. split; [done|]. cbv zeta.
  unfold RemoveHub. rewrite Hall, Hai. cbv zeta. unfold lanesOf, hubAt in Hli, Hhub. destruct (pins m1 !! i) as [pin1|] eqn:Ep1; [|done].
  injection Hhub as Hhub. assert (pinID pin1 = pinID pin) as Hid1 by (unfold pinID; by rewrite Hhub).
  change (pins (m1 <| mapAll ::= delete (pinID pin) |>)) with (pins m1). rewrite Ep1, Hid1. injection Hli as Hli.
  set (m0 := m1 <| mapAll ::= delete (pinID pin) |>). assert (mapAll m0 = delete (pinID pin) (mapAll m)) as Hm0 by (simpl; by rewrite Hall).
  assert (lanesOf m0 j = lanesOf m1 j) as Hl0 by done. rewrite Hlj in Hl0. set (ks := mapOrder _).
  destruct (drop_fold (pinID pin) j (pinID peer) ks m0) with (c := match announces peer pin with
      Some b => <[pinID pin := laneOf i l b]> (ConnectedTo peer) | None => ConnectedTo peer end) as (c' & Hc' & Hid).
  - rewrite Hm0. by rewrite lookup_delete_ne.
  - intros k. rewrite Hm0. intros [_ Hk]%lookup_delete_Some. symmetry. by eapply Hkey.
  - done.
  - split.
    { assert (forall ks m, mapAll (foldl (fun m k => match mapAll m !! k with Some j => dropLane j (pinID pin) m | None => m end) m ks) = mapAll m) as Hf.
      { clear. intros ks. induction ks as [|k ks IH]; intros m; [done|]. simpl. rewrite IH. by destruct (mapAll m !! k). }
      rewrite Hf, Hm0. apply lookup_delete_eq. }
    apply fmap_Some in Hc' as (peer' & Hp' & ->). exists peer'. split; [exact Hp'|]. rewrite Hid.
    assert (pinID peer ∈ ks <-> is_Some (ConnectedTo pin1 !! pinID peer)) as Hks.
    { unfold ks. rewrite Hord, list_elem_of_fmap. split.
      - intros ([k x] & -> & Hx%elem_of_map_to_list). by eexists.
      - intros [x Hx]. exists (pinID peer, x). split; [done|]. by apply elem_of_map_to_list. }
    rewrite Hli in Hks. destruct (announces peer pin) as [b|].
    + rewrite bool_decide_true; [done|]. apply Hks. rewrite lookup_insert_eq. by eexists.
    + rewrite bool_decide_false; [done|]. rewrite Hks, lookup_delete_eq. by intros [? [=]].
Qed.

(** ** Routes *)
Lemma has_bits s a b : Has s (Add a b) = true -> Has s a = true /\ Has s b = true.
Proof.
  unfold Has, Add. rewrite !Z.eqb_eq. intros E. split; apply Z.bits_inj'; intros n Hn; apply (f_equal (fun z => Z.testbit z n)) in E;
    rewrite Z.land_spec, Z.lor_spec in *; destruct (Z.testbit s n), (Z.testbit a n), (Z.testbit b n); done.
Qed.
Lemma none_bits s a b : HasAnyOf s (Add a b) = false -> HasAnyOf s a = false /\ HasAnyOf s b = false.
Proof.
  unfold HasAnyOf, Add. rewrite !negb_false_iff, !Z.eqb_eq. intros E.
  split; apply Z.bits_inj'; intros n Hn; apply (f_equal (fun z => Z.testbit z n)) in E;
    rewrite Z.land_spec, Z.bits_0, ?Z.lor_spec in *; destruct (Z.testbit s n), (Z.testbit a n), (Z.testbit b n); done.
Qed.
Section found.
Context {IE : IntelEnv} {UT : UnicodeTables} {NE : NavEnv}.
Context (Hord : forall ks, mapOrder ks ≡ₚ ks).
(** Reachable, with a valid key, and not to be disregarded. *)
Definition usable (p : Pin) : Prop :=
  Has (State p) StateReachable = true /\ Has (State p) StateActive = true /\ HasAnyOf (State p) StateSummaryDisregard = false.
Definition withDefaults (o : option HubOptions) : Prop := NoDefaults (default emptyHubOptions o) = false.
Lemma transit_usable o i p : withDefaults o -> hubMatcher o TransitHub i p = true -> usable p.
Proof.
  unfold withDefaults, hubMatcher. cbv zeta. generalize (default emptyHubOptions o) as ho. intros ho Hd. unfold regardFor, disregardFor. rewrite Hd. cbv zeta.
  destruct (Has (State p) _) eqn:Eh; [|done]. destruct (HasAnyOf (State p) _) eqn:Ea; [done|]. intros _.
  apply has_bits in Eh as [_ Eh]. unfold StateSummaryRegard in Eh. apply has_bits in Eh as [? ?]. apply none_bits in Ea as [_ ?]. done.
Qed.
Definition routeOf (m : Map) (dsts : nearbyPins) (o : Options) (i : nat) : list Hop -> Prop :=
  arrives (pins m) (GetRoutingProfile (optRoutingProfile o)) (Matcher o TransitHub (intel m)) (Matcher o DestinationHub (intel m))
    (fun id => nbCost <$> nbGet (pins m) id dsts) i.
Lemma profile_bounds id : let rp := GetRoutingProfile id in (MinHops rp <= MaxHops rp)%nat /\ (1 <= MaxHops rp)%nat /\ (MinHops rp <= 3)%nat.
Proof. unfold GetRoutingProfile. repeat (destruct (eqs _ _); [simpl; lia|]). simpl. lia. Qed.
Lemma randomizeTop_perm {NL : NavLaws NE} {A} (cost : A -> float32) l : randomizeTop cost l ≡ₚ l.
Proof.
  destruct l as [|x [|y l]]; [done..|]. unfold randomizeTop. cbv zeta. destruct (2 <=? _)%nat; [|done].
  rewrite shuffle_perm. by rewrite take_drop.
Qed.
Lemma findRoutes_ok {NL : NavLaws NE} m dsts o i : home m = Some i -> (i < length (pins m))%nat ->
  exists res, findRoutes m dsts o = Some res /\
    match res with
    | inl e => e = ErrNoRoutes /\ ~ exists path, routeOf m dsts o i path
    | inr l => l <> [] /\ (length l <= 10)%nat /\ forall r, r ∈ l -> routeOf m dsts o i (Path r) /\ costed (pins m) r
    end.
Proof.
  intros Hh Hi. apply lookup_lt_is_Some in Hi as [pin Hp]. destruct (profile_bounds (optRoutingProfile o)) as (H1 & H2 & _).
  unfold findRoutes. rewrite Hh.
  destruct (explore_ok Hord (pins m) (GetRoutingProfile (optRoutingProfile o)) (Matcher o TransitHub (intel m)) (Matcher o DestinationHub (intel m))
    (fun id => nbCost <$> nbGet (pins m) id dsts) i pin H1 H2 Hp) as (rs & -> & [Hv [_ Hlen] _] & Hiff).
  cbn [mbind option_bind].
  assert (All rs <> [] -> exists res, Some (inr ((fun r => r <| Algorithm := optRoutingProfile o |>) <$> randomizeTop TotalCost (All rs))) = Some res /\
    match res with
    | inl e => e = ErrNoRoutes /\ ~ exists path, routeOf m dsts o i path
    | inr l => l <> [] /\ (length l <= 10)%nat /\ forall r, r ∈ l -> routeOf m dsts o i (Path r) /\ costed (pins m) r
    end) as Hfound.
  { intros Hne. eexists. split; [done|]. pose proof (randomizeTop_perm TotalCost (All rs)) as Hperm. split; [|split].
    - intros E. apply fmap_nil_inv in E. rewrite E in Hperm. by apply Permutation_nil_l in Hperm.
    - by rewrite length_fmap, Hperm.
    - intros r (r' & -> & Hr)%list_elem_of_fmap. rewrite Hperm in Hr. rewrite Forall_forall in Hv.
      destruct (Hv r' Hr) as [Ha Hc]. split; [exact Ha|]. unfold costed in *. simpl in *. rewrite Hc. by destruct r'. }
  destruct (All rs) as [|r0 l] eqn:Ea; [|by apply Hfound].
  eexists. split; [done|]. split; [done|]. intros Hex. by apply Hiff in Hex.
Qed.
(** No hub is used twice, when no lane leads from a hub to itself. *)
Lemma routed_nodup ps rp transit start path : (MinHops rp <= 3)%nat -> (forall i j, edge ps i j -> idOf ps i <> idOf ps j) ->
  routed ps rp transit start path -> NoDup (ids ps path).
Proof.
  intros Hmin Hself. induction 1 as [|path l pin Hr IH (h & p & k & Hl & Hp & Hk & Hpin) Ht path' Ha]; [apply NoDup_singleton|].
  unfold path', ids in *. rewrite fmap_app. cbn [fmap list_fmap]. apply NoDup_app. split; [exact IH|]. split; [|apply NoDup_singleton].
  intros x Hx E. apply list_elem_of_singleton in E as ->. cbn [compose hopPin] in Hx.
  destruct Ha as [Hlen|(_ & Hfresh & _)].
  - unfold path' in Hlen. rewrite length_app in Hlen. simpl in Hlen. destruct path as [|h1 [|h2 path]]; [done| |simpl in Hlen; lia].
    injection Hl as <-. apply list_elem_of_singleton in Hx. symmetry in Hx. revert Hx. apply Hself. by exists p, k, l.
  - unfold path', ids in Hfresh. rewrite fmap_app in Hfresh. cbn [fmap list_fmap] in Hfresh. rewrite last_snoc in Hfresh. apply (Hfresh _ eq_refl).
    rewrite length_app. cbn [length]. rewrite Nat.add_sub. rewrite <- (length_fmap (idOf ps ∘ hopPin) path), take_app_length. exact Hx.
Qed.
Lemma routed_usable m o rp i path : withDefaults (Transit o) -> routed (pins m) rp (Matcher o TransitHub (intel m)) i path ->
  forall h, h ∈ tail path -> exists p, pins m !! hopPin h = Some p /\ usable p.
Proof.
  intros Hd. induction 1 as [|path l pin Hr IH (h0 & p & k & _ & _ & _ & Hpin) Ht path' _]; intros h Hh; [by apply not_elem_of_nil in Hh|].
  unfold path' in Hh. destruct path as [|x path]; [by apply routed_nonempty in Hr|]. cbn [tail app] in Hh.
  apply elem_of_app in Hh as [Hh|Hh]; [by apply IH|]. apply list_elem_of_singleton in Hh as ->. exists pin. split; [done|].
  by eapply transit_usable.
Qed.
Lemma routed_length ps rp transit start path : (MinHops rp <= MaxHops rp)%nat -> (1 <= MaxHops rp)%nat -> routed ps rp transit start path -> (length path <= MaxHops rp)%nat.
Proof. intros H1 H2. destruct 1 as [|path l pin _ _ _ path' [?|[? _]]]; [simpl; lia|lia|done]. Qed.
End found.

(** C23. Finding routes ends and is complete: it fails exactly when no route goes over
    lanes and transit hubs to one of the selected destinations, in the bounds of the
    routing profile and the sessions in use; else it gives between one and ten such
    routes with their costs, whatever the pruning by cost and extra hops leaves out. *)
Theorem find_routes `{IntelEnv, UnicodeTables, NE : NavEnv, !NavLaws NE} m dsts o i :
  (forall ks, mapOrder ks ≡ₚ ks) -> home m = Some i -> (i < length (pins m))%nat ->
  exists res, findRoutes m dsts o = Some res /\
    match res with
    | inl e => e = ErrNoRoutes /\ ~ exists path, routeOf m dsts o i path
    | inr l => l <> [] /\ (length l <= 10)%nat /\ forall r, r ∈ l -> routeOf m dsts o i (Path r) /\ costed (pins m) r
    end.
Proof. intros Hord Hh Hi. by apply findRoutes_ok. Qed.
(** C24. With the default states, routes to an IP address never use a hub twice, have the
    number of hops the routing profile asks for, start at the home hub, and every other
    hub on them is reachable, active and not to be disregarded. *)
Theorem routes_usable `{IntelEnv, UnicodeTables, NE : NavEnv, !NavLaws NE} m dsts o i l r :
  (forall ks, mapOrder ks ≡ₚ ks) -> home m = Some i -> (i < length (pins m))%nat -> withDefaults (Transit o) ->
  (forall i j, edge (pins m) i j -> idOf (pins m) i <> idOf (pins m) j) ->
  findRoutes m dsts o = Some (inr l) -> r ∈ l ->
  let rp := GetRoutingProfile (optRoutingProfile o) in
  NoDup (ids (pins m) (Path r)) /\ (MinHops rp <= length (Path r) <= MaxHops rp)%nat /\ hopPin <$> head (Path r) = Some i /\
  forall h, h ∈ tail (Path r) -> exists p, pins m !! hopPin h = Some p /\ usable p.
Proof.
  intros Hord Hh Hi Hd Hself E Hr rp. destruct (findRoutes_ok Hord m dsts o i Hh Hi) as (res & E' & Hres). rewrite E in E'. injection E' as <-.
  destruct Hres as (_ & _ & Hall). destruct (Hall r Hr) as [(Hrt & Hmin & _) _]. destruct (profile_bounds (optRoutingProfile o)) as (H1 & H2 & H3).
  split; [by eapply routed_nodup|]. split; [split; [exact Hmin|by eapply routed_length]|]. split; [|by eapply routed_usable].
  clear -Hrt. induction Hrt as [|path l pin _ IH _ _ path' _]; [done|]. unfold path'. by destruct path.
Qed.

(** ** Witnesses *)
(** A home hub, a hub next to it and one behind that, which does not announce its lane. *)
Module NavDemo.
Definition env : IntelEnv := {|
  geoipGetLocation _ := inr $"not found";
  LookupDomain _ := inl []; LookupASNString _ := inl []; LookupCountry _ := inl []; LookupIP _ := inl [];
  reverseResolver := None; PublicSuffix d := (d, true); mapOrder ks := ks;
|}.
Definition ut : UnicodeTables := {| unicodeLower := id; unicodeUpper := id |}.
Definition nav : NavEnv := {|
  shuffle _ l := l; pdqsort _ _ l := l; EstimateNetworkProximity _ _ := f32 50; IsAnycast _ := false;
|}.
Lemma laws : NavLaws nav.
Proof. by split. Qed.
Definition hub (id : str) (lanes : list hubLane) : Hub :=
  mkHub id (Some (mkAnnouncement id [] [] [] [] [] None None [] [] [])) (Some (mkStatus 1 [] [] lanes 0 [])) 1 false false.
Definition lane (j : nat) : Lane := mkLane j 0 0 (f32 10) true.
Definition withLane (kj : str * nat) : str * Lane := (kj.1, lane kj.2).
Definition pin (id : str) (announced : list str) (state : PinState) (lanes : list (str * nat)) : Pin :=
  mkPin (hub id ((fun k => mkHubLane k 0 0) <$> announced)) None None None None (Add StateSummaryRegard state) [] 0 (f32 0)
    (list_to_map (withLane <$> lanes)) 0 None.
Definition all : list (str * nat) := [($"h", 0%nat); ($"a", 1%nat); ($"b", 2%nat)].
Definition m : Map := mkMap
  [pin $"h" [$"a"] StateIsHomeHub [($"a", 1%nat)];
   pin $"a" [$"h"; $"b"] StateNone [($"h", 0%nat); ($"b", 2%nat)];
   pin $"b" [] StateNone [($"a", 1%nat)]] (list_to_map all) (Some 0%nat) None.
Definition toB : nearbyPins := mkNearbyPins [mkNearby 2 (f32 0)] (f32 0).
Definition paths (r : option (navErr + list Route)) : list (list nat) :=
  match r with Some (inr l) => fmap hopPin ∘ Path <$> l | _ => [] end.
Lemma order (ks : list str) : mapOrder (IntelEnv := env) ks ≡ₚ ks.
Proof. done. Qed.
Lemma member k i : mapAll m !! k = Some i -> (k, i) ∈ all.
Proof. intros H. by apply elem_of_list_to_map_2. Qed.
Lemma key k i p : mapAll m !! k = Some i -> pins m !! i = Some p -> pinID p = k.
Proof.
  intros H. apply member in H. unfold all in H. rewrite !elem_of_cons in H.
  destruct H as [[= -> ->]|[[= -> ->]|[[= -> ->]|H]]]; [..|by apply not_elem_of_nil in H]; intros E; apply (inj Some) in E as <-; reflexivity.
Qed.
Lemma inside i : inMap m i <-> (i < 3)%nat.
Proof.
  split.
  - intros [k H]. apply member in H. unfold all in H. rewrite !elem_of_cons in H.
    destruct H as [[= -> ->]|[[= -> ->]|[[= -> ->]|H]]]; [lia..|by apply not_elem_of_nil in H].
  - intros H. destruct i as [|[|[|i]]]; [by exists $"h"|by exists $"a"|by exists $"b"|lia].
Qed.
Lemma lanes_of (l : list (str * nat)) k x : list_to_map (M := gmap str Lane) (withLane <$> l) !! k = Some x -> exists j, (k, j) ∈ l /\ x = lane j.
Proof. intros H. apply elem_of_list_to_map_2, list_elem_of_fmap in H as ([k' j] & [= -> ->] & H). by exists j. Qed.
Lemma edges i j : edge (pins m) i j -> (i, j) ∈ [(0, 1); (1, 0); (1, 2); (2, 1)]%nat.
Proof.
  intros (p & k & l & Hp & Hk & <-). destruct i as [|[|[|i]]]; [apply (inj Some) in Hp as <-..|by destruct i]; apply lanes_of in Hk as (j & Hj & ->);
    rewrite ?elem_of_cons, elem_of_nil in Hj; cbn [lane lanePin]; (repeat destruct Hj as [Hj|Hj]); first [injection Hj as -> ->; repeat constructor|destruct Hj].
Qed.
End NavDemo.
#[local] Existing Instances NavDemo.env NavDemo.ut NavDemo.nav NavDemo.laws.
Lemma reachable_spec_witness :
  exists m' p', recalculateReachableHubs NavDemo.m = Some m' /\ pins m' !! 2%nat = Some p' /\
    exists n, nearest NavDemo.m 0 2 n /\ HopDistance p' = 1 + Z.of_nat n /\ HopDistance p' = 3.
Proof.
  assert (forall i j, edge (pins NavDemo.m) i j -> (j < 3)%nat) as Hl.
  { intros i j Hj%NavDemo.edges. rewrite !elem_of_cons, elem_of_nil in Hj.
    (repeat destruct Hj as [Hj|Hj]); first [injection Hj as -> ->; lia|destruct Hj]. }
  assert (valid NavDemo.m) as Hv.
  { split; [intros i Hi%NavDemo.inside; exact Hi|intros i Hi; apply (inj Some) in Hi; subst i; simpl; lia|exact Hl]. }
  destruct (reachable_spec NavDemo.m 0 NavDemo.order eq_refl Hv) as [(m' & E & _ & H) _].
  assert (from_option HopDistance 0 (m ← recalculateReachableHubs NavDemo.m; pins m !! 2%nat) = 3) as Hd by (vm_compute; reflexivity).
  destruct (H 2%nat) as (p & p' & _ & Hp' & _ & Hcase); [apply NavDemo.inside; lia|].
  rewrite E in Hd. cbn [mbind option_bind] in Hd. rewrite Hp' in Hd. cbn [from_option] in Hd.
  exists m', p'. split; [exact E|]. split; [exact Hp'|].
  destruct Hcase as [(n & Hn & _ & Hdn)|(_ & _ & H0)]; [exists n; auto|rewrite Hd in H0; discriminate].
Defined.
(** The pin in the middle is removed and stays the end of a lane: it keeps its mark, and the
    pin behind it is no longer reached. *)
Example removed_pin_blocks :
  let hops m := from_option (fun m => map HopDistance (pins m)) [] (recalculateReachableHubs m) in
  hops NavDemo.m = [1; 2; 3] /\
  hops (from_option (fun m => m <| mapAll ::= delete $"a" |>) NavDemo.m (recalculateReachableHubs NavDemo.m)) = [1; 2; 0] /\
  rtc (edge (pins NavDemo.m)) 0%nat 2%nat.
Proof.
  split; [vm_compute; reflexivity|]. split; [vm_compute; reflexivity|].
  apply (rtc_l _ _ 1%nat); [do 3 eexists; split; [reflexivity|]; split; [instantiate (1 := NavDemo.lane 1); instantiate (1 := $"a"); vm_compute; reflexivity|reflexivity]|].
  apply rtc_once. do 3 eexists. split; [reflexivity|]. split; [|instantiate (1 := NavDemo.lane 2); reflexivity].
  instantiate (1 := $"b"). vm_compute. reflexivity.
Qed.
Lemma remove_hub_lanes_witness :
  exists m1 peer, updateHubLane 1 (mkHubLane $"b" 0 0) 2 NavDemo.m = Some m1 /\
    mapAll (RemoveHub $"a" m1) !! $"a" = None /\
    pins (RemoveHub $"a" m1) !! 2%nat = Some peer /\ ConnectedTo peer !! $"a" = Some (NavDemo.lane 1).
Proof.
  destruct (remove_hub_lanes NavDemo.m 1 (mkHubLane $"b" 0 0) 2 _ _ NavDemo.order eq_refl eq_refl ltac:(discriminate) eq_refl eq_refl NavDemo.key)
    as (m1 & E & H1 & peer & H2 & H3).
  exists m1, peer. split; [exact E|]. split; [exact H1|]. split; [exact H2|]. refine (eq_trans H3 _). reflexivity.
Defined.
Lemma find_routes_witness :
  (exists l, findRoutes NavDemo.m NavDemo.toB defaultOptions = Some (inr l) /\ l <> [] /\ fmap hopPin ∘ Path <$> l = [[0; 1; 2]%nat] /\
     exists r, r ∈ l /\ routeOf NavDemo.m NavDemo.toB defaultOptions 0 (Path r)) /\
  (findRoutes NavDemo.m (mkNearbyPins [] (f32 0)) defaultOptions = Some (inl ErrNoRoutes) /\
     ~ exists path, routeOf NavDemo.m (mkNearbyPins [] (f32 0)) defaultOptions 0 path).
Proof.
  pose proof (fun dsts => find_routes NavDemo.m dsts defaultOptions 0 NavDemo.order eq_refl ltac:(simpl; lia)) as H. split.
  - destruct (H NavDemo.toB) as (res & E & Hres).
    assert (NavDemo.paths (findRoutes NavDemo.m NavDemo.toB defaultOptions) = [[0; 1; 2]%nat]) as Hp by (vm_compute; reflexivity).
    rewrite E in Hp. destruct res as [e|l]; [discriminate|]. destruct Hres as (Hne & _ & Hall). exists l. split; [exact E|]. split; [exact Hne|].
    split; [exact Hp|]. destruct l as [|r l]; [contradiction|]. exists r. split; [left|]. apply Hall. left.
  - destruct (H (mkNearbyPins [] (f32 0))) as (res & E & Hres).
    assert (match findRoutes NavDemo.m (mkNearbyPins [] (f32 0)) defaultOptions with Some (inl _) => true | _ => false end = true) as Hp by (vm_compute; reflexivity).
    rewrite E in Hp. destruct res as [e|l]; [|discriminate]. destruct Hres as [-> Hno]. split; [exact E|exact Hno].
Defined.
Lemma routes_usable_witness :
  exists l r, findRoutes NavDemo.m NavDemo.toB defaultOptions = Some (inr l) /\ r ∈ l /\
    NoDup (ids (pins NavDemo.m) (Path r)) /\ (2 <= length (Path r) <= 4)%nat /\ hopPin <$> head (Path r) = Some 0%nat.
Proof.
  assert (NavDemo.paths (findRoutes NavDemo.m NavDemo.toB defaultOptions) = [[0; 1; 2]%nat]) as Hp by (vm_compute; reflexivity).
  destruct (findRoutes NavDemo.m NavDemo.toB defaultOptions) as [[e|[|r l]]|] eqn:E; [discriminate..| |discriminate].
  assert (r ∈ r :: l) as Hr by left. exists (r :: l), r. split; [reflexivity|]. split; [exact Hr|].
  assert (forall i j, edge (pins NavDemo.m) i j -> idOf (pins NavDemo.m) i <> idOf (pins NavDemo.m) j) as Hself.
  { intros i j Hj%NavDemo.edges. rewrite !elem_of_cons, elem_of_nil in Hj.
    (repeat destruct Hj as [Hj|Hj]); first [injection Hj as -> ->; discriminate|destruct Hj]. }
  destruct (routes_usable NavDemo.m NavDemo.toB defaultOptions 0 (r :: l) r NavDemo.order eq_refl ltac:(simpl; lia) eq_refl Hself E Hr)
    as (H1 & H2 & H3 & _). auto.
Defined.
