(* ===== verification/Query.v ===== *)
(** * Database queries (base/database/query)

    Conditions on the values of records, their text form, and the parser of queries.
    Regular expressions, the text of floating point numbers and quoting are parameters;
    [float64] is the binary64 format of [SpecFloat].  [None] as a text or a comparison
    stands for a panic, as an answer of the parser for too little fuel. *)

From Stdlib Require Import SpecFloat.
From S2P Require Import Prelude GoStrings GoText GoNet DbRecord.

(** ** Text *)
(** The bytes of the character at the head of a string; invalid bytes are characters. *)
Definition cont : ascii -> bool := inRange 128 191.
Definition runeLen (s : str) : nat :=
  match s with
  | a :: b :: r =>
      if inRange 194 223 a then if cont b then 2%nat else 1%nat
      else
        let three := (code a =? 224) && inRange 160 191 b || (inRange 225 236 a || inRange 238 239 a) && cont b || (code a =? 237) && inRange 128 159 b in
        let four := (code a =? 240) && inRange 144 191 b || inRange 241 243 a && cont b || (code a =? 244) && inRange 128 143 b in
        match r with
        | c :: r =>
            if three && cont c then 3%nat else
            match r with d :: _ => if four && cont c && cont d then 4%nat else 1%nat | [] => 1%nat end
        | [] => 1%nat
        end
  | _ => 1%nat
  end.
Fixpoint dropWhile (f : ascii -> bool) (s : str) : str := match s with c :: r => if f c then dropWhile f r else s | [] => [] end.
Definition quote : ascii := ascii_of_nat 34.
Definition backslash : ascii := ascii_of_nat 92.
Definition isQuote (c : ascii) : bool := bool_decide (c = quote).
(** [strings.Trim] of quotation marks. *)
Definition TrimQuotes (s : str) : str := rev (dropWhile isQuote (rev (dropWhile isQuote s))).
(** A backslash that another character follows goes. *)
Fixpoint unescape (s : str) : str :=
  match s with
  | c :: (d :: r) as s' => if bool_decide (c = backslash) && negb (bool_decide (d = backslash)) then d :: unescape r else c :: unescape s'
  | s => s
  end.
Definition prepToken (text : str) : str := unescape (TrimQuotes text).
Definition specialChar (c : ascii) : bool := oneOf (quote :: backslash :: $"() " ++ (ascii_of_nat <$> [9; 10; 13]%nat)) c.
Definition escapeQuotes (s : str) : str := s ≫= fun c => if isQuote c then [backslash; quote] else [c].
Definition escapeString (token : str) : str := if existsb specialChar token then quote :: escapeQuotes token ++ [quote] else token.

(** [strconv.ParseInt(s, 10, 64)]. *)
Inductive numErr := ErrSyntax | ErrRange.
Definition maxUint64 : Z := 2 ^ 64 - 1.
Fixpoint parseUintGo (n : Z) (s : str) : Z + numErr :=
  match s with
  | [] => inl n
  | c :: s => if negb (isDigit c) then inr ErrSyntax
      else if maxUint64 <? n * 10 + digitVal c then inr ErrRange else parseUintGo (n * 10 + digitVal c) s
  end.
Definition ParseInt (s : str) : Z + numErr :=
  let '(neg, d) := match s with c :: r => if bool_decide (c = "-"%char) then (true, r) else if bool_decide (c = "+"%char) then (false, r) else (false, s) | [] => (false, s) end in
  match d with
  | [] => inr ErrSyntax
  | _ =>
      match parseUintGo 0 d with
      | inr e => inr e
      | inl n => if neg : bool then if n <=? 2 ^ 63 then inl (- n) else inr ErrRange else if n <? 2 ^ 63 then inl n else inr ErrRange
      end
  end.
Definition ParseBool (s : str) : option bool :=
  if existsb (eqs s) [$"1"; $"t"; $"T"; $"TRUE"; $"true"; $"True"] then Some true
  else if existsb (eqs s) [$"0"; $"f"; $"F"; $"FALSE"; $"false"; $"False"] then Some false else None.
Definition FormatBool (b : bool) : str := if b then $"true" else $"false".

Definition float64 : Type := spec_float.
Definition f64 (z : Z) : float64 := binary_normalize 53 1024 z 0 false.

(** ** The values of records, and what the conditions use *)
Record Accessor := {
  GetString : str -> option str; GetInt : str -> option Z; GetFloat : str -> option float64; GetBool : str -> option bool;
  Exists_ : str -> bool;
}.
(** The dynamic type of a value; [GVOther] is shown as by [%v]. *)
Inductive goValue := GVInt (z : Z) | GVFloat (f : float64) | GVString (s : str) | GVStrings (l : list str) | GVBool (b : bool) | GVOther (shown : str).
Class QueryEnv := {
  Regexp : Type;
  (** The error text of a text that does not compile. *)
  Compile : str -> Regexp + str;
  MatchString : Regexp -> str -> bool;
  RegexpString : Regexp -> str;
  ParseFloat : str -> float64 + str;
  (** The [%g] form. *)
  FormatFloat : float64 -> str;
  (** [strconv.Quote] *)
  Quote : str -> str;
  (** The [%v] form of a value, for errors. *)
  showValue : goValue -> str;
}.

(** ** Operators *)
Definition Equals : Z := 0.
Definition GreaterThan : Z := 1.
Definition GreaterThanOrEqual : Z := 2.
Definition LessThan : Z := 3.
Definition LessThanOrEqual : Z := 4.
Definition FloatEquals : Z := 5.
Definition FloatGreaterThan : Z := 6.
Definition FloatGreaterThanOrEqual : Z := 7.
Definition FloatLessThan : Z := 8.
Definition FloatLessThanOrEqual : Z := 9.
Definition SameAs : Z := 10.
Definition OpContains : Z := 11.
Definition StartsWith : Z := 12.
Definition EndsWith : Z := 13.
Definition In_ : Z := 14.
Definition Matches_ : Z := 15.
Definition Is : Z := 16.
Definition Exists : Z := 17.
Definition errorPresent : Z := 255.
Definition operatorNames : list (str * Z) := [
  ($"==", Equals); ($">", GreaterThan); ($">=", GreaterThanOrEqual); ($"<", LessThan); ($"<=", LessThanOrEqual);
  ($"f==", FloatEquals); ($"f>", FloatGreaterThan); ($"f>=", FloatGreaterThanOrEqual); ($"f<", FloatLessThan); ($"f<=", FloatLessThanOrEqual);
  ($"sameas", SameAs); ($"s==", SameAs); ($"contains", OpContains); ($"co", OpContains); ($"startswith", StartsWith); ($"sw", StartsWith);
  ($"endswith", EndsWith); ($"ew", EndsWith); ($"in", In_); ($"matches", Matches_); ($"re", Matches_); ($"is", Is);
  ($"exists", Exists); ($"ex", Exists)].
Definition operatorNamed (name : str) : option Z := snd <$> find (fun p => eqs p.1 name) operatorNames.
(** The longest name. *)
Definition primaryName (op : Z) : option str :=
  foldl (fun acc p => if p.2 =? op then match acc with Some n => if (length n <? length p.1)%nat then Some p.1 else acc | None => Some p.1 end else acc)
    None operatorNames.
Definition getOpName (op : Z) : str := default $"[unknown]" (primaryName op).

Section query.
Context {QE : QueryEnv}.

(** ** Conditions *)
(** The value decides the type of a leaf: [intCondition], [floatCondition], ...; a regular
    expression that did not compile is missing. *)
Inductive condValue := VInt (z : Z) | VFloat (f : float64) | VString (s : str) | VSlice (l : list str) | VRegex (r : option Regexp) | VBool (b : bool) | VExists.
Inductive Condition :=
| leaf (key : str) (operator : Z) (v : condValue)
| andCond (conditions : list Condition)
| orCond (conditions : list Condition)
| notCond (c : Condition)
| errorCond (e : str).
Definition cannotParse (before v after : str) : str := $"could not parse " ++ before ++ v ++ after.
Definition numErrText (fn s : str) (e : numErr) : str :=
  $"strconv." ++ fn ++ $": parsing " ++ Quote s ++ $": " ++ match e with ErrSyntax => $"invalid syntax" | ErrRange => $"value out of range" end.
Definition incompatible (v : goValue) (type : str) : str := $"incompatible value " ++ showValue v ++ $" for " ++ type.
Definition quoted (s : str) : str := quote :: s ++ [quote].
Definition newIntCondition (key : str) (op : Z) (v : goValue) : Condition :=
  match v with
  | GVInt z => leaf key op (VInt (i64 z))
  | GVString s =>
      match ParseInt s with
      | inl z => leaf key op (VInt z)
      | inr e => leaf (cannotParse [] s ($" to int64: " ++ numErrText $"ParseInt" s e ++ $" (hint: use " ++ quoted $"sameas" ++ $" to compare strings)")) errorPresent (VInt 0)
      end
  | _ => leaf (incompatible v $"int64") errorPresent (VInt 0)
  end.
Definition newFloatCondition (key : str) (op : Z) (v : goValue) : Condition :=
  match v with
  | GVInt z => leaf key op (VFloat (f64 z))
  | GVFloat f => leaf key op (VFloat f)
  | GVString s =>
      match ParseFloat s with
      | inl f => leaf key op (VFloat f)
      | inr e => leaf (cannotParse [] s ($" to float64: " ++ e)) errorPresent (VFloat (f64 0))
      end
  | _ => leaf (incompatible v $"float64") errorPresent (VFloat (f64 0))
  end.
Definition newStringCondition (key : str) (op : Z) (v : goValue) : Condition :=
  match v with GVString s => leaf key op (VString s) | _ => leaf (incompatible v $"string") errorPresent (VString []) end.
Definition newStringSliceCondition (key : str) (op : Z) (v : goValue) : Condition :=
  match v with
  | GVString s => let l := Split s "," in if (length l <? 2)%nat then leaf s errorPresent (VSlice []) else leaf key op (VSlice l)
  | GVStrings l => leaf key op (VSlice l)
  | _ => leaf (incompatible v $"[]string") errorPresent (VSlice [])
  end.
Definition newRegexCondition (key : str) (op : Z) (v : goValue) : Condition :=
  match v with
  | GVString s =>
      match Compile s with
      | inl r => leaf key op (VRegex (Some r))
      | inr e => leaf ($"could not compile regex " ++ quoted s ++ $": " ++ e) errorPresent (VRegex None)
      end
  | _ => leaf (incompatible v $"string") errorPresent (VRegex None)
  end.
Definition newBoolCondition (key : str) (op : Z) (v : goValue) : Condition :=
  match v with
  | GVBool b => leaf key op (VBool b)
  | GVString s =>
      match ParseBool s with
      | Some b => leaf key op (VBool b)
      | None => leaf (cannotParse [] (quoted s) ($" to bool: " ++ numErrText $"ParseBool" s ErrSyntax)) errorPresent (VBool false)
      end
  | _ => leaf (incompatible v $"int64") errorPresent (VBool false)
  end.
Definition newExistsCondition (key : str) (op : Z) : Condition := leaf key op VExists.
Definition Where (key : str) (op : Z) (v : goValue) : Condition :=
  if (Equals <=? op) && (op <=? LessThanOrEqual) then newIntCondition key op v
  else if (FloatEquals <=? op) && (op <=? FloatLessThanOrEqual) then newFloatCondition key op v
  else if (SameAs <=? op) && (op <=? EndsWith) then newStringCondition key op v
  else if op =? In_ then newStringSliceCondition key op v
  else if op =? Matches_ then newRegexCondition key op v
  else if op =? Is then newBoolCondition key op v
  else if op =? Exists then newExistsCondition key op
  else errorCond ($"no operator with ID " ++ Itoa op).

Definition intComplies (acc : Accessor) (key : str) (op z : Z) : bool :=
  match GetInt acc key with
  | None => false
  | Some comp =>
      if op =? Equals then comp =? z else if op =? GreaterThan then z <? comp else if op =? GreaterThanOrEqual then z <=? comp
      else if op =? LessThan then comp <? z else if op =? LessThanOrEqual then comp <=? z else false
  end.
Definition floatComplies (acc : Accessor) (key : str) (op : Z) (f : float64) : bool :=
  match GetFloat acc key with
  | None => false
  | Some comp =>
      if op =? FloatEquals then SFeqb comp f else if op =? FloatGreaterThan then SFltb f comp else if op =? FloatGreaterThanOrEqual then SFleb f comp
      else if op =? FloatLessThan then SFltb comp f else if op =? FloatLessThanOrEqual then SFleb comp f else false
  end.
Definition stringComplies (acc : Accessor) (key : str) (op : Z) (s : str) : bool :=
  match GetString acc key with
  | None => false
  | Some comp =>
      if op =? SameAs then eqs s comp else if op =? OpContains then Contains comp s else if op =? StartsWith then HasPrefix comp s
      else if op =? EndsWith then HasSuffix comp s else false
  end.
Definition stringSliceComplies (acc : Accessor) (key : str) (op : Z) (l : list str) : bool :=
  match GetString acc key with Some comp => (op =? In_) && bool_decide (comp ∈ l) | None => false end.
Definition regexComplies (acc : Accessor) (key : str) (op : Z) (r : option Regexp) : option bool :=
  match GetString acc key with
  | Some comp => if op =? Matches_ then r ← r; Some (MatchString r comp) else Some false
  | None => Some false
  end.
Definition boolComplies (acc : Accessor) (key : str) (op : Z) (b : bool) : bool :=
  match GetBool acc key with Some comp => (op =? Is) && Bool.eqb comp b | None => false end.
Definition leafComplies (acc : Accessor) (key : str) (op : Z) (v : condValue) : option bool :=
  match v with
  | VInt z => Some (intComplies acc key op z)
  | VFloat f => Some (floatComplies acc key op f)
  | VString s => Some (stringComplies acc key op s)
  | VSlice l => Some (stringSliceComplies acc key op l)
  | VRegex r => regexComplies acc key op r
  | VBool b => Some (boolComplies acc key op b)
  | VExists => Some (Exists_ acc key)
  end.
(** The loops of [andCond] and [orCond] stop at the first condition that decides. *)
Fixpoint complies (acc : Accessor) (c : Condition) : option bool :=
  match c with
  | leaf key op v => leafComplies acc key op v
  | andCond l => (fix all l := match l with [] => Some true | c :: l => b ← complies acc c; if b : bool then all l else Some false end) l
  | orCond l => (fix any l := match l with [] => Some false | c :: l => b ← complies acc c; if b : bool then Some true else any l end) l
  | notCond c => negb <$> complies acc c
  | errorCond _ => Some false
  end.
(** The first error. *)
Fixpoint check (c : Condition) : option str :=
  match c with
  | leaf key op v =>
      if op =? errorPresent then
        Some match v with VSlice _ => cannotParse [] (quoted key) $" to []string" | _ => key end
      else None
  | andCond l | orCond l => (fix first l := match l with [] => None | c :: l => match check c with Some e => Some e | None => first l end end) l
  | notCond c => check c
  | errorCond e => Some e
  end.
Definition valueString (v : condValue) : option str :=
  match v with
  | VInt z => Some (Itoa z)
  | VFloat f => Some (FormatFloat f)
  | VString s => Some (escapeString s)
  | VSlice l => Some (escapeString (Join l $","))
  | VRegex r => r ← r; Some (escapeString (RegexpString r))
  | VBool b => Some (FormatBool b)
  | VExists => Some []
  end.
Definition leafString (key : str) (op : Z) (v : condValue) : option str :=
  match v with
  | VExists => Some (escapeString key ++ $" " ++ getOpName op)
  | _ => s ← valueString v; Some (escapeString key ++ $" " ++ getOpName op ++ $" " ++ s)
  end.
Definition negated (next : str) : str :=
  if HasPrefix next $"(" then $"not " ++ next
  else match Split next " " with w :: ws => Join (w :: $"not" :: ws) $" " | [] => [] end.
Fixpoint string_ (c : Condition) : option str :=
  match c with
  | leaf key op v => leafString key op v
  | andCond l => all ← (fix strings l := match l with [] => Some [] | c :: l => s ← string_ c; ss ← strings l; Some (s :: ss) end) l;
      Some ($"(" ++ Join all $" and " ++ $")")
  | orCond l => all ← (fix strings l := match l with [] => Some [] | c :: l => s ← string_ c; ss ← strings l; Some (s :: ss) end) l;
      Some ($"(" ++ Join all $" or " ++ $")")
  | notCond c => negated <$> string_ c
  | errorCond _ => Some $"[ERROR]"
  end.

(** ** Queries *)
Record Query := mkQuery { checked : bool; qdbName : str; dbKeyPrefix : str; where_ : option Condition; orderBy : str; limit : Z; offset : Z }.
#[export] Instance eta_Query : Eta Query := fun q => mkQuery (checked q) (qdbName q) (dbKeyPrefix q) (where_ q) (orderBy q) (limit q) (offset q).
Definition New (prefix : str) : Query := let '(db, key) := ParseKey prefix in mkQuery false db key None [] 0 0.
Definition QWhere (c : Condition) (q : Query) : Query := q <| where_ := Some c |>.
Definition Limit (n : Z) (q : Query) : Query := q <| limit := n |>.
Definition Offset (n : Z) (q : Query) : Query := q <| offset := n |>.
Definition OrderBy (key : str) (q : Query) : Query := q <| orderBy := key |>.
Definition Check_ (q : Query) : Query + str :=
  if checked q then inl q else
  match where_ q ≫= check with Some e => inr e | None => inl (q <| checked := true |>) end.
Definition MatchesKey (q : Query) (key : str) : bool := HasPrefix key (dbKeyPrefix q).
Definition HasWhereCondition (q : Query) : bool := match where_ q with Some _ => true | None => false end.
Definition MatchesAccessor (q : Query) (acc : Accessor) : option bool :=
  match where_ q with None => Some true | Some c => complies acc c end.
(** A record may have no accessor. *)
Definition MatchesRecord (q : Query) (acc : option Accessor) : option bool :=
  match where_ q with None => Some true | Some c => match acc with Some acc => complies acc c | None => Some false end end.
Definition Matches (q : Query) (key : str) (acc : option Accessor) : option bool :=
  if MatchesKey q key then MatchesRecord q acc else Some false.
Definition clause (name : str) (n : Z) : str := if 0 <? n then $" " ++ name ++ $" " ++ Itoa n else [].
Definition whereText (s : str) : str :=
  match s with
  | [] => []
  | _ => $" where " ++ (if HasPrefix s $"(" then take (length s - 2) (drop 1 s) else s)
  end.
Definition Print_ (q : Query) : option str :=
  w ← match where_ q with None => Some [] | Some c => whereText <$> string_ c end;
  Some ($"query " ++ qdbName q ++ $":" ++ dbKeyPrefix q ++ w ++
    match orderBy q with [] => [] | o => $" orderby " ++ o end ++ clause $"limit" (limit q) ++ clause $"offset" (offset q)).

(** ** The words of a query *)
Record snippet := mkSnippet { text : str; globalPosition : Z }.
Inductive queryErr :=
| UnexpectedEnd (pos : Z) | NoQueryWord | Duplicate (clause : str) (pos : Z) | NoInteger (text : str) (pos : Z)
| UnknownClause (text : str) (pos : Z) | QuoteInWord (pos : Z) | MixedAndOr (pos : Z) | UnknownOperator (pos : Z) | BadCondition (e : str).
(** [pos]: where the last character starts. *)
Record lexer := mkLexer { skip : bool; start : option nat; inParenthesis : bool; snippets : list snippet; pos : nat }.
#[export] Instance eta_lexer : Eta lexer := fun s => mkLexer (skip s) (start s) (inParenthesis s) (snippets s) (pos s).
Section lex.
Context (txt : str).
Definition slice (a b : nat) : str := take (b - a) (drop a txt).
Definition addSnippet (t : str) (p : nat) (s : lexer) : lexer := s <| snippets ::= fun l => l ++ [mkSnippet t (Z.of_nat p)] |>.
Definition isSeparator (c : ascii) : bool := oneOf ((ascii_of_nat <$> [9; 10; 13]%nat) ++ $" ()") c.
Definition isParen (c : ascii) : bool := oneOf $"()" c.
(** A character at [p]; [c] is its first byte. *)
Definition lexChar (p : nat) (c : ascii) (s : lexer) : lexer + queryErr :=
  let s := s <| pos := p |> in
  if skip s then inl (s <| skip := false |>) else
  let s := if bool_decide (c = backslash) then s <| skip := true |> else s in
  if inParenthesis s then
    inl (if isQuote c then
           addSnippet (prepToken (slice (default 0%nat (start s) + 1) p)) (default 0%nat (start s) + 1) s <| start := None |> <| inParenthesis := false |>
         else s)
  else
    let s :=
      match isSeparator c, start s with
      | true, Some b => addSnippet (prepToken (slice b p)) (b + 1) s <| start := None |>
      | false, None => s <| start := Some p |>
      | _, _ => s
      end in
    if isParen c then inl (addSnippet [c] (p + 1) s)
    else if isQuote c then
      if match start s with Some b => (b <? p)%nat | None => true end then inr (QuoteInWord (Z.of_nat p + 1)) else inl (s <| inParenthesis := true |>)
    else inl s.
(** [k] bytes of the current character are left. *)
Fixpoint lexGo (k p : nat) (t : str) (s : lexer) : lexer + queryErr :=
  match t with
  | [] => inl s
  | c :: r =>
      match k with
      | S k => lexGo k (S p) r s
      | O => match lexChar p c s with inl s => lexGo (runeLen t - 1) (S p) r s | inr e => inr e end
      end
  end.
Definition extractSnippets : list snippet + queryErr :=
  match lexGo 0 0 txt (mkLexer false None false [] 0) with
  | inr e => inr e
  | inl s => inl match start s with Some b => snippets (addSnippet (prepToken (slice b (pos s + 1))) (b + 1) s) | None => snippets s end
  end.
End lex.

(** ** The parser *)
Section parse.
(** The length of the query. *)
Context (queryLen : Z).
Definition getSnippet (ss : list snippet) : (snippet * list snippet) + queryErr :=
  match ss with s :: ss => inl (s, ss) | [] => inr (UnexpectedEnd queryLen) end.
Definition parseCondition (first : snippet) (ss : list snippet) : (Condition * list snippet) + queryErr :=
  match getSnippet ss with
  | inr e => inr e
  | inl (opName, ss) =>
      let negate := eqs (text opName) $"not" in
      match (if negate then getSnippet ss else inl (opName, ss)) with
      | inr e => inr e
      | inl (opName, ss) =>
          match operatorNamed (text opName) with
          | None => inr (UnknownOperator (globalPosition opName))
          | Some op =>
              let wrap c := if negate then notCond c else c in
              if op =? Exists then inl (wrap (Where (text first) op (GVOther $"<nil>")), ss)
              else match getSnippet ss with
                | inr e => inr e
                | inl (value, ss) => inl (wrap (Where (text first) op (GVString (text value))), ss)
                end
          end
      end
  end.
Record andOr := mkAndOr { isOr : bool; typeSet : bool; wrapInNot : bool; expectingMore : bool; conditions : list Condition }.
#[export] Instance eta_andOr : Eta andOr := fun s => mkAndOr (isOr s) (typeSet s) (wrapInNot s) (expectingMore s) (conditions s).
Definition finish (s : andOr) : Condition :=
  match conditions s with [c] => c | l => if isOr s then orCond l else andCond l end.
Definition addCondition (c : Condition) (more : bool) (s : andOr) : andOr :=
  (if wrapInNot s then s <| conditions ::= fun l => l ++ [notCond c] |> <| wrapInNot := false |> else s <| conditions ::= fun l => l ++ [c] |>)
    <| expectingMore := more |>.
Definition andOrStart : andOr := mkAndOr false false false true [].
(** With the snippets that are left; at the root, the last snippet that was taken is put
    back. *)
Fixpoint parseAndOr (fuel : nat) (root : bool) (s : andOr) (ss : list snippet) : option ((Condition * list snippet) + queryErr) :=
  match fuel with
  | O => None
  | S fuel =>
      let rootDone := negb (expectingMore s) && root in
      match ss with
      | [] => Some (if rootDone then inl (finish s, []) else inr (UnexpectedEnd queryLen))
      | first :: ss' =>
          if rootDone && existsb (eqs (text first)) [$"orderby"; $"limit"; $"offset"] then Some (inl (finish s, ss))
          else if eqs (text first) $"(" then
            r ← parseAndOr fuel false andOrStart ss';
            match r with
            | inr e => Some (inr e)
            | inl (c, ss) => parseAndOr fuel root (addCondition c true s) ss
            end
          else if eqs (text first) $")" then Some (inl (finish s, if root then ss else ss'))
          else if eqs (text first) $"and" then
            if typeSet s && isOr s then Some (inr (MixedAndOr (globalPosition first)))
            else parseAndOr fuel root (s <| isOr := false |> <| typeSet := true |> <| expectingMore := true |>) ss'
          else if eqs (text first) $"or" then
            if typeSet s && negb (isOr s) then Some (inr (MixedAndOr (globalPosition first)))
            else parseAndOr fuel root (s <| isOr := true |> <| typeSet := true |> <| expectingMore := true |>) ss'
          else if eqs (text first) $"not" then parseAndOr fuel root (s <| wrapInNot := true |> <| expectingMore := true |>) ss'
          else match parseCondition first ss' with
            | inr e => Some (inr e)
            | inl (c, ss) => parseAndOr fuel root (addCondition c false s) ss
            end
      end
  end.
Definition parseNumber (name : str) (old : Z) (set : Z -> Query -> Query) (command : snippet) (ss : list snippet) (q : Query) :
    (Query * list snippet) + queryErr :=
  if negb (old =? 0) then inr (Duplicate name (globalPosition command)) else
  match getSnippet ss with
  | inr e => inr e
  | inl (n, ss) => match ParseUint (text n) 31 with Some z => inl (set z q, ss) | None => inr (NoInteger (text n) (globalPosition n)) end
  end.
Definition parseClause (command : snippet) (ss : list snippet) (q : Query) : option ((Query * list snippet) + queryErr) :=
  if eqs (text command) $"where" then
    match where_ q with
    | Some _ => Some (inr (Duplicate $"where" (globalPosition command)))
    | None =>
        r ← parseAndOr (S (length ss)) true andOrStart ss;
        Some match r with inr e => inr e | inl (c, ss) => inl (QWhere c q, ss) end
    end
  else if eqs (text command) $"orderby" then Some
    (if negb (eqs (orderBy q) []) then inr (Duplicate $"orderby" (globalPosition command)) else
     match getSnippet ss with inr e => inr e | inl (k, ss) => inl (OrderBy (text k) q, ss) end)
  else if eqs (text command) $"limit" then Some (parseNumber $"limit" (limit q) Limit command ss q)
  else if eqs (text command) $"offset" then Some (parseNumber $"offset" (offset q) Offset command ss q)
  else Some (inr (UnknownClause (text command) (globalPosition command))).
Fixpoint parseClauses (fuel : nat) (ss : list snippet) (q : Query) : option (Query + queryErr) :=
  match fuel with
  | O => None
  | S fuel =>
      match ss with
      | [] => Some (inl q)
      | command :: ss =>
          r ← parseClause command ss q;
          match r with inr e => Some (inr e) | inl (q, ss) => parseClauses fuel ss q end
      end
  end.
End parse.
Definition ParseQuery (query : str) : option (Query + queryErr) :=
  let n := Z.of_nat (length query) in
  match extractSnippets query with
  | inr e => Some (inr e)
  | inl ss =>
      match getSnippet n ss with
      | inr e => Some (inr e)
      | inl (word, ss) =>
          if negb (eqs (text word) $"query") then Some (inr NoQueryWord) else
          match getSnippet n ss with
          | inr e => Some (inr e)
          | inl (prefix, ss) =>
              r ← parseClauses n (S (length ss)) ss (New (text prefix));
              Some match r with
                | inr e => inr e
                | inl q => match Check_ q with inl q => inl q | inr e => inr (BadCondition e) end
                end
          end
      end
  end.
End query.
