(* ===== verification/QueryLex.v ===== *)
(** * The words of printed queries

    [lexes t ws c]: from between two words, the lexer reads the words [ws] from [t];
    the last one may still be open at the end of [t], unless [c]. *)

From S2P Require Import Prelude GoStrings GoText GoNet DbRecord Query.

(** ** Characters *)
Definition nonASCII (c : ascii) : Prop := isASCII c = false.
Lemma cont_nonASCII c : cont c = true -> nonASCII c.
Proof. unfold cont, inRange, nonASCII, isASCII. lia. Qed.
Lemma range_nonASCII lo hi c : 128 <= lo -> inRange lo hi c = true -> nonASCII c.
Proof. unfold inRange, nonASCII, isASCII. lia. Qed.
(** The bytes after the first one of a character are not ASCII. *)
Lemma runeLen_cont c r : Forall nonASCII (take (runeLen (c :: r) - 1) r) /\ (isASCII c = true -> runeLen (c :: r) = 1%nat).
Proof.
  assert (isASCII c = true -> forall lo hi, 128 <= lo -> inRange lo hi c = false) as Ha by (unfold isASCII, inRange; lia).
  assert (isASCII c = true -> forall n, 128 <= n -> (code c =? n) = false) as Hn by (unfold isASCII; lia).
  unfold runeLen. destruct r as [|b r]; [done|]. destruct (inRange 194 223 c) eqn:E2.
  { split; [|intros H; by rewrite Ha in E2]. destruct (cont b) eqn:Eb; [|done]. simpl. constructor; [by apply cont_nonASCII|constructor]. }
  match goal with |- context [if ?b then 3%nat else _] => idtac | |- _ => idtac end.
  cbv zeta. set (three := _ || _ : bool). set (four := _ || _ : bool).
  assert (three = true -> nonASCII b) as H3.
  { unfold three. intros [[[_ H]%andb_true_iff|[_ H]%andb_true_iff]%orb_true_iff|[_ H]%andb_true_iff]%orb_true_iff;
      [by eapply range_nonASCII; [|exact H]|by apply cont_nonASCII|by eapply range_nonASCII; [|exact H]]. }
  assert (four = true -> nonASCII b) as H4.
  { unfold four. intros [[[_ H]%andb_true_iff|[_ H]%andb_true_iff]%orb_true_iff|[_ H]%andb_true_iff]%orb_true_iff;
      [by eapply range_nonASCII; [|exact H]|by apply cont_nonASCII|by eapply range_nonASCII; [|exact H]]. }
  assert (isASCII c = true -> three = false /\ four = false) as Hf.
  { intros H. unfold three, four. by rewrite !Hn, !Ha by done. }
  clearbody three four. destruct r as [|d r]; [done|].
  destruct (three && cont d) eqn:E3.
  { apply andb_true_iff in E3 as [E3 Ed]. split; [|intros H; apply Hf in H as [H _]; congruence].
    simpl. constructor; [by apply H3|]. constructor; [by apply cont_nonASCII|constructor]. }
  destruct r as [|e r]; [done|]. destruct (four && cont d && cont e) eqn:E4; [|done].
  apply andb_true_iff in E4 as [[E4 Ed]%andb_true_iff Ee]. split; [|intros H; apply Hf in H as [_ H]; congruence].
  simpl. constructor; [by apply H4|]. constructor; [by apply cont_nonASCII|]. constructor; [by apply cont_nonASCII|constructor].
Qed.

(** ** Words that survive printing *)
Definition tokenOk (t : str) : bool :=
  negb (existsb (fun c => bool_decide (c = backslash)) t) && match last t with Some c => isASCII c && negb (isQuote c) | None => false end.
Definition rawOk (t : str) : bool := tokenOk t && negb (existsb specialChar t).
Lemma isQuote_spec c : isQuote c = true <-> c = quote.
Proof. apply bool_decide_eq_true. Qed.
Lemma tokenOk_nonempty t : tokenOk t = true -> t <> [].
Proof. intros H ->. done. Qed.
Lemma tokenOk_nobackslash t : tokenOk t = true -> backslash ∉ t.
Proof.
  unfold tokenOk. intros [H _]%andb_true_iff Hin. apply negb_true_iff in H. apply not_true_iff_false in H. apply H.
  apply existsb_exists. exists backslash. split; [by apply list_elem_of_In|]. by apply bool_decide_eq_true.
Qed.
Lemma tokenOk_last t c : tokenOk t = true -> last t = Some c -> isASCII c = true /\ isQuote c = false.
Proof. unfold tokenOk. intros [_ H]%andb_true_iff E. rewrite E in H. bool_prop. done. Qed.
Lemma rawOk_plain t c : rawOk t = true -> c ∈ t -> specialChar c = false.
Proof.
  unfold rawOk. intros [_ H]%andb_true_iff Hin. apply negb_true_iff in H. apply not_true_iff_false. intros E.
  apply not_true_iff_false in H. apply H. apply existsb_exists. exists c. by rewrite <- list_elem_of_In.
Qed.
Lemma special_quote c : specialChar c = false -> isQuote c = false /\ c <> backslash /\ isSeparator c = false.
Proof.
  unfold specialChar, isSeparator, oneOf. intros H. apply not_true_iff_false in H.
  assert (forall d, d ∈ quote :: backslash :: $"() " ++ (ascii_of_nat <$> [9; 10; 13]%nat) -> c <> d) as Hd.
  { intros d Hd ->. apply H. apply existsb_exists. exists d. split; [by apply list_elem_of_In|]. by apply bool_decide_eq_true. }
  split; [|split].
  - unfold isQuote. apply bool_decide_eq_false. apply Hd. left.
  - apply Hd. right. left.
  - apply not_true_iff_false. intros (d & Hin & E)%existsb_exists. apply bool_decide_eq_true in E as ->. apply (Hd d); [|done].
    assert (forallb (fun d => bool_decide (d ∈ quote :: backslash :: $"() " ++ (ascii_of_nat <$> [9; 10; 13]%nat)))
      ((ascii_of_nat <$> [9; 10; 13]%nat) ++ $" ()") = true) as Hall by (vm_compute; reflexivity).
    rewrite forallb_forall in Hall. by apply Hall, bool_decide_eq_true in Hin.
Qed.
Lemma dropWhile_head f c s : f c = false -> dropWhile f (c :: s) = c :: s.
Proof. intros E. simpl. by rewrite E. Qed.
Lemma Trim_id s : (forall c, head s = Some c -> isQuote c = false) -> (forall c, last s = Some c -> isQuote c = false) -> TrimQuotes s = s.
Proof.
  intros Hh Hl. unfold TrimQuotes. destruct s as [|c s]; [done|]. rewrite dropWhile_head by (by apply Hh).
  destruct (rev (c :: s)) as [|d r] eqn:E; [by apply (f_equal length) in E; rewrite length_rev in E|].
  rewrite dropWhile_head; [rewrite <- E; apply rev_involutive|]. apply Hl. rewrite <- (rev_involutive (c :: s)), E. simpl. by rewrite last_snoc.
Qed.
Lemma unescape_plain t : backslash ∉ t -> unescape t = t.
Proof.
  induction t as [|c t IH]; [done|]. intros Hn. apply not_elem_of_cons in Hn as [Hc Hn]. cbn [unescape].
  destruct t as [|d t]; [done|]. rewrite bool_decide_false by (by intros ->). cbn [andb]. f_equal. by apply IH.
Qed.
Lemma escapeQuotes_cons c t : escapeQuotes (c :: t) = (if isQuote c then [backslash; quote] else [c]) ++ escapeQuotes t.
Proof. done. Qed.
Lemma unescape_escape t : backslash ∉ t -> unescape (escapeQuotes t) = t.
Proof.
  induction t as [|c t IH]; [done|]. intros Hn. apply not_elem_of_cons in Hn as [Hc Hn]. rewrite escapeQuotes_cons.
  destruct (isQuote c) eqn:E; cbn [app unescape].
  - apply isQuote_spec in E as ->. rewrite bool_decide_true, bool_decide_false by done. cbn [andb negb]. f_equal. by apply IH.
  - destruct (escapeQuotes t) as [|d r] eqn:Ee.
    + f_equal. rewrite <- IH by done. done.
    + rewrite bool_decide_false by (by intros ->). cbn [andb]. f_equal. rewrite <- IH by done. done.
Qed.
Lemma escape_last t : last (escapeQuotes t) = last t.
Proof.
  induction t as [|c t IH]; [done|]. rewrite escapeQuotes_cons.
  destruct t as [|d t]; [simpl; destruct (isQuote c) eqn:E; [by apply isQuote_spec in E as ->|done]|].
  rewrite last_app. rewrite IH. destruct (last (d :: t)) eqn:E; [by rewrite last_cons_cons|]. by apply last_None in E.
Qed.
Lemma prepToken_escape t : tokenOk t = true -> prepToken (escapeQuotes t) = t.
Proof.
  intros Ht. unfold prepToken. rewrite Trim_id; [by apply unescape_escape, tokenOk_nobackslash| |].
  - intros c. destruct t as [|d t]; [done|]. rewrite escapeQuotes_cons. destruct (isQuote d) eqn:E; simpl; by intros [= <-].
  - intros c. rewrite escape_last. intros E. by apply (tokenOk_last t).
Qed.
Lemma prepToken_raw t : rawOk t = true -> prepToken t = t.
Proof.
  intros Ht. unfold prepToken. assert (forall c, c ∈ t -> isQuote c = false) as Hq by (intros c Hc; by eapply special_quote, rawOk_plain).
  rewrite Trim_id; [apply unescape_plain, tokenOk_nobackslash; by apply andb_true_iff in Ht as [? _]| |].
  - intros c Hc. apply Hq. destruct t; [done|]. injection Hc as ->. left.
  - intros c Hc. apply Hq. by apply last_Some_elem_of.
Qed.

(** ** Lexing *)
Section lexing.
Context (txt : str).
Definition settled (s : lexer) : Prop := skip s = false /\ inParenthesis s = false.
(** The word that is open at [p] ends. *)
Definition flush (p : nat) (s : lexer) : lexer :=
  match start s with Some b => addSnippet (prepToken (slice txt b p)) (b + 1) s <| start := None |> | None => s end.
Definition wordsOf (s : lexer) : list str := text <$> snippets s.
Definition at_ (p : nat) (s : lexer) : lexer := s <| pos := p |>.
Lemma flush_words p s : wordsOf (flush p s) = wordsOf s ++ match start s with Some b => [prepToken (slice txt b p)] | None => [] end.
Proof. unfold flush, wordsOf. destruct (start s); [|by rewrite app_nil_r]. cbn -[prepToken]. by rewrite fmap_app. Qed.
Lemma slice_mid pre t rest : txt = pre ++ t ++ rest -> slice txt (length pre) (length (pre ++ t)) = t.
Proof. intros ->. unfold slice. rewrite length_app, Nat.add_comm, Nat.add_sub. by rewrite drop_app_length, take_app_length. Qed.
Lemma runeLen_rest k c r : k = (runeLen (c :: r) - 1)%nat -> Forall nonASCII (take k r).
Proof. intros ->. apply runeLen_cont. Qed.
(** A plain character opens a word or belongs to the open one. *)
Lemma lexChar_plain p c s : specialChar c = false -> settled s ->
  lexChar txt p c s = inl (at_ p s <| start := Some (default p (start s)) |>).
Proof.
  intros Hc [Hs Hp]. destruct (special_quote _ Hc) as (Hq & Hb & Hsep). destruct s as [sk st ip sn po]. simpl in *. subst.
  unfold lexChar. cbn -[isSeparator isParen isQuote]. rewrite bool_decide_false by done. cbn -[isSeparator isParen isQuote]. rewrite Hsep. assert (isParen c = false) as ->.
  { apply not_true_iff_false. intros E. apply not_true_iff_false in Hsep. apply Hsep. unfold isParen, isSeparator, oneOf in *. rewrite !existsb_app.
    apply orb_true_iff. right. simpl in *. by rewrite E, orb_true_r. }
  rewrite Hq. by destruct st.
Qed.
Lemma raw_go w rest : Forall (fun c => specialChar c = false) w -> (forall c, last w = Some c -> isASCII c = true) ->
  forall k p s b, Forall nonASCII (take k (w ++ rest)) -> (w = [] -> k = 0%nat) -> settled s -> start s = Some b ->
  exists q, lexGo txt k p (w ++ rest) s = lexGo txt 0 (p + length w) rest (at_ q s) /\ (w <> [] -> q + 1 = p + length w)%nat /\ (w = [] -> q = pos s).
Proof.
  induction w as [|c w IH]; intros Hw Hl k p s b Hk Hk0 Hs Hb.
  { rewrite (Hk0 eq_refl), Nat.add_0_r. exists (pos s). split; [by destruct s|]. done. }
  apply Forall_cons in Hw as [Hc Hw].
  assert (forall k s, Forall nonASCII (take k (w ++ rest)) -> (w = [] -> k = 0%nat) -> settled s -> start s = Some b -> (w = [] -> pos s = p) ->
    exists q, lexGo txt k (S p) (w ++ rest) s = lexGo txt 0 (p + length (c :: w)) rest (at_ q s) /\ (q + 1 = p + length (c :: w))%nat) as Hgo.
  { intros k' s' H1 H2 H3 H4 H5. destruct (IH ltac:(done) ltac:(intros d Hd; apply Hl; destruct w; [done|by rewrite last_cons_cons]) k' (S p) s' b H1 H2 H3 H4)
      as (q & E & Hq & Hq0). exists q. cbn [length]. replace (p + S (length w))%nat with (S p + length w)%nat by lia. split; [done|].
    destruct w; [rewrite Hq0 by done; rewrite H5 by done; simpl; lia|]. by apply Hq. }
  cbn [app lexGo]. destruct k as [|k].
  - rewrite lexChar_plain by done. rewrite Hb. cbn [default].
    destruct (Hgo (runeLen (c :: w ++ rest) - 1)%nat (at_ p s <| start := Some b |>)) as (q & E & Hq); [by eapply runeLen_rest| |done|done|done|].
    + intros ->. destruct (runeLen_cont c ([] ++ rest)) as [_ H]. rewrite H; [done|]. by apply Hl.
    + exists q. split; [|done]. etransitivity; [exact E|]. f_equal. destruct s. cbn in *. by subst.
  - cbn [take app] in Hk. apply Forall_cons in Hk as [Hc' Hk]. destruct w as [|d w].
    { unfold nonASCII in Hc'. rewrite Hl in Hc'; done. }
    destruct (Hgo k s) as (q & E & Hq); try done. by exists q.
Qed.
Lemma lexGo_char p c r s : lexGo txt 0 p (c :: r) s = match lexChar txt p c s with inl s => lexGo txt (runeLen (c :: r) - 1) (S p) r s | inr e => inr e end.
Proof. done. Qed.
(** Inside of quotation marks. *)
Lemma quoted_go w rest : backslash ∉ w -> forall k p s, Forall nonASCII (take k (escapeQuotes w ++ quote :: rest)) -> skip s = false -> inParenthesis s = true ->
  exists q, lexGo txt k p (escapeQuotes w ++ quote :: rest) s = lexGo txt 0 (p + length (escapeQuotes w)) (quote :: rest) (at_ q s).
Proof.
  induction w as [|c w IH]; intros Hn k p s Hk Hs Hp.
  { exists (pos s). rewrite Nat.add_0_r. destruct k; [by destruct s|]. cbn in Hk. apply Forall_cons in Hk as [Hk _]. done. }
  apply not_elem_of_cons in Hn as [Hc Hn]. rewrite escapeQuotes_cons in *. destruct (isQuote c) eqn:Eq.
  - cbn [app] in *. destruct k; [|by apply Forall_cons in Hk as [Hk _]]. rewrite (lexGo_char p).
    replace (lexChar txt p backslash s) with (inl (B := queryErr) (at_ p s <| skip := true |>)) by (destruct s; cbn in *; by subst).
    replace (runeLen _ - 1)%nat with 0%nat by (by rewrite (proj2 (runeLen_cont _ _))). rewrite (lexGo_char (S p)).
    replace (lexChar txt (S p) quote _) with (inl (B := queryErr) (at_ (S p) s)) by (destruct s; cbn in *; by subst).
    replace (runeLen _ - 1)%nat with 0%nat by (by rewrite (proj2 (runeLen_cont _ _))).
    destruct (IH Hn 0%nat (S (S p)) (at_ (S p) s)) as (q & E); [constructor|by destruct s|by destruct s|].
    exists q. rewrite E. cbn [length]. f_equal; first [lia|by destruct s].
  - cbn [app] in *. destruct k as [|k].
    + rewrite (lexGo_char p). replace (lexChar txt p c s) with (inl (B := queryErr) (at_ p s)).
      2: { destruct s as [sk st ip sn po]. cbn in *. subst. unfold lexChar. cbn -[isQuote]. rewrite bool_decide_false by (by intros ->). cbn -[isQuote]. by rewrite Eq. }
      destruct (IH Hn (runeLen (c :: escapeQuotes w ++ quote :: rest) - 1)%nat (S p) (at_ p s)) as (q & E); [by eapply runeLen_rest|by destruct s|by destruct s|].
      exists q. rewrite E. cbn [length]. f_equal; first [lia|by destruct s].
    + cbn [take] in Hk. apply Forall_cons in Hk as [_ Hk]. change (lexGo txt (S k) p (c :: escapeQuotes w ++ quote :: rest) s) with (lexGo txt k (S p) (escapeQuotes w ++ quote :: rest) s). destruct (IH Hn k (S p) s) as (q & E); [done..|].
      exists q. rewrite E. cbn [length]. f_equal. lia.
Qed.

(** ** Texts and their words *)
Definition startsSep (t : str) : Prop := exists c r, t = c :: r /\ isSeparator c = true.
Definition lexes (t : str) (ws : list str) (closed : bool) : Prop := t <> [] /\ forall pre rest s,
  txt = pre ++ t ++ rest -> settled s -> (start s = None \/ startsSep t) ->
  exists s', lexGo txt 0 (length pre) (t ++ rest) s = lexGo txt 0 (length (pre ++ t)) rest s' /\ settled s' /\
    wordsOf (flush (length (pre ++ t)) s') = wordsOf (flush (length pre) s) ++ ws /\
    (closed = true -> start s' = None) /\ (pos s' + 1)%nat = length (pre ++ t).
Lemma lexes_app t1 ws1 c1 t2 ws2 c2 : lexes t1 ws1 c1 -> lexes t2 ws2 c2 -> c1 = true \/ startsSep t2 -> lexes (t1 ++ t2) (ws1 ++ ws2) c2.
Proof.
  intros [Hn1 H1] [Hn2 H2] Hc. split; [by destruct t1|]. intros pre rest s Ht Hs Hst.
  assert (start s = None \/ startsSep t1) as Hst1.
  { destruct Hst as [|(c & r & E & Hsep)]; [by left|right]. destruct t1 as [|d t1]; [done|]. injection E as -> _. by exists c, t1. }
  rewrite <- app_assoc in *. destruct (H1 pre (t2 ++ rest) s Ht Hs Hst1) as (s1 & E1 & Hs1 & Hw1 & Hc1 & _).
  destruct (H2 (pre ++ t1) rest s1) as (s2 & E2 & Hs2 & Hw2 & Hc2 & Hp2); [by rewrite <- app_assoc|done| |].
  { destruct Hc as [->|]; [left; by apply Hc1|by right]. }
  exists s2. rewrite <- app_assoc in *. split; [by rewrite E1, E2|]. split; [done|]. rewrite Hw2, Hw1, app_assoc. done.
Qed.
Lemma lexes_open t ws c : lexes t ws c -> lexes t ws false.
Proof.
  intros [Hn H]. split; [done|]. intros pre rest s Ht Hs Hst. destruct (H pre rest s Ht Hs Hst) as (s' & ? & ? & ? & _ & ?). by exists s'.
Qed.
Lemma ascii_rune c r : isASCII c = true -> (runeLen (c :: r) - 1 = 0)%nat.
Proof. intros H. by rewrite (proj2 (runeLen_cont c r) H). Qed.
Lemma separator_lexes c : isSeparator c = true -> isASCII c = true -> isQuote c = false -> c <> backslash ->
  lexes [c] (if isParen c then [[c]] else []) true.
Proof.
  intros Hc Ha Hq Hb. split; [done|]. intros pre rest s Ht [Hs Hp] _. cbn [app]. rewrite lexGo_char, ascii_rune by done.
  exists (at_ (length pre) (if isParen c then addSnippet [c] (length pre + 1) (flush (length pre) s) else flush (length pre) s)).
  assert (start (flush (length pre) s) = None) as Hf by (unfold flush; by destruct (start s) eqn:E).
  assert (skip (flush (length pre) s) = false /\ inParenthesis (flush (length pre) s) = false) as [Hf1 Hf2] by (unfold flush; by destruct (start s)).
  replace (length (pre ++ [c])) with (S (length pre)) by (rewrite length_app; simpl; lia). split; [|split; [|split; [|split]]].
  - replace (lexChar txt (length pre) c s) with (inl (B := queryErr) (at_ (length pre) (if isParen c then addSnippet [c] (length pre + 1) (flush (length pre) s) else flush (length pre) s))); [done|].
    destruct s as [sk st ip sn po]. cbn in Hs, Hp. subst. unfold lexChar, flush. cbn -[isSeparator isParen isQuote].
    rewrite bool_decide_false by done. cbn -[isSeparator isParen isQuote]. rewrite Hc, Hq. by destruct st, (isParen c).
  - destruct (isParen c); by split.
  - destruct (isParen c); unfold flush at 1; cbn -[flush]; rewrite Hf; unfold wordsOf; cbn -[flush]; [by rewrite fmap_app|by rewrite app_nil_r].
  - intros _. by destruct (isParen c).
  - destruct (isParen c); cbn -[flush]; lia.
Qed.
Lemma space_lexes : lexes $" " [] true.
Proof. by apply (separator_lexes " "). Qed.
Lemma open_lexes : lexes $"(" [$"("] true.
Proof. by apply (separator_lexes "("). Qed.
Lemma close_lexes : lexes $")" [$")"] true.
Proof. by apply (separator_lexes ")"). Qed.
Lemma raw_lexes t : rawOk t = true -> lexes t [t] false.
Proof.
  intros Ht. assert (tokenOk t = true) as Htok by (by apply andb_true_iff in Ht as [? _]). split; [by apply tokenOk_nonempty|].
  intros pre rest s E [Hs Hp] Hst. assert (Forall (fun c => specialChar c = false) t) as Hpl by (apply Forall_forall; intros c; by apply rawOk_plain).
  destruct t as [|c t]; [done|]. pose proof Hpl as [Hc Hpl']%Forall_cons.
  assert (start s = None) as Hst'. { destruct Hst as [|(d & r & [= <- _] & Hsep)]; [done|]. apply special_quote in Hc as (_ & _ & ?). congruence. }
  cbn [app]. rewrite lexGo_char, lexChar_plain by done. rewrite Hst'. cbn [default].
  set (s1 := at_ (length pre) s <| start := Some (length pre) |>).
  destruct (raw_go t rest) with (k := (runeLen (c :: t ++ rest) - 1)%nat) (p := S (length pre)) (s := s1) (b := length pre) as (q & Eq & Hq & Hq0).
  - done.
  - intros d Hd. apply (tokenOk_last (c :: t)); [done|]. destruct t; [done|]. by rewrite last_cons_cons.
  - by eapply runeLen_rest.
  - intros ->. apply ascii_rune. by apply (tokenOk_last [c]).
  - done.
  - done.
  - exists (at_ q s1). rewrite Eq. rewrite length_app. cbn [length]. replace (length pre + S (length t))%nat with (S (length pre) + length t)%nat by lia.
    split; [done|]. split; [done|]. split; [|split; [done|]].
    + rewrite !flush_words, Hst', app_nil_r. change (start (at_ q s1)) with (Some (length pre)). cbv iota.
      replace (S (length pre) + length t)%nat with (length (pre ++ c :: t)) by (rewrite length_app; simpl; lia).
      rewrite (slice_mid pre (c :: t) rest) by done. by rewrite prepToken_raw.
    + cbn. destruct t; [rewrite Hq0 by done; cbn; lia|]. by apply Hq.
Qed.
Lemma quoted_lexes t : tokenOk t = true -> lexes (quote :: escapeQuotes t ++ [quote]) [t] true.
Proof.
  intros Ht. split; [done|]. intros pre rest s E [Hs Hp] Hst.
  assert (start s = None) as Hst'. { destruct Hst as [|(d & r & [= <- _] & Hsep)]; [done|]. by vm_compute in Hsep. }
  cbn [app]. rewrite <- app_assoc. cbn [app]. rewrite lexGo_char, ascii_rune by done.
  set (s1 := at_ (length pre) s <| start := Some (length pre) |> <| inParenthesis := true |>).
  replace (lexChar txt (length pre) quote s) with (inl (B := queryErr) s1).
  2: { destruct s as [sk st ip sn po]. cbn in Hs, Hp, Hst'. subst sk ip st. unfold lexChar. cbn -[Nat.ltb isSeparator isParen isQuote].
       rewrite (bool_decide_false (quote = backslash)) by done. change (isSeparator quote) with false. change (isParen quote) with false.
       change (isQuote quote) with true. cbn -[Nat.ltb]. by rewrite Nat.ltb_irrefl. }
  destruct (quoted_go t rest) with (k := 0%nat) (p := S (length pre)) (s := s1) as (q & Eq); [by apply tokenOk_nobackslash|constructor|done|done|].
  rewrite Eq, lexGo_char, ascii_rune by done. remember (S (length pre) + length (escapeQuotes t))%nat as p eqn:Ep.
  exists (at_ p s <| snippets ::= fun l => l ++ [mkSnippet t (Z.of_nat (length pre + 1))] |>).
  replace (length (pre ++ quote :: escapeQuotes t ++ [quote])) with (S p) by (rewrite Ep, length_app; cbn [length]; rewrite length_app; simpl; lia).
  split; [|split; [done|split; [|split; [done|]]]].
  - replace (lexChar txt p quote (at_ q s1)) with
      (inl (B := queryErr) (at_ p s <| snippets ::= fun l => l ++ [mkSnippet t (Z.of_nat (length pre + 1))] |>)); [done|].
    destruct s as [sk st ip sn po]. cbn in Hs, Hp, Hst'. subst sk ip st. unfold lexChar. cbn -[prepToken isQuote slice].
    rewrite (bool_decide_false (quote = backslash)) by done. change (isQuote quote) with true. cbn -[prepToken slice].
    assert (slice txt (length pre + 1) p = escapeQuotes t) as ->; [|by rewrite prepToken_escape].
    replace (length pre + 1)%nat with (length (pre ++ [quote])) by (rewrite length_app; simpl; lia).
    replace p with (length ((pre ++ [quote]) ++ escapeQuotes t)) by (rewrite Ep, !length_app; simpl; lia).
    apply (slice_mid _ _ ([quote] ++ rest)). rewrite E, <- !app_assoc. cbn. by rewrite <- app_assoc.
  - rewrite !flush_words. cbn [start set_field at_]. rewrite Hst', !app_nil_r. unfold wordsOf. cbn. by rewrite fmap_app.
  - cbn. lia.
Qed.
Lemma token_lexes t : tokenOk t = true -> lexes (escapeString t) [t] false.
Proof.
  intros Ht. unfold escapeString. destruct (existsb specialChar t) eqn:E; [by eapply lexes_open, quoted_lexes|].
  apply raw_lexes. unfold rawOk. by rewrite Ht, E.
Qed.
End lexing.
Lemma extract_words t ws c : (forall txt, lexes txt t ws c) -> exists ss, extractSnippets t = inl ss /\ text <$> ss = ws.
Proof.
  intros H. destruct (H t) as [_ Hl]. destruct (Hl [] [] (mkLexer false None false [] 0)) as (s & E & _ & Hw & _ & Hp); [by rewrite app_nil_r|done|by left|].
  unfold extractSnippets. rewrite app_nil_r in E. cbn [length] in E. rewrite E. cbn [lexGo]. unfold flush, wordsOf in Hw. cbn in Hw, Hp. rewrite Hp.
  destruct (start s) as [b|]; eexists; (split; [done|]); exact Hw.
Qed.
