(* ===== verification/QueryFacts.v ===== *)
(** * Printed conditions

    [printable] conditions print to texts whose words ([words]) parse to the same
    condition, with groups of one replaced by their member ([norm]). *)

From S2P Require Import Prelude GoStrings GoText GoNet DbRecord Query QueryLex.

(** ** Numbers *)
Lemma parseUintGo_digits s : forall n, 0 <= n -> all isDigit s = true -> foldl (fun n c => n * 10 + digitVal c) n s <= maxUint64 ->
  parseUintGo n s = inl (foldl (fun n c => n * 10 + digitVal c) n s).
Proof.
  induction s as [|c s IH]; intros n Hn Hd Hle; [done|]. cbn [all forallb] in Hd. apply andb_true_iff in Hd as [Hc Hd].
  assert (0 <= digitVal c) by (unfold isDigit, inRange in Hc; unfold digitVal; bool_prop; lia).
  assert (forall s m, 0 <= m -> all isDigit s = true -> m <= foldl (fun n c => n * 10 + digitVal c) m s) as Hmono.
  { clear. intros s. induction s as [|c s IH]; intros m Hm Hd; [simpl; lia|]. cbn [all forallb] in Hd. apply andb_true_iff in Hd as [Hc Hd].
    assert (0 <= digitVal c) by (unfold isDigit, inRange in Hc; unfold digitVal; bool_prop; lia).
    simpl. specialize (IH (m * 10 + digitVal c) ltac:(lia) Hd). lia. }
  cbn [parseUintGo foldl] in *. rewrite Hc. cbn [negb]. specialize (Hmono s (n * 10 + digitVal c) ltac:(lia) Hd).
  rewrite (proj2 (Z.ltb_ge _ _)) by lia. apply IH; [lia|done|done].
Qed.
Lemma digit_head s c r : all isDigit s = true -> s = c :: r -> bool_decide (c = "-"%char) = false /\ bool_decide (c = "+"%char) = false.
Proof. intros H ->. simpl in H. apply andb_true_iff in H as [H _]. split; apply bool_decide_eq_false; by intros ->. Qed.
Lemma ParseInt_Itoa z : - 2 ^ 63 <= z < 2 ^ 63 -> ParseInt (Itoa z) = inl z.
Proof.
  intros Hz. assert (forall m, 0 <= m <= 2 ^ 63 -> parseDigits (decGo 20 m []) = m /\ all isDigit (decGo 20 m []) = true /\ decGo 20 m [] <> []) as Hd.
  { intros m Hm. apply (decGo_spec 20); [|lia]. change (Z.of_nat 20) with 20. lia. }
  assert (forall m, 0 <= m <= 2 ^ 63 -> parseUintGo 0 (decGo 20 m []) = inl m) as Hu.
  { intros m Hm. destruct (Hd m Hm) as (H1 & H2 & _). unfold parseDigits in H1. rewrite parseUintGo_digits; [by rewrite H1|lia|done|]. unfold maxUint64. lia. }
  unfold ParseInt, Itoa. destruct (z <? 0) eqn:E.
  - apply Z.ltb_lt in E. cbn [bool_decide]. rewrite bool_decide_true by done. destruct (Hd (- z)) as (_ & _ & Hne); [lia|]. specialize (Hu (- z) ltac:(lia)).
    destruct (decGo 20 (- z) []) as [|c r]; [done|]. rewrite Hu. rewrite (proj2 (Z.leb_le _ _)) by lia. f_equal. lia.
  - apply Z.ltb_ge in E. destruct (Hd z) as (_ & Had & Hne); [lia|]. specialize (Hu z ltac:(lia)).
    destruct (decGo 20 z []) as [|c r] eqn:Es; [done|]. destruct (digit_head _ _ _ Had eq_refl) as [-> ->]. rewrite Hu. by rewrite (proj2 (Z.ltb_lt _ _)) by lia.
Qed.
Lemma digit_plain c : isDigit c = true -> specialChar c = false /\ isASCII c = true /\ isQuote c = false /\ c <> backslash.
Proof.
  intros H. unfold isDigit, inRange in H. bool_prop. assert (isASCII c = true) as Ha by (unfold isASCII; lia).
  assert (specialChar c = false) as Hs.
  { unfold specialChar, oneOf. apply not_true_iff_false. intros (d & Hin & E)%existsb_exists. apply bool_decide_eq_true in E as <-.
    assert (forallb (fun d => (code d <? 48) || (57 <? code d)) (quote :: backslash :: $"() " ++ (ascii_of_nat <$> [9; 10; 13]%nat)) = true) as Hall by (vm_compute; reflexivity).
    rewrite forallb_forall in Hall. apply Hall in Hin. lia. }
  split; [done|]. split; [done|]. destruct (special_quote _ Hs) as (? & ? & _). done.
Qed.
Lemma plain_rawOk t : t <> [] -> Forall (fun c => specialChar c = false) t -> (forall c, last t = Some c -> isASCII c = true) -> rawOk t = true.
Proof.
  intros Hne Hp Hl. rewrite Forall_forall in Hp. assert (forall f, (forall c, specialChar c = false -> f c = false) -> existsb f t = false) as Hex.
  { intros f Hf. apply not_true_iff_false. intros (c & Hin & E)%existsb_exists. apply list_elem_of_In in Hin. apply Hp in Hin. rewrite Hf in E; done. }
  unfold rawOk, tokenOk. rewrite !Hex; [|done|]. 2: { intros c Hc. apply bool_decide_eq_false. by destruct (special_quote _ Hc) as (_ & ? & _). }
  destruct (last t) as [c|] eqn:E; [|by apply last_None in E]. rewrite Hl by done. assert (c ∈ t) as Hin by (by apply last_Some_elem_of).
  destruct (special_quote _ (Hp c Hin)) as (-> & _). done.
Qed.
Lemma Itoa_rawOk z : - 2 ^ 63 <= z < 2 ^ 63 -> rawOk (Itoa z) = true.
Proof.
  intros Hz. assert (forall m, 0 <= m <= 2 ^ 63 -> all isDigit (decGo 20 m []) = true /\ decGo 20 m [] <> []) as Hd.
  { intros m Hm. apply (decGo_spec 20); [|lia]. change (Z.of_nat 20) with 20. lia. }
  assert (forall t c, all isDigit t = true -> c ∈ t -> isDigit c = true) as Hin.
  { intros t c Ht Hc. unfold all in Ht. rewrite forallb_forall in Ht. by apply Ht, list_elem_of_In. }
  unfold Itoa. destruct (z <? 0) eqn:E.
  - apply Z.ltb_lt in E. destruct (Hd (- z)) as [Had Hne]; [lia|]. apply plain_rawOk; [done| |].
    + constructor; [done|]. apply Forall_forall. intros c Hc. by apply digit_plain, (Hin _ _ Had).
    + intros c Hc. destruct (decGo 20 (- z) []); [done|]. rewrite last_cons_cons in Hc. apply last_Some_elem_of in Hc. by apply digit_plain, (Hin _ _ Had).
  - apply Z.ltb_ge in E. destruct (Hd z) as [Had Hne]; [lia|]. apply plain_rawOk; [done| |].
    + apply Forall_forall. intros c Hc. by apply digit_plain, (Hin _ _ Had).
    + intros c Hc. apply last_Some_elem_of in Hc. by apply digit_plain, (Hin _ _ Had).
Qed.

Section facts.
Context {QE : QueryEnv}.
Lemma Condition_nested_ind (P : Condition -> Prop) :
  (forall k o v, P (leaf k o v)) -> (forall l, Forall P l -> P (andCond l)) -> (forall l, Forall P l -> P (orCond l)) ->
  (forall c, P c -> P (notCond c)) -> (forall e, P (errorCond e)) -> forall c, P c.
Proof.
  intros Hleaf Hand Hor Hnot Herr. fix IH 1. intros [k o v|l|l|c|e]; [apply Hleaf| | |apply Hnot, IH|apply Herr].
  - apply Hand. induction l as [|c l IHl]; constructor; [apply IH|exact IHl].
  - apply Hor. induction l as [|c l IHl]; constructor; [apply IH|exact IHl].
Qed.

(** ** Printable conditions *)
Definition keywords : list str := [$"("; $")"; $"and"; $"or"; $"not"].
Definition keyOk (k : str) : bool := tokenOk k && negb (existsb (eqs k) keywords).
Definition within (lo hi op : Z) : bool := (lo <=? op) && (op <=? hi).
(** The value has the type of the operator, and its text reads back. *)
Definition valueOk (op : Z) (v : condValue) : Prop :=
  match v with
  | VInt z => within Equals LessThanOrEqual op = true /\ - 2 ^ 63 <= z < 2 ^ 63
  | VFloat f => within FloatEquals FloatLessThanOrEqual op = true /\ rawOk (FormatFloat f) = true /\ ParseFloat (FormatFloat f) = inl f
  | VString s => within SameAs EndsWith op = true /\ tokenOk s = true
  | VSlice l => op = In_ /\ (2 <= length l)%nat /\ Forall (fun s => ","%char ∉ s) l /\ tokenOk (Join l $",") = true
  | VRegex (Some r) => op = Matches_ /\ tokenOk (RegexpString r) = true /\ Compile (RegexpString r) = inl r
  | VRegex None => False
  | VBool _ => op = Is
  | VExists => op = Exists
  end.
Fixpoint printable (c : Condition) : Prop :=
  match c with
  | leaf k op v => keyOk k = true /\ valueOk op v
  | andCond l | orCond l => l <> [] /\ (fix all l := match l with [] => True | c :: l => printable c /\ all l end) l
  | notCond c => match c with leaf k _ _ => " "%char ∉ k | notCond _ => False | _ => True end /\ printable c
  | errorCond _ => False
  end.
Lemma printable_all l : (fix all l := match l with [] => True | c :: l => printable c /\ all l end) l <-> Forall printable l.
Proof. induction l as [|c l IH]; [done|]. by rewrite Forall_cons, IH. Qed.
Definition group (or : bool) (l : list Condition) : Condition := if or then orCond l else andCond l.
Definition collapse (or : bool) (l : list Condition) : Condition := match l with [c] => c | _ => group or l end.
Fixpoint norm (c : Condition) : Condition :=
  match c with
  | leaf _ _ _ | errorCond _ => c
  | andCond l => collapse false (map norm l)
  | orCond l => collapse true (map norm l)
  | notCond c => notCond (norm c)
  end.
(** Printed with a parenthesis at the end. *)
Definition endsInGroup (c : Condition) : bool :=
  match c with leaf _ _ _ | notCond (leaf _ _ _) => false | _ => true end.

(** ** Words *)
Definition valueWord (v : condValue) : str :=
  match v with
  | VInt z => Itoa z | VFloat f => FormatFloat f | VString s => s | VSlice l => Join l $"," | VRegex (Some r) => RegexpString r
  | VBool b => FormatBool b | _ => []
  end.
Definition opWords (op : Z) (v : condValue) : list str := getOpName op :: match v with VExists => [] | _ => [valueWord v] end.
Fixpoint joinWords (sep : str) (l : list (list str)) : list str :=
  match l with [] => [] | [w] => w | w :: l => w ++ sep :: joinWords sep l end.
Definition sepWord (or : bool) : str := if or then $"or" else $"and".
Fixpoint words (c : Condition) : list str :=
  match c with
  | leaf k op v => k :: opWords op v
  | andCond l => $"(" :: joinWords (sepWord false) (map words l) ++ [$")"]
  | orCond l => $"(" :: joinWords (sepWord true) (map words l) ++ [$")"]
  | notCond c => match c with leaf k op v => k :: $"not" :: opWords op v | _ => $"not" :: words c end
  | errorCond _ => []
  end.
(** Without the parentheses that [Print] takes off. *)
Definition rootWords (c : Condition) : list str :=
  match c with
  | andCond l => joinWords (sepWord false) (map words l)
  | orCond l => joinWords (sepWord true) (map words l)
  | _ => words c
  end.

Lemma op_ok op : within Equals Exists op = true -> rawOk (getOpName op) = true /\ operatorNamed (getOpName op) = Some op /\ eqs (getOpName op) $"not" = false.
Proof.
  intros [H1 H2]%andb_true_iff. apply Z.leb_le in H1, H2. unfold Equals, Exists in *.
  assert (op ∈ [0; 1; 2; 3; 4; 5; 6; 7; 8; 9; 10; 11; 12; 13; 14; 15; 16; 17]) as Hin by (rewrite !elem_of_cons; lia).
  rewrite !elem_of_cons, elem_of_nil in Hin. (repeat destruct Hin as [->|Hin]); first [destruct Hin|split; [reflexivity|split; reflexivity]].
Qed.
Lemma within_all lo hi op : within lo hi op = true -> 0 <= lo -> hi <= 17 -> within Equals Exists op = true.
Proof. unfold within, Equals, Exists. rewrite !andb_true_iff, !Z.leb_le. lia. Qed.
Lemma value_op op v : valueOk op v -> within Equals Exists op = true.
Proof.
  destruct v as [z|f|s|l|[r|]|b|]; cbn [valueOk].
  1-3: intros (H & _); by eapply within_all.
  all: (intros (-> & _) || intros -> || intros []); done.
Qed.
Lemma value_text txt op v : valueOk op v -> v <> VExists -> exists s, valueString v = Some s /\ lexes txt s [valueWord v] false.
Proof.
  destruct v as [z|f|s|l|[r|]|b|]; cbn [valueOk valueString valueWord]; intros Hv Hx; try done; eexists; (split; [done|]).
  - apply raw_lexes, Itoa_rawOk, Hv.
  - apply raw_lexes, Hv.
  - apply token_lexes, Hv.
  - apply token_lexes, Hv.
  - apply token_lexes, Hv.
  - apply raw_lexes. by destruct b.
Qed.
(** A leaf is its key, a space and the rest. *)
Lemma leaf_text txt k op v : valueOk op v ->
  exists r, leafString k op v = Some (escapeString k ++ " "%char :: r) /\ lexes txt r (opWords op v) false.
Proof.
  intros Hv. destruct (op_ok op (value_op _ _ Hv)) as [Ho _]. pose proof (raw_lexes txt _ Ho) as Hop.
  assert (v = VExists \/ v <> VExists) as [->|Hx] by (destruct v; by (left + right)).
  - exists (getOpName op). done.
  - destruct (value_text txt op v Hv Hx) as (s & Es & Hs). exists (getOpName op ++ $" " ++ s). split.
    + unfold leafString. rewrite Es. destruct v; done.
    + unfold opWords. replace (match v with VExists => [] | _ => [valueWord v] end) with [valueWord v] by (by destruct v).
      apply (lexes_app txt (getOpName op) [getOpName op] false ($" " ++ s) [valueWord v] false); [done| |].
      * by apply (lexes_app txt $" " [] true s [valueWord v] false); [apply space_lexes| |left].
      * right. by exists " "%char, s.
Qed.
Lemma escape_head k c r : tokenOk k = true -> escapeString k = c :: r -> c <> "("%char.
Proof.
  intros Hk. unfold escapeString. destruct (existsb specialChar k) eqn:E; [by intros [= <- _]|]. intros -> ->. by vm_compute in E.
Qed.
Lemma escape_nonempty k : tokenOk k = true -> escapeString k <> [].
Proof. intros Hk. unfold escapeString. destruct (existsb _ _); [done|]. by apply tokenOk_nonempty. Qed.
Lemma escape_no_space k : " "%char ∉ k -> " "%char ∉ escapeString k.
Proof.
  intros Hn. unfold escapeString. destruct (existsb _ _); [|done]. intros [?|Hin]%elem_of_cons; [done|].
  apply elem_of_app in Hin as [Hin|Hin%list_elem_of_singleton]; [|done]. unfold escapeQuotes in Hin. apply list_elem_of_bind in Hin as (c & Hc & Hin).
  destruct (isQuote c); rewrite ?elem_of_cons, ?elem_of_nil in Hc; [by destruct Hc as [?|[?|?]]|]. destruct Hc as [<-|[]]. done.
Qed.
Lemma not_leaf_text k r : tokenOk k = true -> " "%char ∉ k -> negated (escapeString k ++ " "%char :: r) = escapeString k ++ $" not " ++ r.
Proof.
  intros Hk Hn. unfold negated. destruct (HasPrefix (escapeString k ++ " "%char :: r) $"(") eqn:E.
  { apply HasPrefix_spec in E as [x E]. destruct (escapeString k) as [|c q] eqn:Ek; [by apply escape_nonempty in Ek|]. injection E as -> _.
    by eapply escape_head in Ek. }
  rewrite Split_cons by (by apply escape_no_space). pose proof (Join_Split r " ") as Hj.
  destruct (Split r " ") as [|w ws] eqn:Es; [by apply Split_nonempty in Es|].
  change (Join (escapeString k :: $"not" :: w :: ws) $" ") with (escapeString k ++ $" not " ++ Join (w :: ws) $" "). rewrite <- Hj. reflexivity.
Qed.

(** ** Printing *)
Definition lexed (t : str) (ws : list str) : Prop := forall txt, lexes txt t ws false.
Lemma join_lexed w ss wss : rawOk w = true -> Forall2 lexed ss wss -> ss <> [] -> lexed (Join ss ($" " ++ w ++ $" ")) (joinWords w wss).
Proof.
  intros Hw Hl. induction Hl as [|t ws ss wss Ht Hl IH]; [done|]. intros _ txt. destruct Hl as [|t2 ws2 ss wss Ht2 Hl].
  { exact (Ht txt). }
  change (Join (t :: t2 :: ss) ($" " ++ w ++ $" ")) with (t ++ ($" " ++ w ++ $" ") ++ Join (t2 :: ss) ($" " ++ w ++ $" ")).
  change (joinWords w (ws :: ws2 :: wss)) with (ws ++ ([w] ++ joinWords w (ws2 :: wss))).
  apply (lexes_app txt t ws false); [apply Ht| |right; by exists " "%char, ((w ++ $" ") ++ Join (t2 :: ss) ($" " ++ w ++ $" "))].
  apply (lexes_app txt _ [w] true); [|by apply IH|by left].
  apply (lexes_app txt $" " [] true _ [w] true); [apply space_lexes| |by left].
  apply (lexes_app txt w [w] false $" " [] true); [by apply raw_lexes|apply space_lexes|right; by exists " "%char, []].
Qed.
Definition strings : list Condition -> option (list str) :=
  fix strings l := match l with [] => Some [] | c :: l => s ← string_ c; ss ← strings l; Some (s :: ss) end.
Definition printed (c : Condition) : Prop := exists s, string_ c = Some s /\ lexed s (words c) /\
  match c with
  | andCond _ | orCond _ => exists inner, s = $"(" ++ inner ++ $")" /\ lexed inner (rootWords c)
  | _ => HasPrefix s $"(" = false
  end.
Lemma strings_lexed l : Forall printed l -> exists ss, strings l = Some ss /\ Forall2 lexed ss (map words l).
Proof.
  induction 1 as [|c l (s & E & Hs & _) _ (ss & E2 & Hss)]; [by exists []|]. exists (s :: ss). cbn [strings map]. rewrite E, E2. split; [done|]. by constructor.
Qed.
Lemma group_lexed or l : l <> [] -> Forall printed l -> exists ss, strings l = Some ss /\
  let inner := Join ss ($" " ++ sepWord or ++ $" ") in let ws := joinWords (sepWord or) (map words l) in
  lexed inner ws /\ lexed ($"(" ++ inner ++ $")") ($"(" :: ws ++ [$")"]).
Proof.
  intros Hne Hl. destruct (strings_lexed l Hl) as (ss & E & Hss). exists ss. split; [done|]. cbv zeta.
  assert (lexed (Join ss ($" " ++ sepWord or ++ $" ")) (joinWords (sepWord or) (map words l))) as Hin.
  { apply join_lexed; [by destruct or|done|]. intros ->. apply Forall2_nil_inv_l in Hss. by destruct l. }
  split; [exact Hin|]. intros txt. apply (lexes_app txt $"(" [$"("] true); [apply open_lexes| |by left].
  eapply lexes_open, lexes_app; [apply Hin|apply close_lexes|right; by exists ")"%char, []].
Qed.
Lemma escape_prefix k r : tokenOk k = true -> HasPrefix (escapeString k ++ r) $"(" = false.
Proof.
  intros Hk. apply not_true_iff_false. intros [x E]%HasPrefix_spec. destruct (escapeString k) as [|c q] eqn:Ek; [by apply escape_nonempty in Ek|].
  injection E as -> _. by eapply escape_head in Ek.
Qed.
Lemma print_ok c : printable c -> printed c.
Proof.
  induction c as [k o v|l IH|l IH|c IH|e] using Condition_nested_ind; cbn [printable]; [| | |intros [Hc Hp]; specialize (IH Hp)|done].
  - intros [[Hk _]%andb_true_iff Hv]. destruct (leaf_text [] k o v Hv) as (r & E & _). exists (escapeString k ++ " "%char :: r). split; [exact E|].
    split; [|by apply escape_prefix]. intros txt. destruct (leaf_text txt k o v Hv) as (r' & E' & Hr). rewrite E in E'. apply (inj Some), app_inv_head in E'. injection E' as <-.
    cbn [words]. apply (lexes_app txt _ [k] false _ (opWords o v)); [by apply token_lexes| |right; by exists " "%char, r].
    by apply (lexes_app txt $" " [] true r _ false); [apply space_lexes| |left].
  - intros [Hne Hl%printable_all]. assert (Forall printed l) as Hpl by (apply Forall_forall; rewrite Forall_forall in *; auto).
    destruct (group_lexed false l Hne Hpl) as (ss & E & Hin & Hout). eexists. cbn [string_]. fold strings. rewrite E. split; [done|]. split; [exact Hout|]. by eexists.
  - intros [Hne Hl%printable_all]. assert (Forall printed l) as Hpl by (apply Forall_forall; rewrite Forall_forall in *; auto).
    destruct (group_lexed true l Hne Hpl) as (ss & E & Hin & Hout). eexists. cbn [string_]. fold strings. rewrite E. split; [done|]. split; [exact Hout|]. by eexists.
  - destruct IH as (s & E & Hs & Hshape). exists (negated s). cbn [string_]. rewrite E. split; [done|].
    assert (forall l or, c = group or l -> (exists inner, s = $"(" ++ inner ++ $")" /\ lexed inner (rootWords c)) ->
      lexed (negated s) ($"not" :: words c) /\ HasPrefix (negated s) $"(" = false) as Hgroup.
    { intros l or _ (inner & Es & _). assert (negated s = $"not " ++ s) as -> by (unfold negated; by rewrite Es). split; [|done].
      intros txt. apply (lexes_app txt $"not " [$"not"] true); [|apply Hs|by left].
      apply (lexes_app txt $"not" [$"not"] false $" " [] true); [by apply raw_lexes|apply space_lexes|right; by exists " "%char, []]. }
    destruct c as [k o v|l|l|c|e]; [|by apply (Hgroup l false)|by apply (Hgroup l true)|done|done].
    destruct Hp as [[Hk _]%andb_true_iff Hv]. destruct (leaf_text [] k o v Hv) as (r & E' & _). cbn [string_] in E. rewrite E' in E. apply (inj Some) in E as <-.
    rewrite not_leaf_text by done. split; [|by apply escape_prefix]. intros txt. destruct (leaf_text txt k o v Hv) as (r' & E2 & Hr). rewrite E' in E2.
    apply (inj Some), app_inv_head in E2. injection E2 as <-. cbn [words].
    apply (lexes_app txt _ [k] false _ ($"not" :: opWords o v)); [by apply token_lexes| |right; by eexists " "%char, _].
    apply (lexes_app txt $" not " [$"not"] true r (opWords o v)); [|done|by left].
    apply (lexes_app txt $" " [] true $"not " [$"not"] true); [apply space_lexes| |by left].
    apply (lexes_app txt $"not" [$"not"] false $" " [] true); [by apply raw_lexes|apply space_lexes|right; by exists " "%char, []].
Qed.

(** ** Parsing *)
Lemma ParseBool_Format b : ParseBool (FormatBool b) = Some b.
Proof. by destruct b. Qed.
Lemma where_word k op v : valueOk op v -> v <> VExists -> op <> Exists /\ Where k op (GVString (valueWord v)) = leaf k op v.
Proof.
  destruct v as [z|f|s|l|[r|]|b|]; cbn [valueOk valueWord]; intros Hv Hx; try done.
  - destruct Hv as [H Hz]. pose proof (ParseInt_Itoa z Hz) as E.
    split; [intros ->; done|]. unfold Where. unfold within in H. rewrite H. cbn [newIntCondition]. by rewrite E.
  - destruct Hv as (H & _ & E). split; [intros ->; done|]. unfold Where. assert ((Equals <=? op) && (op <=? LessThanOrEqual) = false) as ->.
    { unfold within in H. apply andb_true_iff in H as [H _]. apply Z.leb_le in H. unfold FloatEquals, LessThanOrEqual in *. apply andb_false_iff. right. lia. }
    unfold within in H. rewrite H. cbn [newFloatCondition]. by rewrite E.
  - destruct Hv as (H & _). split; [intros ->; done|]. unfold Where.
    assert ((Equals <=? op) && (op <=? LessThanOrEqual) = false /\ (FloatEquals <=? op) && (op <=? FloatLessThanOrEqual) = false) as [-> ->].
    { unfold within in H. apply andb_true_iff in H as [H _]. apply Z.leb_le in H. unfold SameAs, LessThanOrEqual, FloatLessThanOrEqual in *. split; apply andb_false_iff; right; lia. }
    unfold within in H. by rewrite H.
  - destruct Hv as (-> & H2 & Hl & _). split; [done|]. change (newStringSliceCondition k In_ (GVString (Join l $",")) = leaf k In_ (VSlice l)). cbn [newStringSliceCondition].
    change (Split (Join l $",") ",") with (Split (Join l [","%char]) ","). rewrite Split_Join; [|intros ->; simpl in H2; lia|done]. cbv zeta. by rewrite (proj2 (Nat.ltb_ge _ _)).
  - destruct Hv as (-> & _ & E). split; [done|]. change (newRegexCondition k Matches_ (GVString (RegexpString r)) = leaf k Matches_ (VRegex (Some r))). cbn [newRegexCondition]. by rewrite E.
  - subst. split; [done|]. change (newBoolCondition k Is (GVString (FormatBool b)) = leaf k Is (VBool b)). cbn [newBoolCondition]. by rewrite ParseBool_Format.
Qed.
Section parser.
Context (n : Z).
Lemma parse_leaf (neg : bool) first op v ss rest : valueOk op v -> text <$> ss = (if neg then [$"not"] else []) ++ opWords op v ->
  parseCondition n first (ss ++ rest) = inl ((if neg then notCond else id) (leaf (text first) op v), rest).
Proof.
  intros Hv Hss. destruct (op_ok op (value_op _ _ Hv)) as (_ & Hop & Hnot). revert Hss Hop Hnot. unfold opWords.
  generalize (getOpName op) as w. intros w Hss Hop Hnot.
  assert (forall s0 ss, text s0 = w -> text <$> ss = match v with VExists => [] | _ => [valueWord v] end ->
    forall wrap : Condition -> Condition,
    match operatorNamed (text s0) with
    | None => inr (UnknownOperator (globalPosition s0))
    | Some op => if op =? Exists then inl (wrap (Where (text first) op (GVOther $"<nil>")), ss ++ rest)
        else match getSnippet n (ss ++ rest) with inr e => inr e | inl (value, ss) => inl (wrap (Where (text first) op (GVString (text value))), ss) end
    end = inl (wrap (leaf (text first) op v), rest)) as Hgo.
  { clear ss Hss. intros s0 ss E Hss wrap. rewrite E. rewrite Hop. assert (v = VExists \/ v <> VExists) as [->|Hx] by (destruct v; by (left + right)).
    - cbn [valueOk] in Hv. subst. apply fmap_nil_inv in Hss as ->. done.
    - destruct (where_word (text first) op v Hv Hx) as [Hne Hw]. rewrite (proj2 (Z.eqb_neq _ _) Hne).
      replace (match v with VExists => [] | _ => [valueWord v] end) with [valueWord v] in Hss by (by destruct v).
      destruct ss as [|s1 [|s2 ss]]; [done| |done]. injection Hss as Hs1. cbn [getSnippet app]. by rewrite Hs1, Hw. }
  unfold parseCondition. destruct neg; cbn [app] in Hss.
  - destruct ss as [|s0 [|s1 ss]]; [done..|]. injection Hss as H0 H1 H2. cbn [getSnippet app]. rewrite H0. change (eqs $"not" $"not") with true. cbv zeta iota.
    exact (Hgo s1 ss H1 H2 notCond).
  - destruct ss as [|s0 ss]; [done|]. injection Hss as H0 H1. cbn [getSnippet app]. rewrite H0, Hnot. cbv zeta iota. cbn [getSnippet].
    exact (Hgo s0 ss H0 H1 id).
Qed.
Definition isNot (c : Condition) : bool := match c with notCond _ => true | _ => false end.
Definition parses (c : Condition) : Prop := forall ss rest root s fuel, text <$> ss = words c -> (length (ss ++ rest) < fuel)%nat ->
  expectingMore s = true -> (isNot c = true -> wrapInNot s = false) ->
  exists fuel', (length rest < fuel')%nat /\
    parseAndOr n fuel root s (ss ++ rest) = parseAndOr n fuel' root (addCondition (norm c) (endsInGroup c) s) rest.
Lemma parses_leaf k op v (neg : bool) : keyOk k = true -> valueOk op v ->
  forall ss rest root s fuel, text <$> ss = k :: (if neg then [$"not"] else []) ++ opWords op v -> (length (ss ++ rest) < fuel)%nat ->
  expectingMore s = true ->
  exists fuel', (length rest < fuel')%nat /\
    parseAndOr n fuel root s (ss ++ rest) = parseAndOr n fuel' root (addCondition ((if neg then notCond else id) (leaf k op v)) false s) rest.
Proof.
  intros [_ Hk]%andb_true_iff Hv ss rest root s fuel Hss Hf He. destruct ss as [|first ss]; [done|]. injection Hss as Ht Hss.
  destruct fuel as [|fuel]; [simpl in Hf; lia|]. exists fuel. split; [simpl in Hf; rewrite length_app in Hf; lia|].
  cbn [app parseAndOr]. rewrite He. cbn [negb andb]. apply negb_true_iff in Hk. cbn [existsb keywords] in Hk. rewrite !orb_false_iff in Hk.
  destruct Hk as (K1 & K2 & K3 & K4 & K5 & _). rewrite Ht, K1, K2, K3, K4, K5. rewrite (parse_leaf neg first op v ss rest Hv Hss). by rewrite Ht.
Qed.
(** The members of a group and the words between them. *)
Lemma parses_members or l : Forall parses l -> l <> [] -> forall ss rest root s fuel, text <$> ss = joinWords (sepWord or) (map words l) ->
  (length (ss ++ rest) < fuel)%nat -> expectingMore s = true -> wrapInNot s = false -> (typeSet s = true -> isOr s = or) ->
  exists fuel' s', (length rest < fuel')%nat /\ parseAndOr n fuel root s (ss ++ rest) = parseAndOr n fuel' root s' rest /\
    conditions s' = conditions s ++ map norm l /\ expectingMore s' = from_option endsInGroup true (last l) /\
    isOr s' = match l with [_] => isOr s | _ => or end.
Proof.
  induction 1 as [|c l Hc Hl IH]; [done|]. intros _ ss rest root s fuel Hss Hf He Hw Hor. destruct l as [|c2 l].
  - destruct (Hc ss rest root s fuel Hss Hf He (fun _ => Hw)) as (f' & Hf' & E). eexists f', _. split; [done|]. split; [exact E|].
    unfold addCondition. rewrite Hw. done.
  - change (joinWords (sepWord or) (map words (c :: c2 :: l))) with (words c ++ sepWord or :: joinWords (sepWord or) (map words (c2 :: l))) in Hss.
    apply fmap_app_inv in Hss as (ss1 & ss2 & H1 & H2 & ->). destruct ss2 as [|sep ss2]; [done|]. cbn [fmap list_fmap] in H2. injection H2 as Hsep H2.
    rewrite <- app_assoc in *. destruct (Hc ss1 (sep :: ss2 ++ rest) root s fuel (eq_sym H1) Hf He (fun _ => Hw)) as (f1 & Hf1 & E1).
    set (s1 := addCondition (norm c) (endsInGroup c) s) in *. assert (conditions s1 = conditions s ++ [norm c] /\ wrapInNot s1 = false /\ typeSet s1 = typeSet s /\ isOr s1 = isOr s)
      as (Hs1 & Hs2 & Hs3 & Hs4) by (unfold s1, addCondition; by rewrite Hw).
    destruct f1 as [|f1]; [lia|]. set (s2 := s1 <| isOr := or |> <| typeSet := true |> <| expectingMore := true |>).
    assert (parseAndOr n (S f1) root s1 (sep :: ss2 ++ rest) = parseAndOr n f1 root s2 (ss2 ++ rest)) as E2.
    { cbn [parseAndOr]. rewrite <- Hsep. assert (existsb (eqs (sepWord or)) [$"orderby"; $"limit"; $"offset"] = false) as -> by (by destruct or).
      rewrite andb_false_r. destruct or.
      - change (sepWord true) with $"or". change (eqs $"or" $"(") with false. change (eqs $"or" $")") with false. change (eqs $"or" $"and") with false.
        change (eqs $"or" $"or") with true. cbv iota. rewrite Hs3, Hs4. destruct (typeSet s) eqn:Et; [|done]. by rewrite Hor.
      - change (sepWord false) with $"and". change (eqs $"and" $"(") with false. change (eqs $"and" $")") with false. change (eqs $"and" $"and") with true.
        cbv iota. rewrite Hs3, Hs4. destruct (typeSet s) eqn:Et; [|done]. by rewrite Hor. }
    destruct (IH ltac:(done) ss2 rest root s2 f1) as (f' & s' & Hf' & E & Hcs & Hem & Ho); [done|simpl in Hf1; lia|done|done|done|].
    exists f', s'. split; [done|]. split; [by rewrite <- app_comm_cons, E1, E2, E|]. change (conditions s2) with (conditions s1) in Hcs. rewrite Hs1, <- app_assoc in Hcs.
    split; [exact Hcs|]. split; [by rewrite last_cons_cons|]. rewrite Ho. by destruct l.
Qed.
Lemma finish_collapse or s l : conditions s = l -> isOr s = match l with [_] => isOr s | _ => or end -> finish s = collapse or l.
Proof. intros <-. unfold finish, collapse, group. destruct (conditions s) as [|c [|c2 l]]; [by intros ->|done|by intros ->]. Qed.
Lemma members_finish or l s : conditions s = map norm l -> isOr s = match l with [_] => isOr andOrStart | _ => or end -> l <> [] -> finish s = collapse or (map norm l).
Proof. intros Hc Ho Hne. apply finish_collapse; [done|]. rewrite Ho. by destruct l as [|c [|c2 l]]. Qed.
Lemma parses_group or l : Forall parses l -> l <> [] -> forall ss rest root s fuel,
  text <$> ss = $"(" :: joinWords (sepWord or) (map words l) ++ [$")"] -> (length (ss ++ rest) < fuel)%nat -> expectingMore s = true ->
  exists fuel', (length rest < fuel')%nat /\
    parseAndOr n fuel root s (ss ++ rest) = parseAndOr n fuel' root (addCondition (collapse or (map norm l)) true s) rest.
Proof.
  intros Hl Hne ss rest root s fuel Hss Hf He. destruct ss as [|op ss]; [done|]. cbn [fmap list_fmap] in Hss. injection Hss as Hop Hss.
  apply fmap_app_inv in Hss as (ss1 & ss2 & H1 & H2 & ->). destruct ss2 as [|cl [|? ?]]; [done| |done]. cbn [fmap list_fmap] in H2. injection H2 as Hcl.
  cbn [app length] in Hf. rewrite <- app_assoc in *. cbn [app] in *. destruct fuel as [|fuel]; [lia|]. exists fuel. rewrite !length_app in Hf. cbn [length] in Hf. split; [lia|].
  cbn [parseAndOr]. rewrite Hop, He. change (eqs $"(" $"(") with true. cbn [negb andb].
  destruct (parses_members or l Hl Hne ss1 (cl :: rest) false andOrStart fuel (eq_sym H1)) as (f' & s' & Hf' & E & Hc & _ & Ho); [rewrite length_app; simpl; lia|done..|].
  change (eqs ["("%char] $"(") with true. cbv iota. rewrite <- app_assoc. cbn [app]. rewrite E.
  destruct f' as [|f']; [lia|]. cbn [parseAndOr]. rewrite <- Hcl, andb_false_r. cbn [andb].
  change (eqs [")"%char] $"(") with false. change (eqs [")"%char] $")") with true. cbn [mbind option_bind]. by rewrite (members_finish or l s' Hc Ho Hne).
Qed.
Lemma parses_ok c : printable c -> parses c.
Proof.
  induction c as [k o v|l IH|l IH|c IH|e] using Condition_nested_ind; cbn [printable]; [| | |intros [Hc Hp]; specialize (IH Hp)|done].
  - intros [Hk Hv] ss rest root s fuel Hss Hf He Hw. by apply (parses_leaf k o v false).
  - intros [Hne Hl%printable_all] ss rest root s fuel Hss Hf He Hw. apply (parses_group false l); try done. rewrite Forall_forall in *. auto.
  - intros [Hne Hl%printable_all] ss rest root s fuel Hss Hf He Hw. apply (parses_group true l); try done. rewrite Forall_forall in *. auto.
  - intros ss rest root s fuel Hss Hf He Hw.
    assert (words (notCond c) = $"not" :: words c -> endsInGroup c = true ->
      exists fuel', (length rest < fuel')%nat /\ parseAndOr n fuel root s (ss ++ rest) = parseAndOr n fuel' root (addCondition (notCond (norm c)) true s) rest) as Hgroup.
    { intros Hwords Hend. rewrite Hwords in Hss. destruct ss as [|nt ss]; [done|]. cbn [fmap list_fmap] in Hss. injection Hss as Hnt Hss.
      cbn [app length] in Hf. destruct fuel as [|fuel]; [lia|]. set (s1 := s <| wrapInNot := true |> <| expectingMore := true |>).
      destruct (IH ss rest root s1 fuel) as (f' & Hf' & E); [done|lia|done|by destruct c|]. exists f'. split; [done|].
      etransitivity; [|etransitivity; [exact E|]].
      - cbn [app parseAndOr]. rewrite Hnt, He. reflexivity.
      - rewrite Hend. f_equal. unfold s1, addCondition. rewrite (Hw eq_refl). destruct s. cbn in *. by rewrite (Hw eq_refl). }
    destruct c as [k o v|l|l|c|e]; [|by apply Hgroup|by apply Hgroup|done|done].
    destruct Hp as [Hk Hv]. by apply (parses_leaf k o v true).
Qed.
Definition rootEndsInGroup (c : Condition) : bool :=
  match c with andCond l | orCond l => from_option endsInGroup true (last l) | _ => endsInGroup c end.
Lemma parses_root c : printable c -> forall ss rest fuel, text <$> ss = rootWords c -> (length (ss ++ rest) < fuel)%nat ->
  exists fuel' s', (length rest < fuel')%nat /\ parseAndOr n fuel true andOrStart (ss ++ rest) = parseAndOr n fuel' true s' rest /\
    finish s' = norm c /\ expectingMore s' = rootEndsInGroup c.
Proof.
  intros Hp ss rest fuel Hss Hf.
  assert (forall or l, c = group or l -> Forall printable l -> l <> [] -> exists fuel' s', (length rest < fuel')%nat /\
    parseAndOr n fuel true andOrStart (ss ++ rest) = parseAndOr n fuel' true s' rest /\ finish s' = norm c /\ expectingMore s' = rootEndsInGroup c) as Hgroup.
  { intros or l -> Hl Hne. assert (Forall parses l) as Hps by (eapply Forall_impl; [exact Hl|apply parses_ok]).
    destruct (parses_members or l Hps Hne ss rest true andOrStart fuel) as (f' & s' & Hf' & E & Hc & He & Ho); [by destruct or|done..|].
    exists f', s'. split; [done|]. split; [exact E|]. rewrite (members_finish or l s' Hc Ho Hne). split; [by destruct or|]. rewrite He. by destruct or. }
  assert (rootWords c = words c -> rootEndsInGroup c = endsInGroup c -> exists fuel' s', (length rest < fuel')%nat /\
    parseAndOr n fuel true andOrStart (ss ++ rest) = parseAndOr n fuel' true s' rest /\ finish s' = norm c /\ expectingMore s' = rootEndsInGroup c) as Hone.
  { intros Hw He. rewrite Hw in Hss. destruct (parses_ok c Hp ss rest true andOrStart fuel Hss Hf eq_refl (fun _ => eq_refl)) as (f' & Hf' & E).
    eexists f', _. split; [done|]. split; [exact E|]. by rewrite He. }
  destruct c as [k o v|l|l|c|e]; [by apply Hone| | |by apply Hone|done].
  - destruct Hp as [Hne Hl%printable_all]. by apply (Hgroup false l).
  - destruct Hp as [Hne Hl%printable_all]. by apply (Hgroup true l).
Qed.
Definition clauseWord (t : str) : bool := existsb (eqs t) [$"orderby"; $"limit"; $"offset"].
Lemma where_parsed c ss rest : printable c -> rootEndsInGroup c = false -> text <$> ss = rootWords c ->
  (forall s ss, rest = s :: ss -> clauseWord (text s) = true) ->
  parseAndOr n (S (length (ss ++ rest))) true andOrStart (ss ++ rest) = Some (inl (norm c, rest)).
Proof.
  intros Hp He Hss Hr. destruct (parses_root c Hp ss rest (S (length (ss ++ rest))) Hss ltac:(lia)) as (f' & s' & Hf' & E & Hfin & Hem).
  rewrite E. destruct f' as [|f']; [lia|]. cbn [parseAndOr]. rewrite Hem, He, Hfin. destruct rest as [|s rest]; [done|]. cbn [negb andb].
  specialize (Hr s rest eq_refl). unfold clauseWord in Hr. by rewrite Hr.
Qed.
Lemma where_unfinished c ss : printable c -> rootEndsInGroup c = true -> text <$> ss = rootWords c ->
  parseAndOr n (S (length ss)) true andOrStart ss = Some (inr (UnexpectedEnd n)).
Proof.
  intros Hp He Hss. destruct (parses_root c Hp ss [] (S (length ss)) Hss) as (f' & s' & Hf' & E & _ & Hem); [rewrite app_nil_r; lia|].
  rewrite app_nil_r in E. rewrite E. destruct f' as [|f']; [lia|]. cbn [parseAndOr]. by rewrite Hem, He.
Qed.
End parser.

(** ** Groups of one *)
Lemma complies_norm acc c : complies acc (norm c) = complies acc c.
Proof.
  induction c as [k o v|l IH|l IH|c IH|e] using Condition_nested_ind; [done| | | |done].
  - assert (complies acc (group false (map norm l)) = complies acc (andCond l)) as E.
    { cbn [group complies]. induction IH as [|c l Hc _ IHl]; [done|]. cbn [map]. rewrite Hc. by rewrite IHl. }
    rewrite <- E. cbn [norm]. unfold collapse. destruct (map norm l) as [|c [|c2 l2]]; [done| |done]. cbn. by destruct (complies acc c) as [[]|].
  - assert (complies acc (group true (map norm l)) = complies acc (orCond l)) as E.
    { cbn [group complies]. induction IH as [|c l Hc _ IHl]; [done|]. cbn [map]. rewrite Hc. by rewrite IHl. }
    rewrite <- E. cbn [norm]. unfold collapse. destruct (map norm l) as [|c [|c2 l2]]; [done| |done]. cbn. by destruct (complies acc c) as [[]|].
  - cbn [norm complies]. by rewrite IH.
Qed.
Lemma check_norm c : printable c -> check (norm c) = None.
Proof.
  induction c as [k o v|l IH|l IH|c IH|e] using Condition_nested_ind; cbn [printable]; [| | | |done].
  - intros [_ Hv]. cbn [norm check]. apply value_op in Hv. unfold within in Hv. apply andb_true_iff in Hv as [_ Hv]. apply Z.leb_le in Hv.
    unfold Exists in Hv. destruct (o =? errorPresent) eqn:E; [|done]. apply Z.eqb_eq in E. unfold errorPresent in E. lia.
  - intros [_ Hl%printable_all]. assert (check (group false (map norm l)) = None) as E.
    { cbn [group check]. induction Hl as [|c l Hc Hl IHl]; [done|]. apply Forall_cons in IH as [IHc IH]. cbn [map]. rewrite IHc by done. by apply IHl. }
    cbn [norm]. unfold collapse. destruct (map norm l) as [|c [|c2 l2]]; [done| |done]. cbn in E. by destruct (check c).
  - intros [_ Hl%printable_all]. assert (check (group true (map norm l)) = None) as E.
    { cbn [group check]. induction Hl as [|c l Hc Hl IHl]; [done|]. apply Forall_cons in IH as [IHc IH]. cbn [map]. rewrite IHc by done. by apply IHl. }
    cbn [norm]. unfold collapse. destruct (map norm l) as [|c [|c2 l2]]; [done| |done]. cbn in E. by destruct (check c).
  - intros [_ Hp]. by apply IH.
Qed.
End facts.
