(* ===== verification/QueryProps.v ===== *)
(** * Properties of database queries

    Printed queries parse to themselves, except when they end in a group; every query
    that parses can be matched and printed. *)

From S2P Require Import Prelude GoStrings GoText GoNet DbRecord Query QueryLex QueryFacts.

(** Comparisons of known words. *)
Ltac eval_eqs := repeat match goal with |- context [eqs ?a ?b] => let v := eval vm_compute in (eqs a b) in
  lazymatch v with true => change (eqs a b) with true | false => change (eqs a b) with false end end.

(** ** Clauses *)
Section clauses.
Context {QE : QueryEnv}.
(** Nothing, or words after a separator. *)
Definition lexedTail (t : str) (ws : list str) : Prop := t = [] /\ ws = [] \/ lexed t ws /\ startsSep t.
Lemma tail_app t ws t2 ws2 : lexed t ws -> lexedTail t2 ws2 -> lexed (t ++ t2) (ws ++ ws2).
Proof.
  intros H [[-> ->]|[H2 Hs]]; [by rewrite !app_nil_r|]. intros txt. eapply lexes_app; [apply H|apply H2|by right].
Qed.
Lemma tail_tail t ws t2 ws2 : lexedTail t ws -> lexedTail t2 ws2 -> lexedTail (t ++ t2) (ws ++ ws2).
Proof.
  intros [[-> ->]|[H (c & r & -> & Hs)]] H2; [done|]. right. split; [by apply tail_app|]. by exists c, (r ++ t2).
Qed.
Lemma spaced_lexed t ws : lexed t ws -> lexedTail ($" " ++ t) ws.
Proof.
  intros H. right. split; [|by exists " "%char, t]. intros txt. apply (lexes_app txt $" " [] true t ws); [apply space_lexes|apply H|by left].
Qed.
Definition orderByText (o : str) : str := match o with [] => [] | _ => $" orderby " ++ o end.
Definition orderByWords (o : str) : list str := match o with [] => [] | _ => [$"orderby"; o] end.
Definition clauseWords (name : str) (n : Z) : list str := if 0 <? n then [name; Itoa n] else [].
Lemma word_lexed name t : rawOk name = true -> rawOk t = true -> lexedTail ($" " ++ name ++ $" " ++ t) [name; t].
Proof.
  intros Hn Ht. apply spaced_lexed. apply (tail_app name [name]); [intros txt; by apply raw_lexes|]. apply spaced_lexed. intros txt. by apply raw_lexes.
Qed.
Lemma orderBy_lexed o : o = [] \/ rawOk o = true -> lexedTail (orderByText o) (orderByWords o).
Proof. intros [->|Ho]; [by left|]. destruct o as [|c o]; [by left|]. by apply (word_lexed $"orderby" (c :: o)). Qed.
Lemma clause_lexed name n : rawOk name = true -> 0 <= n < 2 ^ 31 -> lexedTail (clause name n) (clauseWords name n).
Proof.
  intros Hname Hn. unfold clause, clauseWords. destruct (0 <? n); [|by left]. apply word_lexed; [done|]. apply Itoa_rawOk. lia.
Qed.
Lemma where_lexed c : printable c -> exists s, string_ c = Some s /\ lexedTail (whereText s) ($"where" :: rootWords c).
Proof.
  intros Hp. destruct (print_ok c Hp) as (s & E & Hs & Hshape). exists s. split; [done|].
  assert (forall inner, lexed inner (rootWords c) -> whereText s = $" where " ++ inner -> lexedTail (whereText s) ($"where" :: rootWords c)) as Hgo.
  { intros inner Hin ->. change ($" where " ++ inner) with ($" " ++ ($"where" ++ ($" " ++ inner))). apply spaced_lexed.
    apply (tail_app _ [$"where"]); [intros txt; by apply raw_lexes|by apply spaced_lexed]. }
  assert (s <> []) as Hne by apply (Hs []). unfold whereText in *. destruct s as [|a s]; [done|]. set (t := a :: s) in *.
  assert ((exists inner, t = $"(" ++ inner ++ $")" /\ lexed inner (rootWords c)) \/ HasPrefix t $"(" = false /\ rootWords c = words c) as [(inner & -> & Hin)|[Hf Hw]].
  { destruct c; [by right|by left|by left|by right|by right]. }
  - apply (Hgo inner Hin). f_equal. change (HasPrefix ($"(" ++ inner ++ $")") $"(") with true. cbv iota. replace (length ($"(" ++ inner ++ $")") - 2)%nat with (length inner) by (rewrite !length_app; simpl; lia).
    exact (take_app_length inner $")").
  - apply (Hgo t); [by rewrite Hw|]. by rewrite Hf.
Qed.

(** ** Reading them *)
Section read.
Context (n : Z).
Lemma read_number s ss z old set q name : text s = Itoa z -> 0 <= z < 2 ^ 31 -> old = 0 -> forall command,
  parseNumber n name old set command (s :: ss) q = inl (set z q, ss).
Proof. intros Hs Hz -> command. unfold parseNumber. cbn [getSnippet negb Z.eqb]. rewrite Hs. by rewrite ParseUint_Itoa. Qed.
Lemma read_offset z ss q fuel : 0 <= z < 2 ^ 31 -> text <$> ss = clauseWords $"offset" z -> (length ss < fuel)%nat -> offset q = 0 ->
  parseClauses n fuel ss q = Some (inl (q <| offset := z |>)).
Proof.
  intros Hz Hss Hf H0. destruct fuel as [|fuel]; [lia|]. unfold clauseWords in Hss. destruct (0 <? z) eqn:E.
  - destruct ss as [|s1 [|s2 [|? ?]]]; [done..| |done]. injection Hss as H1 H2. cbn [parseClauses]. unfold parseClause. rewrite H1. eval_eqs. cbv iota.
    rewrite (read_number s2 [] z (offset q) Offset q $"offset") by done. cbn [mbind option_bind]. destruct fuel as [|fuel]; [simpl in Hf; lia|]. done.
  - apply fmap_nil_inv in Hss as ->. cbn [parseClauses]. apply Z.ltb_ge in E. replace z with 0 by lia. destruct q. cbn in *. by subst.
Qed.
Lemma read_limit z f ss q fuel : 0 <= z < 2 ^ 31 -> 0 <= f < 2 ^ 31 -> text <$> ss = clauseWords $"limit" z ++ clauseWords $"offset" f ->
  (length ss < fuel)%nat -> limit q = 0 -> offset q = 0 -> parseClauses n fuel ss q = Some (inl (q <| limit := z |> <| offset := f |>)).
Proof.
  intros Hz Hf' Hss Hf H0 H1. unfold clauseWords in Hss at 1. destruct (0 <? z) eqn:E.
  - destruct ss as [|s1 [|s2 ss]]; [done..|]. injection Hss as H2 H3 Hss. destruct fuel as [|fuel]; [lia|]. cbn [parseClauses]. unfold parseClause.
    rewrite H2. eval_eqs. cbv iota. rewrite (read_number s2 ss z (limit q) Limit q $"limit") by done. cbn [mbind option_bind]. simpl in Hf.
    by apply read_offset; [|exact Hss|lia|].
  - apply Z.ltb_ge in E. replace z with 0 by lia. rewrite (read_offset f) by done. destruct q. cbn in *. by subst.
Qed.
Lemma read_rest o z f ss q fuel : 0 <= z < 2 ^ 31 -> 0 <= f < 2 ^ 31 ->
  text <$> ss = orderByWords o ++ clauseWords $"limit" z ++ clauseWords $"offset" f ->
  (length ss < fuel)%nat -> orderBy q = [] -> limit q = 0 -> offset q = 0 ->
  parseClauses n fuel ss q = Some (inl (q <| orderBy := o |> <| limit := z |> <| offset := f |>)).
Proof.
  intros Hz Hf' Hss Hf Ho H0 H1. destruct o as [|c o].
  - rewrite (read_limit z f) by done. destruct q. cbn in *. by subst.
  - cbn [orderByWords app] in Hss. set (t := c :: o) in *. clearbody t. destruct ss as [|s1 [|s2 ss]]; [done..|]. injection Hss as H2 H3 Hss.
    destruct fuel as [|fuel]; [lia|]. cbn [parseClauses]. unfold parseClause. rewrite H2, Ho. eval_eqs. cbn [negb getSnippet mbind option_bind]. rewrite H3.
    simpl in Hf. by rewrite (read_limit z f); [|..|exact Hss|lia| |].
Qed.
Lemma rest_words o z f s ss : text <$> s :: ss = orderByWords o ++ clauseWords $"limit" z ++ clauseWords $"offset" f -> clauseWord (text s) = true.
Proof.
  unfold orderByWords, clauseWords. destruct o as [|c o]; [destruct (0 <? z); [|destruct (0 <? f)]|]; intros E; try done; injection E as -> _; reflexivity.
Qed.
End read.

(** ** Queries *)
Definition clausesOk (q : Query) : Prop :=
  rawOk (makeKey (qdbName q) (dbKeyPrefix q)) = true /\ ":"%char ∉ qdbName q /\ (orderBy q = [] \/ rawOk (orderBy q) = true) /\
  0 <= limit q < 2 ^ 31 /\ 0 <= offset q < 2 ^ 31.
Definition queryOk (q : Query) : Prop :=
  clausesOk q /\ match where_ q with Some c => printable c /\ rootEndsInGroup c = false | None => True end.
Definition restWords (q : Query) : list str := orderByWords (orderBy q) ++ clauseWords $"limit" (limit q) ++ clauseWords $"offset" (offset q).
Definition whereWords (q : Query) : list str := match where_ q with Some c => $"where" :: rootWords c | None => [] end.
Lemma print_query q : clausesOk q -> match where_ q with Some c => printable c | None => True end ->
  exists t, Print_ q = Some t /\ lexed t (($"query" :: [makeKey (qdbName q) (dbKeyPrefix q)]) ++ whereWords q ++ restWords q).
Proof.
  intros (Hk & _ & Ho & Hl & Hf) Hw.
  assert (exists w, match where_ q with None => Some [] | Some c => whereText <$> string_ c end = Some w /\ lexedTail w (whereWords q)) as (w & Ew & Hwl).
  { unfold whereWords. destruct (where_ q) as [c|]; [|exists []; split; [done|by left]]. destruct (where_lexed c Hw) as (s & E & Hs). exists (whereText s). by rewrite E. }
  set (rest := orderByText (orderBy q) ++ clause $"limit" (limit q) ++ clause $"offset" (offset q)).
  assert (lexedTail rest (restWords q)) as Hr.
  { apply tail_tail; [by apply orderBy_lexed|]. apply tail_tail; by apply clause_lexed. }
  exists ($"query" ++ ($" " ++ makeKey (qdbName q) (dbKeyPrefix q)) ++ (w ++ rest)). unfold Print_. rewrite Ew. split.
  - cbn [mbind option_bind]. f_equal. unfold makeKey, rest. rewrite <- !app_assoc. by destruct (orderBy q).
  - change ($"query" :: [?k]) with ([$"query"] ++ [k]). rewrite <- (app_assoc [$"query"]). apply tail_app; [intros txt; by apply raw_lexes|].
    apply tail_tail; [apply spaced_lexed; intros txt; by apply raw_lexes|by apply tail_tail].
Qed.
Lemma new_key q : ":"%char ∉ qdbName q -> New (makeKey (qdbName q) (dbKeyPrefix q)) = mkQuery false (qdbName q) (dbKeyPrefix q) None [] 0 0.
Proof. intros Hn. unfold New. by rewrite ParseKey_makeKey. Qed.
(** The words of a query, parsed up to the clauses. *)
Lemma parse_words q t : lexed t (($"query" :: [makeKey (qdbName q) (dbKeyPrefix q)]) ++ whereWords q ++ restWords q) -> ":"%char ∉ qdbName q ->
  exists sw sr, text <$> sw = whereWords q /\ text <$> sr = restWords q /\
    ParseQuery t =
      (r ← parseClauses (Z.of_nat (length t)) (S (length (sw ++ sr))) (sw ++ sr) (mkQuery false (qdbName q) (dbKeyPrefix q) None [] 0 0);
       Some match r with inr e => inr e | inl q => match Check_ q with inl q => inl q | inr e => inr (BadCondition e) end end).
Proof.
  intros Hl Hn. destruct (extract_words t _ false Hl) as (ss & E & Hss). destruct ss as [|s1 [|s2 ss]]; [done..|]. injection Hss as H1 H2 Hss.
  apply fmap_app_inv in Hss as (sw & sr & Hw & Hr & ->). exists sw, sr. split; [done|]. split; [done|].
  unfold ParseQuery. rewrite E. cbn [getSnippet]. rewrite H1, H2. eval_eqs. cbn [negb]. by rewrite new_key.
Qed.
Definition parsedAs (q : Query) : Query := q <| checked := true |> <| where_ ::= fmap norm |>.
Lemma print_parse q : queryOk q -> exists t, Print_ q = Some t /\ ParseQuery t = Some (inl (parsedAs q)).
Proof.
  intros [Hc Hw]. destruct (print_query q Hc) as (t & Et & Hl); [by destruct (where_ q) as [c|]; [apply Hw|]|]. exists t. split; [done|].
  destruct Hc as (_ & Hn & Ho & Hlim & Hoff). destruct (parse_words q t Hl Hn) as (sw & sr & Hsw & Hsr & ->). unfold whereWords in Hsw.
  set (n := Z.of_nat (length t)) in *. clearbody n. clear Hl Et t.
  destruct (where_ q) as [c|] eqn:Ew.
  - destruct Hw as [Hp He]. destruct sw as [|s sw]; [done|]. injection Hsw as Hs Hsw. cbn [app parseClauses]. unfold parseClause at 1. rewrite Hs. eval_eqs. cbv iota. cbn [where_].
    rewrite (where_parsed n c sw sr Hp He Hsw). 2: { intros s' ss' ->. by eapply rest_words. }
    cbn [mbind option_bind]. rewrite (read_rest n (orderBy q) (limit q) (offset q) sr); try done. 2: { cbn [length]. rewrite length_app. lia. }
    cbn [mbind option_bind]. unfold Check_. cbn. rewrite check_norm by done. unfold parsedAs. destruct q. cbn in *. by subst.
  - apply fmap_nil_inv in Hsw as ->. cbn [app]. rewrite (read_rest n (orderBy q) (limit q) (offset q) sr) by (done || lia).
    cbn [mbind option_bind]. unfold Check_. cbn. unfold parsedAs. destruct q. cbn in *. by subst.
Qed.
Lemma matches_parsed q key acc : Matches (parsedAs q) key acc = Matches q key acc.
Proof.
  unfold Matches, MatchesKey, MatchesRecord, parsedAs. destruct q as [ch db pre w o l f]. cbn. destruct (HasPrefix key pre); [|done].
  destruct w as [c|]; [|done]. destruct acc; [|done]. apply complies_norm.
Qed.

(** ** What parses *)
(** The value has the type of the operator. *)
Definition typedLeaf (op : Z) (v : condValue) : Prop :=
  match v with
  | VInt _ => within Equals LessThanOrEqual op = true
  | VFloat _ => within FloatEquals FloatLessThanOrEqual op = true
  | VString _ => within SameAs EndsWith op = true
  | VSlice l => op = In_ /\ (2 <= length l)%nat
  | VRegex r => op = Matches_ /\ is_Some r
  | VBool _ => op = Is
  | VExists => op = Exists
  end.
Fixpoint typed (c : Condition) : Prop :=
  match c with
  | leaf _ op v => typedLeaf op v
  | andCond l | orCond l => (fix all l := match l with [] => True | c :: l => typed c /\ all l end) l
  | notCond c => typed c
  | errorCond _ => False
  end.
Lemma typed_all l : (fix all l := match l with [] => True | c :: l => typed c /\ all l end) l <-> Forall typed l.
Proof. induction l as [|c l IH]; [done|]. by rewrite Forall_cons, IH. Qed.
Definition checkedTyped (c : Condition) : Prop := check c = None -> typed c.
Lemma checked_leaf k op v : checkedTyped (leaf k op v) <-> (op <> errorPresent -> typedLeaf op v).
Proof.
  unfold checkedTyped. cbn. destruct (op =? errorPresent) eqn:E; [apply Z.eqb_eq in E|apply Z.eqb_neq in E]; naive_solver.
Qed.
Lemma error_typed k v : checkedTyped (leaf k errorPresent v).
Proof. by apply checked_leaf. Qed.
Lemma where_typed k op v : (forall l, v = GVStrings l -> (2 <= length l)%nat) -> checkedTyped (Where k op v).
Proof.
  intros Hv. unfold Where. fold (within Equals LessThanOrEqual op). fold (within FloatEquals FloatLessThanOrEqual op). fold (within SameAs EndsWith op).
  destruct (within Equals LessThanOrEqual op) eqn:E1; [|destruct (within FloatEquals FloatLessThanOrEqual op) eqn:E2; [|destruct (within SameAs EndsWith op) eqn:E3;
    [|destruct (op =? In_) eqn:E4; [apply Z.eqb_eq in E4|destruct (op =? Matches_) eqn:E5; [apply Z.eqb_eq in E5|destruct (op =? Is) eqn:E6; [apply Z.eqb_eq in E6|
      destruct (op =? Exists) eqn:E7; [apply Z.eqb_eq in E7|done]]]]]]].
  - destruct v; cbn [newIntCondition]; try apply error_typed; [by apply checked_leaf|]. destruct (ParseInt s); [by apply checked_leaf|apply error_typed].
  - destruct v; cbn [newFloatCondition]; try apply error_typed; try (by apply checked_leaf). destruct (ParseFloat s); [by apply checked_leaf|apply error_typed].
  - destruct v; cbn [newStringCondition]; try apply error_typed. by apply checked_leaf.
  - destruct v; cbn [newStringSliceCondition]; try apply error_typed; [|apply checked_leaf; split; [done|by apply Hv]]. cbv zeta. destruct (_ <? 2)%nat eqn:E; [apply error_typed|].
    apply checked_leaf. split; [done|]. by apply Nat.ltb_ge.
  - destruct v; cbn [newRegexCondition]; try apply error_typed. destruct (Compile s); [by apply checked_leaf|apply error_typed].
  - destruct v; cbn [newBoolCondition]; try apply error_typed; [|by apply checked_leaf]. destruct (ParseBool s); [by apply checked_leaf|apply error_typed].
  - by apply checked_leaf.
Qed.
Lemma first_check l : (fix first l := match l with [] => None | c :: l => match check c with Some e => Some e | None => first l end end) l = None ->
  Forall checkedTyped l -> Forall typed l.
Proof. intros Hc. induction 1 as [|c l Ht _ IH]; [done|]. destruct (check c) eqn:E; [done|]. constructor; [by apply Ht|by apply IH]. Qed.
Lemma finish_typed s : Forall checkedTyped (conditions s) -> checkedTyped (finish s).
Proof.
  intros Hl. unfold finish.
  assert (checkedTyped (if isOr s then orCond (conditions s) else andCond (conditions s))) as Hg.
  { destruct (isOr s); intros Hc; apply typed_all; by apply first_check. }
  destruct (conditions s) as [|c [|c2 l]]; [done| |done]. by apply Forall_cons in Hl as [? _].
Qed.
Lemma add_typed c more s : checkedTyped c -> Forall checkedTyped (conditions s) -> Forall checkedTyped (conditions (addCondition c more s)).
Proof.
  intros Hc Hl. unfold addCondition. destruct (wrapInNot s); cbn; apply Forall_app; (split; [done|]); by constructor.
Qed.
Definition goodResult (ss : list snippet) (r : (Condition * list snippet) + queryErr) : Prop :=
  match r with inl (c, ss') => checkedTyped c /\ (length ss' <= length ss)%nat | inr _ => True end.
Lemma parseCondition_good n first ss : goodResult ss (parseCondition n first ss).
Proof.
  unfold parseCondition. destruct ss as [|s1 ss]; [done|]. cbn [getSnippet].
  assert (forall (wrap : Condition -> Condition) s1 ss0, (length ss0 <= length ss)%nat -> (forall c, checkedTyped c -> checkedTyped (wrap c)) ->
    goodResult (s1 :: ss) match operatorNamed (text s1) with
    | None => inr (UnknownOperator (globalPosition s1))
    | Some op => if op =? Exists then inl (wrap (Where (text first) op (GVOther $"<nil>")), ss0)
        else match getSnippet n ss0 with inr e => inr e | inl (value, ss) => inl (wrap (Where (text first) op (GVString (text value))), ss) end
    end) as Hgo.
  { intros wrap s0 ss0 Hlen Hwrap. destruct (operatorNamed (text s0)) as [op|]; [|done]. destruct (op =? Exists).
    - split; [|simpl; lia]. apply Hwrap. by apply where_typed.
    - destruct ss0 as [|value ss0]; [done|]. split; [|simpl in *; lia]. apply Hwrap. by apply where_typed. }
  destruct (eqs (text s1) $"not"); cbv zeta iota.
  - destruct ss as [|s2 ss]; [done|]. cbn [getSnippet]. apply (Hgo notCond s2 ss); [simpl; lia|done].
  - by apply (Hgo id s1 ss).
Qed.
Lemma parseAndOr_total n fuel : forall root s ss, (length ss < fuel)%nat -> Forall checkedTyped (conditions s) ->
  exists r, parseAndOr n fuel root s ss = Some r /\ goodResult ss r.
Proof.
  induction fuel as [|fuel IH]; intros root s ss Hf Hs; [lia|]. cbn [parseAndOr]. cbv zeta. destruct ss as [|first ss].
  { eexists. split; [done|]. destruct (_ && _); [|done]. split; [by apply finish_typed|simpl; lia]. }
  simpl in Hf. assert (forall s' ss', (length ss' <= length ss)%nat -> Forall checkedTyped (conditions s') ->
    exists r, parseAndOr n fuel root s' ss' = Some r /\ goodResult (first :: ss) r) as Hnext.
  { intros s' ss' Hl Hs'. destruct (IH root s' ss' ltac:(lia) Hs') as (r & E & Hr). exists r. split; [done|].
    destruct r as [[c ss2]|]; [|done]. destruct Hr. split; [done|simpl; lia]. }
  destruct (_ && existsb _ _). { eexists. split; [done|]. split; [by apply finish_typed|done]. }
  destruct (eqs (text first) $"(").
  { destruct (IH false andOrStart ss ltac:(lia) ltac:(constructor)) as (r & -> & Hr). cbn [mbind option_bind].
    destruct r as [[c ss2]|]; [|by eexists]. destruct Hr as [Hc Hl]. apply Hnext; [done|by apply add_typed]. }
  destruct (eqs (text first) $")"). { eexists. split; [done|]. split; [by apply finish_typed|destruct root; simpl; lia]. }
  destruct (eqs (text first) $"and"). { destruct (_ && _); [by eexists|]. by apply Hnext. }
  destruct (eqs (text first) $"or"). { destruct (_ && _); [by eexists|]. by apply Hnext. }
  destruct (eqs (text first) $"not"); [by apply Hnext|].
  pose proof (parseCondition_good n first ss) as Hr. destruct (parseCondition n first ss) as [[c ss2]|]; [|by eexists].
  destruct Hr as [Hc Hl]. apply Hnext; [done|by apply add_typed].
Qed.
Definition goodQuery (q : Query) : Prop := checked q = false /\ forall c, where_ q = Some c -> checkedTyped c.
Lemma parseNumber_good n name old set command ss q : (forall z, goodQuery q -> goodQuery (set z q)) -> goodQuery q ->
  match parseNumber n name old set command ss q with inl (q, ss') => goodQuery q /\ (length ss' <= length ss)%nat | inr _ => True end.
Proof.
  intros Hset Hq. unfold parseNumber. destruct (negb _); [done|]. destruct ss as [|s ss]; [done|]. cbn [getSnippet].
  destruct (ParseUint _ _); [|done]. split; [by apply Hset|simpl; lia].
Qed.
Lemma parseClause_good n command ss q : goodQuery q -> exists r, parseClause n command ss q = Some r /\
  match r with inl (q, ss') => goodQuery q /\ (length ss' <= length ss)%nat | inr _ => True end.
Proof.
  intros Hq. unfold parseClause. destruct (eqs _ _).
  { destruct (where_ q); [by eexists|]. destruct (parseAndOr_total n (S (length ss)) true andOrStart ss) as (r & -> & Hr); [lia|constructor|].
    cbn [mbind option_bind]. eexists. split; [done|]. destruct r as [[c ss2]|]; [|done]. destruct Hr as [Hc Hl]. split; [|done].
    split; [apply Hq|]. cbn. by intros c' [= <-]. }
  destruct (eqs _ _).
  { eexists. split; [done|]. destruct (negb _); [done|]. destruct ss as [|s ss]; [done|]. cbn [getSnippet]. split; [done|simpl; lia]. }
  destruct (eqs _ _); [eexists; split; [done|]; by apply parseNumber_good|].
  destruct (eqs _ _); [eexists; split; [done|]; by apply parseNumber_good|]. by eexists.
Qed.
Lemma parseClauses_total n fuel : forall ss q, (length ss < fuel)%nat -> goodQuery q ->
  exists r, parseClauses n fuel ss q = Some r /\ match r with inl q => goodQuery q | inr _ => True end.
Proof.
  induction fuel as [|fuel IH]; intros ss q Hf Hq; [lia|]. cbn [parseClauses]. destruct ss as [|command ss]; [by eexists|].
  destruct (parseClause_good n command ss q Hq) as (r & -> & Hr). cbn [mbind option_bind]. destruct r as [[q' ss']|]; [|by eexists].
  destruct Hr as [Hq' Hl]. apply IH; [simpl in Hf; lia|done].
Qed.
Lemma typed_string c : typed c -> is_Some (string_ c).
Proof.
  induction c as [k o v|l IH|l IH|c IH|e] using Condition_nested_ind; [| | | |done].
  - intros Hv. cbn [string_]. destruct v as [| | | |r| |]; try by eexists. destruct Hv as [_ [r' ->]]. by eexists.
  - intros Hl%typed_all. assert (is_Some (strings l)) as [ss E].
    { induction Hl as [|c l Hc Hl IHl]; [by eexists|]. apply Forall_cons in IH as [IHc IH]. destruct (IHc Hc) as [s Es], (IHl IH) as [ss Ess].
      cbn [strings]. rewrite Es, Ess. by eexists. }
    cbn [string_]. fold strings. rewrite E. by eexists.
  - intros Hl%typed_all. assert (is_Some (strings l)) as [ss E].
    { induction Hl as [|c l Hc Hl IHl]; [by eexists|]. apply Forall_cons in IH as [IHc IH]. destruct (IHc Hc) as [s Es], (IHl IH) as [ss Ess].
      cbn [strings]. rewrite Es, Ess. by eexists. }
    cbn [string_]. fold strings. rewrite E. by eexists.
  - intros Hc. cbn [string_]. destruct (IH Hc) as [s ->]. by eexists.
Qed.
Lemma typed_complies acc c : typed c -> is_Some (complies acc c).
Proof.
  induction c as [k o v|l IH|l IH|c IH|e] using Condition_nested_ind; [| | | |done].
  - intros Hv. cbn [complies]. destruct v as [| | | |r| |]; try by eexists. destruct Hv as [-> [r' ->]]. cbn. unfold regexComplies. destruct (GetString acc k); by eexists.
  - intros Hl%typed_all. cbn [complies]. induction Hl as [|c l Hc Hl IHl]; [by eexists|]. apply Forall_cons in IH as [IHc IH].
    destruct (IHc Hc) as [[] ->]; cbn [mbind option_bind]; [by apply IHl|by eexists].
  - intros Hl%typed_all. cbn [complies]. induction Hl as [|c l Hc Hl IHl]; [by eexists|]. apply Forall_cons in IH as [IHc IH].
    destruct (IHc Hc) as [[] ->]; cbn [mbind option_bind]; [by eexists|by apply IHl].
  - intros Hc. cbn [complies]. destruct (IH Hc) as [s ->]. by eexists.
Qed.
Lemma typed_query q : (forall c, where_ q = Some c -> typed c) -> is_Some (Print_ q) /\ forall key acc, is_Some (Matches q key acc).
Proof.
  intros Ht. split.
  - unfold Print_. destruct (where_ q) as [c|]; [|by eexists]. destruct (typed_string c (Ht c eq_refl)) as [s ->]. by eexists.
  - intros key acc. unfold Matches, MatchesRecord. destruct (MatchesKey q key); [|by eexists]. destruct (where_ q) as [c|]; [|by eexists].
    destruct acc; [|by eexists]. by apply typed_complies, Ht.
Qed.
End clauses.

(** C19. Parsing ends on every text, and a query that parses is checked: the values of its
    conditions have the types of their operators, and matching it against any record and
    printing it do not panic. *)
Theorem parsed_typed `{QueryEnv} s : exists r, ParseQuery s = Some r /\
  match r with
  | inr _ => True
  | inl q => checked q = true /\ (forall c, where_ q = Some c -> typed c) /\ is_Some (Print_ q) /\ forall key acc, is_Some (Matches q key acc)
  end.
Proof.
  unfold ParseQuery. destruct (extractSnippets s) as [ss|]; [|by eexists]. destruct ss as [|word ss]; [by eexists|]. cbn [getSnippet].
  destruct (negb _); [by eexists|]. destruct ss as [|prefix ss]; [by eexists|]. cbn [getSnippet].
  destruct (parseClauses_total (Z.of_nat (length s)) (S (length ss)) ss (New (text prefix))) as (r & -> & Hr); [lia| |].
  { unfold New. by destruct (ParseKey _). }
  cbn [mbind option_bind]. destruct r as [q|]; [|by eexists]. destruct Hr as [Hch Ht]. unfold Check_. rewrite Hch.
  destruct (where_ q ≫= check) as [e|] eqn:E; [by eexists|]. eexists. split; [done|]. cbv iota. split; [done|].
  assert (forall c, where_ q = Some c -> typed c) as Hq by (intros c Hc; apply (Ht c Hc); by rewrite Hc in E).
  split; [exact Hq|]. by apply (typed_query (q <| checked := true |>)).
Qed.

(** C18. A printed query parses to the same query, apart from groups of one condition, and
    matches the same records: when its words can be read back, no group is empty,
    negations are of leaves without spaces in the key or of groups, and the conditions do
    not end in a group. *)
Theorem query_roundtrip `{QueryEnv} q : queryOk q ->
  exists t, Print_ q = Some t /\ ParseQuery t = Some (inl (parsedAs q)) /\ forall key acc, Matches (parsedAs q) key acc = Matches q key acc.
Proof. intros Hq. destruct (print_parse q Hq) as (t & Et & Ep). exists t. split; [done|]. split; [done|]. apply matches_parsed. Qed.

(** A query whose conditions end in a group is printed, but the text does not parse:
    after a closing parenthesis the parser expects another condition. *)
Theorem group_end_rejected `{QueryEnv} q c : clausesOk q -> where_ q = Some c -> printable c -> rootEndsInGroup c = true ->
  orderBy q = [] -> limit q = 0 -> offset q = 0 ->
  exists t, Print_ q = Some t /\ ParseQuery t = Some (inr (UnexpectedEnd (Z.of_nat (length t)))).
Proof.
  intros Hc Hw Hp He Ho Hl Hf. destruct (print_query q Hc) as (t & Et & Hlex); [by rewrite Hw|]. exists t. split; [done|].
  destruct Hc as (_ & Hn & _). destruct (parse_words q t Hlex Hn) as (sw & sr & Hsw & Hsr & ->).
  unfold whereWords in Hsw. rewrite Hw in Hsw. unfold restWords in Hsr. rewrite Ho, Hl, Hf in Hsr. apply fmap_nil_inv in Hsr as ->. rewrite app_nil_r.
  destruct sw as [|s sw]; [done|]. injection Hsw as Hs Hsw. cbn [parseClauses]. unfold parseClause. rewrite Hs. eval_eqs. cbv iota. cbn [where_].
  by rewrite (where_unfinished (Z.of_nat (length t)) c sw Hp He Hsw).
Qed.

(** ** Witnesses *)
Module QueryDemo.
Definition env : QueryEnv := {|
  Regexp := str; Compile s := inl s; MatchString r s := Contains s r; RegexpString r := r;
  ParseFloat _ := inr $"invalid syntax"; FormatFloat _ := $"0"; Quote s := s; showValue _ := [];
|}.
#[local] Existing Instance env.
Definition name : Condition := leaf $"name" SameAs (VString $"Julian Doe").
Definition count : Condition := leaf $"count" GreaterThan (VInt (-3)).
(** As in: [name sameas "Julian Doe" and (count > -3 or tag not in a,b) and count > -3]. *)
Definition tagged : Condition := orCond [count; notCond (leaf $"tag" In_ (VSlice [$"a"; $"b"]))].
Definition q : Query := mkQuery false $"core" $"people/" (Some (andCond [name; tagged; andCond [count]; count])) $"name" 10 0.
Definition bad : Query := mkQuery false $"core" $"people/" (Some (andCond [name; tagged])) [] 0 0.
End QueryDemo.
#[local] Existing Instance QueryDemo.env.
Lemma query_roundtrip_witness :
  queryOk QueryDemo.q /\ exists t, Print_ QueryDemo.q = Some t /\ ParseQuery t = Some (inl (parsedAs QueryDemo.q)).
Proof.
  assert (printable QueryDemo.count) as Hc by (split; [reflexivity|split; [reflexivity|lia]]).
  assert (queryOk QueryDemo.q) as Hq.
  { split.
    - split; [vm_compute; reflexivity|]. split; [apply (bool_decide_unpack _); vm_compute; exact I|]. split; [right; vm_compute; reflexivity|]. cbn. lia.
    - split; [|reflexivity]. split; [discriminate|]. split; [split; [reflexivity|split; reflexivity]|]. split.
      + split; [discriminate|]. split; [exact Hc|]. split; [|exact I]. split; [apply (bool_decide_unpack _); vm_compute; exact I|].
        split; [reflexivity|]. split; [reflexivity|]. split; [cbn; lia|]. split; [|reflexivity].
        repeat constructor; apply (bool_decide_unpack _); vm_compute; exact I.
      + split; [|split; [exact Hc|exact I]]. split; [discriminate|]. split; [exact Hc|exact I]. }
  split; [exact Hq|]. destruct (query_roundtrip QueryDemo.q Hq) as (t & H1 & H2 & _). exists t. split; [exact H1|exact H2].
Defined.
Lemma group_end_rejected_witness : exists t, Print_ QueryDemo.bad = Some t /\
  t = $"query core:people/ where name sameas " ++ quoted $"Julian Doe" ++ $" and (count > -3 or tag not in a,b)" /\
  ParseQuery t = Some (inr (UnexpectedEnd 84)).
Proof.
  assert (printable QueryDemo.count) as Hc by (split; [reflexivity|split; [reflexivity|lia]]).
  destruct (group_end_rejected QueryDemo.bad (andCond [QueryDemo.name; QueryDemo.tagged])) as (t & H1 & H2).
  - split; [vm_compute; reflexivity|]. split; [apply (bool_decide_unpack _); vm_compute; exact I|]. split; [left; reflexivity|]. cbn. lia.
  - reflexivity.
  - split; [discriminate|]. split; [split; [reflexivity|split; reflexivity]|]. split; [|exact I].
    split; [discriminate|]. split; [exact Hc|]. split; [|exact I]. split; [apply (bool_decide_unpack _); vm_compute; exact I|].
    split; [reflexivity|]. split; [reflexivity|]. split; [cbn; lia|]. split; [|reflexivity].
    repeat constructor; apply (bool_decide_unpack _); vm_compute; exact I.
  - reflexivity.
  - reflexivity.
  - reflexivity.
  - reflexivity.
  - exists t. split; [exact H1|].
    assert (t = $"query core:people/ where name sameas " ++ quoted $"Julian Doe" ++ $" and (count > -3 or tag not in a,b)") as ->.
    { apply (inj Some). rewrite <- H1. vm_compute. reflexivity. }
    split; [reflexivity|]. rewrite H2. vm_compute. reflexivity.
Defined.
