(* ===== verification/DecisionFrame.v ===== *)
(** * What a decision leaves alone

    [keeps R m]: whenever the monadic code [m] returns, the connections before and
    after are related by [R].  A decision keeps the [static] part of the connection: it
    changes the verdict with its reason, what the process and the entity cache, and
    notes; only with the resolver disabled it may start an inspection. *)

From S2P Require Import Prelude GoStrings GoText GoNet NetUtils Reference Entity EntityFacts Endpoints.
From S2P Require Import EndpointMatch Profile ProfileFacts Connection Firewall EntityView FirewallPolicy FirewallFacts.

Create HintDb keeps.

(** ** Relations over the monad *)
Definition keeps {A} (R : Connection -> Connection -> Prop) (m : M A) : Prop :=
  forall c a c', m c = Ret (a, c') -> R c c'.

Section keeps.
Context (R : Connection -> Connection -> Prop) `{!PreOrder R}.
Lemma keeps_ret {A} (a : A) : keeps R (mret a).
Proof. intros c a' c' H. injection H as <- <-. reflexivity. Qed.
Lemma keeps_bind {A B} (m : M A) (f : A -> M B) : keeps R m -> (forall a, keeps R (f a)) -> keeps R (m ≫= f).
Proof.
  intros Hm Hf c b c'. unfold mbind, M_bind. destruct (m c) as [[a c1]| |] eqn:E; [|done|done].
  intros H. etrans; [by eapply Hm|by eapply Hf].
Qed.
(** The first primitive reads the connection. *)
Lemma keeps_get_bind {B} (f : Connection -> M B) :
  (forall c a c', f c c = Ret (a, c') -> R c c') -> keeps R (get ≫= f).
Proof. intros Hf c a c'. apply Hf. Qed.
Lemma keeps_get : keeps R get.
Proof. intros c a c' H. injection H as <- <-. reflexivity. Qed.
Lemma keeps_panic {A} : keeps R (panic (A := A)).
Proof. done. Qed.
Lemma keeps_deref {A} (o : option A) : keeps R (deref o).
Proof. destruct o; [apply keeps_ret|apply keeps_panic]. Qed.
Lemma keeps_call {A} (o : outcome str A) : keeps R (call o).
Proof. intros c a c'. unfold call. destruct o; intros H; [|done|done]. injection H as <- <-. reflexivity. Qed.
Lemma keeps_modify f : (forall c, R c (f c)) -> keeps R (modify f).
Proof. intros Hf c a c' H. injection H as _ <-. apply Hf. Qed.
Lemma keeps_getEntity : keeps R getEntity.
Proof. apply keeps_bind; [apply keeps_get|intros c; apply keeps_deref]. Qed.
Lemma keeps_getProcess : keeps R getProcess.
Proof. apply keeps_bind; [apply keeps_get|intros c; apply keeps_deref]. Qed.
Lemma keeps_getLP : keeps R getLP.
Proof. apply keeps_bind; [apply keeps_get|intros c; apply keeps_deref]. Qed.
End keeps.

(** ** The relations *)
Section frames.
Context {IE : IntelEnv} {UT : UnicodeTables} {FE : FirewallEnv} (g : Cfg).

Definition staticPart (c : Connection) :=
  (Type_ c, Inbound c, IPProtocol c, LocalIP c, LocalPort c, Ended c, dataComplete c).
Record static (c c' : Connection) : Prop := {
  st_part : staticPart c' = staticPart c;
  st_inspecting : ResolverIsDisabled = false -> Inspecting c' = Inspecting c;
}.
#[export] Instance static_preorder : PreOrder static.
Proof.
  split; [by split|]. intros c1 c2 c3 [H1 H2] [H3 H4]. split; [congruence|].
  intros Hd. by rewrite H4, H2.
Qed.

Lemma static_eq c c' : staticPart c' = staticPart c -> Inspecting c' = Inspecting c -> static c c'.
Proof. by split. Qed.
Lemma static_SetVerdict v msg key ctx c : static c (SetVerdict g v msg key ctx c).
Proof. unfold SetVerdict. apply static_eq; case_bool_decide; try done; by destruct (ProcProfile _). Qed.
Lemma static_Deny msg key ctx c : static c (DenyWithContext g msg key ctx c).
Proof. unfold DenyWithContext. destruct (Inbound c); apply static_SetVerdict. Qed.

(** ** The primitives *)
Lemma keeps_setEntity e : keeps static (setEntity e).
Proof. by apply keeps_modify. Qed.
Lemma keeps_setLP lp : keeps static (setLP lp).
Proof. by apply keeps_modify. Qed.
Lemma keeps_Deny msg key ctx : keeps static (modify (DenyWithContext g msg key ctx)).
Proof. apply keeps_modify. intros c. apply static_Deny. Qed.
Lemma keeps_SetVerdict v msg key ctx : keeps static (modify (SetVerdict g v msg key ctx)).
Proof. apply keeps_modify. intros c. apply static_SetVerdict. Qed.

End frames.

(** Goes through the code primitive by primitive. *)
Ltac keep :=
  repeat first
  [ solve [auto 1 with keeps]
  | apply keeps_bind; [exact _| |intros ?]
  | apply keeps_ret; exact _
  | apply keeps_get; exact _ | apply keeps_getEntity; exact _ | apply keeps_getProcess; exact _ | apply keeps_getLP; exact _
  | apply keeps_deref; exact _ | apply keeps_call; exact _ | apply keeps_panic
  | apply keeps_setEntity | apply keeps_setLP | apply keeps_Deny | apply keeps_SetVerdict
  | progress unfold Accept_, Block_, Drop_, Deny_, Accept, Block, Drop, Deny, AcceptWithContext, BlockWithContext, DropWithContext
  | match goal with |- keeps _ (match ?x with _ => _ end) => destruct x eqn:? end
  | match goal with |- keeps _ (let '(_, _) := ?x in _) => destruct x end ].

Section decision.
Context {IE : IntelEnv} {UT : UnicodeTables} {FE : FirewallEnv} (g : Cfg).
Lemma keeps_option k : keeps static (option_ g k).
Proof. unfold option_. keep. Qed.
Lemma keeps_matchLists lists : keeps static (matchListsM lists).
Proof. unfold matchListsM. keep. Qed.
Lemma keeps_matchRules f : keeps static (matchRules f).
Proof. unfold matchRules. keep. Qed.
Lemma keeps_applyRule v key : keeps static (applyRule g v key).
Proof. unfold applyRule. keep. Qed.
Lemma keeps_PreventBypassing : keeps static PreventBypassing.
Proof. unfold PreventBypassing. keep. apply keeps_modify. intros c. split; [done|]. bool_prop. congruence. Qed.
#[local] Hint Resolve keeps_option keeps_matchLists keeps_matchRules keeps_applyRule keeps_PreventBypassing : keeps.

(** ** The decision *)
Lemma keeps_checkPortmasterConnection : keeps static (checkPortmasterConnection g).
Proof. unfold checkPortmasterConnection. keep. by apply keeps_modify. Qed.
Lemma keeps_customCNAMEs cnames : keeps static (customCNAMEs g cnames).
Proof. induction cnames as [|cname cnames IH]; cbn [customCNAMEs]; unfold customDomain; keep; apply IH. Qed.
#[local] Hint Resolve keeps_checkPortmasterConnection keeps_customCNAMEs : keeps.
Lemma keeps_deciders : Forall (keeps static) (defaultDeciders g).
Proof.
  unfold defaultDeciders, checkIfBroadcastReply, checkConnectionType, checkConnectionScope, checkEndpointLists,
    checkEndpointListsForSystemResolverDNSRequests, checkInvalidIP, checkResolverScope, checkConnectivityDomain,
    checkBypassPrevention, checkFilterLists, checkCustomFilterList, customDomain, checkDomainHeuristics,
    checkAutoPermitRelated, checkRelation.
  repeat apply Forall_cons_2; try apply Forall_nil_2; keep.
Qed.
Lemma keeps_runDeciders ds : Forall (keeps static) ds -> keeps static (runDeciders g ds).
Proof. induction 1 as [|d ds Hd _ IH]; cbn [runDeciders]; keep. Qed.
Lemma keeps_updateProfile lp : keeps static (updateProfile g lp).
Proof. unfold updateProfile. keep; by apply keeps_modify. Qed.
Lemma keeps_prepareEntity : keeps static (prepareEntity g).
Proof. unfold prepareEntity. keep. Qed.
Lemma keeps_concludeDecision done action : keeps static (concludeDecision g done action).
Proof. unfold concludeDecision, prompt. keep. Qed.
Lemma keeps_runDefault : keeps static (runDeciders g (defaultDeciders g)).
Proof. apply keeps_runDeciders, keeps_deciders. Qed.
#[local] Hint Resolve keeps_updateProfile keeps_prepareEntity keeps_concludeDecision keeps_runDefault : keeps.
Lemma decide_static : keeps static (decideOnConnection g).
Proof. unfold decideOnConnection. keep. Qed.
End decision.
