(* ===== verification/Packets.v ===== *)
(** * Packets (service/network/packet)

    What the firewall reads of a packet: its header ([packetinfo.go]), how it was
    obtained ([packet.go], [info_only.go]), and the identity of the connection it
    belongs to.  An absent IP is the empty list of bytes. *)

From S2P Require Import Prelude GoStrings GoText GoNet Firewall.

(** ** Protocols and versions (const.go) *)
Definition IPv4 : Z := 4.
Definition IPv6 : Z := 6.
Definition IGMP : Z := 2.
Definition TCP : Z := 6.
Definition UDPLite : Z := 136.
Definition RAW : Z := 255.
Definition AnyHostInternalProtocol61 : Z := 61.
Definition ByteSize (v : Z) : Z := if v =? IPv4 then 4 else if v =? IPv6 then 16 else 0.

(** ** Headers *)
Record Info := mkInfo {
  PktInbound : bool; Version : Z; PktProtocol : Z; SrcPort : Z; DstPort : Z; Src : IP; Dst : IP;
  PktPID : Z; SeenAt : Z;
}.
Definition RemoteIP (pi : Info) : IP := if PktInbound pi then Src pi else Dst pi.
Definition InfoLocalIP (pi : Info) : IP := if PktInbound pi then Dst pi else Src pi.
Definition InfoLocalPort (pi : Info) : Z := if PktInbound pi then DstPort pi else SrcPort pi.
Definition RemotePort (pi : Info) : Z := if PktInbound pi then SrcPort pi else DstPort pi.

(** The sides of an ID: with ports for TCP and UDP. *)
Definition idWithPorts (protocol : Z) (src : IP) (srcPort : Z) (dst : IP) (dstPort : Z) : str :=
  Itoa protocol ++ $"-" ++ IPString src ++ $"-" ++ Itoa srcPort ++ $"-" ++ IPString dst ++ $"-" ++ Itoa dstPort.
Definition idWithoutPorts (protocol : Z) (src dst : IP) : str :=
  Itoa protocol ++ $"-" ++ IPString src ++ $"-" ++ IPString dst.
Definition CreateConnectionID (protocol : Z) (src : IP) (srcPort : Z) (dst : IP) (dstPort : Z) (inbound : bool) : str :=
  if (protocol =? TCP) || (protocol =? UDP) then
    if inbound then idWithPorts protocol dst dstPort src srcPort
    else idWithPorts protocol src srcPort dst dstPort
  else if inbound then idWithoutPorts protocol dst src
  else idWithoutPorts protocol src dst.
Definition InfoConnectionID (pi : Info) : str :=
  CreateConnectionID (PktProtocol pi) (Src pi) (SrcPort pi) (Dst pi) (DstPort pi) (PktInbound pi).

(** ** Packets *)

(** The control message layer of a packet, with its type. *)
Inductive ICMPLayer := NoICMPLayer | ICMPv4Layer (type : Z) | ICMPv6Layer (type : Z).
#[export] Instance ICMPLayer_eq_dec : EqDecision ICMPLayer.
Proof. solve_decision. Defined.

(** [pktID] tells packets apart.  [Loads]: loading the data succeeds; [Layer] and
    [Payload] are what it loads. *)
Record Packet := mkPacket {
  pktID : nat; info : Info; InfoOnly : bool; FastTrackedByIntegration : bool; ExpectInfo : bool;
  Loads : bool; Layer : ICMPLayer; Payload : list Z;
}.
(** An informational packet never has data ([InfoPacket]). *)
Definition NewInfoPacket (id : nat) (i : Info) : Packet := mkPacket id i true false false false NoICMPLayer [].
Definition LoadPacketData (pkt : Packet) : bool := negb (InfoOnly pkt) && Loads pkt.
Definition IsInbound (pkt : Packet) : bool := PktInbound (info pkt).
Definition IsOutbound (pkt : Packet) : bool := negb (PktInbound (info pkt)).
Definition HasPorts (pkt : Packet) : bool :=
  let p := PktProtocol (info pkt) in (p =? TCP) || (p =? UDP) || (p =? UDPLite).
(** The ID is computed once and does not change. *)
Definition GetConnectionID (pkt : Packet) : str := InfoConnectionID (info pkt).
Definition MatchesAddress (remote : bool) (protocol : Z) (network : IPNet) (port : Z) (pkt : Packet) : bool :=
  let i := info pkt in
  (PktProtocol i =? protocol) &&
  if negb (Bool.eqb (PktInbound i) remote)
  then NetContains network (Src i) && (SrcPort i =? port)
  else NetContains network (Dst i) && (DstPort i =? port).
Definition MatchesIP (endpoint : bool) (network : IPNet) (pkt : Packet) : bool :=
  let i := info pkt in
  if negb (Bool.eqb (PktInbound i) endpoint) then NetContains network (Src i) else NetContains network (Dst i).

(** ** Texts *)
Definition FmtPacket (pkt : Packet) : str :=
  let i := info pkt in
  let proto := IPProtocolString (PktProtocol i) in
  let local := IPString (InfoLocalIP i) in
  let remote := IPString (RemoteIP i) in
  let dir := if PktInbound i then $"IN " else $"OUT " in
  if (PktProtocol i =? TCP) || (PktProtocol i =? UDP)
  then dir ++ proto ++ $" " ++ local ++ $":" ++ Itoa (InfoLocalPort i) ++ $" <-> " ++ remote ++ $":" ++ Itoa (RemotePort i)
  else dir ++ proto ++ $" " ++ local ++ $" <-> " ++ remote.
Definition FmtProtocol (pkt : Packet) : str := IPProtocolString (PktProtocol (info pkt)).
Definition FmtRemoteIP (pkt : Packet) : str := IPString (RemoteIP (info pkt)).
Definition FmtRemotePort (pkt : Packet) : str :=
  if SrcPort (info pkt) =? 0 then $"-" else Itoa (RemotePort (info pkt)).
Definition FmtRemoteAddress (pkt : Packet) : str := FmtProtocol pkt ++ $":" ++ FmtRemoteIP pkt ++ $":" ++ FmtRemotePort pkt.

(** ** Bandwidth updates (bandwidth.go) *)
Inductive BandwidthUpdateMethod := Absolute | Additive | OtherMethod.
Record BandwidthUpdate := mkBW { BWConnID : str; BWReceived : Z; BWSent : Z; Method : BandwidthUpdateMethod }.
Definition MethodString (m : BandwidthUpdateMethod) : str :=
  match m with Absolute => $"absolute" | Additive => $"additive" | OtherMethod => $"unknown" end.
Definition BandwidthString (bu : BandwidthUpdate) : str :=
  BWConnID bu ++ $": " ++ Itoa (BWReceived bu) ++ $"B recv | " ++ Itoa (BWSent bu) ++ $"B sent [" ++
  MethodString (Method bu) ++ $"]".
