(* ===== verification/Conns.v ===== *)
(** * Connections as the packet handler sees them (service/network)

    A [Conn] is a [Connection] (the part the privacy filter decides on) with the rest
    of its state: identity, process context, packet queue, tunnel and counters.  The
    shared state of the program, [Sys], holds the connection objects on a heap, the
    tables that point to them, and what else packet handling changes.  Handlers run in
    the monad [H], with the connection they hold the lock of. *)

From S2P Require Import Prelude GoStrings GoText GoNet NetUtils Entity GoNum NavMap NavRoutes Endpoints Profile.
From S2P Require Import Connection Firewall Packets.

(** ** Connections (connection.go) *)

(** The firewall handlers that are set on connections ([packet_handler.go]). *)
Inductive FirewallHandler :=
| FastTrackHandler | GatherDataHandler | FilterHandler | InspectAndVerdictHandler | InspectDNSPacket | ICMPFilterHandler.
#[export] Instance FirewallHandler_eq_dec : EqDecision FirewallHandler.
Proof. solve_decision. Defined.

(** Of the process context what the code here reads. *)
Record ProcessContext := mkPC { PCName : str; PCPath : str; PCPid : Z; PCProfile : str; PCSource : str }.
Definition noContext : ProcessContext := mkPC [] [] 0 [] [].

(** The packet handler worker: not started, started, reading its queue (with
    whether the next packet is the first), holding the first packet back for one that
    comes after it, about to handle it then, or finished.  A worker that finds no
    queue waits forever. *)
Inductive Worker :=
| NoWorker | Starting | Reading (first : bool) | Holding (pkt : Packet) | Next (pkt : Packet) | Finished | Stuck.

(** [connRef]: the address of the object.  The queue is the buffer of the channel
    [pktQueue]; the field itself is nil when [pktQueueSet] is false.  [hasTunnel]:
    [TunnelContext] is set. *)
Record Conn := mkC {
  connRef : nat; ConnID : str; IPVersion : Z; PID : Z; core : Connection; ProcCtx : ProcessContext;
  External : bool; ConnectionEstablished : bool; VerdictPermanent : bool; Tunneled : bool;
  TunnelOpts : option Options; hasTunnel : bool; Started : Z; lastSeen : Z;
  HistoryEnabled : bool; BandwidthEnabled : bool; BytesReceived : Z; BytesSent : Z;
  firewallHandler : option FirewallHandler; pktQueueActive : bool; pktQueueSet : bool;
  pktQueue : list Packet; queueClosed : bool; worker : Worker;
  activeInspectors : option (list bool); keySet : bool; addedToMetrics : bool; deleted : bool;
}.
#[export] Instance eta_Conn : Eta Conn := fun c =>
  mkC (connRef c) (ConnID c) (IPVersion c) (PID c) (core c) (ProcCtx c) (External c) (ConnectionEstablished c)
    (VerdictPermanent c) (Tunneled c) (TunnelOpts c) (hasTunnel c) (Started c) (lastSeen c) (HistoryEnabled c)
    (BandwidthEnabled c) (BytesReceived c) (BytesSent c) (firewallHandler c) (pktQueueActive c) (pktQueueSet c)
    (pktQueue c) (queueClosed c) (worker c) (activeInspectors c) (keySet c) (addedToMetrics c) (deleted c).

Definition DataIsComplete (c : Conn) : bool := dataComplete (core c).
Definition onCore (f : Connection -> Connection) (c : Conn) : Conn := c <| core ::= f |>.

(** ** What happens to the outside *)
Inductive PktAction :=
| PktAccept | PktBlock | PktDrop | PktPermanentAccept | PktPermanentBlock | PktPermanentDrop
| PktRerouteToNameserver | PktRerouteToTunnel.
#[export] Instance PktAction_eq_dec : EqDecision PktAction.
Proof. solve_decision. Defined.
(** The reply to a DNS request that is put into the cache of IPs. *)
Record DNSReply := mkReply { ReplyName : str; ReplyType : Z; ReplyAnswers : list str }.
Inductive Event :=
| OnPacket (pkt : Packet) (a : PktAction)
| PushUpdate (ref : nat) (v : Verdict)
| UpdateVerdict (ref : nat) (v : Verdict)
| StopTunnel (ref : nat)
| SystemCheckPacket (pkt : Packet)
| DNSCheckDomain (subdomain : str)
| UpdateIPs (ref : nat) (reply : DNSReply)
| StoreBandwidth (history : bool) (profileKey connID : str) (bytesIn bytesOut : Z)
| Reattributed (connID : str).

(** The counters of packets and of connections. *)
Record Stats := mkStats { packetsAccepted : Z; packetsBlocked : Z; packetsDropped : Z; packetsFailed : Z }.
#[export] Instance eta_Stats : Eta Stats := fun s =>
  mkStats (packetsAccepted s) (packetsBlocked s) (packetsDropped s) (packetsFailed s).
Record Metrics := mkMetrics {
  blockedOut : Z; encryptedAndTunneledOut : Z; encryptedOut : Z; tunneledOut : Z; out : Z;
}.
#[export] Instance eta_Metrics : Eta Metrics := fun m =>
  mkMetrics (blockedOut m) (encryptedAndTunneledOut m) (encryptedOut m) (tunneledOut m) (out m).

(** [icmpListener]: the target and the buffer of the active listener.  [sluices]: the
    networks that are online, with the addresses of their pending requests. *)
Record Sys := mkSys {
  now : Z; heap : list Conn; conns : gmap str nat; dnsConns : gmap str nat;
  dnsRequestConnections : gmap str nat; openDNSRequests : gmap str nat; ports : gset str;
  icmpListener : option (option IP * list Packet); infoOnlyPacketsActive : bool;
  sluices : gmap str (gset str); stats : Stats; metrics : Metrics; events : list Event;
}.
#[export] Instance eta_Sys : Eta Sys := fun s =>
  mkSys (now s) (heap s) (conns s) (dnsConns s) (dnsRequestConnections s) (openDNSRequests s) (ports s)
    (icmpListener s) (infoOnlyPacketsActive s) (sluices s) (stats s) (metrics s) (events s).

(** ** The monad of the handlers *)
Definition H (A : Type) := Conn -> Sys -> outcome str (A * Conn * Sys).
#[export] Instance H_ret : MRet H := fun A a c s => Ret (a, c, s).
#[export] Instance H_bind : MBind H := fun A B f m c s =>
  match m c s with Ret (a, c, s) => f a c s | Err e => Err e | Panic => Panic end.
Definition getC : H Conn := fun c s => Ret (c, c, s).
Definition getS : H Sys := fun c s => Ret (s, c, s).
Definition modC (f : Conn -> Conn) : H unit := fun c s => Ret (tt, f c, s).
Definition modS (f : Sys -> Sys) : H unit := fun c s => Ret (tt, c, f s).
Definition hpanic {A} : H A := fun _ _ => Panic.
Definition hderef {A} (o : option A) : H A := match o with Some a => mret a | None => hpanic end.
Definition emit (e : Event) : H unit := modS (fun s => s <| events ::= fun l => l ++ [e] |>).
(** An operation on the part the filter decides on. *)
Definition onConn {A} (m : M A) : H A := fun c s =>
  match m (core c) with Ret (a, k) => Ret (a, c <| core := k |>, s) | Err e => Err e | Panic => Panic end.
Definition modConn (f : Connection -> Connection) : H unit := modC (onCore f).
Definition entityH : H Entity := c ← getC; hderef (entity (core c)).
Definition processH : H Process := c ← getC; hderef (process (core c)).

(** ** Tables of connections (connection_store.go) *)
Definition add (c : Conn) (m : gmap str nat) : gmap str nat := <[ConnID c := connRef c]> m.
Definition remove (c : Conn) (m : gmap str nat) : gmap str nat := delete (ConnID c) m.
(** The objects of a table, in the order the map is iterated. *)
Definition tableRefs `{IntelEnv} (m : gmap str nat) : list nat := omap (fun k => m !! k) (mapOrder (map_to_list m).*1).
Definition list_ `{IntelEnv} (m : gmap str nat) (s : Sys) : list Conn := omap (fun i => heap s !! i) (tableRefs m).
(** The number of connections [active] counts: those that have an end. *)
Definition active `{IntelEnv} (s : Sys) : nat :=
  length (filter (fun c => negb (Ended (core c) =? 0)) (list_ (conns s) s)).

(** ** Saving connections *)
Definition NetworkHostProcessID : Z := -255.
Definition inc (z : Z) : Z := u64 (z + 1).
Definition addToMetrics : H unit :=
  c ← getC;
  let k := core c in
  if addedToMetrics c then mret tt
  else if match process k with Some p => Pid p =? NetworkHostProcessID | None => false end then mret tt
  else if Inbound k then mret tt
  else
    let count f := modS (fun s => s <| metrics ::= f |>) ;; modC (fun c => c <| addedToMetrics := true |>) in
    match verdict k with
    | VerdictBlock | VerdictDrop => count (fun m => m <| blockedOut ::= inc |>)
    | VerdictAccept | VerdictRerouteToTunnel =>
        if bool_decide (Type_ k = DNSRequest) then mret tt
        else if Encrypted k && Tunneled c then count (fun m => m <| encryptedAndTunneledOut ::= inc |>)
        else if Encrypted k then count (fun m => m <| encryptedOut ::= inc |>)
        else if Tunneled c then count (fun m => m <| tunneledOut ::= inc |>)
        else count (fun m => m <| out ::= inc |>)
    | _ => mret tt
    end.

Definition dbScopeNone : str := [].
Definition dbScopeDNS : str := $"dns".
Definition dbScopeIP : str := $"ip".
(** The table of a connection. *)
Definition ownTable (k : Connection) (f : gmap str nat -> gmap str nat) (s : Sys) : Sys :=
  if bool_decide (Type_ k = DNSRequest) then s <| dnsConns ::= f |> else s <| conns ::= f |>.
Definition established (v : Verdict) : bool :=
  bool_decide (v = VerdictAccept) || bool_decide (v = VerdictRerouteToNameserver).
(** The key of the record needs the process. *)
Definition Save : H unit :=
  c ← getC;
  (if established (verdict (core c)) then modC (fun c => c <| ConnectionEstablished := true |>) else mret tt) ;;
  if negb (DataIsComplete c) then mret tt else
  (if keySet c then mret tt else
   processH ;;
   modC (fun c => c <| keySet := true |>) ;;
   modS (ownTable (core c) (add c))) ;;
  addToMetrics ;;
  emit (PushUpdate (connRef c) (verdict (core c))).
(** [delete] keeps anything that is not an IP connection in the other table. *)
Definition delete_ : H unit :=
  c ← getC;
  modS (fun s => if bool_decide (Type_ (core c) = IPConnection) then s <| conns ::= remove c |>
                 else s <| dnsConns ::= remove c |>) ;;
  modC (fun c => c <| deleted := true |>) ;;
  if DataIsComplete c then emit (PushUpdate (connRef c) (verdict (core c))) else mret tt.

(** ** Keys (database.go) *)
Definition makeKey (pid : Z) (scope id : str) : str :=
  if bool_decide (scope = []) then $"network:tree/" ++ Itoa pid
  else $"network:tree/" ++ Itoa pid ++ $"/" ++ scope ++ $"/" ++ id.
(** Process key, scope and ID. *)
Definition parseDBKey (key : str) : option (str * str * str) :=
  let scoped pid scope id :=
    if bool_decide (scope ∈ [dbScopeNone; dbScopeDNS; dbScopeIP]) then Some (pid, scope, id) else None in
  match Split key "/" with
  | [_; pid; scope; id] => scoped pid scope id
  | [_; pid; scope] => scoped pid scope []
  | [_; pid] => Some (pid, [], [])
  | [_] => Some ([], [], [])
  | _ => None
  end.
(** [StorageInterface.Get] for connections: only complete ones are exposed. *)
Definition storedConnection (key : str) (s : Sys) : option Conn :=
  match parseDBKey (TrimPrefix key $"network:") with
  | None => None
  | Some (pid, scope, id) =>
      if bool_decide (pid = []) then None else
      let exposed (m : gmap str nat) :=
        c ← (m !! id ≫= fun i => heap s !! i); if DataIsComplete c then Some c else None in
      if bool_decide (scope = dbScopeDNS) then exposed (dnsConns s)
      else if bool_decide (scope = dbScopeIP) then exposed (conns s)
      else None
  end.
