(* ===== verification/Gather.v ===== *)
(** * The data of connections (service/network: connection.go, connection_handler.go, dns.go)

    Creating connections from packets, gathering process and domain, feature flags,
    firewall handlers, and the table of DNS request connections.  [PacketEnv] is what
    packet handling asks of the rest of the program and of the system. *)

From S2P Require Import Prelude GoStrings GoText GoNet NetUtils Reference Entity GoNum NavMap NavRoutes Endpoints Profile.
From S2P Require Import Connection Firewall Packets Conns.

(** ** Environment *)

(** Of the domain an IP was resolved from, what connections take over. *)
Record Resolved := mkResolved { ResDomain : str; ResCNAMEs : list str; ResScope : option IPScope }.
(** A user account: state, end of the subscription (if there is one and it has an
    end), and the features of the current plan ([access/account/types.go]). *)
Record User := mkUser { UState : str; SubscriptionEnds : option Z; PlanFeatures : option (list str) }.
Inductive UserResult := UserError | NotLoggedIn | LoggedIn (u : User).
(** A parsed DNS message: the first question, and the answers if there are any. *)
Record DNSMsg := mkDNSMsg { DNSQuestion : option (str * Z); DNSAnswer : list str }.

Class PacketEnv := {
  filterEnabled : bool; permanentVerdicts : bool; dnsQueryInterception : bool;
  tunnelEnabled : bool; useCommunityNodes : bool;
  (** The matcher of nameserver IPs, once it is set. *)
  nameserverIPMatcher : option (IP -> bool);
  apiPortSet : bool; apiIP : IP; apiPort : Z;
  (** [GetPidOfConnection]: the PID and the direction. *)
  GetPidOfConnection : Info -> Z * bool;
  GetProcessWithProfile : Z -> option Process;
  SystemProcessID : Z;
  (** [resolver.GetIPInfo], after a number of flushes of the DNS monitor: the most
      recent domain, if the record has one. *)
  GetIPInfo : nat -> str -> str -> option (option Resolved);
  onWindows : bool;
  (** Whether the [n]th flush of the DNS monitor succeeds. *)
  monitorFlush : nat -> bool;
  captivePortal : IP * str;
  GetUser : UserResult;
  (** The registered inspectors with their verdicts. *)
  inspectors : list ((Connection -> Packet -> Z) * Verdict);
  ClientReady : bool;
  exceptIPv4 : IP; exceptIPv6 : IP;
  (** The state of the home hub. *)
  GetHome : option PinState;
  DNSExitHubPolicy : option (list (option Endpoint));
  IsResolverAddress : IP -> Z -> bool;
  StopTunnelOk : bool;
  (** The third-party DNS library. *)
  Unpack : list Z -> option DNSMsg;
  (** [state.Exists]: whether the system knows the connection. *)
  stateExists : Conn -> bool;
  (** [RefetchProfile]: the new scoped ID and profile. *)
  refetchProfile : Process -> option (str * LayeredProfile);
}.

Definition UserStateApproved : str := $"approved".
Definition FeatureHistory : str := $"history".
Definition FeatureBWVis : str := $"bw-vis".
Definition MayUse (now : Z) (featureID : str) (u : option User) : bool :=
  match u with
  | None => false
  | Some u =>
      eqs (UState u) UserStateApproved &&
      match SubscriptionEnds u with None => false | Some ends => negb (ends <? now) end &&
      match PlanFeatures u with
      | None => false
      | Some fs => bool_decide (featureID = []) || bool_decide (featureID ∈ fs)
      end
  end.

Section gather.
Context {IE : IntelEnv} {UT : UnicodeTables} {PE : PacketEnv} (g : Cfg).

(** ** Firewall handlers *)
Definition SetFirewallHandler (h : FirewallHandler) : H unit :=
  c ← getC;
  (if pktQueueActive c then mret tt else
   modC (fun c => c <| pktQueue := [] |> <| queueClosed := false |> <| pktQueueSet := true |> <| pktQueueActive := true |>)) ;;
  (if firewallHandler c then mret tt else modC (fun c => c <| worker := Starting |>)) ;;
  modC (fun c => c <| firewallHandler := Some h |>).
Definition UpdateFirewallHandler (h : FirewallHandler) : H unit :=
  modC (fun c => if firewallHandler c then c <| firewallHandler := Some h |> else c).
Definition StopFirewallHandler : H unit :=
  modC (fun c =>
    let c := c <| firewallHandler := None |> in
    let c := if pktQueueActive c then c <| queueClosed := true |> <| pktQueueActive := false |> else c in
    c <| pktQueueSet := false |>).
Definition HSaveWhenFinished : H unit := modConn SaveWhenFinished.

(** ** Feature flags *)
(** An error of the account other than a missing login leaves the flags alone. *)
Definition UpdateFeatures : H unit :=
  s ← getS;
  let update (user : option User) :=
    modC (fun c => c <| HistoryEnabled := false |>) ;;
    c ← getC;
    (if Internal (core c) then mret tt else
     e ← entityH;
     if IsLocalhost (EIPScope e) then mret tt
     else if MayUse (now s) FeatureHistory user then
       match ProcProfile (process (core c)) with
       | None => mret tt
       | Some lp =>
           b ← onConn (option_ g EnableHistory);
           modC (fun c => c <| HistoryEnabled := b |>)
       end
     else mret tt) ;;
    modC (fun c => c <| BandwidthEnabled := MayUse (now s) FeatureBWVis user |>) in
  match GetUser with
  | UserError => mret tt
  | NotLoggedIn => update None
  | LoggedIn u => update (Some u)
  end.

(** ** New connections *)
(** 2020-01-01 *)
Definition tooOldTimestamp : Z := 1577836800.
Definition emptyReason : Reason := mkReasonInfo [] [] [] NoCtx.
Definition incompleteCore (i : Info) : Connection :=
  mkConn IPConnection [] (PktInbound i) (PktProtocol i) [] Undefined 0 None None VerdictUndecided emptyReason
    0 false false false false None false 0.
Definition newConn (ref : nat) (id : str) (i : Info) (now : Z) : Conn := {|
  connRef := ref; ConnID := id; IPVersion := Version i; PID := PktPID i; core := incompleteCore i; ProcCtx := noContext;
  External := false; ConnectionEstablished := false; VerdictPermanent := false; Tunneled := false; TunnelOpts := None;
  hasTunnel := false; Started := if SeenAt i <? tooOldTimestamp then now else SeenAt i; lastSeen := SeenAt i;
  HistoryEnabled := false; BandwidthEnabled := false; BytesReceived := 0; BytesSent := 0; firewallHandler := None;
  pktQueueActive := false; pktQueueSet := false; pktQueue := []; queueClosed := false; worker := NoWorker;
  activeInspectors := None; keySet := false; addedToMetrics := false; deleted := false;
|}.
(** The object is put on the heap and into the table. *)
Definition NewIncompleteConnection (pkt : Packet) (s : Sys) : Conn * Sys :=
  let c := newConn (length (heap s)) (GetConnectionID pkt) (info pkt) (now s) in
  (c, s <| heap ::= fun l => l ++ [c] |> <| conns ::= add c |>).

(** ** DNS request connections (dns.go) *)
Definition getDNSRequestConnectionKey (i : Info) : option str :=
  if SrcPort i =? 0 then None
  else Some (Itoa (PktProtocol i) ++ $"-" ++ IPString (Src i) ++ $"-" ++ Itoa (SrcPort i)).
Definition SaveDNSRequestConnection (pkt : Packet) : H unit :=
  c ← getC;
  if (PID c =? UndefinedProcessID) || (PID c =? SystemProcessID) then mret tt else
  match getDNSRequestConnectionKey (info pkt) with
  | None => mret tt
  | Some key => modS (fun s => s <| dnsRequestConnections ::= <[key := connRef c]> |>)
  end.
Definition GetDNSRequestConnection (i : Info) (s : Sys) : option Conn :=
  key ← getDNSRequestConnectionKey i; ref ← dnsRequestConnections s !! key; heap s !! ref.
Definition cleanDNSRequestConnections (s : Sys) : Sys :=
  s <| dnsRequestConnections ::= filter (fun kr =>
    match heap s !! kr.2 with
    | Some c => negb ((0 <? Ended (core c)) && (Ended (core c) <? now s - 3)) | None => true end = true) |>.
(** A, AAAA, SVCB and HTTPS. *)
Definition supportedDomainToIPRecordTypes : list Z := [1; 28; 64; 65].
Definition IsSupportDNSRecordType (rrType : Z) : bool := bool_decide (rrType ∈ supportedDomainToIPRecordTypes).
Definition dnsTypeString (t : Z) : str :=
  if t =? 1 then $"A" else if t =? 28 then $"AAAA" else if t =? 64 then $"SVCB" else $"HTTPS".
Definition getDNSRequestCacheKey (pid : Z) (fqdn : str) (qType : Z) : str :=
  Itoa pid ++ $"/" ++ fqdn ++ dnsTypeString qType.
Definition removeOpenDNSRequest (pid : Z) (fqdn : str) (s : Sys) : Sys :=
  let removeFor pid (m : gmap str nat) :=
    foldl (fun m t => delete (getDNSRequestCacheKey pid fqdn t) m) m supportedDomainToIPRecordTypes in
  s <| openDNSRequests ::= fun m =>
    let m := removeFor pid m in
    if pid =? UnidentifiedProcessID then m else removeFor UnidentifiedProcessID m |>.

(** ** Gathering *)
Definition getProcessContext (p : Process) : ProcessContext :=
  match LocalProfileWithoutLocking (profile p) with
  | None => mkPC (Name p) (Path p) (Pid p) [] []
  | Some pr => mkPC (Name p) (Path p) (Pid p) (ID pr) (Source pr)
  end.
(** [RevisionCnt] of a profile that may be nil. *)
Definition RevisionCnt (lp : option LayeredProfile) : Z := match lp with None => 0 | Some lp => RevisionCounter lp end.
Definition shouldWaitForDomain (k : Connection) (e : Entity) : bool :=
  bool_decide (EIPScope e = Global) && negb (Inbound k) && negb (IsICMP (Protocol e)).

(** The record of the IP, of the profile's scope or else of the global one. *)
Definition lookupIP (n : nat) (scope ip : str) : option (option Resolved) :=
  match GetIPInfo n scope ip with Some r => Some r | None => GetIPInfo n $"global" ip end.
(** The retries on Windows, after [n] flushes. *)
Fixpoint retryLookup (tries n : nat) (scope ip : str) : option (option Resolved) :=
  match tries with
  | O => None
  | S tries =>
      if monitorFlush n then
        match lookupIP (S n) scope ip with Some r => Some r | None => retryLookup tries (S n) scope ip end
      else None
  end.
Definition optIP (ip : IP) : option IP := if bool_decide (ip = []) then None else Some ip.

Definition setEndpoints (pkt : Packet) : H unit :=
  let i := info pkt in
  modConn (fun k => k <| entity := Some (EntityInit (DstPort i)
    (newEntity (optIP (RemoteIP i)) (u8 (PktProtocol i)) (RemotePort i) [] [])) |>) ;;
  modConn (SetLocalIP (InfoLocalIP i)) ;;
  modConn (fun k => k <| LocalPort := InfoLocalPort i |>) ;;
  e ← entityH;
  modConn (fun k => k <| Scope := connScope (Inbound k) (EIPScope e) |>).
(** The process and what follows from its profile. *)
Definition gatherProcess : H unit :=
  c ← getC;
  (match process (core c) with
   | Some _ => mret tt
   | None => modConn (fun k => k <| process := GetProcessWithProfile (PID c) |>)
   end) ;;
  c ← getC;
  match process (core c) with
  | None => mret tt
  | Some p =>
      if negb (ProfileRevisionCounter (core c) =? 0) then mret tt else
      modC (fun c => c <| ProcCtx := getProcessContext p |>) ;;
      modConn (fun k => k <| ProfileRevisionCounter := RevisionCnt (profile p) |>) ;;
      match LocalProfileWithoutLocking (profile p) with
      | None => mret tt
      | Some pr => modConn (fun k => k <| Internal := Profile.Internal pr |>) ;; UpdateFeatures
      end
  end.
Context {FE : FirewallEnv}.
Definition setDomain (d : str) : H unit :=
  e ← entityH; modConn (fun k => k <| Scope := d |> <| entity := Some (e <| Domain := d |>) |>).
Definition gatherDomain (pkt : Packet) : H unit :=
  c ← getC; e ← entityH;
  (match ProcProfile (process (core c)) with
   | None => mret tt
   | Some lp =>
       if negb (bool_decide (Domain e = [])) then mret tt else
       pr ← hderef (localProfile lp);
       let ip := IPString (RemoteIP (info pkt)) in
       let info := match lookupIP 0 (ID pr) ip with
                   | Some r => Some r
                   | None => if onWindows && ResolverIsDisabled && shouldWaitForDomain (core c) e
                             then retryLookup 4 0 (ID pr) ip else None
                   end in
       match info with
       | Some (Some r) =>
           setDomain (ResDomain r) ;;
           e ← entityH;
           modConn (fun k => k <| entity := Some (e <| CNAME := ResCNAMEs r |>) |> <| ResolverScope := ResScope r |>) ;;
           p ← processH;
           modS (removeOpenDNSRequest (Pid p) (ResDomain r))
       | _ => mret tt
       end
   end) ;;
  e ← entityH;
  if bool_decide (Domain e = []) && IPEqual (RemoteIP (info pkt)) captivePortal.1
  then setDomain captivePortal.2 else mret tt.
Definition GatherConnectionInfo (pkt : Packet) : H unit :=
  c ← getC;
  (if entity (core c) then mret tt else setEndpoints pkt) ;;
  (if PID c =? UndefinedProcessID then
     let '(pid, inbound) := GetPidOfConnection (info pkt) in
     modC (fun c => c <| PID := pid |>) ;; modConn (fun k => k <| Inbound := inbound |>)
   else mret tt) ;;
  if InfoOnly pkt then mret tt else
  gatherProcess ;;
  gatherDomain pkt ;;
  modConn (fun k => match ProcProfile (process k), entity k with
                    | Some _, Some _ => k <| dataComplete := true |> | _, _ => k end) ;;
  HSaveWhenFinished.
End gather.
