(* ===== verification/Tunnel.v ===== *)
(** * Tunneling connections through the SPN (service/firewall/tunnel.go, spn/sluice)

    Whether an accepted connection is sent into the SPN, with which options, and the
    registration at the sluice it will arrive at. *)

From S2P Require Import Prelude GoStrings GoText GoNet NetUtils Entity GoNum NavMap NavRoutes Endpoints Profile.
From S2P Require Import Connection Firewall Packets Conns Gather.

Section tunnel.
Context {IE : IntelEnv} {UT : UnicodeTables} {FE : FirewallEnv} {PE : PacketEnv} (g : Cfg).

Definition CfgOptionSPNUsagePolicyKey : str := $"spn/usagePolicy".
Definition NonCommunityVerifiedOwners : list str := [$"Safing"].
Definition IsExcepted (ip : IP) : bool := IPEqual ip exceptIPv4 || IPEqual ip exceptIPv6.

(** ** Checking *)
(** The switch at the start: the connection is of a kind that may be tunneled. *)
Definition mayTunnel (k : Connection) (p : Process) (e : Entity) : bool :=
  tunnelEnabled && IsGlobal (EIPScope e) && negb (Inbound k) && bool_decide (verdict k = VerdictAccept) &&
  ((IPProtocol k =? TCP) || (IPProtocol k =? UDP)) &&
  negb ((Pid p =? ownPID) && (negb ClientReady || IsExcepted (ipBytes e))).
(** In a network the host is directly attached to. *)
Definition inLocalNet (e : Entity) : bool := match GetLocalNetwork (EIP e) with inl (Some _) => true | _ => false end.
(** As in [updateProfile], but the filter lists of the entity are kept. *)
Definition refreshProfile (lp : LayeredProfile) : M unit :=
  if NeedsUpdate g lp then
    let '(rev, lp) := Update g fetchProfile lp in
    setLP lp ;;
    modify (fun c => c <| ProfileRevisionCounter := rev |>) ;;
    modify SaveWhenFinished
  else
    c ← get;
    if ProfileRevisionCounter c =? RevisionCounter lp then mret tt
    else modify (fun c => c <| ProfileRevisionCounter := RevisionCounter lp |>) ;; modify SaveWhenFinished.
Definition HFailed (msg key : str) : H unit := modConn (Failed g msg key).

Definition checkTunneling : H unit :=
  c ← getC;
  if negb tunnelEnabled then mret tt else
  e ← entityH;
  if negb (IsGlobal (EIPScope e)) || Inbound (core c) || negb (bool_decide (verdict (core c) = VerdictAccept)) ||
     (negb (IPProtocol (core c) =? TCP) && negb (IPProtocol (core c) =? UDP))
  then mret tt else
  p ← processH;
  if negb (mayTunnel (core c) p e) then mret tt
  else if inLocalNet e then mret tt else
  match profile p with
  | None => HFailed $"no profile set" []
  | Some lp =>
      onConn (refreshProfile lp) ;;
      use ← onConn (option_ g UseSPN);
      if negb use then mret tt else
      e ← entityH;
      modConn (fun k => k <| entity := Some (FetchData e) |>) ;;
      '(result, _) ← onConn (matchRules (MatchSPNUsagePolicy g));
      match result with
      | MatchError => HFailed $"failed to check SPN rules" CfgOptionSPNUsagePolicyKey
      | Denied => mret tt
      | Permitted | NoMatch =>
          HSaveWhenFinished ;;
          if negb ClientReady then HFailed $"SPN not ready for tunneling" []
          else
            modConn (SetVerdictDirectly VerdictRerouteToTunnel) ;;
            modC (fun c => c <| Tunneled := true |>)
      end
  end.

(** ** Options *)
(** The routing profile is raised to a single hop to follow exit policies, and to two
    hops when the home hub is not trusted. *)
Definition upgradedProfile (exitPolicies : list Policy) (id : str) : str :=
  let rp := GetRoutingProfile id in
  let id := if (MaxHops rp <=? 1)%nat && HubPoliciesAreSet exitPolicies then RoutingProfileSingleHopID else id in
  if (MinHops rp <? 2)%nat && match GetHome with Some st => negb (Has st StateTrusted) | None => false end
  then RoutingProfileDoubleHopID else id.
Definition DeriveTunnelOptions (proc : option Process) (destination : Entity) (connEncrypted : bool)
    (lp : LayeredProfile) : Options * LayeredProfile :=
  let exit := StackedExitHubPolicies g lp in
  let '(alg, lp) := wrapStringOption g lp in
  let owners := if useCommunityNodes then [] else NonCommunityVerifiedOwners in
  let transit := mkHubOptions 0 0 false (StackedTransitHubPolicies g lp) owners None in
  let dest policies :=
    mkHubOptions (if connEncrypted then 0 else Add 0 StateTrusted) 0 false policies owners (Some destination) in
  let opts policies profileID := mkOptions None (Some transit) (Some (dest policies)) profileID in
  let dns := match proc with
             | Some p => (Pid p =? ownPID) && IsResolverAddress (ipBytes destination) (EPort destination)
             | None => false
             end in
  if dns then
    match DNSExitHubPolicy with
    | Some policy =>
        if EndpointsIsSet policy then
          let '(alg, lp) := wrapStringOption g lp in
          (opts [policy] (if eqs alg RoutingProfileHomeID then RoutingProfileSingleHopID else alg), lp)
        else (opts [] RoutingProfileHomeID, lp)
    | None => (opts [] RoutingProfileHomeID, lp)
    end
  else (opts exit (upgradedProfile exit alg), lp).

(** ** Requesting a tunnel *)
Definition getNetworkFromConnInfo (protocol version : Z) : str :=
  let proto := if protocol =? TCP then $"tcp" else if protocol =? UDP then $"udp" else [] in
  if bool_decide (proto = []) then []
  else if version =? IPv4 then proto ++ $"4" else if version =? IPv6 then proto ++ $"6" else [].
(** [AwaitRequest], and the error. *)
Definition AwaitRequest (c : Conn) (s : Sys) : option str * Sys :=
  let network := getNetworkFromConnInfo (IPProtocol (core c)) (IPVersion c) in
  if bool_decide (network = []) then (Some $"unsupported protocol", s) else
  match sluices s !! network with
  | None => (Some ($"sluice for network " ++ network ++ $" is offline"), s)
  | Some pending =>
      let key := JoinHostPort (IPString (LocalIP (core c))) (Itoa (LocalPort (core c))) in
      if bool_decide (key ∈ pending) then (Some ($"a pending request for " ++ key ++ $" already exists"), s)
      else (None, s <| sluices ::= <[network := {[key]} ∪ pending]> |>)
  end.
(** [getRequest]: an arriving connection takes the pending request. *)
Definition getRequest (network address : str) (s : Sys) : bool * Sys :=
  match sluices s !! network with
  | None => (false, s)
  | Some pending =>
      if bool_decide (address ∈ pending) then (true, s <| sluices ::= <[network := pending ∖ {[address]}]> |>) else (false, s)
  end.
(** The error, if the tunnel cannot be requested. *)
Definition requestTunneling : H (option str) :=
  p ← processH;
  match profile p with
  | None => mret (Some $"no profile set")
  | Some lp =>
      c ← getC; e ← entityH;
      let '(opts, lp) := DeriveTunnelOptions (Some p) e (Encrypted (core c)) lp in
      onConn (setLP lp) ;;
      modC (fun c => c <| TunnelOpts := Some opts |>) ;;
      c ← getC; s ← getS;
      let '(err, s) := AwaitRequest c s in
      modS (fun _ => s) ;;
      mret err
  end.
End tunnel.
