(* ===== verification/Handlers.v ===== *)
(** * Packet handling (service/firewall/packet_handler.go, inspection/inspection.go)

    The handlers of a connection's packets.  Each runs with the connection locked; a
    packet goes through the handler that is set on the connection, which may set the
    next one and call it, until a verdict is issued to the packet. *)

From S2P Require Import Prelude GoStrings GoText GoNet NetUtils Entity GoNum NavMap NavRoutes Endpoints Profile.
From S2P Require Import Connection Firewall Packets Conns Gather Tunnel.

(** ** Order of verdicts *)
Definition verdictNum (v : Verdict) : Z :=
  match v with
  | VerdictUndecided => 0 | VerdictUndeterminable => 1 | VerdictAccept => 2 | VerdictBlock => 3 | VerdictDrop => 4
  | VerdictRerouteToNameserver => 5 | VerdictRerouteToTunnel => 6 | VerdictFailed => 7
  end.
Definition maxVerdict (a b : Verdict) : Verdict := if verdictNum a <? verdictNum b then b else a.

(** ** Addresses *)
Definition blockedIPv4 : IP := v4InV6Prefix ++ [0; 0; 0; 17].
Definition blockedIPv6 : IP := replicate 15 0 ++ [23].
Definition SystemIntegrationCheckDstIP : IP := v4InV6Prefix ++ [127; 65; 67; 75].
Definition SystemIntegrationCheckProtocol : Z := AnyHostInternalProtocol61.
Definition DNSCheckInternalDomainScope : str := $".self-check.portmaster.home.arpa.".

(** ** Inspectors (inspection.go) *)
Definition DO_NOTHING : Z := 0.
Definition BLOCK_PACKET : Z := 1.
Definition DROP_PACKET : Z := 2.
Definition BLOCK_CONN : Z := 3.
Definition DROP_CONN : Z := 4.
Definition STOP_INSPECTING : Z := 5.

(** The environment with the connections that are active now. *)
Definition withConns (fe : FirewallEnv) (l : list Connection) : FirewallEnv := {|
  ownPID := ownPID; IsMyIP := IsMyIP; GetLocalNetwork := GetLocalNetwork; activeConns := l;
  GetOnlineStatus := GetOnlineStatus; IsConnectivityDomain := IsConnectivityDomain;
  GetUnbreakFilterListIDs := GetUnbreakFilterListIDs; customListsLoaded := customListsLoaded;
  customLookupDomain := customLookupDomain; customLookupIP := customLookupIP; customLookupASN := customLookupASN;
  customLookupCountry := customLookupCountry; EffectiveTLDPlusOne := EffectiveTLDPlusOne;
  LmsScoreBelow := LmsScoreBelow; LmsScoreOfDomainBelow := LmsScoreOfDomainBelow;
  levenshteinClose := levenshteinClose; ResolverIsDisabled := ResolverIsDisabled; prompted := prompted;
  fetchProfile := fetchProfile;
|}.

Section handlers.
Context {IE : IntelEnv} {UT : UnicodeTables} {FE : FirewallEnv} {PE : PacketEnv} (g : Cfg).

(** ** Issuing verdicts *)
Definition permanentOr (c : Conn) (permanent once : PktAction) : PktAction := if VerdictPermanent c then permanent else once.
Definition count (f : Stats -> Stats) : H unit := modS (fun s => s <| stats ::= f |>).
Definition issueVerdict (pkt : Packet) (v : Verdict) (allowPermanent : bool) : H unit :=
  if FastTrackedByIntegration pkt then mret tt else
  c ← getC;
  (if allowPermanent && negb (VerdictPermanent c) && permanentVerdicts then
     modC (fun c => c <| VerdictPermanent := true |>) ;; HSaveWhenFinished
   else mret tt) ;;
  c ← getC;
  match maxVerdict v (verdict (core c)) with
  | VerdictAccept =>
      count (fun s => s <| packetsAccepted ::= inc |>) ;; emit (OnPacket pkt (permanentOr c PktPermanentAccept PktAccept))
  | VerdictBlock =>
      count (fun s => s <| packetsBlocked ::= inc |>) ;; emit (OnPacket pkt (permanentOr c PktPermanentBlock PktBlock))
  | VerdictDrop =>
      count (fun s => s <| packetsDropped ::= inc |>) ;; emit (OnPacket pkt (permanentOr c PktPermanentDrop PktDrop))
  | VerdictRerouteToNameserver => emit (OnPacket pkt PktRerouteToNameserver)
  | VerdictRerouteToTunnel => emit (OnPacket pkt PktRerouteToTunnel)
  | VerdictFailed => count (fun s => s <| packetsFailed ::= inc |>) ;; emit (OnPacket pkt PktDrop)
  | VerdictUndecided | VerdictUndeterminable =>
      count (fun s => s <| packetsDropped ::= inc |>) ;; emit (OnPacket pkt PktDrop)
  end.
Definition verdictHandler (pkt : Packet) : H unit :=
  if InfoOnly pkt then mret tt else issueVerdict pkt VerdictUndecided true.
(** A handler sets a verdict without a reason option. *)
Definition HSetVerdict (v : Verdict) (msg : str) : H unit := modConn (SetVerdict g v msg [] NoCtx).

(** ** Filtering *)
Definition activeOf (c : Conn) (s : Sys) : list Connection :=
  core <$> list_ (conns s) (s <| heap ::= <[connRef c := c]> |>).
Definition decide_ : H unit := fun c s =>
  onConn (decideOnConnection (FE := withConns FE (activeOf c s)) g) c s.
(** Ports of encrypted protocols. *)
Definition encryptedPort (port : Z) : bool := existsb (Z.eqb port) [22; 443; 465; 853; 993; 995].
Definition FilterConnection (checkFilter checkTunnel : bool) : H unit :=
  c ← getC;
  if negb (DataIsComplete c) then mret tt else
  (if checkFilter then
     if filterEnabled then decide_ else modConn (Accept g $"privacy filter disabled" noReasonOptionKey)
   else mret tt) ;;
  e ← entityH;
  (if encryptedPort (dstPort e) then modConn (fun k => k <| Encrypted := true |>) else mret tt) ;;
  (if checkTunnel then checkTunneling g else mret tt) ;;
  c ← getC;
  if bool_decide (verdict (core c) = VerdictRerouteToTunnel) && negb (hasTunnel c) then
    err ← requestTunneling g;
    match err with
    | None => modC (fun c => c <| ConnectionEstablished := true |>)
    | Some err => HFailed g ($"failed to request tunneling: " ++ err) []
    end
  else mret tt.

(** ** ICMP *)
(** [SubmitPacketToICMPListener]: whether the packet is for the listener; the buffer
    holds a hundred packets. *)
Definition SubmitPacketToICMPListener (pkt : Packet) : H bool :=
  s ← getS;
  match icmpListener s with
  | None => mret false
  | Some (target, input) =>
      if negb (LoadPacketData pkt) then mret false
      else if IsOutbound pkt && match target with Some ip => negb (IPEqual (Dst (info pkt)) ip) | None => false end
      then mret false
      else
        modS (fun s => s <| icmpListener := Some (target, if (length input <? 100)%nat then input ++ [pkt] else input) |>) ;;
        mret true
  end.
(** Echo requests and replies. *)
Definition isEcho (pkt : Packet) : bool :=
  match Layer pkt with
  | NoICMPLayer => false
  | ICMPv4Layer t => (t =? 8) || (t =? 0)
  | ICMPv6Layer t => (t =? 128) || (t =? 129)
  end.
Definition undecided (v : Verdict) : bool := bool_decide (v = VerdictUndecided) || bool_decide (v = VerdictUndeterminable).
Definition icmpFilterHandler (pkt : Packet) : H unit :=
  if negb (LoadPacketData pkt) then issueVerdict pkt VerdictDrop false else
  submitted ← SubmitPacketToICMPListener pkt;
  if submitted : bool then issueVerdict pkt VerdictDrop false
  else if negb (isEcho pkt) && negb (bool_decide (Layer pkt = NoICMPLayer)) then issueVerdict pkt VerdictAccept false
  else
    c ← getC;
    (if undecided (verdict (core c)) then FilterConnection true false ;; HSaveWhenFinished else mret tt) ;;
    c ← getC;
    (if Inbound (core c) && (Ended (core c) =? 0) && IsOutbound pkt then
       modConn (fun k => k <| Inbound := false |>) ;; FilterConnection true false ;; HSaveWhenFinished
     else mret tt) ;;
    issueVerdict pkt VerdictUndecided false.

(** ** Inspection *)
(** Inspectors from [key] on, with those that are skipped, the packet verdict and
    whether inspection goes on; the skip flags are rebuilt. *)
Fixpoint runInspectors (pkt : Packet) (ins : list ((Connection -> Packet -> Z) * Verdict)) (skips : list bool)
    (v : Verdict) (goOn : bool) : H (list bool * Verdict * bool) :=
  match skips with
  | [] => mret ([], v, goOn)
  | skip :: skips =>
      let next skip v goOn := '(l, v, goOn) ← runInspectors pkt (tail ins) skips v goOn; mret (skip :: l, v, goOn) in
      if skip : bool then next true v goOn else
      c ← getC;
      '(inspect, inspectVerdict) ← hderef (head ins);
      if verdictNum inspectVerdict <? verdictNum (verdict (core c)) then next true v goOn else
      let action := inspect (core c) pkt in
      if action =? DO_NOTHING then next false (maxVerdict v VerdictAccept) true
      else if action =? BLOCK_PACKET then next false (maxVerdict v VerdictBlock) true
      else if action =? DROP_PACKET then next false VerdictDrop true
      else if action =? BLOCK_CONN then HSetVerdict VerdictBlock [] ;; next true VerdictBlock goOn
      else if action =? DROP_CONN then HSetVerdict VerdictDrop [] ;; next true VerdictDrop goOn
      else if action =? STOP_INSPECTING then next true v goOn
      else next false v goOn
  end.
Definition RunInspectors (pkt : Packet) : H (Verdict * bool) :=
  c ← getC;
  '(l, v, goOn) ← runInspectors pkt inspectors (default (replicate (length inspectors) false) (activeInspectors c)) VerdictUndecided false;
  modC (fun c => c <| activeInspectors := Some l |>) ;;
  mret (v, goOn).
Definition inspectAndVerdictHandler (pkt : Packet) : H unit :=
  if InfoOnly pkt then mret tt else
  '(pktVerdict, continueInspection) ← RunInspectors pkt;
  if continueInspection : bool then issueVerdict pkt pktVerdict false
  else StopFirewallHandler ;; issueVerdict pkt VerdictUndecided true.

(** The reply is put into the cache under the local profile's scope. *)
Definition UpdateIPsAndCNAMEs (reply : DNSReply) : H unit :=
  p ← processH;
  hderef (LocalProfileWithoutLocking (profile p)) ;;
  c ← getC; emit (UpdateIPs (connRef c) reply).
Definition observeDNS (m : DNSMsg) : H unit :=
  match DNSQuestion m with
  | None => mret tt
  | Some (fqdn, qtype) =>
      if HasSuffix fqdn DNSCheckInternalDomainScope
      then emit (DNSCheckDomain (TrimSuffix fqdn DNSCheckInternalDomainScope))
      else if bool_decide (DNSAnswer m = []) then mret tt
      else UpdateIPsAndCNAMEs (mkReply fqdn qtype (DNSAnswer m))
  end.
Definition inspectDNSPacket (pkt : Packet) : H unit :=
  if InfoOnly pkt then mret tt
  else if negb (LoadPacketData pkt) then emit (OnPacket pkt PktBlock) else
  match Unpack (Payload pkt) with
  | None =>
      emit (OnPacket pkt PktPermanentBlock) ;;
      HSetVerdict VerdictBlock $"none DNS data on DNS port" ;;
      modC (fun c => c <| VerdictPermanent := true |>) ;;
      Save
  | Some m => observeDNS m ;; emit (OnPacket pkt PktAccept)
  end.
End handlers.
