(* ===== verification/Dispatch.v ===== *)
(** * Packets on their way to a verdict (service/firewall/packet_handler.go,
    service/network: connection_handler.go, clean.go, module.go)

    The first handlers of a connection and their dispatch, the queue of a connection
    and its worker, re-evaluation, bandwidth updates, and the cleaner. *)

From S2P Require Import Prelude GoStrings GoText GoNet NetUtils Reference Entity GoNum NavMap NavRoutes Endpoints Profile.
From S2P Require Import Connection Firewall Packets Conns Gather Tunnel Handlers.

Section dispatch.
Context {IE : IntelEnv} {UT : UnicodeTables} {FE : FirewallEnv} {PE : PacketEnv} (g : Cfg).

(** ** The filter handler *)
(** A port of Portmaster's own is taken from the table. *)
Definition preAuthenticated : H bool :=
  c ← getC;
  if Inbound (core c) then mret false else
  e ← entityH; s ← getS;
  let '(b, ps) := localPortIsPreAuthenticated (Protocol e) (LocalPort (core c)) (ports s) in
  modS (fun s => s <| ports := ps |>) ;; mret b.
Definition rogueDNS (pkt : Packet) : H bool :=
  if dnsQueryInterception && negb ResolverIsDisabled && IsOutbound pkt && (DstPort (info pkt) =? 53) &&
     match nameserverIPMatcher with Some f => negb (f (Dst (info pkt))) | None => false end
  then
    p ← processH;
    if Pid p =? ownPID then e ← entityH; mret (negb (bool_decide (EIPScope e = LocalMulticast))) else mret true
  else mret false.
(** The privacy filter and what follows it. *)
Definition filterAndContinue (filterConnection : bool) (pkt : Packet) : H unit :=
  FilterConnection g filterConnection true ;;
  c ← getC;
  if Inspecting (core c) then
    e ← entityH;
    if looksLikeOutgoingDNSRequest (core c) e
    then inspectDNSPacket g pkt ;; UpdateFirewallHandler InspectDNSPacket
    else UpdateFirewallHandler InspectAndVerdictHandler ;; inspectAndVerdictHandler g pkt
  else StopFirewallHandler ;; verdictHandler pkt.
Definition filterHandler (pkt : Packet) : H unit :=
  HSaveWhenFinished ;;
  c ← getC;
  if negb (DataIsComplete c) || InfoOnly pkt then mret tt else
  own ← preAuthenticated;
  if own : bool then
    modConn (Accept g $"connection by Portmaster" noReasonOptionKey) ;;
    modConn (fun k => k <| Internal := true |>) ;;
    filterAndContinue false pkt
  else
    rogue ← rogueDNS pkt;
    if rogue : bool then
      HSetVerdict g VerdictRerouteToNameserver $"redirecting rogue dns query" ;;
      modConn (fun k => k <| Internal := true |>) ;;
      SaveDNSRequestConnection pkt ;;
      StopFirewallHandler ;;
      issueVerdict pkt VerdictUndecided true
    else filterAndContinue true pkt.

(** ** Gathering and fast-tracking *)
Definition isICMP (protocol : Z) : bool := (protocol =? ICMP) || (protocol =? ICMPv6).
Definition gatherDataHandler (pkt : Packet) : H unit :=
  HSaveWhenFinished ;;
  GatherConnectionInfo g pkt ;;
  c ← getC;
  if negb (DataIsComplete c) then mret tt
  else if isICMP (IPProtocol (core c)) then UpdateFirewallHandler ICMPFilterHandler ;; icmpFilterHandler g pkt
  else UpdateFirewallHandler FilterHandler ;; filterHandler pkt.

Definition isMyIP (ip : IP) : bool := match IsMyIP (optIP ip) with inl b => b | inr _ => false end.
Definition isDHCPPort (port : Z) : bool := existsb (Z.eqb port) [67; 68; 546; 547].
(** The cases for UDP and TCP, by destination port. *)
Definition permitByPort (pkt : Packet) : H (Verdict * bool) :=
  let i := info pkt in
  if isDHCPPort (DstPort i) then
    if negb (PktProtocol i =? UDP) then mret (VerdictUndecided, false) else
    match ClassifyIP (Dst i) with
    | HostLocal | LinkLocal | SiteLocal | LocalMulticast => mret (VerdictAccept, true)
    | _ => mret (VerdictUndecided, false)
    end
  else if DstPort i =? apiPort then
    if negb (PktProtocol i =? TCP) || negb apiPortSet || negb (IPEqual (Dst i) apiIP) || negb (isMyIP (Src i))
    then mret (VerdictUndecided, false) else mret (VerdictAccept, true)
  else if DstPort i =? 53 then
    match nameserverIPMatcher with
    | None => mret (VerdictUndecided, false)
    | Some matcher =>
        if negb (matcher (Dst i)) || negb (isMyIP (Src i)) then mret (VerdictUndecided, false) else
        (if IsOutbound pkt then modC (fun c => c <| PID := PktPID i |>) ;; SaveDNSRequestConnection pkt else mret tt) ;;
        c ← getC;
        mret (VerdictAccept, negb (PID c =? UndefinedProcessID))
    end
  else mret (VerdictUndecided, false).
Definition fastTrackedPermit (pkt : Packet) : H (Verdict * bool) :=
  let i := info pkt in
  if FastTrackedByIntegration pkt then mret (VerdictAccept, true)
  else if IPEqual (Dst i) blockedIPv4 || IPEqual (Dst i) blockedIPv6 then mret (VerdictBlock, true)
  else if (SrcPort i =? DstPort i) && IPEqual (Src i) (Dst i) then mret (VerdictAccept, true)
  else if isICMP (PktProtocol i) then
    if negb (LoadPacketData pkt) then mret (VerdictAccept, true) else
    submitted ← SubmitPacketToICMPListener pkt;
    if submitted : bool then mret (VerdictAccept, false)
    else if isEcho pkt then mret (VerdictUndecided, false)
    else mret (VerdictAccept, true)
  else if (PktProtocol i =? UDP) || (PktProtocol i =? TCP) then permitByPort pkt
  else if (PktProtocol i =? SystemIntegrationCheckProtocol) && IPEqual (Dst i) SystemIntegrationCheckDstIP
  then emit (SystemCheckPacket pkt) ;; mret (VerdictDrop, false)
  else mret (VerdictUndecided, false).
Definition fastTrackHandler (pkt : Packet) : H unit :=
  HSaveWhenFinished ;;
  '(v, permanent) ← fastTrackedPermit pkt;
  if bool_decide (v = VerdictUndecided) then UpdateFirewallHandler GatherDataHandler ;; gatherDataHandler pkt
  else
    modConn (SetVerdictDirectly v) ;;
    (if InfoOnly pkt then mret tt else issueVerdict pkt v permanent) ;;
    if permanent : bool then HSetVerdict g v $"fast-tracked" ;; StopFirewallHandler else mret tt.

(** ** Dispatch *)
Definition defaultFirewallHandler (pkt : Packet) : H unit :=
  c ← getC;
  if isICMP (IPProtocol (core c)) then icmpFilterHandler g pkt else verdictHandler pkt.
Definition runHandler (h : FirewallHandler) : Packet -> H unit :=
  match h with
  | FastTrackHandler => fastTrackHandler
  | GatherDataHandler => gatherDataHandler
  | FilterHandler => filterHandler
  | InspectAndVerdictHandler => inspectAndVerdictHandler g
  | InspectDNSPacket => inspectDNSPacket g
  | ICMPFilterHandler => icmpFilterHandler g
  end.
(** Without a handler the default one runs, and changes are not pushed. *)
Definition packetHandlerHandleConn (pkt : Packet) : H unit :=
  c ← getC;
  match firewallHandler c with
  | None => defaultFirewallHandler pkt
  | Some h =>
      runHandler h pkt ;;
      c ← getC;
      if saveWhenFinished (core c) then modConn (fun k => k <| saveWhenFinished := false |>) ;; Save else mret tt
  end.

(** ** Queues *)
Definition queueCap : nat := 100.
(** A closed channel would panic; the lock and the flag prevent it. *)
Definition HandlePacket (pkt : Packet) : H unit :=
  s ← getS;
  modC (fun c => c <| lastSeen := now s |>) ;;
  c ← getC;
  if pktQueueActive c then
    if queueClosed c then hpanic
    else if (length (pktQueue c) <? queueCap)%nat then modC (fun c => c <| pktQueue ::= fun q => q ++ [pkt] |>)
    else emit (OnPacket pkt PktDrop)
  else defaultFirewallHandler pkt.
(** Runs [m] on a connection object with its lock held. *)
Definition withConn {A} (ref : nat) (m : H A) (s : Sys) : outcome str (A * Sys) :=
  match heap s !! ref with
  | None => Panic
  | Some c => match m c s with
              | Ret (a, c, s) => Ret (a, s <| heap ::= <[ref := c]> |>)
              | Err e => Err e | Panic => Panic
              end
  end.
Definition handlePacket (pkt : Packet) (s : Sys) : outcome str Sys :=
  match conns s !! GetConnectionID pkt with
  | Some ref => '(_, s) ← withConn ref (HandlePacket pkt) s; Ret s
  | None =>
      let '(c, s) := NewIncompleteConnection pkt s in
      '(_, s) ← withConn (connRef c) (SetFirewallHandler FastTrackHandler ;; HandlePacket pkt) s; Ret s
  end.

(** The first packet is held back when an informational one may follow it. *)
Definition holdsBack (active : bool) (pkt : Packet) : bool :=
  negb (InfoOnly pkt) && (ExpectInfo pkt || (active && IsOutbound pkt)).
(** One step of the worker: it takes a packet from the queue and handles it, or holds
    the first one back; then it handles the next packet of the queue, whichever it is,
    before the one that is held, or after a millisecond goes on without. *)
Inductive WorkerChoice := Take | PullForward | TimeOut.
Definition takePacket (first : bool) (pkt : Packet) : H unit :=
  (if first && InfoOnly pkt then modS (fun s => s <| infoOnlyPacketsActive := true |>) else mret tt) ;;
  s ← getS;
  if first && holdsBack (infoOnlyPacketsActive s) pkt then modC (fun c => c <| worker := Holding pkt |>)
  else modC (fun c => c <| worker := Reading false |>) ;; packetHandlerHandleConn pkt.
Definition workerStep (ch : WorkerChoice) : H unit :=
  c ← getC;
  match worker c, ch with
  | Starting, Take => modC (fun c => c <| worker := if pktQueueSet c then Reading true else Stuck |>)
  | Reading first, Take =>
      match pktQueue c with
      | [] => if queueClosed c then modC (fun c => c <| worker := Finished |>) else mret tt
      | pkt :: q => modC (fun c => c <| pktQueue := q |>) ;; takePacket first pkt
      end
  | Holding pkt, PullForward =>
      match pktQueue c with
      | [] => mret tt
      | pkt' :: q => modC (fun c => c <| pktQueue := q |> <| worker := Next pkt |>) ;; packetHandlerHandleConn pkt'
      end
  | Holding pkt, TimeOut | Next pkt, Take =>
      modC (fun c => c <| worker := Reading false |>) ;; packetHandlerHandleConn pkt
  | _, _ => mret tt
  end.

(** ** Re-evaluation *)
(** Whether the verdict changed.  Removing the prompt is left out. *)
Definition resetConnectionVerdict : H bool :=
  c ← getC;
  if 0 <? Ended (core c) then mret false else
  UpdateFeatures g ;;
  c ← getC;
  if Internal (core c) then mret false else
  let previous := verdict (core c) in
  FilterConnection g true true ;;
  c ← getC;
  (if negb (bool_decide (verdict (core c) = VerdictRerouteToTunnel)) && hasTunnel c then emit (StopTunnel (connRef c))
   else mret tt) ;;
  if bool_decide (verdict (core c) = previous) then mret false else
  emit (UpdateVerdict (connRef c) (verdict (core c))) ;;
  Save ;;
  (if bool_decide (Type_ (core c) = IPConnection) then emit (UpdateVerdict (connRef c) (verdict (core c))) else mret tt) ;;
  mret true.
(** Resets the objects one after the other, and counts the changes. *)
Fixpoint resetEach (sel : Conn -> bool) (refs : list nat) (s : Sys) : outcome str (nat * Sys) :=
  match refs with
  | [] => Ret (0%nat, s)
  | ref :: refs =>
      '(b, s) ← withConn ref (c ← getC; if sel c then resetConnectionVerdict else mret false) s;
      '(n, s) ← resetEach sel refs s;
      Ret (if b : bool then S n else n, s)
  end.
Definition resetAllConnectionVerdicts (s : Sys) : outcome str (nat * Sys) :=
  resetEach DataIsComplete (tableRefs (conns s)) s.
Definition resetProfileConnectionVerdict (profileSource profileID : str) (s : Sys) : outcome str (nat * Sys) :=
  resetEach (fun c => DataIsComplete c && eqs (PCProfile (ProcCtx c)) profileID && eqs (PCSource (ProcCtx c)) profileSource)
    (tableRefs (conns s)) s.
Definition resetSingleConnectionVerdict (connID : str) (s : Sys) : outcome str Sys :=
  match (match conns s !! connID with Some r => Some r | None => dnsConns s !! connID end) with
  | None => Ret s
  | Some ref => '(_, s) ← withConn ref resetConnectionVerdict s; Ret s
  end.

(** ** Re-attribution (network/module.go) *)
Definition reAttributeConnection (profileID profileSource : str) : H bool :=
  c ← getC;
  if negb (DataIsComplete c) || negb (eqs (PCProfile (ProcCtx c)) profileID) || negb (eqs (PCSource (ProcCtx c)) profileSource)
  then mret false else
  p ← processH;
  match refetchProfile p with
  | None => mret false
  | Some (id, lp) =>
      let p := p <| PrimaryProfileID := id |> <| profile := Some lp |> in
      modConn (fun k => k <| process := Some p |>) ;;
      modC (fun c => c <| ProcCtx := getProcessContext p |>) ;;
      Save ;;
      emit (Reattributed (ConnID c)) ;;
      mret true
  end.

(** ** Bandwidth *)
(** [netQuery]: the query module runs.  [free]: the connection is not locked by
    someone else. *)
Definition updateBandwidth (netQuery free : bool) (bu : BandwidthUpdate) (s : Sys) : outcome str Sys :=
  if (BWReceived bu =? 0) && (BWSent bu =? 0) then Ret s else
  match conns s !! BWConnID bu with
  | None => Ret s
  | Some ref =>
      if negb free then Ret s else
      let store bytesIn bytesOut : H unit :=
        c ← getC;
        if netQuery && BandwidthEnabled c then
          processH ;;
          emit (StoreBandwidth (HistoryEnabled c) (PCSource (ProcCtx c) ++ $"/" ++ PCProfile (ProcCtx c)) (ConnID c) bytesIn bytesOut)
        else mret tt in
      '(_, s) ← withConn ref (
        c ← getC;
        match Method bu with
        | Absolute =>
            modC (fun c => c <| BytesReceived := BWReceived bu |> <| BytesSent := BWSent bu |>) ;;
            store (u64 (BWReceived bu - BytesReceived c)) (u64 (BWSent bu - BytesSent c))
        | Additive =>
            modC (fun c => c <| BytesReceived ::= fun n => u64 (n + BWReceived bu) |>
                             <| BytesSent ::= fun n => u64 (n + BWSent bu) |>) ;;
            store (BWReceived bu) (BWSent bu)
        | OtherMethod => mret tt
        end) s;
      Ret s
  end.

(** ** Cleaning (clean.go) *)
Definition EndConnsAfterInactiveFor : Z := 300.
Definition EndICMPConnsAfterInactiveFor : Z := 60.
Definition DeleteConnsAfterEndedThreshold : Z := 600.
Definition DeleteIncompleteConnsAfterStartedThreshold : Z := 60.
(** [now]: the time of the run. *)
Definition connActive (now : Z) (c : Conn) : bool :=
  let p := IPProtocol (core c) in
  if (p =? TCP) || (p =? UDP) then stateExists c
  else if isICMP p then now - EndICMPConnsAfterInactiveFor <? lastSeen c
  else now - EndConnsAfterInactiveFor <? lastSeen c.
Definition cleanConnection (now : Z) : H (option Z) :=
  c ← getC;
  if now - 2 <=? Started c then mret None
  else if negb (DataIsComplete c) then
    (if Started c <? now - DeleteIncompleteConnsAfterStartedThreshold then StopFirewallHandler ;; delete_ else mret tt) ;;
    mret None
  else if Ended (core c) =? 0 then
    let seen := ((IPProtocol (core c) =? TCP) || (IPProtocol (core c) =? UDP)) && VerdictPermanent c in
    (if connActive now c then
       if seen then modC (fun c => c <| lastSeen := now |>) else mret tt
     else
       modConn (fun k => k <| Ended := now |>) ;; StopFirewallHandler ;; Save) ;;
    mret (Pid <$> process (core c))
  else if Ended (core c) <? now - DeleteConnsAfterEndedThreshold then delete_ ;; mret None
  else mret None.
Definition cleanDNSConn (now : Z) : H (option Z) :=
  c ← getC;
  (if Ended (core c) <? now - DeleteConnsAfterEndedThreshold then delete_ else mret tt) ;; mret None.
(** Runs [m] on the objects and collects the PIDs. *)
Fixpoint cleanEach (m : H (option Z)) (refs : list nat) (s : Sys) : outcome str (gset Z * Sys) :=
  match refs with
  | [] => Ret (∅, s)
  | ref :: refs =>
      '(p, s) ← withConn ref m s;
      '(ps, s) ← cleanEach m refs s;
      Ret (match p with Some p => {[p]} ∪ ps | None => ps end, s)
  end.
Definition cleanConnections (s : Sys) : outcome str (gset Z * Sys) :=
  let t := now s in
  '(pids, s) ← cleanEach (cleanConnection t) (tableRefs (conns s)) s;
  '(_, s) ← cleanEach (cleanDNSConn t) (tableRefs (dnsConns s)) s;
  Ret (pids, cleanDNSRequestConnections s).

(** ** Unused ports (ports.go) *)
(** [rns]: the random numbers of the tries, [None] for an error; a thousand are used. *)
Definition portTaken (protocol port : Z) (k : Connection) : bool :=
  dataComplete k && match entity k with Some e => Protocol e =? protocol | None => false end &&
  (LocalPort k <=? port) && (u16 (port - 10) <=? LocalPort k).
Fixpoint tryPorts (ks : list Connection) (protocol : Z) (rns : list (option Z)) : option Z :=
  match rns with
  | [] | None :: _ => None
  | Some rN :: rns =>
      let port := u16 (rN + 10000) in
      if existsb (portTaken protocol port) ks then tryPorts ks protocol rns else Some port
  end.
Definition GetUnusedLocalPort (protocol : Z) (rns : list (option Z)) (s : Sys) : option Z :=
  tryPorts (core <$> list_ (conns s) s) protocol (take 1000 rns).
End dispatch.
