(* ===== verification/PacketFacts.v ===== *)
(** * Reasoning about packet handlers

    [hkeeps R m]: whenever the handler code [m] returns, the connection and the system
    before and after are related by [R].  Code that gives no packet a verdict is
    [quiet]; a handler [issues] at most one verdict, to the packet it handles. *)

From S2P Require Import Prelude GoStrings GoText GoNet NetUtils Reference Entity GoNum NavMap NavRoutes Endpoints Profile.
From S2P Require Import Connection Firewall DecisionFrame Packets Conns Gather Tunnel Handlers Dispatch.

Create HintDb hk.

(** ** Relations over the monad *)
Abbreviation State := (Conn * Sys)%type.
Definition hkeeps {A} (R : State -> State -> Prop) (m : H A) : Prop :=
  forall c s a c' s', m c s = Ret (a, c', s') -> R (c, s) (c', s').

Section hkeeps.
Context (R : State -> State -> Prop) `{!PreOrder R}.
Lemma hkeeps_ret {A} (a : A) : hkeeps R (mret a).
Proof. intros c s a' c' s' H. injection H as <- <- <-. reflexivity. Qed.
Lemma hkeeps_bind {A B} (m : H A) (f : A -> H B) : hkeeps R m -> (forall a, hkeeps R (f a)) -> hkeeps R (m ≫= f).
Proof.
  intros Hm Hf c s b c' s'. unfold mbind, H_bind. destruct (m c s) as [[[a c1] s1]| |] eqn:E; [|done|done].
  intros H. etrans; [by eapply Hm|by eapply Hf].
Qed.
Lemma hkeeps_getC : hkeeps R getC.
Proof. intros c s a c' s' H. injection H as <- <- <-. reflexivity. Qed.
Lemma hkeeps_getS : hkeeps R getS.
Proof. intros c s a c' s' H. injection H as <- <- <-. reflexivity. Qed.
Lemma hkeeps_panic {A} : hkeeps R (hpanic (A := A)).
Proof. done. Qed.
Lemma hkeeps_deref {A} (o : option A) : hkeeps R (hderef o).
Proof. destruct o; [apply hkeeps_ret|apply hkeeps_panic]. Qed.
Lemma hkeeps_modC f : (forall c s, R (c, s) (f c, s)) -> hkeeps R (modC f).
Proof. intros Hf c s a c' s' H. injection H as _ <- <-. apply Hf. Qed.
Lemma hkeeps_modS f : (forall c s, R (c, s) (c, f s)) -> hkeeps R (modS f).
Proof. intros Hf c s a c' s' H. injection H as _ <- <-. apply Hf. Qed.
Lemma hkeeps_entityH : hkeeps R entityH.
Proof. apply hkeeps_bind; [apply hkeeps_getC|intros c; apply hkeeps_deref]. Qed.
Lemma hkeeps_processH : hkeeps R processH.
Proof. apply hkeeps_bind; [apply hkeeps_getC|intros c; apply hkeeps_deref]. Qed.
Lemma hkeeps_onConn {A} (m : M A) :
  (forall c s a k, m (core c) = Ret (a, k) -> R (c, s) (c <| core := k |>, s)) -> hkeeps R (onConn m).
Proof.
  intros Hm c s a c' s'. unfold onConn. destruct (m (core c)) as [[x k]| |] eqn:E; [|done|done].
  intros H. injection H as <- <- <-. by eapply Hm.
Qed.
End hkeeps.

(** Goes through the code primitive by primitive; [hk] has the lemmas of the parts. *)
Ltac hkeep :=
  repeat first
  [ solve [auto 2 with hk]
  | apply hkeeps_bind; [exact _| |intros ?]
  | apply hkeeps_ret; exact _
  | apply hkeeps_getC; exact _ | apply hkeeps_getS; exact _ | apply hkeeps_entityH; exact _ | apply hkeeps_processH; exact _
  | apply hkeeps_deref; exact _ | apply hkeeps_panic
  | match goal with |- hkeeps _ (match ?x with _ => _ end) => destruct x eqn:? end ].

(** ** Verdicts given to packets *)
Definition pktEvent (e : Event) : option (Packet * PktAction) := match e with OnPacket p a => Some (p, a) | _ => None end.
Definition pktEvents (l : list Event) : list (Packet * PktAction) := omap pktEvent l.
Lemma pktEvents_app l1 l2 : pktEvents (l1 ++ l2) = pktEvents l1 ++ pktEvents l2.
Proof. apply omap_app. Qed.
(** The system went on by events that satisfy [P]. *)
Definition emits (P : list Event -> Prop) (s s' : Sys) : Prop := exists l, events s' = events s ++ l /\ P l.
Definition quiet : State -> State -> Prop := fun x y => emits (fun l => pktEvents l = []) x.2 y.2.
Lemma quiet_same c s c' s' : events s' = events s -> quiet (c, s) (c', s').
Proof. intros H. exists []. by rewrite app_nil_r. Qed.
#[export] Instance quiet_preorder : PreOrder quiet.
Proof.
  split; [intros [c s]; by apply quiet_same|].
  intros [c1 s1] [c2 s2] [c3 s3] (l1 & E1 & H1) (l2 & E2 & H2). exists (l1 ++ l2). simpl in *.
  rewrite E2, E1, app_assoc. split; [done|]. unfold pktEvents in *. by rewrite omap_app, H1, H2.
Qed.
Lemma quiet_modC f : hkeeps quiet (modC f).
Proof. apply hkeeps_modC. intros c s. by apply quiet_same. Qed.
Lemma quiet_modConn f : hkeeps quiet (modConn f).
Proof. apply quiet_modC. Qed.
Lemma quiet_modS f : (forall s, events (f s) = events s) -> hkeeps quiet (modS f).
Proof. intros Hf. apply hkeeps_modS. intros c s. by apply quiet_same. Qed.
Lemma quiet_emit e : pktEvent e = None -> hkeeps quiet (emit e).
Proof. intros He. apply hkeeps_modS. intros c s. exists [e]. split; [done|]. unfold pktEvents. simpl. by rewrite He. Qed.
Lemma quiet_onConn {A} (m : M A) : hkeeps quiet (onConn m).
Proof. apply hkeeps_onConn. intros c s a k _. by apply quiet_same. Qed.
#[export] Hint Resolve quiet_modC quiet_modConn quiet_onConn : hk.
#[export] Hint Extern 2 (hkeeps quiet (modS _)) => apply quiet_modS; intros; reflexivity : hk.
#[export] Hint Extern 2 (hkeeps quiet (emit _)) => apply quiet_emit; reflexivity : hk.

Section quiet.
Context {IE : IntelEnv} {UT : UnicodeTables} {FE : FirewallEnv} {PE : PacketEnv} (g : Cfg).
Lemma quiet_addToMetrics : hkeeps quiet addToMetrics.
Proof. unfold addToMetrics. hkeep. Qed.
#[local] Hint Resolve quiet_addToMetrics : hk.
Lemma quiet_Save : hkeeps quiet Save.
Proof.
  unfold Save. hkeep. apply quiet_modS. intros s. unfold ownTable. by case_bool_decide.
Qed.
Lemma quiet_SetFirewallHandler h : hkeeps quiet (SetFirewallHandler h).
Proof. unfold SetFirewallHandler. hkeep. Qed.
Lemma quiet_UpdateFeatures : hkeeps quiet (UpdateFeatures g).
Proof. unfold UpdateFeatures. hkeep. Qed.
Lemma quiet_SaveDNSRequestConnection pkt : hkeeps quiet (SaveDNSRequestConnection pkt).
Proof. unfold SaveDNSRequestConnection. hkeep. Qed.
#[local] Hint Resolve quiet_Save quiet_SetFirewallHandler quiet_UpdateFeatures quiet_SaveDNSRequestConnection : hk.
Lemma quiet_setDomain d : hkeeps quiet (setDomain d).
Proof. unfold setDomain. hkeep. Qed.
#[local] Hint Resolve quiet_setDomain : hk.
Lemma quiet_GatherConnectionInfo pkt : hkeeps quiet (GatherConnectionInfo g pkt).
Proof.
  unfold GatherConnectionInfo, setEndpoints, gatherProcess, gatherDomain, HSaveWhenFinished. hkeep.
Qed.
Lemma quiet_checkTunneling : hkeeps quiet (checkTunneling g).
Proof. unfold checkTunneling, HFailed, HSaveWhenFinished. hkeep. Qed.
Lemma AwaitRequest_events c s : events (AwaitRequest c s).2 = events s.
Proof.
  unfold AwaitRequest. case_bool_decide; [done|]. destruct (sluices s !! _); [|done]. by case_bool_decide.
Qed.
Lemma quiet_requestTunneling : hkeeps quiet (requestTunneling g).
Proof.
  unfold requestTunneling. apply hkeeps_bind; [exact _|hkeep|]. intros p. destruct (profile p) as [lp|]; [|hkeep].
  apply hkeeps_bind; [exact _|hkeep|]. intros c. apply hkeeps_bind; [exact _|hkeep|]. intros e.
  destruct (DeriveTunnelOptions _ _ _ _ _) as [opts lp'].
  apply hkeeps_bind; [exact _|hkeep|]. intros _. apply hkeeps_bind; [exact _|hkeep|]. intros _.
  intros c1 s1 a c' s'. unfold mbind, H_bind, getC, getS. pose proof (AwaitRequest_events c1 s1) as He.
  destruct (AwaitRequest c1 s1) as [err s2]. intros H. injection H as _ <- <-. by apply quiet_same.
Qed.
Lemma quiet_decide : hkeeps quiet (decide_ g).
Proof. intros c s a c' s'. apply quiet_onConn. Qed.
#[local] Hint Resolve quiet_checkTunneling quiet_requestTunneling quiet_decide : hk.
Lemma quiet_FilterConnection b1 b2 : hkeeps quiet (FilterConnection g b1 b2).
Proof. unfold FilterConnection, HFailed. hkeep. Qed.
Lemma quiet_Submit pkt : hkeeps quiet (SubmitPacketToICMPListener pkt).
Proof. unfold SubmitPacketToICMPListener. hkeep. Qed.
Lemma quiet_runInspectors pkt ins skips v goOn : hkeeps quiet (runInspectors g pkt ins skips v goOn).
Proof.
  revert ins v goOn. induction skips as [|skip skips IH]; intros ins v goOn; cbn [runInspectors]; unfold HSetVerdict; hkeep.
Qed.
#[local] Hint Resolve quiet_FilterConnection quiet_Submit quiet_runInspectors : hk.
Lemma quiet_RunInspectors pkt : hkeeps quiet (RunInspectors g pkt).
Proof. unfold RunInspectors. hkeep. Qed.
Lemma quiet_observeDNS m : hkeeps quiet (observeDNS m).
Proof. unfold observeDNS, UpdateIPsAndCNAMEs. hkeep. Qed.
Lemma quiet_preAuthenticated : hkeeps quiet preAuthenticated.
Proof. unfold preAuthenticated. hkeep. Qed.
Lemma quiet_rogueDNS pkt : hkeeps quiet (rogueDNS pkt).
Proof. unfold rogueDNS. hkeep. Qed.
Lemma quiet_fastTrackedPermit pkt : hkeeps quiet (fastTrackedPermit pkt).
Proof. unfold fastTrackedPermit, permitByPort. hkeep. Qed.
End quiet.
#[export] Hint Resolve quiet_Save quiet_UpdateFeatures quiet_GatherConnectionInfo quiet_FilterConnection quiet_Submit
  quiet_RunInspectors quiet_observeDNS quiet_preAuthenticated quiet_rogueDNS quiet_fastTrackedPermit
  quiet_SaveDNSRequestConnection quiet_SetFirewallHandler : hk.

(** ** Issuing verdicts *)

(** What a verdict does to a packet. *)
Definition actionOf (v : Verdict) (permanent : bool) : PktAction :=
  match v with
  | VerdictAccept => if permanent then PktPermanentAccept else PktAccept
  | VerdictBlock => if permanent then PktPermanentBlock else PktBlock
  | VerdictDrop => if permanent then PktPermanentDrop else PktDrop
  | VerdictRerouteToNameserver => PktRerouteToNameserver
  | VerdictRerouteToTunnel => PktRerouteToTunnel
  | VerdictFailed | VerdictUndecided | VerdictUndeterminable => PktDrop
  end.
Definition letsThrough (a : PktAction) : bool := bool_decide (a = PktAccept) || bool_decide (a = PktPermanentAccept).
(** The action is that of the connection's verdict, or of a stronger one. *)
Definition byVerdict (c : Conn) (a : PktAction) : Prop :=
  exists v, a = actionOf (maxVerdict v (verdict (core c))) (VerdictPermanent c).
(** Packets that get no verdict: informational ones, those the system integration took
    care of, and those of connections whose data is not complete. *)
Definition silent (pkt : Packet) (c : Conn) : Prop :=
  InfoOnly pkt = true \/ FastTrackedByIntegration pkt = true \/ DataIsComplete c = false.
(** Exactly one verdict is given, to [pkt], and it satisfies [P] with the connection as
    it is afterwards; or none to a packet that gets none. *)
Definition issued (pkt : Packet) (P : Conn -> PktAction -> Prop) : State -> State -> Prop := fun x y =>
  emits (fun l => (pktEvents l = [] /\ silent pkt y.1) \/ exists a, pktEvents l = [(pkt, a)] /\ P y.1 a) x.2 y.2.
(** What the verdict depends on does not change. *)
Definition verdictPart (c : Conn) := (verdict (core c), VerdictPermanent c, Inspecting (core c), dataComplete (core c)).
Definition sameVerdict : State -> State -> Prop := fun x y => verdictPart y.1 = verdictPart x.1.
#[export] Instance sameVerdict_preorder : PreOrder sameVerdict.
Proof. split; [done|]. intros x y z H1 H2. unfold sameVerdict in *. congruence. Qed.

Section issued.
Context (pkt : Packet) (P : Conn -> PktAction -> Prop).
Lemma issued_quiet x y : silent pkt y.1 -> quiet x y -> issued pkt P x y.
Proof. intros Hs (l & E & H). exists l. auto. Qed.
Lemma issued_ret {A} (a : A) : (forall c, silent pkt c) -> hkeeps (issued pkt P) (mret a).
Proof. intros Hs c s a' c' s' H. injection H as _ <- <-. by apply issued_quiet. Qed.
Lemma issued_getC {B} (f : Conn -> H B) :
  (forall c s b c' s', f c c s = Ret (b, c', s') -> issued pkt P (c, s) (c', s')) -> hkeeps (issued pkt P) (getC ≫= f).
Proof. intros Hf c s b c' s'. apply Hf. Qed.
Lemma issued_before {A B} (m : H A) (f : A -> H B) :
  hkeeps quiet m -> (forall a, hkeeps (issued pkt P) (f a)) -> hkeeps (issued pkt P) (m ≫= f).
Proof.
  intros Hm Hf c s b c' s'. unfold mbind, H_bind. destruct (m c s) as [[[a c1] s1]| |] eqn:E; [|done|done].
  intros H. apply Hm in E as (l1 & E1 & H1). apply Hf in H as (l2 & E2 & H2). exists (l1 ++ l2). simpl in *.
  rewrite E2, E1, app_assoc. split; [done|]. unfold pktEvents in *. by rewrite omap_app, H1.
Qed.
Lemma issued_after {A B} (m : H A) (f : A -> H B) :
  hkeeps (issued pkt P) m ->
  (forall a, hkeeps (fun x y => quiet x y /\ (silent pkt x.1 -> silent pkt y.1) /\ forall p, P x.1 p -> P y.1 p) (f a)) ->
  hkeeps (issued pkt P) (m ≫= f).
Proof.
  intros Hm Hf c s b c' s'. unfold mbind, H_bind. destruct (m c s) as [[[a c1] s1]| |] eqn:E; [|done|done].
  intros H. apply Hm in E as (l1 & E1 & H1). apply Hf in H as ((l2 & E2 & H2) & HS & HP). exists (l1 ++ l2). simpl in *.
  rewrite E2, E1, app_assoc. split; [done|]. unfold pktEvents in *. rewrite omap_app, H2, app_nil_r.
  destruct H1 as [[H1 Hs]|(p & H1 & H3)]; [left; auto|]. right. eauto.
Qed.
Lemma issued_emit a : (forall c, P c a) -> hkeeps (issued pkt P) (emit (OnPacket pkt a)).
Proof.
  intros HP c s x c' s' H. injection H as _ <- <-. exists [OnPacket pkt a]. split; [done|]. right. by exists a.
Qed.
End issued.

Lemma sameV_modC f : (forall c, verdictPart (f c) = verdictPart c) -> hkeeps sameVerdict (modC f).
Proof. intros Hf. apply hkeeps_modC. intros c s. apply Hf. Qed.
Lemma sameV_modS f : hkeeps sameVerdict (modS f).
Proof. by apply hkeeps_modS. Qed.
Lemma sameV_emit e : hkeeps sameVerdict (emit e).
Proof. apply sameV_modS. Qed.
#[export] Hint Resolve sameV_modS sameV_emit : hk.
#[export] Hint Extern 2 (hkeeps sameVerdict (modC _)) => apply sameV_modC; intros; reflexivity : hk.
#[export] Hint Extern 2 (hkeeps sameVerdict (modConn _)) => apply sameV_modC; intros; reflexivity : hk.
Lemma sameV_UpdateFirewallHandler h : hkeeps sameVerdict (UpdateFirewallHandler h).
Proof. apply sameV_modC; intros c; by destruct (firewallHandler c). Qed.
Lemma sameV_StopFirewallHandler : hkeeps sameVerdict StopFirewallHandler.
Proof. apply sameV_modC; intros c; simpl; by destruct (pktQueueActive c). Qed.
Lemma quiet_UpdateFirewallHandler h : hkeeps quiet (UpdateFirewallHandler h).
Proof. apply quiet_modC. Qed.
Lemma quiet_StopFirewallHandler : hkeeps quiet StopFirewallHandler.
Proof. apply quiet_modC. Qed.
Lemma sameV_addToMetrics : hkeeps sameVerdict addToMetrics.
Proof. unfold addToMetrics. hkeep. Qed.
#[export] Hint Resolve sameV_UpdateFirewallHandler sameV_StopFirewallHandler quiet_UpdateFirewallHandler
  quiet_StopFirewallHandler sameV_addToMetrics : hk.
Lemma sameV_Save : hkeeps sameVerdict Save.
Proof. unfold Save. hkeep. Qed.
#[export] Hint Resolve sameV_Save : hk.

Section enforced.
Context {IE : IntelEnv} {UT : UnicodeTables} {FE : FirewallEnv} {PE : PacketEnv} (g : Cfg).
Context (pkt : Packet).

Lemma issueVerdict_by v b : hkeeps (issued pkt byVerdict) (issueVerdict pkt v b).
Proof.
  unfold issueVerdict. destruct (FastTrackedByIntegration pkt) eqn:Ef; [apply issued_ret; intros c; by right; left|].
  apply issued_before; [hkeep|]. intros c0. apply issued_before; [unfold HSaveWhenFinished; hkeep|]. intros _.
  intros c s a c' s'. unfold mbind, H_bind, getC. cbv beta iota.
  assert (forall x, x = actionOf (maxVerdict v (verdict (core c))) (VerdictPermanent c) ->
    issued pkt byVerdict (c, s) (c, s <| events ::= fun l => l ++ [OnPacket pkt x] |>)) as Hx.
  { intros x ->. exists [OnPacket pkt (actionOf (maxVerdict v (verdict (core c))) (VerdictPermanent c))].
    split; [done|]. right. eexists. split; [reflexivity|]. by exists v. }
  unfold permanentOr, actionOf in *.
  destruct (maxVerdict v (verdict (core c))); unfold count, emit, modS, mbind, H_bind; intros H; injection H as _ <- <-;
    match goal with |- issued _ _ _ (_, ?s1) => destruct (Hx _ eq_refl) as (l & E & Hl); exists l; split; [exact E|exact Hl] end.
Qed.
Lemma verdictHandler_by : hkeeps (issued pkt byVerdict) (verdictHandler pkt).
Proof.
  unfold verdictHandler. destruct (InfoOnly pkt) eqn:Ei; [apply issued_ret; intros c; by left|apply issueVerdict_by].
Qed.
Lemma icmpFilterHandler_by : hkeeps (issued pkt byVerdict) (icmpFilterHandler g pkt).
Proof.
  unfold icmpFilterHandler. destruct (negb (LoadPacketData pkt)); [apply issueVerdict_by|].
  apply issued_before; [hkeep|]. intros []; [apply issueVerdict_by|]. destruct (_ && _); [apply issueVerdict_by|].
  unfold HSaveWhenFinished. repeat (apply issued_before; [hkeep|]; intros ?). apply issueVerdict_by.
Qed.
Lemma inspectAndVerdictHandler_by : hkeeps (issued pkt byVerdict) (inspectAndVerdictHandler g pkt).
Proof.
  unfold inspectAndVerdictHandler. destruct (InfoOnly pkt) eqn:Ei; [apply issued_ret; intros c; by left|].
  apply issued_before; [hkeep|]. intros [v []]; [apply issueVerdict_by|].
  apply issued_before; [hkeep|]. intros _. apply issueVerdict_by.
Qed.

(** The DNS inspection gives verdicts of its own: it accepts what can be parsed. *)
Definition observed (a : PktAction) : Prop := letsThrough a = true -> Unpack (Payload pkt) <> None.
(** [was]: the connection is inspected already. *)
Definition enforced (was : Prop) (c : Conn) (a : PktAction) : Prop :=
  byVerdict c a \/ ((was \/ Inspecting (core c) = true) /\ observed a).
Lemma enforced_same was x y p : sameVerdict x y -> enforced was x.1 p -> enforced was y.1 p.
Proof. unfold sameVerdict, verdictPart, enforced, byVerdict. intros [= -> -> -> _]. done. Qed.
Lemma issued_mono {A} (P Q : Conn -> PktAction -> Prop) (m : H A) :
  (forall c a, P c a -> Q c a) -> hkeeps (issued pkt P) m -> hkeeps (issued pkt Q) m.
Proof.
  intros HPQ Hm c s a c' s' H. destruct (Hm _ _ _ _ _ H) as (l & E & Hl). exists l. split; [done|].
  destruct Hl as [[Hl Hs]|(x & Hl & HP)]; [left; auto|]. right. exists x. auto.
Qed.
Lemma by_enforced {A} was (m : H A) : hkeeps (issued pkt byVerdict) m -> hkeeps (issued pkt (enforced was)) m.
Proof. apply issued_mono. by left. Qed.

Definition keptPart (c : Conn) := (Inspecting (core c), dataComplete (core c)).
Definition sameInspecting : State -> State -> Prop := fun x y => keptPart y.1 = keptPart x.1.
#[local] Instance sameInspecting_preorder : PreOrder sameInspecting.
Proof. split; [done|]. intros x y z H1 H2. unfold sameInspecting in *. congruence. Qed.
Lemma sameI_sameV {A} (m : H A) : hkeeps sameVerdict m -> hkeeps sameInspecting m.
Proof.
  intros Hm c s a c' s' H. apply Hm in H. unfold sameInspecting, keptPart in *. injection H as _ _ H1 H2. simpl.
  by rewrite H1, H2.
Qed.
Lemma sameV_observeDNS m : hkeeps sameVerdict (observeDNS m).
Proof. unfold observeDNS, UpdateIPsAndCNAMEs. hkeep. Qed.
Lemma silent_kept x y : sameInspecting x y -> silent pkt x.1 -> silent pkt y.1.
Proof. unfold sameInspecting, keptPart, silent, DataIsComplete. by intros [= _ ->]. Qed.
Lemma silent_same x y : sameVerdict x y -> silent pkt x.1 -> silent pkt y.1.
Proof. unfold sameVerdict, verdictPart, silent, DataIsComplete. by intros [= _ _ _ ->]. Qed.
Lemma inspectDNSPacket_observed : hkeeps (issued pkt (fun _ => observed)) (inspectDNSPacket g pkt).
Proof.
  unfold inspectDNSPacket. destruct (InfoOnly pkt) eqn:Ei; [apply issued_ret; intros c; by left|].
  destruct (negb (LoadPacketData pkt)); [by apply issued_emit|]. destruct (Unpack (Payload pkt)) as [m|] eqn:Eu.
  - apply issued_before; [hkeep|]. intros _. apply issued_emit. intros _ _. by rewrite Eu.
  - apply issued_after; [by apply issued_emit|]. intros _. intros c s a c' s' H. split.
    + revert H. unfold HSetVerdict. apply (hkeeps_bind quiet); [hkeep|]. intros _. hkeep.
    + split; [|done]. apply silent_kept. revert H. apply (hkeeps_bind sameInspecting); [by apply hkeeps_modC|].
      intros _. apply (hkeeps_bind sameInspecting); [by apply hkeeps_modC|]. intros _. apply sameI_sameV. hkeep.
Qed.
Lemma inspectDNSPacket_inspecting : hkeeps sameInspecting (inspectDNSPacket g pkt).
Proof.
  unfold inspectDNSPacket, HSetVerdict.
  repeat first [ apply sameI_sameV; solve [auto 2 with hk | apply sameV_observeDNS] | apply hkeeps_ret; exact _
    | apply hkeeps_bind; [exact _| |intros ?] | by apply hkeeps_modC
    | match goal with |- hkeeps _ (match ?x with _ => _ end) => destruct x end ].
Qed.
Lemma inspectDNSPacket_enforced (was : Prop) c s a c' s' : was \/ Inspecting (core c) = true ->
  inspectDNSPacket g pkt c s = Ret (a, c', s') -> issued pkt (enforced was) (c, s) (c', s').
Proof.
  intros Hw H. pose proof (inspectDNSPacket_inspecting _ _ _ _ _ H) as Hi. unfold sameInspecting, keptPart in Hi. simpl in Hi. injection Hi as Hi _.
  destruct (inspectDNSPacket_observed _ _ _ _ _ H) as (l & E & Hl). exists l. split; [done|].
  destruct Hl as [[Hl Hs]|(x & Hl & Ho)]; [by left|]. right. exists x. split; [done|]. right. by rewrite <- Hi in Hw.
Qed.

(** ** The handlers *)
Lemma bind_inv {A B} (m : H A) (f : A -> H B) c s b c' s' : (m ≫= f) c s = Ret (b, c', s') ->
  exists a c1 s1, m c s = Ret (a, c1, s1) /\ f a c1 s1 = Ret (b, c', s').
Proof. unfold mbind, H_bind. destruct (m c s) as [[[a c1] s1]| |]; [|done|done]. intros H. by exists a, c1, s1. Qed.
Lemma issued_done P c s : silent pkt c -> issued pkt P (c, s) (c, s).
Proof. intros Hs. by apply issued_quiet. Qed.
Lemma filterAndContinue_ok b : hkeeps (issued pkt (enforced False)) (filterAndContinue g b pkt).
Proof.
  unfold filterAndContinue. apply issued_before; [hkeep|]. intros _.
  intros c s a c' s' H. apply bind_inv in H as (c0 & c1 & s1 & H1 & H). injection H1 as <- <- <-.
  destruct (Inspecting (core c)) eqn:Ei.
  - apply bind_inv in H as (e & c1 & s1 & H1 & H).
    assert (c1 = c /\ s1 = s) as [-> ->].
    { unfold entityH, mbind, H_bind, getC in H1. destruct (entity (core c)); simpl in H1; [|done]. by injection H1. }
    destruct (looksLikeOutgoingDNSRequest (core c) e).
    + revert H. intros H. apply bind_inv in H as ([] & c1 & s1 & H2 & H).
      apply (inspectDNSPacket_enforced False) in H2; [|by right]. destruct H2 as (l & E & Hl).
      assert (sameVerdict (c1, s1) (c', s')) as Hv by (by apply sameV_UpdateFirewallHandler in H).
      injection H as _ _ <-. exists l. split; [done|]. destruct Hl as [[Hl Hs]|(x & Hl & Ho)].
      * left. split; [done|]. by apply (silent_same (c1, s1) (c', s1)).
      * right. exists x. split; [done|]. by apply (enforced_same False (c1, s1) (c', s1)).
    + revert H. apply issued_before; [hkeep|]. intros _. apply by_enforced, inspectAndVerdictHandler_by.
  - revert H. apply issued_before; [hkeep|]. intros _. apply by_enforced, verdictHandler_by.
Qed.
Lemma filterHandler_ok : hkeeps (issued pkt (enforced False)) (filterHandler g pkt).
Proof.
  unfold filterHandler, HSaveWhenFinished, HSetVerdict.
  apply issued_before; [hkeep|]; intros _. apply issued_getC. intros c s b c' s'.
  destruct (negb (DataIsComplete c) || InfoOnly pkt) eqn:E.
  { intros H. injection H as _ <- <-. apply issued_done.
    apply orb_true_iff in E as [E|E]; [by right; right; apply negb_true_iff|by left]. }
  match goal with |- ?m c s = _ -> _ => enough (hkeeps (issued pkt (enforced False)) m) as Hm by apply Hm end. clear c s b c' s' E.
  apply issued_before; [hkeep|]. intros [].
  - do 2 (apply issued_before; [hkeep|]; intros ?). apply filterAndContinue_ok.
  - apply issued_before; [hkeep|]. intros []; [|apply filterAndContinue_ok].
    repeat (apply issued_before; [hkeep|]; intros ?). apply by_enforced, issueVerdict_by.
Qed.
Lemma gatherDataHandler_ok : hkeeps (issued pkt (enforced False)) (gatherDataHandler g pkt).
Proof.
  unfold gatherDataHandler, HSaveWhenFinished. do 2 (apply issued_before; [hkeep|]; intros ?).
  apply issued_getC. intros c s b c' s'. destruct (negb _) eqn:E.
  { intros H. injection H as _ <- <-. apply issued_done. right; right. by apply negb_true_iff. }
  match goal with |- ?m c s = _ -> _ => enough (hkeeps (issued pkt (enforced False)) m) as Hm by apply Hm end.
  destruct (isICMP _); (apply issued_before; [hkeep|]; intros ?); [apply by_enforced, icmpFilterHandler_by|apply filterHandler_ok].
Qed.
Lemma issueVerdict_sets v b : hkeeps (fun x y => verdict (core y.1) = verdict (core x.1)) (issueVerdict pkt v b).
Proof.
  intros c s a c' s'. unfold issueVerdict, count, emit, HSaveWhenFinished, modConn, modC, modS, mbind, H_bind, getC, mret, H_ret.
  destruct (FastTrackedByIntegration pkt); [by intros [= _ <- <-]|]. intros H.
  repeat (case_match; simplify_eq/=); done.
Qed.
Lemma fastTrackHandler_ok : hkeeps (issued pkt (enforced False)) (fastTrackHandler g pkt).
Proof.
  unfold fastTrackHandler, HSaveWhenFinished.
  apply issued_before; [hkeep|]; intros _. apply issued_before; [hkeep|]; intros [v permanent].
  case_bool_decide; [apply issued_before; [hkeep|]; intros _; apply gatherDataHandler_ok|].
  intros c s a c' s' H1. apply bind_inv in H1 as ([] & c1 & s1 & H1 & H2). injection H1 as <- <-.
  apply bind_inv in H2 as ([] & c2 & s2 & H2 & H3).
  assert (issued pkt byVerdict (c, s) (c2, s2) /\ verdict (core c2) = v) as [(l & E & Hl) Hv].
  { destruct (InfoOnly pkt) eqn:Ei; [injection H2 as <- <-; split; [apply issued_quiet; [by left|by apply quiet_same]|done]|].
    split; [by apply issueVerdict_by in H2|]. by apply issueVerdict_sets in H2. }
  assert (verdictPart c' = verdictPart c2 /\ events s' = events s2) as [Hp He].
  { destruct permanent; [|by injection H3 as _ <- <-]. injection H3 as _ <- <-. unfold verdictPart.
    simpl. rewrite Hv. by destruct (pktQueueActive c2). }
  exists l. simpl. rewrite He. split; [exact E|].
  destruct Hl as [[Hl Hs]|(x & Hl & Hx)]; [left; split; [done|by apply (silent_same (c2, s2) (c', s'))]|]. right. exists x.
  split; [done|]. eapply (enforced_same False (c2, s2) (c', s')); [exact Hp|]. by left.
Qed.
Lemma defaultFirewallHandler_ok was : hkeeps (issued pkt (enforced was)) (defaultFirewallHandler g pkt).
Proof.
  unfold defaultFirewallHandler. apply issued_before; [hkeep|]. intros c.
  destruct (isICMP _); apply by_enforced; [apply icmpFilterHandler_by|apply verdictHandler_by].
Qed.
Lemma enforced_weaken {A} was (m : H A) : hkeeps (issued pkt (enforced False)) m -> hkeeps (issued pkt (enforced was)) m.
Proof. apply issued_mono. intros c a [Hb|[[[]|Hi] Ho]]; [by left|]. right. auto. Qed.
Lemma runHandler_ok h c s a c' s' : runHandler g h pkt c s = Ret (a, c', s') ->
  issued pkt (enforced (h = InspectDNSPacket)) (c, s) (c', s').
Proof.
  destruct h; cbn [runHandler]; intros H.
  - revert H. apply enforced_weaken, fastTrackHandler_ok.
  - revert H. apply enforced_weaken, gatherDataHandler_ok.
  - revert H. apply enforced_weaken, filterHandler_ok.
  - revert H. apply by_enforced, inspectAndVerdictHandler_by.
  - eapply inspectDNSPacket_enforced; [by left|exact H].
  - revert H. apply by_enforced, icmpFilterHandler_by.
Qed.
(** Saving the connection after its handler. *)
Lemma savePending_ok c s a c' s' :
  (c ← getC; if saveWhenFinished (core c) then modConn (fun k => k <| saveWhenFinished := false |>) ;; Save else mret tt) c s
    = Ret (a, c', s') -> quiet (c, s) (c', s') /\ sameVerdict (c, s) (c', s').
Proof.
  intros H. apply bind_inv in H as (c2 & c3 & s3 & H3 & H). injection H3 as -> -> ->.
  destruct (saveWhenFinished (core c3)); [|by injection H as _ <- <-; split].
  split; revert H; [apply (hkeeps_bind quiet)|apply (hkeeps_bind sameVerdict)]; first [exact _|hkeep|intros _; hkeep].
Qed.
Lemma packetHandlerHandleConn_ok c s a c' s' : packetHandlerHandleConn g pkt c s = Ret (a, c', s') ->
  issued pkt (enforced (firewallHandler c = Some InspectDNSPacket)) (c, s) (c', s').
Proof.
  intros H. apply bind_inv in H as (c0 & c1 & s1 & H1 & H). injection H1 as <- <- <-.
  destruct (firewallHandler c) as [h|]; [|revert H; apply defaultFirewallHandler_ok].
  apply bind_inv in H as ([] & c1 & s1 & H1 & H). apply runHandler_ok in H1.
  apply savePending_ok in H as [(l2 & E2 & H2) Hv].
  destruct H1 as (l & E & Hl). exists (l ++ l2). simpl in *. rewrite E2, E, app_assoc. split; [done|].
  unfold pktEvents in *. rewrite omap_app, H2, app_nil_r.
  destruct Hl as [[Hl Hs]|(x & Hl & Hx)]; [left; split; [done|by apply (silent_same (c1, s1) (c', s'))]|].
  right. exists x. split; [done|]. eapply (enforced_same _ (c1, s1) (c', s')); [done|].
  destruct Hx as [Hx|[[[= ->]|Hi] Ho]]; [by left|right; auto..].
Qed.
End enforced.
