(* ===== verification/TunnelFacts.v ===== *)
(** * What becomes of a filtered packet

    [hreturns m c s Q]: the handler code [m] returns, with a result and a state that
    satisfy [Q].  The check for tunneling comes to the verdict [tunnelVerdict] of the
    facts, and filtering a connection in use to its [fate]. *)

From S2P Require Import Prelude GoStrings GoText GoNet NetUtils Reference Entity EntityFacts GoNum NavMap NavRoutes Endpoints.
From S2P Require Import EndpointMatch Profile ProfileFacts Connection Firewall EntityView FirewallPolicy FirewallFacts.
From S2P Require Import DecisionFrame Packets Conns Gather Tunnel Handlers Dispatch PacketFacts.

Definition hreturns {A} (m : H A) (c : Conn) (s : Sys) (Q : A -> Conn -> Sys -> Prop) : Prop :=
  exists a c' s', m c s = Ret (a, c', s') /\ Q a c' s'.
Lemma hreturns_ret {A} (a : A) c s Q : Q a c s -> hreturns (mret a) c s Q.
Proof. intros HQ. by exists a, c, s. Qed.
Lemma hreturns_bind {A B} (m : H A) (f : A -> H B) c s Q :
  hreturns m c s (fun a c' s' => hreturns (f a) c' s' Q) -> hreturns (m ≫= f) c s Q.
Proof.
  intros (a & c1 & s1 & Hm & b & c2 & s2 & Hf & HQ). exists b, c2, s2. split; [|done].
  unfold mbind, H_bind. by rewrite Hm.
Qed.
Lemma hreturns_getC c s Q : Q c c s -> hreturns getC c s Q.
Proof. intros HQ. by exists c, c, s. Qed.
Lemma hreturns_getS c s Q : Q s c s -> hreturns getS c s Q.
Proof. intros HQ. by exists s, c, s. Qed.
Lemma hreturns_modC f c s (Q : unit -> Conn -> Sys -> Prop) : Q tt (f c) s -> hreturns (modC f) c s Q.
Proof. intros HQ. by exists tt, (f c), s. Qed.
Lemma hreturns_modS f c s (Q : unit -> Conn -> Sys -> Prop) : Q tt c (f s) -> hreturns (modS f) c s Q.
Proof. intros HQ. by exists tt, c, (f s). Qed.
Lemma hreturns_onConn {A} (m : M A) c s Q :
  returns m (core c) (fun a k => Q a (c <| core := k |>) s) -> hreturns (onConn m) c s Q.
Proof. intros (a & k & Hm & HQ). exists a, (c <| core := k |>), s. unfold onConn. by rewrite Hm. Qed.
Lemma hreturns_entityH e c s Q : entity (core c) = Some e -> Q e c s -> hreturns entityH c s Q.
Proof. intros He HQ. exists e, c, s. unfold entityH, mbind, H_bind, getC. by rewrite He. Qed.
Lemma hreturns_processH p c s Q : process (core c) = Some p -> Q p c s -> hreturns processH c s Q.
Proof. intros Hp HQ. exists p, c, s. unfold processH, mbind, H_bind, getC. by rewrite Hp. Qed.
Lemma hreturns_mono {A} (m : H A) c s (Q Q' : A -> Conn -> Sys -> Prop) :
  hreturns m c s Q -> (forall a c' s', Q a c' s' -> Q' a c' s') -> hreturns m c s Q'.
Proof. intros (a & c' & s' & Hm & HQ) HQQ. exists a, c', s'. auto. Qed.
(** What is kept may be added to what returning code does. *)
Lemma hreturns_keeps {A} (R : State -> State -> Prop) (m : H A) c s Q : hkeeps R m -> hreturns m c s Q ->
  hreturns m c s (fun a c' s' => Q a c' s' /\ R (c, s) (c', s')).
Proof. intros Hk (a & c' & s' & Hm & HQ). exists a, c', s'. split; [done|]. split; [done|]. by eapply Hk. Qed.

(** ** Tunneling as a function of the facts *)
Definition withVerdict (v : Verdict) (F : Facts) : Facts :=
  mkFacts (fType F) (fInbound F) (fIPProtocol F) (fLocalIP F) (fLocalPort F) (fResolver F) v (fProcess F) (fLayers F) (fEntity F).

Section tunnel.
Context {IE : IntelEnv} {UT : UnicodeTables} {FE : FirewallEnv} {PE : PacketEnv} (g : Cfg) (F : Facts).

(** Portmaster's own connections that must work without the SPN. *)
Definition ownUntunneled : bool :=
  (Pid (fProcess F) =? ownPID) && (negb ClientReady || IsExcepted (ipBytes (fEntity F))).
Definition tunnelable : bool :=
  tunnelEnabled && IsGlobal (scope F) && negb (fInbound F) && ((fIPProtocol F =? TCP) || (fIPProtocol F =? UDP)) &&
  negb ownUntunneled && negb (inLocalNet (fEntity F)).
(** The first rule of the SPN usage policies that applies. *)
Definition spnRule : EPResult :=
  firstDecision ((fun ep => specMatches ep (fEntity F)) <$>
    omap id (concat (spnUsagePolicy <$> layers (fLayers F)) ++ cfgSPNUsagePolicy g)).
Definition tunnelVerdict (v : Verdict) : Verdict :=
  if bool_decide (v = VerdictAccept) && tunnelable && opt g F UseSPN then
    match spnRule with
    | Denied => VerdictAccept
    | MatchError => VerdictFailed
    | NoMatch | Permitted => if ClientReady then VerdictRerouteToTunnel else VerdictFailed
    end
  else v.

Context (Hord : forall ks, mapOrder ks ≡ₚ ks) (Herr : forall a err, geoipGetLocation a = inr err -> err <> []).

Lemma decided_good v k : decidedAs g F v k -> good g (withVerdict v F) k.
Proof.
  intros [Hv [[H1 H2 H3 H4 H5 H6 H7 (p & lp & Hp & Hf & Hl & [G1 G2 G3 G4])] (e & He & [E1 E2 E3])]].
  split; [split; try done; by exists p, lp|]. by exists e.
Qed.
Lemma inLocalNet_good e : goodEntity F e -> inLocalNet e = inLocalNet (fEntity F).
Proof. intros (E & _)%view_fields. unfold inLocalNet. by rewrite E. Qed.
Lemma FetchData_good e : goodEntity F e -> FetchData e = e.
Proof.
  intros [[_ Hf] _ (Hd & Ha & Hi & Hc)]. unfold FetchData. rewrite getLocation_once by done. unfold getLists.
  by rewrite domainDone_fix, asnDone_fix, ipDone_fix, countryDone_fix.
Qed.
Lemma refreshProfile_ok k lp Q : good g F k -> ProcProfile (process k) = Some lp -> goodLP g F lp ->
  existsb outdated (layers (fLayers F)) = false ->
  (forall k', good g F k' -> Q tt k') -> returns (refreshProfile g lp) k Q.
Proof.
  intros Hk Hp Hlp Hu HQ. unfold refreshProfile, NeedsUpdate, IsValid.
  rewrite (gl_valid _ _ _ Hlp), (gl_layers _ _ _ Hlp), Hu, bool_decide_true by done. simpl negb. cbv iota.
  apply returns_bind, returns_get. destruct (_ =? _); [by apply returns_ret, HQ|].
  apply returns_bind, returns_modify, returns_modify, HQ. by eapply good_fields; [exact Hk|..].
Qed.
Lemma hgood_entity c s Q : good g F (core c) -> (forall e, goodEntity F e -> entity (core c) = Some e -> Q e c s) ->
  hreturns entityH c s Q.
Proof. intros [_ (e & He & Hg)] HQ. eapply hreturns_entityH; [done|]. by apply HQ. Qed.
Lemma hgood_process c s Q : good g F (core c) ->
  (forall p lp, Pid p = Pid (fProcess F) -> process (core c) = Some p -> profile p = Some lp -> goodLP g F lp -> Q p c s) ->
  hreturns processH c s Q.
Proof.
  intros [[_ _ _ _ _ _ _ (p & lp & Hp & Hf & Hl & Hg)] _] HQ. eapply hreturns_processH; [done|]. eapply HQ; [|done..].
  change (Pid (p <| profile := None |>) = Pid ((fProcess F) <| profile := None |>)). by rewrite Hf.
Qed.

(** The rules of the policies, on an outgoing connection. *)
Lemma matchSPN_ok k Q : good g F k -> rev F = false ->
  (forall v k', v.1 = spnRule -> good g F k' -> Q v k') -> returns (matchRules (MatchSPNUsagePolicy g)) k Q.
Proof.
  intros Hk Hr HQ. unfold matchRules. apply returns_bind, (returns_getLP g F); [done|]. intros lp Hlp _.
  apply returns_bind, (returns_getEntity g F); [done|]. intros e He _.
  destruct (matchLayers_good F Hord Herr spnUsagePolicy (layers lp) (cfgSPNUsagePolicy g) e He) as (v & e' & Hm & Hv1 & Hv2 & He').
  rewrite (gl_layers _ _ _ Hlp) in Hv2. rewrite (specMatches_view F e _ He) in Hv2.
  unfold rulesFor in Hv2. rewrite Hr in Hm, Hv2. cbn [rulesEntity] in Hm, Hv2.
  apply returns_bind. eapply returns_call; [exact Hm|]. cbv beta iota.
  apply returns_bind. eapply (returns_setEntity g F); [done..|]. intros k' Hk'. by apply returns_ret, HQ.
Qed.
Lemma checkTunneling_good c s : good g F (core c) -> existsb outdated (layers (fLayers F)) = false ->
  hreturns (checkTunneling g) c s (fun _ c' s' => s' = s /\ decidedAs g F (tunnelVerdict (fVerdict F)) (core c')).
Proof.
  intros Hc Hu. unfold checkTunneling, tunnelVerdict, tunnelable, mayTunnel.
  pose proof (good_decided g F _ Hc) as Hsame. apply hreturns_bind, hreturns_getC.
  destruct tunnelEnabled; [|rewrite andb_false_r; by apply hreturns_ret]. cbn [negb andb]. cbv iota.
  apply hreturns_bind, hgood_entity; [done|]. intros e He _. destruct (view_fields F e He) as (Ei & -> & _).
  destruct Hc as [Hg Hent] eqn:E. rewrite (gc_inbound _ _ _ Hg), (gc_verdict _ _ _ Hg), (gc_protocol _ _ _ Hg). clear Hg Hent E.
  destruct (IsGlobal (scope F)); cbn [negb orb andb]; cbv iota; [|rewrite andb_false_r; by apply hreturns_ret].
  destruct (fInbound F) eqn:Einb; cbn [negb orb andb]; cbv iota; [rewrite andb_false_r; by apply hreturns_ret|].
  case_bool_decide as Ev; cbn [negb orb andb]; cbv iota; [|by apply hreturns_ret].
  destruct ((fIPProtocol F =? TCP) || (fIPProtocol F =? UDP)) eqn:Ep.
  2: { apply orb_false_iff in Ep as [-> ->]. by apply hreturns_ret. }
  assert (negb (fIPProtocol F =? TCP) && negb (fIPProtocol F =? UDP) = false) as ->.
  { apply orb_true_iff in Ep as [-> | ->]; [done|]. by rewrite andb_false_r. }
  cbv iota. apply hreturns_bind, hgood_process; [done|]. intros p lp Hpid Hp Hpl Hlp. cbn [andb]. cbv iota.
  rewrite Hpid. assert (ipBytes e = ipBytes (fEntity F)) as -> by (unfold ipBytes; by rewrite Ei).
  rewrite (inLocalNet_good e He). fold ownUntunneled.
  destruct ownUntunneled; cbn [negb andb]; cbv iota; [by apply hreturns_ret|].
  destruct (inLocalNet (fEntity F)); cbn [negb andb]; cbv iota; [by apply hreturns_ret|].
  rewrite Hpl. assert (rev F = false) as Hrev by (unfold rev; by rewrite Einb).
  apply hreturns_bind, hreturns_onConn, (refreshProfile_ok (core c) lp); [done|by rewrite Hp|done..|].
  intros k1 Hk1.
  apply hreturns_bind, hreturns_onConn. change (core (c <| core := k1 |>)) with k1.
  apply (returns_option g F); [done|]. intros k2 Hk2.
  destruct (opt g F UseSPN); cbn [negb]; cbv iota;
    [|apply hreturns_ret; split; [done|]; by apply (good_decided g F) in Hk2].
  apply hreturns_bind, hgood_entity; [exact Hk2|]. intros e2 He2 _. rewrite (FetchData_good e2 He2).
  apply hreturns_bind, hreturns_modC. apply hreturns_bind, hreturns_onConn.
  apply matchSPN_ok; [by apply (good_entity g F)|done|]. intros [r rs] k3 Hr Hk3. cbn [fst] in Hr. subst r.
  assert (forall c', core c' = k3 ->
    hreturns (HSaveWhenFinished ;; if negb ClientReady then HFailed g $"SPN not ready for tunneling" [] else
      modConn (SetVerdictDirectly VerdictRerouteToTunnel) ;; modC (fun c => c <| Tunneled := true |>)) c' s
      (fun _ c' s' => s' = s /\ decidedAs g F (if ClientReady then VerdictRerouteToTunnel else VerdictFailed) (core c'))) as Htunnel.
  { intros c' Hk. apply hreturns_bind, hreturns_modC. destruct ClientReady; cbn [negb]; cbv iota.
    - apply hreturns_bind, hreturns_modC, hreturns_modC. split; [done|]. split; [done|].
      subst k3. eapply good_fields; [exact Hk3|done|]. simpl. by rewrite (gc_verdict _ _ _ (proj1 Hk3)).
    - apply hreturns_modC. split; [done|]. apply SetVerdict_verdict. subst k3. by eapply good_fields; [exact Hk3|..]. }
  destruct spnRule.
  - by apply Htunnel.
  - apply hreturns_modC. split; [done|]. by apply SetVerdict_verdict.
  - apply hreturns_ret. rewrite <- Ev. split; [done|]. by apply (good_decided g F) in Hk3.
  - by apply Htunnel.
Qed.

End tunnel.
Lemma decided_withVerdict `{IE : IntelEnv} g F v t k : decidedAs g (withVerdict v F) t k -> decidedAs g F t k.
Proof.
  intros [Ht [[H1 H2 H3 H4 H5 H6 H7 (p & lp & Hp & Hf & Hl & [G1 G2 G3 G4])] (e & He & [E1 E2 E3])]].
  split; [done|]. split; [split; try done; by exists p, lp|]. by exists e.
Qed.

Section request.
Context {IE : IntelEnv} {UT : UnicodeTables} {FE : FirewallEnv} {PE : PacketEnv} (g : Cfg) (F : Facts).
Context (Hord : forall ks, mapOrder ks ≡ₚ ks) (Herr : forall a err, geoipGetLocation a = inr err -> err <> []).
Lemma checkTunneling_ok v c s : decidedAs g F v (core c) -> existsb outdated (layers (fLayers F)) = false ->
  hreturns (checkTunneling g) c s (fun _ c' s' => s' = s /\ decidedAs g F (tunnelVerdict g F v) (core c')).
Proof.
  intros Hc Hu. eapply hreturns_mono; [by eapply (checkTunneling_good g (withVerdict v F)), Hu; [..|apply decided_good]|].
  intros [] c' s' [-> Hd]. split; [done|]. exact (decided_withVerdict g F v _ _ Hd).
Qed.

(** ** Requesting the tunnel *)
Lemma SetVerdict_sets v msg key ctx k :
  verdict (SetVerdict g v msg key ctx k) = v /\ process (SetVerdict g v msg key ctx k) = process k.
Proof. unfold SetVerdict. case_bool_decide; [done|]. by destruct (ProcProfile _). Qed.
Lemma decided_process v k : decidedAs g F v k -> is_Some (process k).
Proof. intros [_ [[_ _ _ _ _ _ _ (p & lp & Hp & _)] _]]. simpl in Hp. rewrite Hp. by eexists. Qed.
Definition sluiceTakes (c : Conn) (s : Sys) : bool := match (AwaitRequest c s).1 with None => true | Some _ => false end.
Lemma AwaitRequest_fields c c' s : IPVersion c' = IPVersion c ->
  (IPProtocol (core c'), LocalIP (core c'), LocalPort (core c')) = (IPProtocol (core c), LocalIP (core c), LocalPort (core c)) ->
  AwaitRequest c' s = AwaitRequest c s.
Proof. unfold AwaitRequest. intros -> [= -> -> ->]. done. Qed.
Lemma DeriveTunnelOptions_ok proc e enc lp : goodLP g F lp -> goodLP g F (DeriveTunnelOptions g proc e enc lp).2.
Proof.
  assert (forall lp, goodLP g F lp -> goodLP g F (wrapStringOption g lp).2) as Hw.
  { intros l [H1 H2 H3 H4]. unfold wrapStringOption. destruct (refresh _ _ _ _). split; try done.
    by eapply coherent_settings; [| | | |exact H3]. }
  intros Hg. unfold DeriveTunnelOptions. pose proof (Hw _ Hg) as H1. destruct (wrapStringOption g lp) as [alg lp1].
  simpl in H1. destruct (match proc with Some _ => _ | None => false end); [|done].
  destruct DNSExitHubPolicy as [policy|]; [|done]. destruct (EndpointsIsSet policy); [|done].
  pose proof (Hw _ H1) as H2. by destruct (wrapStringOption g lp1) as [alg2 lp2].
Qed.
Lemma good_setLP k lp : good g F k -> goodLP g F lp ->
  good g F (k <| process ::= option_map (fun p => p <| profile := Some lp |>) |>).
Proof.
  intros Hk Hlp. destruct (returns_setLP g F k lp (fun _ => good g F) Hk Hlp (fun _ H => H)) as ([] & k' & Hs & Hk').
  unfold setLP, modify in Hs. injection Hs as <-. exact Hk'.
Qed.
Lemma requestTunneling_ok v c s : decidedAs g F v (core c) ->
  hreturns (requestTunneling g) c s (fun err c' s' => err = (AwaitRequest c s).1 /\ decidedAs g F v (core c')).
Proof.
  intros [Hv Hg]. pose proof Hg as [[_ _ _ _ _ _ _ (p & lp & Hp & _ & Hpl & Hlp)] (e & He & _)]. simpl in Hp, He.
  unfold requestTunneling. apply hreturns_bind, (hreturns_processH p); [done|]. rewrite Hpl.
  apply hreturns_bind, hreturns_getC, hreturns_bind, (hreturns_entityH e); [done|].
  pose proof (DeriveTunnelOptions_ok (Some p) e (Encrypted (core c)) lp Hlp) as Hlp'.
  destruct (DeriveTunnelOptions _ _ _ _ _) as [opts lp']. cbn [snd] in Hlp'.
  apply hreturns_bind, hreturns_onConn, returns_modify. apply hreturns_bind, hreturns_modC.
  apply hreturns_bind, hreturns_getC, hreturns_bind, hreturns_getS.
  match goal with |- context [AwaitRequest ?c1 s] => rewrite (AwaitRequest_fields c c1) by done end.
  destruct (AwaitRequest c s) as [err s']. apply hreturns_bind, hreturns_modS, hreturns_ret. split; [done|]. split; [done|].
  exact (good_setLP _ lp' Hg Hlp').
Qed.
End request.

(** ** What filtering leaves alone *)
Section framed.
Context {IE : IntelEnv} {UT : UnicodeTables} {FE : FirewallEnv} {PE : PacketEnv} (g : Cfg).
Definition outer (c : Conn) := (connRef c, ConnID c, IPVersion c, VerdictPermanent c, hasTunnel c).
Definition framed : State -> State -> Prop := fun x y => outer y.1 = outer x.1 /\ static (core x.1) (core y.1).
#[local] Instance framed_preorder : PreOrder framed.
Proof.
  split; [by intros x; split|]. intros x y z [H1 H2] [H3 H4]. split; [congruence|]. by etrans.
Qed.
Lemma framed_modC f : (forall c, outer (f c) = outer c /\ core (f c) = core c) -> hkeeps framed (modC f).
Proof. intros Hf. apply hkeeps_modC. intros c s. destruct (Hf c) as [H1 H2]. split; [done|]. simpl. by rewrite H2. Qed.
Lemma framed_modConn f : (forall k, static k (f k)) -> hkeeps framed (modConn f).
Proof. intros Hf. apply hkeeps_modC. intros c s. by split; [|apply Hf]. Qed.
Lemma framed_modS f : hkeeps framed (modS f).
Proof. apply hkeeps_modS. by split. Qed.
Lemma framed_onConn {A} (m : M A) : keeps static m -> hkeeps framed (onConn m).
Proof. intros Hm. apply hkeeps_onConn. intros c s a k Hk. split; [done|]. by eapply Hm. Qed.
Lemma framed_SaveWhenFinished : hkeeps framed HSaveWhenFinished.
Proof. by apply framed_modConn. Qed.
Lemma framed_HFailed msg key : hkeeps framed (HFailed g msg key).
Proof. apply framed_modConn. intros k. apply static_SetVerdict. Qed.
Lemma framed_decide : hkeeps framed (decide_ g).
Proof.
  intros c s a c' s' H.
  assert (keeps (static (FE := withConns FE (activeOf c s))) (decideOnConnection (FE := withConns FE (activeOf c s)) g)) as Hk
    by apply decide_static.
  unfold decide_, onConn in H. destruct (decideOnConnection g (core c)) as [[x k]| |] eqn:E; [|done|done].
  apply Hk in E. injection H as _ <- <-. destruct E as [E1 E2]. split; [done|]. split; [exact E1|exact E2].
Qed.
#[local] Hint Resolve framed_modS framed_SaveWhenFinished framed_HFailed framed_decide keeps_option keeps_matchRules keeps_setLP : hk.
#[local] Hint Extern 3 (hkeeps framed (modC _)) => apply framed_modC; by split : hk.
#[local] Hint Extern 3 (hkeeps framed (modConn _)) => apply framed_modConn; intros; by split : hk.
#[local] Hint Extern 2 (hkeeps framed (onConn _)) => apply framed_onConn : hk.
Lemma keeps_refreshProfile lp : keeps static (refreshProfile g lp).
Proof. unfold refreshProfile. keep; by apply keeps_modify. Qed.
#[local] Hint Resolve keeps_refreshProfile : hk.
Lemma framed_checkTunneling : hkeeps framed (checkTunneling g).
Proof. unfold checkTunneling. hkeep. Qed.
Lemma framed_requestTunneling : hkeeps framed (requestTunneling g).
Proof. unfold requestTunneling. hkeep. Qed.
#[local] Hint Resolve framed_checkTunneling framed_requestTunneling : hk.
Lemma framed_FilterConnection b1 b2 : hkeeps framed (FilterConnection g b1 b2).
Proof.
  unfold FilterConnection, Accept, AcceptWithContext. hkeep.
Qed.
End framed.
#[export] Existing Instance framed_preorder.

(** ** The fate of a filtered connection *)
Section fate.
Context {IE : IntelEnv} {UT : UnicodeTables} {FE : FirewallEnv} {PE : PacketEnv} (g : Cfg).

(** What becomes of the policy's verdict [v]: the connection is sent into the tunnel,
    which may fail. [taken]: there is a tunnel, or the sluice takes the request. *)
Definition fate (F : Facts) (v : Verdict) (taken : bool) : Verdict :=
  let t := tunnelVerdict g F v in
  if bool_decide (t = VerdictRerouteToTunnel) && negb taken then VerdictFailed else t.
(** The environment of the decision: the connections that are active now. *)
Definition envOf (c : Conn) (s : Sys) : FirewallEnv := withConns FE (activeOf c s).
(** The profile of the app is known if the system resolver makes a query. *)
Definition knowsApp (k : Connection) (p : Process) (lp : LayeredProfile) : Prop :=
  bool_decide (Type_ k = DNSRequest) && IsSystemResolver (Some p) = true -> localProfile (updatedLP g lp) <> None.

Lemma FilterConnection_ok c s p lp e : envOk (FE := envOf c s) -> connOk g (core c) p lp e -> knowsApp (core c) p lp ->
  DataIsComplete c = true -> filterEnabled = true ->
  let F := factsOf g (core c) p lp e in
  existsb outdated (layers (fLayers F)) = false ->
  hreturns (FilterConnection g true true) c s (fun _ c' s' =>
    verdict (core c') = fate F (policy (FE := envOf c s) g F) (hasTunnel c || sluiceTakes c s) /\ is_Some (process (core c'))).
Proof.
  intros Henv Hok Hl Hc Hf F Hu. unfold FilterConnection. rewrite Hf.
  apply hreturns_bind, hreturns_getC. rewrite Hc. cbn [negb]. cbv iota.
  destruct (decide_settled (FE := envOf c s) g (core c) p lp e Henv Hok Hl) as (k1 & Hd & Hk1).
  change (factsOf (FE := envOf c s) g (core c) p lp e) with F in Hk1. generalize dependent F. intros F Hu Hk1.
  pose proof (decide_static (FE := envOf c s) g _ _ _ Hd) as [Hst _].
  set (v := policy (FE := envOf c s) g F) in *. clearbody v.
  apply hreturns_bind. exists tt, (c <| core := k1 |>), s. unfold decide_, onConn. change (withConns FE (activeOf c s)) with (envOf c s).
  rewrite Hd. split; [done|].
  pose proof Hk1 as [_ [_ (en & He & _)]]. simpl in He.
  apply hreturns_bind, (hreturns_entityH en); [done|]. apply hreturns_bind.
  apply (hreturns_mono _ _ _ (fun _ c' s' => s' = s /\ outer c' = outer c /\ decidedAs g F v (core c') /\
    staticPart (core c') = staticPart (core c))).
  { destruct (encryptedPort (dstPort en)); [apply hreturns_modC|apply hreturns_ret]; split_and!; try done.
    destruct Hk1 as [H1 H2]. split; [done|]. by eapply good_fields; [exact H2|..]. }
  intros [] c2 s2 (-> & Ho & Hk2 & Hs2). apply hreturns_bind.
  eapply hreturns_mono; [eapply hreturns_keeps; [apply framed_checkTunneling|]; by apply checkTunneling_ok; [apply Henv..| |]|].
  intros [] c3 s3 [[-> Hk3] [Ho3 [Hs3 _]]]. apply hreturns_bind, hreturns_getC.
  simpl in Ho3, Hs3. rewrite Ho in Ho3. rewrite Hs2 in Hs3. injection Ho3 as _ _ Ev _ Eh. injection Hs3 as _ _ E1 E2 E3 _ _.
  pose proof (decided_process g F _ _ Hk3) as Hp3.
  unfold fate. set (t := tunnelVerdict g F v) in *. clearbody t. rewrite (proj1 Hk3), Eh.
  case_bool_decide as Et; [|by apply hreturns_ret; split; [apply Hk3|]].
  destruct (hasTunnel c); [by apply hreturns_ret; rewrite (proj1 Hk3)|]. cbn [negb andb orb]. cbv iota.
  apply hreturns_bind. eapply hreturns_mono; [by eapply requestTunneling_ok|]. cbv beta.
  intros err c4 s4 [-> Hk4]. pose proof (decided_process g F _ _ Hk4) as Hp4.
  unfold sluiceTakes. rewrite (AwaitRequest_fields c c3 s) by congruence.
  destruct (AwaitRequest c s) as [[err|] s5]; cbn [fst negb]; cbv iota; apply hreturns_modC; [|by split; [apply Hk4|]].
  destruct (SetVerdict_sets g VerdictFailed ($"failed to request tunneling: " ++ err) [] NoCtx (core c4)) as [H1 H2].
  split; [exact H1|]. exact (eq_ind_r is_Some Hp4 H2).
Qed.
End fate.
