(* ===== verification/PacketSystem.v ===== *)
(** * Packet handling as a system

    The steps of the program on connections: packets arrive, workers handle them,
    connections are re-evaluated, re-attributed, counted and cleaned; each runs with
    the lock of one connection.  [hframe] is what the code of the handlers keeps. *)

From S2P Require Import Prelude GoStrings GoText GoNet NetUtils Reference Entity GoNum NavMap NavRoutes Endpoints Profile.
From S2P Require Import Connection Firewall DecisionFrame Packets Conns Gather Tunnel Handlers Dispatch PacketFacts.

(** ** The frame of the handlers *)

(** A worker that reads its queue, or will. *)
Definition running (w : Worker) : Prop := w <> NoWorker /\ w <> Finished /\ w <> Stuck.
(** The queue is open exactly while there is a handler, and then it is read. *)
Record gateOk (c : Conn) : Prop := {
  ga_active : pktQueueActive c = match firewallHandler c with Some _ => true | None => false end;
  ga_set : pktQueueSet c = pktQueueActive c;
  ga_open : pktQueueActive c = true -> queueClosed c = false /\ running (worker c);
}.
(** The connections counted. *)
Definition metricsTotal (s : Sys) : Z :=
  let m := metrics s in u64 (blockedOut m + encryptedAndTunneledOut m + encryptedOut m + tunneledOut m + out m).
Definition fixedPart (c : Conn) := (connRef c, ConnID c, pktQueue c, worker c).
Record hframe (x y : State) : Prop := {
  hf_fixed : fixedPart y.1 = fixedPart x.1;
  hf_heap : heap y.2 = heap x.2;
  hf_gate : gateOk x.1 -> gateOk y.1;
  hf_conns : forall id ref, conns y.2 !! id = Some ref -> conns x.2 !! id = Some ref \/ (id = ConnID x.1 /\ ref = connRef x.1);
  hf_dns : forall id ref, dnsConns y.2 !! id = Some ref -> dnsConns x.2 !! id = Some ref \/ (id = ConnID x.1 /\ ref = connRef x.1);
  hf_metrics : metricsTotal y.2 = u64 (metricsTotal x.2 + Z.b2z (addedToMetrics y.1) - Z.b2z (addedToMetrics x.1));
}.
Lemma metricsTotal_u64 s : u64 (metricsTotal s) = metricsTotal s.
Proof. unfold metricsTotal, u64. by rewrite Zmod_mod. Qed.
#[export] Instance hframe_preorder : PreOrder hframe.
Proof.
  split.
  - intros [c s]. split; auto. simpl. rewrite Z.add_simpl_r. symmetry. apply metricsTotal_u64.
  - intros [c1 s1] [c2 s2] [c3 s3] [F1 G1 H1 I1 J1 K1] [F2 G2 H2 I2 J2 K2]. cbn [fst snd] in *.
    assert (ConnID c2 = ConnID c1 /\ connRef c2 = connRef c1) as [Hid Href] by (by injection F1).
    rewrite Hid, Href in *. split; cbn [fst snd]; try congruence; auto.
    + intros id ref Hr. apply I2 in Hr as [Hr|Hr]; auto.
    + intros id ref Hr. apply J2 in Hr as [Hr|Hr]; auto.
    + rewrite K2, K1. unfold u64. replace (_ mod 2 ^ 64 + Z.b2z (addedToMetrics c3) - Z.b2z (addedToMetrics c2))
        with ((metricsTotal s1 + Z.b2z (addedToMetrics c2) - Z.b2z (addedToMetrics c1)) mod 2 ^ 64 +
              (Z.b2z (addedToMetrics c3) - Z.b2z (addedToMetrics c2))) by lia.
      rewrite Zplus_mod_idemp_l. f_equal. lia.
Qed.

(** Changes of the connection, and of the system, that touch none of it. *)
Lemma hframe_conn c c' s : fixedPart c' = fixedPart c -> addedToMetrics c' = addedToMetrics c ->
  (gateOk c -> gateOk c') -> hframe (c, s) (c', s).
Proof.
  intros H1 H2 H3. split; cbn [fst snd]; auto. rewrite H2, Z.add_simpl_r. symmetry. apply metricsTotal_u64.
Qed.
Lemma hframe_modC f : (forall c, fixedPart (f c) = fixedPart c /\ addedToMetrics (f c) = addedToMetrics c) ->
  (forall c, gateOk c -> gateOk (f c)) -> hkeeps hframe (modC f).
Proof. intros Hf Hg. apply hkeeps_modC. intros c s. destruct (Hf c) as [H1 H2]. apply hframe_conn; auto. Qed.
Definition gatePart (c : Conn) := (firewallHandler c, pktQueueActive c, pktQueueSet c, queueClosed c, worker c).
Lemma gateOk_part c c' : gatePart c' = gatePart c -> gateOk c -> gateOk c'.
Proof. intros [= E1 E2 E3 E4 E5] [H1 H2 H3]. split; by rewrite ?E1, ?E2, ?E3, ?E4, ?E5. Qed.
Lemma hframe_modC' f : (forall c, (fixedPart (f c), addedToMetrics (f c), gatePart (f c)) = (fixedPart c, addedToMetrics c, gatePart c)) ->
  hkeeps hframe (modC f).
Proof.
  intros Hf. apply hframe_modC; intros c; specialize (Hf c).
  - split; [exact (f_equal (fun x => x.1.1) Hf)|exact (f_equal (fun x => x.1.2) Hf)].
  - apply gateOk_part. exact (f_equal (fun x => x.2) Hf).
Qed.
Lemma hframe_modS f : (forall s, heap (f s) = heap s /\ conns (f s) = conns s /\ dnsConns (f s) = dnsConns s /\ metrics (f s) = metrics s) ->
  hkeeps hframe (modS f).
Proof.
  intros Hf. apply hkeeps_modS. intros c s. destruct (Hf s) as (H1 & H2 & H3 & H4). split; cbn [fst snd]; rewrite ?H2, ?H3; auto.
  rewrite Z.add_simpl_r, metricsTotal_u64. unfold metricsTotal. by rewrite H4.
Qed.
Lemma hframe_onConn {A} (m : M A) : hkeeps hframe (onConn m).
Proof.
  apply hkeeps_onConn. intros c s a k _. apply hframe_conn; try done.
  intros H. by eapply gateOk_part; [|exact H].
Qed.
#[export] Hint Resolve hframe_onConn : hk.
#[export] Hint Extern 2 (hkeeps hframe (modC _)) => apply hframe_modC'; intros; reflexivity : hk.
#[export] Hint Extern 2 (hkeeps hframe (modConn _)) => apply hframe_modC'; intros; reflexivity : hk.
#[export] Hint Extern 2 (hkeeps hframe (modS _)) => apply hframe_modS; intros; by split : hk.
#[export] Hint Extern 2 (hkeeps hframe (emit _)) => apply hframe_modS; intros; by split : hk.

Lemma hframe_UpdateFirewallHandler h : hkeeps hframe (UpdateFirewallHandler h).
Proof.
  apply hframe_modC; intros c; destruct (firewallHandler c) eqn:E; try done.
  intros [H1 H2 H3]. rewrite E in H1. by split.
Qed.
Lemma hframe_StopFirewallHandler : hkeeps hframe StopFirewallHandler.
Proof.
  apply hframe_modC; intros c; simpl; destruct (pktQueueActive c) eqn:E; try done; intros _; split; simpl; try done; by rewrite E.
Qed.
#[export] Hint Resolve hframe_UpdateFirewallHandler hframe_StopFirewallHandler : hk.

(** ** The operations *)
Lemma metricsTotal_count c s f :
  (forall m, let t m := blockedOut m + encryptedAndTunneledOut m + encryptedOut m + tunneledOut m + out m in
     exists k, t (f m) = t m + 1 - k * 2 ^ 64) -> addedToMetrics c = false ->
  hframe (c, s) (c <| addedToMetrics := true |>, s <| metrics ::= f |>).
Proof.
  intros Hf Ha. split; cbn [fst snd]; auto. { intros H. by eapply gateOk_part; [|exact H]. }
  rewrite Ha. destruct (Hf (metrics s)) as [k Hk]. unfold metricsTotal. cbn [metrics set_field addedToMetrics].
  change (metrics (s <| metrics ::= f |>)) with (f (metrics s)). rewrite Hk. unfold u64. change (Z.b2z true) with 1. change (Z.b2z false) with 0.
  rewrite Z.sub_0_r, Zplus_mod_idemp_l, <- (Z_mod_plus_full _ k). f_equal. lia.
Qed.
Lemma inc_step z : exists k, inc z = z + 1 - k * 2 ^ 64.
Proof. exists ((z + 1) / 2 ^ 64). unfold inc, u64. pose proof (Z.div_mod (z + 1) (2 ^ 64)). lia. Qed.
Lemma hframe_addToMetrics : hkeeps hframe addToMetrics.
Proof.
  assert (forall f c s a c' s', (forall m, let t m := blockedOut m + encryptedAndTunneledOut m + encryptedOut m + tunneledOut m + out m in
     exists k, t (f m) = t m + 1 - k * 2 ^ 64) -> addedToMetrics c = false ->
     (modS (fun s => s <| metrics ::= f |>) ;; modC (fun c => c <| addedToMetrics := true |>)) c s = Ret (a, c', s') ->
     hframe (c, s) (c', s')) as Hcount.
  { intros f c s a c' s' Hf Ha H. injection H as _ <- <-. by apply metricsTotal_count. }
  intros c s a c' s'. unfold addToMetrics, mbind at 1, H_bind at 1, getC.
  destruct (addedToMetrics c) eqn:Ea; [by intros [= _ <- <-]|].
  repeat case_match; try (by intros [= _ <- <-]); intros Hr; revert Hr; apply Hcount; auto; intros m t; simpl;
    match goal with |- context [inc ?z] => destruct (inc_step z) as [k Hk]; exists k; unfold t; simpl; rewrite Hk; lia end.
Qed.
#[export] Hint Resolve hframe_addToMetrics : hk.
Section operations.
Context {IE : IntelEnv} {UT : UnicodeTables} {FE : FirewallEnv} {PE : PacketEnv} (g : Cfg).
(** The table of a connection gets its own object. *)
Lemma hframe_own k c c1 s : fixedPart c1 = fixedPart c -> hframe (c1, s) (c1, ownTable k (add c) s).
Proof.
  intros Hfix. assert (ConnID c1 = ConnID c /\ connRef c1 = connRef c) as [Hid Href] by (by injection Hfix).
  split; cbn [fst snd]; auto.
  - unfold ownTable. by case_bool_decide.
  - intros id ref. unfold ownTable. case_bool_decide; [auto|]. cbn. unfold add. rewrite Hid, Href.
    rewrite lookup_insert_Some. intros [[<- <-]|[_ Hr]]; auto.
  - intros id ref. unfold ownTable. case_bool_decide; [|auto]. cbn. unfold add. rewrite Hid, Href.
    rewrite lookup_insert_Some. intros [[<- <-]|[_ Hr]]; auto.
  - rewrite Z.add_simpl_r, metricsTotal_u64. unfold metricsTotal, ownTable. by case_bool_decide.
Qed.
Lemma hframe_Save : hkeeps hframe Save.
Proof.
  intros c s a c' s' Hr. apply bind_inv in Hr as (c0 & c1 & s1 & H1 & Hr). injection H1 as <- <- <-.
  apply bind_inv in Hr as ([] & c1 & s1 & H1 & Hr).
  assert (hframe (c, s) (c1, s1)) as Hf1.
  { revert H1. match goal with |- ?m c s = _ -> _ => enough (hkeeps hframe m) as Hm by apply Hm end. hkeep. }
  clear H1. etrans; [exact Hf1|]. destruct (negb _); [by injection Hr as _ <- <-|].
  apply bind_inv in Hr as ([] & c2 & s2 & H2 & Hr). transitivity (c2, s2).
  - clear Hr. destruct (keySet c); [by injection H2 as <- <-|].
    apply bind_inv in H2 as (p & c3 & s3 & H3 & H2). assert (hframe (c1, s1) (c3, s3)) as Hf3.
    { revert H3. apply hkeeps_processH. exact _. }
    etrans; [exact Hf3|]. injection H2 as <- <-. transitivity (c3 <| keySet := true |>, s3).
    + apply hframe_conn; try done. intros Hg. by eapply gateOk_part; [|exact Hg].
    + apply hframe_own. exact (eq_trans (hf_fixed _ _ Hf3) (hf_fixed _ _ Hf1)).
  - revert Hr. match goal with |- ?m c2 s2 = _ -> _ => enough (hkeeps hframe m) as Hm by apply Hm end. hkeep.
Qed.
Lemma hframe_remove sel c : hkeeps hframe (modS (fun s => if sel : bool then s <| conns ::= remove c |> else s <| dnsConns ::= remove c |>)).
Proof.
  apply hkeeps_modS. intros c0 s. destruct sel; split; cbn [fst snd]; auto.
  - intros id ref. cbn. unfold remove. rewrite lookup_delete_Some. tauto.
  - rewrite Z.add_simpl_r, metricsTotal_u64. done.
  - intros id ref. cbn. unfold remove. rewrite lookup_delete_Some. tauto.
  - rewrite Z.add_simpl_r, metricsTotal_u64. done.
Qed.
#[local] Hint Resolve hframe_Save : hk.
Lemma hframe_delete : hkeeps hframe delete_.
Proof.
  unfold delete_. apply hkeeps_bind; [exact _|hkeep|]. intros c. apply hkeeps_bind; [exact _| |intros _; hkeep].
  intros c1 s1 a c2 s2 Hr. eapply (hframe_remove (bool_decide (Type_ (core c) = IPConnection)) c).
  revert Hr. unfold modS. case_bool_decide; exact id.
Qed.
Lemma hframe_UpdateFeatures : hkeeps hframe (UpdateFeatures g).
Proof. unfold UpdateFeatures. hkeep. Qed.
Lemma hframe_SaveDNSRequestConnection pkt : hkeeps hframe (SaveDNSRequestConnection pkt).
Proof. unfold SaveDNSRequestConnection. hkeep. Qed.
#[local] Hint Resolve hframe_UpdateFeatures hframe_SaveDNSRequestConnection : hk.
Lemma hframe_setDomain d : hkeeps hframe (setDomain d).
Proof. unfold setDomain. hkeep. Qed.
#[local] Hint Resolve hframe_setDomain : hk.
Lemma hframe_GatherConnectionInfo pkt : hkeeps hframe (GatherConnectionInfo g pkt).
Proof. unfold GatherConnectionInfo, setEndpoints, gatherProcess, gatherDomain, HSaveWhenFinished. hkeep. Qed.
Lemma hframe_checkTunneling : hkeeps hframe (checkTunneling g).
Proof. unfold checkTunneling, HFailed, HSaveWhenFinished. hkeep. Qed.
Lemma hframe_requestTunneling : hkeeps hframe (requestTunneling g).
Proof.
  unfold requestTunneling. apply hkeeps_bind; [exact _|hkeep|]. intros p. destruct (profile p) as [lp|]; [|hkeep].
  apply hkeeps_bind; [exact _|hkeep|]. intros c. apply hkeeps_bind; [exact _|hkeep|]. intros e.
  destruct (DeriveTunnelOptions _ _ _ _ _) as [opts lp'].
  apply hkeeps_bind; [exact _|hkeep|]. intros _. apply hkeeps_bind; [exact _|hkeep|]. intros _.
  intros c1 s1 a c' s' Hr. apply bind_inv in Hr as (c2 & c3 & s3 & H2 & Hr). injection H2 as <- <- <-.
  apply bind_inv in Hr as (c2 & c3 & s3 & H2 & Hr). injection H2 as <- <- <-.
  assert (hframe (c1, s1) (c1, (AwaitRequest c1 s1).2)) as Hf.
  { assert (forall s, heap s = heap s1 -> conns s = conns s1 -> dnsConns s = dnsConns s1 -> metrics s = metrics s1 ->
      hframe (c1, s1) (c1, s)) as Hs.
    { intros s E1 E2 E3 E4. split; cbn [fst snd]; rewrite ?E2, ?E3; auto.
      rewrite Z.add_simpl_r, metricsTotal_u64. unfold metricsTotal. by rewrite E4. }
    unfold AwaitRequest. case_bool_decide; [by apply Hs|]. destruct (sluices s1 !! _); [|by apply Hs].
    case_bool_decide; by apply Hs. }
  destruct (AwaitRequest c1 s1) as [err s2]. by injection Hr as _ <- <-.
Qed.
Lemma hframe_decide : hkeeps hframe (decide_ g).
Proof. intros c s a c' s'. apply hframe_onConn. Qed.
#[local] Hint Resolve hframe_delete hframe_GatherConnectionInfo hframe_checkTunneling hframe_requestTunneling hframe_decide : hk.
Lemma hframe_FilterConnection b1 b2 : hkeeps hframe (FilterConnection g b1 b2).
Proof. unfold FilterConnection, HFailed. hkeep. Qed.
Lemma hframe_Submit pkt : hkeeps hframe (SubmitPacketToICMPListener pkt).
Proof. unfold SubmitPacketToICMPListener. hkeep. Qed.
Lemma hframe_runInspectors pkt ins skips v goOn : hkeeps hframe (runInspectors g pkt ins skips v goOn).
Proof.
  revert ins v goOn. induction skips as [|skip skips IH]; intros ins v goOn; cbn [runInspectors]; unfold HSetVerdict; hkeep.
Qed.
Lemma hframe_issueVerdict pkt v b : hkeeps hframe (issueVerdict pkt v b).
Proof. unfold issueVerdict, count, HSaveWhenFinished. hkeep. Qed.
#[local] Hint Resolve hframe_FilterConnection hframe_Submit hframe_runInspectors hframe_issueVerdict : hk.
Lemma hframe_icmpFilterHandler pkt : hkeeps hframe (icmpFilterHandler g pkt).
Proof. unfold icmpFilterHandler, HSaveWhenFinished. hkeep. Qed.
Lemma hframe_inspectAndVerdictHandler pkt : hkeeps hframe (inspectAndVerdictHandler g pkt).
Proof. unfold inspectAndVerdictHandler, RunInspectors. hkeep. Qed.
Lemma hframe_inspectDNSPacket pkt : hkeeps hframe (inspectDNSPacket g pkt).
Proof. unfold inspectDNSPacket, observeDNS, UpdateIPsAndCNAMEs, HSetVerdict. hkeep. Qed.
Lemma hframe_verdictHandler pkt : hkeeps hframe (verdictHandler pkt).
Proof. unfold verdictHandler. hkeep. Qed.
#[local] Hint Resolve hframe_icmpFilterHandler hframe_inspectAndVerdictHandler hframe_inspectDNSPacket hframe_verdictHandler : hk.
Lemma hframe_filterHandler pkt : hkeeps hframe (filterHandler g pkt).
Proof. unfold filterHandler, filterAndContinue, preAuthenticated, rogueDNS, HSetVerdict, HSaveWhenFinished. hkeep. Qed.
#[local] Hint Resolve hframe_filterHandler : hk.
Lemma hframe_gatherDataHandler pkt : hkeeps hframe (gatherDataHandler g pkt).
Proof. unfold gatherDataHandler, HSaveWhenFinished. hkeep. Qed.
#[local] Hint Resolve hframe_gatherDataHandler : hk.
Lemma hframe_fastTrackHandler pkt : hkeeps hframe (fastTrackHandler g pkt).
Proof. unfold fastTrackHandler, fastTrackedPermit, permitByPort, HSetVerdict, HSaveWhenFinished. hkeep. Qed.
#[local] Hint Resolve hframe_fastTrackHandler : hk.
Lemma hframe_default pkt : hkeeps hframe (defaultFirewallHandler g pkt).
Proof. unfold defaultFirewallHandler. hkeep. Qed.
Lemma hframe_handle pkt : hkeeps hframe (packetHandlerHandleConn g pkt).
Proof.
  unfold packetHandlerHandleConn. apply hkeeps_bind; [exact _|hkeep|]. intros c.
  destruct (firewallHandler c) as [[]|]; cbn [runHandler]; [hkeep..|apply hframe_default].
Qed.
Lemma hframe_reset : hkeeps hframe (resetConnectionVerdict g).
Proof. unfold resetConnectionVerdict. hkeep. Qed.
Lemma hframe_reAttribute pid src : hkeeps hframe (reAttributeConnection pid src).
Proof. unfold reAttributeConnection. hkeep. Qed.
Lemma hframe_clean t : hkeeps hframe (cleanConnection t).
Proof. unfold cleanConnection. hkeep. Qed.
Lemma hframe_cleanDNS t : hkeeps hframe (cleanDNSConn t).
Proof. unfold cleanDNSConn. hkeep. Qed.
End operations.

(** ** Steps *)

(** The packets a connection waits to handle. *)
Definition held (w : Worker) : list Packet := match w with Holding p | Next p => [p] | _ => [] end.
Definition waiting (c : Conn) : list Packet := held (worker c) ++ pktQueue c.
Definition verdicts (l : list Event) : list Packet := (pktEvents l).*1.
(** One operation with the lock of a connection, at which the packets [new] arrive. *)
Record opStep (new : list Packet) (x y : State) : Prop := {
  op_id : (connRef y.1, ConnID y.1) = (connRef x.1, ConnID x.1);
  op_heap : heap y.2 = heap x.2;
  op_gate : gateOk x.1 -> gateOk y.1;
  op_conns : forall id ref, conns y.2 !! id = Some ref -> conns x.2 !! id = Some ref \/ (id = ConnID x.1 /\ ref = connRef x.1);
  op_dns : forall id ref, dnsConns y.2 !! id = Some ref -> dnsConns x.2 !! id = Some ref \/ (id = ConnID x.1 /\ ref = connRef x.1);
  op_metrics : metricsTotal y.2 = u64 (metricsTotal x.2 + Z.b2z (addedToMetrics y.1) - Z.b2z (addedToMetrics x.1));
  op_queue : (length (pktQueue x.1) <= queueCap)%nat -> (length (pktQueue y.1) <= queueCap)%nat;
  op_verdicts : emits (fun l => verdicts l ++ waiting y.1 ⊆+ new ++ waiting x.1) x.2 y.2;
}.
Lemma verdicts_app l1 l2 : verdicts (l1 ++ l2) = verdicts l1 ++ verdicts l2.
Proof. unfold verdicts, pktEvents. by rewrite omap_app, fmap_app. Qed.
(** The handlers: with what becomes of the packet. *)
Lemma hframe_step pkts new x y : hframe x y -> emits (fun l => verdicts l = pkts) x.2 y.2 -> pkts ⊆+ new -> opStep new x y.
Proof.
  intros [H1 H2 H3 H4 H5 H6] (l & El & Hl) Hp. pose proof (f_equal (fun z => (z.1.1.1, z.1.1.2)) H1) as Hid. 
  pose proof (f_equal (fun z => z.1.2) H1) as Hq. pose proof (f_equal (fun z => z.2) H1) as Hw. simpl in Hid, Hq, Hw.
  split; try done; [by rewrite Hq|]. exists l. split; [done|]. unfold waiting. rewrite Hq, Hw, Hl.
  by apply submseteq_skips_r.
Qed.
Lemma quiet_emits x y : quiet x y -> emits (fun l => verdicts l = []) x.2 y.2.
Proof. intros (l & El & Hl). exists l. split; [done|]. unfold verdicts. by rewrite Hl. Qed.
(** A change of the queue or the worker before the handlers run. *)
Lemma opStep_before new c c1 s y : (connRef c1, ConnID c1, addedToMetrics c1) = (connRef c, ConnID c, addedToMetrics c) ->
  (gateOk c -> gateOk c1) -> ((length (pktQueue c) <= queueCap)%nat -> (length (pktQueue c1) <= queueCap)%nat) ->
  forall new1, opStep new1 (c1, s) y -> new1 ++ waiting c1 ⊆+ new ++ waiting c -> opStep new (c, s) y.
Proof.
  intros E Hg Hq new1 [H1 H2 H3 H4 H5 H6 H7 (l & El & Hl)] Hsub. cbn [fst snd] in *. injection E as E1 E2 E3.
  rewrite E1, E2 in *. rewrite E3 in H6. split; cbn [fst snd]; auto. exists l. split; [done|]. by etrans.
Qed.
Lemma opStep_refl x : opStep [] x x.
Proof.
  eapply hframe_step; [reflexivity| |done]. exists []. by rewrite app_nil_r.
Qed.

Section steps.
Context {IE : IntelEnv} {UT : UnicodeTables} {FE : FirewallEnv} {PE : PacketEnv} (g : Cfg).
Lemma handle_step pkt c s a c' s' : packetHandlerHandleConn g pkt c s = Ret (a, c', s') -> opStep [pkt] (c, s) (c', s').
Proof.
  intros Hr. pose proof (hframe_handle g pkt _ _ _ _ _ Hr) as Hf.
  apply packetHandlerHandleConn_ok in Hr as (l & El & [[Hl _]|(x & Hl & _)]).
  - eapply hframe_step; [exact Hf| |apply submseteq_nil_l]. exists l. split; [done|]. unfold verdicts. by rewrite Hl.
  - eapply hframe_step; [exact Hf| |reflexivity]. exists l. split; [done|]. unfold verdicts. by rewrite Hl.
Qed.
Lemma default_step pkt c s a c' s' : defaultFirewallHandler g pkt c s = Ret (a, c', s') -> opStep [pkt] (c, s) (c', s').
Proof.
  intros Hr. pose proof (hframe_default g pkt _ _ _ _ _ Hr) as Hf.
  apply (defaultFirewallHandler_ok g pkt False) in Hr as (l & El & [[Hl _]|(x & Hl & _)]).
  - eapply hframe_step; [exact Hf| |apply submseteq_nil_l]. exists l. split; [done|]. unfold verdicts. by rewrite Hl.
  - eapply hframe_step; [exact Hf| |reflexivity]. exists l. split; [done|]. unfold verdicts. by rewrite Hl.
Qed.
Lemma quiet_step {A} (m : H A) : hkeeps hframe m -> hkeeps quiet m -> hkeeps (opStep []) m.
Proof.
  intros Hf Hq c s a c' s' Hr. eapply hframe_step; [by eapply Hf|eapply quiet_emits; by eapply Hq|done].
Qed.
Lemma HandlePacket_step pkt c s a c' s' : HandlePacket g pkt c s = Ret (a, c', s') -> opStep [pkt] (c, s) (c', s').
Proof.
  unfold HandlePacket, mbind, H_bind, getS, getC, modC at 1. set (c1 := c <| lastSeen := now s |>).
  intros Hr. apply (opStep_before [pkt] c c1 s (c', s')) with (new1 := [pkt]); try done.
  { by intros [H1 H2 H3]. }
  destruct (pktQueueActive c1) eqn:Ea; [|by apply default_step in Hr].
  destruct (queueClosed c1); [done|]. destruct (length (pktQueue c1) <? queueCap)%nat eqn:El; injection Hr as _ <- <-.
  - eapply opStep_before; [..|apply opStep_refl|]; try done.
    + by intros [H1 H2 H3].
    + intros _. simpl. rewrite length_app. simpl. apply Nat.ltb_lt in El. change (pktQueue c) with (pktQueue c1). lia.
    + unfold waiting. simpl. rewrite app_assoc. apply Permutation_submseteq. symmetry. apply Permutation_cons_append.
  - eapply hframe_step; [| |reflexivity].
    + by apply (hframe_modS (fun s => s <| events ::= fun l => l ++ [OnPacket pkt PktDrop] |>)) with (c := c1) (a := tt).
    + exists [OnPacket pkt PktDrop]. by split.
Qed.

(** The worker takes a packet and handles it. *)
Lemma take_handle pkt w q c c1 s a c' s' : waiting c ≡ₚ pkt :: held w ++ q ->
  c1 = c <| pktQueue := q |> <| worker := w |> -> running w -> (length q <= length (pktQueue c))%nat ->
  packetHandlerHandleConn g pkt c1 s = Ret (a, c', s') -> opStep [] (c, s) (c', s').
Proof.
  intros Hw -> Hr Hlen Hh. apply handle_step in Hh.
  eapply opStep_before; [..|exact Hh|]; try done.
  - intros [H1 H2 H3]. split; try done. intros Ha. split; [by apply H3|done].
  - simpl. lia.
  - apply Permutation_submseteq. by rewrite Hw.
Qed.
Lemma worker_only c s w : waiting (c <| worker := w |>) = waiting c -> (pktQueueActive c = true -> gateOk c -> running w) ->
  opStep [] (c, s) (c <| worker := w |>, s).
Proof.
  intros Hw Hr. eapply opStep_before; [..|apply opStep_refl|]; try done; [|by rewrite Hw].
  intros Hg. pose proof Hg as [H1 H2 H3]. split; try done. simpl. intros Ha. split; [by apply H3|]. by apply Hr.
Qed.
Lemma workerStep_step ch c s a c' s' : workerStep g ch c s = Ret (a, c', s') -> opStep [] (c, s) (c', s').
Proof.
  unfold workerStep, mbind, H_bind, getC. destruct (worker c) eqn:Ew, ch; try (intros [= _ <- <-]; apply opStep_refl).
  - intros [= _ <- <-]. apply worker_only; [unfold waiting; simpl; rewrite Ew; by destruct (pktQueueSet c)|].
    intros Ha [H1 H2 H3]. by rewrite H2, Ha.
  - destruct (pktQueue c) as [|pkt q] eqn:Eq.
    { destruct (queueClosed c) eqn:Ec; [|intros [= _ <- <-]; apply opStep_refl].
      intros [= _ <- <-]. apply worker_only; [unfold waiting; simpl; by rewrite Ew, Eq|].
      intros Ha [H1 H2 H3]. apply H3 in Ha as [Ha _]. congruence. }
    unfold takePacket, mbind, H_bind, modC at 1. set (c1 := c <| pktQueue := q |>).
    assert (forall s2, (if first && holdsBack (infoOnlyPacketsActive s2) pkt then modC (fun c => c <| worker := Holding pkt |>)
      else modC (fun c => c <| worker := Reading false |>) ;; packetHandlerHandleConn g pkt) c1 s2 = Ret (a, c', s') ->
      opStep [] (c, s2) (c', s')) as Htake.
    { intros s2. destruct (first && _).
      - intros [= _ <- <-]. eapply opStep_before; [..|apply opStep_refl|]; try done.
        + intros [H1 H2 H3]. split; try done. simpl. intros Ha. by apply H3 in Ha as [Ha _].
        + rewrite Eq. simpl. lia.
        + unfold waiting. simpl. by rewrite Ew, Eq.
      - apply take_handle with (pkt := pkt) (w := Reading false) (q := q); [unfold waiting; by rewrite Ew, Eq|done|done|rewrite Eq; simpl; lia]. }
    destruct (first && InfoOnly pkt); [|apply Htake].
    unfold modS at 1, getS. intros Hr. apply Htake in Hr. destruct Hr as [H1 H2 H3 H4 H5 H6 H7 H8]. by split.
  - destruct (pktQueue c) as [|pkt' q] eqn:Eq; [intros [= _ <- <-]; apply opStep_refl|].
    apply take_handle with (pkt := pkt') (w := Next pkt) (q := q); [unfold waiting; rewrite Ew, Eq; apply perm_swap|done|done|rewrite Eq; simpl; lia].
  - apply take_handle with (pkt := pkt) (w := Reading false) (q := pktQueue c); [unfold waiting; by rewrite Ew|by destruct c|done|lia].
  - apply take_handle with (pkt := pkt) (w := Reading false) (q := pktQueue c); [unfold waiting; by rewrite Ew|by destruct c|done|lia].
Qed.

(** ** Quiet operations *)
#[local] Hint Resolve quiet_preorder : hk.
Lemma quiet_reset : hkeeps quiet (resetConnectionVerdict g).
Proof. unfold resetConnectionVerdict. hkeep. Qed.
Lemma quiet_reAttribute id src : hkeeps quiet (reAttributeConnection id src).
Proof. unfold reAttributeConnection. hkeep. Qed.
Lemma quiet_delete : hkeeps quiet delete_.
Proof. unfold delete_. hkeep. apply quiet_modS. intros s. by case_match. Qed.
#[local] Hint Resolve quiet_delete : hk.
Lemma quiet_clean t : hkeeps quiet (cleanConnection t).
Proof. unfold cleanConnection. hkeep. Qed.
Lemma quiet_cleanDNS t : hkeeps quiet (cleanDNSConn t).
Proof. unfold cleanDNSConn. hkeep. Qed.
End steps.

(** ** The system *)
Definition seen (s : Sys) : list Packet := verdicts (events s) ++ concat (waiting <$> heap s).
Definition counted (l : list Conn) : Z := foldr (fun c n => Z.b2z (addedToMetrics c) + n) 0 l.
Definition connAt (m : gmap str nat) (s : Sys) : Prop :=
  forall id ref, m !! id = Some ref -> exists c, heap s !! ref = Some c /\ ConnID c = id.
Record sysOk (s : Sys) : Prop := {
  so_heap : forall ref c, heap s !! ref = Some c -> connRef c = ref /\ gateOk c /\ (length (pktQueue c) <= queueCap)%nat;
  so_conns : connAt (conns s) s;
  so_dns : connAt (dnsConns s) s;
  so_metrics : metricsTotal s = u64 (counted (heap s));
  so_once : NoDup (pktID <$> seen s);
}.
Lemma counted_middle l1 c l2 : counted (l1 ++ c :: l2) = counted (l1 ++ l2) + Z.b2z (addedToMetrics c).
Proof. induction l1 as [|x l1 IH]; simpl; [lia|]. rewrite IH. lia. Qed.
Lemma waiting_middle l1 c l2 : concat (waiting <$> (l1 ++ c :: l2)) ≡ₚ waiting c ++ concat (waiting <$> (l1 ++ l2)).
Proof. rewrite !fmap_app, !concat_app. simpl. by rewrite Permutation_app_swap_app. Qed.

Lemma NoDup_sub {A} (l k : list A) : l ⊆+ k -> NoDup k -> NoDup l.
Proof. intros [k' Hk]%submseteq_Permutation. rewrite Hk. by intros (? & _ & _)%NoDup_app. Qed.
Lemma step_sysOk new c s c' s1 ref : sysOk s -> heap s !! ref = Some c -> opStep new (c, s) (c', s1) ->
  NoDup (pktID <$> new ++ seen s) -> sysOk (s1 <| heap ::= <[ref := c']> |>).
Proof.
  intros [Hh Hc Hd Hm _] Hl [E1 E2 E3 E4 E5 E6 E7 (l & El & Hw)] Hnew. cbn [fst snd] in *.
  destruct (Hh ref c Hl) as (Href & Hg & Hq). injection E1 as E1 Eid.
  destruct (list_elem_of_split_length _ _ _ Hl) as (l1 & l2 & Eh & Elen).
  assert (heap (s1 <| heap ::= <[ref := c']> |>) = l1 ++ c' :: l2) as Eh'.
  { change (<[ref := c']> (heap s1) = l1 ++ c' :: l2). rewrite E2, Eh, Elen.
    rewrite <- (Nat.add_0_r (length l1)). by rewrite insert_app_r. }
  assert (forall (m m' : gmap str nat), connAt m s ->
    (forall id r, m' !! id = Some r -> m !! id = Some r \/ (id = ConnID c /\ r = connRef c)) ->
    connAt m' (s1 <| heap ::= <[ref := c']> |>)) as Hat.
  { intros m m' Hm0 Hm' id r Hr. rewrite Eh'.
    assert (exists cr, heap s !! r = Some cr /\ ConnID cr = id) as (cr & Hcr & Hid).
    { apply Hm' in Hr as [Hr|[-> ->]]; [by apply Hm0|]. exists c. by rewrite Href. }
    destruct (decide (r = ref)) as [-> |Hne].
    - exists c'. split; [rewrite Elen; apply list_lookup_middle; done|]. rewrite Hl in Hcr. injection Hcr as ->. congruence.
    - exists cr. split; [|done]. rewrite <- Eh'. change (<[ref := c']> (heap s1) !! r = Some cr). rewrite E2.
      by rewrite list_lookup_insert_ne. }
  split.
  - intros r cr. rewrite Eh'. intros Hr. destruct (decide (r = ref)) as [-> |Hne].
    + rewrite Elen, list_lookup_middle in Hr by done. injection Hr as <-. split_and!; [congruence|auto..].
    + apply Hh. rewrite <- Eh' in Hr. change (<[ref := c']> (heap s1) !! r = Some cr) in Hr. rewrite E2 in Hr.
      by rewrite list_lookup_insert_ne in Hr.
  - by apply (Hat (conns s)).
  - by apply (Hat (dnsConns s)).
  - rewrite Eh'. change (metricsTotal (s1 <| heap ::= <[ref := c']> |>)) with (metricsTotal s1). rewrite E6, Hm, Eh.
    rewrite !counted_middle. unfold u64.
    replace (_ mod 2 ^ 64 + Z.b2z (addedToMetrics c') - Z.b2z (addedToMetrics c)) with
      ((counted (l1 ++ l2) + Z.b2z (addedToMetrics c)) mod 2 ^ 64 + (Z.b2z (addedToMetrics c') - Z.b2z (addedToMetrics c))) by lia.
    rewrite Zplus_mod_idemp_l. f_equal. lia.
  - eapply NoDup_sub; [|exact Hnew]. apply fmap_submseteq. unfold seen. rewrite Eh'. change (events (s1 <| heap ::= <[ref := c']> |>)) with (events s1).
    rewrite El, verdicts_app, Eh, !waiting_middle.
    transitivity (verdicts (events s) ++ (verdicts l ++ waiting c') ++ concat (waiting <$> (l1 ++ l2))).
    { rewrite <- !app_assoc. done. }
    transitivity (verdicts (events s) ++ (new ++ waiting c) ++ concat (waiting <$> (l1 ++ l2))).
    { apply submseteq_app; [done|]. by apply submseteq_app. }
    apply Permutation_submseteq. rewrite <- !app_assoc, !(app_assoc (verdicts (events s))).
    rewrite (Permutation_app_comm (verdicts (events s)) new). by rewrite <- !app_assoc.
Qed.

Section system.
Context {IE : IntelEnv} {UT : UnicodeTables} {FE : FirewallEnv} {PE : PacketEnv}.

(** The steps; the configuration is that of the moment.  A packet arrives once.  The
    rest of the program changes neither connections nor what packets are told. *)
Inductive sysStep : Sys -> Sys -> Prop :=
| StepPacket g pkt s s' : pktID pkt ∉ pktID <$> seen s -> handlePacket g pkt s = Ret s' -> sysStep s s'
| StepWorker g ref ch a s s' : withConn ref (workerStep g ch) s = Ret (a, s') -> sysStep s s'
| StepReset g ref b s s' : withConn ref (resetConnectionVerdict g) s = Ret (b, s') -> sysStep s s'
| StepReAttribute ref id source b s s' : withConn ref (reAttributeConnection id source) s = Ret (b, s') -> sysStep s s'
| StepBandwidth netQuery free bu s s' : updateBandwidth netQuery free bu s = Ret s' -> sysStep s s'
| StepClean ref t p s s' : withConn ref (cleanConnection t) s = Ret (p, s') -> sysStep s s'
| StepCleanDNS ref t p s s' : withConn ref (cleanDNSConn t) s = Ret (p, s') -> sysStep s s'
| StepElsewhere s s' : (heap s', conns s', dnsConns s', metrics s', events s') = (heap s, conns s, dnsConns s, metrics s, events s) ->
    sysStep s s'.
Definition initial (s : Sys) : Prop :=
  heap s = [] /\ conns s = ∅ /\ dnsConns s = ∅ /\ metricsTotal s = 0 /\ events s = [].

Lemma initial_ok s : initial s -> sysOk s.
Proof.
  intros (H1 & H2 & H3 & H4 & H5). split; rewrite ?H1, ?H2, ?H3, ?H4; try done.
  - unfold seen. rewrite H5, H1. apply NoDup_nil_2.
Qed.
Lemma withConn_ok {A} new ref (m : H A) a s s' : sysOk s -> hkeeps (opStep new) m -> NoDup (pktID <$> new ++ seen s) ->
  withConn ref m s = Ret (a, s') -> sysOk s'.
Proof.
  intros Hs Hm Hnew. unfold withConn. destruct (heap s !! ref) as [c|] eqn:El; [|done].
  destruct (m c s) as [[[x c'] s1]| |] eqn:E; [|done|done]. intros [= _ <-]. apply Hm in E. by eapply step_sysOk.
Qed.
Lemma bind_det {A B} (o : outcome str A) (f : A -> outcome str B) b :
  (o ≫= f) = Ret b -> exists a, o = Ret a /\ f a = Ret b.
Proof. destruct o as [a| |]; [|done|done]. intros E. by exists a. Qed.
Lemma SetHandle_step g pkt : hkeeps (opStep [pkt]) (SetFirewallHandler FastTrackHandler ;; HandlePacket g pkt).
Proof.
  intros c s a c' s' ([] & c1 & s1 & Hset & Hh)%bind_inv. apply HandlePacket_step in Hh.
  revert Hset. unfold SetFirewallHandler, mbind, H_bind, getC, modC, mret, H_ret.
  assert (forall c1, (connRef c1, ConnID c1, addedToMetrics c1) = (connRef c, ConnID c, addedToMetrics c) ->
    (gateOk c -> gateOk c1) -> (pktQueue c1 = pktQueue c \/ pktQueue c1 = []) -> (held (worker c1) ⊆+ held (worker c)) ->
    opStep [pkt] (c1, s) (c', s') -> opStep [pkt] (c, s) (c', s')) as Hb.
  { intros c2 E1 E2 E3 E4 Ho. eapply opStep_before; [exact E1|exact E2| |exact Ho|].
    - destruct E3 as [-> | ->]; [done|simpl; lia].
    - unfold waiting. apply submseteq_app; [done|]. apply submseteq_app; [done|].
      destruct E3 as [-> | ->]; [done|apply submseteq_nil_l]. }
  destruct (pktQueueActive c) eqn:Ea, (firewallHandler c) eqn:Eh; cbv iota beta; intros [= <- <-]; revert Hh; apply Hb; simpl; auto;
    try apply submseteq_nil_l.
  - intros [H1 H2 H3]. split; try done.
  - intros [H1 H2 H3]. by rewrite Ea, Eh in H1.
  - intros [H1 H2 H3]. by rewrite Ea, Eh in H1.
  - intros [H1 H2 H3]. by repeat split.
Qed.
Lemma handlePacket_ok g pkt s s' : sysOk s -> pktID pkt ∉ pktID <$> seen s -> handlePacket g pkt s = Ret s' -> sysOk s'.
Proof.
  intros Hs Hnew. assert (NoDup (pktID <$> [pkt] ++ seen s)) as Hnd by (by apply NoDup_cons_2; [|apply Hs]).
  unfold handlePacket. destruct (conns s !! GetConnectionID pkt) as [ref|].
  { intros ([a s1] & E & [= <-])%bind_det. eapply withConn_ok; [exact Hs| |exact Hnd|exact E].
    intros c0 s0 a0 c' s0'. apply HandlePacket_step. }
  unfold NewIncompleteConnection. set (c := newConn _ _ _ _). intros ([a s1] & E & [= <-])%bind_det.
  destruct Hs as [H1 H2 H3 H4 H5].
  assert (forall m, connAt m s -> connAt m (s <| heap ::= fun l => l ++ [c] |> <| conns ::= add c |>)) as Hat.
  { intros m Hm id ref (cr & Hcr & Hid)%Hm. exists cr. split; [|done]. by apply lookup_app_l_Some. }
  assert (concat (waiting <$> (heap s ++ [c])) = concat (waiting <$> heap s)) as Hw.
  { rewrite fmap_app, concat_app. apply app_nil_r. }
  eapply (withConn_ok [pkt]); [|apply SetHandle_step| |exact E].
  - split.
    + intros ref cr [Hr|[Hr Hc]]%lookup_app_Some; [by apply H1|]. apply list_lookup_singleton_Some in Hc as [Hi <-].
      split_and!; [simpl; lia|by split|simpl; lia].
    + intros id ref. cbn. unfold add. rewrite lookup_insert_Some. intros [[<- <-]|[_ Hr]]; [|by apply (Hat (conns s))].
      exists c. split; [|done]. by apply list_lookup_middle.
    + by apply (Hat (dnsConns s)).
    + change (metricsTotal s = u64 (counted (heap s ++ [c]))). rewrite counted_middle, app_nil_r. simpl Z.b2z. by rewrite Z.add_0_r.
    + unfold seen. change (NoDup (pktID <$> verdicts (events s) ++ concat (waiting <$> (heap s ++ [c])))). by rewrite Hw.
  - unfold seen. change (NoDup (pktID <$> [pkt] ++ verdicts (events s) ++ concat (waiting <$> (heap s ++ [c])))). by rewrite Hw.
Qed.
Lemma bandwidth_step netQuery free bu s s' : sysOk s -> updateBandwidth netQuery free bu s = Ret s' -> sysOk s'.
Proof.
  intros Hs. unfold updateBandwidth. destruct (_ && _); [by intros [= <-]|].
  destruct (conns s !! BWConnID bu) as [ref|]; [|by intros [= <-]]. destruct (negb free); [by intros [= <-]|].
  intros ([a s1] & E & [= <-])%bind_det. eapply (withConn_ok []); [exact Hs| |apply (so_once _ Hs)|exact E].
  apply quiet_step; hkeep.
Qed.
(** What holds of the system in every state it gets to. *)
Lemma sysStep_ok s s' : sysOk s -> sysStep s s' -> sysOk s'.
Proof.
  intros Hs Hstep. pose proof (so_once _ Hs) as Hnd. destruct Hstep as
    [g pkt s s' Hnew E|g ref ch a s s' E|g ref b s s' E|ref id source b s s' E|netQuery free bu s s' E|ref t p s s' E|ref t p s s' E|s s' E].
  - by eapply handlePacket_ok.
  - eapply (withConn_ok []); [exact Hs| |exact Hnd|exact E]. intros c0 s0 a0 c' s0'. apply workerStep_step.
  - eapply (withConn_ok []); [exact Hs| |exact Hnd|exact E]. apply quiet_step; [apply hframe_reset|apply quiet_reset].
  - eapply (withConn_ok []); [exact Hs| |exact Hnd|exact E]. apply quiet_step; [apply hframe_reAttribute|apply quiet_reAttribute].
  - by eapply bandwidth_step.
  - eapply (withConn_ok []); [exact Hs| |exact Hnd|exact E]. apply quiet_step; [apply hframe_clean|apply quiet_clean].
  - eapply (withConn_ok []); [exact Hs| |exact Hnd|exact E]. apply quiet_step; [apply hframe_cleanDNS|apply quiet_cleanDNS].
  - injection E as E1 E2 E3 E4 E5. destruct Hs as [H1 H2 H3 H4 H5].
    split; unfold connAt, metricsTotal, seen; by rewrite ?E1, ?E2, ?E3, ?E4, ?E5.
Qed.
Lemma reachable_ok s0 s : initial s0 -> rtc sysStep s0 s -> sysOk s.
Proof.
  intros H0 Hr. apply initial_ok in H0. induction Hr as [s|s1 s2 s3 Hs _ IH]; [done|]. by eapply IH, sysStep_ok.
Qed.
End system.
