(* ===== verification/PacketProps.v ===== *)
(** * Properties of packet handling

    What packets get: exactly one verdict each, which is the connection's, the one
    the policy and the check for tunneling come to; and where that does not hold. *)

From S2P Require Import Prelude GoStrings GoText GoNet NetUtils Reference Entity EntityFacts GoNum NavMap NavRoutes Endpoints.
From S2P Require Import EndpointMatch Profile ProfileFacts Connection Firewall EntityView FirewallPolicy FirewallFacts.
From S2P Require Import DecisionFrame Packets Conns Gather Tunnel Handlers Dispatch PacketFacts TunnelFacts PacketSystem FirewallProps.

Section packets.
Context {IE : IntelEnv} {UT : UnicodeTables} {FE : FirewallEnv} {PE : PacketEnv} (g : Cfg).

(** ** Issuing *)
Lemma issueVerdict_ok pkt v b c s : FastTrackedByIntegration pkt = false -> exists c' s',
  issueVerdict pkt v b c s = Ret (tt, c', s') /\
  events s' = events s ++ [OnPacket pkt (actionOf (maxVerdict v (verdict (core c))) (VerdictPermanent c || b && permanentVerdicts))] /\
  firewallHandler c' = firewallHandler c /\ PID c' = PID c /\ (core c' = core c \/ core c' = SaveWhenFinished (core c)).
Proof.
  intros Hf. unfold issueVerdict. rewrite Hf.
  unfold count, emit, HSaveWhenFinished, modConn, onCore, modC, modS, mbind, H_bind, getC, mret, H_ret, permanentOr, actionOf.
  destruct (VerdictPermanent c) eqn:Ev, b, permanentVerdicts; cbn [andb negb orb]; cbv iota beta; simpl; rewrite ?Ev;
    destruct (maxVerdict v (verdict (core c))); eexists _, _; (split; [reflexivity|]); auto.
Qed.
Lemma maxVerdict_undecided v b : actionOf (maxVerdict VerdictUndecided v) b = actionOf v b.
Proof. by destruct v. Qed.

Lemma addToMetrics_returns c s : hreturns addToMetrics c s (fun _ _ _ => True).
Proof.
  unfold addToMetrics. apply hreturns_bind, hreturns_getC. repeat case_match;
    first [by apply hreturns_ret | by apply hreturns_bind, hreturns_modS, hreturns_modC].
Qed.
Lemma Save_returns c s : is_Some (process (core c)) -> hreturns Save c s (fun _ _ _ => True).
Proof.
  intros [p Hp]. unfold Save. apply hreturns_bind, hreturns_getC, hreturns_bind.
  apply (hreturns_mono _ _ _ (fun _ c' _ => core c' = core c)).
  { destruct (established _); [by apply hreturns_modC|by apply hreturns_ret]. }
  intros [] c1 s1 Hc. destruct (negb _); [by apply hreturns_ret|]. apply hreturns_bind.
  apply (hreturns_mono _ _ _ (fun _ _ _ => True)).
  { destruct (keySet c); [by apply hreturns_ret|]. apply hreturns_bind, (hreturns_processH p); [by rewrite Hc|].
    by apply hreturns_bind, hreturns_modC, hreturns_modS. }
  intros [] c2 s2 _. apply hreturns_bind. eapply hreturns_mono; [apply addToMetrics_returns|]. intros [] c3 s3 _.
  by apply hreturns_modS.
Qed.

(** A part of the state stays the same. *)
Definition sameOf {A} (f : State -> A) : State -> State -> Prop := fun x y => f y = f x.
#[local] Instance sameOf_preorder {A} (f : State -> A) : PreOrder (sameOf f).
Proof. split; [done|]. intros x y z H1 H2. unfold sameOf in *. congruence. Qed.
#[local] Hint Extern 2 (hkeeps (sameOf _) (modC _)) => apply hkeeps_modC; intros; reflexivity : hk.
#[local] Hint Extern 2 (hkeeps (sameOf _) (modConn _)) => apply hkeeps_modC; intros; reflexivity : hk.
#[local] Hint Extern 2 (hkeeps (sameOf _) (modS _)) => apply hkeeps_modS; intros; reflexivity : hk.
#[local] Hint Extern 2 (hkeeps (sameOf _) (emit _)) => apply hkeeps_modS; intros; reflexivity : hk.
Definition handlerOf (x : State) : option FirewallHandler := firewallHandler x.1.
Lemma handler_addToMetrics : hkeeps (sameOf handlerOf) addToMetrics.
Proof. unfold addToMetrics. hkeep. Qed.
#[local] Hint Resolve handler_addToMetrics : hk.
Lemma handler_Save : hkeeps (sameOf handlerOf) Save.
Proof. unfold Save. hkeep. Qed.

(** ** Filtering a packet *)
Definition rogue (c : Conn) (pkt : Packet) (p : Process) (e : Entity) : bool :=
  dnsQueryInterception && negb ResolverIsDisabled && IsOutbound pkt && (DstPort (info pkt) =? 53) &&
  match nameserverIPMatcher with Some f => negb (f (Dst (info pkt))) | None => false end &&
  negb ((Pid p =? ownPID) && bool_decide (EIPScope e = LocalMulticast)).
(** The packet of a complete connection is for the privacy filter to decide on. *)
Record filtered (pkt : Packet) (c : Conn) (s : Sys) (p : Process) (lp : LayeredProfile) (e : Entity) : Prop := {
  fl_handler : firewallHandler c = Some FilterHandler;
  fl_complete : DataIsComplete c = true;
  fl_real : InfoOnly pkt = false /\ FastTrackedByIntegration pkt = false;
  fl_inspecting : Inspecting (core c) = false /\ ResolverIsDisabled = false;
  fl_own : Inbound (core c) = true \/ generateLocalPreAuthKey (Protocol e) (LocalPort (core c)) ∉ ports s;
  fl_rogue : rogue c pkt p e = false;
  fl_enabled : filterEnabled = true;
  fl_env : envOk (FE := envOf (onCore SaveWhenFinished c) s);
  fl_conn : connOk g (core c) p lp e;
  fl_app : knowsApp g (core c) p lp;
  fl_layers : existsb outdated (layers (fLayers (factsOf g (core c) p lp e))) = false;
}.
Definition packetFate (c : Conn) (s : Sys) (p : Process) (lp : LayeredProfile) (e : Entity) : Verdict :=
  let F := factsOf g (core c) p lp e in
  fate g F (policy (FE := envOf (onCore SaveWhenFinished c) s) g F) (hasTunnel c || sluiceTakes c s).

Lemma preAuthenticated_no c s e : entity (core c) = Some e ->
  Inbound (core c) = true \/ generateLocalPreAuthKey (Protocol e) (LocalPort (core c)) ∉ ports s ->
  hreturns preAuthenticated c s (fun b c' s' => b = false /\ c' = c /\ s' = s).
Proof.
  intros He Hown. unfold preAuthenticated. apply hreturns_bind, hreturns_getC.
  destruct (Inbound (core c)); [by apply hreturns_ret|]. destruct Hown as [|Hn]; [done|].
  apply hreturns_bind, (hreturns_entityH e); [done|]. apply hreturns_bind, hreturns_getS.
  unfold localPortIsPreAuthenticated. rewrite bool_decide_false by done.
  apply hreturns_bind, hreturns_modS, hreturns_ret. split_and!; try done. by destruct s.
Qed.
Lemma rogueDNS_no pkt c s p e : process (core c) = Some p -> entity (core c) = Some e -> rogue c pkt p e = false ->
  hreturns (rogueDNS pkt) c s (fun b c' s' => b = false /\ c' = c /\ s' = s).
Proof.
  intros Hp He. unfold rogueDNS, rogue. match goal with |- ?x && _ = _ -> _ => destruct x end; [|intros _; by apply hreturns_ret].
  intros Hr. apply hreturns_bind, (hreturns_processH p); [done|].
  destruct (Pid p =? ownPID); [|done]. apply hreturns_bind, (hreturns_entityH e); [done|]. apply hreturns_ret.
  by destruct (bool_decide _).
Qed.
Lemma filterHandler_fate pkt c s p lp e : filtered pkt c s p lp e ->
  hreturns (filterHandler g pkt) c s (fun _ c' s' => verdict (core c') = packetFate c s p lp e /\
    is_Some (process (core c')) /\ firewallHandler c' = None /\
    pktEvents (events s') = pktEvents (events s) ++ [(pkt, actionOf (verdict (core c')) (VerdictPermanent c || permanentVerdicts))]).
Proof.
  intros [_ Hc [Hi Hf] [Hins Hd] Hown Hr Hen Henv Hok Happ Hu].
  set (c1 := onCore SaveWhenFinished c) in *.
  assert (connOk g (core c1) p lp e) as Hok1 by (by destruct Hok).
  unfold filterHandler. apply hreturns_bind, hreturns_modC. apply hreturns_bind, hreturns_getC.
  change (DataIsComplete (onCore SaveWhenFinished c)) with (DataIsComplete c). rewrite Hc, Hi. cbn [negb orb]. cbv iota.
  fold c1. apply hreturns_bind. eapply hreturns_mono;
    [apply (preAuthenticated_no c1 s e); [apply Hok1|exact Hown]|]. intros ? ? ? (-> & -> & ->). cbv iota.
  apply hreturns_bind. eapply hreturns_mono; [by apply (rogueDNS_no pkt c1 s p e); [apply Hok1..|]|].
  intros ? ? ? (-> & -> & ->). cbv iota. unfold filterAndContinue.
  apply hreturns_bind. eapply hreturns_mono.
  { eapply hreturns_keeps; [apply framed_FilterConnection|]. eapply hreturns_keeps; [apply quiet_FilterConnection|].
    by apply (FilterConnection_ok g c1 s p lp e). }
  intros [] c2 s2 [[[Hv Hp] (l & El & Hl)] [Ho [_ Hin]]]. simpl in El, Ho, Hin.
  apply hreturns_bind, hreturns_getC. rewrite Hin, Hins by done. apply hreturns_bind, hreturns_modC.
  unfold verdictHandler. rewrite Hi.
  match goal with |- hreturns _ ?c3 _ _ => assert (core c3 = core c2 /\ VerdictPermanent c3 = VerdictPermanent c /\ firewallHandler c3 = None)
    as (E1 & E2 & E3); [injection Ho as _ _ _ Ho _; simpl; by destruct (pktQueueActive c2)|];
    destruct (issueVerdict_ok pkt VerdictUndecided true c3 s2 Hf) as (c4 & s4 & H4 & E4 & E5 & _ & E6) end.
  exists tt, c4, s4. split; [exact H4|]. rewrite E1 in E4, E6. rewrite E2 in E4. rewrite E3 in E5.
  assert (verdict (core c4) = verdict (core c2) /\ process (core c4) = process (core c2)) as [E7 E8] by (by destruct E6 as [-> | ->]).
  rewrite E7, E8. split; [exact Hv|]. split; [done|]. split; [done|]. rewrite E4, El. unfold pktEvents in *.
  rewrite !omap_app, Hl, app_nil_r. cbn. replace (maxVerdict VerdictUndecided (verdict (core c2))) with
    (maxVerdict VerdictUndecided (verdict (core c2))) by done. by rewrite maxVerdict_undecided.
Qed.
End packets.

(** C5. A packet gets what the policy says: the first packet of a complete connection
    that the filter decides on returns from its handler without panic, the connection
    has the verdict of the policy as the check for tunneling and the request of a
    tunnel turn it, the packet gets exactly that verdict, and later packets get it
    without a handler. *)
Theorem packet_fate {IE : IntelEnv} {UT : UnicodeTables} {FE : FirewallEnv} {PE : PacketEnv} g pkt c s p lp e :
  filtered g pkt c s p lp e ->
  exists c' s', packetHandlerHandleConn g pkt c s = Ret (tt, c', s') /\
    verdict (core c') = packetFate g c s p lp e /\ firewallHandler c' = None /\
    pktEvents (events s') = pktEvents (events s) ++ [(pkt, actionOf (verdict (core c')) (VerdictPermanent c || permanentVerdicts))].
Proof.
  intros Hfl. destruct (filterHandler_fate g pkt c s p lp e Hfl) as ([] & c1 & s1 & Hrun & Hv & Hp & Hh & He).
  enough (hreturns (packetHandlerHandleConn g pkt) c s (fun _ c' s' =>
    verdict (core c') = packetFate g c s p lp e /\ firewallHandler c' = None /\
    pktEvents (events s') = pktEvents (events s) ++ [(pkt, actionOf (verdict (core c')) (VerdictPermanent c || permanentVerdicts))]))
    as ([] & c' & s' & H1 & H2); [by exists c', s'|].
  unfold packetHandlerHandleConn. apply hreturns_bind, hreturns_getC. rewrite (fl_handler _ _ _ _ _ _ _ Hfl).
  apply hreturns_bind. exists tt, c1, s1. split; [exact Hrun|]. apply hreturns_bind, hreturns_getC.
  destruct (saveWhenFinished (core c1)); [|by apply hreturns_ret]. apply hreturns_bind, hreturns_modC.
  eapply hreturns_mono.
  { eapply hreturns_keeps; [apply handler_Save|]. eapply hreturns_keeps; [apply quiet_Save|].
    eapply hreturns_keeps; [apply sameV_Save|]. by apply Save_returns. }
  intros [] c2 s2 [[[_ Hsame] (l & El & Hl)] Hh2]. injection Hsame as Hv2 _ _ _. simpl in El, Hv2, Hh2.
  change (firewallHandler c2 = firewallHandler c1) in Hh2. rewrite Hv2, Hh2, El, Hv. split; [done|]. split; [done|].
  unfold pktEvents in *. by rewrite omap_app, Hl, app_nil_r, He, Hv.
Qed.


(** C6. Packets get what the connection gets: a handler that returns has given at
    most one verdict, to its packet, and none only if the packet is informational or
    fast-tracked or the data of the connection is not complete; and it lets the packet
    through only if the connection has no verdict but to accept, or for the inspection
    of DNS if the packet can be parsed as a message. *)
Theorem verdict_enforced {IE : IntelEnv} {UT : UnicodeTables} {FE : FirewallEnv} {PE : PacketEnv} g pkt c s c' s' :
  packetHandlerHandleConn g pkt c s = Ret (tt, c', s') ->
  exists l, events s' = events s ++ l /\
    ((pktEvents l = [] /\ silent pkt c') \/
     (exists a, pktEvents l = [(pkt, a)] /\
        (letsThrough a = true ->
           verdict (core c') ∈ [VerdictAccept; VerdictUndecided; VerdictUndeterminable] \/
           ((firewallHandler c = Some InspectDNSPacket \/ Inspecting (core c') = true) /\ Unpack (Payload pkt) <> None)))).
Proof.
  intros (l & El & Hl)%packetHandlerHandleConn_ok. exists l. split; [done|].
  destruct Hl as [Hl|(a & Hl & Ha)]; [by left|]. right. exists a. split; [done|]. intros Ht.
  destruct Ha as [[v ->]|[Hw Ho]]; [left|right; auto].
  cbn [fst] in Ht. destruct (verdict (core c')), v, (VerdictPermanent c');
    first [by vm_compute in Ht | by repeat constructor].
Qed.

(** ** The ICMP listener *)
Section parts.
Context {IE : IntelEnv} {UT : UnicodeTables} {FE : FirewallEnv} {PE : PacketEnv} (g : Cfg).
(** What gathering the data of a connection with a known process leaves alone. *)
Definition gatherKeeps (x : State) := (verdict (core x.1), Inbound (core x.1), IPProtocol (core x.1), icmpListener x.2).
#[local] Existing Instance sameOf_preorder.
#[local] Hint Extern 2 (hkeeps (sameOf _) (modC _)) => apply hkeeps_modC; intros; reflexivity : hk.
#[local] Hint Extern 2 (hkeeps (sameOf _) (modConn _)) => apply hkeeps_modC; intros; reflexivity : hk.
#[local] Hint Extern 2 (hkeeps (sameOf _) (modS _)) => apply hkeeps_modS; intros; reflexivity : hk.
#[local] Hint Extern 2 (hkeeps (sameOf _) (emit _)) => apply hkeeps_modS; intros; reflexivity : hk.
Lemma gather_option key : hkeeps (sameOf gatherKeeps) (onConn (option_ g key)).
Proof.
  pose (parts k := (verdict k, Inbound k, IPProtocol k)).
  assert (PreOrder (fun k k' : Connection => parts k' = parts k)) as HP by (split; [done|intros x y z; congruence]).
  assert (keeps (fun k k' => parts k' = parts k) (option_ g key)) as Hk.
  { unfold option_. apply keeps_bind; [exact _|apply keeps_getLP; exact _|]. intros lp. destruct (wrapBoolOption g key lp) as [v lp'].
    apply keeps_bind; [exact _|by apply keeps_modify|]. intros _. apply keeps_ret; exact _. }
  apply hkeeps_onConn. intros c s a k E%Hk. unfold sameOf, gatherKeeps. simpl. injection E as -> -> ->. done.
Qed.
#[local] Hint Resolve gather_option : hk.
Lemma gather_UpdateFeatures : hkeeps (sameOf gatherKeeps) (UpdateFeatures g).
Proof. unfold UpdateFeatures. hkeep. Qed.
#[local] Hint Resolve gather_UpdateFeatures : hk.
Lemma gather_setDomain d : hkeeps (sameOf gatherKeeps) (setDomain d).
Proof. unfold setDomain. hkeep. Qed.
#[local] Hint Resolve gather_setDomain : hk.
Lemma gather_setEndpoints pkt : hkeeps (sameOf gatherKeeps) (setEndpoints pkt).
Proof. unfold setEndpoints. hkeep. Qed.
Lemma gather_rest pkt : hkeeps (sameOf gatherKeeps) (if InfoOnly pkt then mret tt else
  gatherProcess g ;; gatherDomain pkt ;;
  modConn (fun k => match ProcProfile (process k), entity k with
                    | Some _, Some _ => k <| dataComplete := true |> | _, _ => k end) ;; HSaveWhenFinished).
Proof.
  unfold gatherProcess, gatherDomain, HSaveWhenFinished. hkeep.
  apply hkeeps_modC. intros c s. unfold sameOf, gatherKeeps, onCore. simpl. by repeat case_match.
Qed.
Lemma gather_kept pkt c s a c' s' : (PID c =? UndefinedProcessID) = false ->
  GatherConnectionInfo g pkt c s = Ret (a, c', s') -> gatherKeeps (c', s') = gatherKeeps (c, s).
Proof.
  intros Hpid. unfold GatherConnectionInfo. intros (c0 & c1 & s1 & H0 & Hr)%bind_inv. injection H0 as <- <- <-.
  apply bind_inv in Hr as ([] & c1 & s1 & H1 & Hr). rewrite Hpid in Hr.
  apply bind_inv in Hr as ([] & c2 & s2 & H2 & Hr). injection H2 as <- <-. apply gather_rest in Hr. unfold sameOf in Hr. rewrite Hr.
  destruct (entity (core c)); [by injection H1 as <- <-|]. by apply gather_setEndpoints in H1.
Qed.
End parts.

(** An ICMP packet that is handled by its kind: not one of the special cases. *)
Record plainICMP (pkt : Packet) : Prop := {
  pi_protocol : isICMP (PktProtocol (info pkt)) = true;
  pi_loaded : LoadPacketData pkt = true;
  pi_fast : FastTrackedByIntegration pkt = false;
  pi_blocked : IPEqual (Dst (info pkt)) blockedIPv4 || IPEqual (Dst (info pkt)) blockedIPv6 = false;
  pi_self : (SrcPort (info pkt) =? DstPort (info pkt)) && IPEqual (Src (info pkt)) (Dst (info pkt)) = false;
}.
(** A new outgoing ICMP connection of a known process. *)
Record newICMP (c : Conn) : Prop := {
  ni_handler : firewallHandler c = Some FastTrackHandler;
  ni_complete : DataIsComplete c = false;
  ni_protocol : isICMP (IPProtocol (core c)) = true;
  ni_pid : (PID c =? UndefinedProcessID) = false;
  ni_outgoing : Inbound (core c) = false;
}.
Definition forListener (pkt : Packet) (target : option IP) : bool :=
  negb (IsOutbound pkt && match target with Some ip => negb (IPEqual (Dst (info pkt)) ip) | None => false end).
Lemma fastTracked_plain `{FE : FirewallEnv, PE : PacketEnv} pkt c s : plainICMP pkt ->
  fastTrackedPermit pkt c s =
    (submitted ← SubmitPacketToICMPListener pkt;
     if submitted : bool then mret (VerdictAccept, false)
     else if isEcho pkt then mret (VerdictUndecided, false) else mret (VerdictAccept, true)) c s.
Proof.
  intros [H1 H2 H3 H4 H5]. unfold fastTrackedPermit. by rewrite H3, H4, H5, H1, H2.
Qed.

Section listener.
Context {IE : IntelEnv} {UT : UnicodeTables} {FE : FirewallEnv} {PE : PacketEnv} (g : Cfg).
Lemma real_plain pkt : plainICMP pkt -> InfoOnly pkt = false.
Proof. intros [_ Hl _ _ _]. unfold LoadPacketData in Hl. by destruct (InfoOnly pkt). Qed.
Lemma core_cases v c k : k = core c \/ k = SaveWhenFinished (core c) -> verdict (core c) = v -> verdict k = v /\
  Inbound k = Inbound (core c) /\ IPProtocol k = IPProtocol (core c) /\ dataComplete k = dataComplete (core c).
Proof. by intros [-> | ->] <-. Qed.
(** The packet that the listener takes. *)
Lemma listener_takes pkt c s target input : plainICMP pkt -> newICMP c -> icmpListener s = Some (target, input) ->
  forListener pkt target = true ->
  exists c' s', packetHandlerHandleConn g pkt c s = Ret (tt, c', s') /\ verdict (core c') = VerdictAccept /\ newICMP c' /\
    exists a, letsThrough a = true /\ pktEvents (events s') = pktEvents (events s) ++ [(pkt, a)].
Proof.
  intros Hp [Hh Hc Hpr Hpid Hin] Hs Hfor. pose proof (real_plain pkt Hp) as Hi.
  enough (hreturns (packetHandlerHandleConn g pkt) c s (fun _ c' s' => verdict (core c') = VerdictAccept /\ newICMP c' /\
    exists a, letsThrough a = true /\ pktEvents (events s') = pktEvents (events s) ++ [(pkt, a)]))
    as ([] & c' & s' & H1 & H2); [by exists c', s'|].
  unfold packetHandlerHandleConn. apply hreturns_bind, hreturns_getC. rewrite Hh. cbn [runHandler]. apply hreturns_bind.
  unfold fastTrackHandler. apply hreturns_bind, hreturns_modC. apply hreturns_bind.
  unfold hreturns at 1. rewrite fastTracked_plain by done.
  unfold SubmitPacketToICMPListener, mbind at 1 2, H_bind at 1 2, getS. rewrite Hs, (pi_loaded _ Hp). cbn [negb]. cbv iota.
  unfold forListener in Hfor. apply negb_true_iff in Hfor. rewrite Hfor.
  eexists _, _, _. split; [reflexivity|]. cbv beta iota. rewrite bool_decide_false by done.
  apply hreturns_bind, hreturns_modC. rewrite Hi. apply hreturns_bind.
  match goal with |- hreturns (issueVerdict _ _ _) ?c1 ?s1 _ =>
    destruct (issueVerdict_ok pkt VerdictAccept false c1 s1 (pi_fast _ Hp)) as (c2 & s2 & H2 & E2 & Eh & Epid & Ec) end.
  exists tt, c2, s2. split; [exact H2|]. apply hreturns_ret. apply hreturns_bind, hreturns_getC.
  assert (verdict (core c2) = VerdictAccept /\ newICMP c2) as [Hv [N1 N2 N3 N4 N5]].
  { simpl in Eh, Epid. destruct Ec as [Ec|Ec]; (split; [by rewrite Ec|]); split; unfold DataIsComplete in *; by rewrite ?Ec, ?Eh, ?Epid. }
  assert (exists a, letsThrough a = true /\ pktEvents (events s2) = pktEvents (events s) ++ [(pkt, a)]) as Hev.
  { rewrite E2. unfold pktEvents. rewrite omap_app. eexists. split; [|reflexivity]. simpl. by destruct (VerdictPermanent c). }
  destruct (saveWhenFinished (core c2)); [|by apply hreturns_ret]. apply hreturns_bind, hreturns_modC.
  unfold Save. apply hreturns_bind, hreturns_getC. unfold DataIsComplete in N2.
  change (DataIsComplete (onCore _ c2)) with (dataComplete (core c2)). rewrite N2. apply hreturns_bind.
  destruct (established _); [apply hreturns_modC|apply hreturns_ret]; by apply hreturns_ret.
Qed.
(** An accepted connection is not filtered. *)
Lemma icmp_accepted pkt c s a c' s' : plainICMP pkt -> isEcho pkt = true -> verdict (core c) = VerdictAccept ->
  Inbound (core c) = false -> icmpListener s = None -> icmpFilterHandler g pkt c s = Ret (a, c', s') ->
  verdict (core c') = VerdictAccept /\
  exists x, letsThrough x = true /\ pktEvents (events s') = pktEvents (events s) ++ [(pkt, x)].
Proof.
  intros Hp He Hv Hin Hs Hrun. unfold icmpFilterHandler in Hrun. rewrite (pi_loaded _ Hp) in Hrun. cbn [negb] in Hrun.
  apply bind_inv in Hrun as (b & c4 & s4 & H0 & Hrun).
  unfold SubmitPacketToICMPListener, mbind, H_bind, getS in H0. rewrite Hs in H0. injection H0 as <- <- <-.
  rewrite He in Hrun. cbn [negb andb] in Hrun.
  apply bind_inv in Hrun as (c0 & c4 & s4 & H0 & Hrun). injection H0 as <- <- <-. rewrite Hv in Hrun. cbn [undecided] in Hrun.
  apply bind_inv in Hrun as ([] & c4 & s4 & H0 & Hrun). injection H0 as <- <-.
  apply bind_inv in Hrun as (c0 & c4 & s4 & H0 & Hrun). injection H0 as <- <- <-. rewrite Hin in Hrun. cbn [andb] in Hrun.
  apply bind_inv in Hrun as ([] & c4 & s4 & H0 & Hrun). injection H0 as <- <-.
  destruct (issueVerdict_ok pkt VerdictUndecided false c s (pi_fast _ Hp)) as (c6 & s6 & H6 & E6 & _ & _ & Ec).
  rewrite H6 in Hrun. injection Hrun as _ <- <-.
  assert (verdict (core c6) = VerdictAccept) as -> by (by destruct Ec as [-> | ->]).
  split; [done|]. rewrite E6, Hv. unfold pktEvents. rewrite omap_app.
  eexists. split; [|reflexivity]. by destruct (VerdictPermanent c).
Qed.
(** A later echo of the connection. *)
Lemma echo_accepted pkt c s a c' s' : plainICMP pkt -> isEcho pkt = true -> newICMP c -> verdict (core c) = VerdictAccept ->
  icmpListener s = None -> packetHandlerHandleConn g pkt c s = Ret (a, c', s') ->
  verdict (core c') = VerdictAccept /\ (DataIsComplete c' = true ->
    exists x, letsThrough x = true /\ pktEvents (events s') = pktEvents (events s) ++ [(pkt, x)]).
Proof.
  intros Hp He [Hh Hc Hpr Hpid Hin] Hv Hs Hr.
  apply bind_inv in Hr as (c0 & c1 & s1 & H0 & Hr). injection H0 as <- <- <-. rewrite Hh in Hr. cbn [runHandler] in Hr.
  apply bind_inv in Hr as ([] & c5 & s5 & Hrun & Hsave).
  apply savePending_ok in Hsave as [(l2 & E2 & H2) Hv2].
  simpl in E2. injection Hv2 as Ev _ _ Ed.
  unfold DataIsComplete. rewrite Ev, Ed. unfold pktEvents in *. rewrite E2, omap_app, H2, app_nil_r. clear l2 E2 H2 Ev Ed c' s'.
  unfold fastTrackHandler in Hrun.
  apply bind_inv in Hrun as ([] & c1 & s1 & H1 & Hrun). injection H1 as <- <-.
  apply bind_inv in Hrun as (v & c2 & s2 & H1 & Hrun). rewrite fastTracked_plain in H1 by done.
  unfold SubmitPacketToICMPListener, mbind in H1. unfold H_bind, getS in H1. rewrite Hs, He in H1. injection H1 as <- <- <-.
  cbv beta iota in Hrun. rewrite bool_decide_true in Hrun by done.
  apply bind_inv in Hrun as ([] & c2 & s2 & H1 & Hrun). injection H1 as <- <-.
  apply bind_inv in Hrun as ([] & c2 & s2 & H1 & Hrun). injection H1 as <- <-.
  match type of Hrun with (_ ≫= _) ?c1 _ = _ => assert (gatherKeeps (c1, s) = gatherKeeps (c, s) /\ PID c1 = PID c) as [Hk1 Hpid1];
    [simpl; rewrite Hh; done|set (cg := c1) in *] end.
  apply bind_inv in Hrun as ([] & c2 & s2 & H1 & Hrun).
  pose proof (quiet_GatherConnectionInfo g pkt _ _ _ _ _ H1) as (l & El & Hl). simpl in El. unfold pktEvents in Hl.
  apply gather_kept in H1; [|by rewrite Hpid1]. rewrite Hk1 in H1. unfold gatherKeeps in H1. simpl in H1.
  rewrite Hv, Hin, Hs in H1. injection H1 as Hv2 Hin2 Hpr2 Hs2.
  apply bind_inv in Hrun as (c0 & c3 & s3 & H0 & Hrun). injection H0 as <- <- <-. rewrite Hpr2, Hpr in Hrun.
  destruct (DataIsComplete c2) eqn:Ed; cbn [negb] in Hrun; [|injection Hrun as <- <-; split; [done|]; unfold DataIsComplete in Ed; by rewrite Ed].
  apply bind_inv in Hrun as ([] & c3 & s3 & H0 & Hrun). injection H0 as <- <-.
  match type of Hrun with _ ?c1 _ = _ => assert (core c1 = core c2) as Hc3 by (by destruct (firewallHandler c2)); set (c3 := c1) in * end.
  apply icmp_accepted in Hrun as [Hv' (x & Hx & Ex)]; [|by rewrite ?Hc3..]. split; [done|]. intros _. exists x. split; [done|].
  unfold pktEvents in Ex. by rewrite Ex, El, omap_app, Hl, app_nil_r.
Qed.
End listener.

(** While Portmaster listens for ICMP replies, connections of apps slip through:
    a packet of a new connection that the listener takes accepts the connection, and
    the verdict stays when the listener is gone, so that later echo packets of the
    connection are let through although no filter was asked. *)
Theorem listener_leaves_unfiltered {IE : IntelEnv} {UT : UnicodeTables} {FE : FirewallEnv} {PE : PacketEnv} g pkt c s target input :
  plainICMP pkt -> newICMP c -> icmpListener s = Some (target, input) -> forListener pkt target = true ->
  exists c1 s1, packetHandlerHandleConn g pkt c s = Ret (tt, c1, s1) /\
    forall echo s2 a c' s', plainICMP echo -> isEcho echo = true -> icmpListener s2 = None ->
      packetHandlerHandleConn g echo c1 s2 = Ret (a, c', s') ->
      verdict (core c') = VerdictAccept /\ (DataIsComplete c' = true ->
        exists x, letsThrough x = true /\ pktEvents (events s') = pktEvents (events s2) ++ [(echo, x)]).
Proof.
  intros Hp Hc Hs Hf. destruct (listener_takes g pkt c s target input Hp Hc Hs Hf) as (c1 & s1 & H1 & Hv & Hc1 & _).
  exists c1, s1. split; [done|]. intros. by eapply echo_accepted.
Qed.

(** ** Inspection of DNS *)

(** The inspection of DNS packets does not heed the verdict: once a connection has
    its handler, every packet that can be parsed as a message and is not an answer is
    let through, also if the connection is blocked or dropped, and the verdict of the
    connection stays. *)
Theorem dns_inspection_ignores_verdict {IE : IntelEnv} {UT : UnicodeTables} {FE : FirewallEnv} {PE : PacketEnv} g pkt c s m :
  firewallHandler c = Some InspectDNSPacket -> InfoOnly pkt = false -> LoadPacketData pkt = true ->
  Unpack (Payload pkt) = Some m -> DNSAnswer m = [] -> is_Some (process (core c)) ->
  exists c' s', packetHandlerHandleConn g pkt c s = Ret (tt, c', s') /\
    verdict (core c') = verdict (core c) /\ firewallHandler c' = Some InspectDNSPacket /\
    pktEvents (events s') = pktEvents (events s) ++ [(pkt, PktAccept)].
Proof.
  intros Hh Hi Hl Hu Ha Hp.
  enough (hreturns (packetHandlerHandleConn g pkt) c s (fun _ c' s' => verdict (core c') = verdict (core c) /\
    firewallHandler c' = Some InspectDNSPacket /\ pktEvents (events s') = pktEvents (events s) ++ [(pkt, PktAccept)]))
    as ([] & c' & s' & H1 & H2); [by exists c', s'|].
  unfold packetHandlerHandleConn. apply hreturns_bind, hreturns_getC. rewrite Hh. apply hreturns_bind. cbn [runHandler].
  unfold inspectDNSPacket. rewrite Hi, Hl, Hu. cbn [negb]. cbv iota. apply hreturns_bind.
  apply (hreturns_mono _ _ _ (fun _ c1 s1 => c1 = c /\ pktEvents (events s1) = pktEvents (events s))).
  { unfold observeDNS. destruct (DNSQuestion m) as [[fqdn qtype]|]; [|by apply hreturns_ret]. destruct (HasSuffix _ _).
    - apply hreturns_modS. split; [done|]. unfold pktEvents. simpl. by rewrite omap_app, app_nil_r.
    - rewrite Ha. by apply hreturns_ret. }
  intros [] c1 s1 [-> He]. apply hreturns_modS, hreturns_bind, hreturns_getC.
  assert (forall s2, events s2 = events s1 ++ [OnPacket pkt PktAccept] ->
    pktEvents (events s2) = pktEvents (events s) ++ [(pkt, PktAccept)]) as Hev.
  { intros s2 ->. unfold pktEvents in *. by rewrite omap_app, He. }
  destruct (saveWhenFinished (core c)); [|apply hreturns_ret; auto]. apply hreturns_bind, hreturns_modC.
  eapply hreturns_mono.
  { eapply hreturns_keeps; [apply handler_Save|]. eapply hreturns_keeps; [apply quiet_Save|].
    eapply hreturns_keeps; [apply sameV_Save|]. by apply Save_returns. }
  intros [] c2 s2 [[[_ Hsame] (l & El & Hl2)] Hh2]. injection Hsame as Hv2 _ _ _. simpl in El, Hv2.
  change (firewallHandler c2 = firewallHandler c) in Hh2. split; [done|]. split; [congruence|].
  rewrite El. unfold pktEvents in *. by rewrite !omap_app, Hl2, app_nil_r, He.
Qed.

(** ** Re-evaluation *)

(** The connection can be decided on again: it is complete and in use. *)
Record resettable {IE : IntelEnv} {UT : UnicodeTables} {FE : FirewallEnv} {PE : PacketEnv} (g : Cfg) (c : Conn) (s : Sys)
    (p : Process) (lp : LayeredProfile) (e : Entity) : Prop := {
  rs_open : Ended (core c) = 0 /\ Internal (core c) = false;
  rs_complete : DataIsComplete c = true;
  rs_enabled : filterEnabled = true;
  rs_env : envOk (FE := envOf c s);
  rs_conn : connOk g (core c) p lp e;
  rs_app : knowsApp g (core c) p lp;
  rs_layers : existsb outdated (layers (fLayers (factsOf g (core c) p lp e))) = false;
}.
(** C9. Re-evaluation brings connections to the policy: for a connection in use, once
    its feature flags are updated, it returns, the verdict is that of the policy as the
    check for tunneling turns it, it tells whether the verdict changed, and if it did the
    integration is told the new verdict; no packet gets a verdict. *)
Theorem reset_follows_policy {IE : IntelEnv} {UT : UnicodeTables} {FE : FirewallEnv} {PE : PacketEnv} g c s c1 p lp e :
  UpdateFeatures g c s = Ret (tt, c1, s) -> Ended (core c) = 0 -> resettable g c1 s p lp e ->
  let F := factsOf g (core c1) p lp e in
  exists b c' s', resetConnectionVerdict g c s = Ret (b, c', s') /\
    verdict (core c') = fate g F (policy (FE := envOf c1 s) g F) (hasTunnel c1 || sluiceTakes c1 s) /\
    b = negb (bool_decide (verdict (core c') = verdict (core c))) /\
    (b = true -> UpdateVerdict (connRef c') (verdict (core c')) ∈ events s') /\
    pktEvents (events s') = pktEvents (events s).
Proof.
  intros Hup Hend [[Hend1 Hint] Hc Hen Henv Hok Happ Hu] F. subst F.
  pose proof (gather_UpdateFeatures g _ _ _ _ _ Hup) as Hk. injection Hk as Hv1 _ _. simpl in Hv1.
  match goal with |- exists b c' s', _ = _ /\ ?Q => enough (hreturns (resetConnectionVerdict g) c s (fun b c' s' =>
    verdict (core c') = fate g (factsOf g (core c1) p lp e) (policy (FE := envOf c1 s) g (factsOf g (core c1) p lp e))
      (hasTunnel c1 || sluiceTakes c1 s) /\
    b = negb (bool_decide (verdict (core c') = verdict (core c))) /\
    (b = true -> UpdateVerdict (connRef c') (verdict (core c')) ∈ events s') /\
    pktEvents (events s') = pktEvents (events s))) as (b & c' & s' & H1 & H2) by (by exists b, c', s') end.
  unfold resetConnectionVerdict. apply hreturns_bind, hreturns_getC. rewrite Hend. cbn [Z.ltb Z.compare]. cbv iota.
  apply hreturns_bind. exists tt, c1, s. split; [exact Hup|]. apply hreturns_bind, hreturns_getC. rewrite Hint, Hv1.
  apply hreturns_bind. eapply hreturns_mono.
  { eapply hreturns_keeps; [apply quiet_FilterConnection|]. by apply (FilterConnection_ok g c1 s p lp e). }
  intros [] c2 s2 [[Hv2 Hp2] (l & El & Hl)]. simpl in El. rewrite <- Hv2.
  apply hreturns_bind, hreturns_getC, hreturns_bind.
  apply (hreturns_mono _ _ _ (fun _ c3 s3 => c3 = c2 /\ pktEvents (events s3) = pktEvents (events s))).
  { assert (pktEvents (events s2) = pktEvents (events s)) as E2.
    { by rewrite El, pktEvents_app, Hl, app_nil_r. }
    destruct (_ && hasTunnel c2); [|by apply hreturns_ret]. apply hreturns_modS. split; [done|]. simpl.
    rewrite pktEvents_app, E2. apply app_nil_r. }
  intros [] c3 s3 [-> E3]. case_bool_decide as Ev; [apply hreturns_ret; rewrite bool_decide_true by exact Ev; split_and!; [done|done|discriminate|done]|].
  apply hreturns_bind, hreturns_modS, hreturns_bind.
  eapply hreturns_mono.
  { eapply hreturns_keeps; [apply hframe_Save|]. eapply hreturns_keeps; [apply quiet_Save|].
    eapply hreturns_keeps; [apply sameV_Save|]. by apply Save_returns. }
  intros [] c4 s4 [[[_ Hsame] (l4 & El4 & Hl4)] [Hfix _ _ _ _ _]]. injection Hsame as Hv4 _ _ _. simpl in El4, Hv4.
  assert (connRef c4 = connRef c2) as Href by (by injection Hfix).
  assert (pktEvents (events s4) = pktEvents (events s)) as E4.
  { rewrite El4, !pktEvents_app, Hl4, E3. simpl. by rewrite !app_nil_r. }
  assert (UpdateVerdict (connRef c4) (verdict (core c4)) ∈ events s4) as Hin.
  { rewrite El4, Href, Hv4. apply elem_of_app. left. apply elem_of_app. right. by left. }
  apply hreturns_bind. apply (hreturns_mono _ _ _ (fun _ c5 s5 => c5 = c4 /\
    UpdateVerdict (connRef c4) (verdict (core c4)) ∈ events s5 /\ pktEvents (events s5) = pktEvents (events s))).
  { case_bool_decide; [|by apply hreturns_ret]. apply hreturns_modS. split; [done|]. simpl.
    rewrite pktEvents_app, E4. split; [apply elem_of_app; by left|apply app_nil_r]. }
  intros [] c5 s5 (-> & Hin5 & E5). apply hreturns_ret. rewrite Hv4, bool_decide_false by done. rewrite <- Hv4. auto.
Qed.

(** ** Witnesses *)
Module PacketDemo.
Definition env : PacketEnv := {|
  filterEnabled := true; permanentVerdicts := true; dnsQueryInterception := true; tunnelEnabled := true;
  useCommunityNodes := true; nameserverIPMatcher := Some (fun ip => false); apiPortSet := true; apiIP := [127; 0; 0; 1]; apiPort := 817;
  GetPidOfConnection i := (100, false); GetProcessWithProfile pid := Some (FirewallDemo.proc $"local/app" (FirewallDemo.layered ∅ false)); SystemProcessID := 0;
  GetIPInfo n scope ip := None; onWindows := false; monitorFlush n := false; captivePortal := ([], []);
  GetUser := UserError; inspectors := []; ClientReady := true; exceptIPv4 := []; exceptIPv6 := []; GetHome := None;
  DNSExitHubPolicy := None; IsResolverAddress ip port := false; StopTunnelOk := true;
  Unpack l := Some (mkDNSMsg (Some ($"a.example.", 1)) []); stateExists c := false; refetchProfile p := None;
|}.
Definition pkt (id : nat) (protocol : Z) (layer : ICMPLayer) : Packet :=
  mkPacket id (mkInfo false 4 protocol 5000 443 [10; 0; 0; 1] [5; 6; 7; 8] 100 1000) false false false true layer [1].
Definition ping (id : nat) : Packet :=
  mkPacket id (mkInfo false 4 1 0 0 [10; 0; 0; 1] [1; 2; 3; 4] 100 1000) false false false true (ICMPv4Layer 8) [].
(** A connection that is complete. *)
Definition conn (h : FirewallHandler) (k : Connection) : Conn :=
  (newConn 0 (GetConnectionID (pkt 0 6 NoICMPLayer)) (info (pkt 0 6 NoICMPLayer)) 1000)
    <| core := k |> <| firewallHandler := Some h |> <| pktQueueActive := true |> <| pktQueueSet := true |> <| worker := Reading false |>.
Definition core_ (settings : Perspective) : Connection :=
  FirewallDemo.conn IPConnection false (FirewallDemo.proc $"local/app" (FirewallDemo.layered settings false)) (FirewallDemo.remote [5; 6; 7; 8]).
Definition sys (c : Conn) : Sys :=
  mkSys 1000 [c] {[ConnID c := 0%nat]} ∅ ∅ ∅ ∅ None false {[$"tcp4" := ∅]} (mkStats 0 0 0 0) (mkMetrics 0 0 0 0 0) [].
Definition cfg : Cfg := FirewallDemo.cfg false.
(** A new connection, while a listener takes any packet. *)
Definition fresh : Conn := (newConn 0 (GetConnectionID (ping 1)) (info (ping 1)) 1000)
  <| firewallHandler := Some FastTrackHandler |> <| pktQueueActive := true |> <| pktQueueSet := true |>.
Definition listening : Sys := (sys fresh) <| icmpListener := Some (None, []) |>.
End PacketDemo.
#[local] Existing Instances Demo.env FirewallDemo.unicode FirewallDemo.env PacketDemo.env.

Lemma demo_filtered : let k := PacketDemo.core_ (ProfileDemo.set UseSPN true) in let c := PacketDemo.conn FilterHandler k in
  let lp := FirewallDemo.layered (ProfileDemo.set UseSPN true) false in
  filtered PacketDemo.cfg (PacketDemo.pkt 1 6 NoICMPLayer) c (PacketDemo.sys c) (FirewallDemo.proc $"local/app" lp) lp (FirewallDemo.remote [5; 6; 7; 8]).
Proof.
  intros k c lp. split; try (vm_compute; reflexivity).
  - split; reflexivity.
  - split; reflexivity.
  - right. apply not_elem_of_empty.
  - split; [exact (fun ks => Permutation_refl ks)|exact demo_errors|].
    change (Forall (fun x => dataComplete x = true -> entity x <> None)
      [core (onCore SaveWhenFinished c)]). constructor; [discriminate|constructor].
  - apply inUse_ok, FirewallDemo.in_use.
  - intros H. vm_compute in H. discriminate.
Defined.
Lemma packet_fate_witness : let k := PacketDemo.core_ (ProfileDemo.set UseSPN true) in let c := PacketDemo.conn FilterHandler k in
  exists c' s', packetHandlerHandleConn PacketDemo.cfg (PacketDemo.pkt 1 6 NoICMPLayer) c (PacketDemo.sys c) = Ret (tt, c', s') /\
    verdict (core c') = VerdictRerouteToTunnel /\
    pktEvents (events s') = [(PacketDemo.pkt 1 6 NoICMPLayer, PktRerouteToTunnel)].
Proof.
  intros k c. destruct (packet_fate _ _ _ _ _ _ _ demo_filtered) as (c' & s' & H1 & H2 & _ & H3).
  exists c', s'. split; [exact H1|]. assert (verdict (core c') = VerdictRerouteToTunnel) as E by (rewrite H2; vm_compute; reflexivity).
  split; [exact E|]. rewrite H3, E. reflexivity.
Defined.

Lemma verdict_enforced_witness :
  let c := (PacketDemo.conn FilterHandler ((PacketDemo.core_ ∅) <| verdict := VerdictBlock |>)) <| firewallHandler := None |> in
  let pkt := PacketDemo.pkt 1 6 NoICMPLayer in
  exists c' s' l, packetHandlerHandleConn PacketDemo.cfg pkt c (PacketDemo.sys c) = Ret (tt, c', s') /\ events s' = [] ++ l /\
    ((pktEvents l = [] /\ silent pkt c') \/ exists a, pktEvents l = [(pkt, a)] /\
      (letsThrough a = true -> verdict (core c') ∈ [VerdictAccept; VerdictUndecided; VerdictUndeterminable] \/
        ((None = Some InspectDNSPacket \/ Inspecting (core c') = true) /\ Unpack (Payload pkt) <> None))).
Proof.
  intros c pkt.
  assert (exists c' s', packetHandlerHandleConn PacketDemo.cfg pkt c (PacketDemo.sys c) = Ret (tt, c', s')) as (c' & s' & E)
    by (eexists _, _; reflexivity).
  destruct (verdict_enforced PacketDemo.cfg pkt c (PacketDemo.sys c) c' s' E) as (l & El & Hl).
  exists c', s', l. split; [exact E|]. split; [exact El|exact Hl].
Defined.

(** The rules of the app deny 1.2.3.4, and still it is pinged. *)
Lemma demo_pings :
  match packetHandlerHandleConn PacketDemo.cfg (PacketDemo.ping 1) PacketDemo.fresh PacketDemo.listening with
  | Ret (_, c1, s1) =>
      match packetHandlerHandleConn PacketDemo.cfg (PacketDemo.ping 2) c1 (s1 <| icmpListener := None |>) with
      | Ret (_, c2, s2) => DataIsComplete c2 | _ => false
      end
  | _ => false
  end = true.
Proof. vm_compute. reflexivity. Qed.
Lemma listener_leaves_unfiltered_witness :
  exists c1 s1 c2 s2, packetHandlerHandleConn PacketDemo.cfg (PacketDemo.ping 1) PacketDemo.fresh PacketDemo.listening = Ret (tt, c1, s1) /\
    packetHandlerHandleConn PacketDemo.cfg (PacketDemo.ping 2) c1 (s1 <| icmpListener := None |>) = Ret (tt, c2, s2) /\
    verdict (core c2) = VerdictAccept /\ exists x, letsThrough x = true /\
      pktEvents (events s2) = pktEvents (events s1) ++ [(PacketDemo.ping 2, x)].
Proof.
  destruct (listener_leaves_unfiltered PacketDemo.cfg (PacketDemo.ping 1) PacketDemo.fresh PacketDemo.listening None []) as (c1 & s1 & H1 & H2);
    [by split|by split|reflexivity|reflexivity|].
  pose proof demo_pings as H. rewrite H1 in H.
  destruct (packetHandlerHandleConn PacketDemo.cfg (PacketDemo.ping 2) c1 (s1 <| icmpListener := None |>)) as [[[[] c2] s2]| |] eqn:E;
    [|discriminate H..].
  destruct (H2 (PacketDemo.ping 2) (s1 <| icmpListener := None |>) tt c2 s2 ltac:(by split) eq_refl eq_refl E) as [Hv Hx].
  exists c1, s1, c2, s2. split; [exact H1|]. split; [exact E|]. split; [exact Hv|exact (Hx H)].
Defined.

Lemma dns_inspection_ignores_verdict_witness :
  let c := PacketDemo.conn InspectDNSPacket ((PacketDemo.core_ ∅) <| verdict := VerdictBlock |>) in
  let pkt := PacketDemo.pkt 1 17 NoICMPLayer in
  exists c' s', packetHandlerHandleConn PacketDemo.cfg pkt c (PacketDemo.sys c) = Ret (tt, c', s') /\
    verdict (core c') = VerdictBlock /\ pktEvents (events s') = [(pkt, PktAccept)].
Proof.
  intros c pkt. destruct (dns_inspection_ignores_verdict PacketDemo.cfg pkt c (PacketDemo.sys c)
    (mkDNSMsg (Some ($"a.example.", 1)) [])) as (c' & s' & H1 & H2 & _ & H3); try reflexivity; [by eexists|].
  exists c', s'. split; [exact H1|]. split; [exact H2|exact H3].
Defined.

Lemma demo_resettable : let k := PacketDemo.core_ (ProfileDemo.set UseSPN true) in let c := PacketDemo.conn FilterHandler k in
  let lp := FirewallDemo.layered (ProfileDemo.set UseSPN true) false in
  resettable PacketDemo.cfg c (PacketDemo.sys c) (FirewallDemo.proc $"local/app" lp) lp (FirewallDemo.remote [5; 6; 7; 8]).
Proof.
  intros k c lp. destruct demo_filtered as [_ Hc _ _ _ _ Hen _ Hok Happ Hu]. split; try done.
  split; [exact (fun ks => Permutation_refl ks)|exact demo_errors|].
  change (Forall (fun x => dataComplete x = true -> entity x <> None) [core c]). constructor; [discriminate|constructor].
Defined.
Lemma reset_follows_policy_witness :
  let c := PacketDemo.conn FilterHandler (PacketDemo.core_ (ProfileDemo.set UseSPN true)) in
  exists b c' s', resetConnectionVerdict PacketDemo.cfg c (PacketDemo.sys c) = Ret (b, c', s') /\
    verdict (core c') = VerdictRerouteToTunnel /\ b = true /\ pktEvents (events s') = [].
Proof.
  intros c. set (lp := FirewallDemo.layered (ProfileDemo.set UseSPN true) false).
  destruct (reset_follows_policy PacketDemo.cfg c (PacketDemo.sys c) c (FirewallDemo.proc $"local/app" lp) lp
    (FirewallDemo.remote [5; 6; 7; 8])) as (b & c' & s' & H1 & H2 & H3 & _ & H4);
    [reflexivity|reflexivity|exact demo_resettable|].
  assert (verdict (core c') = VerdictRerouteToTunnel) as E by (rewrite H2; vm_compute; reflexivity).
  exists b, c', s'. split; [exact H1|]. split; [exact E|]. split; [rewrite H3, E; reflexivity|exact H4].
Defined.
