(* ===== verification/ConnProps.v ===== *)
(** * Properties of connections and their tables

    Which packets share a connection; the invariants of the system of connections,
    queues and workers; bandwidth counters; and the cleaner. *)

From S2P Require Import Prelude GoStrings GoText GoNet GoNetFacts NetUtils Reference Entity EntityFacts GoNum NavMap NavRoutes Endpoints.
From S2P Require Import Profile ProfileFacts Connection Firewall DecisionFrame Packets Conns Gather Tunnel Handlers Dispatch PacketFacts TunnelFacts PacketSystem FirewallProps PacketProps.

(** ** Identity *)

(** The header of a packet: 8-bit protocol, 16-bit ports, and IPs of 4 or 16 bytes. *)
Record infoOk (i : Info) : Prop := {
  io_protocol : 0 <= PktProtocol i < 2 ^ 8;
  io_ports : 0 <= SrcPort i < 2 ^ 16 /\ 0 <= DstPort i < 2 ^ 16;
  io_ips : wellFormedIP (Src i) /\ wellFormedIP (Dst i);
}.
Definition withPorts (protocol : Z) : bool := (protocol =? TCP) || (protocol =? UDP).
(** The flow a packet belongs to: both ends, as seen from this side. *)
Definition flowOf (i : Info) :=
  (PktProtocol i, To16 (InfoLocalIP i), To16 (RemoteIP i),
   if withPorts (PktProtocol i) then Some (InfoLocalPort i, RemotePort i) else None).
Lemma ID_flow i : InfoConnectionID i =
  if withPorts (PktProtocol i) then idWithPorts (PktProtocol i) (InfoLocalIP i) (InfoLocalPort i) (RemoteIP i) (RemotePort i)
  else idWithoutPorts (PktProtocol i) (InfoLocalIP i) (RemoteIP i).
Proof.
  unfold InfoConnectionID, CreateConnectionID, InfoLocalIP, RemoteIP, InfoLocalPort, RemotePort, withPorts.
  by destruct (PktInbound i), (_ || _).
Qed.
Lemma no_dash_Itoa z : 0 <= z < 10 ^ 20 -> "-"%char ∉ Itoa z.
Proof. intros Hz Hin. by apply Itoa_digits in Hin. Qed.
Lemma no_dash_IP ip : wellFormedIP ip -> "-"%char ∉ IPString ip.
Proof. intros H%IPString_chars Hin. rewrite Forall_forall in H. by apply H in Hin. Qed.
Lemma IPString_To16 a b : wellFormedIP a -> wellFormedIP b -> IPString a = IPString b <-> To16 a = To16 b.
Proof.
  intros Ha Hb. split; [intros E; by rewrite <- !ParseIP_IPString, E|].
  assert (forall p q, length p = 4%nat -> length q = 16%nat -> To16 p = To16 q -> IPString p = IPString q) as Hpq.
  { intros p q Hp Hq. unfold To16. rewrite (bool_decide_true (length p = _)), (bool_decide_false (length q = _)), bool_decide_true by lia.
    intros [= <-]. unfold IPString. rewrite bool_decide_false by (intros ->; simpl in Hp; lia).
    rewrite (bool_decide_false (v4InV6Prefix ++ p = [])) by (intros E%(f_equal length); by rewrite length_app in E).
    rewrite (To4_length4 p) by done. unfold To4. rewrite bool_decide_false, (bool_decide_true (length _ = 16%nat)) by lia.
    change (take 12 (v4InV6Prefix ++ p)) with v4InV6Prefix. change (drop 12 (v4InV6Prefix ++ p)) with p.
    by rewrite (bool_decide_true (v4InV6Prefix = _)). }
  destruct Ha as [_ Ha], Hb as [_ Hb]. destruct Ha as [Ha|Ha], Hb as [Hb|Hb]; [|by apply Hpq|intros; symmetry; by apply Hpq|].
  - unfold To16. rewrite !bool_decide_true by done. by intros [= ->].
  - unfold To16. rewrite !(bool_decide_false (length _ = 4%nat)), !bool_decide_true by lia. by intros [= ->].
Qed.
Lemma local_wf i : infoOk i -> wellFormedIP (InfoLocalIP i) /\ wellFormedIP (RemoteIP i).
Proof. intros [_ _ [H1 H2]]. unfold InfoLocalIP, RemoteIP. by destruct (PktInbound i). Qed.
Lemma local_ports i : infoOk i -> 0 <= InfoLocalPort i < 10 ^ 20 /\ 0 <= RemotePort i < 10 ^ 20.
Proof. intros [_ [H1 H2] _]. unfold InfoLocalPort, RemotePort. destruct (PktInbound i); lia. Qed.

(** C10. Packets share a connection exactly if they belong to the same flow: IDs are
    equal if and only if the protocols and both ends are, with the ports for TCP and
    UDP, whatever the direction of the packet; an IPv4 address and its IPv6 form are
    the same end. *)
Theorem connection_id_identifies i j : infoOk i -> infoOk j -> InfoConnectionID i = InfoConnectionID j <-> flowOf i = flowOf j.
Proof.
  intros Hi Hj. rewrite !ID_flow. destruct (local_wf i Hi) as [Wl Wr], (local_wf j Hj) as [Wl' Wr'].
  destruct (local_ports i Hi) as [Pl Pr], (local_ports j Hj) as [Pl' Pr'].
  assert (0 <= PktProtocol i < 10 ^ 20 /\ 0 <= PktProtocol j < 10 ^ 20) as [Qi Qj] by (destruct Hi, Hj; lia).
  unfold flowOf. split.
  - intros E. assert (PktProtocol i = PktProtocol j) as Ep.
    { destruct (withPorts (PktProtocol i)), (withPorts (PktProtocol j)); unfold idWithPorts, idWithoutPorts in E;
        apply app_sep_inj in E as [E _]; try (by apply no_dash_Itoa); by apply Itoa_inj in E. }
    rewrite <- Ep in *. destruct (withPorts (PktProtocol i)); unfold idWithPorts, idWithoutPorts in E; apply app_inv_head in E.
    + apply app_inv_head in E.
      apply app_sep_inj in E as [E1 E]; [|by apply no_dash_IP..]. apply app_sep_inj in E as [E2 E]; [|by apply no_dash_Itoa..].
      apply app_sep_inj in E as [E3 E4]; [|by apply no_dash_IP..]. apply Itoa_inj in E2, E4; [|done..].
      apply IPString_To16 in E1, E3; [|done..]. by rewrite E1, E2, E3, E4.
    + apply app_inv_head in E. apply app_sep_inj in E as [E1 E2]; [|by apply no_dash_IP..].
      apply IPString_To16 in E1, E2; [|done..]. by rewrite E1, E2.
  - intros [= Ep E1%IPString_To16 E2%IPString_To16 E3]; [|done..]. rewrite <- Ep in *.
    unfold idWithPorts, idWithoutPorts. destruct (withPorts (PktProtocol i)); [|by rewrite E1, E2].
    injection E3 as E3 E4. by rewrite E1, E2, E3, E4.
Qed.

(** ** Bandwidth *)

(** What the history was told for a connection: bytes received and sent. *)
Definition stored (id : str) (e : Event) : Z * Z :=
  match e with StoreBandwidth _ _ id' bytesIn bytesOut => if eqs id id' then (bytesIn, bytesOut) else (0, 0) | _ => (0, 0) end.
Definition storedTotal (id : str) (l : list Event) : Z * Z :=
  foldr (fun e n => ((stored id e).1 + n.1, (stored id e).2 + n.2)) (0, 0) l.
Lemma storedTotal_app id l1 l2 : storedTotal id (l1 ++ l2) =
  ((storedTotal id l1).1 + (storedTotal id l2).1, (storedTotal id l1).2 + (storedTotal id l2).2).
Proof.
  induction l1 as [|e l1 IH]; [simpl app; by destruct (storedTotal id l2) as [x y]|].
  change (storedTotal id ((e :: l1) ++ l2)) with
    ((stored id e).1 + (storedTotal id (l1 ++ l2)).1, (stored id e).2 + (storedTotal id (l1 ++ l2)).2).
  rewrite IH. simpl. f_equal; lia.
Qed.
Fixpoint updateAll `{IE : IntelEnv, PE : PacketEnv} (bus : list BandwidthUpdate) (s : Sys) : outcome str Sys :=
  match bus with
  | [] => Ret s
  | bu :: bus => s ← updateBandwidth true true bu s; updateAll bus s
  end.
(** A connection in the table whose bandwidth is recorded. *)
Record tracked (id : str) (ref : nat) (c : Conn) (s : Sys) : Prop := {
  tr_table : conns s !! id = Some ref;
  tr_heap : heap s !! ref = Some c;
  tr_id : ConnID c = id;
  tr_enabled : BandwidthEnabled c = true;
  tr_process : is_Some (process (core c));
  tr_range : 0 <= BytesReceived c < 2 ^ 64 /\ 0 <= BytesSent c < 2 ^ 64;
}.
Definition bwOk (id : str) (bu : BandwidthUpdate) : Prop :=
  BWConnID bu = id /\ Method bu <> OtherMethod /\ 0 <= BWReceived bu < 2 ^ 64 /\ 0 <= BWSent bu < 2 ^ 64.
Definition follows (id : str) (c c' : Conn) (s s' : Sys) : Prop :=
  exists l, events s' = events s ++ l /\
    BytesReceived c' = u64 (BytesReceived c + (storedTotal id l).1) /\ BytesSent c' = u64 (BytesSent c + (storedTotal id l).2).
Lemma eqs_refl s : eqs s s = true.
Proof. unfold eqs. by apply bool_decide_eq_true. Qed.
Lemma u64_delta a b : u64 (b + u64 (a - b)) = u64 a.
Proof. unfold u64. rewrite Zplus_mod_idemp_r. f_equal. lia. Qed.
Lemma u64_range a : 0 <= u64 a < 2 ^ 64.
Proof. apply Z.mod_pos_bound. lia. Qed.
Lemma withConn_returns {A} ref (m : H A) c s Q : heap s !! ref = Some c -> hreturns m c s Q ->
  exists a c' s', withConn ref m s = Ret (a, s' <| heap ::= <[ref := c']> |>) /\ Q a c' s'.
Proof. intros Hc (a & c' & s' & Hm & HQ). exists a, c', s'. unfold withConn. by rewrite Hc, Hm. Qed.
Lemma bandwidth_one `{IE : IntelEnv, PE : PacketEnv} id ref c s bu : tracked id ref c s -> bwOk id bu ->
  exists c' s', updateBandwidth true true bu s = Ret s' /\ tracked id ref c' s' /\ follows id c c' s s'.
Proof.
  intros [H1 H2 H3 H4 [p H5] [R1 R2]] (Hid & Hm & B1 & B2). unfold updateBandwidth.
  destruct ((BWReceived bu =? 0) && (BWSent bu =? 0)).
  { exists c, s. split; [done|]. split; [by split|]. exists []. rewrite app_nil_r, !Z.add_0_r. simpl. by rewrite !u64_id. }
  rewrite Hid, H1. cbn [negb]. cbv iota zeta.
  match goal with |- context [withConn ref ?body s] => assert (hreturns body c s (fun _ c' s' =>
    exists history key i o, s' = s <| events ::= fun l => l ++ [StoreBandwidth history key id i o] |> /\
      (ConnID c', BandwidthEnabled c', process (core c')) = (ConnID c, BandwidthEnabled c, process (core c)) /\
      BytesReceived c' = u64 (BytesReceived c + i) /\ BytesSent c' = u64 (BytesSent c + o))) as Hbody end.
  { apply hreturns_bind, hreturns_getC.
    destruct (Method bu); [| |done]; apply hreturns_bind, hreturns_modC, hreturns_bind, hreturns_getC;
      simpl; rewrite H4; apply hreturns_bind, (hreturns_processH p), hreturns_modS; try done; rewrite H3;
      eexists _, _, _, _; (split; [reflexivity|]); simpl; rewrite ?u64_delta, ?u64_id by done; done. }
  apply (withConn_returns ref _ c s _ H2) in Hbody as (a & c' & s' & -> & history & key & i & o & -> & [= E1 E2 E3] & E4 & E5).
  exists c'. eexists. split; [reflexivity|]. split.
  - split; simpl; try congruence; [by apply list_lookup_insert_eq, lookup_lt_Some with c|by rewrite E3, H5|rewrite E4, E5; split; apply u64_range].
  - exists [StoreBandwidth history key id i o]. split; [done|]. simpl. by rewrite eqs_refl, !Z.add_0_r.
Qed.

(** Bandwidth is recorded without loss: for any updates of a connection that is
    recorded, whatever mix of absolute and additive ones, the updates return, and what
    the history is told adds up to the change of the connection's counters, modulo the
    width of the counters. *)
Theorem bandwidth_conserved {IE : IntelEnv} {PE : PacketEnv} id ref c s bus : tracked id ref c s -> Forall (bwOk id) bus ->
  exists c' s' l, updateAll bus s = Ret s' /\ heap s' !! ref = Some c' /\ events s' = events s ++ l /\
    BytesReceived c' = u64 (BytesReceived c + (storedTotal id l).1) /\
    BytesSent c' = u64 (BytesSent c + (storedTotal id l).2).
Proof.
  intros Ht Hb. revert c s Ht. induction Hb as [|bu bus Hbu Hb IH]; intros c s Ht.
  { exists c, s, []. rewrite app_nil_r. simpl. rewrite !Z.add_0_r. destruct (tr_range _ _ _ _ Ht).
    rewrite !u64_id by done. split_and!; try done. apply Ht. }
  destruct (bandwidth_one id ref c s bu Ht Hbu) as (c1 & s1 & H1 & Ht1 & l1 & E1 & F1 & G1).
  destruct (IH c1 s1 Ht1) as (c2 & s2 & l2 & H2 & Hc2 & E2 & F2 & G2). exists c2, s2, (l1 ++ l2).
  cbn [updateAll]. rewrite H1. split; [exact H2|]. split; [done|]. split; [by rewrite E2, E1, app_assoc|].
  rewrite F2, G2, F1, G1, storedTotal_app. unfold u64. cbn [fst snd]. rewrite !Zplus_mod_idemp_l, !Z.add_assoc. done.
Qed.

(** ** Cleaning *)
Section cleaner.
Context {IE : IntelEnv} {PE : PacketEnv}.
(** A complete connection of the table. *)
Record inTable (ref : nat) (c : Conn) (s : Sys) : Prop := {
  it_heap : heap s !! ref = Some c;
  it_ref : connRef c = ref;
  it_conns : conns s !! ConnID c = Some ref;
  it_complete : DataIsComplete c = true;
  it_type : Type_ (core c) = IPConnection;
  it_process : is_Some (process (core c));
}.
(** Saving keeps a connection of the table as it is, up to marks. *)
Lemma Save_kept c s : DataIsComplete c = true -> Type_ (core c) = IPConnection -> is_Some (process (core c)) ->
  conns s !! ConnID c = Some (connRef c) ->
  hreturns Save c s (fun _ c' s' => core c' = core c /\ firewallHandler c' = firewallHandler c /\ Started c' = Started c /\
    (connRef c', ConnID c') = (connRef c, ConnID c) /\ heap s' = heap s /\ conns s' = conns s).
Proof.
  intros Hc Ht [p Hp] Hs. unfold Save. apply hreturns_bind, hreturns_getC, hreturns_bind.
  pose (R c' s' := core c' = core c /\ firewallHandler c' = firewallHandler c /\ Started c' = Started c /\
    (connRef c', ConnID c') = (connRef c, ConnID c) /\ heap s' = heap s /\ conns s' = conns s).
  apply (hreturns_mono _ _ _ (fun _ => R)).
  { destruct (established _); [by apply hreturns_modC|by apply hreturns_ret]. }
  intros [] c1 s1 (E1 & E2 & E3 & E4 & E5 & E6). rewrite Hc. cbn [negb]. cbv iota. apply hreturns_bind.
  apply (hreturns_mono _ _ _ (fun _ => R)).
  { destruct (keySet c); [by apply hreturns_ret|]. apply hreturns_bind, (hreturns_processH p); [by rewrite E1|].
    apply hreturns_bind, hreturns_modC, hreturns_modS. unfold ownTable, R. rewrite Ht. split_and!; try done.
    rewrite <- E6. cbn. rewrite E6. by apply insert_id. }
  intros [] c2 s2 (F1 & F2 & F3 & F4 & F5 & F6). apply hreturns_bind.
  apply (hreturns_mono _ _ _ (fun _ => R)).
  { unfold addToMetrics. apply hreturns_bind, hreturns_getC.
    repeat case_match; first [by apply hreturns_ret | by apply hreturns_bind, hreturns_modS, hreturns_modC]. }
  intros [] c3 s3 HR. by apply hreturns_modS.
Qed.
(** A run on a connection that is no longer alive ends it. *)
Lemma clean_ends t c s : DataIsComplete c = true -> Type_ (core c) = IPConnection -> is_Some (process (core c)) ->
  conns s !! ConnID c = Some (connRef c) -> Ended (core c) = 0 -> Started c < t - 2 -> connActive t c = false ->
  hreturns (cleanConnection t) c s (fun _ c' s' => core c' = (core c) <| Ended := t |> /\ firewallHandler c' = None /\
    Started c' = Started c /\ (connRef c', ConnID c') = (connRef c, ConnID c) /\ heap s' = heap s /\ conns s' = conns s).
Proof.
  intros Hc Ht Hp Hs He Hst Hact. unfold cleanConnection. apply hreturns_bind, hreturns_getC.
  assert (t - 2 <=? Started c = false) as -> by lia. rewrite Hc, He, Hact. cbn [negb Z.eqb]. cbv iota zeta.
  apply hreturns_bind, hreturns_bind, hreturns_modC, hreturns_bind, hreturns_modC.
  match goal with |- hreturns Save ?c1 s _ => assert (core c1 = (core c) <| Ended := t |> /\ firewallHandler c1 = None /\ Started c1 = Started c /\
    (connRef c1, ConnID c1) = (connRef c, ConnID c)) as (E1 & E2 & E3 & E4);
    [simpl; by destruct (pktQueueActive c)|set (c2 := c1) in *; clearbody c2] end.
  injection E4 as E4 E5. eapply hreturns_mono.
  - apply Save_kept; [unfold DataIsComplete; by rewrite E1|by rewrite E1|by rewrite E1|by rewrite E4, E5].
  - intros [] c3 s3 (F1 & F2 & F3 & F4 & F5 & F6). apply hreturns_ret. rewrite F1, F2, F3, F4, E4, E5. done.
Qed.
(** A run on a connection that has ended. *)
Lemma clean_removes t c s : DataIsComplete c = true -> Type_ (core c) = IPConnection ->
  Ended (core c) <> 0 -> Started c < t - 2 ->
  hreturns (cleanConnection t) c s (fun _ c' s' =>
    if Ended (core c) <? t - DeleteConnsAfterEndedThreshold then deleted c' = true /\ conns s' = delete (ConnID c) (conns s)
    else c' = c /\ s' = s).
Proof.
  intros Hc Ht He Hst. unfold cleanConnection. apply hreturns_bind, hreturns_getC.
  assert (t - 2 <=? Started c = false) as -> by lia. rewrite Hc. apply Z.eqb_neq in He. rewrite He. cbn [negb]. cbv iota.
  destruct (Ended (core c) <? _); [|by apply hreturns_ret]. apply hreturns_bind.
  unfold delete_. apply hreturns_bind, hreturns_getC, hreturns_bind, hreturns_modS, hreturns_bind, hreturns_modC.
  rewrite Ht, Hc. apply hreturns_modS, hreturns_ret. by rewrite bool_decide_true.
Qed.
Lemma clean_active t c s : DataIsComplete c = true -> Ended (core c) = 0 -> connActive t c = true ->
  hreturns (cleanConnection t) c s (fun _ c' s' => core c' = core c /\ firewallHandler c' = firewallHandler c /\
    (connRef c', ConnID c') = (connRef c, ConnID c) /\ s' = s).
Proof.
  intros Hc He Hact. unfold cleanConnection. apply hreturns_bind, hreturns_getC.
  destruct (t - 2 <=? Started c); [by apply hreturns_ret|]. rewrite Hc, He, Hact. cbn [negb Z.eqb]. cbv iota zeta.
  apply hreturns_bind. apply (hreturns_mono _ _ _ (fun _ c' s' => core c' = core c /\ firewallHandler c' = firewallHandler c /\
    (connRef c', ConnID c') = (connRef c, ConnID c) /\ s' = s)).
  { destruct (_ && VerdictPermanent c); [by apply hreturns_modC|by apply hreturns_ret]. }
  intros [] c1 s1 HR. by apply hreturns_ret.
Qed.
End cleaner.

(** C11. The cleaner removes dead connections and only those: a run leaves a live
    connection of the table and its handler alone; it ends one that is no longer alive and
    stops its handler; later runs keep the ended one in the table for ten minutes, and
    after that the next run removes it. *)
Theorem dead_connections_removed {IE : IntelEnv} {PE : PacketEnv} ref c s t :
  inTable ref c s -> Ended (core c) = 0 -> 0 < t -> Started c < t - 2 ->
  exists p s1 c1, withConn ref (cleanConnection t) s = Ret (p, s1) /\ inTable ref c1 s1 /\
    if connActive t c then core c1 = core c /\ firewallHandler c1 = firewallHandler c
    else Ended (core c1) = t /\ firewallHandler c1 = None /\
      forall t2, t < t2 -> exists p2 s2, withConn ref (cleanConnection t2) s1 = Ret (p2, s2) /\
        conns s2 !! ConnID c = if t2 <=? t + 600 then Some ref else None.
Proof.
  intros [H1 H2 H3 H4 H5 H6] He Ht Hst.
  assert (ref < length (heap s))%nat as Hlt by by eapply lookup_lt_Some.
  assert (forall c1 s1, heap s1 = heap s -> conns s1 = conns s -> core c1 = core c \/ core c1 = (core c) <| Ended := t |> ->
    (connRef c1, ConnID c1) = (connRef c, ConnID c) -> inTable ref c1 (s1 <| heap ::= <[ref := c1]> |>)) as Hin.
  { intros c1 s1 Eh Ec Ek [= Er Ei]. split; try congruence.
    - change (<[ref := c1]> (heap s1) !! ref = Some c1). rewrite Eh. by apply list_lookup_insert_eq.
    - change (conns s1 !! ConnID c1 = Some ref). congruence.
    - unfold DataIsComplete. by destruct Ek as [-> | ->].
    - by destruct Ek as [-> | ->].
    - by destruct Ek as [-> | ->]. }
  destruct (connActive t c) eqn:Ea.
  - destruct (withConn_returns ref _ c s _ H1 (clean_active t c s H4 He Ea)) as (p & c1 & s1 & E & E1 & E2 & E3 & ->).
    exists p. eexists _, c1. split; [exact E|]. split; [by apply Hin; auto|done].
  - assert (conns s !! ConnID c = Some (connRef c)) as H3' by congruence.
    destruct (withConn_returns ref _ c s _ H1 (clean_ends t c s H4 H5 H6 H3' He Hst Ea))
      as (p & c1 & s1 & E & E1 & E2 & E3 & E4 & E5 & E6).
    exists p. eexists _, c1. split; [exact E|]. pose proof (Hin c1 s1 E5 E6 (or_intror E1) E4) as Hc1. split; [exact Hc1|].
    rewrite E1. split; [done|]. split; [done|]. intros t2 Hlt2. destruct Hc1 as [G1 G2 G3 G4 G5 G6].
    injection E4 as Er Ei. rewrite <- Ei in *.
    destruct (withConn_returns ref _ c1 _ _ G1 (clean_removes t2 c1 _ G4 G5 ltac:(rewrite E1; simpl; lia) ltac:(lia)))
      as (p2 & c2 & s2 & F & HF).
    exists p2. eexists. split; [exact F|]. rewrite E1 in HF. unfold DeleteConnsAfterEndedThreshold in HF. simpl in HF.
    change (conns s2 !! ConnID c1 = if t2 <=? t + 600 then Some ref else None).
    destruct (Z.ltb_spec t (t2 - 600)), (Z.leb_spec t2 (t + 600)); try lia.
    + destruct HF as [_ ->]. apply lookup_delete_eq.
    + by destruct HF as [_ ->].
Qed.

(** ** The system *)

(** C7. No packet gets two verdicts: in every state the system gets to, whatever the
    order of packets, worker steps, re-evaluations, cleaning and other changes, the
    packets that were given a verdict are all different. *)
Theorem one_verdict_per_packet {IE : IntelEnv} {UT : UnicodeTables} {FE : FirewallEnv} {PE : PacketEnv} s0 s :
  initial s0 -> rtc sysStep s0 s -> NoDup (pktID <$> verdicts (events s)).
Proof.
  intros H0 Hr. destruct (reachable_ok s0 s H0 Hr) as [_ _ _ _ Hn]. unfold seen in Hn. rewrite fmap_app in Hn.
  by apply NoDup_app in Hn as (? & _ & _).
Qed.

(** C8. Packets are never lost at a queue nobody reads: in every state the system gets to,
    the object a packet finds in the table has the ID of the packet; if its queue is
    active, sending to it does not panic and the packet waits there, with a worker that
    runs, unless a hundred packets wait already and it is dropped. *)
Theorem queues_served {IE : IntelEnv} {UT : UnicodeTables} {FE : FirewallEnv} {PE : PacketEnv} g s0 s pkt ref :
  initial s0 -> rtc sysStep s0 s -> conns s !! GetConnectionID pkt = Some ref ->
  exists c, heap s !! ref = Some c /\ ConnID c = GetConnectionID pkt /\
    pktQueueActive c = match firewallHandler c with Some _ => true | None => false end /\
    (pktQueueActive c = true -> exists s' c', handlePacket g pkt s = Ret s' /\ heap s' !! ref = Some c' /\ running (worker c') /\
       if (length (pktQueue c) <? queueCap)%nat
       then pktQueue c' = pktQueue c ++ [pkt] /\ events s' = events s
       else pktQueue c' = pktQueue c /\ events s' = events s ++ [OnPacket pkt PktDrop]).
Proof.
  intros H0 Hr Hc. destruct (reachable_ok s0 s H0 Hr) as [Hh Hcs _ _ _]. destruct (Hcs _ _ Hc) as (c & Hl & Hid).
  exists c. destruct (Hh ref c Hl) as (Href & [Ga Gs Go] & Hq). split_and!; try done. intros Ha. destruct (Go Ha) as [Hcl Hrun].
  assert (ref < length (heap s))%nat as Hlt by by eapply lookup_lt_Some.
  unfold handlePacket, withConn, HandlePacket, mbind, H_bind, outcome_bind, getS, getC, modC, emit, modS. rewrite Hc, Hl. simpl. rewrite Ha, Hcl.
  destruct (length (pktQueue c) <? queueCap)%nat; eexists _, _; (split; [reflexivity|]); (split; [by apply list_lookup_insert_eq|done]).
Qed.

(** Every connection is counted once: in every state the system gets to, the
    counters of connections add up, modulo their width, to the number of connections
    that are marked as counted, over all the changes of verdicts. *)
Theorem metrics_count_connections {IE : IntelEnv} {UT : UnicodeTables} {FE : FirewallEnv} {PE : PacketEnv} s0 s :
  initial s0 -> rtc sysStep s0 s ->
  metricsTotal s = u64 (Z.of_nat (length (filter (fun c => addedToMetrics c = true) (heap s)))).
Proof.
  intros H0 Hr. destruct (reachable_ok s0 s H0 Hr) as [_ _ _ -> _]. f_equal. induction (heap s) as [|c l IH]; [done|].
  simpl. rewrite IH, filter_cons. destruct (addedToMetrics c); simpl; [|done]. lia.
Qed.

(** ** Witnesses *)
Lemma connection_id_identifies_witness :
  let i := mkInfo false 4 6 5000 443 [10; 0; 0; 1] [5; 6; 7; 8] 100 1000 in
  let j := mkInfo true 4 6 443 5000 (v4InV6Prefix ++ [5; 6; 7; 8]) [10; 0; 0; 1] 100 1000 in
  InfoConnectionID i = InfoConnectionID j /\ InfoConnectionID i = $"6-10.0.0.1-5000-5.6.7.8-443".
Proof.
  intros i j. split; [|vm_compute; reflexivity].
  assert (forall ip : IP, forallb (fun b => (0 <=? b) && (b <? 256)) ip && (Nat.eqb (length ip) 4 || Nat.eqb (length ip) 16) = true ->
    wellFormedIP ip) as Hw.
  { intros ip [H1 H2]%andb_true_iff. split.
    - apply Forall_forall. intros b Hb. rewrite forallb_forall in H1. apply list_elem_of_In in Hb. apply H1 in Hb. unfold isByte. lia.
    - apply orb_true_iff in H2 as [H2|H2]; apply Nat.eqb_eq in H2; auto. }
  apply (connection_id_identifies i j); [| |vm_compute; reflexivity]; split; simpl; try lia; split; apply Hw; vm_compute; reflexivity.
Defined.

Module ConnDemo.
Definition conn : Conn := (PacketDemo.conn FilterHandler (PacketDemo.core_ ∅)) <| BandwidthEnabled := true |>.
Definition id : str := ConnID conn.
Definition updates : list BandwidthUpdate := [mkBW id 100 50 Absolute; mkBW id 5 5 Additive; mkBW id 0 0 Absolute; mkBW id 20 80 Absolute].
Definition s0 : Sys := mkSys 1000 [] ∅ ∅ ∅ ∅ ∅ None false ∅ (mkStats 0 0 0 0) (mkMetrics 0 0 0 0 0) [].
Definition ret (o : outcome str Sys) : Sys := match o with Ret s => s | _ => s0 end.
Section states.
#[local] Existing Instances Demo.env FirewallDemo.unicode FirewallDemo.env PacketDemo.env.
(** A ping arrives; its worker starts and handles it. *)
Definition s1 : Sys := ret (handlePacket PacketDemo.cfg (PacketDemo.ping 1) s0).
Definition work (s : Sys) : Sys :=
  match withConn 0 (workerStep PacketDemo.cfg Take) s with Ret (_, s) => s | _ => s0 end.
Definition s3 : Sys := work (work s1).
End states.
End ConnDemo.
#[local] Existing Instances Demo.env FirewallDemo.unicode FirewallDemo.env PacketDemo.env.

Lemma bandwidth_conserved_witness :
  exists c' s' l, updateAll ConnDemo.updates (PacketDemo.sys ConnDemo.conn) = Ret s' /\ heap s' !! 0%nat = Some c' /\
    events s' = l /\ BytesReceived c' = u64 (0 + (storedTotal ConnDemo.id l).1).
Proof.
  destruct (bandwidth_conserved ConnDemo.id 0 ConnDemo.conn (PacketDemo.sys ConnDemo.conn) ConnDemo.updates)
    as (c' & s' & l & H1 & H2 & H3 & H4 & _).
  - split; try (vm_compute; reflexivity); [by eexists|simpl; lia].
  - repeat (apply Forall_cons_2; [split; [reflexivity|split; [discriminate|simpl; lia]]|]). apply Forall_nil_2.
  - exists c', s', l. split; [exact H1|]. split; [exact H2|]. split; [exact H3|exact H4].
Defined.

Lemma dead_connections_removed_witness :
  let s := PacketDemo.sys ConnDemo.conn in
  exists p s1, withConn 0 (cleanConnection 2000) s = Ret (p, s1) /\
    exists p2 s2, withConn 0 (cleanConnection 2601) s1 = Ret (p2, s2) /\ conns s2 !! ConnDemo.id = None.
Proof.
  intros s. destruct (dead_connections_removed 0 ConnDemo.conn s 2000) as (p & s1 & c1 & H1 & _ & H2).
  - split; try reflexivity. by eexists.
  - reflexivity.
  - lia.
  - simpl. lia.
  - exists p, s1. split; [exact H1|]. destruct H2 as (_ & _ & H2). exact (H2 2601 ltac:(lia)).
Defined.

Lemma demo_steps : rtc sysStep ConnDemo.s0 ConnDemo.s1 /\ rtc sysStep ConnDemo.s0 ConnDemo.s3.
Proof.
  assert (sysStep ConnDemo.s0 ConnDemo.s1) as H1.
  { apply (StepPacket PacketDemo.cfg (PacketDemo.ping 1)); [apply not_elem_of_nil|vm_compute; reflexivity]. }
  assert (sysStep ConnDemo.s1 (ConnDemo.work ConnDemo.s1)) as H2.
  { apply (StepWorker PacketDemo.cfg 0 Take tt). vm_compute. reflexivity. }
  assert (sysStep (ConnDemo.work ConnDemo.s1) ConnDemo.s3) as H3.
  { apply (StepWorker PacketDemo.cfg 0 Take tt). vm_compute. reflexivity. }
  split; [by apply rtc_once|]. eapply rtc_l; [exact H1|]. eapply rtc_l; [exact H2|]. by apply rtc_once.
Qed.
Lemma demo_initial : initial ConnDemo.s0.
Proof. by split_and!. Qed.

Lemma one_verdict_per_packet_witness :
  pktEvents (events ConnDemo.s3) = [(PacketDemo.ping 1, PktBlock)] /\ NoDup (pktID <$> verdicts (events ConnDemo.s3)).
Proof.
  split; [vm_compute; reflexivity|]. exact (one_verdict_per_packet ConnDemo.s0 ConnDemo.s3 demo_initial (proj2 demo_steps)).
Defined.
Lemma queues_served_witness :
  exists c s' c', heap ConnDemo.s1 !! 0%nat = Some c /\ handlePacket PacketDemo.cfg (PacketDemo.ping 2) ConnDemo.s1 = Ret s' /\
    heap s' !! 0%nat = Some c' /\ running (worker c').
Proof.
  destruct (queues_served PacketDemo.cfg ConnDemo.s0 ConnDemo.s1 (PacketDemo.ping 2) 0 demo_initial (proj1 demo_steps))
    as (c & H1 & _ & H2 & H3); [vm_compute; reflexivity|].
  assert (pktQueueActive <$> (heap ConnDemo.s1 !! 0%nat) = Some true) as Ha by (vm_compute; reflexivity).
  rewrite H1 in Ha. injection Ha as Ha. destruct (H3 Ha) as (s' & c' & H4 & H5 & H6 & _).
  exists c, s', c'. split; [exact H1|]. split; [exact H4|]. split; [exact H5|exact H6].
Defined.
Lemma metrics_count_connections_witness :
  metricsTotal ConnDemo.s3 = 1 /\
  metricsTotal ConnDemo.s3 = u64 (Z.of_nat (length (filter (fun c => addedToMetrics c = true) (heap ConnDemo.s3)))).
Proof.
  split; [vm_compute; reflexivity|]. exact (metrics_count_connections ConnDemo.s0 ConnDemo.s3 demo_initial (proj2 demo_steps)).
Defined.
