(* ===== verification/SpnWire.v ===== *)
(** * Messages of the SPN (spn/terminal: errors.go, msg.go, msgtypes.go, permission.go)

    What terminals, operations and cranes send each other: messages with their header,
    and error codes.  A container is the list of its bytes; its reading functions and the
    varint package are third-party, with their documented behaviour as laws. *)

From S2P Require Import Prelude Varint.

(** ** Reading numbers from containers *)

(** Unpacking tells a buffer that ends within an encoding from other errors; the size of
    an encoding can be asked for. *)
Inductive VarintErr := ErrBufTooSmall | ErrVarint.

Class VarintSize := {
  EncodedSize : Z -> nat;
  BufTooSmall : bytes -> bool;
}.

Class WireLaws (V : Varint) (S : VarintSize) := {
  unpack8_pack8 n rest : 0 <= n < 2 ^ 8 -> Unpack8 (Pack8 n ++ rest) = Some (n, length (Pack8 n));
  unpack32_pack32 n rest : 0 <= n < 2 ^ 32 -> Unpack32 (take 5 (Pack32 n ++ rest)) = Some (n, length (Pack32 n));
  unpack32_pack64 n rest : 0 <= n < 2 ^ 32 -> Unpack32 (take 5 (Pack64 n ++ rest)) = Some (n, length (Pack64 n));
  unpack64_full n k rest : 0 <= n < 2 ^ 64 -> (length (Pack64 n) <= k)%nat ->
    Unpack64 (take k (Pack64 n ++ rest)) = Some (n, length (Pack64 n));
  unpack64_cut n k rest : 0 <= n < 2 ^ 64 -> (k < length (Pack64 n))%nat -> Unpack64 (take k (Pack64 n ++ rest)) = None;
  unpack32_cut n k : 0 <= n < 2 ^ 32 -> (k < length (Pack64 n))%nat ->
    Unpack32 (take 5 (take k (Pack64 n))) = None /\ BufTooSmall (take 5 (take k (Pack64 n))) = true;
  unpack32_zero b : Unpack32 (take 5 (0 :: b)) = Some (0, 1%nat);
  unpack32_range b n k : Unpack32 b = Some (n, k) -> 0 <= n < 2 ^ 32 /\ (0 < k <= length b)%nat;
  unpack64_bounds b n k : Unpack64 b = Some (n, k) -> 0 <= n < 2 ^ 64 /\ (0 < k <= length b)%nat;
  encodedSize_spec n : 0 <= n < 2 ^ 64 -> EncodedSize n = length (Pack64 n);
  pack8_length n : 0 <= n < 2 ^ 8 -> (1 <= length (Pack8 n) <= 2)%nat;
  pack64_one n : 0 <= n < 2 ^ 64 -> (1 <= length (Pack64 n))%nat;
  (** Two bytes hold fourteen bits. *)
  pack64_two n : 0 <= n < 2 ^ 64 -> (length (Pack64 n) <= 2)%nat <-> n < 2 ^ 14;
}.

Section wire.
Context {V : Varint} {VS : VarintSize}.

(** [GetNextN32] and [GetNextN8] of a container; nothing is read if there is an error. *)
Definition GetNextN32 (c : bytes) : (Z * bytes) + VarintErr :=
  match Unpack32 (take 5 c) with
  | Some (n, k) => inl (n, drop k c)
  | None => inr (if BufTooSmall (take 5 c) then ErrBufTooSmall else ErrVarint)
  end.
Definition GetNextN8 (c : bytes) : option (Z * bytes) :=
  match Unpack8 (take 2 c) with Some (n, k) => Some (n, drop k c) | None => None end.
(** [GetAsContainer(n)]: the next [n] bytes, an error if there are not as many. *)
Definition GetAsContainer (n : nat) (c : bytes) : option (bytes * bytes) :=
  if (n <=? length c)%nat then Some (take n c, drop n c) else None.
(** [GetNextBlock]: bytes with their length before them. *)
Definition GetNextBlock (c : bytes) : option (bytes * bytes) :=
  match Unpack64 (take 10 c) with
  | Some (n, k) => GetAsContainer (Z.to_nat n) (drop k c)
  | None => None
  end.
Definition PrependLength (c : bytes) : bytes := Pack64 (Z.of_nat (length c)) ++ c.

(** ** Message types (msgtypes.go) *)
Definition MsgTypePriorityData : Z := 0.
Definition MsgTypeInit : Z := 1.
Definition MsgTypeData : Z := 2.
Definition MsgTypeStop : Z := 3.

Definition AddIDType (c : bytes) (id msgType : Z) : bytes := Pack32 (Z.lor id msgType) ++ c.
Definition MakeMsg (c : bytes) (id msgType : Z) : bytes := PrependLength (AddIDType c id msgType).
Definition ParseIDType (c : bytes) : option (Z * Z * bytes) :=
  match GetNextN32 c with
  | inl (idType, c) => let msgType := idType mod 4 in Some (u32 (idType - msgType), msgType, c)
  | inr _ => None
  end.

(** ** Messages (msg.go)

    Of the scheduling unit only the mark of high priority is kept. *)
Record TMsg := mkTMsg { FlowID : Z; MType : Z; MData : bytes; MHighPriority : bool }.
#[export] Instance eta_TMsg : Eta TMsg := fun m => mkTMsg (FlowID m) (MType m) (MData m) (MHighPriority m).
#[export] Instance TMsg_eq_dec : EqDecision TMsg.
Proof. solve_decision. Defined.

Definition NewMsg (data : bytes) : TMsg := mkTMsg 0 MsgTypeData data false.
Definition PackMsg (m : TMsg) : TMsg := m <| MData := MakeMsg (MData m) (FlowID m) (MType m) |>.
(** [msg.Consume(other)]: both messages afterwards. *)
Definition Consume (m other : TMsg) : TMsg * TMsg :=
  let other := PackMsg other in
  (m <| MData ::= fun d => d ++ MData other |> <| MHighPriority := MHighPriority m || MHighPriority other |>, other).

(** ** Errors (errors.go)

    An error is its ID and whether it came from outside; [None] is nil.  The texts are
    left out; no error without one is made. *)
Record TErr := mkTErr { errID : Z; external : bool }.
#[export] Instance eta_TErr : Eta TErr := fun e => mkTErr (errID e) (external e).
#[export] Instance TErr_eq_dec : EqDecision TErr.
Proof. solve_decision. Defined.

(** The IDs in the order of their registration; a second error of an ID panics. *)
Definition registerError (id : Z) (reg : list Z) : outcome unit (TErr * list Z) :=
  if existsb (Z.eqb id) reg then Panic else Ret (mkTErr id false, reg ++ [id]).
Fixpoint registerAll (ids reg : list Z) : outcome unit (list Z) :=
  match ids with
  | [] => Ret reg
  | id :: ids => '(_, reg) ← registerError id reg; registerAll ids reg
  end.
Definition terminalErrors : list Z :=
  [0; 2; 3; 4; 8; 9; 10; 11; 12; 13; 14; 15; 16; 24; 22; 62; 93; 101; 102; 108; 113; 114; 121; 122; 125].
Definition errorRegistry : list Z := match registerAll terminalErrors [] with Ret reg => reg | _ => [] end.

Definition ErrUnknownError := mkTErr 0 false.
Definition ErrStopping := mkTErr 2 false.
Definition ErrNoActivity := mkTErr 4 false.
Definition ErrInternalError := mkTErr 8 false.
Definition ErrMalformedData := mkTErr 9 false.
Definition ErrUnexpectedMsgType := mkTErr 10 false.
Definition ErrUnknownOperationType := mkTErr 11 false.
Definition ErrUnknownOperationID := mkTErr 12 false.
Definition ErrPermissionDenied := mkTErr 13 false.
Definition ErrIntegrity := mkTErr 14 false.
Definition ErrRateLimited := mkTErr 24 false.
Definition ErrIncorrectUsage := mkTErr 22 false.
Definition ErrTimeout := mkTErr 62 false.
Definition ErrAbandonedTerminal := mkTErr 102 false.
Definition ErrShipSunk := mkTErr 108 false.
Definition ErrQueueOverflow := mkTErr 122 false.
Definition ErrCanceled := mkTErr 125 false.

Definition IsExternal (e : option TErr) : bool := match e with Some e => external e | None => false end.
Definition ErrIs (e : option TErr) (target : TErr) : bool := match e with Some e => errID e =? errID target | None => false end.
Definition IsError (e : option TErr) : bool := match e with Some e => (errID e =? 0) || (8 <=? errID e) | None => false end.
Definition IsOK (e : option TErr) : bool := negb (IsError e).
(** [With] and [Wrap] make an internal error of the ID. *)
Definition With (e : TErr) : TErr := mkTErr (errID e) false.
Definition Wrap (e : option TErr) : option TErr := With <$> e.
Definition AsExternal (e : TErr) : TErr := mkTErr (errID e) true.
Definition PackErr (e : option TErr) : bytes := match e with Some e => Pack8 (u8 (errID e)) | None => [] end.
Definition NewExternalError (id : Z) : TErr := AsExternal (if existsb (Z.eqb id) errorRegistry then mkTErr id false else ErrUnknownError).
Definition ParseExternalError (id : bytes) : option TErr :=
  match id with
  | [] => Some (AsExternal ErrStopping)
  | _ => match Unpack8 id with Some (parsedID, _) => Some (NewExternalError parsedID) | None => None end
  end.

(** ** Permissions (permission.go) *)
Definition IsCraneController : Z := 32768.
Definition Has (p required : Z) : bool := Z.land p required =? required.
Definition AddPermissions (perms : list Z) : Z := foldl Z.lor 0 perms.
End wire.

(** ** Encryption (third-party package jess)

    A session encrypts letters for the other end and opens its letters; both change it. *)
Class Jess := {
  Session : Type;
  Letter : Type;
  Identity : Type;
  Close : Session -> bytes -> option (Letter * Session);
  ToWire : Letter -> option bytes;
  LetterFromWire : bytes -> option Letter;
  WireCorrespondence : Letter -> Identity -> option Session;
  Open : Session -> Letter -> option (bytes * Session);
}.

(** Sealing and opening as the crane and terminals do it; [Err] carries what failed. *)
Inductive SealErr := SealClose | SealWire.
Inductive OpenErr := OpenLetter | OpenLetterData.
Definition seal {J : Jess} (s : Session) (d : bytes) : (bytes * Session) + SealErr :=
  match Close s d with
  | None => inr SealClose
  | Some (l, s) => match ToWire l with Some w => inl (w, s) | None => inr SealWire end
  end.
Definition unseal {J : Jess} (s : Session) (w : bytes) : (bytes * Session) + OpenErr :=
  match LetterFromWire w with
  | None => inr OpenLetter
  | Some l => match Open s l with Some r => inl r | None => inr OpenLetterData end
  end.

(** What encryption promises: sealing changes the sending side of a session, opening the
    receiving side; the receiving side that is linked to a sending side opens what that
    one sealed, in order; and sealed data is at most 25 bytes longer and not empty. *)
Class JessLaws (J : Jess) {Snd Rcv : Type} (sendOf : Session -> Snd) (recvOf : Session -> Rcv) (linked : Snd -> Rcv -> Prop) := {
  sealed s r d w s' : linked (sendOf s) (recvOf r) -> seal s d = inl (w, s') ->
    exists r', unseal r w = inl (d, r') /\ linked (sendOf s') (recvOf r');
  seal_recv s d w s' : seal s d = inl (w, s') -> recvOf s' = recvOf s;
  unseal_send r w d r' : unseal r w = inl (d, r') -> sendOf r' = sendOf r;
  seal_overhead s d w s' : seal s d = inl (w, s') -> (0 < length w <= length d + 25)%nat;
}.

Lemma Forall_snoc {A} (P : A -> Prop) l x : Forall P l -> P x -> Forall P (l ++ [x]).
Proof. intros. apply Forall_app. auto. Qed.

Lemma delete_insert_same {A} (l : list A) i x : delete i (<[i := x]> l) = delete i l.
Proof. revert i. induction l as [|y l IH]; intros [|i]; simpl; try done. f_equal. apply IH. Qed.
Lemma insert_Permutation {A} (l : list A) i x y : l !! i = Some x -> <[i := y]> l ≡ₚ y :: delete i l.
Proof.
  intros H. rewrite (delete_Permutation (<[i := y]> l) i y) by (apply list_lookup_insert_eq; by eapply lookup_lt_Some).
  by rewrite delete_insert_same.
Qed.

(** ** The wire format *)
Section wire_facts.
Context {V : Varint} {VS : VarintSize} {WL : WireLaws V VS}.

Lemma GetNextN32_pack64 n rest : 0 <= n < 2 ^ 32 -> GetNextN32 (Pack64 n ++ rest) = inl (n, rest).
Proof. intros H. unfold GetNextN32. rewrite unpack32_pack64 by done. by rewrite drop_app_length. Qed.
Lemma GetNextN32_pack32 n rest : 0 <= n < 2 ^ 32 -> GetNextN32 (Pack32 n ++ rest) = inl (n, rest).
Proof. intros H. unfold GetNextN32. rewrite unpack32_pack32 by done. by rewrite drop_app_length. Qed.
Lemma GetNextN32_zero rest : GetNextN32 (0 :: rest) = inl (0, rest).
Proof. unfold GetNextN32. by rewrite unpack32_zero. Qed.
Lemma GetNextN32_cut n k : 0 <= n < 2 ^ 32 -> (k < length (Pack64 n))%nat -> GetNextN32 (take k (Pack64 n)) = inr ErrBufTooSmall.
Proof. intros H Hk. unfold GetNextN32. by destruct (unpack32_cut n k H Hk) as [-> ->]. Qed.
Lemma GetNextN32_shorter c n r : GetNextN32 c = inl (n, r) -> 0 <= n < 2 ^ 32 /\ (length r < length c)%nat.
Proof.
  unfold GetNextN32. destruct (Unpack32 (take 5 c)) as [[m k]|] eqn:E; [|done]. intros [= <- <-].
  apply unpack32_range in E as [Hm Hk]. rewrite length_take in Hk. split; [done|]. rewrite length_drop. lia.
Qed.

Lemma lor_flow id t : id mod 4 = 0 -> 0 <= t < 4 -> Z.lor id t = id + t.
Proof.
  intros Hid Ht. rewrite <- Z.add_lor_land. enough (Z.land id t = 0) as ->; [lia|].
  apply Z.bits_inj'. intros n Hn. rewrite Z.land_spec, Z.bits_0.
  destruct (decide (n < 2)).
  - assert (id = (id / 4) * 2 ^ 2) as -> by (pose proof (Z.div_mod id 4); lia). by rewrite Z.mul_pow2_bits_low by lia.
  - rewrite (Z.bits_above_log2 t n), andb_false_r; [done|lia|].
    destruct (decide (t = 0)) as [->|]; [simpl; lia|].
    apply Z.log2_lt_pow2; [lia|]. eapply Z.lt_le_trans; [apply Ht|]. change 4 with (2 ^ 2). apply Z.pow_le_mono_r; lia.
Qed.

(** IDs of flows are 32-bit multiples of four, so that they leave the lowest two bits to
    the type. *)
Definition flowOk (id : Z) : Prop := 0 <= id < 2 ^ 32 /\ id mod 4 = 0.
Definition msgOk (m : TMsg) : Prop := flowOk (FlowID m) /\ 0 <= MType m < 4.

Lemma flow_sum id t : flowOk id -> 0 <= t < 4 -> 0 <= id + t < 2 ^ 32 /\ (id + t) mod 4 = t.
Proof.
  intros [Hid Hm] Ht. pose proof (Z.div_mod id 4 ltac:(lia)) as E. rewrite Hm in E.
  rewrite E, Z.add_0_r, Z.mul_comm, Z.add_comm, Z.mod_add, Z.mod_small by lia. lia.
Qed.

Lemma ParseIDType_Add c id t : flowOk id -> 0 <= t < 4 -> ParseIDType (AddIDType c id t) = Some (id, t, c).
Proof.
  intros Hid Ht. destruct (flow_sum id t Hid Ht) as [Hr Hm]. unfold ParseIDType, AddIDType.
  rewrite lor_flow by (done || apply Hid). rewrite GetNextN32_pack32 by done. rewrite Hm.
  replace (id + t - t) with id by lia. by rewrite u32_id by apply Hid.
Qed.

Lemma ParseIDType_flow s id t d : ParseIDType s = Some (id, t, d) -> flowOk id.
Proof.
  unfold ParseIDType. destruct (GetNextN32 s) as [[n r]|] eqn:E; [|done]. intros [= <- <- <-].
  apply GetNextN32_shorter in E as [Hn _]. pose proof (Z.div_mod n 4 ltac:(lia)). pose proof (Z.mod_pos_bound n 4 ltac:(lia)).
  rewrite u32_id by lia. split; [lia|]. replace (n - n mod 4) with (n / 4 * 4) by lia. apply Z.mod_mul. lia.
Qed.

(** The bytes of messages one after the other. *)
Definition body (m : TMsg) : bytes := AddIDType (MData m) (FlowID m) (MType m).
Definition packed (m : TMsg) : bytes := MakeMsg (MData m) (FlowID m) (MType m).
Definition seg (m : TMsg) : Z * Z * bytes := (FlowID m, MType m, MData m).
Definition stream (ms : list TMsg) : bytes := ms ≫= packed.
Lemma packed_body m : packed m = Pack64 (Z.of_nat (length (body m))) ++ body m.
Proof. reflexivity. Qed.
Lemma stream_app l k : stream (l ++ k) = stream l ++ stream k.
Proof. apply bind_app. Qed.

(** The errors are registered without a clash, and every registered error survives being
    sent, but for its text and for the mark of its origin. *)
Lemma errors_register : registerAll terminalErrors [] = Ret terminalErrors.
Proof. reflexivity. Qed.

Lemma error_roundtrip e : errID e ∈ errorRegistry -> ParseExternalError (PackErr (Some e)) = Some (AsExternal e).
Proof.
  intros Hin. assert (0 <= errID e < 2 ^ 8).
  { revert Hin. generalize (errID e). intros z Hz. assert (Forall (fun z => 0 <= z < 2 ^ 8) errorRegistry) as HF by (repeat constructor; lia).
    by eapply (proj1 (Forall_forall _ _)) in HF. }
  pose proof (unpack8_pack8 (errID e) [] H) as Hu. pose proof (pack8_length (errID e) H). rewrite app_nil_r in Hu.
  assert (u8 (errID e) = errID e) as E8 by (by apply Z.mod_small). cbn [PackErr]. rewrite E8.
  unfold ParseExternalError. destruct (Pack8 (errID e)) as [|b l]; [simpl in *; lia|]. rewrite Hu. unfold NewExternalError.
  enough (existsb (Z.eqb (errID e)) errorRegistry = true) as -> by done.
  apply existsb_exists. exists (errID e). split; [by apply list_elem_of_In|apply Z.eqb_refl].
Qed.
End wire_facts.

(** ** LEB128 *)
Definition lebSize : VarintSize := {|
  EncodedSize n := length (Leb.pack n);
  BufTooSmall b := match Leb.dec b with Some _ => false | None => true end;
|}.

Lemma leb_dec_cut fuel n k : (k < length (Leb.enc fuel n))%nat -> Leb.dec (take k (Leb.enc fuel n)) = None.
Proof.
  revert n k. induction fuel as [|fuel IH]; intros n [|k]; simpl; try done; [intros; lia|].
  destruct (n <? 128) eqn:E; simpl; [lia|]. intros Hk. pose proof (Z.mod_pos_bound n 128).
  rewrite IH by lia. destruct (n mod 128 + 128 <? 128) eqn:E2; bool_prop; [lia|done].
Qed.
Lemma leb_cut n k rest : (k < length (Leb.pack n))%nat -> Leb.dec (take k (Leb.pack n ++ rest)) = None.
Proof. intros Hk. rewrite take_app_le by lia. by apply leb_dec_cut. Qed.
Lemma leb_length_pos n : (1 <= length (Leb.pack n))%nat.
Proof. unfold Leb.pack. simpl. destruct (n <? 128); simpl; lia. Qed.
Lemma leb_length_two n : 0 <= n -> (length (Leb.pack n) <= 2)%nat <-> n < 2 ^ 14.
Proof.
  intros Hn. unfold Leb.pack. cbn [Leb.enc]. pose proof (Z.div_mod n 128 ltac:(lia)). pose proof (Z.mod_pos_bound n 128 ltac:(lia)).
  destruct (n <? 128) eqn:E1; bool_prop; simpl; [lia|].
  destruct (n / 128 <? 128) eqn:E2; bool_prop; simpl; [lia|].
  destruct (n / 128 / 128 <? 128); simpl; lia.
Qed.
Lemma leb_unpack_full w n b k : 0 <= w -> 2 ^ w <= 128 ^ 10 -> 0 <= n < 2 ^ w -> (length (Leb.pack n) <= k)%nat ->
  Leb.unpack w (take k (Leb.pack n ++ b)) = Some (n, length (Leb.pack n)).
Proof.
  intros Hw Hw2 Hn Hk. rewrite take_app_ge by done. unfold Leb.unpack, Leb.pack. rewrite Leb.dec_enc.
  - destruct (n <? 2 ^ w) eqn:E; [done|]. bool_prop. lia.
  - split; [lia|]. eapply Z.lt_le_trans; [apply Hn|]. done.
Qed.

Lemma leb_wire_laws : WireLaws leb128 lebSize.
Proof.
  assert (forall n k, 0 <= n < 2 ^ 32 -> (k < length (Leb.pack n))%nat -> (length (take k (Leb.pack n)) <= 5)%nat) as Hlen.
  { intros n k Hn Hk. rewrite length_take. pose proof (Leb.length_enc_le 9 4 n ltac:(simpl; lia) ltac:(lia)).
    unfold Leb.pack in *. lia. }
  constructor; cbn [Pack8 Pack32 Pack64 Unpack8 Unpack16 Unpack32 Unpack64 leb128 EncodedSize BufTooSmall lebSize].
  - intros n rest Hn. pose proof (leb_unpack_full 8 n rest (length (Leb.pack n ++ rest))) as H. rewrite take_ge in H by done.
    apply H; [lia|by vm_compute|done|]. rewrite length_app. lia.
  - intros n rest Hn. apply (Leb.unpack_pack 32 4); simpl; lia.
  - intros n rest Hn. apply (Leb.unpack_pack 32 4); simpl; lia.
  - intros n k rest Hn Hk. by apply leb_unpack_full.
  - intros n k rest Hn Hk. unfold Leb.unpack. by rewrite leb_cut.
  - intros n k Hn Hk. rewrite (take_ge (take k _) 5) by (apply Hlen; [exact Hn|exact Hk]). unfold Leb.unpack.
    pose proof (leb_cut n k [] Hk) as E. rewrite app_nil_r in E. by rewrite E.
  - intros b. by destruct b as [|? [|? [|? [|? b]]]].
  - intros b n k H. by apply Leb.unpack_range in H.
  - intros b n k H. by apply Leb.unpack_range in H.
  - done.
  - intros n Hn. split; [apply leb_length_pos|]. apply leb_length_two; lia.
  - intros. apply leb_length_pos.
  - intros n Hn. apply leb_length_two. lia.
Qed.

(** ** A simple cipher

    It adds the number of the letter to every byte. *)
Module Caesar.
#[export] Existing Instances leb128 lebSize.
#[export] Instance caesar : Jess := {|
  Session := Z * Z; Letter := bytes; Identity := unit;
  Close s d := Some (Z.add s.1 <$> d, (s.1 + 1, s.2));
  ToWire l := Some (7 :: l);
  LetterFromWire w := match w with 7 :: l => Some l | _ => None end;
  WireCorrespondence _ _ := Some (0, 0);
  Open s l := Some ((fun x => x - s.2) <$> l, (s.1, s.2 + 1));
|}.
Definition sendOf (s : Session) : Z := s.1.
Definition recvOf (s : Session) : Z := s.2.
Lemma caesar_laws : JessLaws caesar sendOf recvOf eq.
Proof.
  split.
  - intros [s1 s2] [r1 r2] d w s' [= ->]. unfold seal, unseal. simpl. intros [= <- <-]. exists (r1, r2 + 1). split; [|done].
    do 2 f_equal. rewrite <- list_fmap_compose. rewrite <- (list_fmap_id d) at 2. apply list_fmap_ext. intros i x _. simpl. lia.
  - by intros [s1 s2] d w s' [= <- <-].
  - intros [r1 r2] w d r'. unfold unseal. simpl. destruct w as [|x w]; [done|]. intros H. repeat case_step; try done. by simplify_eq/=.
  - intros [s1 s2] d w s' [= <- <-]. simpl. rewrite length_fmap. lia.
Qed.
End Caesar.
