(* ===== verification/SpnSession.v ===== *)
(** * Sessions (spn/terminal/session.go)

    The limits a terminal puts on the operations of its peer.  Calls run concurrently: a
    [sessionStep] is one access of a call to an atomic counter or to the pool, or time
    that passes. *)

From S2P Require Import Prelude Varint FlowQueue SpnWire.

Definition rateLimitMinOps : Z := 250.
Definition rateLimitMaxOpsPerSecond : Z := 5.
Definition rateLimitMinSuspicion : Z := 25.
Definition rateLimitMinPermaSuspicion : Z := rateLimitMinSuspicion * 100.
Definition rateLimitMaxSuspicionPerSecond : Z := 1.
Definition concurrencyPoolSize : nat := 30.

(** Where a call of [RateLimit] is; it knows the seconds it has read. *)
Inductive LimitPC :=
| RLScore (secondsActive : Z)                  (* about to load the suspicion score *)
| RLOps (secondsActive score : Z)              (* about to load the operation count *)
| RLSuspect                                    (* about to add itself to the score *)
| RLCount (secondsActive : Z)                  (* about to count the operation *)
| RLDone (err : option TErr) (count : option Z).
(** Where a call of [LimitConcurrency] is. *)
Inductive PoolPC := CWaiting | CRunning | CDraining | CDone (ctxErr : bool).

Record Session := mkSession {
  started : Z; opCount : Z; suspicionScore : Z; concurrencyPool : nat;
  now : Z; calls : list LimitPC; guests : list PoolPC; drainFailed : bool;
}.
#[export] Instance eta_Session : Eta Session := fun s =>
  mkSession (started s) (opCount s) (suspicionScore s) (concurrencyPool s) (now s) (calls s) (guests s) (drainFailed s).

Definition NewSession (now : Z) : Session := mkSession (now - 1) 0 0 0 now [] [] false.

(** The score is compared first; then, with a division that panics by zero, the score per
    second, and the permanent limit. *)
Definition checkScore (secondsActive score : Z) : outcome unit LimitPC :=
  if score <=? rateLimitMinSuspicion then Ret (RLCount secondsActive) else
  if secondsActive =? 0 then Panic else
  if rateLimitMaxSuspicionPerSecond <=? Z.quot score secondsActive then Ret RLSuspect else
  if rateLimitMinPermaSuspicion <? score then Ret (RLOps secondsActive score) else Ret (RLCount secondsActive).
Definition checkOps (secondsActive score opCount : Z) : LimitPC :=
  if opCount * 4 <? score * 5 then RLDone (Some ErrRateLimited) None else RLCount secondsActive.
Definition checkCount (secondsActive count : Z) : outcome unit LimitPC :=
  if count <=? rateLimitMinOps then Ret (RLDone None (Some count)) else
  if secondsActive =? 0 then Panic else
  if rateLimitMaxOpsPerSecond <=? Z.quot count secondsActive then Ret (RLDone (Some ErrRateLimited) (Some count))
  else Ret (RLDone None (Some count)).

(** The next access of a call. *)
Definition limitStep (pc : LimitPC) (s : Session) : option (outcome unit (LimitPC * Session)) :=
  match pc with
  | RLScore secs => Some (pc ← checkScore secs (suspicionScore s); Ret (pc, s))
  | RLOps secs score => Some (Ret (checkOps secs score (opCount s), s))
  | RLSuspect => Some (Ret (RLDone (Some ErrRateLimited) None, s <| suspicionScore ::= Z.succ |>))
  | RLCount secs =>
      let count := opCount s + 1 in
      Some (pc ← checkCount secs count; Ret (pc, s <| opCount := count |>))
  | RLDone _ _ => None
  end.
(** The next step of a call of [LimitConcurrency]: it enters the pool, or gives up if its
    context is done; it runs; it leaves. *)
Definition poolStep (pc : PoolPC) (canceled : bool) (s : Session) : option (PoolPC * Session) :=
  match pc with
  | CWaiting =>
      if canceled then Some (CDone true, s)
      else if (concurrencyPool s <? concurrencyPoolSize)%nat then Some (CRunning, s <| concurrencyPool ::= S |>) else None
  | CRunning => Some (CDraining, s)
  | CDraining =>
      match concurrencyPool s with
      | O => Some (CDone false, s <| drainFailed := true |>)
      | S n => Some (CDone false, s <| concurrencyPool := n |>)
      end
  | CDone _ => None
  end.

Definition ReportSuspiciousActivity (factor : Z) (s : Session) : Session := s <| suspicionScore ::= Z.add factor |>.

Inductive SessionAction :=
| STick (seconds : Z) | SReport (factor : Z) | SRateLimit | SLimitStep (i : nat) | SConcurrency | SPoolStep (i : nat) (canceled : bool).
Definition sessionStep (a : SessionAction) (s : Session) : option (outcome unit Session) :=
  match a with
  | STick n => if 0 <=? n then Some (Ret (s <| now ::= Z.add n |>)) else None
  | SReport factor => Some (Ret (ReportSuspiciousActivity factor s))
  | SRateLimit => Some (Ret (s <| calls ::= fun l => l ++ [RLScore (now s - started s)] |>))
  | SLimitStep i =>
      pc ← calls s !! i; r ← limitStep pc s;
      Some ('(pc, s) ← r; Ret (s <| calls ::= <[i := pc]> |>))
  | SConcurrency => Some (Ret (s <| guests ::= fun l => l ++ [CWaiting] |>))
  | SPoolStep i canceled =>
      pc ← guests s !! i; '(pc, s) ← poolStep pc canceled s;
      Some (Ret (s <| guests ::= <[i := pc]> |>))
  end.
Definition sStep (s s' : Session) : Prop := exists a, sessionStep a s = Some (Ret s').

(** Calls that were let through. *)
Definition admitted (s : Session) : list Z := omap (fun pc => match pc with RLDone None c => c | _ => None end) (calls s).
Definition inPool (pc : PoolPC) : bool := match pc with CRunning | CDraining => true | _ => false end.
Definition runningIn (s : Session) : list PoolPC := filter (fun pc => inPool pc = true) (guests s).

(** ** The invariant *)
Definition countsOf (l : list LimitPC) : list Z := omap (fun pc => match pc with RLDone _ c => c | _ => None end) l.
Definition limitOk (active : Z) (pc : LimitPC) : Prop :=
  match pc with
  | RLScore secs | RLOps secs _ | RLCount secs => 1 <= secs <= active
  | RLDone None (Some c) => c <= rateLimitMinOps \/ c < rateLimitMaxOpsPerSecond * active
  | RLDone None None => False
  | _ => True
  end.
Record sessionInv (s : Session) : Prop := {
  sn_time : 1 <= now s - started s;
  sn_count : 0 <= opCount s;
  sn_calls : Forall (limitOk (now s - started s)) (calls s);
  sn_counts : Forall (fun c => 1 <= c <= opCount s) (countsOf (calls s));
  sn_distinct : NoDup (countsOf (calls s));
  sn_pool : length (runningIn s) = concurrencyPool s;
  sn_size : (concurrencyPool s <= concurrencyPoolSize)%nat;
  sn_drained : drainFailed s = false;
}.

Lemma limitOk_later a b pc : a <= b -> limitOk a pc -> limitOk b pc.
Proof. intros Hab. destruct pc as [| | | |[e|] [c|]]; simpl; try done; unfold rateLimitMaxOpsPerSecond; lia. Qed.
(** A call goes on without a count of its own. *)
Lemma countsOf_insert l i pc pc' : l !! i = Some pc -> countsOf [pc] = [] -> countsOf (<[i := pc']> l) ≡ₚ countsOf [pc'] ++ countsOf l.
Proof.
  intros H Hp. unfold countsOf in *. rewrite (insert_Permutation _ _ _ pc' H). rewrite (delete_Permutation _ _ _ H) at 2.
  change (pc' :: delete i l) with ([pc'] ++ delete i l). change (pc :: delete i l) with ([pc] ++ delete i l). by rewrite !omap_app, Hp.
Qed.
(** What a step of a call does. *)
Lemma limitStep_spec active pc pc' s s' : limitOk active pc -> active = now s - started s -> 0 <= opCount s -> limitStep pc s = Some (Ret (pc', s')) ->
  limitOk active pc' /\ countsOf [pc] = [] /\ now s' = now s /\ started s' = started s /\ calls s' = calls s /\ guests s' = guests s /\
  concurrencyPool s' = concurrencyPool s /\ drainFailed s' = drainFailed s /\
  (opCount s' = opCount s /\ countsOf [pc'] = [] \/ opCount s' = opCount s + 1 /\ countsOf [pc'] = [opCount s + 1]).
Proof.
  intros Hok -> Hc. destruct pc as [secs|secs score| |secs|]; simpl; try done; intros H; simpl in Hok.
  - destruct (checkScore secs (suspicionScore s)) as [| |x] eqn:E; try done. simplify_eq/=. unfold checkScore in E. repeat case_step; simplify_eq/=; split_and!; first [done|exact Hok|lia|by left].
  - simplify_eq/=. unfold checkOps. case_step; simpl; split_and!; first [done|lia|by left].
  - simplify_eq/=. split_and!; first [done|by left].
  - destruct (checkCount secs (opCount s + 1)) as [| |x] eqn:E; try done. simplify_eq/=. unfold checkCount in E.
    repeat case_step; simplify_eq/=; bool_prop; split_and!; try first [done|lia|by right|by left]. right. unfold rateLimitMaxOpsPerSecond in *.
    rewrite Z.quot_div_nonneg in * by lia. assert (opCount s + 1 < secs * 5); [|lia].
    apply Z.lt_nge. intros Hge. assert (5 <= (opCount s + 1) / secs); [|lia]. apply Z.div_le_lower_bound; lia.
Qed.
Lemma limitStep_no_panic active pc s : limitOk active pc -> limitStep pc s <> Some Panic.
Proof.
  destruct pc as [secs|secs score| |secs|]; simpl; try done; intros H; [unfold checkScore|unfold checkCount];
    repeat case_step; simplify_eq/=; bool_prop; try done; lia.
Qed.
(** Guests come, run and leave. *)
Definition weight (pc : PoolPC) : nat := if inPool pc then 1 else 0.
Lemma runningIn_insert (s : Session) l i pc pc' : guests s = l -> l !! i = Some pc ->
  (length (runningIn (s <| guests := <[i := pc']> l |>)) + weight pc = weight pc' + length (runningIn s))%nat.
Proof.
  intros <- H. unfold runningIn. simpl. rewrite (insert_Permutation _ _ _ pc' H). rewrite (delete_Permutation _ _ _ H) at 2.
  rewrite !filter_cons. unfold weight. destruct (inPool pc), (inPool pc'); simpl; lia.
Qed.

Lemma sessionInv_limit i pc pc' s s' : calls s !! i = Some pc -> limitStep pc s = Some (Ret (pc', s')) -> sessionInv s ->
  sessionInv (s' <| calls ::= <[i := pc']> |>).
Proof.
  intros Hi Hs [H1 H2 H3 H4 H5 H6 H7 H8]. pose proof (Forall_lookup_1 _ _ _ _ H3 Hi) as Hok.
  destruct (limitStep_spec _ pc pc' s s' Hok eq_refl H2 Hs) as (G1 & G2 & En & Es & Ec & Eg & Ep & Ed & Ho).
  pose proof (countsOf_insert (calls s) i pc pc' Hi G2) as Hp.
  split; simpl; rewrite ?En, ?Es, ?Ec, ?Ep, ?Ed; try done.
  - lia.
  - by apply Forall_insert.
  - rewrite Hp. destruct Ho as [[-> ->]|[-> ->]]; [done|]. constructor; [lia|]. eapply Forall_impl; [exact H4|]. simpl. lia.
  - rewrite Hp. destruct Ho as [[_ ->]|[_ ->]]; [done|]. apply NoDup_cons. split; [|done].
    intros Hin. apply (proj1 (Forall_forall _ _) H4) in Hin. lia.
  - unfold runningIn in *. simpl. by rewrite Eg.
Qed.
Lemma sessionInv_pool i pc pc' b s s' : guests s !! i = Some pc -> poolStep pc b s = Some (pc', s') -> sessionInv s ->
  sessionInv (s' <| guests ::= <[i := pc']> |>).
Proof.
  intros Hi Hs [H1 H2 H3 H4 H5 H6 H7 H8]. pose proof (runningIn_insert s _ i pc pc' eq_refl Hi) as Hr. unfold runningIn, weight in *. simpl in Hr.
  destruct pc as [| | |e]; simpl in Hs; try done.
  - destruct b; simplify_eq/=; [split; try done; unfold runningIn; simpl; lia|].
    destruct (_ <? _)%nat eqn:E; [|done]. apply Nat.ltb_lt in E. simplify_eq/=. split; try done; unfold runningIn; simpl; lia.
  - simplify_eq/=. split; try done; unfold runningIn; simpl; lia.
  - destruct (concurrencyPool s) as [|n] eqn:E; simplify_eq/=; [|split; try done; unfold runningIn; simpl; lia].
    exfalso. rewrite (delete_Permutation _ _ _ Hi), filter_cons in H6. simpl in H6. lia.
Qed.
Lemma sessionInv_step a s s' : sessionStep a s = Some (Ret s') -> sessionInv s -> sessionInv s'.
Proof.
  intros Hs H. destruct a; simpl in Hs.
  - destruct (0 <=? seconds) eqn:E; simplify_eq/=. bool_prop. destruct H as [H1 H2 H3 H4 H5 H6 H7 H8]. split; try done; simpl; [lia|].
    eapply Forall_impl; [exact H3|]. intros pc. apply limitOk_later. lia.
  - simplify_eq/=. destruct H. by split.
  - simplify_eq/=. destruct H as [H1 H2 H3 H4 H5 H6 H7 H8]. split; try done; simpl.
    + apply Forall_snoc; [done|]. simpl. lia.
    + unfold countsOf. by rewrite omap_app, app_nil_r.
    + unfold countsOf. by rewrite omap_app, app_nil_r.
  - destruct (calls s !! i) as [pc|] eqn:Ei; [|done]. simpl in Hs. destruct (limitStep pc s) as [r|] eqn:El; [|done]. simpl in Hs.
    destruct r as [[pc' s1]| |]; simplify_eq/=. by eapply sessionInv_limit.
  - simplify_eq/=. destruct H as [H1 H2 H3 H4 H5 H6 H7 H8]. split; try done; simpl. unfold runningIn in *. simpl. by rewrite filter_app, app_nil_r.
  - destruct (guests s !! i) as [pc|] eqn:Ei; [|done]. simpl in Hs. destruct (poolStep pc canceled s) as [[pc' s1]|] eqn:El; [|done]. simplify_eq/=.
    by eapply sessionInv_pool.
Qed.
Lemma distinct_bounded (l : list Z) n : NoDup l -> Forall (fun c => 1 <= c <= n) l -> Z.of_nat (length l) <= Z.max 0 n.
Proof.
  intros Hd Hf. assert (l ⊆+ seqZ 1 n) as Hs.
  { apply NoDup_submseteq; [done|]. intros c Hc. apply (proj1 (Forall_forall _ _) Hf) in Hc. apply elem_of_seqZ. lia. }
  apply submseteq_length in Hs. rewrite length_seqZ in Hs. lia.
Qed.

(** C29. A session's limits hold under concurrency: however calls interleave, the number of
    operations let through is at most 250 or below five for every second since the start,
    whichever is more; at most thirty functions run at a time, and each leaves the pool it
    entered; and, as long as the clock does not go back, no check divides by zero. *)
Theorem session_limits n s : rtc sStep (NewSession n) s ->
  Z.of_nat (length (admitted s)) <= Z.max rateLimitMinOps (rateLimitMaxOpsPerSecond * (now s - started s) - 1) /\
  (length (runningIn s) = concurrencyPool s /\ concurrencyPool s <= concurrencyPoolSize)%nat /\ drainFailed s = false /\
  (forall a, sessionStep a s <> Some Panic).
Proof.
  intros Hr. assert (sessionInv s) as [H1 H2 H3 H4 H5 H6 H7 H8].
  { assert (sessionInv (NewSession n)) as H0 by (split; simpl; try done; try constructor; unfold concurrencyPoolSize; lia).
    induction Hr as [|x y z [a Hs] _ IH]; [done|]. by eapply IH, sessionInv_step. }
  split_and!; try done.
  - set (m := Z.max _ _). assert (0 <= m) by (unfold m, rateLimitMinOps; lia).
    assert (admitted s `sublist_of` countsOf (calls s)) as Hsub.
    { unfold admitted, countsOf. clear. induction (calls s) as [|[| | | |[e|] [c|]] l IH]; simpl; try done; by constructor. }
    assert (Forall (fun c => c <= m) (admitted s)) as Hm.
    { unfold admitted. clear Hsub. revert H3. clear -m. induction (calls s) as [|[| | | |[e|] [c|]] l IH]; intros Hf; simpl; try done; try by (apply IH; inversion Hf).
      inversion Hf as [|? ? Hc Hl]; subst. constructor; [simpl in Hc; lia|by apply IH]. }
    rewrite <- (Z.max_r 0 m) by done. apply distinct_bounded; [by eapply sublist_NoDup|].
    apply Forall_forall. intros c Hc. pose proof (proj1 (Forall_forall _ _) Hm c Hc). split; [|done].
    assert (c ∈ countsOf (calls s)) as Hin by (eapply elem_of_submseteq; [exact Hc|by apply sublist_submseteq]).
    apply (proj1 (Forall_forall _ _) H4) in Hin. lia.
  - intros a. destruct a as [k| | |i| |i b]; simpl; try done.
    + by destruct (0 <=? k).
    + destruct (calls s !! i) as [pc|] eqn:Ei; [|done]. simpl. pose proof (limitStep_no_panic _ pc s (Forall_lookup_1 _ _ _ _ H3 Ei)) as Hn.
      destruct (limitStep pc s) as [[[pc' s1]| |]|]; simpl; done.
    + destruct (guests s !! i) as [pc|]; [|done]. simpl. by destruct (poolStep pc b s) as [[]|].
Qed.

(** ** A concrete run: two calls that race, and a guest of the pool. *)
Module SessionDemo.
Definition script : list SessionAction :=
  [SRateLimit; SRateLimit; SLimitStep 0; SLimitStep 1; SLimitStep 1; SLimitStep 0; SReport 100; SRateLimit; SLimitStep 2; SLimitStep 2;
   STick 3; SConcurrency; SPoolStep 0 false; SPoolStep 0 false].
Fixpoint exec (l : list SessionAction) (s : Session) : option Session :=
  match l with
  | [] => Some s
  | a :: l => match sessionStep a s with Some (Ret s) => exec l s | _ => None end
  end.
Lemma exec_rtc l s s' : exec l s = Some s' -> rtc sStep s s'.
Proof.
  revert s. induction l as [|a l IH]; intros s; simpl; [by intros [= <-]|]. destruct (sessionStep a s) as [[s1| |]|] eqn:E; try done.
  intros H. eapply rtc_l; [by exists a|by apply IH].
Qed.
Definition s1 : Session := default (NewSession 50) (exec script (NewSession 50)).
Lemma s1_reached : exec script (NewSession 50) = Some s1.
Proof. by vm_compute. Qed.
End SessionDemo.
Lemma session_limits_witness : admitted SessionDemo.s1 = [2; 1] /\ suspicionScore SessionDemo.s1 = 101 /\ length (runningIn SessionDemo.s1) = 1%nat /\
  Z.of_nat (length (admitted SessionDemo.s1)) <= 250.
Proof.
  split; [vm_compute; reflexivity|]. split; [vm_compute; reflexivity|]. split; [vm_compute; reflexivity|].
  exact (proj1 (session_limits 50 SessionDemo.s1 (SessionDemo.exec_rtc _ _ _ SessionDemo.s1_reached))).
Defined.
