(* ===== verification/Crane.v ===== *)
(** * Cranes and ships (spn/docks: crane.go, crane_establish.go, crane_netstate.go; spn/ships)

    A crane joins the terminals of two hubs over one connection, its ship.  The loader
    packs messages into shipments of a target size, the unloader reads shipments from the
    ship, and the handler takes them apart again.  Each is a goroutine; a [craneStep] is
    what one of them does between two waits, or the call of a method. *)

From S2P Require Import Prelude Varint GoNet FlowQueue SpnWire.

(** ** Ships (spn/ships/mtu.go, ship.go) *)
Module Ship.
Definition BaseMTU : Z := 1460.
Definition IPv4HeaderMTUSize : Z := 20.
Definition IPv6HeaderMTUSize : Z := 40.
Definition TCPHeaderMTUSize : Z := 60.
Definition defaultLoadSize : Z := 4096.

Record ShipBase := mkShip {
  mine : bool; secure : bool; public : bool; bufSize : Z; loadSize : Z;
  initial : option bytes; sinking : bool;
}.
#[export] Instance eta_ShipBase : Eta ShipBase := fun s =>
  mkShip (mine s) (secure s) (public s) (bufSize s) (loadSize s) (initial s) (sinking s).

(** [calculateLoadSize(ip, addr, subtract...)]; [addr] is the IP of the address.  The
    loop ranges over the indexes of [subtract]. *)
Definition calculateLoadSize (ip addr : option IP) (subtract : list Z) (ship : ShipBase) : ShipBase :=
  let size := BaseMTU in
  let ip := match ip with Some _ => ip | None => addr end in
  let size := match ip with
              | Some ip => match To4 ip with Some _ => size - IPv4HeaderMTUSize | None => size - IPv6HeaderMTUSize end
              | None => size
              end in
  let size := foldl (fun size sub => size - Z.of_nat sub) size (seq 0 (length subtract)) in
  ship <| loadSize := size |> <| bufSize := if bufSize ship <? size then size else bufSize ship |>.

Definition initBase (ship : ShipBase) : ShipBase :=
  let ship := ship <| sinking := false |> <| public := false |> in
  let ship := if loadSize ship =? 0 then ship <| loadSize := defaultLoadSize |> else ship in
  if bufSize ship =? 0 then ship <| bufSize := loadSize ship |> else ship.

(** [Load]: what the writes to the connection return, [None] for an error and else the
    number of bytes written; the bytes written, whether the connection was closed, and
    whether the call fails.  [None] if the last write is not done yet. *)
Fixpoint Load (writes : list (option nat)) (ship : ShipBase) (data : bytes) : option (ShipBase * bytes * bool * bool) :=
  match data with
  | [] => Some (ship <| sinking := true |>, [], negb (sinking ship), false)
  | _ =>
      match writes with
      | [] => None
      | None :: _ => Some (ship, [], false, true)
      | Some n :: writes =>
          if (n =? 0)%nat then Some (ship, [], false, true)
          else if (n <? length data)%nat then
            '(ship, written, closed, err) ← Load writes ship (drop n data);
            Some (ship, take n data ++ written, closed, err)
          else Some (ship, data, false, false)
      end
  end.

(** [UnloadTo(buf)] of a buffer of [len] bytes: the bytes put into it.  [read] is what
    reading that many bytes from the connection gives, if it is read. *)
Definition UnloadTo (ship : ShipBase) (len : nat) (read : bytes) : ShipBase * bytes :=
  match initial ship with
  | Some i =>
      if (len <? length i)%nat then (ship <| initial := Some (drop len i) |>, take len i)
      else (ship <| initial := None |>, i)
  | None => (ship, read)
  end.
End Ship.

(** ** State *)
Definition maxUnloadSize : Z := 16384.
Definition maxSegmentLength : Z := 16384.
Definition optimalMinLoadSize : Z := 3072.
Definition queueSize : nat := 100.

(** What has happened, latest last; the first three serve the statements only. *)
Inductive CEvent :=
| ELoaded (m : TMsg)                               (* the loader took a message that is not oversized *)
| EShipped (payload sealedData : bytes)            (* a shipment before padding, and what was loaded *)
| ESegment (id msgType : Z) (data : bytes)         (* the handler took a segment *)
| EOversized (m : TMsg)
| EEstablished (id : Z) (data : bytes) | EDelivered (ref : nat) (m : TMsg)
| EAbandon (ref : nat) (err : option TErr) | EUnregister | ESink | ECancel | ENotify | ESyncState.

Inductive LoaderPC := LTop | LWait | LSending | LStopped.
Record Loader := mkLoader { lpc : LoaderPC; shipment : bytes; loadingTimer : bool }.
#[export] Instance eta_Loader : Eta Loader := fun l => mkLoader (lpc l) (shipment l) (loadingTimer l).

Inductive UnloadPC :=
| UHead (buf : bytes)                  (* reading the two bytes of the length *)
| UBody (len had : nat) (buf : bytes)  (* reading a shipment, [had] bytes came with the length *)
| USubmit (data : bytes)               (* giving it to the handler *)
| UStopped.

Record Handler := mkHandler { partialShipment : option bytes; segmentLength : Z; hStopped : bool }.
#[export] Instance eta_Handler : Eta Handler := fun h => mkHandler (partialShipment h) (segmentLength h) (hStopped h).

(** Workers that were started and are not done. *)
Inductive CWorker := WAbandon (id : Z) (err : option TErr) | WSendMsg (m : TMsg) | WRetire | WFinishStop.

Record NetState := mkNet {
  stoppingRequested : bool; stoppingRequestedByPeer : bool; markedStoppingAt : option Z;
  lifetimeBytesIn : Z; lifetimeBytesOut : Z; periodBytesIn : Z; periodBytesOut : Z; periodStarted : Z;
}.
#[export] Instance eta_NetState : Eta NetState := fun n =>
  mkNet (stoppingRequested n) (stoppingRequestedByPeer n) (markedStoppingAt n) (lifetimeBytesIn n) (lifetimeBytesOut n)
    (periodBytesIn n) (periodBytesOut n) (periodStarted n).

Section crane.
Context {V : Varint} {VS : VarintSize} {J : Jess}.

(** [incoming] is what has arrived at the connection and is not read yet. *)
Record Crane := mkCrane {
  opts : TerminalOpts; ship : Ship.ShipBase; jession : option Session;
  stopping : bool; stopped : bool; authenticated : bool; ctxDone : bool;
  netState : NetState; Controller : option nat;
  terminals : gmap Z nat; nextRef : nat; nextTerminalID : Z; targetLoadSize : Z;
  terminalMsgs : list TMsg; controllerMsgs : list TMsg;
  loader : Loader; unloader : UnloadPC; handler : Handler;
  workers : list CWorker; incoming : bytes; events : list CEvent;
}.
#[export] Instance eta_Crane : Eta Crane := fun c =>
  mkCrane (opts c) (ship c) (jession c) (stopping c) (stopped c) (authenticated c) (ctxDone c) (netState c) (Controller c)
    (terminals c) (nextRef c) (nextTerminalID c) (targetLoadSize c) (terminalMsgs c) (controllerMsgs c) (loader c)
    (unloader c) (handler c) (workers c) (incoming c) (events c).

(** What the crane asks of terminals: what creating one for the peer gives, and what
    delivering to one does; either may depend on all that happened. *)
Class CraneEnv := {
  NewRemoteCraneTerminal : list CEvent -> Z -> bytes -> option TErr;
  DeliverTo : list CEvent -> nat -> TMsg -> option TErr;
}.
Context {CE : CraneEnv}.

Definition emit (e : CEvent) (c : Crane) : Crane := c <| events ::= fun l => l ++ [e] |>.
Definition go (w : CWorker) (c : Crane) : Crane := c <| workers ::= fun l => l ++ [w] |>.
Definition report (n : Z) (inbound : bool) (s : NetState) : NetState :=
  if inbound then s <| lifetimeBytesIn ::= fun x => u64 (x + n) |> <| periodBytesIn ::= fun x => u64 (x + n) |>
  else s <| lifetimeBytesOut ::= fun x => u64 (x + n) |> <| periodBytesOut ::= fun x => u64 (x + n) |>.

(** ** New cranes *)

(** The load size grows by that of the ship until it is enough. *)
Fixpoint raiseLoadSize (fuel : nat) (size step : Z) : Z :=
  match fuel with
  | O => size
  | S fuel => if size <? optimalMinLoadSize then raiseLoadSize fuel (size + step) step else size
  end.
Definition targetSize (loadSize : Z) : Z :=
  let loadSize := if loadSize <=? 0 then Ship.BaseMTU else loadSize in
  let target := raiseLoadSize (Z.to_nat optimalMinLoadSize) loadSize loadSize in
  let target := target - 25 in
  target - Z.of_nat (EncodedSize (u64 target)).

Definition newNetworkOptimizationState (now : Z) : NetState := mkNet false false None 0 0 0 0 now.

Definition NewCrane (sh : Ship.ShipBase) (now : Z) : Crane := {|
  opts := mkOpts 0 false 0 FlowControlDefault 0 false; ship := sh; jession := None;
  stopping := false; stopped := false; authenticated := false; ctxDone := false;
  netState := newNetworkOptimizationState now; Controller := None;
  terminals := ∅; nextRef := 0; nextTerminalID := if Ship.mine sh then 0 else 4;
  targetLoadSize := targetSize (Ship.loadSize sh);
  terminalMsgs := []; controllerMsgs := [];
  loader := mkLoader LTop [] false; unloader := UHead []; handler := mkHandler None 0 false;
  workers := []; incoming := []; events := [];
|}.

(** The controller of a crane: its options become those of the crane
    (controller.go: [NewLocalCraneControllerTerminal], [initCraneController]). *)
Definition initCraneController (initMsg : TerminalOpts) (c : Crane) : Crane :=
  let ref := nextRef c in
  c <| nextRef := S ref |> <| Controller := Some ref |> <| terminals ::= <[0 := ref]> |> <| opts := initMsg |>.
Definition newLocalController (initMsg : TerminalOpts) (c : Crane) : Crane * option optsError :=
  let initMsg := initMsg <| Padding := 0 |> in
  let '(initMsg, err) := CheckOpts initMsg true in
  match err with Some e => (c, Some e) | None => (initCraneController initMsg c, None) end.

(** ** Terminals *)

(** [getNextTerminalID]: the search for a free ID. *)
Fixpoint findTerminalID (fuel : nat) (next : Z) (terms : gmap Z nat) : option Z :=
  match fuel with
  | O => None
  | S fuel =>
      let next := u32 (next + 8) in
      match terms !! next with None => Some next | Some _ => findTerminalID fuel next terms end
  end.
Definition getNextTerminalID (c : Crane) : option (Z * Crane) :=
  id ← findTerminalID (S (size (terminals c))) (nextTerminalID c) (terminals c);
  Some (id, c <| nextTerminalID := id |>).
Definition terminalCount (c : Crane) : nat := size (terminals c).
(** A terminal object is new when it is registered. *)
Definition setTerminal (id : Z) (c : Crane) : Crane :=
  c <| terminals ::= <[id := nextRef c]> |> <| nextRef ::= S |>.

(** [AbandonTerminal].  The first case holds for every error that is not one, those of
    the two cases after it included. *)
Definition abandonReason (err : option TErr) : option TErr :=
  if IsOK err then err
  else if ErrIs err ErrStopping then None
  else if ErrIs err ErrNoActivity then None
  else err.
Definition AbandonTerminal (id : Z) (err : option TErr) (c : Crane) : Crane :=
  match terminals c !! id with
  | Some ref => emit (EAbandon ref (abandonReason err)) (c <| terminals ::= delete id |>)
  | None => if stopping c && (terminalCount c <=? 1)%nat then go WRetire c else c
  end.

(** [Send] and [sendImportantTerminalMsg], when the message can be queued, and when the
    crane is done. *)
Definition Send (m : TMsg) (c : Crane) : option Crane :=
  if (length (terminalMsgs c) <? queueSize)%nat then Some (c <| terminalMsgs ::= fun l => l ++ [m] |>) else None.
Definition sendImportantTerminalMsg (m : TMsg) (c : Crane) : option Crane :=
  if (length (controllerMsgs c) <? queueSize)%nat then Some (c <| controllerMsgs ::= fun l => l ++ [m] |>) else None.

(** [EstablishNewTerminal]: registered, then announced to the peer. *)
Definition initMsg (id : Z) (data : bytes) : TMsg := mkTMsg id MsgTypeInit data false.
Definition EstablishNewTerminal (id : Z) (initData : bytes) (c : Crane) : option Crane :=
  sendImportantTerminalMsg (initMsg id initData) (setTerminal id c).

(** [establishTerminal]: one the peer asked for. *)
Definition stopMsg (id : Z) (err : option TErr) : TMsg := mkTMsg id MsgTypeStop (PackErr err) false.
Definition establishTerminal (id : Z) (initData : bytes) (c : Crane) : Crane :=
  match NewRemoteCraneTerminal (events c) id initData with
  | None => emit (EEstablished id initData) (setTerminal id c)
  | Some err =>
      let m := stopMsg id (Some err) in
      match Send m c with Some c => c | None => go (WSendMsg m) c end
  end.

(** ** Stopping *)

(** [Stop]: the first call abandons all terminals; what it does after waiting for them is
    the worker [WFinishStop]. *)
Definition Stop (err : option TErr) (c : Crane) : Crane :=
  if stopped c then c else
  let c := emit EUnregister (c <| stopped := true |>) in
  let c := foldl (fun c ref => emit (EAbandon ref err) c) c (snd <$> map_to_list (terminals c)) in
  let c := match Controller c with Some ref => emit (EAbandon ref err) c | None => c end in
  go WFinishStop c.
Definition finishStop (c : Crane) : Crane := emit ENotify (emit ECancel (emit ESink c) <| ctxDone := true |>).

(** [MarkStopping], [AbortStopping] and [MarkStoppingRequested]. *)
Definition MarkStoppingRequested (c : Crane) : Crane :=
  if stoppingRequested (netState c) then c
  else emit ESyncState (c <| netState ::= fun s => s <| stoppingRequested := true |> |>).
Definition MarkStopping (now : Z) (c : Crane) : bool * Crane :=
  if negb (Ship.mine (ship c)) then (false, c)
  else if stopping c then (false, c)
  else (true, emit ESyncState (c <| stopping := true |> <| netState ::= fun s => s <| markedStoppingAt := Some now |> |>)).
Definition AbortStopping (c : Crane) : bool * Crane :=
  let aborted := stopping c in
  let abortedStoppingRequest := stoppingRequested (netState c) in
  let c := c <| stopping := false |>
             <| netState ::= fun s => s <| stoppingRequested := false |> <| markedStoppingAt := None |> |> in
  (aborted, if aborted || abortedStoppingRequest then emit ESyncState c else c).

(** ** Loading *)
Definition encrypt (d : bytes) (c : Crane) : option (bytes * Crane) :=
  match jession c with
  | None => Some (d, c)
  | Some s => match seal s d with inl (w, s) => Some (w, c <| jession := Some s |>) | inr _ => None end
  end.
Definition decrypt (d : bytes) (c : Crane) : option (bytes * Crane) :=
  match jession c with
  | None => Some (d, c)
  | Some s => match unseal s d with inl (w, s) => Some (w, c <| jession := Some s |>) | inr _ => None end
  end.

(** [load]: padding of random bytes [rnd] (zeros if there are none), encryption, length. *)
Definition paddingNeeded (c : Crane) (d : bytes) : Z :=
  let len := Z.of_nat (length d) in
  let needed := Padding (opts c) - Z.rem (len + Z.of_nat (EncodedSize (u64 len))) (Padding (opts c)) in
  let maxPadding := targetLoadSize c - len in
  if maxPadding <? needed then maxPadding else needed.
Definition padShipment (c : Crane) (rnd d : bytes) : bytes :=
  if Padding (opts c) <=? 0 then d else
  let needed := paddingNeeded c d in
  if needed <=? 0 then d else d ++ 0 :: resize (Z.to_nat (needed - 1)) 0 rnd.
Definition load (rnd d : bytes) (c : Crane) : option (bytes * Crane) :=
  '(enc, c) ← encrypt (padShipment c rnd d) c;
  let ready := PrependLength enc in
  Some (ready, emit (EShipped d enc) (c <| netState ::= report (Z.of_nat (length ready)) false |>)).

Definition setLoader (l : Loader) (c : Crane) : Crane := c <| loader := l |>.

(** A message is packed into the shipment; oversized ones are dropped. *)
Definition fill (m : TMsg) (c : Crane) : Crane :=
  let newSegment := MData (PackMsg m) in
  let l := (loader c) <| lpc := LTop |> in
  if maxSegmentLength <? Z.of_nat (length newSegment) then emit (EOversized m) (setLoader l c)
  else emit (ELoaded m) (setLoader (l <| shipment ::= fun d => d ++ newSegment |> <| loadingTimer := true |>) c).
Definition loaderStops (err : option TErr) (c : Crane) : Crane := Stop err (setLoader ((loader c) <| lpc := LStopped |>) c).

(** The head of the loop that fills a shipment; then, with nothing from the controller,
    waiting for any message or the timer. *)
Definition loaderTop (c : Crane) : option Crane :=
  match lpc (loader c), controllerMsgs c with
  | LTop, m :: rest =>
      if Z.of_nat (length (shipment (loader c))) <? targetLoadSize c then Some (fill m (c <| controllerMsgs := rest |>))
      else Some (setLoader ((loader c) <| lpc := LSending |>) c)
  | LTop, [] =>
      if Z.of_nat (length (shipment (loader c))) <? targetLoadSize c
      then if ctxDone c then None else Some (setLoader ((loader c) <| lpc := LWait |>) c)
      else Some (setLoader ((loader c) <| lpc := LSending |>) c)
  | _, _ => None
  end.
Inductive LoaderWait := LController | LTerminal | LTimer.
Definition loaderWait (w : LoaderWait) (c : Crane) : option Crane :=
  match lpc (loader c), w with
  | LWait, LController => match controllerMsgs c with m :: rest => Some (fill m (c <| controllerMsgs := rest |>)) | [] => None end
  | LWait, LTerminal => match terminalMsgs c with m :: rest => Some (fill m (c <| terminalMsgs := rest |>)) | [] => None end
  | LWait, LTimer => if loadingTimer (loader c) then Some (setLoader ((loader c) <| lpc := LSending |>) c) else None
  | _, _ => None
  end.
Definition loaderDone (c : Crane) : option Crane :=
  match lpc (loader c) with
  | LTop => if ctxDone c && (Z.of_nat (length (shipment (loader c))) <? targetLoadSize c) then Some (loaderStops None c) else None
  | LWait => if ctxDone c then Some (loaderStops None c) else None
  | _ => None
  end.
(** One shipment is sent, with the given results of writing to the connection; also the
    bytes written.  What is left of a split
    shipment is sent on at once if it is large enough, and waits for more if not. *)
Definition loaderShip (rnd : bytes) (writes : list (option nat)) (c : Crane) : option (Crane * bytes) :=
  match lpc (loader c) with
  | LSending =>
      let d := shipment (loader c) in
      let target := Z.to_nat (targetLoadSize c) in
      let '(now, rest) := if targetLoadSize c <? Z.of_nat (length d) then (take target d, Some (drop target d)) else (d, None) in
      match load rnd now c with
      | None => Some (loaderStops (Some ErrShipSunk) c, [])
      | Some (ready, c) =>
          '(sh, written, _, err) ← Ship.Load writes (ship c) ready;
          let c := c <| ship := sh |> in
          if err : bool then Some (loaderStops (Some ErrShipSunk) c, written) else
          let l := match rest with
                   | Some p => if Z.of_nat (length p) <? targetLoadSize c then mkLoader LTop p true else mkLoader LSending p false
                   | None => mkLoader LTop [] false
                   end in
          Some (setLoader l c, written)
      end
  | _ => None
  end.

(** ** Unloading *)
Definition unloaderStops (err : option TErr) (c : Crane) : Crane := Stop err (c <| unloader := UStopped |>).

(** The length of a shipment is in its first two bytes; the second may be its first. *)
Definition parseHead (buf : bytes) (c : Crane) : Crane :=
  match Unpack64 buf with
  | None => unloaderStops (Some ErrMalformedData) c
  | Some (containerLen, n) =>
      if (containerLen <=? 0) || (maxUnloadSize <? containerLen) then unloaderStops (Some ErrMalformedData) c else
      let leftovers := drop n buf in
      if Z.of_nat (length leftovers) =? containerLen then c <| unloader := USubmit leftovers |>
      else c <| unloader := UBody (Z.to_nat containerLen) (length leftovers) leftovers |>
  end.
Definition traffic (n : nat) (c : Crane) : Crane := c <| netState ::= report (Z.of_nat n) true |>.
(** One call of [UnloadTo] that gives up to [n] bytes, and what is done when the buffer is full. *)
Definition unloadRead (n : nat) (c : Crane) : option Crane :=
  let read want :=
    let n := Nat.min n want in
    let '(sh, b) := Ship.UnloadTo (ship c) want (take n (incoming c)) in
    (b, c <| ship := sh |> <| incoming := if Ship.initial (ship c) then incoming c else drop n (incoming c) |>) in
  match unloader c with
  | UHead buf =>
      let '(b, c) := read (2 - length buf)%nat in
      let buf := buf ++ b in
      Some (if (length buf =? 2)%nat then parseHead buf (traffic 2 c) else c <| unloader := UHead buf |>)
  | UBody len had buf =>
      let '(b, c) := read (len - length buf)%nat in
      let buf := buf ++ b in
      Some (if (length buf =? len)%nat then traffic (len - had)%nat c <| unloader := USubmit buf |> else c <| unloader := UBody len had buf |>)
  | _ => None
  end.
(** Reading fails, at the end of the stream or otherwise; or the crane is done. *)
Definition unloadFails (eof : bool) (c : Crane) : option Crane :=
  match unloader c with
  | UHead _ => Some (unloaderStops (Some (if eof then ErrStopping else ErrInternalError)) c)
  | UBody _ _ _ => Some (unloaderStops (Some ErrInternalError) c)
  | _ => None
  end.
Definition unloaderDone (c : Crane) : option Crane :=
  match unloader c with USubmit _ => if ctxDone c then Some (unloaderStops None c) else None | _ => None end.

(** ** Handling *)
Definition handlerStops (err : option TErr) (c : Crane) : Crane := Stop err (c <| handler ::= fun h => h <| hStopped := true |> |>).

(** A segment goes to its terminal, makes a new one, or ends one. *)
Definition dispatch (id msgType : Z) (segment : bytes) (c : Crane) : Crane :=
  if msgType =? MsgTypeInit then establishTerminal id segment c
  else if (msgType =? MsgTypeData) || (msgType =? MsgTypePriorityData) then
    match terminals c !! id with
    | Some ref =>
        let m := mkTMsg id msgType segment (msgType =? MsgTypePriorityData) in
        let c' := emit (EDelivered ref m) c in
        match DeliverTo (events c) ref m with
        | Some err => go (WAbandon id (Wrap (Some err))) c'
        | None => c'
        end
    | None => c
    end
  else go (WAbandon id (Some (default (AsExternal ErrUnknownError) (ParseExternalError segment)))) c.

(** What the next bytes of a shipment are. *)
Inductive Segment :=
| SegPartial (length : Z) (rest : bytes)       (* more data is needed *)
| SegPadding
| SegMalformed
| SegData (segment rest : bytes).
Definition takeSegment (len : Z) (d : bytes) : Segment :=
  if u32 (Z.of_nat (length d)) <? len then SegPartial len d
  else match GetAsContainer (Z.to_nat len) d with Some (seg, rest) => SegData seg rest | None => SegMalformed end.
Definition nextSegment (len : Z) (d : bytes) : Segment :=
  if negb (len =? 0) then takeSegment len d else
  match GetNextN32 d with
  | inr ErrBufTooSmall => SegPartial 0 d
  | inr ErrVarint => SegMalformed
  | inl (len, rest) =>
      if len =? 0 then SegPadding
      else if maxSegmentLength <? len then SegMalformed
      else takeSegment len rest
  end.

Definition setHandler (partial : option bytes) (len : Z) (c : Crane) : Crane :=
  c <| handler := mkHandler partial len (hStopped (handler c)) |>.
(** All segments of a decrypted shipment; what is left of the last one is kept.  [None] if
    there is too little fuel. *)
Fixpoint handleShipment (fuel : nat) (d : bytes) (c : Crane) : option Crane :=
  match d with
  | [] => Some c
  | _ =>
      match fuel with
      | O => None
      | S fuel =>
          let d := default [] (partialShipment (handler c)) ++ d in
          match nextSegment (segmentLength (handler c)) d with
          | SegPartial len rest => Some (setHandler (Some rest) len c)
          | SegPadding => Some (setHandler None 0 c)
          | SegMalformed => Some (handlerStops (Some ErrMalformedData) (setHandler None 0 c))
          | SegData segment rest =>
              let c := setHandler None 0 c in
              match ParseIDType segment with
              | None => Some (handlerStops (Some ErrMalformedData) c)
              | Some (id, msgType, data) => handleShipment fuel rest (dispatch id msgType data (emit (ESegment id msgType data) c))
              end
          end
      end
  end.
Definition handleUnloaded (c : Crane) : option Crane :=
  match unloader c with
  | USubmit enc =>
      if hStopped (handler c) then None else
      let c := c <| unloader := UHead [] |> in
      match decrypt enc c with
      | None => Some (handlerStops (Some ErrIntegrity) c)
      | Some (d, c) => handleShipment (S (length (default [] (partialShipment (handler c)) ++ d))) d c
      end
  | _ => None
  end.
Definition handlerDone (c : Crane) : option Crane :=
  if ctxDone c && negb (hStopped (handler c)) then Some (handlerStops None c) else None.

(** ** Steps *)
Inductive CraneAction :=
| ASendMsg (m : TMsg) | ASendController (m : TMsg) | AArrive (b : bytes)
| ALoaderTop | ALoaderWait (w : LoaderWait) | ALoaderDone | AShip (rnd : bytes) (writes : list (option nat))
| AUnload (n : nat) | AUnloadFails (eof : bool) | AUnloaderDone | AHandle | AHandlerDone
| AWorker (i : nat) | AEstablish (initData : bytes) | AAbandon (id : Z) (err : option TErr) | AStop (err : option TErr)
| AMark (now : Z) | AAbort | ARequestStop.

Definition runWorker (w : CWorker) (c : Crane) : option Crane :=
  match w with
  | WAbandon id err => Some (AbandonTerminal id err c)
  | WSendMsg m => Send m c
  | WRetire => Some (Stop None c)
  | WFinishStop => Some (finishStop c)
  end.

(** The crane afterwards and what goes over the ship. *)
Definition craneStep (a : CraneAction) (c : Crane) : option (Crane * bytes) :=
  let quiet o := c' ← o; Some (c' : Crane, [] : bytes) in
  match a with
  | ASendMsg m => quiet (Send m c)
  | ASendController m => quiet (sendImportantTerminalMsg m c)
  | AArrive b => quiet (Some (c <| incoming ::= fun l => l ++ b |>))
  | ALoaderTop => quiet (loaderTop c)
  | ALoaderWait w => quiet (loaderWait w c)
  | ALoaderDone => quiet (loaderDone c)
  | AShip rnd writes => loaderShip rnd writes c
  | AUnload n => quiet (unloadRead n c)
  | AUnloadFails eof => quiet (unloadFails eof c)
  | AUnloaderDone => quiet (unloaderDone c)
  | AHandle => quiet (handleUnloaded c)
  | AHandlerDone => quiet (handlerDone c)
  | AWorker i => quiet (w ← workers c !! i; runWorker w (c <| workers ::= delete i |>))
  | AEstablish initData => quiet ('(id, c) ← getNextTerminalID c; EstablishNewTerminal id initData c)
  | AAbandon id err => quiet (Some (AbandonTerminal id err c))
  | AStop err => quiet (Some (Stop err c))
  | AMark now => quiet (Some (MarkStopping now c).2)
  | AAbort => quiet (Some (AbortStopping c).2)
  | ARequestStop => quiet (Some (MarkStoppingRequested c))
  end.
End crane.
