(* ===== verification/CraneFacts.v ===== *)
(** * Facts about cranes

    What the handler makes of the bytes of messages, however they are cut into shipments,
    and what sending and receiving leave alone. *)

From S2P Require Import Prelude Varint FlowQueue SpnWire Crane.

Section facts.
Context {V : Varint} {VS : VarintSize} {WL : WireLaws V VS} {J : Jess} {CE : CraneEnv}.

(** ** Messages on the wire *)
(** Messages the loader takes. *)
Definition fits (m : TMsg) : Prop := msgOk m /\ Z.of_nat (length (packed m)) <= maxSegmentLength.

Lemma body_nonempty m : msgOk m -> (1 <= length (body m))%nat.
Proof.
  intros [Hf Ht]. unfold body, AddIDType. rewrite lor_flow by (done || apply Hf). rewrite length_app.
  pose proof (unpack32_pack32 _ [] (proj1 (flow_sum _ _ Hf Ht))) as Hu. apply unpack32_range in Hu. lia.
Qed.
Lemma body_length m : fits m -> 1 <= Z.of_nat (length (body m)) <= maxSegmentLength.
Proof.
  intros [Hm Hl]. pose proof (body_nonempty m Hm). rewrite packed_body, length_app in Hl. lia.
Qed.
Lemma body_small m : fits m -> 0 <= Z.of_nat (length (body m)) < 2 ^ 32.
Proof. intros H%body_length. unfold maxSegmentLength in *. lia. Qed.
Lemma packed_nonempty m : fits m -> (2 <= length (packed m))%nat.
Proof.
  intros H. rewrite packed_body, length_app. pose proof (body_length m H). pose proof (body_small m H).
  pose proof (pack64_one (Z.of_nat (length (body m)))). lia.
Qed.

(** Lengths tell encodings apart. *)
Lemma pack64_head n k x y : 0 <= n < 2 ^ 32 -> 0 <= k < 2 ^ 32 -> Pack64 n ++ x = Pack64 k ++ y -> n = k /\ x = y.
Proof.
  intros Hn Hk E. pose proof (unpack32_pack64 n x Hn) as H1. rewrite E, unpack32_pack64 in H1 by done.
  injection H1 as -> _. split; [done|]. by apply app_inv_head in E.
Qed.

(** ** The handler *)

(** What the handler keeps of an unfinished segment, as it came over the wire. *)
Definition lenBytes (len : Z) : bytes := if len =? 0 then [] else Pack64 len.
Definition pend (h : Handler) : bytes := lenBytes (segmentLength h) ++ default [] (partialShipment h).
Definition lenOk (len : Z) : Prop := 0 <= len <= maxSegmentLength.

Lemma u32_length (d : bytes) n : n <= maxSegmentLength -> Z.of_nat (length d) < n -> u32 (Z.of_nat (length d)) <? n = true.
Proof. intros Hn H. unfold maxSegmentLength in *. rewrite u32_id by lia. by apply Z.ltb_lt. Qed.

(** With the whole of a message the next segment is the message; bytes up to 4 GB. *)
Lemma nextSegment_full len d m y : fits m -> lenOk len -> Z.of_nat (length d) < 2 ^ 32 -> lenBytes len ++ d = packed m ++ y ->
  nextSegment len d = SegData (body m) y.
Proof.
  intros Hm Hl Hd E. pose proof (body_small m Hm) as Hs. pose proof (body_length m Hm) as Hb.
  assert (forall x, Z.of_nat (length x) < 2 ^ 32 -> x = body m ++ y -> takeSegment (Z.of_nat (length (body m))) x = SegData (body m) y) as Ht.
  { intros x Hx ->. unfold takeSegment. rewrite u32_id by lia. rewrite length_app in *.
    destruct (_ <? _) eqn:E1; bool_prop; [lia|]. unfold GetAsContainer. rewrite Nat2Z.id, length_app.
    destruct (_ <=? _)%nat eqn:E2; [|apply Nat.leb_gt in E2; lia]. by rewrite take_app_length, drop_app_length. }
  unfold nextSegment, lenBytes in *. rewrite packed_body, <- app_assoc in E. destruct (len =? 0) eqn:E0; simpl in *.
  - rewrite E in *. rewrite GetNextN32_pack64 by done. rewrite length_app in Hd.
    case_step; bool_prop; [lia|]. case_step; bool_prop; [lia|]. apply Ht; [lia|done].
  - apply pack64_head in E as [-> ->]; [by apply Ht|unfold lenOk, maxSegmentLength in *; lia|done].
Qed.

(** With less it is kept. *)
Lemma nextSegment_part len d m t : fits m -> lenOk len -> t <> [] -> packed m = (lenBytes len ++ d) ++ t ->
  exists len' rest, nextSegment len d = SegPartial len' rest /\ lenOk len' /\ lenBytes len' ++ rest = lenBytes len ++ d.
Proof.
  intros Hm Hl Ht E. pose proof (body_small m Hm) as Hs. pose proof (body_length m Hm) as Hb.
  assert (length t <> 0%nat) as Ht' by (by destruct t).
  assert (forall x, body m = x ++ t -> takeSegment (Z.of_nat (length (body m))) x = SegPartial (Z.of_nat (length (body m))) x) as Hp.
  { intros x Hx. unfold takeSegment. rewrite u32_length; [done|lia|]. rewrite Hx, length_app. lia. }
  unfold nextSegment. unfold lenBytes in *. destruct (len =? 0) eqn:E0; simpl in *; rewrite packed_body in E.
  - destruct (decide (length d < length (Pack64 (Z.of_nat (length (body m)))))%nat) as [Hc|Hc].
    + assert (d = take (length d) (Pack64 (Z.of_nat (length (body m))))) as Hd.
      { apply (f_equal (take (length d))) in E. rewrite take_app_le in E by lia. by rewrite take_app_length in E. }
      assert (GetNextN32 d = inr ErrBufTooSmall) as -> by (rewrite Hd; by apply GetNextN32_cut). exists 0, d. split; [done|]. split; [|done]. unfold lenOk, maxSegmentLength. lia.
    + apply app_eq_inv in E as [(k & E1 & E2)|(k & E1 & E2)].
      * assert (k = []) as ->; [|rewrite app_nil_r in E1].
        { apply (f_equal length) in E1. rewrite length_app in E1. destruct k; [done|simpl in E1; lia]. }
        rewrite <- E1. rewrite <- (app_nil_r (Pack64 _)), GetNextN32_pack64 by done.
        case_step; bool_prop; [lia|]. case_step; bool_prop; [lia|].
        rewrite Hp by (by rewrite E2). eexists _, _. split; [reflexivity|]. case_step; bool_prop; [lia|]. split; [unfold lenOk; lia|done].
      * rewrite E1, GetNextN32_pack64 by done. case_step; bool_prop; [lia|].
        case_step; bool_prop; [lia|]. rewrite Hp by done. eexists _, _. split; [reflexivity|].
        case_step; bool_prop; [lia|]. split; [unfold lenOk; lia|done].
  - rewrite <- app_assoc in E. apply pack64_head in E as [<- E]; [|done|unfold lenOk, maxSegmentLength in *; lia].
    rewrite Hp by done. eexists _, _. split; [reflexivity|]. rewrite E0. split; [unfold lenOk; lia|done].
Qed.
(** ** What calls leave alone *)
Definition loaded (es : list CEvent) : list TMsg := omap (fun e => match e with ELoaded m => Some m | _ => None end) es.
Definition shipped (es : list CEvent) : list (bytes * bytes) := omap (fun e => match e with EShipped p d => Some (p, d) | _ => None end) es.
Definition segments (es : list CEvent) : list (Z * Z * bytes) := omap (fun e => match e with ESegment i t d => Some (i, t, d) | _ => None end) es.

(** What sending and receiving depend on. *)
Definition ioPart (c : Crane) :=
  (loader c, unloader c, handler c, incoming c, jession c, ship c, targetLoadSize c, Padding (opts c),
   loaded (events c), shipped (events c), segments (events c)).
(** The messages that wait to be loaded are in order, and new IDs are. *)
Definition workerOk (w : CWorker) : Prop := match w with WSendMsg m => msgOk m | _ => True end.
Record queuesOk (c : Crane) : Prop := {
  qo_terminals : Forall msgOk (terminalMsgs c);
  qo_controller : Forall msgOk (controllerMsgs c);
  qo_workers : Forall workerOk (workers c);
  qo_next : flowOk (nextTerminalID c);
}.
Definition calm (f : Crane -> Crane) : Prop := forall c, ioPart (f c) = ioPart c /\ ctxDone (f c) = ctxDone c /\ (queuesOk c -> queuesOk (f c)).

Lemma calm_id : calm id.
Proof. by intros c. Qed.
Lemma calm_comp f g : calm f -> calm g -> calm (fun c => g (f c)).
Proof. intros Hf Hg c. destruct (Hf c) as (? & ? & ?), (Hg (f c)) as (? & ? & ?). split; [congruence|]. split; [congruence|auto]. Qed.
Lemma calm_emit e : loaded [e] = [] -> shipped [e] = [] -> segments [e] = [] -> calm (emit e).
Proof.
  intros H1 H2 H3 c. split; [|split; [done|by intros [????]]]. unfold ioPart, emit, loaded, shipped, segments in *. simpl.
  by rewrite !omap_app, H1, H2, H3, !app_nil_r.
Qed.
Lemma calm_go w : workerOk w -> calm (go w).
Proof. intros Hw c. split; [done|]. split; [done|]. intros [????]. split; try done. by apply Forall_snoc. Qed.
Lemma calm_Stop err : calm (Stop err).
Proof.
  intros c. unfold Stop. destruct (stopped c); [by apply calm_id|].
  set (c0 := emit EUnregister _). assert (ioPart c0 = ioPart c /\ ctxDone c0 = ctxDone c /\ (queuesOk c -> queuesOk c0)) as (H1 & H2 & H3).
  { unfold c0. destruct (calm_emit EUnregister eq_refl eq_refl eq_refl (c <| stopped := true |>)) as (-> & -> & Hq).
    split; [done|]. split; [done|]. intros [????]. apply Hq. by split. }
  assert (forall l, calm (fun c => foldl (fun c ref => emit (EAbandon ref err) c) c l)) as Hf.
  { induction l as [|r l IH]; [apply calm_id|]. exact (calm_comp _ _ (calm_emit (EAbandon r err) eq_refl eq_refl eq_refl) IH). }
  assert (calm (fun c => match Controller c with Some ref => emit (EAbandon ref err) c | None => c end)) as Hc.
  { intros x. destruct (Controller x); [by apply calm_emit|by apply calm_id]. }
  destruct (calm_comp _ _ (calm_comp _ _ (Hf (snd <$> map_to_list (terminals c0))) Hc) (calm_go WFinishStop I) c0) as (E1 & E2 & E3).
  rewrite <- H1, <- H2. split; [exact E1|]. split; [exact E2|]. intros Hq. apply E3, H3, Hq.
Qed.
Lemma calm_AbandonTerminal id err : calm (AbandonTerminal id err).
Proof.
  intros c. unfold AbandonTerminal. destruct (terminals c !! id) as [r|].
  - destruct (calm_emit (EAbandon r (abandonReason err)) eq_refl eq_refl eq_refl (c <| terminals ::= delete id |>)) as (E1 & E2 & E3).
    rewrite E1, E2. split; [done|]. split; [done|]. intros [????]. apply E3. by split.
  - destruct (_ && _); [by apply calm_go|by apply calm_id].
Qed.
Lemma calm_Send m c c' : msgOk m -> Send m c = Some c' -> ioPart c' = ioPart c /\ ctxDone c' = ctxDone c /\ (queuesOk c -> queuesOk c').
Proof.
  unfold Send. intros Hm. destruct (_ <? _)%nat; [|done]. intros [= <-]. split; [done|]. split; [done|].
  intros [????]. split; try done. by apply Forall_snoc.
Qed.
Lemma calm_establish id data : flowOk id -> calm (establishTerminal id data).
Proof.
  intros Hid c. unfold establishTerminal. assert (forall e, msgOk (stopMsg id e)) as Hm by (intros e; split; [done|simpl; unfold MsgTypeStop; lia]).
  destruct (NewRemoteCraneTerminal _ _ _) as [e|].
  - destruct (Send _ c) as [c'|] eqn:E; [by eapply calm_Send in E|]. by apply calm_go.
  - destruct (calm_emit (EEstablished id data) eq_refl eq_refl eq_refl (setTerminal id c)) as (E1 & E2 & E3).
    rewrite E1, E2. split; [done|]. split; [done|]. intros [????]. apply E3. by split.
Qed.
Lemma calm_dispatch id t data : flowOk id -> calm (dispatch id t data).
Proof.
  intros Hid c. unfold dispatch. destruct (t =? MsgTypeInit); [by apply calm_establish|].
  destruct (_ || _); [|by apply calm_go].
  destruct (terminals c !! id) as [r|]; [|by apply calm_id]. destruct (DeliverTo _ _ _); [|by apply calm_emit].
  refine (calm_comp (emit (EDelivered r _)) (go (WAbandon id _)) _ _ c); [by apply calm_emit|by apply calm_go].
Qed.
(** ** Shipments through the handler *)

(** Nothing is left but part of the message that comes next. *)
Definition part (rem : bytes) (ms : list TMsg) : Prop :=
  rem = [] \/ exists m ms' t, ms = m :: ms' /\ t <> [] /\ packed m = rem ++ t.

Lemma part_boundary rem ms ms1 : Forall fits ms -> part rem ms -> ms1 `prefix_of` ms -> rem = stream ms1 -> rem = [] /\ ms1 = [].
Proof.
  intros Hf Hp [ms2 ->] E. destruct ms1 as [|m ms1]; [done|exfalso].
  destruct Hp as [->|(m' & ms' & t & [= <- _] & Ht & Hm)].
  - pose proof (packed_nonempty m (Forall_inv Hf)). unfold stream in E. simpl in E. apply (f_equal length) in E. rewrite length_app in E.
    simpl in E. lia.
  - unfold stream in E. simpl in E. apply (f_equal length) in E. apply (f_equal length) in Hm. rewrite length_app in *. destruct t; [done|].
    simpl in Hm. lia.
Qed.

Lemma app_prefix_cases (x t a b : bytes) : x ++ t = a ++ b -> (exists k, x = a ++ k /\ b = k ++ t) \/ (exists k, k <> [] /\ a = x ++ k /\ t = k ++ b).
Proof.
  intros [(k & E1 & E2)|(k & E1 & E2)]%app_eq_inv; [by left; exists k|].
  destruct k as [|z k]; [left; exists []; by rewrite app_nil_r in *|]. right. by exists (z :: k).
Qed.

(** Padding begins with a zero and comes where a message ends. *)
Definition padOk (pad x : bytes) (ms : list TMsg) : Prop :=
  pad = [] \/ (exists j, pad = 0 :: j) /\ exists ms1, ms1 `prefix_of` ms /\ x = stream ms1.

(** What handling a shipment does to the rest of the crane. *)
Definition quietIO (c : Crane) :=
  (loader c, unloader c, hStopped (handler c), incoming c, jession c, ship c, targetLoadSize c, Padding (opts c),
   loaded (events c), shipped (events c), ctxDone c).
Lemma calm_quiet f c : calm f -> quietIO (f c) = quietIO c /\ segments (events (f c)) = segments (events c) /\ handler (f c) = handler c.
Proof. intros Hf. destruct (Hf c) as (H1 & H2 & _). unfold ioPart in H1. injection H1 as ???????????. unfold quietIO. split; [congruence|auto]. Qed.

Lemma parse_body m : msgOk m -> ParseIDType (body m) = Some (FlowID m, MType m, MData m).
Proof. intros [Hf Ht]. by apply ParseIDType_Add. Qed.
Lemma lenBytes_nil len : lenOk len -> lenBytes len = [] -> len = 0.
Proof.
  unfold lenBytes. intros Hl. destruct (_ =? 0) eqn:E; bool_prop; [done|]. intros E1. exfalso.
  pose proof (pack64_one len) as Hone. rewrite E1 in Hone. unfold lenOk, maxSegmentLength in Hl. simpl in Hone. lia.
Qed.
Lemma lenBytes_shorter len d m y : fits m -> lenOk len -> lenBytes len ++ d = packed m ++ y -> (length y < length d)%nat.
Proof.
  intros Hm Hl. unfold lenBytes. pose proof (body_length m Hm). destruct (_ =? 0) eqn:E0; simpl; bool_prop.
  - intros ->. rewrite length_app. pose proof (packed_nonempty m Hm). lia.
  - rewrite packed_body, <- app_assoc. intros [_ ->]%pack64_head; [|unfold lenOk, maxSegmentLength in *; lia|by apply body_small].
    rewrite length_app. lia.
Qed.

Lemma handleShipment_spec fuel d pad c rem t ms :
  Forall fits ms -> lenOk (segmentLength (handler c)) -> pend (handler c) = rem -> part rem ms ->
  (rem ++ d) ++ t = stream ms -> padOk pad (rem ++ d) ms -> Z.of_nat (length (rem ++ d ++ pad)) < 2 ^ 32 ->
  (length (default [] (partialShipment (handler c)) ++ d ++ pad) < fuel)%nat -> queuesOk c ->
  exists c' ms1 ms2 rem', handleShipment fuel (d ++ pad) c = Some c' /\ ms = ms1 ++ ms2 /\
    segments (events c') = segments (events c) ++ (seg <$> ms1) /\ rem ++ d = stream ms1 ++ rem' /\
    pend (handler c') = rem' /\ lenOk (segmentLength (handler c')) /\ part rem' ms2 /\ quietIO c' = quietIO c /\ queuesOk c'.
Proof.
  revert d c rem ms. induction fuel as [|fuel IH]; intros d c rem ms Hf Hl Hr Hp Hs Hpad Hlen Hfuel Hq; [lia|].
  destruct (d ++ pad) as [|x0 dp] eqn:Ed.
  { apply app_eq_nil in Ed as [-> ->]. exists c, [], ms, rem. rewrite !app_nil_r. by split_and!. }
  simpl handleShipment. rewrite <- Ed in *. set (D := default [] _ ++ d ++ pad).
  assert (lenBytes (segmentLength (handler c)) ++ D = rem ++ d ++ pad) as HD by (subst rem D; unfold pend; by rewrite <- !app_assoc).
  assert (Z.of_nat (length D) < 2 ^ 32) as HDl by (rewrite <- HD, length_app in Hlen; lia).
  destruct (decide (rem ++ d = [])) as [[-> ->]%app_eq_nil|Hne].
  { (* only padding *)
    destruct Hpad as [->|[[j ->] _]]; [done|]. simpl in HD. unfold pend in Hr. apply app_eq_nil in Hr as [Hr1 Hr2].
    apply lenBytes_nil in Hr1; [|done]. unfold D. rewrite Hr2, Hr1. unfold nextSegment. simpl. rewrite GetNextN32_zero. simpl.
    exists (setHandler None 0 c), [], ms, []. split_and!; try done; [by rewrite app_nil_r|by destruct Hq]. }
  destruct ms as [|m ms]; [by destruct (rem ++ d)|].
  assert (stream (m :: ms) = packed m ++ stream ms) as Em by done. rewrite Em in Hs.
  pose proof (Forall_inv Hf) as Hm. destruct (app_prefix_cases _ _ _ _ Hs) as [(k & E1 & E2)|(k & Hk & E1 & E2)].
  - (* the message is complete *)
    rewrite (app_assoc rem), E1, <- app_assoc in HD. rewrite (nextSegment_full _ _ m (k ++ pad)) by done.
    rewrite (parse_body m) by apply Hm. set (c1 := dispatch _ _ _ _).
    assert (quietIO c1 = quietIO c /\ segments (events c1) = segments (events c) ++ [seg m] /\ handler c1 = mkHandler None 0 (hStopped (handler c)) /\ queuesOk c1)
      as (Hq1 & Hs1 & Hh1 & Hqo1).
    { unfold c1. set (c0 := emit _ _). destruct (calm_quiet _ c0 (calm_dispatch (FlowID m) (MType m) (MData m) (proj1 (proj1 Hm)))) as (-> & -> & ->).
      unfold c0, quietIO, emit, loaded, shipped, segments. simpl. rewrite !omap_app. simpl. rewrite !app_nil_r. split_and!; try done.
      eapply calm_dispatch; [apply Hm|]. by destruct Hq. }
    destruct (IH k c1 [] ms) as (c' & ms1 & ms2 & rem' & H1 & -> & H3 & H4 & H5 & H6 & H7 & H8 & H9).
    + exact (Forall_inv_tail Hf).
    + rewrite Hh1. simpl. unfold lenOk, maxSegmentLength. lia.
    + by rewrite Hh1.
    + by left.
    + done.
    + destruct Hpad as [->|[Hj [[|m1 ms1] [[ms2 Hms] Hst]]]]; [by left| |].
      * exfalso. rewrite E1 in Hst. apply app_eq_nil in Hst as [Hst _]. pose proof (packed_nonempty m Hm) as Hpn. rewrite Hst in Hpn. simpl in Hpn. lia.
      * right. split; [done|]. exists ms1. simpl in Hms. injection Hms as <- ->. split; [by exists ms2|].
        rewrite E1 in Hst. by apply app_inv_head in Hst.
    + rewrite (app_assoc rem), E1 in Hlen. rewrite !length_app in *. simpl. lia.
    + rewrite Hh1. simpl. apply lenBytes_shorter in HD; [|done..]. unfold D in HD. lia.
    + done.
    + exists c', (m :: ms1), ms2, rem'. rewrite H1. split_and!; try done.
      * by rewrite H3, Hs1, <- app_assoc.
      * rewrite E1. simpl in H4. rewrite H4. by rewrite app_assoc.
      * by rewrite H8.
  - (* more is needed *)
    assert (pad = []) as ->.
    { destruct Hpad as [->|[_ [[|m1 ms1] [[ms2 Hms] Hst]]]]; [done| |].
      - by destruct Hne.
      - exfalso. simpl in Hms. injection Hms as <- ->. apply (f_equal length) in E1. apply (f_equal length) in Hst.
        unfold stream in Hst. simpl in Hst. rewrite !length_app in *. destruct k; [done|]. simpl in E1. lia. }
    rewrite app_nil_r in *. destruct (nextSegment_part (segmentLength (handler c)) D m k) as (len' & rest & -> & Hl' & Hr'); try done.
    { by rewrite HD. }
    exists (setHandler (Some rest) len' c), [], (m :: ms), (rem ++ d). split_and!; try done.
    + by rewrite app_nil_r.
    + unfold pend. simpl. by rewrite Hr', HD.
    + right. exists m, ms, k. by split_and!.
    + by destruct Hq.
Qed.
End facts.
