(* ===== verification/CraneSystem.v ===== *)
(** * Two cranes and the connection between them

    A pair of cranes, each step of one of them, and the bytes on their way.  The
    invariant of one direction: what was loaded on one side is what the handler of the
    other took, what it keeps of an unfinished segment, what is on its way and what is in
    the shipment that is being filled. *)

From S2P Require Import Prelude Varint FlowQueue SpnWire Crane CraneFacts.

Section system.
Context {V : Varint} {VS : VarintSize} {WL : WireLaws V VS} {J : Jess} {CE : CraneEnv}.
Context {Snd Rcv : Type} (sendOf : Session -> Snd) (recvOf : Session -> Rcv) (linked : Snd -> Rcv -> Prop).
Context {JL : JessLaws J sendOf recvOf linked}.

(** ** What steps leave alone *)
Definition senderView (c : Crane) :=
  (loader c, loaded (events c), shipped (events c), sendOf <$> jession c, targetLoadSize c, Padding (opts c)).
Definition recvView (c : Crane) :=
  (unloader c, handler c, incoming c, recvOf <$> jession c, Ship.initial (ship c), segments (events c)).

Definition isSending (a : CraneAction) : bool :=
  match a with ALoaderTop | ALoaderWait _ | ALoaderDone | AShip _ _ => true | _ => false end.
Definition isReceiving (a : CraneAction) : bool :=
  match a with AArrive _ | AUnload _ | AUnloadFails _ | AUnloaderDone | AHandle | AHandlerDone => true | _ => false end.
(** Clients send messages in order. *)
Definition actionOk (a : CraneAction) : Prop :=
  match a with ASendMsg m | ASendController m => msgOk m | _ => True end.

Lemma ioPart_views c c' : ioPart c' = ioPart c -> senderView c' = senderView c /\ recvView c' = recvView c.
Proof. unfold ioPart, senderView, recvView. intros [=]. split; congruence. Qed.
Lemma calm_views f c : calm f -> senderView (f c) = senderView c /\ recvView (f c) = recvView c.
Proof. intros Hf. apply ioPart_views, Hf. Qed.

(** The handler and the sending side. *)
Record handled (c c' : Crane) : Prop := {
  ha_sender : senderView c' = senderView c;
  ha_queues : queuesOk c -> queuesOk c';
  ha_done : ctxDone c' = ctxDone c;
}.
#[export] Instance handled_preorder : PreOrder handled.
Proof. split; [by intros c|]. intros c1 c2 c3 [??H1] [??H2]. split; [congruence|auto|congruence]. Qed.
Lemma handled_calm f c : calm f -> handled c (f c).
Proof. intros Hf. split; [by apply calm_views|apply Hf|apply Hf]. Qed.
Lemma handled_stops err c : handled c (handlerStops err c).
Proof. unfold handlerStops. etrans; [|apply handled_calm, calm_Stop]. split; [done| |done]. by intros [????]. Qed.
Lemma handled_handler p l c : handled c (setHandler p l c).
Proof. split; [done| |done]. by intros [????]. Qed.
Lemma handleShipment_handled fuel d c c' : handleShipment fuel d c = Some c' -> handled c c'.
Proof.
  revert d c. induction fuel as [|fuel IH]; intros d c; destruct d as [|b d]; cbn [handleShipment]; try (by intros [= <-]); try done.
  destruct (nextSegment _ _) as [len rest| | |s rest].
  - intros [= <-]. apply handled_handler.
  - intros [= <-]. apply handled_handler.
  - intros [= <-]. etrans; [apply (handled_handler None 0)|apply handled_stops].
  - destruct (ParseIDType s) as [[[id t] x]|] eqn:E.
    + intros Hc. etrans; [apply (handled_handler None 0)|]. etrans; [|eapply IH, Hc]. apply ParseIDType_flow in E.
      etrans; [|apply handled_calm, calm_dispatch, E]. set (c0 := setHandler _ _ c). split; [|by intros [????]|done].
      unfold senderView, emit, loaded, shipped. simpl. by rewrite !omap_app, !app_nil_r.
    + intros [= <-]. etrans; [apply (handled_handler None 0)|apply handled_stops].
Qed.
Lemma handled_unloader u c : handled c (c <| unloader := u |>).
Proof. split; [done| |done]. by intros [????]. Qed.
Lemma handled_unloaderStops err c : handled c (unloaderStops err c).
Proof. unfold unloaderStops. etrans; [apply handled_unloader|apply handled_calm, calm_Stop]. Qed.
Lemma handled_parseHead buf c : handled c (parseHead buf c).
Proof.
  unfold parseHead. destruct (Unpack64 buf) as [[len n]|]; [|apply handled_unloaderStops].
  destruct (_ || _); [apply handled_unloaderStops|]. destruct (_ =? _); apply handled_unloader.
Qed.
Lemma unloadRead_handled n c c' : unloadRead n c = Some c' -> handled c c'.
Proof.
  unfold unloadRead. destruct (unloader c) as [buf|len buf|d|]; try done; destruct (Ship.UnloadTo _ _ _) as [sh b] eqn:E; intros [= <-];
    destruct (_ =? _)%nat; try (by split; [done|intros [????]|done]).
  etrans; [|apply handled_parseHead]. by split; [done|intros [????]|done].
Qed.
Lemma decrypt_handled d c x c' : decrypt d c = Some (x, c') -> handled c c'.
Proof.
  unfold decrypt. destruct (jession c) as [s|] eqn:E; [|by intros [= <- <-]].
  destruct (unseal s d) as [[w r]|] eqn:Eu; [|done]. intros [= <- <-]. apply unseal_send in Eu. split; [|by intros [????]|done].
  unfold senderView. simpl. rewrite E. simpl. by rewrite Eu.
Qed.
Lemma handleUnloaded_handled c c' : handleUnloaded c = Some c' -> handled c c'.
Proof.
  unfold handleUnloaded. destruct (unloader c) as [buf|len buf|d|]; try done. destruct (hStopped _); [done|].
  destruct (decrypt _ _) as [[x c1]|] eqn:E.
  - intros Hc. etrans; [apply (handled_unloader (UHead []))|]. etrans; [eapply decrypt_handled, E|]. by eapply handleShipment_handled.
  - intros [= <-]. etrans; [apply (handled_unloader (UHead []))|apply handled_stops].
Qed.

(** Workers and the remaining calls. *)
Lemma senderView_ctx c (b : bool) : senderView (c <| ctxDone := b |>) = senderView c.
Proof. done. Qed.
Definition keepsQueues (c c' : Crane) : Prop := (queuesOk c -> queuesOk c') /\ (ctxDone c = true -> ctxDone c' = true).
Lemma runWorker_frame i w c c' : workers c !! i = Some w -> runWorker w (c <| workers ::= delete i |>) = Some c' ->
  senderView c' = senderView c /\ recvView c' = recvView c /\ keepsQueues c c'.
Proof.
  intros Hi. set (c0 := c <| workers ::= _ |>).
  assert (senderView c0 = senderView c /\ recvView c0 = recvView c) as [E1 E2] by done.
  assert (queuesOk c -> queuesOk c0 /\ workerOk w) as Hq.
  { intros [????]. split; [|by eapply Forall_lookup_1]. split; try done. by apply Forall_delete. }
  assert (forall f, calm f -> senderView (f c0) = senderView c /\ recvView (f c0) = recvView c /\ keepsQueues c (f c0)) as Hc.
  { intros f Hf. destruct (calm_views f c0 Hf) as [-> ->]. split; [done|]. split; [done|]. split; [intros Hx; apply Hf; by apply Hq|].
    destruct (Hf c0) as (_ & -> & _). done. }
  destruct w as [id err|m| |]; simpl.
  - intros [= <-]. by apply Hc, calm_AbandonTerminal.
  - unfold Send. destruct (_ <? _)%nat; [|done]. intros [= <-]. split; [done|]. split; [done|]. split; [|done].
    intros [[????] Hm]%Hq. split; try done. by apply Forall_snoc.
  - intros [= <-]. by apply Hc, calm_Stop.
  - intros [= <-]. unfold finishStop.
    destruct (Hc (fun c => emit ENotify (emit ECancel (emit ESink c)))) as (F1 & F2 & F3 & F4).
    { apply (calm_comp (fun c => emit ECancel (emit ESink c)) (emit ENotify)); [|by apply calm_emit].
      by apply (calm_comp (emit ESink) (emit ECancel)); apply calm_emit. }
    split; [exact F1|]. split; [exact F2|]. split; [|done]. intros Hx. destruct (F3 Hx). by split.
Qed.

Lemma findTerminalID_flow fuel next terms id : flowOk next -> findTerminalID fuel next terms = Some id -> flowOk id.
Proof.
  revert next. induction fuel as [|fuel IH]; intros next Hn; simpl; [done|].
  assert (flowOk (u32 (next + 8))) as Hn'.
  { destruct Hn as [Hr Hm]. split; [unfold u32; apply Z.mod_pos_bound; lia|]. unfold u32. rewrite <- (Znumtheory.Zmod_div_mod 4 (2 ^ 32)) by (done || by exists (2 ^ 30)).
    rewrite Zplus_mod, Hm. done. }
  destruct (terms !! _); [by apply IH|]. by intros [= <-].
Qed.
Lemma other_calls a c c' out : craneStep a c = Some (c', out) -> isSending a = false -> isReceiving a = false -> actionOk a ->
  out = [] /\ senderView c' = senderView c /\ recvView c' = recvView c /\ keepsQueues c c'.
Proof.
  unfold keepsQueues. intros Hs Ha1 Ha2 Hok.
  assert (forall f, calm f -> senderView (f c) = senderView c /\ recvView (f c) = recvView c /\ (queuesOk c -> queuesOk (f c)) /\ (ctxDone c = true -> ctxDone (f c) = true)) as Hc.
  { intros f Hf. destruct (calm_views f c Hf) as [-> ->]. split; [done|]. split; [done|]. split; [apply Hf|]. destruct (Hf c) as (_ & -> & _). done. }
  assert (forall f b, senderView (emit ESyncState (c <| stopping := b |> <| netState ::= f |>)) = senderView c /\
    recvView (emit ESyncState (c <| stopping := b |> <| netState ::= f |>)) = recvView c /\ (queuesOk c -> queuesOk (emit ESyncState (c <| stopping := b |> <| netState ::= f |>))) /\ (ctxDone c = true -> ctxDone c = true)) as Hm.
  { intros f b. destruct (calm_views (emit ESyncState) (c <| stopping := b |> <| netState ::= f |>)) as [-> ->]; [by apply calm_emit|].
    split; [done|]. split; [done|]. split; [by intros [????]|done]. }
  destruct a; try done; simpl in Hs.
  - unfold Send in Hs. destruct (_ <? _)%nat; simplify_eq/=. split_and!; try done. intros [????]. split; try done. by apply Forall_snoc.
  - unfold sendImportantTerminalMsg in Hs. destruct (_ <? _)%nat; simplify_eq/=. split_and!; try done. intros [????]. split; try done. by apply Forall_snoc.
  - destruct (workers c !! i) as [w|] eqn:Ew; [|done]. simpl in Hs. destruct (runWorker _ _) as [c1|] eqn:Er; simplify_eq/=.
    split; [done|]. by eapply runWorker_frame.
  - unfold getNextTerminalID in Hs. destruct (findTerminalID _ _ _) as [id|] eqn:Ei; [|done]. simpl in Hs.
    unfold EstablishNewTerminal, sendImportantTerminalMsg in Hs. destruct (_ <? _)%nat; simplify_eq/=. split_and!; try done.
    intros [? ? ? Hn]. pose proof (findTerminalID_flow (S (size (terminals c))) _ _ _ Hn Ei) as Hid.
    split; try done. apply Forall_snoc; [done|]. split; [done|]. simpl. unfold MsgTypeInit. lia.
  - simplify_eq/=. split; [done|]. apply Hc, calm_AbandonTerminal.
  - simplify_eq/=. split; [done|]. apply Hc, calm_Stop.
  - simplify_eq/=. split; [done|]. unfold MarkStopping. destruct (negb _); [exact (Hc id calm_id)|]. destruct (stopping c); [exact (Hc id calm_id)|].
    by apply (Hm (fun s => s <| markedStoppingAt := Some now |>)).
  - simplify_eq/=. split; [done|]. unfold AbortStopping. simpl.
    pose proof (Hm (fun s => s <| stoppingRequested := false |> <| markedStoppingAt := None |>) false) as Hx.
    destruct (_ || _); [exact Hx|]. split_and!; try done. by intros [????].
  - simplify_eq/=. split; [done|]. unfold MarkStoppingRequested. destruct (stoppingRequested _); [exact (Hc id calm_id)|].
    by apply (Hm (fun s => s <| stoppingRequested := true |>)).
Qed.
Lemma handled_keeps c c' : handled c c' -> senderView c' = senderView c /\ keepsQueues c c'.
Proof. intros [H1 H2 H3]. split; [done|]. split; [done|]. by rewrite H3. Qed.
Lemma receiving_calls a c c' out : craneStep a c = Some (c', out) -> isReceiving a = true ->
  out = [] /\ senderView c' = senderView c /\ keepsQueues c c'.
Proof.
  intros Hs Ha. enough (out = [] /\ handled c c') as [-> H] by (split; [done|by apply handled_keeps]).
  destruct a; try done; simpl in Hs.
  - simplify_eq. split; [done|]. by split; [done|intros [????]|done].
  - destruct (unloadRead n c) eqn:E; simplify_eq/=. split; [done|by eapply unloadRead_handled].
  - destruct (unloadFails eof c) eqn:E; simplify_eq/=. split; [done|]. unfold unloadFails in E.
    destruct (unloader c); simplify_eq; apply handled_unloaderStops.
  - destruct (unloaderDone c) eqn:E; simplify_eq/=. split; [done|]. unfold unloaderDone in E.
    destruct (unloader c); try done. destruct (ctxDone c); simplify_eq. apply handled_unloaderStops.
  - destruct (handleUnloaded c) eqn:E; simplify_eq/=. split; [done|by eapply handleUnloaded_handled].
  - destruct (handlerDone c) eqn:E; simplify_eq/=. split; [done|]. unfold handlerDone in E. destruct (_ && _); simplify_eq. apply handled_stops.
Qed.

(** Sending and the receiving side. *)
Record loads (c c' : Crane) : Prop := {
  lo_recv : recvView c' = recvView c;
  lo_queues : queuesOk c -> queuesOk c';
  lo_done : ctxDone c' = ctxDone c;
}.
#[export] Instance loads_preorder : PreOrder loads.
Proof. split; [by intros c|]. intros c1 c2 c3 [??H1] [??H2]. split; [congruence|auto|congruence]. Qed.
Lemma loads_loader l c : loads c (setLoader l c).
Proof. by split; [done|intros [????]|done]. Qed.
Lemma loads_stops err c : loads c (loaderStops err c).
Proof.
  unfold loaderStops. etrans; [apply loads_loader|]. destruct (calm_Stop err (setLoader ((loader c) <| lpc := LStopped |>) c)) as (H1 & H2 & H3).
  by split; [apply ioPart_views in H1 as [_ ?]| |].
Qed.
Lemma loads_emit e c : segments [e] = [] -> loads c (emit e c).
Proof.
  intros He. split; [|by intros [????]|done]. unfold recvView, emit. simpl. unfold segments in *. by rewrite omap_app, He, app_nil_r.
Qed.
Lemma loads_fill m c : loads c (fill m c).
Proof.
  unfold fill. destruct (_ <? _).
  - etrans; [apply loads_loader|by apply loads_emit].
  - etrans; [apply loads_loader|by apply loads_emit].
Qed.
Lemma load_loads rnd d c ready c' : load rnd d c = Some (ready, c') -> loads c c'.
Proof.
  unfold load. destruct (encrypt _ c) as [[enc c1]|] eqn:E; [|done]. simpl. intros [= <- <-].
  assert (loads c c1) as H.
  { unfold encrypt in E. destruct (jession c) as [s|] eqn:Ej; [|by simplify_eq]. destruct (seal s _) as [[w s']|] eqn:Es; simplify_eq.
    apply seal_recv in Es. split; [|by intros [????]|done]. unfold recvView. simpl. rewrite Ej. simpl. by rewrite Es. }
  etrans; [exact H|]. etrans; [|by apply loads_emit]. by split; [done|intros [????]|done].
Qed.
Lemma Load_initial writes sh d sh' w cl err : Ship.Load writes sh d = Some (sh', w, cl, err) -> Ship.initial sh' = Ship.initial sh.
Proof.
  revert d w. induction writes as [|[n|] writes IH]; intros d w; destruct d as [|b d]; cbn [Ship.Load]; try (by intros; simplify_eq).
  destruct (n =? 0)%nat; [by intros; simplify_eq|]. destruct (n <? _)%nat; [|by intros; simplify_eq].
  destruct (Ship.Load writes sh _) as [[[[??]?]?]|] eqn:E; [|done]. intros. simplify_eq/=. by eapply IH.
Qed.
Lemma loaderShip_loads rnd writes c c' out : loaderShip rnd writes c = Some (c', out) -> loads c c'.
Proof.
  unfold loaderShip. destruct (lpc (loader c)); try done.
  destruct (if targetLoadSize c <? _ then _ else _) as [now rest].
  destruct (load rnd now c) as [[ready c1]|] eqn:E; [|intros [= <- <-]; apply loads_stops].
  destruct (Ship.Load _ _ _) as [[[[sh w] cl] err]|] eqn:El; [|done]. simpl.
  set (c2 := mkCrane _ _ _ _ _ _ _ _ _ _ _ _ _ _ _ _ _ _ _ _ _). intros Hc. apply load_loads in E. etrans; [exact E|].
  assert (loads c1 c2) as H2.
  { split; [|by intros [????]|done]. unfold recvView, c2. simpl. by rewrite (Load_initial _ _ _ _ _ _ _ El). }
  etrans; [exact H2|]. destruct err; injection Hc as <- <-; [apply loads_stops|apply loads_loader].
Qed.
Lemma sending_calls a c c' out : craneStep a c = Some (c', out) -> isSending a = true -> recvView c' = recvView c /\ keepsQueues c c'.
Proof.
  intros Hs Ha. enough (loads c c') as [H1 H2 H3] by (split; [done|split; [done|by rewrite H3]]).
  assert (forall l, (queuesOk c -> Forall msgOk l) -> loads c (c <| controllerMsgs := l |>)) as Hcm.
  { intros l Hl. split; [done| |done]. intros Hq. pose proof (Hl Hq). by destruct Hq. }
  assert (forall l, (queuesOk c -> Forall msgOk l) -> loads c (c <| terminalMsgs := l |>)) as Htm.
  { intros l Hl. split; [done| |done]. intros Hq. pose proof (Hl Hq). by destruct Hq. }
  destruct a; try done; simpl in Hs.
  - destruct (loaderTop c) eqn:E; simplify_eq/=. unfold loaderTop in E. destruct (lpc _); try done.
    destruct (controllerMsgs c) as [|m l] eqn:Em; destruct (_ <? _); simplify_eq; try apply loads_loader.
    + destruct (ctxDone c); simplify_eq. apply loads_loader.
    + etrans; [|apply loads_fill]. apply Hcm. intros [? Hq ??]. rewrite Em in Hq. by apply Forall_cons in Hq as [_ ?].
  - destruct (loaderWait w c) eqn:E; simplify_eq/=. unfold loaderWait in E. destruct (lpc _); try done. destruct w.
    + destruct (controllerMsgs c) as [|m l] eqn:Em; simplify_eq. etrans; [|apply loads_fill]. apply Hcm. intros [? Hq ??].
      rewrite Em in Hq. by apply Forall_cons in Hq as [_ ?].
    + destruct (terminalMsgs c) as [|m l] eqn:Em; simplify_eq. etrans; [|apply loads_fill]. apply Htm. intros [Hq ???].
      rewrite Em in Hq. by apply Forall_cons in Hq as [_ ?].
    + destruct (loadingTimer _); simplify_eq. apply loads_loader.
  - destruct (loaderDone c) eqn:E; simplify_eq/=. unfold loaderDone in E.
    destruct (lpc _); try done; [destruct (_ && _)|destruct (ctxDone c)]; simplify_eq; apply loads_stops.
  - by eapply loaderShip_loads.
Qed.
(** ** The invariant of one direction *)
Definition payloads (l : list (bytes * bytes)) : bytes := l ≫= fst.
Definition wires (l : list (bytes * bytes)) : bytes := l ≫= fun x => PrependLength x.2.
Definition sendO (o : option Session) : option Snd := sendOf <$> o.
Definition linkO (y : option Snd) (z : option Rcv) : Prop :=
  match y, z with Some y, Some z => linked y z | None, None => True | _, _ => False end.
Definition sealO (o : option Session) (d : bytes) : option (bytes * option Session) :=
  match o with
  | None => Some (d, None)
  | Some s => match seal s d with inl (w, s) => Some (w, Some s) | inr _ => None end
  end.

(** Shipments sent in order from one state of the sending side to another, after the
    bytes [x] of messages. *)
Inductive chain (ms : list TMsg) : bytes -> option Snd -> list (bytes * bytes) -> option Snd -> Prop :=
| chain_nil x y : chain ms x y [] y
| chain_cons x s p pad enc s' l z : sealO s (p ++ pad) = Some (enc, s') -> padOk pad (x ++ p) ms ->
    Z.of_nat (length (p ++ pad)) <= 16000 -> 0 < Z.of_nat (length enc) < 2 ^ 14 -> chain ms (x ++ p) (sendO s') l z ->
    chain ms x (sendO s) ((p, enc) :: l) z.

Lemma padOk_mono pad x ms ms' : padOk pad x ms -> padOk pad x (ms ++ ms').
Proof. intros [->|[H [ms1 [Hp ->]]]]; [by left|]. right. split; [done|]. exists ms1. split; [by apply prefix_app_r|done]. Qed.
Lemma chain_mono ms ms' x y l z : chain ms x y l z -> chain (ms ++ ms') x y l z.
Proof. induction 1; [constructor|]. econstructor; eauto using padOk_mono. Qed.
Lemma chain_sizes ms x y l z : chain ms x y l z -> Forall (fun x => 0 < Z.of_nat (length x.2) < 2 ^ 14) l.
Proof. by induction 1; constructor. Qed.
Lemma payloads_app l k : payloads (l ++ k) = payloads l ++ payloads k.
Proof. apply bind_app. Qed.
Lemma wires_app l k : wires (l ++ k) = wires l ++ wires k.
Proof. apply bind_app. Qed.
Lemma chain_snoc ms x y l s p pad enc s' : chain ms x y l (sendO s) -> sealO s (p ++ pad) = Some (enc, s') ->
  padOk pad ((x ++ payloads l) ++ p) ms -> Z.of_nat (length (p ++ pad)) <= 16000 -> 0 < Z.of_nat (length enc) < 2 ^ 14 ->
  chain ms x y (l ++ [(p, enc)]) (sendO s').
Proof.
  intros Hc Hs. remember (sendO s) as z eqn:Ez. revert Ez. induction Hc as [x y|x s0 p0 pad0 enc0 s0' l z Hs0 Hp0 Hn0 Hl0 Hc IH]; intros Ez Hp Hn Hl.
  - subst y. unfold payloads in Hp. simpl in Hp. rewrite app_nil_r in Hp. econstructor; try done. constructor.
  - simpl. econstructor; try done. apply IH; try done. unfold payloads in *. simpl in Hp. by rewrite <- (app_assoc x).
Qed.

(** The sender: the stream of what it loaded is what it shipped and what it still has. *)
Record sends (c : Crane) : Prop := {
  se_fits : Forall fits (loaded (events c));
  se_stream : exists rest, stream (loaded (events c)) = payloads (shipped (events c)) ++ rest /\
    (lpc (loader c) <> LStopped -> rest = shipment (loader c));
  se_target : 0 < targetLoadSize c <= 16000;
  se_sending : lpc (loader c) = LSending \/ loadingTimer (loader c) = true -> shipment (loader c) <> [];
  se_progress : shipment (loader c) <> [] -> lpc (loader c) = LSending \/ loadingTimer (loader c) = true \/
    targetLoadSize c <= Z.of_nat (length (shipment (loader c))) \/ lpc (loader c) = LStopped;
}.

(** The receiver, for shipments [l2] that it has not handled yet and bytes [lk] on their
    way; [cut] is what an unfinished write left out. *)
Definition inFlight (c : Crane) (lk cut : bytes) (l2 : list (bytes * bytes)) : Prop :=
  match unloader c with
  | UHead buf => (length buf < 2)%nat /\ buf ++ incoming c ++ lk ++ cut = wires l2
  | UBody len _ buf => (length buf < len)%nat /\ exists p enc e2 l3, l2 = (p, enc) :: l3 /\ length enc = len /\ enc = buf ++ e2 /\
      incoming c ++ lk ++ cut = e2 ++ wires l3
  | USubmit d => exists p l3, l2 = (p, d) :: l3 /\ incoming c ++ lk ++ cut = wires l3
  | UStopped => True
  end.
Record direction (a b : Crane) (lk : bytes) : Prop := {
  di_sends : sends a;
  di_rest : exists l1 l2 y m1 m2 cut, shipped (events a) = l1 ++ l2 /\ loaded (events a) = m1 ++ m2 /\
    chain (loaded (events a)) (payloads l1) y l2 (sendO (jession a)) /\ linkO y (recvOf <$> jession b) /\
    segments (events b) = seg <$> m1 /\ payloads l1 = stream m1 ++ pend (handler b) /\ part (pend (handler b)) m2 /\
    inFlight b lk cut l2 /\ (lpc (loader a) <> LStopped -> cut = []);
  di_len : lenOk (segmentLength (handler b));
  di_initial : Ship.initial (ship b) = None;
  di_handler : hStopped (handler b) = true -> ctxDone b = true;
}.

(** Steps that do not concern a direction. *)
Lemma direction_frame a b a' b' lk : direction a b lk -> senderView a' = senderView a -> recvView b' = recvView b ->
  (ctxDone b = true -> ctxDone b' = true) -> direction a' b' lk.
Proof.
  intros [[S1 S2 S3 S4 S5] (l1 & l2 & y & m1 & m2 & cut & H1 & H2 & H3 & H4 & H5 & H6 & H7 & H8 & H9) D3 D4 D5] Ha Hb Hd.
  unfold senderView in Ha. injection Ha as A1 A2 A3 A4 A5 A6. unfold recvView in Hb. injection Hb as B1 B2 B3 B4 B5 B6.
  split.
  - split; by rewrite ?A1, ?A2, ?A3, ?A5.
  - exists l1, l2, y, m1, m2, cut. unfold sendO, inFlight in *. rewrite ?A1, ?A2, ?A3, ?A4, ?B1, ?B2, ?B3, ?B4, ?B6. by split_and!.
  - by rewrite B2.
  - by rewrite B5.
  - rewrite B2. auto.
Qed.
(** ** The loader keeps a direction *)
Lemma direction_loader a b lk l : direction a b lk -> lpc (loader a) <> LStopped -> shipment l = shipment (loader a) ->
  loadingTimer l = loadingTimer (loader a) -> (lpc (loader a) = LSending -> lpc l = LStopped) ->
  (lpc l = LSending \/ loadingTimer l = true -> shipment l <> []) -> direction (setLoader l a) b lk.
Proof.
  intros [[S1 (rest & S2 & S2') S3 S4 S5] (l1 & l2 & y & m1 & m2 & cut & H1 & H2 & H3 & H4 & H5 & H6 & H7 & H8 & H9) D3 D4 D5] Ha Hs Hlt Hls Ht.
  split; try done.
  - split; try done.
    + exists rest. split; [done|]. intros _. simpl. by rewrite Hs, S2'.
    + simpl. rewrite Hs, Hlt. intros Hn. destruct (S5 Hn) as [?|[?|[?|?]]]; auto.
  - exists l1, l2, y, m1, m2, cut. split_and!; try done. intros _. by apply H9.
Qed.
Lemma direction_stops a b lk err : direction a b lk -> lpc (loader a) <> LStopped -> direction (loaderStops err a) b lk.
Proof.
  intros Hd Ha. unfold loaderStops. destruct (calm_views (Stop err) (setLoader ((loader a) <| lpc := LStopped |>) a) (calm_Stop err)) as [E _].
  eapply direction_frame; [|exact E|done|done]. apply direction_loader; try done; try (by rewrite Hpc). simpl. intros [?|Ht]; [done|].
  destruct (di_sends _ _ _ Hd) as [_ _ _ Hse _]. auto.
Qed.
Lemma direction_fill a b lk m : direction a b lk -> lpc (loader a) <> LStopped -> lpc (loader a) <> LSending -> msgOk m -> direction (fill m a) b lk.
Proof.
  intros Hd Ha Ha' Hm. pose proof Hd as [[S1 (rest & S2 & S2') S3 S4 S5] (l1 & l2 & y & m1 & m2 & cut & H1 & H2 & H3 & H4 & H5 & H6 & H7 & H8 & H9) D3 D4 D5].
  unfold fill. change (MData (PackMsg m)) with (packed m). destruct (maxSegmentLength <? _) eqn:E; bool_prop.
  - eapply direction_frame; [apply (direction_loader a b lk ((loader a) <| lpc := LTop |>)); try done| |done|done].
    + simpl. intros [?|Ht]; [done|]. auto.
    + unfold senderView, emit, loaded, shipped. simpl. by rewrite !omap_app, !app_nil_r.
  - set (a' := emit _ _). assert (loaded (events a') = loaded (events a) ++ [m]) as El by (unfold a', emit, loaded; simpl; by rewrite omap_app).
    assert (shipped (events a') = shipped (events a)) as Es by (unfold a', emit, shipped; simpl; by rewrite omap_app, app_nil_r).
    assert (fits m) as Hf by (by split). split; try done.
    + split; try done.
      * rewrite El. by apply Forall_snoc.
      * exists (rest ++ packed m). rewrite El, Es, stream_app, S2, <- app_assoc. unfold stream at 1. simpl. rewrite app_nil_r. split; [done|].
        intros _. by rewrite S2'.
      * intros _ En. simpl in En. apply app_eq_nil in En as [_ En]. pose proof (packed_nonempty m Hf) as Hp. rewrite En in Hp. simpl in Hp. lia.
      * intros _. right. by left.
    + exists l1, l2, y, m1, (m2 ++ [m]), cut. rewrite El, Es. split_and!; try done.
      * by rewrite H2, app_assoc.
      * by apply chain_mono.
      * destruct H7 as [->|(x & ms & t & -> & Ht & Hx)]; [by left|]. right. exists x, (ms ++ [m]), t. by split_and!.
      * intros _. by apply H9.
Qed.

Lemma Load_spec writes sh d sh' w cl err : Ship.Load writes sh d = Some (sh', w, cl, err) -> d <> [] ->
  exists u, d = w ++ u /\ (err = false -> u = []).
Proof.
  revert d w. induction writes as [|[n|] writes IH]; intros d w; destruct d as [|b d]; cbn [Ship.Load]; try done.
  - destruct (n =? 0)%nat; [intros; simplify_eq; by exists (b :: d)|]. destruct (n <? length (b :: d))%nat eqn:En.
    + destruct (Ship.Load writes sh _) as [[[[??]?]?]|] eqn:E; [|done]. intros [= <- <- <- <-] _.
      apply Nat.ltb_lt in En. destruct (IH _ _ E) as (u & Hu & He).
      { intros Hn. apply (f_equal length) in Hn. rewrite length_drop in Hn. simpl in *. lia. }
      exists u. rewrite <- app_assoc, <- Hu. by rewrite (take_drop n (b :: d)).
    + intros; simplify_eq. exists []. by rewrite app_nil_r.
  - intros; simplify_eq. by exists (b :: d).
Qed.

Lemma padShipment_spec c rnd d : exists pad, padShipment c rnd d = d ++ pad /\
  (pad = [] \/ (exists j, pad = 0 :: j) /\ Z.of_nat (length d) < targetLoadSize c) /\
  Z.of_nat (length (d ++ pad)) <= Z.max (Z.of_nat (length d)) (targetLoadSize c).
Proof.
  unfold padShipment. destruct (_ <=? 0); [exists []; rewrite app_nil_r; split_and!; [done|by left|lia]|].
  destruct (paddingNeeded c d <=? 0) eqn:E; [exists []; rewrite app_nil_r; split_and!; [done|by left|lia]|]. bool_prop.
  assert (paddingNeeded c d <= targetLoadSize c - Z.of_nat (length d)).
  { unfold paddingNeeded. destruct (_ <? _) eqn:E1; bool_prop; lia. }
  exists (0 :: resize (Z.to_nat (paddingNeeded c d - 1)) 0 rnd). split; [done|]. split.
  - right. split; [by eexists|lia].
  - rewrite length_app. simpl. rewrite length_resize. lia.
Qed.
Lemma load_spec rnd d c ready c' : load rnd d c = Some (ready, c') -> exists pad enc,
  sealO (jession c) (d ++ pad) = Some (enc, jession c') /\ ready = PrependLength enc /\
  (pad = [] \/ (exists j, pad = 0 :: j) /\ Z.of_nat (length d) < targetLoadSize c) /\
  Z.of_nat (length (d ++ pad)) <= Z.max (Z.of_nat (length d)) (targetLoadSize c) /\
  loader c' = loader c /\ loaded (events c') = loaded (events c) /\ shipped (events c') = shipped (events c) ++ [(d, enc)] /\
  targetLoadSize c' = targetLoadSize c.
Proof.
  unfold load. destruct (padShipment_spec c rnd d) as (pad & -> & Hp & Hl). destruct (encrypt _ c) as [[enc c1]|] eqn:E; [|done].
  simpl. intros [= <- <-]. exists pad, enc.
  assert (sealO (jession c) (d ++ pad) = Some (enc, jession c1) /\ loader c1 = loader c /\ events c1 = events c /\ targetLoadSize c1 = targetLoadSize c)
    as (E1 & E2 & E3 & E4).
  { unfold encrypt, sealO in *. destruct (jession c) as [s|] eqn:Ej; [destruct (seal s _) as [[??]|]|]; simplify_eq/=; rewrite ?Ej; split_and!; done. }
  unfold emit, loaded, shipped. simpl. rewrite !omap_app, E3. simpl. rewrite app_nil_r. by split_and!.
Qed.
Lemma seal_length o d enc o' : sealO o d = Some (enc, o') -> d <> [] -> Z.of_nat (length d) <= 16000 -> 0 < Z.of_nat (length enc) < 2 ^ 14.
Proof.
  intros Hs Hd Hl. unfold sealO in Hs. destruct o as [s|].
  - destruct (seal s d) as [[w s']|] eqn:E; simplify_eq. apply seal_overhead in E. lia.
  - simplify_eq. destruct enc; [done|]. simpl in *. lia.
Qed.
Lemma inFlight_more b lk cut l2 p enc w u : inFlight b lk cut l2 -> cut = [] -> PrependLength enc = w ++ u ->
  inFlight b (lk ++ w) u (l2 ++ [(p, enc)]).
Proof.
  unfold inFlight. intros Hf -> Hw. assert (wires [(p, enc)] = w ++ u) as Ew by (unfold wires; simpl; by rewrite app_nil_r).
  destruct (unloader b) as [buf|len had buf|d|]; try done.
  - destruct Hf as [Hl Hf]. split; [done|]. rewrite wires_app, <- Hf, Ew, app_nil_r. by rewrite <- !app_assoc.
  - destruct Hf as (Hl & q & e & e2 & l3 & -> & He & Hb & Hf). split; [done|]. exists q, e, e2, (l3 ++ [(p, enc)]). split_and!; try done.
    rewrite wires_app, Ew, (app_assoc e2), <- Hf, app_nil_r. by rewrite <- !app_assoc.
  - destruct Hf as (q & l3 & -> & Hf). exists q, (l3 ++ [(p, enc)]). split; [done|]. rewrite wires_app, Ew, <- Hf, app_nil_r. by rewrite <- !app_assoc.
Qed.

(** A shipment is added to the direction, with as much of it on its way as was written. *)
Lemma direction_shipped a b lk rnd d r a1 ready w u l : direction a b lk -> lpc (loader a) = LSending ->
  shipment (loader a) = d ++ r -> d <> [] -> (r = [] \/ targetLoadSize a <= Z.of_nat (length d)) -> Z.of_nat (length d) <= targetLoadSize a ->
  load rnd d a = Some (ready, a1) -> ready = w ++ u -> senderView l = senderView (setLoader (loader l) a1) ->
  (lpc (loader l) <> LStopped -> u = [] /\ shipment (loader l) = r) ->
  (lpc (loader l) = LSending \/ loadingTimer (loader l) = true -> shipment (loader l) <> []) ->
  (shipment (loader l) <> [] -> lpc (loader l) = LSending \/ loadingTimer (loader l) = true \/ lpc (loader l) = LStopped) ->
  direction l b (lk ++ w).
Proof.
  intros [[S1 (rest & S2 & S2') S3 S4 S5] (l1 & l2 & y & m1 & m2 & cut & H1 & H2 & H3 & H4 & H5 & H6 & H7 & H8 & H9) D3 D4 D5].
  intros Hpc Hd Hne Hr Hlen Hload -> Hv Hl1 Hl2 Hl3. rewrite Hpc in *.
  apply load_spec in Hload as (pad & enc & E1 & E2 & E3 & E4 & E5 & E6 & E7 & E8). unfold senderView in Hv. simpl in Hv. injection Hv as V1 V2 V3 V4 V5.
  rewrite E6 in V1. rewrite E7 in V2. rewrite E8 in V4. assert (sendO (jession l) = sendO (jession a1)) as V3' by exact V3.
  specialize (S2' ltac:(done)). specialize (H9 ltac:(done)).
  assert (stream (loaded (events a)) = (payloads (shipped (events a)) ++ d) ++ r) as Est by (by rewrite <- app_assoc, <- Hd, <- S2').
  assert (Z.of_nat (length (d ++ pad)) <= 16000) by lia.
  split; try done.
  - split; try done; rewrite ?V1, ?V2, ?V4; try done; [|intros Hn; destruct (Hl3 Hn) as [?|[?|?]]; auto]. exists r. rewrite payloads_app. unfold payloads at 2. simpl. rewrite app_nil_r.
    split; [done|]. intros Hs. symmetry. by apply Hl1.
  - exists l1, (l2 ++ [(d, enc)]), y, m1, m2, u. rewrite V1, V2, V3'. split_and!; try done.
    + by rewrite H1, app_assoc.
    + eapply chain_snoc; [exact H3|exact E1| |done|].
      * destruct E3 as [->|[Hj Ht]]; [by left|]. right. split; [done|]. exists (loaded (events a)). split; [done|].
        rewrite <- payloads_app, <- H1, Est. destruct Hr as [->|]; [by rewrite app_nil_r|lia].
      * eapply seal_length; [exact E1| |done]. intros [En _]%app_eq_nil. done.
    + by eapply inFlight_more; [exact H8| |symmetry; exact E2].
    + intros Hs. by apply Hl1.
Qed.
Lemma stops_view err c : senderView (loaderStops err c) = senderView (setLoader ((loader c) <| lpc := LStopped |>) c).
Proof. apply (calm_views (Stop err) _ (calm_Stop err)). Qed.
Lemma stops_loader err c : loader (loaderStops err c) = (loader c) <| lpc := LStopped |>.
Proof. exact (f_equal (fun v => v.1.1.1.1.1) (stops_view err c)). Qed.
Lemma PrependLength_nonempty d : Z.of_nat (length d) < 2 ^ 64 -> PrependLength d <> [].
Proof.
  intros Hl E. unfold PrependLength in E. apply app_eq_nil in E as [E _]. pose proof (pack64_one (Z.of_nat (length d)) ltac:(lia)) as H.
  rewrite E in H. simpl in H. lia.
Qed.
Lemma direction_ship a b lk rnd writes a' out : loaderShip rnd writes a = Some (a', out) -> direction a b lk -> direction a' b (lk ++ out).
Proof.
  intros Hs Hd. pose proof Hd as [[S1 (rest & S2 & S2') S3 S4 S5] (l1 & l2 & y & m1 & m2 & cut & H1 & H2 & H3 & H4 & H5 & H6 & H7 & H8 & H9) D3 D4 D5].
  unfold loaderShip in Hs. destruct (lpc (loader a)) eqn:Hpc; try done. set (d := shipment (loader a)) in *.
  assert (d <> []) as Hne by (apply S4; by left).
  set (now := if targetLoadSize a <? Z.of_nat (length d) then take (Z.to_nat (targetLoadSize a)) d else d).
  set (r := if targetLoadSize a <? Z.of_nat (length d) then drop (Z.to_nat (targetLoadSize a)) d else []).
  assert (d = now ++ r /\ now <> [] /\ (r = [] \/ targetLoadSize a <= Z.of_nat (length now)) /\ Z.of_nat (length now) <= targetLoadSize a) as (Hdr & Hnn & Hr & Hln).
  { unfold now, r. destruct (_ <? _) eqn:E; bool_prop; [|rewrite app_nil_r; split_and!; [done|done|by left|lia]].
    assert (Z.of_nat (length (take (Z.to_nat (targetLoadSize a)) d)) = targetLoadSize a) as Hl by (rewrite length_take; lia).
    split_and!; [by rewrite take_drop| |right; lia|lia]. intros En. rewrite En in Hl. simpl in Hl. lia. }
  assert ((if targetLoadSize a <? Z.of_nat (length d) then (take (Z.to_nat (targetLoadSize a)) d, Some (drop (Z.to_nat (targetLoadSize a)) d)) else (d, None))
    = (now, if targetLoadSize a <? Z.of_nat (length d) then Some r else None)) as Ep by (unfold now, r; by destruct (_ <? _)).
  rewrite Ep in Hs. clear Ep. destruct (load rnd now a) as [[ready a1]|] eqn:El.
  2:{ injection Hs as <- <-. rewrite app_nil_r. apply direction_stops; [done|by rewrite Hpc]. }
  pose proof (load_spec _ _ _ _ _ El) as (pad & enc & E1 & E2 & E3 & E4 & E5 & E6 & E7 & E8).
  assert (0 < Z.of_nat (length enc) < 2 ^ 14) as Henc.
  { eapply seal_length; [exact E1| |lia]. intros [En _]%app_eq_nil. done. }
  destruct (Ship.Load _ _ _) as [[[[sh w] cl] err]|] eqn:Ew; [|done]. simpl in Hs.
  apply Load_spec in Ew as (u & Hw & Hu); [|subst ready; apply PrependLength_nonempty; lia].
  destruct err; injection Hs as <- <-.
  - set (a2 := mkCrane _ _ _ _ _ _ _ _ _ _ _ _ _ _ _ _ _ _ _ _ _).
    eapply (direction_shipped a b lk rnd now r a1); try done.
    + rewrite (stops_loader _ a2), (stops_view _ a2). done.
    + rewrite (stops_loader _ a2). done.
    + rewrite (stops_loader _ a2). simpl. rewrite E5. unfold a2. simpl. intros [?|Ht]; [done|]. auto.
    + rewrite (stops_loader _ a2). simpl. auto.
  - eapply (direction_shipped a b lk rnd now r a1); try done.
    + intros _. split; [by apply Hu|]. unfold r. simpl. rewrite E8. destruct (targetLoadSize a <? _); [|done]. by destruct (_ <? _).
    + simpl. rewrite E8. unfold r in *. destruct (targetLoadSize a <? Z.of_nat (length d)) eqn:E; bool_prop; simpl.
      * assert (drop (Z.to_nat (targetLoadSize a)) d <> []) by (intros En; apply (f_equal length) in En; rewrite length_drop in En; simpl in En; lia).
        by destruct (_ <? targetLoadSize a).
      * intros [?|?]; done.
    + simpl. destruct (targetLoadSize a <? Z.of_nat (length d)); simpl; [|done]. destruct (_ <? targetLoadSize a1); simpl; auto.
Qed.
Lemma direction_sending act a b lk a' out : craneStep act a = Some (a', out) -> isSending act = true -> queuesOk a ->
  direction a b lk -> direction a' b (lk ++ out).
Proof.
  intros Hs Ha [Q1 Q2 _ _] Hd. destruct act; try done; simpl in Hs.
  - destruct (loaderTop a) eqn:E; simplify_eq/=. rewrite app_nil_r. unfold loaderTop in E. destruct (lpc (loader a)) eqn:Hpc; try done.
    assert (lpc (loader a) <> LStopped) as Hns by (by rewrite Hpc). destruct (di_sends _ _ _ Hd) as [_ _ S3 S4 S5].
    destruct (controllerMsgs a) as [|m l]; destruct (_ <? _) eqn:El; bool_prop; simplify_eq.
    + destruct (ctxDone a); simplify_eq. apply direction_loader; try done; try (by rewrite Hpc). simpl. intros [?|?]; auto.
    + apply direction_loader; try done; try (by rewrite Hpc). simpl. intros _ En. rewrite En in El. simpl in El. lia.
    + apply direction_fill; [by eapply direction_frame|done|simpl; by rewrite Hpc|]. by apply Forall_cons in Q2 as [? _].
    + apply direction_loader; try done; try (by rewrite Hpc). simpl. intros _ En. rewrite En in El. simpl in El. lia.
  - destruct (loaderWait w a) eqn:E; simplify_eq/=. rewrite app_nil_r. unfold loaderWait in E. destruct (lpc (loader a)) eqn:Hpc; try done.
    assert (lpc (loader a) <> LStopped) as Hns by (by rewrite Hpc). destruct (di_sends _ _ _ Hd) as [_ _ S3 S4 S5]. destruct w.
    + destruct (controllerMsgs a) as [|m l]; simplify_eq. apply direction_fill; [by eapply direction_frame|done|simpl; by rewrite Hpc|]. by apply Forall_cons in Q2 as [? _].
    + destruct (terminalMsgs a) as [|m l]; simplify_eq. apply direction_fill; [by eapply direction_frame|done|simpl; by rewrite Hpc|]. by apply Forall_cons in Q1 as [? _].
    + destruct (loadingTimer _) eqn:Et; simplify_eq. apply direction_loader; try done; try (by rewrite Hpc). simpl. auto.
  - destruct (loaderDone a) eqn:E; simplify_eq/=. rewrite app_nil_r. unfold loaderDone in E.
    destruct (lpc (loader a)) eqn:Hpc; try done; [destruct (_ && _)|destruct (ctxDone a)]; simplify_eq; (apply direction_stops; [done|by rewrite Hpc]).
  - by eapply direction_ship.
Qed.

(** ** The unloader keeps a direction *)
Lemma direction_arrive a b lk n : direction a b lk -> direction a (b <| incoming ::= fun l => l ++ take n lk |>) (drop n lk).
Proof.
  intros [D1 (l1 & l2 & y & m1 & m2 & cut & H1 & H2 & H3 & H4 & H5 & H6 & H7 & H8 & H9) D3 D4 D5]. split; try done.
  exists l1, l2, y, m1, m2, cut. split_and!; try done. unfold inFlight in *. simpl.
  assert (forall x, (incoming b ++ take n lk) ++ drop n lk ++ x = incoming b ++ lk ++ x) as E.
  { intros x. rewrite <- app_assoc, (app_assoc (take n lk)), take_drop. done. }
  destruct (unloader b); by rewrite ?E.
Qed.
Lemma direction_unloader a b b' lk u : direction a b lk -> recvView b' = recvView (b <| unloader := u |>) -> (ctxDone b = true -> ctxDone b' = true) ->
  (forall cut l2, Forall (fun x => 0 < Z.of_nat (length x.2) < 2 ^ 14) l2 -> inFlight b lk cut l2 -> inFlight b' lk cut l2) -> direction a b' lk.
Proof.
  intros [D1 (l1 & l2 & y & m1 & m2 & cut & H1 & H2 & H3 & H4 & H5 & H6 & H7 & H8 & H9) D3 D4 D5] Hv Hd Hf.
  unfold recvView in Hv. injection Hv as V1 V2 V3 V4 V5 V6. split; rewrite ?V2, ?V5; auto.
  exists l1, l2, y, m1, m2, cut. rewrite ?V2, ?V4, ?V6. split_and!; try done. apply Hf; [|done]. by eapply chain_sizes.
Qed.
Lemma wire_pack enc : 0 < Z.of_nat (length enc) < 2 ^ 14 ->
  PrependLength enc = Pack64 (Z.of_nat (length enc)) ++ enc /\ (1 <= length (Pack64 (Z.of_nat (length enc))) <= 2)%nat.
Proof.
  intros H. split; [done|]. split; [apply pack64_one; lia|]. apply pack64_two; lia.
Qed.
Lemma take_app_same {A} (x y u v : list A) : x ++ y = u ++ v -> (length x <= length u)%nat -> exists w, u = x ++ w /\ y = w ++ v.
Proof.
  intros [(k & E1 & E2)|(k & E1 & E2)]%app_eq_inv Hl; [|by exists k].
  subst x. rewrite length_app in Hl. assert (k = []) as -> by (apply nil_length_inv; lia). exists []. by rewrite !app_nil_r, E2 in *.
Qed.

(** The first two bytes of a shipment give its length. *)
Lemma parseHead_wire c buf enc x y : 0 < Z.of_nat (length enc) < 2 ^ 14 -> length buf = 2%nat -> buf ++ x = PrependLength enc ++ y ->
  exists u, parseHead buf c = c <| unloader := u |> /\
    ((u = USubmit enc /\ x = y) \/ (exists b h e2, u = UBody (length enc) h b /\ (length b < length enc)%nat /\ enc = b ++ e2 /\ x = e2 ++ y)).
Proof.
  intros He Hb E. destruct (wire_pack enc He) as [Ew Hk]. rewrite Ew, <- app_assoc in E. set (k := length (Pack64 _)) in *.
  symmetry in E. pose proof E as E'. apply take_app_same in E' as (w & Hw & Hw2); [|unfold k in *; lia]. subst buf.
  unfold parseHead.
  assert (Unpack64 (Pack64 (Z.of_nat (length enc)) ++ w) = Some (Z.of_nat (length enc), k)) as Hu.
  { pose proof (unpack64_full (Z.of_nat (length enc)) 2 w ltac:(lia) ltac:(unfold k in *; lia)) as Hu. rewrite take_ge in Hu; [exact Hu|lia]. }
  rewrite Hu. unfold maxUnloadSize. destruct (_ || _) eqn:Eo; [apply orb_true_iff in Eo as [Eo|Eo]; bool_prop; lia|].
  unfold k. rewrite drop_app_length. rewrite length_app in Hb. fold k in Hb.
  symmetry in Hw2. apply take_app_same in Hw2 as (e2 & He2 & Hx); [|lia].
  destruct (_ =? _) eqn:El; bool_prop.
  - eexists. split; [reflexivity|]. left. assert (e2 = []) as ->.
    { apply (f_equal length) in He2. rewrite length_app in He2. apply nil_length_inv. lia. }
    rewrite app_nil_r in He2. by subst.
  - eexists. split; [reflexivity|]. right. exists w, (length w), e2. rewrite Nat2Z.id. split; [done|]. split; [|done].
    apply (f_equal length) in He2. rewrite length_app in He2. lia.
Qed.
Lemma direction_read a b b' lk n : unloadRead n b = Some b' -> direction a b lk -> direction a b' lk.
Proof.
  intros Hs Hd. pose proof (di_initial _ _ _ Hd) as Hi. unfold unloadRead, Ship.UnloadTo in Hs. rewrite Hi in Hs.
  destruct Hd as [D1 (l1 & l2 & y & m1 & m2 & cut & H1 & H2 & H3 & H4 & H5 & H6 & H7 & H8 & H9) D3 D4 D5].
  pose proof (chain_sizes _ _ _ _ _ H3) as Hall.
  assert (exists u l, b' = (traffic 0 b) <| netState := netState b' |> <| unloader := u |> <| incoming := l |> /\
    inFlight (b <| unloader := u |> <| incoming := l |>) lk cut l2) as (u & l & -> & Hf).
  { unfold inFlight in H8. destruct (unloader b) as [buf|len had buf|d|]; try done; injection Hs as <-.
    - destruct H8 as [Hl Hw]. set (k := (n `min` (2 - length buf))%nat). rewrite <- (take_drop k (incoming b)) in Hw.
      set (t := take k (incoming b)) in *. set (r := drop k (incoming b)) in *. rewrite <- app_assoc, app_assoc in Hw.
      assert (length (buf ++ t) <= 2)%nat as Hbt by (rewrite length_app; unfold t; rewrite length_take; lia).
      destruct (_ =? 2)%nat eqn:E2; [apply Nat.eqb_eq in E2|apply Nat.eqb_neq in E2; exists (UHead (buf ++ t)), r; split; [by destruct b|split; [lia|done]]].
      destruct l2 as [|[p enc] l3]; [apply (f_equal length) in Hw; rewrite !length_app in *; simpl in *; lia|].
      apply Forall_cons in Hall as [He _]. unfold wires in Hw. simpl in He, Hw.
      match goal with |- context [parseHead _ ?c] => destruct (parseHead_wire c (buf ++ t) enc _ _ He E2 Hw) as (u & -> & Hu) end.
      exists u, r. split; [by destruct b|]. unfold inFlight. simpl. destruct Hu as [[-> Hu]|(b0 & h & e2 & -> & Hlb & He2 & Hu)].
      + by exists p, l3.
      + split; [done|]. by exists p, enc, e2, l3.
    - destruct H8 as (Hl & p & enc & e2 & l3 & -> & He & Hb & Hw). set (k := (n `min` (len - length buf))%nat).
      rewrite <- (take_drop k (incoming b)) in Hw. set (t := take k (incoming b)) in *. set (r := drop k (incoming b)) in *.
      assert (length t <= length e2)%nat as Ht.
      { apply (f_equal length) in Hb. rewrite length_app in Hb. unfold t. rewrite length_take. lia. }
      rewrite <- app_assoc in Hw. apply take_app_same in Hw as (e3 & He3 & Hw); [|done]. rewrite He3, app_assoc in Hb.
      destruct (_ =? len)%nat eqn:E2.
      + apply Nat.eqb_eq in E2. exists (USubmit (buf ++ t)), r. split; [by destruct b|]. unfold inFlight. simpl. exists p, l3.
        assert (e3 = []) as ->. { apply nil_length_inv. apply (f_equal length) in Hb. rewrite !length_app in *. lia. }
        rewrite app_nil_r in Hb. by rewrite Hb.
      + apply Nat.eqb_neq in E2. exists (UBody len had (buf ++ t)), r. split; [by destruct b|]. unfold inFlight. simpl.
        split; [apply (f_equal length) in Hb; rewrite !length_app in *; lia|]. by exists p, enc, e3, l3. }
  split; try done. by exists l1, l2, y, m1, m2, cut.
Qed.
Lemma stream_nil_inv ms : Forall fits ms -> stream ms = [] -> ms = [].
Proof.
  destruct ms as [|m ms]; [done|]. intros Hf E. exfalso. pose proof (packed_nonempty m (Forall_inv Hf)) as H. unfold stream in E.
  simpl in E. apply app_eq_nil in E as [E _]. rewrite E in H. simpl in H. lia.
Qed.
Lemma padOk_drop pad x m1 m2 : Forall fits (m1 ++ m2) -> padOk pad (stream m1 ++ x) (m1 ++ m2) -> padOk pad x m2.
Proof.
  intros Hf [->|[Hj [ms1 [[ms2 Hms] Hst]]]]; [by left|]. right. split; [done|].
  apply app_eq_inv in Hms as [(k & -> & Hk)|(k & -> & ->)].
  - apply (f_equal length) in Hst. rewrite stream_app, !length_app in Hst. assert (x = []) as -> by (apply nil_length_inv; lia).
    exists []. split; [apply prefix_nil|done].
  - rewrite stream_app in Hst. apply app_inv_head in Hst as ->. exists k. split; [by exists ms2|done].
Qed.
Lemma part_length rem ms : Forall fits ms -> part rem ms -> Z.of_nat (length rem) <= maxSegmentLength.
Proof.
  intros Hf [->|(m & ms' & t & -> & _ & E)]; [unfold maxSegmentLength; simpl; lia|]. destruct (Forall_inv Hf) as [_ Hl].
  rewrite E, length_app in Hl. lia.
Qed.
Lemma direction_handle a b b' lk : handleUnloaded b = Some b' -> queuesOk b -> direction a b lk -> direction a b' lk.
Proof.
  intros Hs Hq [D1 (l1 & l2 & y & m1 & m2 & cut & H1 & H2 & H3 & H4 & H5 & H6 & H7 & H8 & H9) D3 D4 D5].
  pose proof D1 as [S1 (rest & S2 & S2') S3 S4 S5]. unfold handleUnloaded in Hs. unfold inFlight in H8. destruct (unloader b) as [|? ?|enc|] eqn:Eu; try done.
  destruct (hStopped (handler b)) eqn:Ehs; [done|]. destruct H8 as (p & l3 & -> & Hw).
  inversion H3 as [|x s q pad e s' l z Hse Hpad Hlen Hel Hch Ex Ey El Ez]; subst x q e l z. subst y.
  set (b0 := b <| unloader := UHead [] |>) in *.
  assert (exists b1, decrypt enc b0 = Some (p ++ pad, b1) /\ linkO (sendO s') (recvOf <$> jession b1) /\
    b1 = b0 <| jession := jession b1 |>) as (b1 & Hdec & Hlk & Hb1).
  { unfold decrypt, sealO, linkO, sendO in *. change (jession b0) with (jession b) in *. destruct s as [s|], (jession b) as [r|] eqn:Ej; simpl in H4; try done.
    - destruct (seal s (p ++ pad)) as [[w s1]|] eqn:Ese; [|done]. injection Hse as -> <-.
      destruct (sealed s r _ _ _ H4 Ese) as (r' & -> & Hl'). eexists. split; [reflexivity|]. by split.
    - injection Hse as -> <-. exists b0. split; [done|]. simpl. rewrite Ej. split; [done|]. unfold b0. rewrite <- Ej. by destruct b. }
  rewrite Hdec in Hs. set (rem := pend (handler b)) in *.
  assert (handler b1 = handler b) as Eh by (by rewrite Hb1). rewrite Eh in Hs.
  assert (Forall fits m2) as Hf2 by (rewrite H2 in S1; by apply Forall_app in S1 as [_ ?]).
  assert ((rem ++ p) ++ (payloads l3 ++ rest) = stream m2) as Hst.
  { rewrite H1, payloads_app, H2, stream_app, H6 in S2. unfold payloads at 1 in S2. simpl in S2. fold (payloads l3) in S2.
    rewrite <- !app_assoc in S2. apply app_inv_head in S2. by rewrite S2, <- !app_assoc. }
  destruct (handleShipment_spec (S (length (default [] (partialShipment (handler b)) ++ p ++ pad))) p pad b1 rem (payloads l3 ++ rest) m2)
    as (c' & n1 & n2 & rem' & F1 & F2 & F3 & F4 & F5 & F6 & F7 & F8 & F9); rewrite ?Eh; try done.
  - rewrite H6, <- app_assoc, H2 in Hpad. by apply padOk_drop in Hpad; [|by rewrite <- H2].
  - pose proof (part_length rem m2 Hf2 H7). unfold maxSegmentLength in *. rewrite length_app. lia.
  - lia.
  - rewrite Hb1. by destruct Hq.
  - rewrite F1 in Hs. injection Hs as <-. unfold quietIO in F8. injection F8 as G1 G2 G3 G4 G5 G6 G7 G8 G9 G10 G11.
    rewrite Hb1 in G1, G2, G3, G4, G6, G7, G8, G9, G10, G11, F3. simpl in *.
    split; try done.
    + exists (l1 ++ [(p, enc)]), l3, (sendO s'), (m1 ++ n1), n2, cut. split_and!; try done.
      * by rewrite H1, <- app_assoc.
      * by rewrite H2, F2, app_assoc.
      * rewrite payloads_app. unfold payloads at 2. simpl. by rewrite app_nil_r.
      * by rewrite G5.
      * by rewrite F3, H5, fmap_app.
      * rewrite payloads_app, H6, stream_app, <- app_assoc. unfold payloads at 1. simpl. rewrite app_nil_r, F4, F5. by rewrite app_assoc.
      * by rewrite F5.
      * unfold inFlight. rewrite G2, G4. split; [simpl; lia|done].
    + by rewrite G6.
    + rewrite G3, Ehs. done.
Qed.
(** ** Steps of either crane *)
Lemma direction_unloaderStops a b lk err : direction a b lk -> direction a (unloaderStops err b) lk.
Proof.
  intros Hd. unfold unloaderStops. set (b0 := b <| unloader := UStopped |>).
  eapply direction_frame; [|done|apply (calm_views (Stop err) b0 (calm_Stop err))|by destruct (calm_Stop err b0) as (_ & -> & _)].
  by eapply (direction_unloader a b b0 lk UStopped).
Qed.
Lemma direction_handlerDone a b b' lk : handlerDone b = Some b' -> direction a b lk -> direction a b' lk.
Proof.
  unfold handlerDone. destruct (ctxDone b) eqn:Ec; simpl; [|done]. destruct (hStopped _); simpl; [done|]. intros [= <-] Hd.
  unfold handlerStops. set (b0 := b <| handler ::= _ |>).
  eapply direction_frame; [|done|apply (calm_views (Stop None) b0 (calm_Stop None))|by destruct (calm_Stop None b0) as (_ & -> & _)].
  destruct Hd as [D1 (l1 & l2 & y & m1 & m2 & cut & H) D3 D4 D5]. split; try done. by exists l1, l2, y, m1, m2, cut.
Qed.

Lemma sender_step act a b lk a' out : craneStep act a = Some (a', out) -> (forall x, act <> AArrive x) -> actionOk act -> queuesOk a ->
  direction a b lk -> direction a' b (lk ++ out) /\ keepsQueues a a'.
Proof.
  intros Hs Hna Hok Hq Hd. destruct (isSending act) eqn:E1; [|destruct (isReceiving act) eqn:E2].
  - split; [by eapply direction_sending|]. by eapply sending_calls.
  - destruct (receiving_calls _ _ _ _ Hs E2) as (-> & Hv & Hk). rewrite app_nil_r. split; [by eapply direction_frame|done].
  - destruct (other_calls _ _ _ _ Hs E1 E2 Hok) as (-> & Hv & _ & Hk). rewrite app_nil_r. split; [by eapply direction_frame|done].
Qed.
Lemma receiver_step act a b lk b' out : craneStep act b = Some (b', out) -> (forall x, act <> AArrive x) -> actionOk act -> queuesOk b ->
  direction a b lk -> direction a b' lk.
Proof.
  intros Hs Hna Hok Hq Hd. destruct (isSending act) eqn:E1; [|destruct (isReceiving act) eqn:E2].
  - destruct (sending_calls _ _ _ _ Hs E1) as [Hv [_ Hk]]. by eapply direction_frame.
  - destruct act; try done; simpl in Hs.
    + by destruct (Hna b0).
    + destruct (unloadRead n b) eqn:E; simplify_eq/=. by eapply direction_read.
    + destruct (unloadFails eof b) eqn:E; simplify_eq/=. unfold unloadFails in E. destruct (unloader b); simplify_eq; by apply direction_unloaderStops.
    + destruct (unloaderDone b) eqn:E; simplify_eq/=. unfold unloaderDone in E. destruct (unloader b); try done.
      destruct (ctxDone b); simplify_eq. by apply direction_unloaderStops.
    + destruct (handleUnloaded b) eqn:E; simplify_eq/=. by eapply direction_handle.
    + destruct (handlerDone b) eqn:E; simplify_eq/=. by eapply direction_handlerDone.
  - destruct (other_calls _ _ _ _ Hs E1 E2 Hok) as (_ & _ & Hv & [_ Hk]). by eapply direction_frame.
Qed.

End system.

(** ** Pairs *)
Section pairs.
Context {V : Varint} {VS : VarintSize} {WL : WireLaws V VS} {J : Jess}.
Context {Snd Rcv : Type} (sendOf : Session -> Snd) (recvOf : Session -> Rcv) (linked : Snd -> Rcv -> Prop).
Context {JL : JessLaws J sendOf recvOf linked}.
Record Pair := mkPair { left : Crane; right : Crane; toRight : bytes; toLeft : bytes }.
Context (CEl CEr : CraneEnv).
(** Either crane acts, and what it writes is on its way; or what is on its way arrives. *)
Inductive pairStep : Pair -> Pair -> Prop :=
| left_acts act p c out : craneStep (CE := CEl) act (left p) = Some (c, out) -> (forall x, act <> AArrive x) -> actionOk act ->
    pairStep p (mkPair c (right p) (toRight p ++ out) (toLeft p))
| right_acts act p c out : craneStep (CE := CEr) act (right p) = Some (c, out) -> (forall x, act <> AArrive x) -> actionOk act ->
    pairStep p (mkPair (left p) c (toRight p) (toLeft p ++ out))
| right_receives n p :
    pairStep p (mkPair (left p) ((right p) <| incoming ::= fun l => l ++ take n (toRight p) |>) (drop n (toRight p)) (toLeft p))
| left_receives n p :
    pairStep p (mkPair ((left p) <| incoming ::= fun l => l ++ take n (toLeft p) |>) (right p) (toRight p) (drop n (toLeft p))).

Record pairInv (p : Pair) : Prop := {
  pi_direction : direction sendOf recvOf linked (left p) (right p) (toRight p);
  pi_left : queuesOk (left p);
  pi_right : queuesOk (right p);
}.
Lemma pairInv_step p p' : pairInv p -> pairStep p p' -> pairInv p'.
Proof.
  intros [Hd Hl Hr] Hs. inversion Hs as [act q c out Hc Hna Hok|act q c out Hc Hna Hok|n q|n q]; subst; simpl.
  - destruct (sender_step (CE := CEl) sendOf recvOf linked _ _ _ _ _ _ Hc Hna Hok Hl Hd) as [H1 [H2 _]]. split; simpl; auto.
  - split; simpl; [by eapply receiver_step|done|]. destruct (isSending act) eqn:E1; [|destruct (isReceiving act) eqn:E2].
    + destruct (sending_calls sendOf recvOf linked _ _ _ _ Hc E1) as [_ [Hk _]]. auto.
    + destruct (receiving_calls sendOf recvOf linked _ _ _ _ Hc E2) as (_ & _ & [Hk _]). auto.
    + destruct (other_calls sendOf recvOf _ _ _ _ Hc E1 E2 Hok) as (_ & _ & _ & [Hk _]). auto.
  - split; simpl; [by apply direction_arrive|done|by destruct Hr].
  - split; simpl; [|by destruct Hl|done]. by eapply direction_frame.
Qed.

(** Cranes that have been started and not used yet, whose sessions belong together. *)
Record fresh (c : Crane) : Prop := {
  fr_io : (loader c, unloader c, handler c, incoming c, Ship.initial (ship c)) = (mkLoader LTop [] false, UHead [], mkHandler None 0 false, [], None);
  fr_events : events c = [];
  fr_target : 0 < targetLoadSize c <= 16000;
  fr_queues : queuesOk c;
}.
Record connected (p : Pair) : Prop := {
  cn_left : fresh (left p);
  cn_right : fresh (right p);
  cn_wire : toRight p = [];
  cn_session : linkO linked (sendO sendOf (jession (left p))) (recvOf <$> jession (right p));
}.
Lemma connected_inv p : connected p -> pairInv p.
Proof.
  intros [[F1 F2 F3 F4] [G1 G2 G3 G4] Hw Hs]. injection F1 as ?????. injection G1 as I1 I2 I3 I4 I5. split; try done. rewrite Hw. split.
  - split; rewrite ?F2; try done.
    + exists []. split; [done|]. intros _. by rewrite H.
    + rewrite H. simpl. by intros [?|?].
    + by rewrite H.
  - exists [], [], (sendO sendOf (jession (left p))), [], [], []. rewrite F2, G2, I3. split_and!; try done; [constructor|by left|].
    unfold inFlight. rewrite I2, I4. simpl. split; [lia|done].
  - rewrite I3. simpl. unfold lenOk, maxSegmentLength. lia.
  - done.
  - by rewrite I3.
Qed.
End pairs.
