(* ===== verification/CraneProps.v ===== *)
(** * What cranes guarantee

    Delivery of messages over the connection, terminal IDs, stopping, and where sizes and
    padding are not what they are meant to be. *)

From S2P Require Import Prelude Varint GoNet FlowQueue SpnWire Crane CraneFacts CraneSystem.

Section props.
Context {V : Varint} {VS : VarintSize} {WL : WireLaws V VS} {J : Jess}.
Context {Snd Rcv : Type} (sendOf : Session -> Snd) (recvOf : Session -> Rcv) (linked : Snd -> Rcv -> Prop).
Context {JL : JessLaws J sendOf recvOf linked} (CEl CEr : CraneEnv).

Lemma pair_reachable p0 p : connected sendOf recvOf linked p0 -> rtc (pairStep CEl CEr) p0 p -> pairInv sendOf recvOf linked p.
Proof.
  intros H0 Hr. apply connected_inv in H0. induction Hr as [|x y z Hs _ IH]; [done|]. by apply IH, (pairInv_step _ _ _ CEl CEr x).
Qed.

(** Everything the left crane loaded has been written, has arrived and has been read, but
    for what an unfinished segment keeps. *)
Definition settled (p : Pair) : Prop :=
  lpc (loader (left p)) <> LStopped /\ shipment (loader (left p)) = [] /\ toRight p = [] /\
  incoming (right p) = [] /\ unloader (right p) = UHead [].

Lemma wires_nil l : wires l = [] -> Forall (fun x => 0 < Z.of_nat (length x.2) < 2 ^ 14) l -> l = [].
Proof.
  destruct l as [|[p enc] l]; [done|]. unfold wires. simpl. intros [E _]%app_eq_nil Hf.
  pose proof (Forall_inv Hf) as H. simpl in H. exfalso. apply (PrependLength_nonempty enc); [lia|done].
Qed.

(** C26. Messages get through cranes whole and in order: however messages are cut into
    shipments, padded and encrypted, and however the bytes of the connection are read, the
    segments one crane handles are the first of the messages the other crane loaded;
    they are all of them once everything has been read; the handler does not fail on
    them; and what is loaded does not stay, because it is full, waited for or being sent. *)
Theorem crane_delivers p0 p : connected sendOf recvOf linked p0 -> rtc (pairStep CEl CEr) p0 p ->
  (segments (events (right p)) `prefix_of` (seg <$> loaded (events (left p)))) /\
  (settled p -> segments (events (right p)) = seg <$> loaded (events (left p))) /\
  (hStopped (handler (right p)) = true -> ctxDone (right p) = true) /\
  (shipment (loader (left p)) <> [] -> lpc (loader (left p)) = LSending \/ loadingTimer (loader (left p)) = true \/
    targetLoadSize (left p) <= Z.of_nat (length (shipment (loader (left p)))) \/ lpc (loader (left p)) = LStopped).
Proof.
  intros H0 Hr. destruct (pair_reachable p0 p H0 Hr) as [[[S1 (rest & S2 & S2') S3 S4 S5] D2 D3 D4 D5] _ _].
  destruct D2 as (l1 & l2 & y & m1 & m2 & cut & H1 & H2 & H3 & H4 & H5 & H6 & H7 & H8 & H9).
  split_and!; try done.
  - rewrite H5, H2, fmap_app. by eexists.
  - intros (Hl & Hsh & Hw & Hi & Hu). rewrite H5, H2. f_equal. unfold inFlight in H8. rewrite Hu, Hi, Hw, (H9 Hl) in H8. destruct H8 as [_ H8].
    simpl in H8. symmetry in H8. apply wires_nil in H8; [|by eapply chain_sizes]. subst l2. rewrite app_nil_r in H1.
    rewrite (S2' Hl), Hsh, app_nil_r, H1, H2, H6, stream_app in S2. apply app_inv_head in S2.
    rewrite H2 in S1. apply Forall_app in S1 as [_ S1].
    assert (m2 = []) as ->; [|by rewrite app_nil_r]. by eapply (part_boundary (pend (handler (right p))) m2 m2).
Qed.
(** A schedule of a pair, executed. *)
Inductive PairAction := PLeft (a : CraneAction) | PRight (a : CraneAction) | PRightGets (n : nat) | PLeftGets (n : nat).
Definition notArrive (a : CraneAction) : bool := match a with AArrive _ => false | _ => true end.
Definition flowOkb (id : Z) : bool := (0 <=? id) && (id <? 2 ^ 32) && (id mod 4 =? 0).
Definition actionOkb (a : CraneAction) : bool :=
  match a with ASendMsg m | ASendController m => flowOkb (FlowID m) && (0 <=? MType m) && (MType m <? 4) | _ => true end.
Definition pairExec1 (a : PairAction) (p : Pair) : option Pair :=
  match a with
  | PLeft a => if notArrive a && actionOkb a then '(c, out) ← craneStep (CE := CEl) a (left p); Some (mkPair c (right p) (toRight p ++ out) (toLeft p)) else None
  | PRight a => if notArrive a && actionOkb a then '(c, out) ← craneStep (CE := CEr) a (right p); Some (mkPair (left p) c (toRight p) (toLeft p ++ out)) else None
  | PRightGets n => Some (mkPair (left p) ((right p) <| incoming ::= fun l => l ++ take n (toRight p) |>) (drop n (toRight p)) (toLeft p))
  | PLeftGets n => Some (mkPair ((left p) <| incoming ::= fun l => l ++ take n (toLeft p) |>) (right p) (toRight p) (drop n (toLeft p)))
  end.
Fixpoint pairExec (l : list PairAction) (p : Pair) : option Pair :=
  match l with [] => Some p | a :: l => p ← pairExec1 a p; pairExec l p end.
Lemma actionOkb_ok a : actionOkb a = true -> actionOk a.
Proof. destruct a; try done; simpl; unfold flowOkb; intros H; bool_prop; (split; [split|]; lia). Qed.
Lemma pairExec_rtc l p p' : pairExec l p = Some p' -> rtc (pairStep CEl CEr) p p'.
Proof.
  revert p. induction l as [|a l IH]; intros p; simpl; [by intros [= <-]|].
  destruct (pairExec1 a p) as [q|] eqn:E; [|done]. simpl. intros H. eapply rtc_l; [|by apply IH]. clear IH H.
  destruct a as [a|a|n|n]; unfold pairExec1 in E.
  - destruct (notArrive a && actionOkb a) eqn:Ea; [|done]. apply andb_true_iff in Ea as [Ea1 Ea2].
    destruct (craneStep _ _) as [[c out]|] eqn:Ec; [|done]. injection E as <-. eapply left_acts; [exact Ec|by destruct a|by apply actionOkb_ok].
  - destruct (notArrive a && actionOkb a) eqn:Ea; [|done]. apply andb_true_iff in Ea as [Ea1 Ea2].
    destruct (craneStep _ _) as [[c out]|] eqn:Ec; [|done]. injection E as <-. eapply right_acts; [exact Ec|by destruct a|by apply actionOkb_ok].
  - injection E as <-. apply right_receives.
  - injection E as <-. apply left_receives.
Qed.

(** ** Terminal IDs *)
Definition candidate (next : Z) (k : nat) : Z := u32 (next + 8 * Z.of_nat k).
Lemma candidate_next next k : candidate (u32 (next + 8)) k = candidate next (S k).
Proof. unfold candidate, u32. rewrite Zplus_mod_idemp_l. f_equal. lia. Qed.
Lemma findTerminalID_spec fuel next terms : match findTerminalID fuel next terms with
  | Some id => terms !! id = None /\ exists k, id = candidate next k
  | None => forall k, (1 <= k <= fuel)%nat -> is_Some (terms !! candidate next k)
  end.
Proof.
  revert next. induction fuel as [|fuel IH]; intros next; simpl; [lia|].
  destruct (terms !! u32 (next + 8)) eqn:E.
  - specialize (IH (u32 (next + 8))). destruct (findTerminalID _ _ _).
    + destruct IH as [H (k & ->)]. split; [done|]. exists (S k). apply candidate_next.
    + intros [|[|k]] Hk; [lia| |rewrite <- candidate_next; apply IH; lia].
      unfold candidate. replace (next + 8 * Z.of_nat 1) with (next + 8) by lia. by eexists.
  - split; [done|]. exists 1%nat. done.
Qed.
Lemma candidates_differ next fuel : Z.of_nat fuel < 2 ^ 29 -> NoDup (candidate next <$> seq 1 fuel).
Proof.
  intros Hf. apply NoDup_fmap_2_strong; [|apply NoDup_ListNoDup, seq_NoDup].
  intros i j Hi%elem_of_seq Hj%elem_of_seq E. unfold candidate, u32 in E.
  assert ((8 * (Z.of_nat i - Z.of_nat j)) mod 2 ^ 32 = 0) as E0.
  { replace (8 * (Z.of_nat i - Z.of_nat j)) with ((next + 8 * Z.of_nat i) - (next + 8 * Z.of_nat j)) by lia.
    rewrite Zminus_mod, E, Z.sub_diag. done. }
  apply Z.mod_divide in E0 as [q Hq]; [|done]. assert (q = 0) by lia. lia.
Qed.

(** A new terminal always gets an ID of its own: as long as a crane has fewer than
    2^29-1 terminals the search for an ID ends within one try more than there are
    terminals, with an ID that no terminal has, and the IDs a crane gives stay in its
    residue class modulo eight, so that the two ends never give the same. *)
Theorem terminal_ids_free (c : Crane) : Z.of_nat (size (terminals c)) < 2 ^ 29 - 1 ->
  exists id c', getNextTerminalID c = Some (id, c') /\ terminals c !! id = None /\ id mod 8 = nextTerminalID c mod 8 /\
    c' = c <| nextTerminalID := id |>.
Proof.
  intros Hn. unfold getNextTerminalID. pose proof (findTerminalID_spec (S (size (terminals c))) (nextTerminalID c) (terminals c)) as H.
  destruct (findTerminalID _ _ _) as [id|]; simpl.
  - destruct H as [Hf [k ->]]. eexists _, _. split; [reflexivity|]. split; [done|]. split; [|done].
    unfold candidate, u32. rewrite <- (Znumtheory.Zmod_div_mod 8 (2 ^ 32)) by (done || by exists (2 ^ 29)).
    rewrite (Z.mul_comm 8). apply Z.mod_add. lia.
  - exfalso. set (l := candidate (nextTerminalID c) <$> seq 1 (S (size (terminals c)))).
    assert (size (list_to_set l : gset Z) <= size (dom (terminals c)))%nat as Hs.
    { apply subseteq_size. intros x Hx. apply elem_of_list_to_set, list_elem_of_fmap in Hx as (k & -> & Hk).
      apply elem_of_seq in Hk. apply elem_of_dom, H. lia. }
    rewrite size_dom, size_list_to_set in Hs by (apply candidates_differ; lia). unfold l in Hs. rewrite length_fmap, length_seq in Hs. lia.
Qed.

(** ** Sizes and padding *)

(** The load size of a ship does not account for headers of the transport: the sizes to
    subtract have no influence, only their number has. *)
Theorem load_size_ignores_headers ip addr subtract subtract' ship : length subtract = length subtract' ->
  Ship.calculateLoadSize ip addr subtract ship = Ship.calculateLoadSize ip addr subtract' ship /\
  (length subtract = 1%nat -> Ship.calculateLoadSize ip addr subtract ship = Ship.calculateLoadSize ip addr [] ship).
Proof.
  intros Hl. unfold Ship.calculateLoadSize. rewrite <- Hl. split; [done|]. intros ->. simpl. by rewrite Z.sub_0_r.
Qed.

(** A crane started here does not pad its shipments, whatever is asked for: its controller
    is set up without padding, and the options of the controller become those of the crane. *)
Lemma local_crane_never_pads initMsg (c c' : Crane) rnd d : newLocalController initMsg c = (c', None) -> padShipment c' rnd d = d.
Proof.
  unfold newLocalController. set (o := initMsg <| Padding := 0 |>). destruct (CheckOpts o true) as [o' [e|]] eqn:E; [done|]. intros [= <-].
  enough (Padding o' = 0) as Hp by (unfold padShipment; simpl; by rewrite Hp).
  unfold CheckOpts, Check_version, Check_size in E. repeat case_step; simplify_eq/=; done.
Qed.
(** Stopping: every terminal is abandoned, and a second call does nothing. *)
Lemma Stop_stopped err err' (c : Crane) : stopped (Stop err c) = true /\ Stop err' (Stop err c) = Stop err c.
Proof.
  enough (stopped (Stop err c) = true) as E by (split; [done|]; unfold Stop at 1; by rewrite E).
  unfold Stop. destruct (stopped c) eqn:Es; [done|].
  assert (forall l (x : Crane), stopped (foldl (fun c ref => emit (EAbandon ref err) c) x l) = stopped x) as Hf.
  { induction l as [|r l IH]; intros x; simpl; [done|]. by rewrite IH. }
  simpl. destruct (Controller _); simpl; by rewrite Hf.
Qed.
End props.

(** ** A concrete run

    LEB128 numbers and a simple cipher. *)
Module Demo.
Export Caesar.
#[export] Instance demoEnv : CraneEnv := {| NewRemoteCraneTerminal _ _ _ := None; DeliverTo _ _ _ := None |}.

Definition demoShip (mine : bool) : Ship.ShipBase := Ship.mkShip mine false false 4096 3100 None false.
Definition demoOpts : TerminalOpts := mkOpts 1 false 0 FlowControlNone 100 true.
Definition demoCrane (mine : bool) (padding : Z) : Crane :=
  initCraneController (demoOpts <| Padding := padding |>) ((NewCrane (demoShip mine) 0) <| jession := Some (0, 0) |>).
Definition pair0 : Pair := mkPair (demoCrane true 16) (demoCrane false 0) [] [].
Definition big : TMsg := mkTMsg 8 MsgTypeData (repeat 65 3500) false.
Definition small : TMsg := mkTMsg 8 MsgTypePriorityData [1; 2; 3] true.
(** A message longer than a shipment and a short one in two shipments, read in pieces. *)
Definition schedule : list PairAction :=
  [PLeft (AEstablish [1]); PLeft ALoaderTop; PLeft (ASendMsg big); PLeft (ASendMsg small);
   PLeft ALoaderTop; PLeft (ALoaderWait LTerminal); PLeft ALoaderTop; PLeft (AShip [] [Some 1000%nat; Some 9999%nat]);
   PLeft ALoaderTop; PLeft (ALoaderWait LTerminal); PLeft ALoaderTop; PLeft (ALoaderWait LTimer); PLeft (AShip [9; 9; 9] [Some 9999%nat]);
   PRightGets 1; PRight (AUnload 5); PRightGets 9999; PRight (AUnload 5); PRight (AUnload 2000); PRight (AUnload 2000); PRight AHandle;
   PRight (AUnload 2); PRight (AUnload 9999); PRight AHandle].
Definition pair1 : Pair := default pair0 (pairExec demoEnv demoEnv schedule pair0).
Lemma pair1_reached : pairExec demoEnv demoEnv schedule pair0 = Some pair1.
Proof. by vm_compute. Qed.
Lemma pair0_connected : connected sendOf recvOf eq pair0.
Proof.
  split; try done; (split; [done|done|vm_compute; split; congruence|]); (split; try constructor; try done; vm_compute; split; congruence).
Qed.
End Demo.
Import Demo.

Lemma crane_delivers_witness : settled pair1 /\ segments (events (right pair1)) = [(8, MsgTypeInit, [1]); seg big; seg small].
Proof.
  assert (settled pair1) as Hs by (vm_compute; split; [congruence|repeat split]).
  split; [exact Hs|].
  destruct (crane_delivers sendOf recvOf eq demoEnv demoEnv (WL := leb_wire_laws) (JL := caesar_laws) pair0 pair1 pair0_connected (pairExec_rtc _ _ _ _ _ pair1_reached)) as (_ & H & _).
  rewrite (H Hs). vm_compute. reflexivity.
Defined.
Lemma terminal_ids_free_witness : Z.of_nat (size (terminals (left pair1))) < 2 ^ 29 - 1 /\
  exists id c', getNextTerminalID (left pair1) = Some (id, c') /\ terminals (left pair1) !! id = None.
Proof.
  assert (Z.of_nat (size (terminals (left pair1))) < 2 ^ 29 - 1) as Hn by (by vm_compute). split; [exact Hn|].
  destruct (terminal_ids_free (left pair1) Hn) as (id & c' & H1 & H2 & _). exact (ex_intro _ id (ex_intro _ c' (conj H1 H2))).
Defined.
Lemma load_size_ignores_headers_witness : Ship.loadSize (Ship.calculateLoadSize (Some [1; 2; 3; 4]) None [Ship.TCPHeaderMTUSize] (demoShip true)) = 1440.
Proof. destruct (load_size_ignores_headers (Some [1; 2; 3; 4]) None [Ship.TCPHeaderMTUSize] [0] (demoShip true) eq_refl) as [_ ->]; reflexivity. Defined.
