(* ===== verification/Terminal.v ===== *)
(** * Terminals (spn/terminal: terminal.go, operation.go, operation_base.go, permission.go)

    A terminal carries the messages of operations: the sender collects them in a buffer
    that it pads, encrypts and submits; the handler takes received data apart and hands
    it to operations; stopping an operation and abandoning the terminal are workers.  A
    [termStep] is what one goroutine does between two waits.  The flow control is
    [FlowQueue]; here it is what submitted messages are given to. *)

From S2P Require Import Prelude Varint FlowQueue SpnWire.

Definition sendThresholdLength : Z := 100.
Definition sendMaxLength : Z := 4000.
Definition timeoutTicks : Z := 5.

(** ** State *)

(** What happened, latest last. *)
Inductive TEvent :=
| ETaken (m : TMsg)                          (* the sender took a message of an operation *)
| ESubmitted (m : TMsg)                      (* taken by the flow control or upstream *)
| ELost (m : TMsg)                           (* not taken, or not encrypted *)
| EReceived (m : TMsg)                       (* the handler took a message *)
| EOpMsg (id msgType : Z) (data : bytes)     (* a message for an operation was parsed *)
| EOpDelivered (ref : nat) (m : TMsg) | EOpStarted (ref : nat) | EHandleStop (ref : nat) (err : option TErr)
| EFlushed (fs : list nat) | EHandleAbandon (err : option TErr) | EDestroyed (err : option TErr)
| EParentDone                                (* the context of the parent was cancelled *).

(** An operation that is an [unknownOp] only stands for an ID. *)
Record Op := mkOp { opID : Z; opStopped : bool; opUnknown : bool }.
#[export] Instance eta_Op : Eta Op := fun o => mkOp (opID o) (opStopped o) (opUnknown o).

(** The worker that stops an operation: before [HandleStop], sending the message, before
    the operation is deleted. *)
Inductive StopStage := SWStart (err : option TErr) | SWSend (m : TMsg) | SWDelete.

(** The worker that abandons the terminal: ending the operations, waiting for them,
    flushing, and the rest. *)
Inductive AbandonStage := AbNone | AbEnd (err : option TErr) | AbWait (err : option TErr) | AbFlush (err : option TErr)
  | AbFlushing (err : option TErr) | AbFinish (err : option TErr) | AbDone.

(** The handler between its look at an operation and its delivery, and between a failed
    delivery and stopping the operation. *)
Inductive Delivery := DChecked (ref : nat) (m : TMsg) | DFailed (ref : nat) (err : TErr).

Inductive SenderPC := SInit | SLoop | SDone.
Inductive Timer := TimerNone | TimerRunning | TimerFired.
Record Sender := mkSender {
  spc : SenderPC; msgBufferMsg : option TMsg; msgBufferLen : Z; msgBufferLimitReached : bool; sendMsgs : bool;
  sendMaxWait : Timer; flushFinished : list nat;
}.
#[export] Instance eta_Sender : Eta Sender := fun s =>
  mkSender (spc s) (msgBufferMsg s) (msgBufferLen s) (msgBufferLimitReached s) (sendMsgs s) (sendMaxWait s) (flushFinished s).
(** The flush function of the worker that abandons. *)
Definition abandonFlush : nat := 0.

(** What starting an operation gives. *)
Inductive StartResult := StartErr (e : TErr) | StartDone | StartOp.

(** The operation types and what operations and the extended terminal do; their answers may
    depend on all that happened. *)
Class TermEnv := {
  OpRequires : bytes -> option Z;
  OpStart : list TEvent -> Z -> bytes -> bytes -> StartResult;
  OpDeliver : list TEvent -> nat -> TMsg -> option TErr;
  OpHandleStop : list TEvent -> nat -> option TErr -> option TErr;
  ExtHandleAbandon : list TEvent -> option TErr -> option TErr;
}.

Section terminal.
Context {V : Varint} {VS : VarintSize} {J : Jess} {TE : TermEnv}.

Record Term := mkTerm {
  tid : Z; topts : TerminalOpts; ext : bool; jession : option Session; identity : option Identity; encryptionReady : bool;
  ops : list Op; operations : gmap Z nat; nextOpID : Z; permission : Z;
  lastUnknownOpID : Z; lastUnknownOpMsgs : Z; waitForFlush : bool; idleCounter : Z; Abandoning : bool; ctxDone : bool;
  sender : Sender; handling : option bytes; delivering : option Delivery; handlerDone : bool;
  clients : list TMsg; stopWorkers : list (nat * StopStage); abandon : AbandonStage; events : list TEvent;
}.
#[export] Instance eta_Term : Eta Term := fun t =>
  mkTerm (tid t) (topts t) (ext t) (jession t) (identity t) (encryptionReady t) (ops t) (operations t) (nextOpID t) (permission t)
    (lastUnknownOpID t) (lastUnknownOpMsgs t) (waitForFlush t) (idleCounter t) (Abandoning t) (ctxDone t) (sender t)
    (handling t) (delivering t) (handlerDone t) (clients t) (stopWorkers t) (abandon t) (events t).

Definition emit (e : TEvent) (t : Term) : Term := t <| events ::= fun l => l ++ [e] |>.

(** [createTerminalBase], with a session or an identity for encryption. *)
Definition createTerminalBase (id : Z) (remote extended : bool) (opts : TerminalOpts) (session : option Session) (ident : option Identity) : Term := {|
  tid := id; topts := opts; ext := extended; jession := session; identity := ident; encryptionReady := if session then true else false;
  ops := []; operations := ∅; nextOpID := if remote then 4 else 0; permission := 0;
  lastUnknownOpID := 0; lastUnknownOpMsgs := 0; waitForFlush := false; idleCounter := 0; Abandoning := false; ctxDone := false;
  sender := mkSender SInit None 0 false false TimerNone []; handling := None; delivering := None; handlerDone := false;
  clients := []; stopWorkers := []; abandon := AbNone; events := [];
|}.

Definition GrantPermission (grant : Z) (t : Term) : Term := t <| permission ::= fun p => Z.lor p grant |>.
Definition HasPermission (t : Term) (required : Z) : bool := Has (permission t) required.

(** [Abandon]: the first call starts the worker. *)
Definition Abandon (err : option TErr) (t : Term) : Term :=
  if Abandoning t then t else t <| Abandoning := true |> <| abandon := AbEnd err |>.

(** ** Operations *)
Definition newOp (id : Z) (unknown : bool) (t : Term) : nat * Term :=
  (length (ops t), t <| ops ::= fun l => l ++ [mkOp id false unknown] |>).
Definition SetActiveOp (id : Z) (ref : nat) (t : Term) : Term := t <| operations ::= <[id := ref]> |>.
Definition DeleteActiveOp (id : Z) (t : Term) : Term := t <| operations ::= delete id |>.

(** [StopOperation]: unless it has stopped already, its worker starts. *)
Definition StopOperation (ref : nat) (err : option TErr) (t : Term) : Term :=
  match ops t !! ref with
  | Some op =>
      if opStopped op then t
      else t <| ops ::= alter (fun op => op <| opStopped := true |>) ref |> <| stopWorkers ::= fun l => l ++ [(ref, SWStart err)] |>
  | None => t
  end.
Definition stopUnknown (id : Z) (err : option TErr) (t : Term) : Term :=
  let '(ref, t) := newOp id true t in StopOperation ref err t.

Definition handleOperationStart (opID : Z) (initData : bytes) (t : Term) : Term :=
  if Abandoning t then stopUnknown opID (Some ErrAbandonedTerminal) t else
  match GetNextBlock initData with
  | None => stopUnknown opID (Some ErrMalformedData) t
  | Some (opType, data) =>
      match OpRequires opType with
      | None => stopUnknown opID (Some ErrUnknownOperationType) t
      | Some requires =>
          if negb (HasPermission t requires) then stopUnknown opID (Some ErrPermissionDenied) t else
          match OpStart (events t) opID opType data with
          | StartErr e => stopUnknown opID (Some e) t
          | StartDone => stopUnknown opID None t
          | StartOp => let '(ref, t) := newOp opID false t in SetActiveOp opID ref (emit (EOpStarted ref) t)
          end
      end
  end.

(** [OperationBase.Send]: what it makes of a message. *)
Definition opMsg (id : Z) (m : TMsg) : TMsg :=
  let m := m <| FlowID := id |> in
  if (MType m =? MsgTypeData) && MHighPriority m then m <| MType := MsgTypePriorityData |> else m.
(** [StartOperation] of this side: the operation is registered, and its first message is
    about to be sent. *)
Definition StartOperation (opType initData : bytes) (t : Term) : Term :=
  let id := u32 (nextOpID t + 8) in
  let '(ref, t) := newOp id false (t <| nextOpID := id |>) in
  let t := SetActiveOp id ref t in
  t <| clients ::= fun l => l ++ [mkTMsg id MsgTypeInit (PrependLength opType ++ initData) true] |>.

(** ** The sender *)

(** A message joins the buffer. *)
Definition takeMsg (m : TMsg) (t : Term) : Term :=
  let s := sender t in
  let '(buf, m') := match msgBufferMsg s with
                    | Some b => Consume b m
                    | None => let m' := PackMsg m in (m' <| FlowID := tid t |> <| MType := MsgTypeData |>, m')
                    end in
  let len := msgBufferLen s + Z.of_nat (length (MData m')) in
  let s := s <| msgBufferMsg := Some buf |> <| msgBufferLen := len |> in
  let s := if sendThresholdLength <=? len then s <| sendMsgs := true |>
           else match sendMaxWait s with
                | TimerNone => if waitForFlush t then s else s <| sendMaxWait := TimerRunning |>
                | _ => s
                end in
  let s := if sendMaxLength <=? len then s <| msgBufferLimitReached := true |> else s in
  emit (ETaken m) (t <| sender := s |> <| idleCounter := 0 |>).

(** Padding (the sum is negative for long messages) with random bytes, and encryption. *)
Definition paddingNeeded (t : Term) (d : bytes) : Z := Z.rem (Padding (topts t) - Z.of_nat (length d)) (Padding (topts t)).
Definition padData (t : Term) (rnd d : bytes) : bytes :=
  if Padding (topts t) <=? 0 then d else
  let needed := paddingNeeded t d in
  if needed <=? 0 then d else d ++ 0 :: resize (Z.to_nat (needed - 1)) 0 rnd.
Definition encrypt (d : bytes) (t : Term) : (bytes * Term) + TErr :=
  if negb (Encrypt (topts t)) then inl (d, t) else
  match jession t with
  | None => inr ErrInternalError
  | Some s =>
      match seal s d with
      | inl (w, s) => inl (w, t <| jession := Some s |>)
      | inr SealClose => inr ErrIntegrity
      | inr SealWire => inr ErrInternalError
      end
  end.
(** [submit]: the terminal is abandoned if the flow control or upstream refuses a message. *)
Definition submit (m : TMsg) (refused : option TErr) (t : Term) : Term :=
  let m := m <| FlowID := tid t |> in
  match refused with None => emit (ESubmitted m) t | Some e => Abandon (Wrap (Some e)) (emit (ELost m) t) end.
Definition sendOpMsgs (m : TMsg) (rnd : bytes) (refused : option TErr) (t : Term) : Term * option TErr :=
  match encrypt (padData t rnd (MData m)) t with
  | inl (d, t) => (submit (m <| MData := d |>) refused t, None)
  | inr e => (emit (ELost m) t, Some e)
  end.

(** The buffer is sent when the flow control is ready. *)
Definition sendBuffer (rnd : bytes) (refused : option TErr) (t : Term) : Term :=
  let s := sender t in
  let '(t, err) := match msgBufferMsg s with
                   | Some m =>
                       if 0 <? msgBufferLen s then
                         sendOpMsgs (if (MType m =? MsgTypeData) && MHighPriority m && UsePriorityDataMsgs (topts t)
                                     then m <| MType := MsgTypePriorityData |> else m) rnd refused t
                       else (t, None)
                   | None => (t, None)
                   end in
  let t := t <| sender := mkSender SLoop None 0 false false TimerNone [] |> in
  let t := match flushFinished s with [] => t | fs => emit (EFlushed fs) t end in
  match err with Some e => Abandon (Some (With e)) t | None => t end.
Definition requestFlush (f : nat) (t : Term) : Term :=
  let t := t <| waitForFlush := false |> in
  if msgBufferLen (sender t) =? 0 then emit (EFlushed [f]) (t <| sender ::= fun s => s <| sendMsgs := true |> |>)
  else t <| sender ::= fun s => s <| flushFinished ::= fun l => l ++ [f] |> <| sendMsgs := true |> |>.
Definition timerFires (t : Term) : Term :=
  t <| sender ::= fun s => let s := s <| sendMaxWait := TimerFired |> in if waitForFlush t then s else s <| sendMsgs := true |> |>.
(** A tick of the idle ticker, in the sender or the handler. *)
Definition idleTick (t : Term) : Term :=
  let n := u32 (idleCounter t + 1) in
  if timeoutTicks <? n then Abandon (Some ErrNoActivity) t <| idleCounter := 0 |> else t <| idleCounter := n |>.
(** ** The handler *)
Definition decrypt (d : bytes) (t : Term) : Term * (bytes + TErr) :=
  if negb (Encrypt (topts t)) then (t, inl d) else
  match LetterFromWire d with
  | None => (t, inr ErrMalformedData)
  | Some l =>
      let open s t := match Open s l with Some (d, s) => (t <| jession := Some s |>, inl d) | None => (t, inr ErrIntegrity) end in
      match jession t, identity t with
      | Some s, _ => open s t
      | None, None => (t, inr ErrInternalError)
      | None, Some i =>
          match WireCorrespondence l i with
          | None => (t, inr ErrIntegrity)
          | Some s => open s (t <| jession := Some s |> <| identity := None |> <| encryptionReady := true |>)
          end
      end
  end.

(** The delivery of a message: no lock keeps the operation from being stopped since its
    [Stopped] was asked. *)
Definition deliverStep (d : Delivery) (t : Term) : Term :=
  match d with
  | DChecked ref m => emit (EOpDelivered ref m) t <| delivering := DFailed ref <$> OpDeliver (events t) ref m |>
  | DFailed ref e => StopOperation ref (Some e) (t <| delivering := None |>)
  end.
(** A message for an operation that is not there: every thousandth in a row is answered. *)
Definition unknownOpMsg (id : Z) (t : Term) : Term :=
  if id =? lastUnknownOpID t then
    let n := u32 (lastUnknownOpMsgs t + 1) in
    let t := t <| lastUnknownOpMsgs := n |> in
    if n mod 1000 =? 0 then stopUnknown id (Some ErrUnknownOperationID) t else t
  else t <| lastUnknownOpID := id |> <| lastUnknownOpMsgs := 1 |>.
Definition activeOp (id : Z) (t : Term) : option (nat * Op) := ref ← operations t !! id; op ← ops t !! ref; Some (ref, op).
Definition dispatchOp (id msgType : Z) (data : bytes) (t : Term) : Term :=
  if msgType =? MsgTypeInit then handleOperationStart id data t
  else if (msgType =? MsgTypeData) || (msgType =? MsgTypePriorityData) then
    match activeOp id t with
    | Some (ref, op) =>
        if opStopped op then unknownOpMsg id t
        else t <| delivering := Some (DChecked ref (mkTMsg id msgType data (msgType =? MsgTypePriorityData))) |>
    | None => unknownOpMsg id t
    end
  else
    match operations t !! id with
    | Some ref => StopOperation ref (Some (default (AsExternal ErrUnknownError) (ParseExternalError data))) t
    | None => t
    end.

Definition handlerFails (err : option TErr) (t : Term) : Term := Abandon err (t <| handlerDone := true |> <| handling := None |>).
(** A received message: decrypted, to be taken apart. *)
Definition receive (m : TMsg) (t : Term) : Term :=
  let t := emit (EReceived m) t in
  match MData m with
  | [] => t <| idleCounter := 0 |>
  | _ =>
      match decrypt (MData m) t with
      | (t, inl d) => t <| handling := Some d |>
      | (t, inr e) => handlerFails (Some (With e)) t
      end
  end.
(** The next message for an operation of what is being handled; a length of zero says that
    the rest is padding. *)
Definition handleNext (d : bytes) (t : Term) : Term :=
  match d with
  | [] => t <| handling := None |> <| idleCounter := 0 |>
  | _ =>
      match GetNextN32 d with
      | inr _ => handlerFails (Some ErrMalformedData) t
      | inl (msgLength, d) =>
          if msgLength =? 0 then t <| handling := None |> <| idleCounter := 0 |> else
          match GetAsContainer (Z.to_nat msgLength) d with
          | None => handlerFails (Some ErrMalformedData) t
          | Some (msgData, rest) =>
              match ParseIDType msgData with
              | None => handlerFails (Some ErrMalformedData) t
              | Some (id, msgType, data) =>
                  dispatchOp id msgType data (emit (EOpMsg id msgType data) (t <| handling := Some rest |>))
              end
          end
      end
  end.

(** ** Stopping *)

(** The next step of a worker that stops an operation. *)
Definition afterStop (err : option TErr) (id : Z) : StopStage :=
  if IsExternal err then SWDelete else SWSend (mkTMsg id MsgTypeStop (PackErr (Some (default ErrStopping err))) false).
Definition stopStep (ref : nat) (op : Op) (st : StopStage) (t : Term) : option (option StopStage * Term) :=
  match st with
  | SWStart err =>
      if opUnknown op then Some (Some (afterStop err (opID op)), t) else
      let err' := OpHandleStop (events t) ref err in
      Some (Some (afterStop err' (opID op)), emit (EHandleStop ref err) t)
  | SWSend _ => None
  | SWDelete => Some (None, DeleteActiveOp (opID op) t)
  end.

(** [handleAbandonProcedure]. *)
Definition abandonStep (late : bool) (refused : option TErr) (t : Term) : option Term :=
  match abandon t with
  | AbEnd err =>
      let t := foldl (fun t ref => StopOperation ref None t) t (snd <$> map_to_list (operations t)) in
      Some (t <| abandon := AbWait err |>)
  | AbWait err =>
      if late || bool_decide (operations t = ∅) then
        let '(err, t) := if ext t then (ExtHandleAbandon (events t) err, emit (EHandleAbandon err) t) else (err, t) in
        if IsExternal err then Some (t <| abandon := AbFinish err |>)
        else
          let err := Some (default ErrStopping err) in
          Some (submit (mkTMsg 0 MsgTypeStop (PackErr err) false) refused t <| abandon := AbFlush err |>)
      else None
  | AbFinish err =>
      let t := t <| ctxDone := true |> <| abandon := AbDone |> in
      Some (if ext t then emit (EDestroyed err) t else t)
  | _ => None
  end.
(** [Flush] as the abandoning worker calls it: the request and its end, or a timeout. *)
Definition abandonFlushStep (timeout : bool) (t : Term) : option Term :=
  match abandon t with
  | AbFlush err => if timeout then Some (t <| abandon := AbFinish err |>) else None
  | AbFlushing err =>
      if timeout || existsb (fun e => match e with EFlushed fs => existsb (Nat.eqb abandonFlush) fs | _ => false end) (events t)
      then Some (t <| abandon := AbFinish err |>) else None
  | _ => None
  end.

(** ** Steps *)
Inductive TermAction :=
| TStart (opType initData : bytes)                      (* an operation is started here *)
| TSend (ref : nat) (m : TMsg)                          (* an operation is about to send *)
| TStop (ref : nat) (err : option TErr) | TAbandon (err : option TErr) | TGrant (p : Z) | TWaitForFlush
| TClientGivesUp (i : nat) | TStopGivesUp (i : nat)     (* timeout, or the context is done *)
| TParentDone                                           (* the context is one of the parent's *)
| TSenderStarts | TTake (i : nat) | TTakeStop (i : nat) | TTimer | TFlush (f : nat) | TAbandonFlush
| TReady (rnd : bytes) (refused : option TErr) | TIdle | TSenderDone
| TReceive (m : TMsg) | THandle | THandlerDone
| TStopWork (i : nat) | TAbandonWork (late : bool) (refused : option TErr) | TAbandonFlushed (timeout : bool).

Definition looping (t : Term) : bool := match spc (sender t) with SLoop => true | _ => false end.
Definition accepts (t : Term) : bool := looping t && negb (msgBufferLimitReached (sender t)).
Definition setStage (i : nat) (ref : nat) (st : option StopStage) (t : Term) : Term :=
  t <| stopWorkers ::= fun l => match st with Some st => <[i := (ref, st)]> l | None => delete i l end |>.
Definition termStep (a : TermAction) (t : Term) : option Term :=
  match a with
  | TStart opType data => Some (StartOperation opType data t)
  | TSend ref m => op ← ops t !! ref; Some (t <| clients ::= fun l => l ++ [opMsg (opID op) m] |>)
  | TStop ref err => Some (StopOperation ref err t)
  | TAbandon err => Some (Abandon err t)
  | TGrant p => Some (GrantPermission p t)
  | TWaitForFlush => Some (t <| waitForFlush := true |>)
  | TClientGivesUp i => _ ← clients t !! i; Some (t <| clients ::= delete i |>)
  | TStopGivesUp i =>
      match stopWorkers t !! i with Some (ref, SWSend _) => Some (setStage i ref (Some SWDelete) t) | _ => None end
  | TParentDone => Some (emit EParentDone (t <| ctxDone := true |>))
  | TSenderStarts =>
      match spc (sender t) with
      | SInit => if negb (Encrypt (topts t)) || encryptionReady t then Some (t <| sender ::= fun s => s <| spc := SLoop |> |>) else None
      | _ => None
      end
  | TTake i => m ← clients t !! i; if accepts t then Some (takeMsg m (t <| clients ::= delete i |>)) else None
  | TTakeStop i =>
      match stopWorkers t !! i with
      | Some (ref, SWSend m) => if accepts t then Some (takeMsg m (setStage i ref (Some SWDelete) t)) else None
      | _ => None
      end
  | TTimer => match sendMaxWait (sender t) with TimerRunning => if looping t then Some (timerFires t) else None | _ => None end
  | TFlush f => if looping t && negb (f =? abandonFlush)%nat then Some (requestFlush f t) else None
  | TAbandonFlush =>
      match abandon t with
      | AbFlush err => if looping t then Some (requestFlush abandonFlush (t <| abandon := AbFlushing err |>)) else None
      | _ => None
      end
  | TReady rnd refused => if looping t && sendMsgs (sender t) then Some (sendBuffer rnd refused t) else None
  | TIdle => Some (idleTick t)
  | TSenderDone =>
      if ctxDone t then
        match spc (sender t) with SDone => None | _ => Some (Abandon None (t <| sender ::= fun s => s <| spc := SDone |> |>)) end
      else None
  | TReceive m => if handlerDone t then None else match handling t with None => Some (receive m t) | Some _ => None end
  | THandle =>
      match delivering t, handling t with
      | Some d, _ => Some (deliverStep d t)
      | None, Some d => Some (handleNext d t)
      | None, None => None
      end
  | THandlerDone =>
      match handling t with
      | None => if ctxDone t && negb (handlerDone t) then Some (handlerFails None t) else None
      | Some _ => None
      end
  | TStopWork i =>
      '(ref, st) ← stopWorkers t !! i; op ← ops t !! ref; '(st, t) ← stopStep ref op st t; Some (setStage i ref st t)
  | TAbandonWork late refused => abandonStep late refused t
  | TAbandonFlushed timeout => abandonFlushStep timeout t
  end.
Definition tStep (t t' : Term) : Prop := exists a, termStep a t = Some t'.
End terminal.
