(* ===== verification/TerminalFacts.v ===== *)
(** * Facts about terminals

    What the steps of a terminal leave alone, the invariant of its sender, the invariant
    of its handler for what another terminal has sent, and that stopping happens once. *)

From S2P Require Import Prelude Varint FlowQueue SpnWire Terminal.

Section facts.
Context {V : Varint} {VS : VarintSize} {WL : WireLaws V VS} {J : Jess} {TE : TermEnv}.
Context {Snd Rcv : Type} (sendOf : Session -> Snd) (recvOf : Session -> Rcv) (linked : Snd -> Rcv -> Prop).
Context {JL : JessLaws J sendOf recvOf linked}.

(** ** What happened *)
Definition taken (es : list TEvent) : list TMsg := omap (fun e => match e with ETaken m => Some m | _ => None end) es.
(** Submitted data; what abandoning submits is not data. *)
Definition frames (es : list TEvent) : list bytes :=
  omap (fun e => match e with ESubmitted m => if MType m =? MsgTypeStop then None else Some (MData m) | _ => None end) es.
Definition lost (es : list TEvent) : list TMsg := omap (fun e => match e with ELost m => if MType m =? MsgTypeStop then None else Some m | _ => None end) es.
(** Received data; empty messages only tell of space in queues. *)
Definition received (es : list TEvent) : list bytes :=
  omap (fun e => match e with EReceived m => match MData m with [] => None | d => Some d end | _ => None end) es.
Definition opMsgs (es : list TEvent) : list (Z * Z * bytes) := omap (fun e => match e with EOpMsg i t d => Some (i, t, d) | _ => None end) es.

(** Messages as operations may send them. *)
Definition wellSized (m : TMsg) : Prop := msgOk m /\ Z.of_nat (length (MData m)) < 2 ^ 31.

Lemma pack32_length n : 0 <= n < 2 ^ 32 -> (1 <= length (Pack32 n) <= 5)%nat.
Proof.
  intros Hn. pose proof (unpack32_pack32 n [] Hn) as H. apply unpack32_range in H as [_ H]. rewrite length_take in H. lia.
Qed.
Lemma pack64_length n : 0 <= n < 2 ^ 32 -> (1 <= length (Pack64 n) <= 5)%nat.
Proof.
  intros Hn. pose proof (unpack32_pack64 n [] Hn) as H. apply unpack32_range in H as [_ H]. rewrite length_take in H. lia.
Qed.
Lemma wellSized_length m : wellSized m -> 1 <= Z.of_nat (length (body m)) < 2 ^ 32.
Proof.
  intros [[Hf Ht] Hl]. unfold body, AddIDType. rewrite lor_flow by (done || apply Hf). rewrite length_app.
  pose proof (pack32_length _ (proj1 (flow_sum _ _ Hf Ht))). lia.
Qed.
Lemma wellSized_nonempty m : wellSized m -> packed m <> [].
Proof.
  intros H E. change (packed m) with (Pack64 (Z.of_nat (length (body m))) ++ body m) in E. apply app_eq_nil in E as [_ E].
  pose proof (wellSized_length m H) as Hb. rewrite E in Hb. simpl in Hb. lia.
Qed.
Lemma packed_length m : wellSized m -> 0 < Z.of_nat (length (packed m)).
Proof. intros H%wellSized_nonempty. destruct (packed m); [done|]. simpl. lia. Qed.

(** ** Views *)
Definition senderView (t : Term) :=
  (tid t, topts t, sendOf <$> jession t, sender t, taken (events t), frames (events t), lost (events t)).
Definition recvView (t : Term) :=
  (topts t, recvOf <$> jession t, identity t, handling t, handlerDone t, received (events t), opMsgs (events t)).
Definition workerOk (w : nat * StopStage) : Prop := match w.2 with SWSend m => wellSized m | _ => True end.
(** The messages about to be sent are in order, and operations have IDs that are. *)
Record orderly (t : Term) : Prop := {
  or_clients : Forall wellSized (clients t);
  or_workers : Forall workerOk (stopWorkers t);
  or_ops : Forall (fun op => flowOk (opID op)) (ops t);
  or_next : flowOk (nextOpID t);
}.
(** What changes neither side. *)
Definition still (t t' : Term) : Prop :=
  senderView t' = senderView t /\ recvView t' = recvView t /\ (orderly t -> orderly t') /\ (ctxDone t = true -> ctxDone t' = true).
#[export] Instance still_preorder : PreOrder still.
Proof.
  split; [by intros t|]. intros t1 t2 t3 (H1 & H2 & H3 & H4) (G1 & G2 & G3 & G4). split; [congruence|]. split; [congruence|]. auto.
Qed.

Lemma still_emit e t : taken [e] = [] -> frames [e] = [] -> lost [e] = [] -> received [e] = [] -> opMsgs [e] = [] -> still t (emit e t).
Proof.
  intros H1 H2 H3 H4 H5. split; [|split; [|split; [by intros [????]|done]]]; unfold senderView, recvView, emit, taken, frames, lost, received, opMsgs in *;
    simpl; by rewrite !omap_app, ?H1, ?H2, ?H3, ?H4, ?H5, !app_nil_r.
Qed.
Lemma still_Abandon err t : still t (Abandon err t).
Proof. unfold Abandon. destruct (Abandoning t); [done|]. split_and!; try done. by intros [????]. Qed.
Lemma still_StopOperation ref err t : still t (StopOperation ref err t).
Proof.
  unfold StopOperation. destruct (ops t !! ref) as [op|] eqn:E; [|done]. destruct (opStopped op); [done|].
  split_and!; try done. intros [H1 H2 H3 H4]. split; try done; simpl.
  - by apply Forall_snoc.
  - by apply Forall_alter.
Qed.
Lemma still_newOp id u t : flowOk id -> still t (newOp id u t).2.
Proof. intros Hid. split_and!; try done. intros [H1 H2 H3 H4]. split; try done. by apply Forall_snoc. Qed.
Lemma still_stopUnknown id err t : flowOk id -> still t (stopUnknown id err t).
Proof. intros Hid. unfold stopUnknown. etrans; [apply (still_newOp id true t Hid)|]. apply still_StopOperation. Qed.
Lemma still_operations f t : still t (t <| operations ::= f |>).
Proof. split_and!; try done. by intros [????]. Qed.
Lemma still_start id data t : flowOk id -> still t (handleOperationStart id data t).
Proof.
  intros Hid. unfold handleOperationStart. destruct (Abandoning t); [by apply still_stopUnknown|].
  destruct (GetNextBlock data) as [[ty d]|]; [|by apply still_stopUnknown]. destruct (OpRequires ty) as [r|]; [|by apply still_stopUnknown].
  destruct (negb _); [by apply still_stopUnknown|]. destruct (OpStart _ _ _ _); try by apply still_stopUnknown.
  simpl. etrans; [apply (still_newOp id false t Hid)|]. etrans; [by apply (still_emit (EOpStarted (length (ops t))))|]. apply still_operations.
Qed.
Lemma still_delivering o t : still t (t <| delivering := o |>).
Proof. split_and!; try done. by intros [????]. Qed.
Lemma still_deliver d t : still t (deliverStep d t).
Proof.
  destruct d as [ref m|ref e]; simpl.
  - etrans; [apply (still_delivering (DFailed ref <$> OpDeliver (events t) ref m))|]. by apply still_emit.
  - etrans; [apply (still_delivering None)|]. apply still_StopOperation.
Qed.
Lemma still_dispatch id ty data t : flowOk id -> still t (dispatchOp id ty data t).
Proof.
  intros Hid. assert (still t (unknownOpMsg id t)) as Hu.
  { unfold unknownOpMsg. destruct (_ =? _); [|split_and!; try done; by intros [????]].
    assert (forall n, still t (t <| lastUnknownOpMsgs := n |>)) as Hn by (intros n; split_and!; try done; by intros [????]).
    destruct (_ =? _); [|apply Hn]. etrans; [apply Hn|]. by apply still_stopUnknown. }
  unfold dispatchOp. destruct (ty =? MsgTypeInit); [by apply still_start|]. destruct (_ || _).
  - destruct (activeOp id t) as [[ref op]|]; [|done]. destruct (opStopped op); [done|]. apply still_delivering.
  - destruct (operations t !! id); [apply still_StopOperation|done].
Qed.
(** ** Calls that change neither side *)
Definition actOk (a : TermAction) : Prop :=
  match a with
  | TStart ty d => Z.of_nat (length ty) < 2 ^ 29 /\ Z.of_nat (length d) < 2 ^ 29
  | TSend _ m => 0 <= MType m < 4 /\ Z.of_nat (length (MData m)) < 2 ^ 31
  | _ => True
  end.
Definition isSending (a : TermAction) : bool :=
  match a with TSenderStarts | TTake _ | TTakeStop _ | TTimer | TFlush _ | TAbandonFlush | TReady _ _ | TSenderDone => true | _ => false end.
Definition isReceiving (a : TermAction) : bool := match a with TReceive _ | THandle | THandlerDone => true | _ => false end.

Lemma flowOk_next n : flowOk n -> flowOk (u32 (n + 8)).
Proof.
  intros [Hr Hm]. unfold u32. split; [apply Z.mod_pos_bound; lia|].
  rewrite <- (Znumtheory.Zmod_div_mod 4 (2 ^ 32)) by (done || by exists (2 ^ 30)). by rewrite Zplus_mod, Hm.
Qed.
Lemma still_part t t' : senderView t' = senderView t -> recvView t' = recvView t -> (orderly t -> orderly t') -> ctxDone t' = ctxDone t -> still t t'.
Proof. intros H1 H2 H3 H4. split; [done|]. split; [done|]. split; [done|]. by rewrite H4. Qed.
Lemma still_setStage i ref st t : (orderly t -> forall s, st = Some s -> workerOk (ref, s)) -> still t (setStage i ref st t).
Proof.
  intros Hs. apply still_part; try done. intros Ho. specialize (Hs Ho). destruct Ho as [H1 H2 H3 H4]. split; try done. simpl.
  destruct st as [s|]; [apply Forall_insert; auto|by apply Forall_delete].
Qed.
Lemma stop_msg_ok id e : flowOk id -> wellSized (mkTMsg id MsgTypeStop (PackErr (Some e)) false).
Proof.
  intros Hid. split; [split; [done|simpl; unfold MsgTypeStop; lia]|]. simpl. unfold u8.
  pose proof (pack8_length (errID e mod 2 ^ 8) ltac:(apply Z.mod_pos_bound; lia)). lia.
Qed.
Lemma afterStop_ok ref err id : flowOk id -> workerOk (ref, afterStop err id).
Proof. intros Hid. unfold afterStop, workerOk. simpl. destruct (IsExternal err); [done|]. by apply stop_msg_ok. Qed.
Lemma still_stopStep ref op st t st' t' : stopStep ref op st t = Some (st', t') ->
  still t t' /\ ops t' = ops t /\ forall s, st' = Some s -> flowOk (opID op) -> workerOk (ref, s).
Proof.
  destruct st as [err|m|]; simpl; try done.
  - destruct (opUnknown op); intros [= <- <-]; (split; [|split; [done|intros s [= <-] Hid; by apply afterStop_ok]]); [done|by apply still_emit].
  - intros [= <- <-]. by split; [apply still_operations|].
Qed.
Lemma still_submit m r t : MType m = MsgTypeStop -> still t (submit m r t).
Proof.
  intros Hm. unfold submit. destruct r as [e|].
  - etrans; [|apply still_Abandon]. apply still_emit; unfold lost; simpl; by rewrite ?Hm.
  - apply still_emit; unfold frames; simpl; by rewrite ?Hm.
Qed.
Lemma still_abandon st t : still t (t <| abandon := st |>).
Proof. apply still_part; try done. by intros [????]. Qed.
Lemma still_abandonStep late r t t' : abandonStep late r t = Some t' -> still t t'.
Proof.
  unfold abandonStep. destruct (abandon t) as [|err|err|err|err|err|]; try done.
  - intros [= <-]. etrans; [|apply still_abandon]. generalize (snd <$> map_to_list (operations t)). intros l. revert t.
    induction l as [|x l IH]; intros t; [done|]. simpl. etrans; [apply still_StopOperation|apply IH].
  - destruct (_ || _); [|done]. destruct (if ext t then _ else _) as [err1 t1] eqn:E.
    assert (still t t1) as H1 by (destruct (ext t); injection E as <- <-; [by apply still_emit|done]).
    destruct (IsExternal err1); intros [= <-]; (etrans; [exact H1|]); [apply still_abandon|].
    etrans; [apply (still_abandon (AbFlush (Some (default ErrStopping err1))))|]. by apply still_submit.
  - intros [= <-]. set (t1 := t <| ctxDone := true |> <| abandon := AbDone |>).
    assert (still t t1) as H1 by (split; [done|]; split; [done|]; split; [by intros [????]|done]).
    assert (forall b : bool, still t (if b then emit (EDestroyed err) t1 else t1)) as Hb by (intros []; [etrans; [exact H1|by apply still_emit]|exact H1]).
    exact (Hb (ext t)).
Qed.
Lemma still_calls a t t' : termStep a t = Some t' -> isSending a = false -> isReceiving a = false -> actOk a -> still t t'.
Proof.
  intros Hs H1 H2 Hok. destruct a; try done; simpl in Hs.
  - injection Hs as <-. apply still_part; try done. intros [O1 O2 O3 O4]. pose proof (flowOk_next _ O4) as Hn.
    split; simpl; try done; [|by apply Forall_snoc]. apply Forall_snoc; [done|]. destruct Hok as [Hty Hd].
    split; [split; [done|simpl; unfold MsgTypeInit; lia]|]. simpl. unfold PrependLength. rewrite !length_app.
    pose proof (pack64_length (Z.of_nat (length opType)) ltac:(lia)). lia.
  - destruct (ops t !! ref) as [op|] eqn:E; simplify_eq/=. apply still_part; try done. intros [O1 O2 O3 O4]. split; try done. apply Forall_snoc; [done|].
    pose proof (Forall_lookup_1 _ _ _ _ O3 E) as Hid. simpl in Hid. destruct Hok as [Ht Hl]. unfold opMsg. simpl.
    destruct (_ && _); (split; [split; [done|]|]); simpl; unfold MsgTypePriorityData; try lia; done.
  - simplify_eq. apply still_StopOperation.
  - simplify_eq. apply still_Abandon.
  - simplify_eq. apply still_part; try done. by intros [????].
  - simplify_eq. apply still_part; try done. by intros [????].
  - destruct (clients t !! i); simplify_eq/=. apply still_part; try done. intros [????]. split; try done. by apply Forall_delete.
  - destruct (stopWorkers t !! i) as [[ref [| |]]|]; simplify_eq/=. apply still_setStage. by intros _ s [= <-].
  - simplify_eq. etrans; [|by apply (still_emit EParentDone)]. split_and!; try done. by intros [????].
  - simplify_eq. unfold idleTick. assert (forall n, still t (t <| idleCounter := n |>)) as Hn by (intros n; apply still_part; try done; by intros [????]).
    destruct (_ <? _); [|apply Hn]. etrans; [apply Hn|apply still_Abandon].
  - destruct (stopWorkers t !! i) as [[ref st]|] eqn:E; [|done]. simpl in Hs. destruct (ops t !! ref) as [op|] eqn:Eo; [|done]. simpl in Hs.
    destruct (stopStep ref op st t) as [[st' t1]|] eqn:Es; simplify_eq/=.
    apply still_stopStep in Es as (Hc & Hops & Hw). etrans; [exact Hc|]. apply still_setStage. intros Ho s Hst. apply Hw; [done|].
    rewrite <- Hops in Eo. exact (Forall_lookup_1 _ _ _ _ (or_ops _ Ho) Eo).
  - by eapply still_abandonStep.
  - unfold abandonFlushStep in Hs. destruct (abandon t); try done; [destruct timeout|destruct (_ || _)]; simplify_eq; apply still_abandon.
Qed.
(** ** Sending and the receiving side, receiving and the sending side *)
Definition sendsOnly (t t' : Term) : Prop := recvView t' = recvView t /\ (orderly t -> orderly t') /\ (ctxDone t = true -> ctxDone t' = true).
#[export] Instance sendsOnly_preorder : PreOrder sendsOnly.
Proof. split; [by intros t|]. intros t1 t2 t3 (H1 & H2 & H3) (G1 & G2 & G3). split; [congruence|]. auto. Qed.
Lemma sendsOnly_calm t t' : still t t' -> sendsOnly t t'.
Proof. by intros (_ & ? & ?). Qed.
Lemma sendsOnly_emit e t : received [e] = [] -> opMsgs [e] = [] -> sendsOnly t (emit e t).
Proof.
  intros H1 H2. split; [|by split; [intros [????]|]]. unfold recvView, emit, received, opMsgs in *. simpl. by rewrite !omap_app, H1, H2, !app_nil_r.
Qed.
Lemma sendsOnly_sender f t : sendsOnly t (t <| sender ::= f |>).
Proof. split; [done|]. by split; [intros [????]|]. Qed.
Lemma sendsOnly_part t t' : recvView t' = recvView t -> (orderly t -> orderly t') -> ctxDone t' = ctxDone t -> sendsOnly t t'.
Proof. intros H1 H2 H3. split; [done|]. split; [done|]. by rewrite H3. Qed.
Lemma sendsOnly_take m t : sendsOnly t (takeMsg m t).
Proof.
  unfold takeMsg. destruct (match msgBufferMsg (sender t) with Some b => _ | None => _ end) as [buf m'].
  etrans; [|by apply sendsOnly_emit]. split; [done|]. by split; [intros [????]|].
Qed.
Lemma sendsOnly_encrypt d t x t' : encrypt d t = inl (x, t') -> sendsOnly t t'.
Proof.
  unfold encrypt. destruct (negb _); [by intros [= <- <-]|]. destruct (jession t) as [s|] eqn:Ej; [|done].
  destruct (seal s d) as [[w s']|[]] eqn:E; [|done..]. intros [= <- <-]. apply seal_recv in E. split; [|by split; [intros [????]|]].
  unfold recvView. simpl. rewrite Ej. simpl. by rewrite E.
Qed.
Lemma sendsOnly_submit m r t : sendsOnly t (submit m r t).
Proof. unfold submit. destruct r; [etrans; [|apply sendsOnly_calm, still_Abandon]|]; by apply sendsOnly_emit. Qed.
Lemma sendsOnly_sendOpMsgs m rnd r t : sendsOnly t (sendOpMsgs m rnd r t).1.
Proof.
  unfold sendOpMsgs. destruct (encrypt _ t) as [[d t1]|e] eqn:E; simpl; [|by apply sendsOnly_emit].
  etrans; [by eapply sendsOnly_encrypt|apply sendsOnly_submit].
Qed.
Lemma sendsOnly_sendBuffer rnd r t : sendsOnly t (sendBuffer rnd r t).
Proof.
  unfold sendBuffer. set (x := match msgBufferMsg (sender t) with Some m => _ | None => _ end).
  assert (sendsOnly t x.1) as H.
  { unfold x. destruct (msgBufferMsg _) as [m|]; [|done]. destruct (0 <? _); [apply sendsOnly_sendOpMsgs|done]. }
  destruct x as [t1 err]. simpl in H. etrans; [exact H|]. set (t2 := t1 <| sender := _ |>).
  assert (sendsOnly t1 t2) as H2 by apply (sendsOnly_sender (fun _ => mkSender SLoop None 0 false false TimerNone [])).
  set (t3 := match flushFinished (sender t) with [] => t2 | _ => _ end).
  assert (sendsOnly t1 t3) as H3.
  { unfold t3. destruct (flushFinished _); [exact H2|]. etrans; [exact H2|by apply sendsOnly_emit]. }
  destruct err; [|exact H3]. etrans; [exact H3|apply sendsOnly_calm, still_Abandon].
Qed.
Lemma sendsOnly_flush f t : sendsOnly t (requestFlush f t).
Proof.
  unfold requestFlush. set (t1 := t <| waitForFlush := false |>). assert (sendsOnly t t1) as H by (split; [done|]; by split; [intros [????]|]).
  etrans; [exact H|]. destruct (_ =? 0); [|apply sendsOnly_sender]. etrans; [|by apply sendsOnly_emit]. apply sendsOnly_sender.
Qed.
Lemma term_sending a t t' : termStep a t = Some t' -> isSending a = true -> sendsOnly t t'.
Proof.
  intros Hs Ha. destruct a; try done; unfold termStep in Hs.
  - destruct (spc _); try done. destruct (_ || _); simplify_eq. apply sendsOnly_part; try done. by intros [????].
  - destruct (clients t !! i) as [m|]; [|done]. simpl in Hs. destruct (accepts t); simplify_eq.
    etrans; [|apply sendsOnly_take]. split; [done|]. split; [intros [????]; split; try done; by apply Forall_delete|done].
  - destruct (stopWorkers t !! i) as [[ref [|m|]]|]; try done. destruct (accepts t); simplify_eq.
    etrans; [|apply sendsOnly_take]. apply sendsOnly_calm, still_setStage. by intros _ s [= <-].
  - destruct (sendMaxWait _); try done. destruct (looping t); simplify_eq. apply sendsOnly_part; try done. by intros [????].
  - destruct (_ && _); simplify_eq. apply sendsOnly_flush.
  - destruct (abandon t); try done. destruct (looping t); simplify_eq. etrans; [apply sendsOnly_calm, (still_abandon (AbFlushing err))|apply sendsOnly_flush].
  - destruct (_ && _); simplify_eq. apply sendsOnly_sendBuffer.
  - destruct (ctxDone t); [|done]. destruct (spc _); simplify_eq;
      (etrans; [apply (sendsOnly_sender (fun s => s <| spc := SDone |>))|apply sendsOnly_calm, still_Abandon]).
Qed.

(** A terminal with a session keeps it. *)
Definition secured (t : Term) : Prop := Encrypt (topts t) = true -> is_Some (jession t).
Definition receivesOnly (t t' : Term) : Prop := senderView t' = senderView t /\ (orderly t -> orderly t') /\ (ctxDone t = true -> ctxDone t' = true).
#[export] Instance receivesOnly_preorder : PreOrder receivesOnly.
Proof. split; [by intros t|]. intros t1 t2 t3 (H1 & H2 & H3) (G1 & G2 & G3). split; [congruence|]. auto. Qed.
Lemma receivesOnly_calm t t' : still t t' -> receivesOnly t t'.
Proof. by intros (? & _ & ?). Qed.
Lemma receivesOnly_part t t' : senderView t' = senderView t -> (orderly t -> orderly t') -> ctxDone t' = ctxDone t -> receivesOnly t t'.
Proof. intros H1 H2 H3. split; [done|]. split; [done|]. by rewrite H3. Qed.
Lemma receivesOnly_fails err t : receivesOnly t (handlerFails err t).
Proof. unfold handlerFails. etrans; [|apply receivesOnly_calm, still_Abandon]. apply receivesOnly_part; try done. by intros [????]. Qed.
Lemma receivesOnly_emit e t : taken [e] = [] -> frames [e] = [] -> lost [e] = [] -> receivesOnly t (emit e t).
Proof.
  intros H1 H2 H3. apply receivesOnly_part; [|by intros [????]|done]. unfold senderView, emit, taken, frames, lost in *. simpl.
  by rewrite !omap_app, H1, H2, H3, !app_nil_r.
Qed.
Lemma decrypt_receives d t t' r : decrypt d t = (t', r) -> secured t -> receivesOnly t t'.
Proof.
  unfold decrypt, secured. destruct (Encrypt (topts t)) eqn:Ee; simpl; [|by intros [= <- <-]].
  intros H Hj. destruct (Hj eq_refl) as [s Es]. rewrite Es in H. destruct (LetterFromWire d) as [l|] eqn:El; [|by injection H as <- <-].
  destruct (Open s l) as [[x s']|] eqn:Eo; [|by injection H as <- <-]. injection H as <- <-.
  assert (unseal s d = inl (x, s')) as Eu by (unfold unseal; by rewrite El, Eo). apply unseal_send in Eu.
  apply receivesOnly_part; [|by intros [????]|done]. unfold senderView. simpl. rewrite Es. simpl. by rewrite Eu.
Qed.
Lemma term_receiving a t t' : termStep a t = Some t' -> isReceiving a = true -> secured t -> receivesOnly t t'.
Proof.
  intros Hs Ha Hsec. destruct a; try done; simpl in Hs.
  - destruct (handlerDone t); [done|]. destruct (handling t); [done|]. injection Hs as <-. unfold receive.
    etrans; [by apply (receivesOnly_emit (EReceived m))|]. set (t1 := emit _ t). assert (secured t1) as Hsec1 by exact Hsec.
    destruct (MData m); [apply receivesOnly_part; try done; by intros [????]|].
    destruct (decrypt _ t1) as [t2 [d|e]] eqn:Ed; apply decrypt_receives in Ed; try done.
    + etrans; [exact Ed|]. apply receivesOnly_part; try done. by intros [????].
    + etrans; [exact Ed|apply receivesOnly_fails].
  - destruct (delivering t) as [dl|]; [injection Hs as <-; apply receivesOnly_calm, still_deliver|].
    destruct (handling t) as [d|]; [|done]. injection Hs as <-. unfold handleNext.
    assert (receivesOnly t (t <| handling := None |> <| idleCounter := 0 |>)) as Hend by (apply receivesOnly_part; try done; by intros [????]).
    destruct d as [|b d]; [exact Hend|]. destruct (GetNextN32 _) as [[n r]|]; [|apply receivesOnly_fails].
    destruct (_ =? 0); [exact Hend|]. destruct (GetAsContainer _ _) as [[x rest]|]; [|apply receivesOnly_fails].
    destruct (ParseIDType x) as [[[id ty] y]|] eqn:Ep; [|apply receivesOnly_fails]. apply ParseIDType_flow in Ep.
    etrans; [|by apply receivesOnly_calm, still_dispatch]. etrans; [|by apply receivesOnly_emit].
    apply receivesOnly_part; try done. by intros [????].
  - destruct (handling t); [done|]. destruct (_ && _); simplify_eq. apply receivesOnly_fails.
Qed.
(** ** The sender *)
Definition sendO (o : option Session) : option Snd := sendOf <$> o.
Definition encO (e : bool) (o : option Session) (d : bytes) : option (bytes * option Session) :=
  if negb e then Some (d, o)
  else match o with
       | None => None
       | Some s => match seal s d with inl (w, s) => Some (w, Some s) | inr _ => None end
       end.
Definition padForm (pad : bytes) : Prop := pad = [] \/ exists j, pad = 0 :: j.

(** Frames sent in order, each of a group of whole messages. *)
Inductive fchain (e : bool) : option Snd -> list (list TMsg) -> list bytes -> option Snd -> Prop :=
| fchain_nil y : fchain e y [] [] y
| fchain_cons s g pad d s' gs fs z : g <> [] -> padForm pad -> encO e s (stream g ++ pad) = Some (d, s') ->
    fchain e (sendO s') gs fs z -> fchain e (sendO s) (g :: gs) (d :: fs) z.
Lemma fchain_snoc e y gs fs s g pad d s' : fchain e y gs fs (sendO s) -> g <> [] -> padForm pad ->
  encO e s (stream g ++ pad) = Some (d, s') -> fchain e y (gs ++ [g]) (fs ++ [d]) (sendO s').
Proof.
  intros Hc Hg Hp He. remember (sendO s) as z eqn:Ez. revert Ez. induction Hc as [y|s0 g0 pad0 d0 s0' gs fs z Hg0 Hp0 He0 Hc IH]; intros Ez; simpl.
  - subst y. eapply fchain_cons; [done|exact Hp|exact He|constructor].
  - eapply fchain_cons; [done|exact Hp0|exact He0|by apply IH].
Qed.

Definition bufOk (s : Sender) (buf : list TMsg) : Prop :=
  match msgBufferMsg s with
  | None => buf = [] /\ msgBufferLen s = 0
  | Some b => buf <> [] /\ MData b = stream buf /\ 0 < msgBufferLen s /\ MType b = MsgTypeData
  end.
(** What has been taken is in the frames and in the buffer, unless something was lost. *)
Record feeds (y0 : option Snd) (t : Term) : Prop := {
  fe_fits : Forall wellSized (taken (events t));
  fe_frames : lost (events t) = [] -> exists groups buf, taken (events t) = concat groups ++ buf /\
    fchain (Encrypt (topts t)) y0 groups (frames (events t)) (sendO (jession t)) /\ bufOk (sender t) buf;
}.
Lemma feeds_frame y0 t t' : feeds y0 t -> senderView t' = senderView t -> feeds y0 t'.
Proof.
  intros [H1 H2] Hv. unfold senderView in Hv. injection Hv as V1 V2 V3 V4 V5 V6 V7. split; rewrite ?V5, ?V7; [done|].
  intros Hl. destruct (H2 Hl) as (gs & buf & E1 & E2 & E3). exists gs, buf. unfold sendO in *. rewrite V2, V3, V4, V6. done.
Qed.
(** The sender changes without its buffer. *)
Lemma feeds_sender y0 t f : feeds y0 t -> (forall s, msgBufferMsg (f s) = msgBufferMsg s /\ msgBufferLen (f s) = msgBufferLen s) ->
  feeds y0 (t <| sender ::= f |>).
Proof.
  intros [H1 H2] Hf. split; [done|]. intros Hl. destruct (H2 Hl) as (gs & buf & E1 & E2 & E3). exists gs, buf. split; [done|]. split; [done|].
  unfold bufOk in *. simpl. by destruct (Hf (sender t)) as [-> ->].
Qed.
Lemma feeds_emit y0 t e : feeds y0 t -> taken [e] = [] -> frames [e] = [] -> lost [e] = [] -> feeds y0 (emit e t).
Proof. intros Hf H1 H2 H3. eapply feeds_frame; [exact Hf|]. by apply receivesOnly_emit. Qed.

Lemma feeds_take y0 t m : feeds y0 t -> wellSized m -> feeds y0 (takeMsg m t).
Proof.
  intros [H1 H2] Hm. unfold takeMsg.
  destruct (match msgBufferMsg (sender t) with Some b => _ | None => _ end) as [buf m'] eqn:Eb.
  set (s1 := if sendThresholdLength <=? _ then _ else _). set (s2 := if sendMaxLength <=? _ then _ else _).
  assert (msgBufferMsg s2 = Some buf /\ msgBufferLen s2 = msgBufferLen (sender t) + Z.of_nat (length (MData m'))) as [Es1 Es2].
  { assert (msgBufferMsg s1 = Some buf /\ msgBufferLen s1 = msgBufferLen (sender t) + Z.of_nat (length (MData m'))) as [E1 E2].
    { unfold s1. destruct (_ <=? _); [done|]. simpl. destruct (sendMaxWait _); try done. by destruct (waitForFlush t). }
    unfold s2. by destruct (sendMaxLength <=? _). }
  clearbody s2. clear s1. set (t1 := emit _ _).
  assert (taken (events t1) = taken (events t) ++ [m]) as Et by (unfold t1, emit, taken; simpl; by rewrite omap_app).
  assert (frames (events t1) = frames (events t) /\ lost (events t1) = lost (events t)) as [Ef Elo].
  { unfold t1, emit, frames, lost. simpl. by rewrite !omap_app, !app_nil_r. }
  split; rewrite ?Et, ?Elo; [by apply Forall_snoc|]. intros Hl. destruct (H2 Hl) as (gs & b & E1 & E2 & E3).
  exists gs, (b ++ [m]). rewrite Ef. split; [by rewrite E1, app_assoc|]. split; [done|].
  unfold bufOk in *. change (sender t1) with s2. rewrite Es1, Es2. pose proof (packed_length m Hm) as Hp.
  assert (stream [m] = packed m) as Esm by (unfold stream; simpl; by rewrite app_nil_r).
  assert (b ++ [m] <> []) as Hne by (by destruct b). split; [exact Hne|]. rewrite stream_app, Esm.
  destruct (msgBufferMsg (sender t)) as [b0|].
  - destruct E3 as (? & Ed & ? & ?). injection Eb as <- <-. simpl. change (MakeMsg (MData m) (FlowID m) (MType m)) with (packed m). rewrite Ed. split_and!; try done. lia.
  - destruct E3 as [-> E3]. injection Eb as <- <-. simpl. change (MakeMsg (MData m) (FlowID m) (MType m)) with (packed m). split_and!; try done. lia.
Qed.

Lemma padData_spec t rnd d : exists pad, padData t rnd d = d ++ pad /\ padForm pad.
Proof.
  unfold padData. destruct (_ <=? 0); [exists []; rewrite app_nil_r; split; [done|by left]|].
  destruct (paddingNeeded t d <=? 0); [exists []; rewrite app_nil_r; split; [done|by left]|].
  eexists. split; [reflexivity|]. right. by eexists.
Qed.
Lemma encrypt_spec d t : match encrypt d t with
  | inl (x, t') => encO (Encrypt (topts t)) (jession t) d = Some (x, jession t') /\ t' = t <| jession := jession t' |>
  | inr _ => True
  end.
Proof.
  unfold encrypt, encO. destruct (Encrypt (topts t)); simpl; [|split; [done|by destruct t]].
  destruct (jession t) as [s|]; [|done]. destruct (seal s d) as [[w s']|[]]; try done.
Qed.
(** Everything taken is in frames. *)
Definition drained (y0 : option Snd) (t : Term) : Prop :=
  Forall wellSized (taken (events t)) /\ (lost (events t) = [] -> exists groups, taken (events t) = concat groups /\
    fchain (Encrypt (topts t)) y0 groups (frames (events t)) (sendO (jession t))).
Lemma drained_frame y0 t t' : drained y0 t -> senderView t' = senderView t -> drained y0 t'.
Proof.
  intros [H1 H2] Hv. unfold senderView in Hv. injection Hv as V1 V2 V3 V4 V5 V6 V7. split; rewrite ?V5, ?V7; [done|].
  intros Hl. destruct (H2 Hl) as (gs & E1 & E2). exists gs. unfold sendO in *. rewrite V2, V3, V6. done.
Qed.
Lemma drained_lost y0 t e m : Forall wellSized (taken (events t)) -> e = ELost m -> (MType m =? MsgTypeStop) = false -> drained y0 (emit e t).
Proof.
  intros H1 -> Hm. unfold drained. assert (taken (events (emit (ELost m) t)) = taken (events t)) as -> by (unfold emit, taken; simpl; by rewrite omap_app, app_nil_r).
  split; [done|]. unfold emit, lost. simpl. rewrite omap_app. simpl. rewrite Hm. intros E. by apply app_eq_nil in E as [_ ?].
Qed.
Lemma drained_sendOpMsgs y0 t rnd r b m : feeds y0 t -> msgBufferMsg (sender t) = Some b -> MData m = MData b ->
  (MType b = MsgTypeData -> (MType m =? MsgTypeStop) = false) -> drained y0 (sendOpMsgs m rnd r t).1.
Proof.
  intros [H1 H2] Eb Hd Hm. assert ((lost (events t) <> [] \/ (MType m =? MsgTypeStop) = false)) as Hty.
  { destruct (lost (events t)); [|by left]. right. destruct (H2 eq_refl) as (gs & buf & _ & _ & E3). unfold bufOk in E3. rewrite Eb in E3. apply Hm, E3. }
  assert (forall t' e, events t' = events t -> e = ELost (m <| FlowID := tid t |>) \/ e = ELost m \/ (exists d, e = ELost (m <| MData := d |> <| FlowID := tid t |>)) ->
    drained y0 (emit e t')) as Hlost.
  { intros t' e Et He. assert (exists x, e = ELost x /\ MType x = MType m) as (x & -> & Hx).
    { destruct He as [->|[->|[d ->]]]; eexists; (split; [reflexivity|done]). }
    destruct Hty as [Hl|Hty]; [|eapply drained_lost; rewrite ?Et, ?Hx; try done; by rewrite Hx].
    unfold drained. assert (taken (events (emit (ELost x) t')) = taken (events t)) as -> by (unfold emit, taken; simpl; by rewrite omap_app, Et, app_nil_r).
    split; [done|]. unfold emit, lost in *. simpl. rewrite omap_app, Et. intros E. by apply app_eq_nil in E as [? _]. }
  unfold sendOpMsgs. pose proof (encrypt_spec (padData t rnd (MData m)) t) as He. destruct (encrypt _ t) as [[d t1]|e]; cbn [fst]; [|auto].
  destruct He as [He Ht1]. destruct (padData_spec t rnd (MData m)) as (pad & Ep & Hpad). rewrite Ep, Hd in He. unfold submit.
  assert (events t1 = events t /\ topts t1 = topts t /\ tid t1 = tid t) as (Ev & Eo & Ei) by (by rewrite Ht1). destruct r as [e|].
  - eapply drained_frame; [|apply still_Abandon]. apply Hlost; [done|]. rewrite Ei. right. right. by exists d.
  - assert (frames (events (emit (ESubmitted (m <| MData := d |> <| FlowID := tid t1 |>)) t1)) = frames (events t) ++ (if MType m =? MsgTypeStop then [] else [d])) as Ef.
    { unfold emit, frames. simpl. rewrite omap_app, Ev. simpl. by destruct (_ =? _). }
    unfold drained. rewrite Ef. change (topts (emit _ t1)) with (topts t1). change (jession (emit _ t1)) with (jession t1). rewrite Eo.
    set (ev := events _). assert (taken ev = taken (events t) /\ lost ev = lost (events t)) as [-> ->].
    { unfold ev, emit, taken, lost. simpl. by rewrite !omap_app, Ev, !app_nil_r. }
    split; [done|]. intros Hl. destruct (H2 Hl) as (gs & buf & E1 & E2 & E3). unfold bufOk in E3. rewrite Eb in E3. destruct E3 as (Hn & E4 & E5 & E6).
    rewrite (Hm E6). exists (gs ++ [buf]). rewrite E1, concat_app. simpl. rewrite app_nil_r. split; [done|].
    eapply fchain_snoc; [exact E2|done|exact Hpad|]. by rewrite <- E4.
Qed.
Lemma feeds_reset y0 t s : drained y0 t -> msgBufferMsg s = None -> msgBufferLen s = 0 -> feeds y0 (t <| sender := s |>).
Proof. intros [H1 H2] Hs1 Hs2. split; [done|]. intros Hl. destruct (H2 Hl) as (gs & E1 & E2). exists gs, []. rewrite app_nil_r. unfold bufOk. simpl. by rewrite Hs1. Qed.
Lemma feeds_sendBuffer y0 t rnd r : feeds y0 t -> feeds y0 (sendBuffer rnd r t).
Proof.
  intros Hf. unfold sendBuffer. set (x := match msgBufferMsg (sender t) with Some m => _ | None => _ end).
  assert (drained y0 x.1) as H.
  { unfold x. destruct (msgBufferMsg (sender t)) as [b|] eqn:Eb.
    - destruct (0 <? msgBufferLen (sender t)) eqn:El; bool_prop.
      + eapply drained_sendOpMsgs; [done|exact Eb|by destruct (_ && _)|]. intros Hb. destruct (_ && _); [done|]. by rewrite Hb.
      + destruct Hf as [H1 H2]. split; [done|]. intros Hl. destruct (H2 Hl) as (gs & buf & E1 & E2 & E3). unfold bufOk in E3. rewrite Eb in E3. lia.
    - destruct Hf as [H1 H2]. split; [done|]. intros Hl. destruct (H2 Hl) as (gs & buf & E1 & E2 & E3). unfold bufOk in E3. rewrite Eb in E3.
      exists gs. destruct E3 as [-> _]. by rewrite app_nil_r in E1. }
  destruct x as [t1 err]. simpl in H. apply (feeds_reset _ _ (mkSender SLoop None 0 false false TimerNone [])) in H; [|done..].
  set (t2 := t1 <| sender := _ |>) in *. set (t3 := match flushFinished (sender t) with [] => t2 | _ => _ end).
  assert (feeds y0 t3) as H3 by (unfold t3; destruct (flushFinished _); [exact H|by apply feeds_emit]).
  destruct err; [|exact H3]. eapply feeds_frame; [exact H3|]. apply still_Abandon.
Qed.
Lemma feeds_requestFlush y0 f t : feeds y0 t -> feeds y0 (requestFlush f t).
Proof.
  intros Hf. unfold requestFlush. set (t1 := t <| waitForFlush := false |>). assert (feeds y0 t1) as H1 by (by eapply feeds_frame).
  destruct (_ =? 0); [|by apply feeds_sender]. apply feeds_emit; try done. by apply feeds_sender.
Qed.
Lemma feeds_step y0 a t t' : termStep a t = Some t' -> actOk a -> orderly t -> secured t -> feeds y0 t -> feeds y0 t'.
Proof.
  intros Hs Hok Ho Hsec Hf. destruct (isSending a) eqn:E1; [|destruct (isReceiving a) eqn:E2].
  - destruct a; try done; unfold termStep in Hs.
    + destruct (spc _); try done. destruct (_ || _); [|done]. apply (inj Some) in Hs as <-. by apply feeds_sender.
    + destruct (clients t !! i) as [m|] eqn:Em; [|done]. simpl in Hs. destruct (accepts t); [|done]. apply (inj Some) in Hs as <-.
      apply feeds_take; [by eapply feeds_frame|]. exact (Forall_lookup_1 _ _ _ _ (or_clients _ Ho) Em).
    + destruct (stopWorkers t !! i) as [[ref [|m|]]|] eqn:Em; try done. destruct (accepts t); [|done]. apply (inj Some) in Hs as <-.
      apply feeds_take; [by eapply feeds_frame|]. exact (Forall_lookup_1 _ _ _ _ (or_workers _ Ho) Em).
    + destruct (sendMaxWait _); try done. destruct (looping t); [|done]. apply (inj Some) in Hs as <-. apply feeds_sender; [done|]. intros s. by destruct (waitForFlush t).
    + destruct (_ && _); [|done]. apply (inj Some) in Hs as <-. by apply feeds_requestFlush.
    + destruct (abandon t) as [| | |err| | |]; try done. destruct (looping t); [|done]. apply (inj Some) in Hs as <-.
      apply feeds_requestFlush. eapply feeds_frame; [exact Hf|]. apply (still_abandon (AbFlushing err)).
    + destruct (_ && _); [|done]. apply (inj Some) in Hs as <-. by apply feeds_sendBuffer.
    + destruct (ctxDone t); [|done].
      assert (feeds y0 (Abandon None (t <| sender ::= fun s => s <| spc := SDone |> |>))) as Hd.
      { eapply feeds_frame; [|apply still_Abandon]. by apply feeds_sender. }
      destruct (spc _); simplify_eq; exact Hd.
  - eapply feeds_frame; [exact Hf|]. by eapply term_receiving.
  - eapply feeds_frame; [exact Hf|]. by eapply still_calls.
Qed.
End facts.
