(* ===== verification/TerminalSystem.v ===== *)
(** * Pairs of terminals

    What the handler makes of the data another terminal has submitted, and two terminals
    joined by flow control that hands over what was submitted, in order ([FlowQueue]). *)

From S2P Require Import Prelude Varint FlowQueue SpnWire Terminal TerminalFacts.

Section system.
Context {V : Varint} {VS : VarintSize} {WL : WireLaws V VS} {J : Jess} {TE : TermEnv}.
Context {Snd Rcv : Type} (sendOf : Session -> Snd) (recvOf : Session -> Rcv) (linked : Snd -> Rcv -> Prop).
Context {JL : JessLaws J sendOf recvOf linked}.
Notation fchain := (fchain sendOf).
Notation sendO := (sendO sendOf).

(** ** Frames and the session that opens them *)
Lemma fchain_cut e y gs f1 f2 z : fchain e y gs (f1 ++ f2) z ->
  exists g1 g2 x, gs = g1 ++ g2 /\ fchain e y g1 f1 x /\ fchain e x g2 f2 z.
Proof.
  revert y gs. induction f1 as [|d f1 IH]; intros y gs H; simpl in H.
  - exists [], gs, y. split_and!; [done|constructor|done].
  - inversion H as [|s g pad d0 s' gs' fs z0 Hg Hp He Hc]; subst. destruct (IH _ _ Hc) as (g1 & g2 & x & -> & H1 & H2).
    exists (g :: g1), g2, x. split; [done|]. split; [|done]. by eapply fchain_cons.
Qed.
Lemma fchain_last e y gs fs d z : fchain e y gs (fs ++ [d]) z ->
  exists gs' g s s' pad, gs = gs' ++ [g] /\ fchain e y gs' fs (sendO s) /\ padForm pad /\ g <> [] /\
    encO e s (stream g ++ pad) = Some (d, s') /\ z = sendO s'.
Proof.
  intros (g1 & g2 & x & -> & H1 & H2)%fchain_cut. inversion H2 as [|s g pad d0 s' gs' fs0 z0 Hg Hp He Hc]; subst.
  inversion Hc; subst. exists g1, g, s, s', pad. by split_and!.
Qed.

(** What an identity makes of the first letter of a session. *)
Definition introduces (y : Snd) (i : Identity) : Prop := forall s d w s', sendOf s = y -> seal s d = inl (w, s') ->
  exists l r, LetterFromWire w = Some l /\ WireCorrespondence l i = Some r /\ linked y (recvOf r).
Definition opens (e : bool) (z : option Snd) (b : Term) : Prop := e = true -> exists y, z = Some y /\
  match jession b with Some r => linked y (recvOf r) | None => exists i, identity b = Some i /\ introduces y i end.

Lemma decrypt_opens e s d w s' b : Encrypt (topts b) = e -> encO e s d = Some (w, s') -> opens e (sendO s) b ->
  exists b', decrypt w b = (b', inl d) /\ opens e (sendO s') b' /\ topts b' = topts b /\ handlerDone b' = handlerDone b /\
    handling b' = handling b /\ events b' = events b /\ ctxDone b' = ctxDone b.
Proof.
  intros He Hs Ho. unfold decrypt, encO in *. rewrite He. destruct e; simpl in *; [|injection Hs as <- <-; by exists b].
  destruct s as [s|]; [|done]. destruct (seal s d) as [[w' s1]|[]] eqn:Es; simplify_eq/=.
  destruct (Ho eq_refl) as (y & [= <-] & Hj).
  assert (exists l r, LetterFromWire w = Some l /\ linked (sendOf s) (recvOf r) /\
    (jession b = Some r \/ jession b = None /\ exists i, identity b = Some i /\ WireCorrespondence l i = Some r)) as (l & r & El & Hl & Hr).
  { destruct (jession b) as [r|] eqn:Ej.
    - destruct (sealed s r d w s1 Hj Es) as (r' & Hu & _). unfold unseal in Hu. destruct (LetterFromWire w) as [l|]; [|done].
      exists l, r. by split_and!; [| |left].
    - destruct Hj as (i & Ei & Hi). destruct (Hi s d w s1 eq_refl Es) as (l & r & H1 & H2 & H3). exists l, r. split_and!; [done..|].
      right. split; [done|]. by exists i. }
  destruct (sealed s r d w s1 Hl Es) as (r' & Hu & Hl'). unfold unseal in Hu. rewrite El in *.
  destruct (Open r l) as [[x r1]|] eqn:Eo; simplify_eq/=.
  destruct Hr as [->|(-> & i & -> & ->)]; rewrite Eo; (eexists; split; [reflexivity|]); (split; [|done]); intros _; exists (sendOf s1); done.
Qed.

(** ** The handler *)

(** For all that may have been sent to make what has been received: the messages of all
    frames but what is being handled are the messages for operations. *)
Definition handles (e : bool) (y0 : option Snd) (b : Term) : Prop :=
  Encrypt (topts b) = e /\ forall gs z, fchain e y0 gs (received (events b)) z -> Forall wellSized (concat gs) ->
    opens e z b /\ (handlerDone b = true -> ctxDone b = true) /\
    exists m1 m2, concat gs = m1 ++ m2 /\ opMsgs (events b) = seg <$> m1 /\
      match handling b with Some d => exists pad, d = stream m2 ++ pad /\ padForm pad | None => m2 = [] end.

Lemma opens_view e z b b' : recvView recvOf b' = recvView recvOf b -> opens e z b -> opens e z b'.
Proof.
  unfold recvView, opens. intros Hv. injection Hv as V1 V2 V3 V4 V5 V6 V7. rewrite V3. intros Ho He. destruct (Ho He) as (y & -> & H).
  exists y. split; [done|]. destruct (jession b), (jession b'); simplify_eq/=; congruence.
Qed.
Lemma handles_view e y0 b b' : recvView recvOf b' = recvView recvOf b -> (ctxDone b = true -> ctxDone b' = true) -> handles e y0 b -> handles e y0 b'.
Proof.
  intros Hv Hc [He H]. pose proof (opens_view e) as Ho. unfold recvView in Hv. pose proof Hv as Hv'. injection Hv' as V1 V2 V3 V4 V5 V6 V7. split; [congruence|].
  rewrite V4, V5, V6, V7. intros gs z Hf Hw. destruct (H gs z Hf Hw) as (H1 & H2 & H3). split; [by eapply Ho|]. split; [auto|done].
Qed.

Lemma handles_receive e y0 m b : handlerDone b = false -> handling b = None -> handles e y0 b -> handles e y0 (receive m b).
Proof.
  intros Hd Hh [He H]. unfold receive. destruct (MData m) as [|x w] eqn:Em.
  { apply (handles_view e y0 b); [|done|by split]. unfold recvView, emit, received, opMsgs. simpl. rewrite !omap_app. simpl.
    by rewrite Em, !app_nil_r. }
  set (b0 := emit (EReceived m) b). set (d := x :: w) in *.
  assert (received (events b0) = received (events b) ++ [d]) as Er.
  { unfold b0, emit, received. simpl. rewrite omap_app. simpl. by rewrite Em. }
  assert (opMsgs (events b0) = opMsgs (events b)) as Eo by (unfold b0, emit, opMsgs; simpl; by rewrite omap_app, app_nil_r).
  assert (forall b', topts b' = topts b -> (forall gs g s s' pad, fchain e y0 gs (received (events b)) (sendO s) -> Forall wellSized (concat gs) ->
      padForm pad -> encO e s (stream g ++ pad) = Some (d, s') ->
      received (events b') = received (events b) ++ [d] /\ opMsgs (events b') = opMsgs (events b) /\ opens e (sendO s') b' /\ handlerDone b' = false /\
      handling b' = Some (stream g ++ pad)) -> received (events b') = received (events b) ++ [d] -> handles e y0 b') as Hb.
  { intros b' Et Hb Er'. split; [congruence|]. rewrite Er'. intros gs z (gs' & g & s & s' & pad & -> & Hc & Hp & Hg & Hs & ->)%fchain_last Hw.
    rewrite concat_app in Hw. apply Forall_app in Hw as [Hw _]. destruct (Hb gs' g s s' pad Hc Hw Hp Hs) as (_ & -> & H1 & -> & ->).
    destruct (H _ _ Hc Hw) as (_ & _ & m1 & m2 & E1 & E2 & E3). rewrite Hh in E3. subst m2. rewrite app_nil_r in E1.
    split; [done|]. split; [done|]. exists m1, g. rewrite concat_app. simpl. rewrite app_nil_r, E1. split_and!; [done..|]. by exists pad. }
  assert (forall gs s s' p, fchain e y0 gs (received (events b)) (sendO s) -> Forall wellSized (concat gs) -> encO e s p = Some (d, s') ->
    exists b', decrypt d b0 = (b', inl p) /\ opens e (sendO s') b' /\ topts b' = topts b0 /\ handlerDone b' = handlerDone b0 /\
    handling b' = handling b0 /\ events b' = events b0 /\ ctxDone b' = ctxDone b0) as Hdec.
  { intros gs s s' p Hc Hw Hs. apply (decrypt_opens e s p d s' b0); [done..|]. destruct (H _ _ Hc Hw) as [Ho _]. exact Ho. }
  assert (forall b1 r, decrypt d b0 = (b1, r) -> topts b1 = topts b /\ events b1 = events b0) as Hkeep.
  { intros b1 r. unfold decrypt. repeat case_step; intros; simplify_eq; done. }
  destruct (decrypt d b0) as [b1 r] eqn:Edec. destruct (Hkeep b1 r eq_refl) as [K1 K2].
  assert (forall er b1, topts (handlerFails er b1) = topts b1 /\ events (handlerFails er b1) = events b1) as Hfail.
  { intros er b2. unfold handlerFails, Abandon. simpl. by destruct (Abandoning b2). }
  destruct r as [p|er]; apply Hb; try (by rewrite ?(proj1 (Hfail _ _))); try (rewrite ?(proj2 (Hfail _ _)); simpl; by rewrite K2).
  - intros gs g s s' pad Hc Hw Hp Hs. destruct (Hdec _ _ _ _ Hc Hw Hs) as (b' & [= <- ->] & Ho & Ht & Hd' & Hh' & Hev & _). simpl. rewrite Hev.
    split_and!; try done. by rewrite Hd'.
  - intros gs g s s' pad Hc Hw Hp Hs. by destruct (Hdec _ _ _ _ Hc Hw Hs) as (b' & [= <- ?] & _).
Qed.

Lemma handleNext_frame d b : topts (handleNext d b) = topts b /\ received (events (handleNext d b)) = received (events b).
Proof.
  assert (forall b1 b2, still sendOf recvOf b1 b2 -> topts b2 = topts b1 /\ received (events b2) = received (events b1)) as Hst.
  { intros b1 b2 (_ & Hv & _). unfold recvView in Hv. by injection Hv as -> _ _ _ _ -> _. }
  assert (topts (handlerFails (Some ErrMalformedData) b) = topts b /\ received (events (handlerFails (Some ErrMalformedData) b)) = received (events b)) as Hf.
  { unfold handlerFails, Abandon. simpl. by destruct (Abandoning b). }
  unfold handleNext. destruct d as [|x d]; [done|]. destruct (GetNextN32 _) as [[n r]|]; [|exact Hf]. destruct (_ =? 0); [done|].
  destruct (GetAsContainer _ _) as [[y rest]|]; [|exact Hf]. destruct (ParseIDType y) as [[[id ty] w]|] eqn:Ep; [|exact Hf].
  apply ParseIDType_flow in Ep. destruct (Hst _ _ (still_dispatch sendOf recvOf id ty w (emit (EOpMsg id ty w) (b <| handling := Some rest |>)) Ep)) as [-> ->].
  split; [done|]. unfold emit, received. simpl. by rewrite omap_app, app_nil_r.
Qed.
Lemma handleNext_msg m ms pad b : wellSized m -> exists b', handleNext (stream (m :: ms) ++ pad) b = dispatchOp (FlowID m) (MType m) (MData m) b' /\
  flowOk (FlowID m) /\ b' = emit (EOpMsg (FlowID m) (MType m) (MData m)) (b <| handling := Some (stream ms ++ pad) |>).
Proof.
  intros Hm. eexists. split; [|split; [apply Hm|reflexivity]]. pose proof (wellSized_length m Hm) as Hl.
  assert (stream (m :: ms) ++ pad = Pack64 (Z.of_nat (length (body m))) ++ body m ++ stream ms ++ pad) as E.
  { unfold stream. simpl. by rewrite packed_body, <- !app_assoc. }
  unfold handleNext. destruct (stream (m :: ms) ++ pad) as [|x d] eqn:Ed.
  { pose proof (wellSized_nonempty m Hm) as Hn. apply app_eq_nil in Ed as [Ed _]. unfold stream in Ed. simpl in Ed. by apply app_eq_nil in Ed as [? _]. }
  rewrite E, GetNextN32_pack64 by lia. case_step; bool_prop; [lia|]. rewrite Nat2Z.id. unfold GetAsContainer. rewrite length_app.
  destruct (_ <=? _)%nat eqn:El; [|apply Nat.leb_gt in El; lia]. rewrite take_app_length, drop_app_length. unfold body.
  by rewrite ParseIDType_Add by apply Hm.
Qed.

Lemma handles_next e y0 d b : handling b = Some d -> handles e y0 b -> handles e y0 (handleNext d b).
Proof.
  intros Hh [He H]. destruct (handleNext_frame d b) as [Et Er].
  split; [congruence|]. rewrite Er. intros gs z Hc Hw. destruct (H gs z Hc Hw) as (Ho & Hd & m1 & m2 & E1 & E2 & E3). rewrite Hh in E3.
  destruct E3 as (pad & -> & Hp). rewrite E1 in Hw. apply Forall_app in Hw as [_ Hw]. destruct m2 as [|m m2].
  - assert (handleNext (stream [] ++ pad) b = b <| handling := None |> <| idleCounter := 0 |>) as ->.
    { destruct Hp as [->|[j ->]]; [done|]. unfold handleNext. simpl. by rewrite GetNextN32_zero. }
    split; [exact Ho|]. split; [exact Hd|]. by exists m1, [].
  - destruct (handleNext_msg m m2 pad b (Forall_inv Hw)) as (b1 & -> & Hid & Eb1).
    destruct (still_dispatch sendOf recvOf (FlowID m) (MType m) (MData m) b1 Hid) as (_ & Hv & _ & Hcd).
    assert (opens e z b1) as Ho1 by (by rewrite Eb1). apply (opens_view e z _ _ Hv) in Ho1. unfold recvView in Hv. injection Hv as _ _ _ V4 V5 _ V7.
    split; [done|]. split; [|exists (m1 ++ [m]), m2].
    + rewrite V5. intros Hdone. apply Hcd. rewrite Eb1 in *. by apply Hd.
    + rewrite V4, V7. split; [by rewrite <- app_assoc|]. split.
      * rewrite Eb1. unfold emit, opMsgs. simpl. rewrite omap_app, fmap_app. unfold opMsgs in E2. by rewrite E2.
      * rewrite Eb1. by exists pad.
Qed.
Lemma handles_done e y0 err b : ctxDone b = true -> handling b = None -> handles e y0 b -> handles e y0 (handlerFails err b).
Proof.
  intros Hd Hh [He H]. set (b0 := b <| handlerDone := true |> <| handling := None |>).
  apply (handles_view e y0 b0); [apply (still_Abandon sendOf recvOf)|apply (still_Abandon sendOf recvOf)|].
  split; [done|]. intros gs z Hc Hw. destruct (H gs z Hc Hw) as (Ho & _ & Hm). split; [exact Ho|]. split; [done|]. by rewrite Hh in Hm.
Qed.

(** ** What happened stays *)
Definition grows (t t' : Term) : Prop := events t `prefix_of` events t'.
#[export] Instance grows_preorder : PreOrder grows.
Proof. split; [intros t; unfold grows; done|]. intros t1 t2 t3. unfold grows. intros H1 H2. by transitivity (events t2). Qed.
(** Neither does the sender change, but for its own steps. *)
Definition keeps (t t' : Term) : Prop := grows t t' /\ sender t' = sender t /\ waitForFlush t' = waitForFlush t.
#[export] Instance keeps_preorder : PreOrder keeps.
Proof. split; [intros t; by split|]. intros t1 t2 t3 (H1 & H2 & H3) (G1 & G2 & G3). split; [by etrans|]. split; congruence. Qed.
Lemma keeps_emit e t : keeps t (emit e t).
Proof. split; [by eexists|done]. Qed.
Lemma keeps_grows t t' : keeps t t' -> grows t t'.
Proof. by intros []. Qed.
Ltac grow := try (split; [|done]); unfold grows; simpl; repeat apply prefix_app_r; done.
Lemma keeps_Abandon err t : keeps t (Abandon err t).
Proof. unfold Abandon. destruct (Abandoning t); grow. Qed.
Lemma keeps_StopOperation ref err t : keeps t (StopOperation ref err t).
Proof. unfold StopOperation. destruct (ops t !! ref) as [op|]; [destruct (opStopped op)|]; grow. Qed.
Lemma keeps_stopUnknown id err t : keeps t (stopUnknown id err t).
Proof. unfold stopUnknown. cbn. etrans; [|apply keeps_StopOperation]. grow. Qed.
Lemma keeps_start id data t : keeps t (handleOperationStart id data t).
Proof. unfold handleOperationStart. cbn [newOp]. repeat case_step; try apply keeps_stopUnknown; grow. Qed.
Lemma keeps_deliver d t : keeps t (deliverStep d t).
Proof. destruct d as [ref m|ref e]; simpl; [grow|]. etrans; [|apply keeps_StopOperation]. grow. Qed.
Lemma keeps_dispatch id ty data t : keeps t (dispatchOp id ty data t).
Proof.
  unfold dispatchOp. repeat case_step; try (apply keeps_start || apply keeps_StopOperation || grow).
  - unfold unknownOpMsg. repeat case_step; try grow. etrans; [|apply keeps_stopUnknown]. grow.
  - unfold unknownOpMsg. repeat case_step; try grow. etrans; [|apply keeps_stopUnknown]. grow.
Qed.
Lemma grows_take m t : grows t (takeMsg m t).
Proof. unfold takeMsg. destruct (match msgBufferMsg (sender t) with Some b => _ | None => _ end). grow. Qed.
Lemma keeps_submit m r t : keeps t (submit m r t).
Proof. unfold submit. destruct r; [etrans; [|apply keeps_Abandon]|]; apply keeps_emit. Qed.
Lemma grows_sendOpMsgs m rnd r t : grows t (sendOpMsgs m rnd r t).1.
Proof.
  unfold sendOpMsgs. pose proof (encrypt_spec (padData t rnd (MData m)) t) as H. destruct (encrypt _ t) as [[d t1]|e]; cbn [fst]; [|apply keeps_emit].
  destruct H as [_ ->]. etrans; [|apply keeps_grows, keeps_submit]. grow.
Qed.
Lemma grows_sendBuffer rnd r t : grows t (sendBuffer rnd r t).
Proof.
  unfold sendBuffer. set (x := match msgBufferMsg (sender t) with Some m => _ | None => _ end).
  assert (grows t x.1) as H by (unfold x; destruct (msgBufferMsg _); [case_step; [apply grows_sendOpMsgs|]|]; grow).
  destruct x as [t1 err]. cbn [fst] in H. etrans; [exact H|].
  destruct err as [e|]; [etrans; [|apply keeps_grows, keeps_Abandon]|]; destruct (flushFinished (sender t)); grow.
Qed.
Lemma grows_requestFlush f t : grows t (requestFlush f t).
Proof. unfold requestFlush. destruct (_ =? 0); grow. Qed.
Lemma keeps_fails err t : keeps t (handlerFails err t).
Proof. unfold handlerFails. etrans; [|apply keeps_Abandon]. grow. Qed.
Lemma keeps_receive m t : keeps t (receive m t).
Proof.
  unfold receive. destruct (MData m); [grow|]. destruct (decrypt _ _) as [t1 r] eqn:E.
  assert (events t1 = events (emit (EReceived m) t)) as E1 by (revert E; unfold decrypt; repeat case_step; intros; simplify_eq; done).
  assert (sender t1 = sender t /\ waitForFlush t1 = waitForFlush t) as E2 by (revert E; unfold decrypt; repeat case_step; intros; simplify_eq; done).
  assert (keeps t t1) as H by (split; [unfold grows; rewrite E1; by eexists|exact E2]). destruct r; [etrans; [exact H|]; grow|].
  etrans; [exact H|apply keeps_fails].
Qed.
Lemma keeps_next d t : keeps t (handleNext d t).
Proof. unfold handleNext. repeat case_step; try apply keeps_fails; try grow. etrans; [|apply keeps_dispatch]. grow. Qed.
Lemma keeps_abandonStep late r t t' : abandonStep late r t = Some t' -> keeps t t'.
Proof.
  unfold abandonStep. destruct (abandon t) as [|err|err|err|err|err|]; try done.
  - intros [= <-]. generalize (snd <$> map_to_list (operations t)). intros l.
    assert (keeps t (foldl (fun t ref => StopOperation ref None t) t l)) as H by (revert t; induction l as [|x l IH]; intros t; [done|]; simpl; etrans; [apply keeps_StopOperation|apply IH]).
    exact H.
  - destruct (_ || _); [|done]. destruct (ext t); cbn zeta iota beta.
    + destruct (IsExternal _); intros [= <-]; [grow|]. etrans; [|apply keeps_submit]. grow.
    + destruct (IsExternal _); intros [= <-]; [grow|]. etrans; [|apply keeps_submit]. grow.
  - intros H. apply (inj Some) in H as <-. case_step; grow.
Qed.
Definition waits (a : TermAction) : bool := match a with TWaitForFlush => true | _ => false end.
Lemma keeps_step a t t' : termStep a t = Some t' -> isSending a = false -> waits a = false -> keeps t t'.
Proof.
  intros Hs Ha Hw. destruct a; try done; unfold termStep in Hs.
  - apply (inj Some) in Hs as <-. grow.
  - destruct (ops t !! ref); [|done]. apply (inj Some) in Hs as <-. grow.
  - apply (inj Some) in Hs as <-. apply keeps_StopOperation.
  - apply (inj Some) in Hs as <-. apply keeps_Abandon.
  - apply (inj Some) in Hs as <-. grow.
  - destruct (clients t !! i); [|done]. apply (inj Some) in Hs as <-. grow.
  - destruct (stopWorkers t !! i) as [[ref [| |]]|]; try done. apply (inj Some) in Hs as <-. grow.
  - apply (inj Some) in Hs as <-. grow.
  - apply (inj Some) in Hs as <-. unfold idleTick. destruct (_ <? _); [|grow]. etrans; [|apply keeps_Abandon]. grow.
  - destruct (handlerDone t); [done|]. destruct (handling t); [done|]. apply (inj Some) in Hs as <-. apply keeps_receive.
  - destruct (delivering t); [apply (inj Some) in Hs as <-; apply keeps_deliver|].
    destruct (handling t); [|done]. apply (inj Some) in Hs as <-. apply keeps_next.
  - destruct (handling t); [done|]. destruct (_ && _); [|done]. apply (inj Some) in Hs as <-. apply keeps_fails.
  - destruct (stopWorkers t !! i) as [[ref st]|]; [|done]. cbn in Hs. destruct (ops t !! ref) as [op|]; [|done]. cbn in Hs.
    assert (forall st' t1, stopStep ref op st t = Some (st', t1) -> keeps t t1) as H.
    { intros st' t1. unfold stopStep. repeat case_step; intros; simplify_eq; grow. }
    destruct (stopStep ref op st t) as [[st' t1]|]; [|done]. apply (inj Some) in Hs as <-. specialize (H _ _ eq_refl). etrans; [exact H|]. grow.
  - by eapply keeps_abandonStep.
  - unfold abandonFlushStep in Hs. destruct (abandon t); try done; [destruct timeout; [|done]|destruct (_ || _); [|done]]; apply (inj Some) in Hs as <-; grow.
Qed.
Lemma events_grow a t t' : termStep a t = Some t' -> grows t t'.
Proof.
  intros Hs. destruct (isSending a) eqn:E1; [|destruct (waits a) eqn:Hw].
  - destruct a; try done; unfold termStep in Hs.
    + destruct (spc _); try done. destruct (_ || _); [|done]. apply (inj Some) in Hs as <-. grow.
    + destruct (clients t !! i) as [m|]; [|done]. cbn in Hs. destruct (accepts t); [|done]. apply (inj Some) in Hs as <-. etrans; [|apply grows_take]. grow.
    + destruct (stopWorkers t !! i) as [[ref [|m|]]|]; try done. destruct (accepts t); [|done]. apply (inj Some) in Hs as <-. etrans; [|apply grows_take]. grow.
    + destruct (sendMaxWait _); try done. destruct (looping t); [|done]. apply (inj Some) in Hs as <-. grow.
    + destruct (_ && _); [|done]. apply (inj Some) in Hs as <-. apply grows_requestFlush.
    + destruct (abandon t); try done. destruct (looping t); [|done]. apply (inj Some) in Hs as <-. etrans; [|apply grows_requestFlush]. grow.
    + destruct (_ && _); [|done]. apply (inj Some) in Hs as <-. apply grows_sendBuffer.
    + destruct (ctxDone t); [|done]. destruct (spc _); try done; apply (inj Some) in Hs as <-; (etrans; [|apply keeps_grows, keeps_Abandon]); grow.
  - destruct a; try done. unfold termStep in Hs. apply (inj Some) in Hs as <-. grow.
  - by eapply keeps_grows, keeps_step.
Qed.

(** Something will send what is in the buffer: it is to be sent, the timer runs, or a
    flush is waited for. *)
Definition wakes (t : Term) : Prop := 0 < msgBufferLen (sender t) ->
  sendMsgs (sender t) = true \/ sendMaxWait (sender t) = TimerRunning \/ waitForFlush t = true.
(** A timer that has fired sends, unless a flush is waited for. *)
Definition fired (t : Term) : Prop := sendMaxWait (sender t) = TimerFired -> sendMsgs (sender t) = true \/ waitForFlush t = true.
Lemma wakes_take m t : wakes t /\ fired t -> wakes (takeMsg m t) /\ fired (takeMsg m t).
Proof.
  intros [_ Hf]. unfold takeMsg. destruct (match msgBufferMsg (sender t) with Some b => _ | None => _ end) as [buf m'].
  unfold wakes, fired in *. simpl. destruct (sendThresholdLength <=? _).
  - destruct (sendMaxLength <=? _); simpl; auto.
  - assert (sendMaxWait (sender t) = TimerFired -> sendMsgs (sender t) = true \/ waitForFlush t = true) as Hf' by exact Hf.
    destruct (sendMaxWait (sender t)) eqn:Et; [destruct (waitForFlush t) eqn:Ew|..];
      destruct (sendMaxLength <=? _); simpl; rewrite ?Et; split; auto; try done; intros _; destruct (Hf' eq_refl); auto.
Qed.
Lemma wakes_flush f t : wakes (requestFlush f t) /\ fired (requestFlush f t).
Proof. unfold requestFlush, wakes, fired. simpl. destruct (_ =? 0); simpl; auto. Qed.
Lemma wakes_sendBuffer rnd r t : wakes (sendBuffer rnd r t) /\ fired (sendBuffer rnd r t).
Proof.
  unfold sendBuffer. destruct (match msgBufferMsg (sender t) with Some m => _ | None => _ end) as [t1 err].
  set (t2 := t1 <| sender := _ |>). set (t3 := match flushFinished (sender t) with [] => t2 | _ => _ end).
  assert (sender t3 = mkSender SLoop None 0 false false TimerNone []) as E by (unfold t3; by destruct (flushFinished _)).
  set (t4 := match err with Some e => _ | None => t3 end).
  assert (sender t4 = sender t3) as H by (unfold t4; destruct err as [e|]; [apply (keeps_Abandon (Some (With e)) t3)|done]).
  unfold wakes, fired. rewrite H, E. simpl. split; [lia|done].
Qed.
Lemma wakes_step a t t' : termStep a t = Some t' -> wakes t /\ fired t -> wakes t' /\ fired t'.
Proof.
  intros Hs [Hk Hf]. destruct (isSending a) eqn:E1; [|destruct (waits a) eqn:Hw].
  - destruct a; try done; unfold termStep in Hs.
    + destruct (spc _); try done. destruct (_ || _); [|done]. by apply (inj Some) in Hs as <-.
    + destruct (clients t !! i) as [m|]; [|done]. cbn in Hs. destruct (accepts t); [|done]. apply (inj Some) in Hs as <-. by apply wakes_take.
    + destruct (stopWorkers t !! i) as [[ref [|m|]]|]; try done. destruct (accepts t); [|done]. apply (inj Some) in Hs as <-. by apply wakes_take.
    + destruct (sendMaxWait (sender t)); try done. destruct (looping t); [|done]. apply (inj Some) in Hs as <-. unfold wakes, fired, timerFires. simpl.
      destruct (waitForFlush t); simpl; auto.
    + destruct (_ && _); [|done]. apply (inj Some) in Hs as <-. apply wakes_flush.
    + destruct (abandon t); try done. destruct (looping t); [|done]. apply (inj Some) in Hs as <-. apply wakes_flush.
    + destruct (_ && _); [|done]. apply (inj Some) in Hs as <-. apply wakes_sendBuffer.
    + destruct (ctxDone t); [|done].
      assert (wakes (Abandon None (t <| sender ::= fun s => s <| spc := SDone |> |>)) /\ fired (Abandon None (t <| sender ::= fun s => s <| spc := SDone |> |>))) as H.
      { unfold wakes, fired, Abandon. by destruct (Abandoning _). }
      destruct (spc _); try done; apply (inj Some) in Hs as <-; exact H.
  - destruct a; try done. unfold termStep in Hs. apply (inj Some) in Hs as <-. split; intros _; simpl; auto.
  - destruct (keeps_step a t t' Hs E1 Hw) as (_ & Es & Ew). unfold wakes, fired in *. by rewrite Es, Ew.
Qed.

Lemma received_receive m t : received (events (receive m t)) = received (events t) ++ match MData m with [] => [] | d => [d] end.
Proof.
  unfold receive. destruct (MData m) as [|x w] eqn:Em.
  { unfold emit, received. simpl. rewrite omap_app. simpl. by rewrite Em. }
  destruct (decrypt _ _) as [t1 r] eqn:E.
  assert (events t1 = events (emit (EReceived m) t)) as E1 by (revert E; unfold decrypt; repeat case_step; intros; simplify_eq; done).
  assert (received (events t1) = received (events t) ++ [x :: w]) as E2.
  { rewrite E1. unfold emit, received. simpl. rewrite omap_app. simpl. by rewrite Em. }
  destruct r as [p|e]; [exact E2|]. unfold handlerFails, Abandon. by case_step.
Qed.
Definition receivesData (a : TermAction) : bool := match a with TReceive m => negb (bool_decide (MData m = [])) | _ => false end.
Lemma received_same a t t' : termStep a t = Some t' -> actOk a -> receivesData a = false -> received (events t') = received (events t).
Proof.
  intros Hs Hok Hr. assert (forall t t', recvView recvOf t' = recvView recvOf t -> received (events t') = received (events t)) as Hv.
  { intros t1 t2 Hv. unfold recvView in Hv. by injection Hv. }
  destruct (isSending a) eqn:E1; [|destruct (isReceiving a) eqn:E2].
  - by destruct (term_sending sendOf recvOf linked a t t' Hs E1) as (H%Hv & _).
  - destruct a; try done; unfold termStep in Hs.
    + destruct (handlerDone t); [done|]. destruct (handling t); [done|]. apply (inj Some) in Hs as <-. rewrite received_receive.
      simpl in Hr. apply negb_false_iff, bool_decide_eq_true in Hr. by rewrite Hr, app_nil_r.
    + destruct (delivering t) as [dl|]; [apply (inj Some) in Hs as <-; by destruct (still_deliver sendOf recvOf dl t) as (_ & H%Hv & _)|].
      destruct (handling t); [|done]. apply (inj Some) in Hs as <-. apply handleNext_frame.
    + destruct (handling t); [done|]. destruct (_ && _); [|done]. apply (inj Some) in Hs as <-. unfold handlerFails, Abandon. by case_step.
  - by destruct (still_calls sendOf recvOf a t t' Hs E1 E2 Hok) as (_ & H%Hv & _).
Qed.
Lemma frames_prefix (es es' : list TEvent) : es `prefix_of` es' -> frames es `prefix_of` frames es'.
Proof. intros [k ->]. unfold frames. rewrite omap_app. by eexists. Qed.

(** Every step but one that receives data: *)
Lemma handles_step e y0 a b b' : termStep a b = Some b' -> actOk a -> receivesData a = false -> handles e y0 b -> handles e y0 b'.
Proof.
  intros Hs Hok Hr Hh. destruct (isSending a) eqn:E1; [|destruct (isReceiving a) eqn:E2].
  - destruct (term_sending sendOf recvOf linked a b b' Hs E1) as (Hv & _ & Hc). by eapply handles_view.
  - destruct a; try done; simpl in Hs.
    + destruct (handlerDone b) eqn:Ed; [done|]. destruct (handling b) eqn:Eh; [done|]. apply (inj Some) in Hs as <-. by apply handles_receive.
    + destruct (delivering b) as [dl|].
      { apply (inj Some) in Hs as <-. destruct (still_deliver sendOf recvOf dl b) as (_ & Hv & _ & Hc). by eapply handles_view. }
      destruct (handling b) as [d|] eqn:Eh; [|done]. apply (inj Some) in Hs as <-. by apply handles_next.
    + destruct (handling b) eqn:Eh; [done|]. destruct (ctxDone b) eqn:Ec; [|done]. destruct (_ && _); [|done]. apply (inj Some) in Hs as <-. by apply handles_done.
  - destruct (still_calls sendOf recvOf a b b' Hs E1 E2 Hok) as (_ & Hv & _ & Hc). by eapply handles_view.
Qed.
End system.

(** ** Pairs *)
Section pairs.
Context {V : Varint} {VS : VarintSize} {WL : WireLaws V VS} {J : Jess}.
Context {Snd Rcv : Type} (sendOf : Session -> Snd) (recvOf : Session -> Rcv) (linked : Snd -> Rcv -> Prop).
Context {JL : JessLaws J sendOf recvOf linked} (TEl TEr : TermEnv).

(** The terminal whose messages are followed, and the one they are for.  Either does
    whatever a terminal may do; the first may receive anything, the second receives what
    the first has submitted and, at any time, empty messages. *)
Record Ends := mkEnds { from : Term; to : Term }.
Inductive endsStep : Ends -> Ends -> Prop :=
| from_acts a t t' r : termStep (TE := TEl) a t = Some t' -> actOk a -> endsStep (mkEnds t r) (mkEnds t' r)
| to_acts a t r r' : termStep (TE := TEr) a r = Some r' -> actOk a -> receivesData a = false -> endsStep (mkEnds t r) (mkEnds t r')
| to_receives d hp fid ty t r r' : frames (events t) !! length (received (events r)) = Some d ->
    termStep (TE := TEr) (TReceive (mkTMsg fid ty d hp)) r = Some r' -> endsStep (mkEnds t r) (mkEnds t r').

(** Before the first message: the sending terminal has its session, if there is one; the
    other has the session that belongs to it, or the identity it was made for. *)
Record joined (p : Ends) : Prop := {
  jn_orderly : orderly (from p);
  jn_secured : secured (from p);
  jn_taken : taken (events (from p)) = []; jn_frames : frames (events (from p)) = [];
  jn_buffer : msgBufferMsg (sender (from p)) = None /\ msgBufferLen (sender (from p)) = 0;
  jn_timer : sendMaxWait (sender (from p)) = TimerNone;
  jn_opens : Encrypt (topts (to p)) = Encrypt (topts (from p)) /\ opens sendOf recvOf linked (Encrypt (topts (from p))) (sendO sendOf (jession (from p))) (to p);
  jn_received : received (events (to p)) = []; jn_ops : opMsgs (events (to p)) = [];
  jn_handler : handling (to p) = None /\ handlerDone (to p) = false;
}.
Record endsInv (e : bool) (y0 : option Snd) (p : Ends) : Prop := {
  ei_orderly : orderly (from p);
  ei_secured : secured (from p);
  ei_encrypt : Encrypt (topts (from p)) = e;
  ei_feeds : feeds sendOf y0 (from p);
  ei_wakes : wakes (from p) /\ fired (from p);
  ei_handles : handles sendOf recvOf linked e y0 (to p);
  ei_received : received (events (to p)) `prefix_of` frames (events (from p));
}.

Lemma joined_inv p : joined p -> endsInv (Encrypt (topts (from p))) (sendO sendOf (jession (from p))) p.
Proof.
  intros [H1 H2 H3 H4 [H5 H5'] Ht [H6 H6'] H7 H8 [H9 H9']]. split; try done.
  - split; rewrite H3; [done|]. intros _. exists [], []. rewrite H4. split; [done|]. split; [constructor|]. unfold bufOk. by rewrite H5.
  - unfold wakes, fired. rewrite H5', Ht. split; [lia|done].
  - split; [done|]. rewrite H7. intros gs z Hc Hw. inversion Hc; subst. split; [done|]. split; [by rewrite H9'|].
    exists [], []. by rewrite H8, H9.
  - rewrite H7. apply prefix_nil.
Qed.
Lemma secured_step (a : TermAction) (t t' : Term) : termStep (TE := TEl) a t = Some t' -> actOk a -> secured t ->
  secured t' /\ topts t' = topts t /\ (orderly t -> orderly t').
Proof.
  intros Hs Hok Hsec.
  assert (forall o : option Session, is_Some (sendO sendOf o) <-> is_Some o) as H1 by (intros o; apply fmap_is_Some).
  assert (forall o : option Session, is_Some (recvOf <$> o) <-> is_Some o) as H2 by (intros o; apply fmap_is_Some).
  unfold secured in *. destruct (isSending a) eqn:E1; [|destruct (isReceiving a) eqn:E2].
  - destruct (term_sending sendOf recvOf linked a t t' Hs E1) as (Hv & Ho & _). unfold recvView in Hv. injection Hv as V1 V2 _ _ _ _ _.
    split; [|done]. rewrite V1. intros He. apply H2. rewrite V2. by apply H2, Hsec.
  - destruct (term_receiving sendOf recvOf linked a t t' Hs E2 Hsec) as (Hv & Ho & _). unfold senderView in Hv. injection Hv as _ V1 V2 _ _ _ _.
    split; [|done]. rewrite V1. intros He. apply H1. unfold sendO. rewrite V2. by apply H1, Hsec.
  - destruct (still_calls sendOf recvOf a t t' Hs E1 E2 Hok) as (Hv & _ & Ho & _). unfold senderView in Hv. injection Hv as _ V1 V2 _ _ _ _.
    split; [|done]. rewrite V1. intros He. apply H1. unfold sendO. rewrite V2. by apply H1, Hsec.
Qed.
Lemma endsInv_step e y0 p p' : endsStep p p' -> endsInv e y0 p -> endsInv e y0 p'.
Proof.
  intros Hs [H1 H2 H3 H4 Hwk H5 H6]. destruct Hs as [a t t' r Hs Hok|a t r r' Hs Hok Hr|d hp fid ty t r r' Hd Hs]; simpl in *.
  - destruct (secured_step a t t' Hs Hok H2) as (S1 & S2 & S3). split; simpl; try done; [auto|congruence| | |].
    + exact (feeds_step sendOf recvOf linked y0 a t t' Hs Hok H1 H2 H4).
    + exact (wakes_step (TE := TEl) a t t' Hs Hwk).
    + etrans; [exact H6|]. exact (frames_prefix _ _ (events_grow (TE := TEl) a t t' Hs)).
  - split; simpl; try done; [by eapply handles_step|]. by rewrite (received_same sendOf recvOf linked a r r' Hs Hok Hr).
  - unfold termStep in Hs. destruct (handlerDone r) eqn:Ed; [done|]. destruct (handling r) eqn:Eh; [done|]. apply (inj Some) in Hs as <-.
    split; simpl; try done; [by apply handles_receive|]. rewrite received_receive. cbn [MData]. destruct H6 as [k Hk].
    rewrite Hk, lookup_app_r, Nat.sub_diag in Hd by lia. destruct k as [|d' k]; simplify_eq/=. rewrite Hk.
    destruct d as [|x w]; [rewrite app_nil_r; by eexists|]. rewrite (cons_middle _ _ k), app_assoc. by eexists.
Qed.
Lemma endsInv_reachable p0 p : joined p0 -> rtc endsStep p0 p -> endsInv (Encrypt (topts (from p0))) (sendO sendOf (jession (from p0))) p.
Proof.
  intros H0%joined_inv Hr. revert H0. generalize (Encrypt (topts (from p0))) (sendO sendOf (jession (from p0))). intros e y H0.
  induction Hr as [|x y' z Hs _ IH]; [done|]. by eapply IH, endsInv_step.
Qed.
End pairs.
