(* ===== verification/TerminalProps.v ===== *)
(** * What terminals guarantee

    Delivery of the messages of operations, data that does not stay in the buffer, and
    stopping, which happens once. *)

From S2P Require Import Prelude Varint FlowQueue SpnWire Terminal TerminalFacts TerminalSystem.

(** ** How terminals stop

    The invariant behind stopping an operation and abandoning a terminal once. *)

Section stop.
Context {V : Varint} {VS : VarintSize} {J : Jess} {TE : TermEnv}.

Definition handleStops (es : list TEvent) : list nat := omap (fun e => match e with EHandleStop ref _ => Some ref | _ => None end) es.
Definition abandons (es : list TEvent) : list (option TErr) := omap (fun e => match e with EHandleAbandon err => Some err | _ => None end) es.
Definition destroys (es : list TEvent) : list (option TErr) := omap (fun e => match e with EDestroyed err => Some err | _ => None end) es.
(** Operations that are to be stopped. *)
Definition startingOf (l : list (nat * StopStage)) : list nat := omap (fun w => match w.2 with SWStart _ => Some w.1 | _ => None end) l.
Definition isStopped (t : Term) (ref : nat) : Prop := exists op, ops t !! ref = Some op /\ opStopped op = true.
(** A message was parsed, or delivered to the operation. *)
Definition touches (ref : nat) (e : TEvent) : bool :=
  match e with EOpMsg _ _ _ => true | EOpDelivered r _ => (r =? ref)%nat | _ => false end.
(** A message that is delivered to an operation after it was told to stop was parsed before,
    and nothing was parsed or delivered to it in between. *)
Definition quietAfter (es : list TEvent) : Prop := forall i j k ref err m e,
  es !! i = Some (EHandleStop ref err) -> es !! j = Some (EOpDelivered ref m) -> (i < j)%nat ->
  es !! k = Some e -> touches ref e = true -> (k < j)%nat -> (k < i)%nat.
(** So far all came before. *)
Definition openFor (es : list TEvent) (ref : nat) : Prop := forall i k err e,
  es !! i = Some (EHandleStop ref err) -> es !! k = Some e -> touches ref e = true -> (k < i)%nat.
Definition beforeHandling (a : AbandonStage) : nat := match a with AbNone | AbEnd _ | AbWait _ => 1 | _ => 0 end.
Definition beforeEnd (a : AbandonStage) : nat := match a with AbDone => 0 | _ => 1 end.

Record stopInv (t : Term) : Prop := {
  si_nodup : NoDup (startingOf (stopWorkers t) ++ handleStops (events t));
  si_stopped : Forall (isStopped t) (startingOf (stopWorkers t) ++ handleStops (events t));
  si_quiet : quietAfter (events t);
  si_checked : forall ref m, delivering t = Some (DChecked ref m) -> openFor (events t) ref;
  si_stage : Abandoning t = false -> abandon t = AbNone;
  si_begun : Abandoning t = true -> abandon t <> AbNone;
  si_abandons : (length (abandons (events t)) + beforeHandling (abandon t) <= 1)%nat;
  si_destroys : (length (destroys (events t)) + beforeEnd (abandon t) <= 1)%nat;
  si_done : ctxDone t = true -> abandon t = AbDone \/ EParentDone ∈ events t;
}.

(** Steps that concern none of it. *)
Definition neutral (e : TEvent) : bool :=
  match e with EHandleStop _ _ | EOpMsg _ _ _ | EOpDelivered _ _ | EHandleAbandon _ | EDestroyed _ => false | _ => true end.
Definition stopView (t : Term) := (ops t, stopWorkers t, delivering t, Abandoning t, abandon t, ctxDone t).
Lemma stopInv_view t t' : stopView t' = stopView t -> events t' = events t -> stopInv t -> stopInv t'.
Proof.
  unfold stopView. intros [= V1 V2 V3 V4 V5 V6] Ev [H1 H2 H3 H9 H4 H5 H6 H7 H8]. split; rewrite ?Ev, ?V2, ?V3, ?V4, ?V5, ?V6; try done.
  eapply Forall_impl; [exact H2|]. intros r (op & ?). exists op. by rewrite V1.
Qed.
Lemma quietAfter_snoc es e : quietAfter es -> (forall ref m, e = EOpDelivered ref m -> openFor es ref) -> quietAfter (es ++ [e]).
Proof.
  intros H He i j k ref err m x Hi Hj Hij Hk Hx Hkj.
  apply lookup_snoc_Some in Hi as [[Hil Hi]|[-> Hi]]; [|apply lookup_lt_Some in Hj; rewrite length_app in Hj; simpl in Hj; lia].
  apply lookup_snoc_Some in Hj as [[Hjl Hj]|[-> Hj]].
  - rewrite lookup_app_l in Hk by lia. by eapply H.
  - rewrite lookup_app_l in Hk by lia. by eapply (He ref m).
Qed.
Lemma openFor_snoc es e ref : openFor es ref -> touches ref e = false -> openFor (es ++ [e]) ref.
Proof.
  intros H He i k err x Hi Hk Hx. apply lookup_snoc_Some in Hk as [[Hkl Hk]|[-> Hk]]; [|congruence].
  apply lookup_snoc_Some in Hi as [[_ Hi]|[-> _]]; [by eapply H|done].
Qed.
Lemma openFor_fresh es ref : ref ∉ handleStops es -> openFor es ref.
Proof.
  intros H i k err e Hi. destruct H. apply list_elem_of_omap. eexists. split; [by eapply list_elem_of_lookup_2|done].
Qed.
(** An event that is counted nowhere. *)
Lemma counted_snoc es e : neutral e = true -> handleStops (es ++ [e]) = handleStops es /\ abandons (es ++ [e]) = abandons es /\ destroys (es ++ [e]) = destroys es.
Proof. intros He. unfold handleStops, abandons, destroys. rewrite !omap_app. by destruct e; simplify_eq/=; rewrite !app_nil_r. Qed.
Lemma stopInv_emit e t : neutral e = true -> stopInv t -> stopInv (emit e t).
Proof.
  intros He [H1 H2 H3 H9 H4 H5 H6 H7 H8]. destruct (counted_snoc (events t) e He) as (E1 & E2 & E3).
  split; simpl; rewrite ?E1, ?E2, ?E3; try done.
  - apply quietAfter_snoc; [done|]. by intros ref m ->.
  - intros ref m Hd. apply openFor_snoc; [by eapply H9|by destruct e].
  - intros Hc. destruct (H8 Hc); [by left|right; set_solver].
Qed.
(** No operation or terminal is stopped by a message that is parsed or delivered. *)
Lemma counted_message es e : (exists id ty d, e = EOpMsg id ty d) \/ (exists ref m, e = EOpDelivered ref m) ->
  handleStops (es ++ [e]) = handleStops es /\ abandons (es ++ [e]) = abandons es /\ destroys (es ++ [e]) = destroys es.
Proof. intros He. unfold handleStops, abandons, destroys. rewrite !omap_app. destruct He as [(? & ? & ? & ->)|(? & ? & ->)]; simpl; by rewrite !app_nil_r. Qed.
(** A message is parsed while none is being delivered. *)
Lemma stopInv_opMsg id ty d t : delivering t = None -> stopInv t -> stopInv (emit (EOpMsg id ty d) t).
Proof.
  intros Hd [H1 H2 H3 H9 H4 H5 H6 H7 H8].
  destruct (counted_message (events t) (EOpMsg id ty d)) as (E1 & E2 & E3); [left; eauto|].
  split; simpl; rewrite ?E1, ?E2, ?E3; try done.
  - apply quietAfter_snoc; [done|]. by intros ref m ?.
  - intros ref m. by rewrite Hd.
  - intros Hc. destruct (H8 Hc); [by left|right; set_solver].
Qed.
Lemma stopInv_delivering o t : (forall ref m, o = Some (DChecked ref m) -> openFor (events t) ref) -> stopInv t -> stopInv (t <| delivering := o |>).
Proof. intros Ho [H1 H2 H3 H9 H4 H5 H6 H7 H8]. by split. Qed.
Lemma stopInv_Abandon err t : stopInv t -> stopInv (Abandon err t).
Proof.
  intros H. unfold Abandon. destruct (Abandoning t) eqn:E; [done|]. destruct H as [H1 H2 H3 H9 H4 H5 H6 H7 H8].
  rewrite (H4 E) in *. split; try done; simpl; intros Hc; destruct (H8 Hc); [done|by right].
Qed.
Lemma stopInv_parent t : stopInv t -> stopInv (emit EParentDone (t <| ctxDone := true |>)).
Proof.
  intros [H1 H2 H3 H9 H4 H5 H6 H7 H8]. destruct (counted_snoc (events t) EParentDone eq_refl) as (E1 & E2 & E3).
  split; simpl; rewrite ?E1, ?E2, ?E3; try done.
  - by apply quietAfter_snoc.
  - intros ref m Hd. apply openFor_snoc; [by eapply H9|done].
  - intros _. right. set_solver.
Qed.
Lemma startingOf_snoc l ref err : startingOf (l ++ [(ref, SWStart err)]) = startingOf l ++ [ref].
Proof. unfold startingOf. by rewrite omap_app. Qed.
Lemma isStopped_alter t t' ref r : ops t' = alter (fun op => op <| opStopped := true |>) r (ops t) -> isStopped t ref -> isStopped t' ref.
Proof.
  intros E (op & Ho & Hs). unfold isStopped. rewrite E. destruct (decide (ref = r)) as [->|].
  - rewrite list_lookup_alter_eq, Ho. by eexists.
  - rewrite list_lookup_alter_ne by done. by eexists.
Qed.
Lemma stopInv_StopOperation ref err t : stopInv t -> stopInv (StopOperation ref err t).
Proof.
  intros [H1 H2 H3 H9 H4 H5 H6 H7 H8]. unfold StopOperation. destruct (ops t !! ref) as [op|] eqn:Eo; [|by split].
  destruct (opStopped op) eqn:Es; [by split|]. set (t' := t <| ops ::= _ |> <| stopWorkers ::= _ |>).
  assert (startingOf (stopWorkers t') ++ handleStops (events t) ≡ₚ ref :: startingOf (stopWorkers t) ++ handleStops (events t)) as Hp.
  { simpl. rewrite startingOf_snoc, <- app_assoc. simpl. by rewrite Permutation_middle. }
  split; try done; change (events t') with (events t); rewrite Hp.
  - apply NoDup_cons. split; [|done]. intros Hin. apply (proj1 (Forall_forall _ _)) with (x := ref) in H2 as (op' & E' & ?); [congruence|done].
  - constructor.
    + exists (op <| opStopped := true |>). split; [|done]. simpl. by rewrite list_lookup_alter_eq, Eo.
    + eapply Forall_impl; [exact H2|]. intros r. by apply isStopped_alter with ref.
Qed.
Lemma stopInv_newOp id u t : stopInv t -> stopInv (newOp id u t).2.
Proof.
  intros [H1 H2 H3 H9 H4 H5 H6 H7 H8]. split; try done. eapply Forall_impl; [exact H2|]. intros r (op & Ho & Hs). exists op. split; [|done].
  simpl. by apply lookup_app_l_Some.
Qed.
Lemma stopInv_stopUnknown id err t : stopInv t -> stopInv (stopUnknown id err t).
Proof. intros H. exact (stopInv_StopOperation _ err _ (stopInv_newOp id true t H)). Qed.
Lemma stopInv_start id data t : stopInv t -> stopInv (handleOperationStart id data t).
Proof.
  intros H. unfold handleOperationStart. repeat case_step; try by apply stopInv_stopUnknown.
  match goal with E : newOp _ _ _ = (?n, ?t0) |- _ => assert (stopInv t0) as H0 by (change t0 with (n, t0).2; rewrite <- E; by apply stopInv_newOp) end.
  apply (stopInv_view (emit (EOpStarted n) t0)); [done..|]. by apply stopInv_emit.
Qed.
Lemma stopInv_deliver d t : delivering t = Some d -> stopInv t -> stopInv (deliverStep d t).
Proof.
  intros Hd H. destruct d as [ref m|ref e]; simpl; [|by apply stopInv_StopOperation, stopInv_delivering].
  destruct H as [H1 H2 H3 H9 H4 H5 H6 H7 H8].
  destruct (counted_message (events t) (EOpDelivered ref m)) as (E1 & E2 & E3); [right; eauto|].
  split; simpl; rewrite ?E1, ?E2, ?E3; try done.
  - apply quietAfter_snoc; [done|]. intros r m' [= <- <-]. by eapply H9.
  - intros r m' E. by destruct (OpDeliver _ _ _).
  - intros Hc. destruct (H8 Hc); [by left|right; set_solver].
Qed.
Lemma stopInv_dispatch id ty data t : stopInv t -> stopInv (dispatchOp id ty data t).
Proof.
  intros H. assert (stopInv (unknownOpMsg id t)) as Hu.
  { unfold unknownOpMsg. destruct (_ =? _); [|by apply (stopInv_view t)]. destruct (_ =? _); [apply stopInv_stopUnknown|]; by apply (stopInv_view t). }
  unfold dispatchOp. destruct (ty =? MsgTypeInit); [by apply stopInv_start|]. destruct (_ || _).
  - destruct (activeOp id t) as [[ref op]|] eqn:E; [|done]. destruct (opStopped op) eqn:Es; [done|].
    unfold activeOp in E. destruct (operations t !! id) as [r|]; [|done]. cbn in E. destruct (ops t !! r) as [o|] eqn:Eo; [|done]. cbn in E.
    injection E as -> ->. apply stopInv_delivering; [|done]. intros r' m' [= -> _]. apply openFor_fresh. intros Hin.
    pose proof (si_stopped _ H) as Hs. apply Forall_app in Hs as [_ Hs].
    apply (proj1 (Forall_forall _ _) Hs) in Hin as (op' & E & ?). congruence.
  - destruct (operations t !! id); [by apply stopInv_StopOperation|done].
Qed.
Lemma stopInv_fails err t : stopInv t -> stopInv (handlerFails err t).
Proof. intros H. apply stopInv_Abandon. by apply (stopInv_view t). Qed.
Lemma stopInv_next d t : delivering t = None -> stopInv t -> stopInv (handleNext d t).
Proof.
  intros Hd H. assert (stopInv (t <| handling := None |> <| idleCounter := 0 |>)) as H0 by (by apply (stopInv_view t)).
  unfold handleNext. repeat case_step; try done; try by apply stopInv_fails.
  apply stopInv_dispatch, stopInv_opMsg; [done|]. by apply (stopInv_view t).
Qed.
Lemma stopInv_receive m t : stopInv t -> stopInv (receive m t).
Proof.
  intros H. assert (stopInv (emit (EReceived m) t)) as H0 by (by apply stopInv_emit). unfold receive. destruct (MData m); [by apply (stopInv_view (emit (EReceived m) t))|].
  destruct (decrypt _ _) as [t1 r] eqn:E. assert (stopInv t1) as H1.
  { revert E. unfold decrypt. repeat case_step; intros; simplify_eq; try done; by apply (stopInv_view (emit (EReceived m) t)). }
  destruct r; [by apply (stopInv_view t1)|by apply stopInv_fails].
Qed.
Lemma stopInv_submit m r t : stopInv t -> stopInv (submit m r t).
Proof. intros H. unfold submit. destruct r; [apply stopInv_Abandon|]; by apply stopInv_emit. Qed.
Lemma stopInv_take m t : stopInv t -> stopInv (takeMsg m t).
Proof.
  intros H. unfold takeMsg. destruct (match msgBufferMsg (sender t) with Some b => _ | None => _ end). apply stopInv_emit; [done|]. by apply (stopInv_view t).
Qed.
Lemma stopInv_sendBuffer rnd r t : stopInv t -> stopInv (sendBuffer rnd r t).
Proof.
  intros H. assert (forall m, stopInv (sendOpMsgs m rnd r t).1) as Hs.
  { intros m. unfold sendOpMsgs. destruct (encrypt _ t) as [[d t1]|e] eqn:E; cbn [fst]; [|by apply stopInv_emit]. apply stopInv_submit.
    revert E. unfold encrypt. repeat case_step; intros; simplify_eq; [done|]. by apply (stopInv_view t). }
  unfold sendBuffer. set (x := match msgBufferMsg (sender t) with Some m => _ | None => _ end).
  assert (stopInv x.1) as H1 by (unfold x; destruct (msgBufferMsg _); [case_step; [apply Hs|]|]; done).
  destruct x as [t1 err]. cbn [fst] in H1. set (t2 := t1 <| sender := _ |>). assert (stopInv t2) as H2 by (by apply (stopInv_view t1)).
  destruct err; [apply stopInv_Abandon|]; destruct (flushFinished (sender t)); try done; by apply stopInv_emit.
Qed.
Lemma stopInv_flush f t : stopInv t -> stopInv (requestFlush f t).
Proof.
  intros H. unfold requestFlush. destruct (_ =? 0); [apply stopInv_emit; [done|]|]; by apply (stopInv_view t).
Qed.

(** The worker that stops an operation. *)
Definition startsAt (w : nat * StopStage) : list nat := match w.2 with SWStart _ => [w.1] | _ => [] end.
Lemma startingOf_delete l i w : l !! i = Some w -> startingOf l ≡ₚ startsAt w ++ startingOf (delete i l).
Proof.
  intros H. unfold startingOf. rewrite (delete_Permutation _ _ _ H) at 1. destruct w as [r []]; simpl; done.
Qed.
Lemma startingOf_insert l i w w' : l !! i = Some w -> startingOf (<[i := w']> l) ≡ₚ startsAt w' ++ startingOf (delete i l).
Proof.
  intros H. unfold startingOf. rewrite (insert_Permutation l i w w' H). destruct w' as [r []]; simpl; done.
Qed.
(** A stage that does not stop any more replaces one. *)
Lemma stopInv_setStage i ref st st' t : stopWorkers t !! i = Some (ref, st) -> (forall s, st' = Some s -> startsAt (ref, s) = []) ->
  stopInv t -> stopInv (setStage i ref st' t).
Proof.
  intros Hi Hst [H1 H2 H3 H9 H4 H5 H6 H7 H8].
  assert (startingOf (stopWorkers (setStage i ref st' t)) ≡ₚ startingOf (delete i (stopWorkers t))) as Hp.
  { simpl. destruct st' as [s|]; [|done]. rewrite (startingOf_insert _ _ _ _ Hi), (Hst s) by done. done. }
  rewrite (startingOf_delete _ _ _ Hi), <- app_assoc in H1, H2. apply NoDup_app in H1 as (_ & _ & H1). apply Forall_app in H2 as [_ H2].
  split; try done; change (events (setStage i ref st' t)) with (events t); by rewrite Hp.
Qed.
(** [HandleStop] is called, once the operation is marked. *)
Lemma stopInv_handleStop i ref err err' id t : stopWorkers t !! i = Some (ref, SWStart err) -> stopInv t ->
  stopInv (setStage i ref (Some (afterStop err' id)) (emit (EHandleStop ref err) t)).
Proof.
  intros Hi [H1 H2 H3 H9 H4 H5 H6 H7 H8]. set (t' := setStage _ _ _ _).
  assert (startingOf (stopWorkers t') ++ handleStops (events t') ≡ₚ startingOf (stopWorkers t) ++ handleStops (events t)) as Hp.
  { simpl. rewrite (startingOf_insert _ _ _ _ Hi), (startingOf_delete _ _ _ Hi). unfold afterStop, handleStops. rewrite omap_app. simpl.
    destruct (IsExternal err'); simpl; by rewrite app_assoc, <- Permutation_cons_append. }
  split; try done; rewrite ?Hp; try done.
  - apply quietAfter_snoc; [done|]. by intros ? ?.
  - intros r m Hd. apply openFor_snoc; [by eapply H9|done].
  - unfold abandons. simpl. by rewrite omap_app, app_nil_r.
  - unfold destroys. simpl. by rewrite omap_app, app_nil_r.
  - intros Hc. destruct (H8 Hc); [by left|right; simpl; set_solver].
Qed.
(** Abandoning goes on. *)
Lemma stopInv_stage st t : abandon t <> AbNone -> abandon t <> AbDone -> st <> AbNone -> (beforeHandling st <= beforeHandling (abandon t))%nat ->
  stopInv t -> stopInv (t <| abandon := st |>).
Proof.
  intros Hn Hd Hst Hb [H1 H2 H3 H9 H4 H5 H6 H7 H8]. split; try done; simpl.
  - intros Ha. by destruct (Hn (H4 Ha)).
  - lia.
  - destruct (abandon t); try done; destruct st; simpl in *; lia.
  - intros Hc. destruct (H8 Hc) as [E|E]; [by destruct (Hd E)|by right].
Qed.
Lemma stopInv_handleAbandon err st t : abandon t = AbWait err -> st <> AbNone -> beforeHandling st = 0%nat ->
  stopInv t -> stopInv (emit (EHandleAbandon err) t <| abandon := st |>).
Proof.
  intros Ha Hst Hb [H1 H2 H3 H9 H4 H5 H6 H7 H8]. rewrite Ha in *.
  assert (handleStops (events t ++ [EHandleAbandon err]) = handleStops (events t) /\ destroys (events t ++ [EHandleAbandon err]) = destroys (events t)) as [E1 E2].
  { unfold handleStops, destroys. by rewrite !omap_app, !app_nil_r. }
  split; simpl; rewrite ?E1, ?E2; try done.
  - apply quietAfter_snoc; [done|]. by intros ? ?.
  - intros r m Hd. apply openFor_snoc; [by eapply H9|done].
  - intros Hab. by specialize (H4 Hab).
  - unfold abandons in *. rewrite omap_app, length_app, Hb. simpl in *. lia.
  - destruct st; simpl in *; lia.
  - intros Hc. destruct (H8 Hc); [done|right; set_solver].
Qed.
Lemma stopInv_finish err (e : bool) t : abandon t = AbFinish err -> stopInv t ->
  stopInv (let t := t <| ctxDone := true |> <| abandon := AbDone |> in if e then emit (EDestroyed err) t else t).
Proof.
  intros Ha [H1 H2 H3 H9 H4 H5 H6 H7 H8]. rewrite Ha in *.
  assert (handleStops (events t ++ [EDestroyed err]) = handleStops (events t) /\ abandons (events t ++ [EDestroyed err]) = abandons (events t)) as [E1 E2].
  { unfold handleStops, abandons. by rewrite !omap_app, !app_nil_r. }
  assert (Abandoning t = false -> False) as Hab by (intros Hab; by specialize (H4 Hab)).
  destruct e; split; simpl; rewrite ?E1, ?E2; try done; try (intros Hx; by destruct (Hab Hx)).
  - apply quietAfter_snoc; [done|]. by intros ? ?.
  - intros r m Hd. apply openFor_snoc; [by eapply H9|done].
  - unfold destroys in *. rewrite omap_app, length_app. simpl in *. lia.
  - by left.
  - simpl in H7. lia.
  - by left.
Qed.
Lemma stopInv_abandonStep late r t t' : abandonStep late r t = Some t' -> stopInv t -> stopInv t'.
Proof.
  unfold abandonStep. intros Hs H. destruct (abandon t) as [|err|err|err|err|err|] eqn:Ea; try done.
  - apply (inj Some) in Hs as <-. generalize (snd <$> map_to_list (operations t)). intros l.
    assert (stopInv (foldl (fun t ref => StopOperation ref None t) t l) /\ abandon (foldl (fun t ref => StopOperation ref None t) t l) = AbEnd err) as [H0 E0].
    { revert t Ea H. induction l as [|x l IH]; intros t Ea H; [done|]. simpl. apply IH; [|by apply stopInv_StopOperation].
      unfold StopOperation. repeat case_step; done. }
    apply stopInv_stage; rewrite ?E0; try done.
  - destruct (_ || _); [|done]. destruct (ext t); cbn zeta iota beta in Hs.
    + destruct (IsExternal _); apply (inj Some) in Hs as <-; [|apply stopInv_submit]; by apply (stopInv_handleAbandon err).
    + destruct (IsExternal _); apply (inj Some) in Hs as <-; [|apply stopInv_submit]; apply stopInv_stage; rewrite ?Ea; try done; simpl; lia.
  - apply (inj Some) in Hs as <-. by apply stopInv_finish.
Qed.

Lemma stopInv_step a t t' : termStep a t = Some t' -> stopInv t -> stopInv t'.
Proof.
  intros Hs H. destruct a; unfold termStep in Hs.
  - apply (inj Some) in Hs as <-. unfold StartOperation. cbn [newOp].
    apply (stopInv_view (newOp (u32 (nextOpID t + 8)) false t).2); [done..|]. by apply stopInv_newOp.
  - destruct (ops t !! ref); [|done]. apply (inj Some) in Hs as <-. by apply (stopInv_view t).
  - apply (inj Some) in Hs as <-. by apply stopInv_StopOperation.
  - apply (inj Some) in Hs as <-. by apply stopInv_Abandon.
  - apply (inj Some) in Hs as <-. by apply (stopInv_view t).
  - apply (inj Some) in Hs as <-. by apply (stopInv_view t).
  - destruct (clients t !! i); [|done]. apply (inj Some) in Hs as <-. by apply (stopInv_view t).
  - destruct (stopWorkers t !! i) as [[ref [| |]]|] eqn:Ew; try done. apply (inj Some) in Hs as <-.
    eapply stopInv_setStage; [exact Ew| |done]. by intros s [= <-].
  - apply (inj Some) in Hs as <-. by apply stopInv_parent.
  - destruct (spc _); try done. destruct (_ || _); [|done]. apply (inj Some) in Hs as <-. by apply (stopInv_view t).
  - destruct (clients t !! i) as [m|]; [|done]. cbn in Hs. destruct (accepts t); [|done]. apply (inj Some) in Hs as <-.
    apply stopInv_take. by apply (stopInv_view t).
  - destruct (stopWorkers t !! i) as [[ref [|m|]]|] eqn:Ew; try done. destruct (accepts t); [|done]. apply (inj Some) in Hs as <-.
    apply stopInv_take. eapply stopInv_setStage; [exact Ew| |done]. by intros s [= <-].
  - destruct (sendMaxWait _); try done. destruct (looping t); [|done]. apply (inj Some) in Hs as <-. by apply (stopInv_view t).
  - destruct (_ && _); [|done]. apply (inj Some) in Hs as <-. by apply stopInv_flush.
  - destruct (abandon t) eqn:Ea; try done. destruct (looping t); [|done]. apply (inj Some) in Hs as <-. apply stopInv_flush.
    apply stopInv_stage; rewrite ?Ea; try done.
  - destruct (_ && _); [|done]. apply (inj Some) in Hs as <-. by apply stopInv_sendBuffer.
  - apply (inj Some) in Hs as <-. unfold idleTick. destruct (_ <? _); [apply stopInv_Abandon|]; by apply (stopInv_view t).
  - destruct (ctxDone t); [|done]. assert (stopInv (t <| sender ::= fun s => s <| spc := SDone |> |>)) as H0 by (by apply (stopInv_view t)).
    apply (stopInv_Abandon None) in H0. destruct (spc _); try done; apply (inj Some) in Hs as <-; exact H0.
  - destruct (handlerDone t); [done|]. destruct (handling t); [done|]. apply (inj Some) in Hs as <-. by apply stopInv_receive.
  - destruct (delivering t) eqn:Ed; [apply (inj Some) in Hs as <-; by apply stopInv_deliver|].
    destruct (handling t); [|done]. apply (inj Some) in Hs as <-. by apply stopInv_next.
  - destruct (handling t); [done|]. destruct (_ && _); [|done]. apply (inj Some) in Hs as <-. by apply stopInv_fails.
  - destruct (stopWorkers t !! i) as [[ref st]|] eqn:Ew; [|done]. cbn in Hs. destruct (ops t !! ref) as [op|]; [|done]. cbn in Hs.
    destruct st as [err| |]; cbn in Hs; [|done|].
    + destruct (opUnknown op); apply (inj Some) in Hs as <-; [|by apply stopInv_handleStop].
      eapply stopInv_setStage; [exact Ew| |done]. intros s [= <-]. unfold afterStop. by destruct (IsExternal err).
    + apply (inj Some) in Hs as <-. eapply stopInv_setStage; [exact Ew|done|by apply (stopInv_view t)].
  - by eapply stopInv_abandonStep.
  - unfold abandonFlushStep in Hs. destruct (abandon t) eqn:Ea; try done; [destruct timeout; [|done]|destruct (_ || _); [|done]];
      apply (inj Some) in Hs as <-; apply stopInv_stage; rewrite ?Ea; done.
Qed.
End stop.

(** ** Stopping *)
Section stopping.
Context {V : Varint} {VS : VarintSize} {J : Jess} {TE : TermEnv}.

Lemma created_stopInv id remote extended opts session ident : stopInv (createTerminalBase id remote extended opts session ident).
Proof. split; simpl; try done. constructor. Qed.

(** C28. Stopping happens once, however steps of others come in between: an operation may
    be stopped often and by anyone - by its owner, by an error, by the other side or by
    abandoning the terminal -, its [HandleStop] is called at most once; after that at most
    one message is still delivered to it, the one whose delivery the handler had begun
    before, when the operation was not yet stopped.  However often a terminal is abandoned,
    its [HandleAbandon] and [HandleDestruction] are called at most once, and its context is
    done only once abandoning has come to its end or the context of the parent, the crane
    or a terminal, is cancelled. *)
Theorem stops_once id remote extended opts session ident t : rtc tStep (createTerminalBase id remote extended opts session ident) t ->
  NoDup (handleStops (events t)) /\
  (forall i j k ref err m m', events t !! i = Some (EHandleStop ref err) ->
    events t !! j = Some (EOpDelivered ref m) -> events t !! k = Some (EOpDelivered ref m') -> (i < j)%nat -> (i < k)%nat -> j = k) /\
  (forall i j k ref err m fid ty d, events t !! i = Some (EHandleStop ref err) ->
    events t !! j = Some (EOpDelivered ref m) -> events t !! k = Some (EOpMsg fid ty d) -> (i < j)%nat -> (k < j)%nat -> (k < i)%nat) /\
  (length (abandons (events t)) <= 1)%nat /\ (length (destroys (events t)) <= 1)%nat /\
  (ctxDone t = true -> abandon t = AbDone /\ Abandoning t = true \/ EParentDone ∈ events t).
Proof.
  intros Hr. assert (stopInv t) as [H1 _ H3 _ H4 _ H6 H7 H8].
  { pose proof (created_stopInv id remote extended opts session ident) as H. induction Hr as [|x y z [a Hs] _ IH]; [done|]. by eapply IH, stopInv_step. }
  assert (forall i j k ref err m m', events t !! i = Some (EHandleStop ref err) -> events t !! j = Some (EOpDelivered ref m) ->
    events t !! k = Some (EOpDelivered ref m') -> (i < k)%nat -> (k < j)%nat -> False) as Hone.
  { intros i j k ref err m m' Hi Hj Hk Hik Hkj. enough (k < i)%nat by lia.
    eapply (H3 i j k); [exact Hi|exact Hj|lia|exact Hk|simpl; by rewrite Nat.eqb_refl|done]. }
  split_and!; [by apply NoDup_app in H1 as (_ & _ & ?)| | |lia|lia|].
  - intros i j k ref err m m' Hi Hj Hk Hij Hik. destruct (Nat.lt_trichotomy j k) as [?|[?|?]]; [exfalso; exact (Hone _ _ _ _ _ _ _ Hi Hk Hj Hij ltac:(done))|done|].
    exfalso. exact (Hone _ _ _ _ _ _ _ Hi Hj Hk Hik ltac:(done)).
  - intros i j k ref err m fid ty d Hi Hj Hk Hij Hkj. by eapply (H3 i j k).
  - intros Hc. destruct (H8 Hc) as [E|E]; [left|by right]. split; [done|]. destruct (Abandoning t); [done|]. by rewrite H4 in E.
Qed.

(** Starting an operation with the ID of an active one puts the new one in its place; the
    old one is not stopped. *)
Lemma start_replaces_operation id initData opType data requires ref op (t : Term) :
  Abandoning t = false -> GetNextBlock initData = Some (opType, data) -> OpRequires opType = Some requires -> HasPermission t requires = true ->
  OpStart (events t) id opType data = StartOp -> operations t !! id = Some ref -> ops t !! ref = Some op ->
  let t' := handleOperationStart id initData t in
  operations t' !! id = Some (length (ops t)) /\ ops t' !! ref = Some op /\ stopWorkers t' = stopWorkers t.
Proof.
  intros Ha Hb Hq Hp Hs Ho Hop. unfold handleOperationStart. rewrite Ha, Hb, Hq, Hp, Hs. cbn. split; [by rewrite lookup_insert_eq|].
  split; [by apply lookup_app_l_Some|done].
Qed.
(** The stop message of an abandoned terminal is submitted while data is still in the
    buffer of the sender. *)
Lemma abandon_overtakes_data err m late (t t' : Term) : abandon t = AbWait err -> ext t = false -> IsExternal err = false ->
  msgBufferMsg (sender t) = Some m -> abandonStep late None t = Some t' ->
  events t' = events t ++ [ESubmitted (mkTMsg (tid t) MsgTypeStop (PackErr (Some (default ErrStopping err))) false)] /\ sender t' = sender t.
Proof.
  intros Ha He Hx _. unfold abandonStep. rewrite Ha, He. destruct (_ || _); [|done]. rewrite Hx. intros H. by apply (inj Some) in H as <-.
Qed.
(** Waiting for a flush does not hold back 100 bytes. *)
Lemma flush_wait_ignored m (t : Term) : waitForFlush t = true -> sendThresholdLength <= msgBufferLen (sender t) + Z.of_nat (length (MData m)) ->
  sendMsgs (sender (takeMsg m t)) = true.
Proof.
  intros _ Hl. unfold takeMsg. destruct (match msgBufferMsg (sender t) with Some b => _ | None => _ end) as [buf m'] eqn:E.
  assert (m' = PackMsg m) as -> by (destruct (msgBufferMsg (sender t)); by injection E).
  assert (length (MData m) <= length (MData (PackMsg m)))%nat as Hp.
  { simpl. unfold MakeMsg, PrependLength, AddIDType. rewrite !length_app. lia. }
  cbn zeta. assert (sendThresholdLength <=? msgBufferLen (sender t) + Z.of_nat (length (MData (PackMsg m))) = true) as -> by (apply Z.leb_le; lia).
  simpl. by destruct (_ <=? _).
Qed.
(** A message longer than the padding is not padded. *)
Lemma long_messages_not_padded (t : Term) rnd d : Padding (topts t) <= Z.of_nat (length d) -> padData t rnd d = d.
Proof.
  intros H. unfold padData, paddingNeeded. destruct (_ <=? 0) eqn:E; [done|]. bool_prop.
  enough (Z.rem (Padding (topts t) - Z.of_nat (length d)) (Padding (topts t)) <= 0) as Hr by (case_step; [done|bool_prop; lia]).
  apply Z.rem_nonpos; lia.
Qed.
End stopping.

(** ** Delivery *)
Section delivery.
Context {V : Varint} {VS : VarintSize} {WL : WireLaws V VS} {J : Jess}.
Context {Snd Rcv : Type} (sendOf : Session -> Snd) (recvOf : Session -> Rcv) (linked : Snd -> Rcv -> Prop).
Context {JL : JessLaws J sendOf recvOf linked} (TEl TEr : TermEnv).

(** Nothing is left in the sender, on the way or in the handler. *)
Definition delivered (p : Ends) : Prop :=
  msgBufferMsg (sender (from p)) = None /\ length (received (events (to p))) = length (frames (events (from p))) /\ handling (to p) = None.

(** C27. Messages of operations get through terminals whole and in order: as long as no
    data was lost at the sender - refused by the flow control or not encrypted -, what the
    handler of the other terminal parses are the first of the messages the sender took,
    whatever padding and encryption do and however messages were collected; they are all
    of them once everything has been delivered; and the handler does not fail on them.
    The other terminal may have got its session from the first message.  And nothing
    stays in the sender's buffer for want of something to send it. *)
Theorem terminal_delivers p0 p : joined sendOf recvOf linked p0 -> rtc (endsStep TEl TEr) p0 p -> lost (events (from p)) = [] ->
  (opMsgs (events (to p)) `prefix_of` (seg <$> taken (events (from p)))) /\
  (delivered p -> opMsgs (events (to p)) = seg <$> taken (events (from p))) /\
  (handlerDone (to p) = true -> ctxDone (to p) = true) /\
  (0 < msgBufferLen (sender (from p)) -> sendMsgs (sender (from p)) = true \/ sendMaxWait (sender (from p)) = TimerRunning \/ waitForFlush (from p) = true).
Proof.
  intros H0 Hr Hl. destruct (endsInv_reachable sendOf recvOf linked TEl TEr p0 p H0 Hr) as [_ _ He [Hw Hf] [Hk _] [_ Hh] [rest Hp]].
  destruct (Hf Hl) as (gs & buf & E1 & Hc & Hb). rewrite He, Hp in Hc. apply fchain_cut in Hc as (g1 & g2 & z & -> & Hc1 & Hc2).
  rewrite E1, concat_app in Hw. apply Forall_app in Hw as [Hw _]. apply Forall_app in Hw as [Hw _].
  destruct (Hh g1 z Hc1 Hw) as (_ & Hd & m1 & m2 & E2 & E3 & E4). rewrite E1, E3, concat_app, E2. split_and!; [| |done|exact Hk].
  - rewrite <- !app_assoc, fmap_app. by eexists.
  - intros (Hm & Hlen & Hn). rewrite Hp, length_app in Hlen. assert (rest = []) as -> by (apply nil_length_inv; lia).
    inversion Hc2; subst. rewrite Hn in E4. unfold bufOk in Hb. rewrite Hm in Hb. destruct Hb as [-> _]. subst m2. simpl. by rewrite !app_nil_r.
Qed.
End delivery.

(** ** A concrete run *)
Module TermDemo.
Export Caesar.
#[export] Instance termEnv : TermEnv := {|
  OpRequires _ := Some 0; OpStart _ _ _ _ := StartOp; OpDeliver _ _ _ := None; OpHandleStop _ _ err := err; ExtHandleAbandon _ err := err;
|}.
Definition endsExec1 (rt : bool) (a : TermAction) (p : Ends) : option Ends :=
  if rt then if receivesData a then None else r ← termStep a (to p); Some (mkEnds (from p) r)
  else t ← termStep a (from p); Some (mkEnds t (to p)).
(** What is sent is small. *)
Definition smallAction (a : TermAction) : bool :=
  match a with
  | TStart ty d => (length ty <? 1000)%nat && (length d <? 1000)%nat
  | TSend _ m => (0 <=? MType m) && (MType m <? 4) && (length (MData m) <? 1000)%nat
  | _ => true
  end.
(** [None] gives the next frame to the right terminal. *)
Fixpoint endsExec (l : list (option (bool * TermAction))) (p : Ends) : option Ends :=
  match l with
  | [] => Some p
  | None :: l =>
      d ← frames (events (from p)) !! length (received (events (to p)));
      r ← termStep (TReceive (mkTMsg 8 MsgTypeData d false)) (to p);
      endsExec l (mkEnds (from p) r)
  | Some (rt, a) :: l => if smallAction a then p ← endsExec1 rt a p; endsExec l p else None
  end.
Lemma smallAction_ok a : smallAction a = true -> actOk a.
Proof. destruct a; try done; simpl; intros H; bool_prop; repeat match goal with E : (_ <? _)%nat = true |- _ => apply Nat.ltb_lt in E end; lia. Qed.
Lemma endsExec_rtc l p p' : endsExec l p = Some p' -> rtc (endsStep termEnv termEnv) p p'.
Proof.
  revert p. induction l as [|[[rt a]|] l IH]; intros [t r]; cbn; [by intros [= <-]| |].
  - destruct (smallAction a) eqn:Ea; [|done]. apply smallAction_ok in Ea. destruct rt; cbn.
    + destruct (receivesData a) eqn:Er; [done|]. destruct (termStep a r) as [r'|] eqn:E; [|done]. cbn. intros H.
      eapply rtc_l; [by eapply to_acts|by apply IH].
    + destruct (termStep a t) as [t'|] eqn:E; [|done]. cbn. intros H. eapply rtc_l; [by eapply from_acts|by apply IH].
  - destruct (frames (events t) !! _) as [d|] eqn:Ed; [|done]. cbn.
    destruct (if handlerDone r then _ else _) as [r'|] eqn:E; [|done]. cbn. intros H. eapply rtc_l; [|by apply IH].
    eapply to_receives; [exact Ed|exact E].
Qed.

Definition termOpts : TerminalOpts := mkOpts 1 true 16 FlowControlDFQ 100 true.
Definition ends0 : Ends := mkEnds (createTerminalBase 8 false true termOpts (Some (0, 0)) None) (createTerminalBase 8 true true termOpts None (Some tt)).
(** An operation starts and sends, and its owner stops it; the right terminal gets its
    session from the first of two frames. *)
Definition script : list (option (bool * TermAction)) :=
  [Some (false, TSenderStarts); Some (false, TStart [112] [1]); Some (false, TTake 0); Some (false, TTimer); Some (false, TReady [] None);
   None; Some (true, THandle); Some (true, THandle);
   Some (false, TSend 0 (mkTMsg 0 MsgTypeData [4; 5; 6] true)); Some (false, TTake 0); Some (false, TStop 0 None); Some (false, TStop 0 (Some ErrTimeout));
   Some (false, TStopWork 0); Some (false, TTakeStop 0); Some (false, TStopWork 0); Some (false, TFlush 1); Some (false, TReady [7] None);
   None; Some (true, THandle); Some (true, THandle); Some (true, THandle); Some (true, THandle)].
Definition ends1 : Ends := default ends0 (endsExec script ends0).
Lemma ends1_reached : endsExec script ends0 = Some ends1.
Proof. by vm_compute. Qed.
Lemma ends0_joined : joined Caesar.sendOf Caesar.recvOf eq ends0.
Proof.
  split; try done.
  - intros _. by exists (0, 0).
  - split; [done|]. intros _. exists 0. split; [done|]. exists tt. split; [done|].
    intros [s1 s2] d w s' Hs Hseal. unfold seal in Hseal. simpl in *. injection Hseal as <- <-. eexists _, (0, 0). split; [done|]. by split.
Qed.
(** The operation of the right terminal is stopped between the handler's look at it and the
    delivery. *)
Definition lateScript : list (option (bool * TermAction)) :=
  take 18 script ++ [Some (true, THandle); Some (true, TStop 0 None); Some (true, TStopWork 0); Some (true, THandle)].
Definition ends2 : Ends := default ends0 (endsExec lateScript ends0).
Example delivered_after_stop : drop 5 (events (to ends2)) =
  [EHandleStop 0 None; EOpDelivered 0 (mkTMsg 8 MsgTypePriorityData [4; 5; 6] true)].
Proof. vm_compute. reflexivity. Qed.
(** A terminal that is abandoned twice with an operation. *)
Definition stopScript : list TermAction :=
  [TSenderStarts; TStart [112] [1]; TAbandon None; TAbandon (Some ErrTimeout); TAbandonWork false None; TStop 0 None; TStopWork 0; TStopGivesUp 0; TStopWork 0;
   TAbandonWork false None; TAbandonFlushed true; TAbandonWork false None; TSenderDone].
Fixpoint termExec (l : list TermAction) (t : Term) : option Term :=
  match l with [] => Some t | a :: l => t ← termStep a t; termExec l t end.
Lemma termExec_rtc l t t' : termExec l t = Some t' -> rtc tStep t t'.
Proof.
  revert t. induction l as [|a l IH]; intros t; cbn; [by intros [= <-]|]. destruct (termStep a t) as [t1|] eqn:E; [|done]. cbn.
  intros H. eapply rtc_l; [by exists a|by apply IH].
Qed.
Definition term1 : Term := default (from ends0) (termExec stopScript (from ends0)).
Lemma term1_reached : termExec stopScript (from ends0) = Some term1.
Proof. by vm_compute. Qed.
End TermDemo.
Import TermDemo.

Lemma terminal_delivers_witness : delivered ends1 /\
  opMsgs (events (to ends1)) = [(8, MsgTypeInit, [1; 112; 1]); (8, MsgTypePriorityData, [4; 5; 6]); (8, MsgTypeStop, [2])].
Proof.
  assert (delivered ends1) as Hd by (vm_compute; repeat split). split; [exact Hd|].
  destruct (terminal_delivers Caesar.sendOf Caesar.recvOf eq termEnv termEnv (WL := leb_wire_laws) (JL := Caesar.caesar_laws) ends0 ends1 ends0_joined
    (endsExec_rtc _ _ _ ends1_reached) ltac:(by vm_compute)) as (_ & H & _).
  rewrite (H Hd). vm_compute. reflexivity.
Defined.
Lemma stops_once_witness : handleStops (events term1) = [0%nat] /\ destroys (events term1) = [Some ErrStopping] /\ abandon term1 = AbDone.
Proof.
  assert (ctxDone term1 = true) as Hc by (vm_compute; reflexivity).
  destruct (stops_once (J := caesar) 8 false true termOpts (Some (0, 0)) None term1 (termExec_rtc _ _ _ term1_reached)) as (_ & _ & _ & _ & _ & H).
  split; [vm_compute; reflexivity|]. split; [vm_compute; reflexivity|]. destruct (H Hc) as [[E _]|E]; [exact E|].
  exfalso. revert E. rewrite list_elem_of_In. vm_compute. intuition discriminate.
Defined.
