(* ===== verification/Resolvers.v ===== *)
(** * DNS resolvers and the scopes they answer for (service/resolver)

    Configured and assigned nameservers ([resolvers.go], [resolver.go]) and the choice
    of resolvers for a query ([scopes.go]).  The variables of the package that
    [resolversLock] guards are the record [RState]; the connection of a resolver, which
    the resolver points to, is a location in its [connStates].  URLs are taken apart by
    [net/url], public suffixes by [golang.org/x/net/publicsuffix]. *)

From S2P Require Import Prelude GoStrings GoText GoNet NetUtils GoNum NameRecords.

(** ** Environment *)
(** A parsed URL: scheme, host name, port, path and the values of its query. *)
Record URL := mkURL { Scheme : str; Hostname : str; PortText : str; UPath : str; UQuery : gmap str (list str) }.

Class ResolverEnv := {
  URLParse : str -> outcome str URL;
  (** The public suffix of a domain, and whether ICANN manages it. *)
  PublicSuffix : str -> str * bool;
  Fqdn : str -> str;
  TypeString : Z -> str;
  (** Part [netenv]: local networks, assigned nameservers with their search domains. *)
  localNetwork : option IP -> outcome str (option IPNet);
  Nameservers : list (IP * list str);
  connectivityDomain : str -> bool;
  (** [sort.Slice] of more than twelve elements. *)
  pdqsort : forall A, (A -> A -> bool) -> list A -> list A;
}.

(** ** Errors (resolve.go) *)
Inductive Sentinel :=
| ErrNotFound | ErrBlocked | ErrLocalhost | ErrTimeout | ErrOffline | ErrFailure | ErrContinue | ErrShuttingDown
| ErrTestDomainsDisabled | ErrSpecialDomainsDisabled | ErrInvalid | ErrNoCompliance
| BlockedUpstreamError | ContextCanceled | ContextDeadlineExceeded.
#[export] Instance Sentinel_eq_dec : EqDecision Sentinel.
Proof. solve_decision. Defined.
(** The error that is wrapped. *)
Definition Unwrap (e : Sentinel) : option Sentinel :=
  match e with
  | ErrTestDomainsDisabled | ErrSpecialDomainsDisabled | ErrNoCompliance | BlockedUpstreamError => Some ErrBlocked
  | ErrInvalid => Some ErrNotFound
  | _ => None
  end.
(** An error with the known errors it wraps, and its text. *)
Record DnsErr := mkErr { Wraps : list Sentinel; ErrText : str }.
Definition errorsIs (e : DnsErr) (t : Sentinel) : bool :=
  existsb (fun s => bool_decide (s = t) || bool_decide (Unwrap s = Some t)) (Wraps e).
Definition blockedText : str := $"query was blocked".
(** The text of a sentinel; that of a [BlockedUpstreamError] also names the resolver. *)
Definition sentinelText (e : Sentinel) : str :=
  match e with
  | ErrNotFound => $"record could not be found" | ErrBlocked => blockedText
  | ErrLocalhost => $"query for localhost" | ErrTimeout => $"query timed out" | ErrOffline => $"device is offine"
  | ErrFailure => $"query failed" | ErrContinue => $"resolver has no answer" | ErrShuttingDown => $"resolver is shutting down"
  | ErrTestDomainsDisabled => blockedText ++ $": test domains disabled"
  | ErrSpecialDomainsDisabled => blockedText ++ $": special domains disabled"
  | ErrInvalid => $"record could not be found: invalid request"
  | ErrNoCompliance => blockedText ++ $": no compliant resolvers for this query"
  | BlockedUpstreamError => blockedText
  | ContextCanceled => $"context canceled" | ContextDeadlineExceeded => $"context deadline exceeded"
  end.
Definition errOf (e : Sentinel) : DnsErr := mkErr [e] (sentinelText e).

(** ** Settings *)
Record DnsConfig := mkDnsConfig {
  noInsecureProtocols : bool; noAssignedNameservers : bool; noMulticastDNS : bool;
  dontResolveSpecialDomains : bool; useStaleCache : bool; configuredNameServers : list str;
}.

(** ** Resolvers (resolver.go) *)
Definition ServerTypeDNS : str := $"dns".
Definition ServerTypeTCP : str := $"tcp".
Definition ServerTypeDoT : str := $"dot".
Definition ServerTypeDoH : str := $"doh".
Definition ServerTypeMDNS : str := $"mdns".
Definition ServerTypeEnv : str := $"env".
Definition ServerSourceConfigured : str := $"config".
Definition ServerSourceOperatingSystem : str := $"system".
Definition ServerSourceMDNS : str := $"mdns".
Definition ServerSourceEnv : str := $"env".
Definition HTTPSProtocol : str := $"https".
Definition TLSProtocol : str := $"tls".

(** What [Conn] is; a location of the connection's state. *)
Inductive ResolverConn :=
| TCPResolver (l : nat) (tls : bool) | HTTPSResolver (l : nat) | PlainResolver (l : nat)
| MDNSResolverConn | EnvResolverConn.
#[export] Instance ResolverConn_eq_dec : EqDecision ResolverConn.
Proof. solve_decision. Defined.
Record Resolver := mkResolverObj {
  ConfigURL : str; Info : ResolverInfo; ServerAddress : str; UpstreamBlockDetection : str;
  Search : list str; SearchOnly : bool; RPath : str; LinkLocalUnavailable : bool;
  Conn : ResolverConn;
}.
#[export] Instance eta_Resolver : Eta Resolver := fun r =>
  mkResolverObj (ConfigURL r) (Info r) (ServerAddress r) (UpstreamBlockDetection r) (Search r) (SearchOnly r)
    (RPath r) (LinkLocalUnavailable r) (Conn r).

(** [fmt] prints a nil IP so. *)
Definition IPText (ip : option IP) : str := match ip with Some ip => IPString ip | None => $"<nil>" end.
Definition ID (i : ResolverInfo) : str :=
  if eqs (RType i) ServerTypeMDNS then ServerTypeMDNS
  else if eqs (RType i) ServerTypeEnv then ServerTypeEnv
  else if eqs (RType i) ServerTypeDoH then $"https://" ++ RDomain i ++ $":" ++ Itoa (RPort i) ++ $"#" ++ RSource i
  else if eqs (RType i) ServerTypeDoT then $"dot://" ++ RDomain i ++ $":" ++ Itoa (RPort i) ++ $"#" ++ RSource i
  else RType i ++ $"://" ++ IPText (RIP i) ++ $":" ++ Itoa (RPort i) ++ $"#" ++ RSource i.
Definition DescriptiveName (i : ResolverInfo) : str :=
  if eqs (RType i) ServerTypeMDNS then $"MDNS"
  else if eqs (RType i) ServerTypeEnv then $"Portmaster Environment"
  else if negb (bool_decide (RName i = [])) then RName i ++ $" (" ++ ID i ++ $")"
  else if negb (bool_decide (RDomain i = [])) then RDomain i ++ $" (" ++ ID i ++ $")"
  else IPText (RIP i) ++ $" (" ++ ID i ++ $")".

Definition mDNSResolver : Resolver :=
  mkResolverObj ServerSourceMDNS (mkResolver [] ServerTypeMDNS ServerSourceMDNS None [] SiteLocal 0) [] [] [] false [] false
    MDNSResolverConn.
Definition mDNSResolvers : list Resolver := [mDNSResolver].
Definition envResolver : Resolver :=
  mkResolverObj ServerSourceEnv (mkResolver [] ServerTypeEnv ServerSourceEnv None [] SiteLocal 0) [] [] [] false [] false
    EnvResolverConn.
Definition envResolvers : list Resolver := [envResolver].

(** ** State *)
(** [BasicResolverConn]; [None]: the zero time. *)
Record ConnState := mkConnState { failing : bool; failingStarted : option Z; fails : Z }.
#[export] Instance eta_ConnState : Eta ConnState := fun c => mkConnState (failing c) (failingStarted c) (fails c).
Definition newConnState : ConnState := mkConnState false None 0.
Record ScopeR := mkScopeR { ScopeDomain : str; ScopeResolvers : list Resolver }.
Record RState := mkRState {
  globalResolvers : list Resolver; localResolvers : list Resolver; systemResolvers : list Resolver;
  localScopes : list ScopeR; activeResolvers : gmap str Resolver;
  currentResolverConfig : list str; resolverInitDomains : gset str;
  connStates : list ConnState;
  isDisabled : bool;
  (** The warning or error about missing resolvers. *)
  missingResolvers : option bool;
  (** How often clearing the DNS cache was started. *)
  cacheClears : nat;
  notificationSet : bool; notification : bool;
}.
#[export] Instance eta_RState : Eta RState := fun s =>
  mkRState (globalResolvers s) (localResolvers s) (systemResolvers s) (localScopes s) (activeResolvers s)
    (currentResolverConfig s) (resolverInitDomains s) (connStates s) (isDisabled s) (missingResolvers s) (cacheClears s)
    (notificationSet s) (notification s).

(** ** The monad: errors keep the state *)
Definition R (A : Type) := RState -> outcome str A * RState.
#[export] Instance R_ret : MRet R := fun A a s => (Ret a, s).
#[export] Instance R_bind : MBind R := fun A B f m s =>
  let '(r, s) := m s in match r with Ret a => f a s | Err e => (Err e, s) | Panic => (Panic, s) end.
Definition getR : R RState := fun s => (Ret s, s).
Definition modR (f : RState -> RState) : R unit := fun s => (Ret tt, f s).
Definition lift {A} (o : outcome str A) : R A := fun s => (o, s).
Definition failR {A} (e : str) : R A := lift (Err e).

(** ** Strings *)
Fixpoint trimLeft (c : ascii) (s : str) : str :=
  match s with d :: s' => if bool_decide (c = d) then trimLeft c s' else s | [] => [] end.
(** [strings.Trim] of one character, [strings.LastIndex] of one character. *)
Definition Trim (s : str) (c : ascii) : str := rev (trimLeft c (rev (trimLeft c s))).
Fixpoint lastIndexFrom (i : Z) (s : str) (c : ascii) : Z :=
  match s with
  | [] => -1
  | d :: s => let r := lastIndexFrom (i + 1) s c in if r <? 0 then (if bool_decide (c = d) then i else -1) else r
  end.
Definition LastIndex (s : str) (c : ascii) : Z := lastIndexFrom 0 s c.

(** ** Domain scopes (scopes.go) *)
Definition localhostDomain : str := $".localhost.".
Definition invalidDomain : str := $".invalid.".
Definition InternalSpecialUseDomain : str := $"portmaster.home.arpa.".
Definition internalSpecialUseDomains : list str := [$"." ++ InternalSpecialUseDomain].
Definition multicastDomains : list str :=
  [$".local."; $".254.169.in-addr.arpa."; $".8.e.f.ip6.arpa."; $".9.e.f.ip6.arpa."; $".a.e.f.ip6.arpa."; $".b.e.f.ip6.arpa."].
Definition specialUseDomains : list str :=
  [$".home.arpa."; $".intranet."; $".internal."; $".private."; $".corp."; $".home."; $".lan.";
   $".10.in-addr.arpa.";
   $".16.172.in-addr.arpa."; $".17.172.in-addr.arpa."; $".18.172.in-addr.arpa."; $".19.172.in-addr.arpa.";
   $".20.172.in-addr.arpa."; $".21.172.in-addr.arpa."; $".22.172.in-addr.arpa."; $".23.172.in-addr.arpa.";
   $".24.172.in-addr.arpa."; $".25.172.in-addr.arpa."; $".26.172.in-addr.arpa."; $".27.172.in-addr.arpa.";
   $".28.172.in-addr.arpa."; $".29.172.in-addr.arpa."; $".30.172.in-addr.arpa."; $".31.172.in-addr.arpa.";
   $".168.192.in-addr.arpa."; $".d.f.ip6.arpa."; $".c.f.ip6.arpa.";
   $".example."; $".example.com."; $".example.net."; $".example.org."; $".test."].
Definition specialServiceDomains : list str :=
  [$".onion."; $".i2p."; $".loki."; $".bit."; $".eth.";
   $".888."; $".bitcoin."; $".coin."; $".crypto."; $".dao."; $".nft."; $".wallet."; $".x."; $".zil.";
   $".bazar."; $".coin."; $".emc."; $".lib.";
   $".bbs."; $".chan."; $".dyn."; $".free."; $".fur."; $".geek."; $".glue."; $".gopher."; $".indy."; $".libre."; $".neo.";
   $".null."; $".o."; $".oss."; $".oz."; $".parody."; $".pirate.";
   $".ku."; $".te."; $".ti."; $".uu."].
Definition domainInScope (dotPrefixedFQDN : str) (scopeList : list str) : bool :=
  existsb (HasSuffix dotPrefixedFQDN) scopeList.

(** ** Queries (resolve.go) *)
Record Query := mkQuery {
  FQDN : str; QType : Z; NoCaching : bool; IgnoreFailing : bool; LocalResolversOnly : bool;
  ICANNSpace : bool; DomainRoot : str; dotPrefixedFQDN : str;
}.
#[export] Instance eta_Query : Eta Query := fun q =>
  mkQuery (FQDN q) (QType q) (NoCaching q) (IgnoreFailing q) (LocalResolversOnly q) (ICANNSpace q) (DomainRoot q) (dotPrefixedFQDN q).
Definition TypeA : Z := 1.
Definition TypeAAAA : Z := 28.

Section resolvers.
Context {UT : UnicodeTables} {RE : ResolverEnv}.

Definition QID (q : Query) : str := FQDN q ++ TypeString (QType q).
Definition InitPublicSuffixData (q : Query) : Query :=
  let '(suffix, icann) := PublicSuffix (TrimSuffix (FQDN q) $".") in
  let q := if icann || Contains suffix $"." then q <| ICANNSpace := true |> else q in
  let q :=
    if existsb (eqs suffix) [$"example"; $"invalid"; $"local"; $"localhost"; $"test"] then q <| ICANNSpace := true |>
    else if eqs suffix $"onion" then q <| ICANNSpace := false |> else q in
  let suffix := suffix ++ $"." in
  if bool_decide (length (FQDN q) = length suffix) then q <| DomainRoot := [] |>
  else if (length suffix <? length (FQDN q))%nat then
    let domainRootStart := LastIndex (take (length (FQDN q) - length suffix - 1) (FQDN q)) "." + 1 in
    q <| DomainRoot := drop (Z.to_nat domainRootStart) (FQDN q) |>
  else q.
(** [check]: [None] for a query that is refused. *)
Definition check (q : Query) : option Query :=
  if bool_decide (FQDN q = []) then None else
  let q := q <| FQDN := Fqdn (FQDN q) |> in
  Some (q <| dotPrefixedFQDN := if eqs (FQDN q) $"." then FQDN q else $"." ++ FQDN q |>).
Definition checkCompliance (g : DnsConfig) (q : Query) : option Sentinel :=
  if HasSuffix (dotPrefixedFQDN q) invalidDomain then Some ErrNotFound
  else if HasSuffix (dotPrefixedFQDN q) localhostDomain then
    if (QType q =? TypeA) || (QType q =? TypeAAAA) then Some ErrLocalhost else Some ErrNotFound
  else if dontResolveSpecialDomains g && domainInScope (dotPrefixedFQDN q) specialServiceDomains
  then Some ErrSpecialDomainsDisabled
  else None.

(** ** Which resolvers comply *)
Inductive complianceErr := errInsecureProtocol | errAssignedServer | errMulticastDNS | errOutOfScope.
Definition secureType (t : str) : bool := existsb (eqs t) [ServerTypeDoT; ServerTypeDoH; ServerTypeEnv].
Definition resolverCompliance (g : DnsConfig) (q : Query) (r : Resolver) : option complianceErr :=
  if noInsecureProtocols g && negb (secureType (RType (Info r))) then Some errInsecureProtocol
  else if noAssignedNameservers g && eqs (RSource (Info r)) ServerSourceOperatingSystem then Some errAssignedServer
  else if noMulticastDNS g && eqs (RSource (Info r)) ServerSourceMDNS then Some errMulticastDNS
  else if SearchOnly r && negb (domainInScope (dotPrefixedFQDN q) (Search r)) then Some errOutOfScope
  else None.
Definition addResolver (g : DnsConfig) (s : RState) (q : Query) (selected : list Resolver) (r : Resolver) : list Resolver :=
  match resolverCompliance g q r with
  | Some _ => selected
  | None =>
      if existsb (fun x => eqs (ID (Info x)) (ID (Info r))) selected then selected
      else if eqs (RSource (Info r)) ServerSourceConfigured && bool_decide (RIP (Info r) = None) &&
              bool_decide (FQDN q ∈ resolverInitDomains s)
      then selected
      else selected ++ [r]
  end.
Definition addResolvers (g : DnsConfig) (s : RState) (q : Query) (selected l : list Resolver) : list Resolver :=
  foldl (addResolver g s q) selected l.

(** The resolvers in order, where they come from, and whether all are asked. *)
Definition GetResolversInScope (g : DnsConfig) (s : RState) (q : Query) : list Resolver * str * bool :=
  let add := addResolvers g s q in
  let inScope := domainInScope (dotPrefixedFQDN q) in
  if inScope internalSpecialUseDomains then (envResolvers, ServerSourceEnv, false)
  else if connectivityDomain (FQDN q) && negb (bool_decide (systemResolvers s = [])) then
    let selected := add [] (systemResolvers s) in
    (match selected with [] => add (add [] (localResolvers s)) (globalResolvers s) | _ => selected end,
     ServerSourceOperatingSystem, false)
  else
    let selected :=
      foldl (fun selected sc =>
        if HasSuffix (dotPrefixedFQDN q) (ScopeDomain sc) then add selected (ScopeResolvers sc) else selected)
        [] (localScopes s) in
    if inScope multicastDomains then
      (add (add (add selected mDNSResolvers) (localResolvers s)) (systemResolvers s), ServerSourceMDNS, true)
    else if inScope specialUseDomains || inScope specialServiceDomains then
      (add selected (localResolvers s), $"special", true)
    else (add selected (globalResolvers s), ServerSourceConfigured, false).
End resolvers.
