(* ===== verification/ResolverSetup.v ===== *)
(** * Setting up resolvers (service/resolver/resolvers.go)

    Resolvers are created from URLs, search domains are checked, and the resolvers are
    assigned to scopes.  [loadResolvers] runs with [resolversLock] held. *)

From S2P Require Import Prelude GoStrings GoText GoNet NetUtils GoNum NameRecords Resolvers.

Definition maxSearchDomains : Z := 100.
Definition parameterName : str := $"name".
Definition parameterVerify : str := $"verify".
Definition parameterIP : str := $"ip".
Definition parameterBlockedIf : str := $"blockedif".
Definition parameterSearch : str := $"search".
Definition parameterSearchOnly : str := $"search-only".
Definition parameterLinkLocal : str := $"link-local".
Definition knownParameters : list str :=
  [parameterName; parameterVerify; parameterIP; parameterBlockedIf; parameterSearch; parameterSearchOnly; parameterLinkLocal].
Definition BlockDetectionRefused : str := $"refused".
Definition BlockDetectionZeroIP : str := $"zeroip".
Definition BlockDetectionEmptyAnswer : str := $"empty".
Definition BlockDetectionDisabled : str := $"disabled".
Definition defaultNameServers : list str :=
  [$"dot://cloudflare-dns.com?ip=1.1.1.2&name=Cloudflare&blockedif=zeroip";
   $"dot://cloudflare-dns.com?ip=1.0.0.2&name=Cloudflare&blockedif=zeroip"].

(** [url.Values]: [Get] gives the first value. *)
Definition QGet (u : URL) (k : str) : str := default [] (UQuery u !! k ≫= head).
Definition QHas (u : URL) (k : str) : bool := bool_decide (is_Some (UQuery u !! k)).

Section setup.
Context {UT : UnicodeTables} {RE : ResolverEnv}.

Definition indexOfScope (domain : str) (l : list ScopeR) : option nat :=
  fst <$> list_find (fun sc => ScopeDomain sc = domain) l.
Definition formatIPAndPort (ip : IP) (port : Z) : str :=
  match To4 ip with
  | Some ip4 => IPString ip4 ++ $":" ++ Itoa port
  | None => $"[" ++ IPString ip ++ $"]:" ++ Itoa port
  end.
(** The connection gets a new state; [init] clears it. *)
Definition resolverConnFactory (type : str) : R ResolverConn :=
  s ← getR;
  let l := length (connStates s) in
  modR (fun s => s <| connStates ::= fun cs => cs ++ [newConnState] |>) ;;
  if eqs type ServerTypeTCP then mret (TCPResolver l false)
  else if eqs type ServerTypeDoT then mret (TCPResolver l true)
  else if eqs type ServerTypeDoH then mret (HTTPSResolver l)
  else mret (PlainResolver l).

Definition parsePortFromURL (u : URL) (scheme : str) : outcome str Z :=
  if negb (bool_decide (PortText u = [])) then
    match ParseUint (PortText u) 16 with Some p => Ret p | None => Err ($"invalid port " ++ PortText u) end
  else if eqs scheme ServerTypeDNS || eqs scheme ServerTypeTCP then Ret 53
  else if eqs scheme ServerTypeDoH then Ret 443
  else if eqs scheme ServerTypeDoT then Ret 853
  else Err ($"cannot determine port for " ++ scheme).

(** [resolver]: with the URL's scheme as type. *)
Definition checkAndSetResolverParamters (u : URL) (r : Resolver) : R Resolver :=
  let scheme := RType (Info r) in
  let ip := ParseIP (Hostname u) in
  let hostnameIsDomain := bool_decide (ip = None) in
  let secure := eqs scheme ServerTypeDoT || eqs scheme ServerTypeDoH in
  if hostnameIsDomain && negb secure then failR ($"resolver IP is invalid: " ++ Hostname u) else
  port ← lift (parsePortFromURL u scheme);
  let r := r <| Info ::= fun i => i <| RPort := port |> <| RIP := ip |> |> in
  if negb (forallb (fun k => existsb (eqs k) knownParameters) (map_to_list (UQuery u)).*1) then failR $"unknown parameter" else
  let verify := QGet u parameterVerify in
  let serverIP := QGet u parameterIP in
  let r := r <| Info ::= fun i => i <| RDomain := verify |> |> in
  let hasVerify := negb (bool_decide (verify = [])) in
  let hasServerIP := negb (bool_decide (serverIP = [])) in
  if secure then
    if hostnameIsDomain && hasVerify
    then failR $"cannot set the domain name via both the hostname in the URL and the verify parameter"
    else if negb hostnameIsDomain && negb hasVerify then failR $"verify parameter must be set when using ip as domain"
    else if negb hostnameIsDomain && hasServerIP
    then failR $"cannot set the IP address via both the hostname in the URL and the ip parameter"
    else
      let r :=
        if hostnameIsDomain && hasServerIP then
          r <| Info ::= fun i => i <| RIP := ParseIP serverIP |> <| RDomain := Hostname u |> |>
            <| ServerAddress := JoinHostPort serverIP (Itoa port) |>
        else match ip with
        | Some ip => r <| ServerAddress := JoinHostPort (IPString ip) (Itoa port) |>
        | None =>
            r <| Info ::= fun i => i <| RDomain := Hostname u |> |>
              <| ServerAddress := JoinHostPort (Hostname u) (Itoa port) |>
        end in
      (if hostnameIsDomain
       then modR (fun s => s <| resolverInitDomains ::= fun d => {[ Fqdn (RDomain (Info r)) ]} ∪ d |>) else mret tt) ;;
      mret r
  else if hasVerify then failR $"domain verification is only supported by DoT and DoH servers"
  else mret (r <| ServerAddress := JoinHostPort (IPText ip) (Itoa port) |>).

(** ** Search domains *)
Definition checkSearchScope (searchDomain : str) : outcome str unit :=
  if bool_decide (searchDomain = []) || HasPrefix searchDomain $"." || HasSuffix searchDomain $"."
  then Err ($"invalid (1) search domain: " ++ searchDomain)
  else if domainInScope ($"." ++ searchDomain ++ $".") specialServiceDomains then Ret tt
  else
    let augmentedSearchDomain := $"*.*.*.*.*." ++ searchDomain in
    let '(suffix, icann) := PublicSuffix augmentedSearchDomain in
    if bool_decide (suffix = []) then Err ($"invalid (2) search domain: " ++ searchDomain)
    else if negb icann && negb (Contains suffix $".") then Ret tt
    else
      let split := Z.of_nat (length augmentedSearchDomain) - Z.of_nat (length suffix) - 1 in
      if split <? 0 then Panic else
      let eTLDplus1 :=
        drop (Z.to_nat (1 + LastIndex (take (Z.to_nat split) augmentedSearchDomain) ".")) augmentedSearchDomain in
      if Contains eTLDplus1 $"*"
      then Err ($"search domain " ++ searchDomain ++ $" is dangerously high up the hierarchy, stay at or below " ++ eTLDplus1)
      else Ret tt.
(** The search domains that are valid; the first error, if those are not skipped. *)
Fixpoint validSearches (searches : list str) (hardfail : bool) : outcome str (list str) :=
  match searches with
  | [] => Ret []
  | value :: searches =>
      let trimmedDomain := ToLower (Trim value ".") in
      match checkSearchScope trimmedDomain with
      | Ret _ => rest ← validSearches searches hardfail; Ret (($"." ++ trimmedDomain ++ $".") :: rest)
      | Err e => if hardfail : bool then Err ($"failed to validate search domain: " ++ e) else validSearches searches hardfail
      | Panic => Panic
      end
  end.
Definition configureSearchDomains (r : Resolver) (searches : list str) (hardfail : bool) : outcome str Resolver :=
  valid ← validSearches searches hardfail;
  if maxSearchDomains <? Z.of_nat (length valid) then
    if hardfail : bool then Err $"too many search domains"
    else Ret (r <| Search := take (Z.to_nat maxSearchDomains) valid |>)
  else Ret (r <| Search := valid |>).

(** ** Creating resolvers *)
(** The type of resolver of a scheme. *)
Definition schemeType (scheme : str) : option str :=
  if existsb (eqs scheme) [ServerTypeDNS; ServerTypeDoT; ServerTypeDoH; ServerTypeTCP] then Some scheme
  else if eqs scheme HTTPSProtocol then Some ServerTypeDoH
  else if eqs scheme TLSProtocol then Some ServerTypeDoT
  else None.
Definition linkLocalUnavailable (ip : option IP) : bool :=
  match localNetwork ip with Ret (Some _) => false | _ => true end.
(** [None]: the resolver is to be skipped. *)
Definition createResolver (resolverURL source : str) : R (option Resolver) :=
  u ← lift (URLParse resolverURL);
  match schemeType (Scheme u) with
  | None => failR ($"DNS resolver scheme invalid: " ++ Scheme u)
  | Some type =>
      let r := mkResolverObj resolverURL (mkResolver (QGet u parameterName) type source None [] Global 0) [] [] [] false
        (UPath u) false EnvResolverConn in
      r ← checkAndSetResolverParamters u r;
      let blockedIf := QGet u parameterBlockedIf in
      let r := r <| UpstreamBlockDetection := if bool_decide (blockedIf = []) then BlockDetectionZeroIP else blockedIf |> in
      if negb (existsb (eqs (UpstreamBlockDetection r))
                 [BlockDetectionDisabled; BlockDetectionEmptyAnswer; BlockDetectionRefused; BlockDetectionZeroIP])
      then failR $"invalid value for upstream block detection (blockedif=)" else
      let r := match RIP (Info r) with Some ip => r <| Info ::= fun i => i <| RIPScope := GetIPScope ip |> |> | None => r end in
      if negb (bool_decide (RIP (Info r) = None)) && IsLocalhost (RIPScope (Info r)) && eqs source ServerSourceOperatingSystem
      then mret None else
      let searchDomains := QGet u parameterSearch in
      r ← (if bool_decide (searchDomains = []) then mret r
           else lift (configureSearchDomains r (Split searchDomains ",") true));
      if QHas u parameterSearchOnly && negb (bool_decide (QGet u parameterSearchOnly = []))
      then failR $"search-only may only be used as an empty parameter"
      else if QHas u parameterSearchOnly && bool_decide (Search r = []) then failR $"cannot use search-only without search scopes"
      else
      let r := if QHas u parameterSearchOnly then r <| SearchOnly := true |> else r in
      if QHas u parameterLinkLocal && negb (bool_decide (QGet u parameterLinkLocal = []))
      then failR $"link-local may only be used as an empty parameter"
      else
      let r := if QHas u parameterLinkLocal && linkLocalUnavailable (RIP (Info r)) then r <| LinkLocalUnavailable := true |> else r in
      conn ← resolverConnFactory type;
      mret (Some (r <| Conn := conn |>))
  end.
(** A resolver that cannot be used is logged. *)
Definition tryResolver (m : R (option Resolver)) : R (option Resolver) := fun s =>
  match m s with (Err _, s) => (Ret None, s) | r => r end.
Fixpoint collectR {A} (f : A -> R (option Resolver)) (l : list A) : R (list Resolver) :=
  match l with
  | [] => mret []
  | x :: l => r ← f x; rs ← collectR f l; mret (option_list r ++ rs)
  end.
Definition getConfiguredResolvers (list_ : list str) : R (list Resolver) :=
  collectR (fun server => tryResolver (createResolver server ServerSourceConfigured)) list_.
Definition getSystemResolver (ns : IP * list str) : R (option Resolver) :=
  r ← tryResolver (createResolver ($"dns://" ++ formatIPAndPort ns.1 53) ServerSourceOperatingSystem);
  match r with
  | None => mret None
  | Some r =>
      if IsLAN (RIPScope (Info r)) then
        match configureSearchDomains r ns.2 false with
        | Ret r => mret (Some r)
        | Err _ => mret (Some r)
        | Panic => lift Panic
        end
      else mret (Some r)
  end.
Definition getSystemResolvers : R (list Resolver) := collectR getSystemResolver Nameservers.

(** ** Assigning scopes *)
Definition sortScopes (l : list ScopeR) : list ScopeR :=
  let less a b := (length (ScopeDomain b) <? length (ScopeDomain a))%nat in
  if (length l <=? 12)%nat then insertionSort less l else pdqsort _ less l.
Definition addSearch (r : Resolver) (scopes : list ScopeR) (search : str) : list ScopeR :=
  if eqs search $"." then scopes else
  match indexOfScope search scopes with
  | None => scopes ++ [mkScopeR search [r]]
  | Some k => alter (fun sc => mkScopeR (ScopeDomain sc) (ScopeResolvers sc ++ [r])) k scopes
  end.
Definition isLocalResolver (r : Resolver) : bool :=
  IsLAN (RIPScope (Info r)) || match localNetwork (RIP (Info r)) with Ret (Some _) => true | _ => false end.
Definition isSystemResolver (r : Resolver) : bool := eqs (RSource (Info r)) ServerSourceOperatingSystem.
Definition setScopedResolvers (resolvers : list Resolver) (s : RState) : RState :=
  s <| localResolvers := filter isLocalResolver resolvers |>
    <| systemResolvers := filter isSystemResolver resolvers |>
    <| localScopes := sortScopes (foldl (fun scs r => foldl (addSearch r) scs (Search r)) [] resolvers) |>.

(** ** Loading *)
Definition connOf (r : Resolver) : option nat :=
  match Conn r with TCPResolver l _ | HTTPSResolver l | PlainResolver l => Some l | _ => None end.
(** The mDNS and environment resolvers never fail. *)
Definition IsFailing (s : RState) (r : Resolver) : bool :=
  match connOf r ≫= fun l => connStates s !! l with Some c => failing c | None => false end.
Definition allConfiguredResolversAreFailing (s : RState) : bool :=
  negb (bool_decide (currentResolverConfig s = [])) &&
  forallb (fun r => IsFailing s r || negb (eqs (RSource (Info r)) ServerSourceConfigured)) (globalResolvers s).
Definition notifyAboutFailingResolvers (s : RState) : RState := s <| notificationSet := true |> <| notification := true |>.
Definition resetFailingResolversNotification (s : RState) : RState :=
  if notificationSet s then s <| notification := false |> else s.
Definition activeMap (l : list Resolver) : gmap str Resolver :=
  foldl (fun m r => <[ID (Info r) := r]> m) ∅ l.
(** Clearing the cache is started when the settings change. *)
Definition startLoad (g : DnsConfig) (s : RState) : RState :=
  let newResolverConfig := configuredNameServers g in
  let s := s <| missingResolvers := None |> in
  let s := if negb (bool_decide (currentResolverConfig s = [])) && negb (bool_decide (currentResolverConfig s = newResolverConfig))
           then s <| cacheClears ::= S |> else s in
  s <| isDisabled := bool_decide (newResolverConfig = []) |> <| currentResolverConfig := newResolverConfig |>.
Definition finishLoad (newResolvers : list Resolver) (s : RState) : RState :=
  let s := setScopedResolvers newResolvers (s <| globalResolvers := newResolvers |>) in
  let s := s <| activeResolvers := activeMap (newResolvers ++ [mDNSResolver; envResolver]) |> in
  if allConfiguredResolversAreFailing s then s else resetFailingResolversNotification s.
Definition loadResolvers (g : DnsConfig) : R unit :=
  modR (startLoad g) ;;
  configured ← getConfiguredResolvers (configuredNameServers g);
  system ← getSystemResolvers;
  newResolvers ←
    (match configured ++ system with
     | [] =>
         l ← getConfiguredResolvers defaultNameServers;
         modR (fun s => s <| missingResolvers := Some (bool_decide (l = [])) |>) ;; mret l
     | l => mret l
     end);
  modR (finishLoad newResolvers).
Definition getActiveResolverByID (server : str) (s : RState) : option Resolver := activeResolvers s !! server.
(** A nil IP is the empty slice. *)
Definition IsResolverAddress (ip : IP) (port : Z) (s : RState) : bool :=
  existsb (fun r => (port =? RPort (Info r)) && IPEqual (default [] (RIP (Info r))) ip) (globalResolvers s).
End setup.
