(* ===== verification/RRCache.v ===== *)
(** * DNS responses (service/resolver/rrcache.go, block-detection.go)

    A response is held as an [RRCache], and kept in the cache database as a name record
    with its resource records as text.  Records and their text are those of the package
    [github.com/miekg/dns]. *)

From S2P Require Import Prelude GoStrings GoText GoNet NetUtils NameRecords Resolvers ResolverSetup.

(** ** Resource records *)
(** The types of records the code looks into: [https] tells HTTPS from SVCB; hints are
    the addresses of the parameters in order. *)
Inductive RData :=
| DataA (ip : IP) | DataAAAA (ip : IP) | DataCNAME (target : str) | DataPTR (name : str)
| DataSVCB (https : bool) (target : str) (hints : list IP) | DataOther (text : str).
#[export] Instance RData_eq_dec : EqDecision RData.
Proof. solve_decision. Defined.
Record RR := mkRR { RRName : str; Rrtype : Z; RRClass : Z; Ttl : Z; Data : RData }.
#[export] Instance RR_eq_dec : EqDecision RR.
Proof. solve_decision. Defined.
#[export] Instance eta_RR : Eta RR := fun r => mkRR (RRName r) (Rrtype r) (RRClass r) (Ttl r) (Data r).
Definition TypeNULL : Z := 10.
Definition TypeOPT : Z := 41.
Definition ClassINET : Z := 1.
Definition RcodeSuccess : Z := 0.
Definition RcodeServerFailure : Z := 2.
Definition RcodeNameError : Z := 3.
Definition RcodeRefused : Z := 5.

(** [String] and [NewRR], which gives nil for text without a record. *)
Class RRText := { RRString : RR -> str; NewRR : str -> outcome str (option RR) }.

(** ** Responses *)
Record RRCache := mkRRCache {
  CDomain : str; CQuestion : Z; CRCode : Z;
  CAnswer : list RR; CNs : list RR; CExtra : list RR; CExpires : Z;
  CResolver : option ResolverInfo;
  ServedFromCache : bool; RequestingNew : bool; IsBackup : bool;
  Filtered : bool; FilteredEntries : list str;

}.
#[export] Instance eta_RRCache : Eta RRCache := fun c =>
  mkRRCache (CDomain c) (CQuestion c) (CRCode c) (CAnswer c) (CNs c) (CExtra c) (CExpires c) (CResolver c)
    (ServedFromCache c) (RequestingNew c) (IsBackup c) (Filtered c) (FilteredEntries c).
(** A response that was just received. *)
Definition freshCache (domain : str) (question rcode : Z) (answer ns extra : list RR) (resolver : ResolverInfo) : RRCache :=
  mkRRCache domain question rcode answer ns extra 0 (Some resolver) false false false false [].

Definition minTTL : Z := 60.
Definition refreshTTL : Z := minTTL / 2.
Definition minMDnsTTL : Z := 60.
Definition maxTTL : Z := 24 * 60 * 60.

Definition Expired (now : Z) (c : RRCache) : bool := CExpires c <=? now.
Definition ExpiresSoon (now : Z) (c : RRCache) : bool := CExpires c <=? now + refreshTTL.
Definition rcodeIsCacheable (rCode : Z) : bool :=
  (rCode =? RcodeSuccess) || (rCode =? RcodeNameError) || (rCode =? RcodeRefused).
Definition Cacheable (c : RRCache) : bool := rcodeIsCacheable (CRCode c).
Definition setTTL (rr : RR) : RR := rr <| Ttl := 17 |>.

Section rrcache.
Context {RE : ResolverEnv} {RT : RRText}.

(** [now], [online]: the time and whether the device is online. *)
Definition Clean (minExpires now : Z) (online : bool) (c : RRCache) : RRCache :=
  let lowestTTL :=
    foldl (fun lowest rr => if Ttl rr <? lowest then Ttl rr else lowest) 4294967295 (CAnswer c ++ CNs c ++ CExtra c) in
  let c := c <| CAnswer ::= map setTTL |> <| CNs ::= map setTTL |> <| CExtra ::= map setTTL |> in
  let lowestTTL := if lowestTTL <? minExpires then minExpires else if maxTTL <? lowestTTL then maxTTL else lowestTTL in
  let lowestTTL :=
    if negb (CRCode c =? RcodeSuccess) then 10
    else if connectivityDomain (CDomain c) then 3
    else if bool_decide (CAnswer c = []) then 60
    else if negb online then 60
    else lowestTTL in
  c <| CExpires := now + lowestTTL |>.
Definition ExportAllARecords (c : RRCache) : list IP :=
  omap (fun rr =>
    if negb (RRClass rr =? ClassINET) then None
    else if Rrtype rr =? TypeA then match Data rr with DataA ip => Some ip | _ => None end
    else if Rrtype rr =? TypeAAAA then match Data rr with DataAAAA ip => Some ip | _ => None end
    else None) (CAnswer c).
Definition ReplaceAnswerNames (fqdn : str) (c : RRCache) : RRCache :=
  c <| CAnswer ::= map (fun rr => if eqs (RRName rr) (CDomain c) then rr <| RRName := fqdn |> else rr) |>.
Definition cacheFlags (c : RRCache) : str :=
  match (if ServedFromCache c then $"C" else []) ++ (if RequestingNew c then $"R" else []) ++
        (if IsBackup c then $"B" else []) ++ (if Filtered c then $"F" else []) with
  | [] => []
  | s => $" [" ++ s ++ $"]"
  end.

(** ** Persistence *)
Definition toNameRecordSection (rrSection : list RR) : list str :=
  omap (fun rr => if (Rrtype rr =? TypeOPT) || (Rrtype rr =? TypeNULL) then None else Some (RRString rr)) rrSection.
Definition ToNameRecord (c : RRCache) : NameRecord :=
  mkNameRecord (CDomain c) (TypeString (CQuestion c)) (CRCode c)
    (toNameRecordSection (CAnswer c)) (toNameRecordSection (CNs c)) (toNameRecordSection (CExtra c))
    (CExpires c) (CResolver c).
Definition parseRR (section : list RR) (entry : str) : list RR :=
  match NewRR entry with Ret (Some rr) => section ++ [rr] | _ => section end.
(** The response of a name record; when it was modified is left out. *)
Definition fromNameRecord (domain : str) (question : Z) (n : NameRecord) : RRCache :=
  mkRRCache domain question (RCode n) (foldl parseRR [] (Answer n)) (foldl parseRR [] (Ns n)) (foldl parseRR [] (Extra n))
    (NRExpires n) (NameRecords.Resolver n) true false false false [].

(** ** Blocking by the upstream server (block-detection.go) *)
Definition addressData (d : RData) : option IP := match d with DataA ip | DataAAAA ip => Some ip | _ => None end.
Definition IPv4zero : IP := v4InV6Prefix ++ [0; 0; 0; 0].
(** [To16] gives nil for a malformed address. *)
Definition isZeroIP (ip : IP) : bool :=
  match To4 ip with
  | Some _ => IPEqual ip IPv4zero
  | None => IPEqual (default [] (To16 ip)) IPv6zero
  end.
Definition isBlockedUpstream (r : Resolver) (rcode : Z) (answer ns extra : list RR) : bool :=
  let mode := UpstreamBlockDetection r in
  if eqs mode BlockDetectionDisabled then false
  else if eqs mode BlockDetectionRefused then rcode =? RcodeRefused
  else if eqs mode BlockDetectionZeroIP then
    if negb (rcode =? RcodeSuccess) then false else
    let ips := omap (fun rr => addressData (Data rr)) answer in
    negb (bool_decide (ips = [])) && forallb isZeroIP ips
  else if eqs mode BlockDetectionEmptyAnswer then
    (rcode =? RcodeNameError) && bool_decide (ns = []) && bool_decide (answer = []) && bool_decide (extra = [])
  else false.
End rrcache.
