(* ===== verification/Resolve.v ===== *)
(** * Resolving queries (service/resolver/resolve.go, failing.go, resolver-env.go)

    [Resolve] looks into the cache, waits for equal queries that are being resolved, and
    asks the resolvers in scope one after the other.  What happens meanwhile (time,
    online status, shutdown, answers of servers) is the class [Timeline]; a name record
    store is the class [NameDB], which [NameStore] implements with the database
    interface of [NameRecords]. *)

From S2P Require Import Prelude GoStrings GoText GoNet NetUtils NameRecords Resolvers ResolverSetup RRCache.

(** ** Interfaces *)
(** Records by domain and question; errors of saving and resetting are logged. *)
Class NameDB (S : Type) := {
  dbGet : str -> str -> S -> option NameRecord * S;
  dbSave : NameRecord -> S -> S;
  dbReset : str -> str -> S -> S;
}.
(** What a store promises: it behaves as the map [m] of the records that were saved. *)
Class NameDBSpec (S : Type) `{NameDB S} (holds : S -> gmap str NameRecord -> Prop) := {
  dbGet_spec s m d q : holds s m ->
    holds (dbGet d q s).2 m /\
    (dbGet d q s).1 = (m !! makeNameRecordKey d q) ≫= fun n => if NRIsValid n then Some n else None;
  dbSave_spec s m n : holds s m -> NRDomain n <> [] -> Question n <> [] ->
    holds (dbSave n s) (<[makeNameRecordKey (NRDomain n) (Question n) := n]> m);
}.

(** What is observed at a time; [time] in nanoseconds. *)
Record Obs := mkObs { time : Z; online : bool; offline : bool; shuttingDown : bool }.
Class Timeline := {
  obs : nat -> Obs;
  (** The answer of a server to a query that is sent at that time; [None]: nil. *)
  answer : nat -> Resolver -> Query -> option RRCache + DnsErr;
  (** Addresses [netenv] knows, and the answers of the compatibility self-check. *)
  captivePortalIP : IP; gateways : list IP; dnsCheck : str -> option IP;
}.
Definition DNSTestDomain : str := $"online-check.safing.io.".
Definition second : Z := 1000000000.
Definition Unix (t : Z) : Z := t / second.

(** ** Failing resolvers (failing.go) *)
Definition FailThreshold : Z := 5.
Definition FailObserveDuration : Z := FailThreshold * 10 * second.

Section resolve.
Context {UT : UnicodeTables} {RE : ResolverEnv} {RT : RRText} {TL : Timeline} {S : Type} {DB : NameDB S}.

Record World := mkWorld {
  rst : RState;
  connectedToDNS : bool;
  names : S;
  cacheResetID : str; cacheResetSeenCnt : Z;
  (** Queries for which refreshing was started, and what was sent to servers. *)
  asyncQueries : list Query;
  sent : list (Resolver * Query);
}.
#[export] Instance eta_World : Eta World := fun w =>
  mkWorld (rst w) (connectedToDNS w) (names w) (cacheResetID w) (cacheResetSeenCnt w) (asyncQueries w) (sent w).

Definition failing_ (w : World) (r : Resolver) : bool := IsFailing (rst w) r.
Definition setConn (l : nat) (c : ConnState) (w : World) : World := w <| rst ::= fun s => s <| connStates ::= <[l := c]> |> |>.
(** A first failure, and one after the observation period, starts a new period. *)
Definition ReportFailure (o : Obs) (r : Resolver) (w : World) : World :=
  match connOf r with
  | None => w
  | Some l =>
      match connStates (rst w) !! l with
      | None => w
      | Some c =>
          if negb (online o) || failing c then w else
          if match failingStarted c with None => true | Some t => FailObserveDuration <? time o - t end
          then setConn l (c <| fails := 1 |> <| failingStarted := Some (time o) |>) w
          else
            let c := c <| fails ::= fun n => n + 1 |> in
            let c := if FailThreshold <? fails c then c <| failing := true |> else c in
            let w := setConn l c w in
            if eqs (RSource (Info r)) ServerSourceConfigured then w <| connectedToDNS := false |> else w
      end
  end.
Definition ResetFailure (r : Resolver) (w : World) : World :=
  match connOf r with
  | None => w
  | Some l =>
      match connStates (rst w) !! l with
      | None => w
      | Some c =>
          let w := if failing c then setConn l newConnState w else w in
          if eqs (RSource (Info r)) ServerSourceConfigured then w <| connectedToDNS := true |> else w
      end
  end.

(** ** The environment resolver (resolver-env.go) *)
Definition TypeSOA : Z := 6.
Definition TypeTXT : Z := 16.
Definition routerDomain : str := $"router.local." ++ InternalSpecialUseDomain.
Definition captivePortalDomain : str := $"captiveportal.local." ++ InternalSpecialUseDomain.
Definition dnsCheckScope : str := $".self-check." ++ InternalSpecialUseDomain.
Definition internalSpecialUseSOA : RR :=
  mkRR InternalSpecialUseDomain TypeSOA ClassINET 17 (DataOther $"localhost. none.localhost. 0 0 0 0 0").
Definition internalSpecialUseComment : RR :=
  mkRR InternalSpecialUseDomain TypeTXT ClassINET 17 (DataOther $"This is a special use TLD of the Portmaster.").
(** [netutils.IPsToRRs]; [None]: an error.  The text always holds a record. *)
Definition IPsToRRs (domain : str) (ips : list IP) : option (list RR) :=
  mapM (fun ip =>
    match NewRR (domain ++ (match To4 ip with Some _ => $" 17 IN A " | None => $" 17 IN AAAA " end) ++ IPString ip) with
    | Ret (Some rr) => Some rr
    | _ => None
    end) ips.
Definition makeRRCache (q : Query) (answers : list RR) : RRCache :=
  freshCache (FQDN q) (QType q) (if bool_decide (answers = []) then RcodeNameError else RcodeSuccess)
    answers [] [internalSpecialUseComment] (Info envResolver).
Definition nxDomain (q : Query) : RRCache := makeRRCache q [].
Definition makeAnswer (q : Query) (ips : list IP) : RRCache :=
  match IPsToRRs (FQDN q) ips with Some records => makeRRCache q records | None => nxDomain q end.
Definition envNoMatch (q : Query) : RRCache := (nxDomain q) <| CNs := [internalSpecialUseSOA] |>.
Definition envQuery (q : Query) : RRCache :=
  if (QType q =? TypeA) || (QType q =? TypeAAAA) then
    if eqs (FQDN q) captivePortalDomain then makeAnswer q [captivePortalIP]
    else if eqs (FQDN q) routerDomain then
      match gateways with [] => nxDomain q | routers => makeAnswer q routers end
    else if HasSuffix (FQDN q) dnsCheckScope then
      match dnsCheck (TrimSuffix (FQDN q) dnsCheckScope) with
      | Some respondWith => if QType q =? TypeA then makeAnswer q [respondWith] else envNoMatch q
      | None => envNoMatch q
      end
    else envNoMatch q
  else if QType q =? TypeSOA then
    if eqs (FQDN q) InternalSpecialUseDomain then makeRRCache q [internalSpecialUseSOA] else envNoMatch q
  else envNoMatch q.
(** [Conn.Query]; the environment resolver turns caching off in the query. *)
Definition queryConn (i : nat) (r : Resolver) (q : Query) : (option RRCache + DnsErr) * Query :=
  match Conn r with
  | EnvResolverConn => (inl (Some (envQuery q)), q <| NoCaching := true |>)
  | _ => (answer i r q, q)
  end.

(** ** Asking the resolvers *)
Definition onlineCheckDomain (q : Query) : bool := eqs (FQDN q) DNSTestDomain || connectivityDomain (FQDN q).
(** What an attempt leads to: the next resolver, an early return, or the end of the loop. *)
Inductive next := Continue (rr : option RRCache) (err : option DnsErr) | Return (rr : option RRCache) (err : DnsErr) | Break (rr : RRCache).
Record Asked := mkAsked { aworld : World; aquery : Query; failureReported : bool }.
#[export] Instance eta_Asked : Eta Asked := fun a => mkAsked (aworld a) (aquery a) (failureReported a).

Definition reportFailing (i : nat) (r : Resolver) (a : Asked) : Asked :=
  a <| aworld ::= ReportFailure (obs i) r |> <| failureReported := true |>.
(** Success resets the failures, and the notification when some configured server works. *)
Definition reportSuccess (primarySource : str) (r : Resolver) (a : Asked) : Asked :=
  let w := ResetFailure r (aworld a) in
  a <| aworld :=
    if eqs primarySource ServerSourceConfigured && negb (allConfiguredResolversAreFailing (rst w))
    then w <| rst ::= resetFailingResolversNotification |> else w |>.
Definition askResolver (i : nat) (oldCache : option RRCache) (primarySource : str) (tryAll : bool) (r : Resolver) (a : Asked)
    : next * Asked :=
  let q := aquery a in
  let '(reply, q') := queryConn i r q in
  let a := a <| aworld ::= fun w => w <| sent ::= fun l => l ++ [(r, q)] |> |> <| aquery := q' |> in
  match reply with
  | inr e =>
      if errorsIs e ErrNotFound then if tryAll then (Continue None (Some e), a) else (Return None e, a)
      else if errorsIs e ErrBlocked then (Return None e, a)
      else if offline (obs i) && negb (onlineCheckDomain q) then (Return oldCache (errOf ErrOffline), a)
      else if errorsIs e ErrContinue then (Continue None (Some e), a)
      else if errorsIs e ErrTimeout then (Continue None (Some e), reportFailing i r a)
      else if errorsIs e ContextCanceled || errorsIs e ContextDeadlineExceeded || errorsIs e ErrShuttingDown
      then (Return None e, a)
      else (Continue None (Some e), reportFailing i r a)
  | inl None => (Continue None None, a)
  | inl (Some rr) =>
      if negb (CRCode rr =? RcodeSuccess) && tryAll then (Continue (Some rr) None, a)
      else (Break rr, reportSuccess primarySource r a)
  end.
(** The resolvers from the [i]-th on; [rr], [err]: what the last attempt left. *)
Fixpoint askResolvers (i : nat) (oldCache : option RRCache) (primarySource : str) (tryAll : bool) (l : list Resolver)
    (rr : option RRCache) (err : option DnsErr) (a : Asked) : next * Asked :=
  match l with
  | [] => (Continue rr err, a)
  | r :: l =>
      if shuttingDown (obs i) then (Return None (errOf ErrShuttingDown), a)
      else if failing_ (aworld a) r || LinkLocalUnavailable r
      then askResolvers (i + 1) oldCache primarySource tryAll l rr err a
      else
        match askResolver i oldCache primarySource tryAll r a with
        | (Continue rr err, a) => askResolvers (i + 1) oldCache primarySource tryAll l rr err a
        | res => res
        end
  end.
Definition saveRRCache (rr : RRCache) (w : World) : World :=
  if Cacheable rr then w <| names ::= dbSave (ToNameRecord rr) |> else w.
(** A response is cleaned and cached. *)
Definition finishQuery (i : nat) (rr : RRCache) (a : Asked) : option RRCache * option DnsErr * Asked :=
  let rr := Clean minTTL (Unix (time (obs i))) (online (obs i)) rr in
  (Some rr, None,
   if negb (NoCaching (aquery a)) && Cacheable rr then a <| aworld ::= saveRRCache rr |> else a).
Definition failQuery (n : nat) (oldCache : option RRCache) (err : DnsErr) (a : Asked) : option RRCache * option DnsErr * Asked :=
  match oldCache with
  | Some old => (Some (old <| IsBackup := true |>), None, a)
  | None => (None, Some (mkErr (Wraps err) ($"all " ++ Itoa (Z.of_nat n) ++ $" query-compliant resolvers failed, last error: " ++ ErrText err)), a)
  end.
(** [deferred]: reports when all configured resolvers are failing. *)
Definition reportAllFailing (i : nat) (primarySource : str) (a : Asked) : World :=
  let w := aworld a in
  if failureReported a && online (obs i) && eqs primarySource ServerSourceConfigured && allConfiguredResolversAreFailing (rst w)
  then w <| rst ::= notifyAboutFailingResolvers |> else w.
Definition resolveAndCache (g : DnsConfig) (q : Query) (oldCache : option RRCache) (w : World)
    : option RRCache * option DnsErr * World :=
  let '(resolvers, primarySource, tryAll) := GetResolversInScope g (rst w) q in
  if bool_decide (resolvers = []) then (None, Some (errOf ErrNoCompliance), w)
  else if offline (obs 0) && negb (eqs primarySource ServerSourceEnv) && negb (onlineCheckDomain q)
  then (oldCache, Some (errOf ErrOffline), w)
  else
    let n := length resolvers in
    let '(res, a) := askResolvers 1 oldCache primarySource tryAll resolvers None None (mkAsked w q false) in
    let '(rr, err, a) :=
      match res with
      | Return rr err => (rr, Some err, a)
      | Break rr | Continue (Some rr) None => finishQuery (n + 1) rr a
      | Continue _ (Some err) => failQuery n oldCache err a
      | Continue None None => failQuery n oldCache (errOf ErrNotFound) a
      end in
    (rr, err, reportAllFailing (n + 2) primarySource a).

(** ** The cache *)
Definition GetRRCache (domain : str) (question : Z) (w : World) : option RRCache * World :=
  let '(n, s) := dbGet domain (TypeString question) (names w) in
  (fromNameRecord domain question <$> n, w <| names := s |>).
Definition startAsyncQuery (q : Query) (rr : RRCache) (w : World) : RRCache * World :=
  if RequestingNew rr then (rr, w)
  else (rr <| RequestingNew := true |>, w <| asyncQueries ::= fun l => l ++ [q] |>).
Definition shouldResetCache (q : Query) (w : World) : bool * World :=
  if negb (eqs (QID q) (cacheResetID w)) then (false, w <| cacheResetID := QID q |> <| cacheResetSeenCnt := 1 |>)
  else
    let n := cacheResetSeenCnt w + 1 in
    if 3 <=? n then (true, w <| cacheResetSeenCnt := -7 |>) else (false, w <| cacheResetSeenCnt := n |>).
(** A stored record has a resolver. *)
Definition checkCache (g : DnsConfig) (t : Z) (q : Query) (w : World) : option RRCache * World :=
  if connectivityDomain (FQDN q) then (None, w) else
  let '(rr, w) := GetRRCache (FQDN q) (QType q) w in
  match rr with
  | None => (None, w)
  | Some rr =>
      match CResolver rr ≫= fun info => getActiveResolverByID (ID info) (rst w) with
      | None => (None, w)
      | Some r =>
          if bool_decide (is_Some (resolverCompliance g q r)) then (None, w) else
          let '(reset, w) := shouldResetCache q w in
          if reset then (None, w <| names ::= dbReset (FQDN q) (TypeString (QType q)) |>)
          else if Expired (Unix t) rr then (if CRCode rr =? RcodeSuccess then Some rr else None, w)
          else if ExpiresSoon (Unix t) rr then let '(rr, w) := startAsyncQuery q rr w in (Some rr, w)
          else (Some rr, w)
      end
  end.

(** ** Resolve *)
(** [wait]: [None] if no equal query is being resolved, and else what others did to the
    world while one was waited for.  After waiting, the cache is looked into again. *)
Definition resolveAfterWait (g : DnsConfig) (t : Z) (wait : option (World -> World)) (q : Query) (rr : option RRCache) (w : World)
    : option RRCache * option DnsErr * World :=
  match wait with
  | None => resolveAndCache g q rr w
  | Some meanwhile =>
      let '(rr, w) := checkCache g t q (meanwhile w) in
      match rr with
      | Some c => if negb (Expired (Unix t) c) || useStaleCache g then (Some c, None, w) else resolveAndCache g q rr w
      | None => resolveAndCache g q None w
      end
  end.
(** [t1], [t2]: the times of the first and the second look into the cache. *)
Definition Resolve (g : DnsConfig) (t1 t2 : Z) (wait : option (World -> World)) (q : Query) (w : World) : option RRCache * option DnsErr * World :=
  match check q with
  | None => (None, Some (errOf ErrInvalid), w)
  | Some q =>
      match checkCompliance g q with
      | Some e => (None, Some (errOf e), w)
      | None =>
          if NoCaching q then resolveAndCache g q None w else
          let '(rr, w) := checkCache g t1 q w in
          match rr with
          | Some rr =>
              if negb (Expired (Unix t1) rr) then (Some rr, None, w)
              else if useStaleCache g then let '(rr, w) := startAsyncQuery q rr w in (Some rr, None, w)
              else resolveAfterWait g t2 wait q (Some rr) w
          | None => resolveAfterWait g t2 wait q None w
          end
      end
  end.
End resolve.
