(* ===== verification/ResolverProps.v ===== *)
(** * Theorems about resolvers and scopes

    Which resolvers a name is given to, how far up the hierarchy search domains reach,
    and that equal IDs leave the default fallback unused. *)

From S2P Require Import Prelude GoStrings GoText GoNet NetUtils GoNum NameRecords Resolvers ResolverSetup.

(** ** Facts about resolvers and scopes

    What adding resolvers keeps, what loading establishes, and how far up the hierarchy
    a search domain reaches. *)

(** ** Strings *)
Lemma lastIndexFrom_spec c s i : 0 <= i ->
  (c ∉ s /\ lastIndexFrom i s c = -1) \/
  exists a b, s = a ++ c :: b /\ c ∉ b /\ lastIndexFrom i s c = i + Z.of_nat (length a).
Proof.
  revert i. induction s as [|d s IH]; intros i Hi; [left; split; [set_solver|done]|]. simpl.
  destruct (IH (i + 1)) as [[Hn ->]|(a & b & -> & Hb & ->)]; [lia|..].
  - change (-1 <? 0) with true. case_bool_decide as E; cbv iota.
    + right. exists [], s. subst. split; [done|]. split; [done|]. simpl. lia.
    + left. split; [set_solver|done].
  - right. exists (d :: a), b. split; [done|]. split; [done|].
    rewrite (proj2 (Z.ltb_ge _ 0)) by lia. cbn [length]. lia.
Qed.
(** What comes after the last separator. *)
Lemma LastIndex_split c s : exists a b, s = a ++ b /\ c ∉ b /\ (a = [] \/ exists a', a = a' ++ [c]) /\
  1 + LastIndex s c = Z.of_nat (length a).
Proof.
  unfold LastIndex. destruct (lastIndexFrom_spec c s 0) as [[Hn ->]|(a & b & -> & Hb & ->)]; [lia|..].
  - exists [], s. split; [done|]. split; [done|]. split; [by left|]. simpl. lia.
  - exists (a ++ [c]), b. rewrite <- app_assoc. split; [done|]. split; [done|]. split; [by right; exists a|].
    rewrite length_app. simpl. lia.
Qed.
Lemma Contains_elem c s : Contains s [c] = true <-> c ∈ s.
Proof.
  rewrite Contains_spec. split.
  - intros (l & r & ->). set_solver.
  - intros (l & r & ->)%list_elem_of_split. by exists l, r.
Qed.

Section facts.
Context {UT : UnicodeTables} {RE : ResolverEnv}.

(** ** Adding resolvers *)
Definition ids (l : list Resolver) : list str := (fun r => ID (Info r)) <$> l.
Lemma addResolver_elem g s q sel x r : r ∈ addResolver g s q sel x ->
  r ∈ sel \/ (r = x /\ resolverCompliance g q x = None).
Proof.
  unfold addResolver. destruct (resolverCompliance g q x) eqn:E; [by left|]. repeat case_match; try (by left).
  rewrite elem_of_app, list_elem_of_singleton. naive_solver.
Qed.
Lemma addResolvers_elem g s q sel l r : r ∈ addResolvers g s q sel l ->
  r ∈ sel \/ (r ∈ l /\ resolverCompliance g q r = None).
Proof.
  unfold addResolvers. revert sel. induction l as [|x l IH]; intros sel; simpl; [by left|].
  intros [Hr|[Hr Hc]]%IH; [|right; split; [by right|done]].
  apply addResolver_elem in Hr as [Hr|[-> Hc]]; [by left|right; split; [by left|done]].
Qed.
Lemma addResolver_nodup g s q sel x : NoDup (ids sel) -> NoDup (ids (addResolver g s q sel x)).
Proof.
  intros Hn. unfold addResolver. destruct (resolverCompliance g q x); [done|].
  destruct (existsb _ sel) eqn:E; [done|]. case_match; [done|].
  unfold ids. rewrite fmap_app. apply NoDup_app. split; [done|]. split; [|apply NoDup_singleton].
  intros i Hi Hx. apply list_elem_of_singleton in Hx. subst i. apply list_elem_of_fmap in Hi as (y & Hy & Hin).
  apply not_true_iff_false in E. apply E, existsb_exists. exists y. split; [by apply list_elem_of_In|].
  unfold eqs. by apply bool_decide_true.
Qed.
Lemma addResolvers_nodup g s q sel l : NoDup (ids sel) -> NoDup (ids (addResolvers g s q sel l)).
Proof.
  unfold addResolvers. revert sel. induction l as [|x l IH]; intros sel Hn; [done|]. apply IH. by apply addResolver_nodup.
Qed.
(** A resolver whose ID is already there is not added. *)
Lemma addResolver_same_id g s q sel x y : y ∈ sel -> ID (Info y) = ID (Info x) -> addResolver g s q sel x = sel.
Proof.
  intros Hy Hid. unfold addResolver. destruct (resolverCompliance g q x); [done|].
  assert (existsb (fun z => eqs (ID (Info z)) (ID (Info x))) sel = true) as ->; [|done].
  apply existsb_exists. exists y. split; [by apply list_elem_of_In|]. unfold eqs. by apply bool_decide_true.
Qed.

(** The resolvers of the scopes that match. *)
Definition scopeSelected (g : DnsConfig) (s : RState) (q : Query) (sel : list Resolver) (l : list ScopeR) : list Resolver :=
  foldl (fun selected sc =>
    if HasSuffix (dotPrefixedFQDN q) (ScopeDomain sc) then addResolvers g s q selected (ScopeResolvers sc) else selected) sel l.
Lemma scopeSelected_elem g s q sel l r : r ∈ scopeSelected g s q sel l ->
  r ∈ sel \/ exists sc, sc ∈ l /\ HasSuffix (dotPrefixedFQDN q) (ScopeDomain sc) = true /\ r ∈ ScopeResolvers sc /\
    resolverCompliance g q r = None.
Proof.
  unfold scopeSelected. revert sel. induction l as [|sc l IH]; intros sel; simpl; [by left|].
  intros [Hr|(sc' & ? & ?)]%IH; [|right; exists sc'; split; [by right|done]].
  destruct (HasSuffix _ _) eqn:E; [|by left]. apply addResolvers_elem in Hr as [Hr|[Hr Hc]]; [by left|].
  right. exists sc. split; [by left|done].
Qed.
Lemma scopeSelected_nodup g s q sel l : NoDup (ids sel) -> NoDup (ids (scopeSelected g s q sel l)).
Proof.
  unfold scopeSelected. revert sel. induction l as [|sc l IH]; intros sel Hn; [done|]. simpl. apply IH.
  case_match; [by apply addResolvers_nodup|done].
Qed.

(** ** The assignment of scopes *)
Definition covered (l : list Resolver) (scs : list ScopeR) : Prop :=
  forall sc r, sc ∈ scs -> r ∈ ScopeResolvers sc -> r ∈ l /\ ScopeDomain sc ∈ Search r /\ ScopeDomain sc <> $".".
Lemma covered_mono l l' scs : l ⊆ l' -> covered l scs -> covered l' scs.
Proof. intros Hl Hc sc r Hsc Hr. destruct (Hc sc r Hsc Hr) as (? & ? & ?). auto. Qed.
Lemma addSearch_covered l r scs search : r ∈ l -> search ∈ Search r -> covered l scs -> covered l (addSearch r scs search).
Proof.
  intros Hr Hs Hc. unfold addSearch. destruct (eqs search $".") eqn:E; [done|]. apply bool_decide_eq_false in E.
  unfold indexOfScope. destruct (list_find _ scs) as [[k sc0]|] eqn:Ef; simpl.
  - apply list_find_Some in Ef as (Hk & Hd & _). intros sc x Hsc Hx.
    apply list_elem_of_lookup in Hsc as [i Hi]. rewrite list_lookup_alter in Hi. case_decide as Eik.
    + subst k. rewrite Hk in Hi. simpl in Hi. apply (inj Some) in Hi as <-. simpl in *.
      apply elem_of_app in Hx as [Hx|Hx%list_elem_of_singleton]; [|by subst].
      apply (Hc sc0); [|done]. by eapply list_elem_of_lookup_2.
    + apply (Hc sc); [by eapply list_elem_of_lookup_2|done].
  - intros sc x [Hsc|Hsc%list_elem_of_singleton]%elem_of_app Hx; [by apply (Hc sc)|].
    subst sc. simpl in *. apply list_elem_of_singleton in Hx as ->. done.
Qed.
Lemma addSearches_covered l r scs searches : r ∈ l -> searches ⊆ Search r -> covered l scs ->
  covered l (foldl (addSearch r) scs searches).
Proof.
  intros Hr. revert scs. induction searches as [|d ds IH]; intros scs Hs Hc; [done|]. simpl.
  apply IH; [set_solver|]. apply addSearch_covered; [done|set_solver|done].
Qed.
Lemma scopes_covered l l' scs : l' ⊆ l -> covered l scs ->
  covered l (foldl (fun scs r => foldl (addSearch r) scs (Search r)) scs l').
Proof.
  revert scs. induction l' as [|r l' IH]; intros scs Hl Hc; [done|]. simpl. apply IH; [set_solver|].
  apply addSearches_covered; [set_solver|done|done].
Qed.

Context (pdq : forall A less (l : list A), pdqsort A less l ≡ₚ l).
Lemma sortScopes_perm l : sortScopes l ≡ₚ l.
Proof using pdq. unfold sortScopes. case_match; [apply insertionSort_perm|apply pdq]. Qed.
(** What [setScopedResolvers] establishes; it does not depend on the connections. *)
Definition scoped (s : RState) : Prop :=
  localResolvers s = filter isLocalResolver (globalResolvers s) /\
  systemResolvers s = filter isSystemResolver (globalResolvers s) /\
  covered (globalResolvers s) (localScopes s).
Lemma setScopedResolvers_scoped l s : globalResolvers s = l -> scoped (setScopedResolvers l s).
Proof using pdq.
  intros <-. split; [done|]. split; [done|]. intros sc r Hsc Hr.
  change (localScopes (setScopedResolvers (globalResolvers s) s)) with
    (sortScopes (foldl (fun scs r => foldl (addSearch r) scs (Search r)) [] (globalResolvers s))) in Hsc.
  rewrite sortScopes_perm in Hsc. revert Hsc Hr. apply scopes_covered; [done|]. intros ?? H. by apply not_elem_of_nil in H.
Qed.
(** What loading sets, besides the notification. *)
Lemma finishLoad_fields l s (s' := finishLoad l s) :
  globalResolvers s' = l /\ localResolvers s' = filter isLocalResolver l /\ systemResolvers s' = filter isSystemResolver l /\
  localScopes s' = sortScopes (foldl (fun scs r => foldl (addSearch r) scs (Search r)) [] l) /\
  currentResolverConfig s' = currentResolverConfig s /\ connStates s' = connStates s.
Proof using. subst s'. unfold finishLoad, resetFailingResolversNotification. by repeat case_match. Qed.
Lemma finishLoad_scoped l s : scoped (finishLoad l s).
Proof using pdq.
  destruct (finishLoad_fields l s) as (H1 & H2 & H3 & H4 & _). split; [by rewrite H1|]. split; [by rewrite H1|].
  destruct (setScopedResolvers_scoped l (s <| globalResolvers := l |>)) as (_ & _ & H); [done|].
  rewrite H1, H4. exact H.
Qed.
Lemma bindR_inv {A B} (m : R A) (f : A -> R B) s b s' : (m ≫= f) s = (Ret b, s') ->
  exists a s1, m s = (Ret a, s1) /\ f a s1 = (Ret b, s').
Proof using. unfold mbind, R_bind. destruct (m s) as [[a| |] s1] eqn:E; [|done|done]. intros H. by exists a, s1. Qed.
(** A load that ends gives all resolvers to the assignment of scopes. *)
Lemma loadResolvers_inv g s0 s : loadResolvers g s0 = (Ret tt, s) ->
  scoped s /\ exists s1 configured s2 system s3, getConfiguredResolvers (configuredNameServers g) s1 = (Ret configured, s2) /\
    getSystemResolvers s2 = (Ret system, s3) /\
    (configured ++ system <> [] /\ globalResolvers s = configured ++ system \/
     configured ++ system = [] /\ exists s4, getConfiguredResolvers defaultNameServers s3 = (Ret (globalResolvers s), s4)).
Proof using pdq.
  unfold loadResolvers. intros H.
  apply bindR_inv in H as ([] & sb & _ & H).
  apply bindR_inv in H as (configured & sc & E1 & H). apply bindR_inv in H as (system & sd & E2 & H).
  apply bindR_inv in H as (all & se & E3 & H). injection H as <-.
  split; [apply finishLoad_scoped|].
  exists sb, configured, sc, system, sd. split; [done|]. split; [done|].
  rewrite (proj1 (finishLoad_fields all se)). destruct (configured ++ system) eqn:El.
  - right. split; [done|]. apply bindR_inv in E3 as (l & s4 & E4 & E5).
    apply bindR_inv in E5 as ([] & s5 & _ & E5). injection E5 as -> ->. by exists s4.
  - left. injection E3 as <- <-. done.
Qed.
End facts.

Section props.
Context {UT : UnicodeTables} {RE : ResolverEnv}.

(** ** Search domains *)
(** The public suffix of the augmented domain and the labels in front of it. *)
Definition augmented (name : str) : str := $"*.*.*.*.*." ++ name.
(** A domain that may be claimed: for special services, under an unmanaged top level
    domain, or with a label before its public suffix. *)
Definition mayClaim (name : str) : Prop :=
  domainInScope ($"." ++ name ++ $".") specialServiceDomains = true \/
  ((PublicSuffix (augmented name)).2 = false /\ Contains (PublicSuffix (augmented name)).1 $"." = false) \/
  exists pre label, name = pre ++ label ++ $"." ++ (PublicSuffix (augmented name)).1 /\
    (pre = [] \/ exists p, pre = p ++ $".") /\ "."%char ∉ label.
Definition claimable (d : str) : Prop := exists name, d = $"." ++ name ++ $"." /\ mayClaim name.
Definition goodSearch (r : Resolver) : Prop := Z.of_nat (length (Search r)) <= maxSearchDomains /\ Forall claimable (Search r).

Context (suffix_law : forall d s icann, PublicSuffix d = (s, icann) -> s = d \/ exists p, d = p ++ $"." ++ s).

Lemma star_free_tail (a b name : str) : a ++ b = augmented name -> "*"%char ∉ b -> (a = [] \/ exists a', a = a' ++ $".") ->
  exists pre, name = pre ++ b /\ (pre = [] \/ exists p, pre = p ++ $".").
Proof.
  unfold augmented. cbn [String.list_ascii_of_string app]. intros H Hb Ha.
  do 9 (destruct a as [|? a]; [simpl in H; exfalso; apply Hb; rewrite H, !elem_of_cons; first [left; reflexivity|right; left; reflexivity]|simpl in H; injection H as -> H]).
  destruct a as [|? a].
  - destruct Ha as [|[a' Ha]]; [done|]. assert (last [("*"%char); "."%char; "*"%char; "."%char; "*"%char; "."%char; "*"%char; "."%char; "*"%char] = Some "."%char) as Hl
      by (by rewrite Ha, last_snoc). done.
  - simpl in H. injection H as -> H. exists a. split; [done|]. destruct Ha as [|[a' Ha]]; [done|].
    destruct a as [|c a]; [by left|right]. destruct (exists_last (l := c :: a)) as (p & x & Hp); [done|]. exists p. rewrite Hp in Ha |- *.
    assert (last (a' ++ ["."%char]) = Some x) as Hx by (rewrite <- Ha; by rewrite !app_comm_cons, last_snoc).
    rewrite last_snoc in Hx. by injection Hx as <-.
Qed.
Lemma checkSearchScope_claim name : checkSearchScope name = Ret tt -> mayClaim name.
Proof using suffix_law.
  unfold checkSearchScope, mayClaim. fold (augmented name). remember (augmented name) as aug eqn:Haug. destruct (_ || _); [done|].
  destruct (domainInScope _ _); [by left|]. destruct (PublicSuffix aug) as [suffix icann] eqn:Es.
  case_bool_decide as Hne; [done|]. simpl. destruct (negb icann && _) eqn:Eu.
  { intros _. right; left. apply andb_true_iff in Eu as [H1%negb_true_iff H2%negb_true_iff]. done. }
  case_match eqn:Hlt; [done|]. apply Z.ltb_ge in Hlt.
  destruct (Contains (drop _ _) _) eqn:Ec; [done|]. intros _. right; right.
  destruct (suffix_law _ _ _ Es) as [->|[p Hp]]; [lia|].
  rewrite Hp in Hlt, Ec. rewrite !length_app in Hlt, Ec. simpl in Hlt, Ec.
  assert (Z.to_nat (Z.of_nat (length p + S (length suffix)) - Z.of_nat (length suffix) - 1) = length p) as Hs by lia.
  rewrite Hs, take_app_length in Ec. destruct (LastIndex_split "." p) as (a & label & -> & Hl & Ha & HL).
  rewrite HL, Nat2Z.id, <- app_assoc, drop_app_length in Ec.
  destruct (star_free_tail a (label ++ $"." ++ suffix) name) as (pre & -> & Hpre).
  - by rewrite <- Haug, Hp, <- app_assoc.
  - intros Hin. apply Contains_elem in Hin. exact (eq_true_false_abs _ Hin Ec).
  - done.
  - by exists pre, label.
Qed.
Lemma validSearches_ok searches hardfail l : validSearches searches hardfail = Ret l -> Forall claimable l.
Proof using suffix_law.
  revert l. induction searches as [|v searches IH]; simpl; intros l H; [injection H as <-; constructor|].
  destruct (checkSearchScope _) as [[]|e|] eqn:E; [|destruct hardfail; [done|by apply IH]|done].
  unfold mbind, outcome_bind in H. destruct (validSearches searches hardfail) as [rest| |]; [|done|done]. injection H as <-.
  constructor; [|by apply IH]. eexists. split; [done|]. by apply checkSearchScope_claim.
Qed.
Lemma configureSearchDomains_ok r searches hardfail r' : configureSearchDomains r searches hardfail = Ret r' -> goodSearch r'.
Proof using suffix_law.
  unfold configureSearchDomains, mbind, outcome_bind. destruct (validSearches _ _) as [l| |] eqn:E; [|done|done].
  apply validSearches_ok in E. case_match eqn:Hlen; [destruct hardfail; [done|]|]; intros H; injection H as <-; unfold goodSearch; simpl.
  - split; [rewrite length_take; unfold maxSearchDomains; lia|by apply Forall_take].
  - apply Z.ltb_ge in Hlen. done.
Qed.
(** A computation that fails gives no result. *)
Ltac noR H := cbv beta iota zeta delta [failR lift mret R_ret] in H; discriminate H.
Lemma checkAndSet_search u r r' s s' : checkAndSetResolverParamters u r s = (Ret r', s') -> Search r' = Search r.
Proof using.
  unfold checkAndSetResolverParamters. intros H.
  repeat (case_match; try (by noR H)); repeat (apply bindR_inv in H as (? & ? & ? & H));
    repeat (case_match; try (by noR H)); repeat (apply bindR_inv in H as (? & ? & ? & H));
    first [by noR H|injection H as <- <-; repeat case_match; reflexivity].
Qed.
Lemma createResolver_good url source s r s' : createResolver url source s = (Ret (Some r), s') -> goodSearch r.
Proof using suffix_law.
  unfold createResolver. intros H. apply bindR_inv in H as (u & s1 & _ & H).
  destruct (schemeType (Scheme u)); [|noR H]. apply bindR_inv in H as (r1 & s2 & E1 & H).
  apply checkAndSet_search in E1. simpl in E1.
  set (r2 := r1 <| UpstreamBlockDetection := _ |>) in H. case_match; [noR H|].
  set (r3 := match RIP (Info r2) with Some ip => _ | None => r2 end) in H.
  assert (Search r3 = []) as E3 by (unfold r3; destruct (RIP (Info r2)); exact E1). clearbody r3. clear r2 H0 E1.
  case_match; [noR H|]. apply bindR_inv in H as (r4 & s3 & E4 & H).
  assert (goodSearch r4) as Hg.
  { destruct (bool_decide (QGet u parameterSearch = [])); [injection E4 as <- <-; unfold goodSearch; rewrite E3; split; [done|constructor]|].
    unfold lift in E4. injection E4 as E4 _. by apply configureSearchDomains_ok in E4. }
  case_match; [noR H|]. case_match; [noR H|]. case_match; [noR H|].
  apply bindR_inv in H as (conn & s4 & _ & H). injection H as <- <-. unfold goodSearch in *. repeat case_match; exact Hg.
Qed.
Lemma tryResolver_inv m s r s' : tryResolver m s = (Ret (Some r), s') -> m s = (Ret (Some r), s').
Proof using. unfold tryResolver. destruct (m s) as [[| |]]; by try intros [= -> ->]. Qed.
Lemma collectR_inv {A} (f : A -> R (option Resolver)) (P : Resolver -> Prop) :
  (forall x s r s', f x s = (Ret (Some r), s') -> P r) ->
  forall l s rs s', collectR f l s = (Ret rs, s') -> Forall P rs.
Proof using.
  intros Hf. induction l as [|x l IH]; simpl; intros s rs s' H; [injection H as <- <-; constructor|].
  apply bindR_inv in H as (o & s1 & E1 & H). apply bindR_inv in H as (rs' & s2 & E2 & H). injection H as <- <-.
  apply Forall_app. split; [|by eapply IH]. destruct o as [r|]; simpl; [|constructor]. repeat constructor. by eapply Hf.
Qed.
Lemma configured_good l s rs s' : getConfiguredResolvers l s = (Ret rs, s') -> Forall goodSearch rs.
Proof using suffix_law. apply collectR_inv. intros x s1 r s2 H%tryResolver_inv. by eapply createResolver_good. Qed.
Lemma system_good s rs s' : getSystemResolvers s = (Ret rs, s') -> Forall goodSearch rs.
Proof using suffix_law.
  apply collectR_inv. intros [ip search] s1 r s2 H. unfold getSystemResolver in H. apply bindR_inv in H as (o & s3 & E & H).
  destruct o as [r0|]; [|noR H]. apply tryResolver_inv, createResolver_good in E.
  case_match; [|by injection H as <- <-]. destruct (configureSearchDomains r0 _ false) eqn:Ec; [|by injection H as <- <-|noR H].
  injection H as <- <-. by eapply configureSearchDomains_ok.
Qed.

Context (pdq : forall A less (l : list A), pdqsort A less l ≡ₚ l).
Lemma loaded_good g s0 s r : loadResolvers g s0 = (Ret tt, s) -> r ∈ globalResolvers s -> goodSearch r.
Proof using suffix_law pdq.
  intros H Hr. apply loadResolvers_inv in H as [_ (s1 & configured & s2 & system & s3 & E1 & E2 & Hg)]; [|done].
  revert r Hr. apply Forall_forall. destruct Hg as [[_ ->]|[_ [s4 E4]]].
  - apply Forall_app. split; [by eapply configured_good|by eapply system_good].
  - by eapply configured_good.
Qed.
End props.

(** C35. However resolvers are configured or assigned by the network: a resolver claims at
    most a hundred search domains, and each is or is below one of the listed domains for
    special services (such as onion, whatever the list of public suffixes says of it), or
    is under a top level domain nobody manages, or has a label before its public suffix:
    but for the listed domains, no suffix of the official part of that list is claimed. *)
Theorem search_domains_bounded `{UnicodeTables} `{RE : ResolverEnv} g s0 s r :
  (forall d s icann, PublicSuffix d = (s, icann) -> s = d \/ exists p, d = p ++ $"." ++ s) ->
  (forall A less (l : list A), pdqsort A less l ≡ₚ l) ->
  loadResolvers g s0 = (Ret tt, s) -> r ∈ globalResolvers s ->
  Z.of_nat (length (Search r)) <= maxSearchDomains /\
  forall d, d ∈ Search r -> exists name, d = $"." ++ name ++ $"." /\ mayClaim name.
Proof.
  intros Hsuf Hsort Hload Hr. destruct (loaded_good Hsuf Hsort g s0 s r Hload Hr) as [H1 H2].
  split; [done|]. by apply Forall_forall.
Qed.

(** ** Which resolvers are asked *)
Definition special (q : Query) : bool :=
  domainInScope (dotPrefixedFQDN q) multicastDomains || domainInScope (dotPrefixedFQDN q) specialUseDomains ||
  domainInScope (dotPrefixedFQDN q) specialServiceDomains.
(** A search domain of the resolver covers the query. *)
Definition claims (r : Resolver) (q : Query) : Prop := exists d, d ∈ Search r /\ d <> $"." /\ HasSuffix (dotPrefixedFQDN q) d = true.

(** C31. Names stay in their scope: an internal name is only given to the environment;
    any other query only to resolvers that comply with the settings, each ID once, that
    are loaded or mDNS; a name of a local, special or unofficial domain, unless it is a
    connectivity check, only to resolvers that claim it as a search domain, to resolvers
    in the local network, and for mDNS names to mDNS and assigned resolvers: never to
    one on the Internet that does not claim it. *)
Theorem names_stay_in_scope `{UnicodeTables} `{RE : ResolverEnv} g0 s0 s cs g q l src tryAll :
  (forall A less (l : list A), pdqsort A less l ≡ₚ l) ->
  loadResolvers g0 s0 = (Ret tt, s) ->
  GetResolversInScope g (s <| connStates := cs |>) q = (l, src, tryAll) ->
  if domainInScope (dotPrefixedFQDN q) internalSpecialUseDomains then l = [envResolver] else
  NoDup ((fun r => ID (Info r)) <$> l) /\
  forall r, r ∈ l -> resolverCompliance g q r = None /\
    (r ∈ globalResolvers s \/ r = mDNSResolver /\ domainInScope (dotPrefixedFQDN q) multicastDomains = true) /\
    (special q = true -> connectivityDomain (FQDN q) = false \/ systemResolvers s = [] ->
     claims r q \/ isLocalResolver r = true \/
     (domainInScope (dotPrefixedFQDN q) multicastDomains = true /\ (r = mDNSResolver \/ isSystemResolver r = true))).
Proof.
  intros Hsort Hload. apply loadResolvers_inv in Hload as [(Hloc & Hsys & Hcov) _]; [|done].
  set (s' := s <| connStates := cs |>). unfold GetResolversInScope, special. cbv zeta.
  change (localResolvers s') with (localResolvers s). change (systemResolvers s') with (systemResolvers s).
  change (globalResolvers s') with (globalResolvers s). change (localScopes s') with (localScopes s).
  fold (scopeSelected g s' q [] (localScopes s)).
  destruct (domainInScope _ internalSpecialUseDomains); [by intros [= <- _ _]|].
  assert (NoDup (ids [])) as Hn0 by constructor.
  assert (forall r, r ∈ localResolvers s -> r ∈ globalResolvers s /\ isLocalResolver r = true) as HL.
  { intros r. rewrite Hloc, list_elem_of_filter. intros [?%Is_true_true ?]. done. }
  assert (forall r, r ∈ systemResolvers s -> r ∈ globalResolvers s /\ isSystemResolver r = true) as HS.
  { intros r. rewrite Hsys, list_elem_of_filter. intros [?%Is_true_true ?]. done. }
  destruct (connectivityDomain (FQDN q) && _) eqn:Econn.
  { apply andb_true_iff in Econn as [Ec Es%negb_true_iff%bool_decide_eq_false]. intros [= <- _ _].
    assert (forall P : Prop, connectivityDomain (FQDN q) = false \/ systemResolvers s = [] -> P) as Hno by (intros P [?|?]; congruence).
    destruct (addResolvers g s' q [] (systemResolvers s)) as [|x sel] eqn:E.
    - split; [by repeat apply addResolvers_nodup|]. intros r [[Hr%not_elem_of_nil|[Hr Hc]]%addResolvers_elem|[Hr Hc]]%addResolvers_elem; [done| |].
      + split; [done|]. split; [left; by apply HL|intros _; by apply Hno].
      + split; [done|]. split; [by left|intros _; by apply Hno].
    - rewrite <- E. split; [by apply addResolvers_nodup|].
      intros r [Hr%not_elem_of_nil|[Hr Hc]]%addResolvers_elem; [done|]. split; [done|]. split; [left; by apply HS|intros _; by apply Hno]. }
  assert (forall r, r ∈ scopeSelected g s' q [] (localScopes s) ->
    resolverCompliance g q r = None /\ r ∈ globalResolvers s /\ claims r q) as Hsel.
  { intros r [Hr%not_elem_of_nil|(sc & Hsc & Hsuf & Hr & Hc)]%scopeSelected_elem; [done|].
    destruct (Hcov sc r Hsc Hr) as (? & ? & ?). split; [done|]. split; [done|]. by exists (ScopeDomain sc). }
  assert (NoDup (ids (scopeSelected g s' q [] (localScopes s)))) as Hn by (by apply scopeSelected_nodup).
  destruct (domainInScope _ multicastDomains) eqn:Em.
  { intros [= <- _ _]. split; [by do 2 apply addResolvers_nodup; apply addResolver_nodup|].
    intros r [[[Hr|[-> Hc]]%addResolver_elem|[Hr Hc]]%addResolvers_elem|[Hr Hc]]%addResolvers_elem.
    - destruct (Hsel r Hr) as (? & ? & ?). auto.
    - auto 10.
    - destruct (HL r Hr). auto.
    - destruct (HS r Hr). auto 10. }
  destruct (_ || _) eqn:Esp.
  { intros [= <- _ _]. split; [by apply addResolvers_nodup|].
    intros r [Hr|[Hr Hc]]%addResolvers_elem; [destruct (Hsel r Hr) as (? & ? & ?); auto|destruct (HL r Hr); auto]. }
  intros [= <- _ _]. split; [by apply addResolvers_nodup|].
  intros r [Hr|[Hr Hc]]%addResolvers_elem; [destruct (Hsel r Hr) as (? & ? & ?); auto|].
  split; [done|]. split; [by left|]. done.
Qed.

(** ** The default resolvers *)
Definition cloudflareURL (ip : str) : URL :=
  mkURL $"dot" $"cloudflare-dns.com" [] []
    {[ $"ip" := [ip]; $"name" := [$"Cloudflare"]; $"blockedif" := [$"zeroip"] ]}.
Definition cloudflare (url : str) (ip : str) (l : nat) : Resolver :=
  mkResolverObj url (mkResolver $"Cloudflare" $"dot" $"config" (ParseIP ip) $"cloudflare-dns.com" Global 853)
    (JoinHostPort ip $"853") $"zeroip" [] false [] false (TCPResolver l true).
Section defaults.
Context {UT : UnicodeTables} {RE : ResolverEnv}.
Lemma created_default url ip s : ip = $"1.1.1.2" \/ ip = $"1.0.0.2" -> URLParse url = Ret (cloudflareURL ip) ->
  exists s', createResolver url ServerSourceConfigured s = (Ret (Some (cloudflare url ip (length (connStates s)))), s') /\
    length (connStates s') = S (length (connStates s)) /\ currentResolverConfig s' = currentResolverConfig s.
Proof.
  intros Hip Hu. unfold createResolver, mbind, R_bind, lift. rewrite Hu.
  destruct Hip as [-> | ->]; (eexists; split; [vm_compute; reflexivity|]; split; [|done];
    change (length (connStates s ++ [newConnState]) = S (length (connStates s))); rewrite length_app; simpl; lia).
Qed.
Lemma load_defaults g s0 : URLParse (nth 0 defaultNameServers []) = Ret (cloudflareURL $"1.1.1.2") ->
  URLParse (nth 1 defaultNameServers []) = Ret (cloudflareURL $"1.0.0.2") ->
  configuredNameServers g = defaultNameServers -> Nameservers = [] -> (forall ip, localNetwork ip = Ret None) ->
  exists s l, loadResolvers g s0 = (Ret tt, s) /\
    globalResolvers s = [cloudflare (nth 0 defaultNameServers []) $"1.1.1.2" l; cloudflare (nth 1 defaultNameServers []) $"1.0.0.2" (S l)] /\
    localResolvers s = [] /\ systemResolvers s = [] /\ localScopes s = [] /\ currentResolverConfig s = defaultNameServers.
Proof.
  intros Hu1 Hu2 Hg Hn Hl. set (s1 := startLoad g s0).
  destruct (created_default (nth 0 defaultNameServers []) $"1.1.1.2" s1) as (s2 & E1 & Hlen & Hcfg); [by left|done|].
  destruct (created_default (nth 1 defaultNameServers []) $"1.0.0.2" s2) as (s3 & E2 & Hlen2 & Hcfg2); [by right|done|].
  rewrite Hlen in E2.
  set (all := [cloudflare (nth 0 defaultNameServers []) $"1.1.1.2" (length (connStates s1));
    cloudflare (nth 1 defaultNameServers []) $"1.0.0.2" (S (length (connStates s1)))]).
  assert (getConfiguredResolvers defaultNameServers s1 = (Ret all, s3)) as E.
  { unfold getConfiguredResolvers. change defaultNameServers with [nth 0 defaultNameServers []; nth 1 defaultNameServers []] at 1.
    unfold collectR, mbind, R_bind, tryResolver. by rewrite E1, E2. }
  exists (finishLoad all s3), (length (connStates s1)).
  destruct (finishLoad_fields all s3) as (F1 & F2 & F3 & F4 & F5 & _).
  split.
  { unfold loadResolvers. rewrite Hg. unfold mbind at 1, R_bind, modR at 1. fold s1.
    unfold mbind at 1, R_bind. rewrite E. unfold getSystemResolvers. by rewrite Hn. }
  rewrite F1, F2, F3, F4, F5. split; [done|].
  split; [unfold isLocalResolver; cbn; by rewrite !Hl|]. split; [done|]. split; [done|].
  by rewrite Hcfg2, Hcfg.
Qed.
End defaults.

(** C36. The fallback of the default DNS servers is never used: the two default URLs give
    resolvers with different addresses but the same ID, which leaves the IP address of a
    DNS-over-TLS server out, so that the second is taken for a duplicate of the first in
    every choice of resolvers; and as it is never asked it is never failing, and that all
    configured servers fail is not noticed. *)
Theorem default_fallback_unused `{UnicodeTables} `{RE : ResolverEnv} g s0 :
  URLParse (nth 0 defaultNameServers []) = Ret (cloudflareURL $"1.1.1.2") ->
  URLParse (nth 1 defaultNameServers []) = Ret (cloudflareURL $"1.0.0.2") ->
  configuredNameServers g = defaultNameServers -> Nameservers = [] -> (forall ip, localNetwork ip = Ret None) ->
  exists s r1 r2, loadResolvers g s0 = (Ret tt, s) /\ globalResolvers s = [r1; r2] /\
    ServerAddress r1 = $"1.1.1.2:853" /\ ServerAddress r2 = $"1.0.0.2:853" /\
    (forall g' cs q, r2 ∉ (GetResolversInScope g' (s <| connStates := cs |>) q).1.1) /\
    (forall cs, IsFailing (s <| connStates := cs |>) r2 = false ->
       allConfiguredResolversAreFailing (s <| connStates := cs |>) = false).
Proof.
  intros Hu1 Hu2 Hg Hn Hl. destruct (load_defaults g s0) as (s & l & Hload & Hglob & Hloc & Hsys & Hsc & Hcfg); [done..|].
  set (r1 := cloudflare _ $"1.1.1.2" l) in Hglob. set (r2 := cloudflare _ $"1.0.0.2" (S l)) in Hglob.
  exists s, r1, r2. split; [done|]. split; [done|]. split; [reflexivity|]. split; [reflexivity|].
  assert (forall P, r2 ∈ [P] -> P <> r2 -> False) as Hone by (intros P ->%list_elem_of_singleton ?; done).
  split.
  - intros g' cs q Hin. set (s' := s <| connStates := cs |>) in Hin. unfold GetResolversInScope in Hin. cbv zeta in Hin.
    change (localResolvers s') with (localResolvers s) in Hin. change (systemResolvers s') with (systemResolvers s) in Hin.
    change (globalResolvers s') with (globalResolvers s) in Hin. change (localScopes s') with (localScopes s) in Hin.
    rewrite Hloc, Hsys, Hsc, Hglob in Hin. rewrite bool_decide_true, andb_false_r in Hin by done. cbn [foldl] in Hin.
    destruct (domainInScope _ internalSpecialUseDomains); [by apply (Hone envResolver)|].
    destruct (domainInScope _ multicastDomains).
    { change (r2 ∈ addResolvers g' s' q [] mDNSResolvers) in Hin. apply addResolvers_elem in Hin as [Hin%not_elem_of_nil|[Hin _]]; [done|].
      by apply (Hone mDNSResolver). }
    destruct (_ || _); [by apply not_elem_of_nil in Hin|].
    change (r2 ∈ addResolver g' s' q (addResolver g' s' q [] r1) r2) in Hin.
    assert (addResolver g' s' q [] r1 = [] \/ addResolver g' s' q [] r1 = [r1]) as [E|E].
    { unfold addResolver. destruct (resolverCompliance g' q r1); [by left|]. by right. }
    + rewrite E in Hin. apply addResolver_elem in Hin as [Hin%not_elem_of_nil|[_ Hc]]; [done|].
      unfold addResolver in E. change (resolverCompliance g' q r1) with (resolverCompliance g' q r2) in E. by rewrite Hc in E.
    + rewrite E, (addResolver_same_id _ _ _ _ _ r1) in Hin; [by apply (Hone r1)|by left|reflexivity].
  - intros cs Hf. set (s' := s <| connStates := cs |>). unfold allConfiguredResolversAreFailing.
    change (globalResolvers s') with (globalResolvers s). rewrite Hglob. cbn [forallb]. fold s' in Hf. rewrite Hf.
    change (eqs (RSource (Info r2)) ServerSourceConfigured) with true. by rewrite !andb_false_r.
Qed.

(** ** Witnesses *)
Module ResolverDemo.
#[export] Instance tables : UnicodeTables := {| unicodeLower s := s; unicodeUpper s := s |}.
(** The suffix is the last label; those of two top level domains are managed. *)
Definition lastLabel (d : str) : str := drop (Z.to_nat (1 + LastIndex d ".")) d.
Definition urls : list (str * URL) :=
  [(nth 0 defaultNameServers [], cloudflareURL $"1.1.1.2"); (nth 1 defaultNameServers [], cloudflareURL $"1.0.0.2");
   ($"dns://192.168.1.1:53", mkURL $"dns" $"192.168.1.1" $"53" [] ∅)].
Definition parseURL (s : str) : outcome str URL :=
  match list_find (fun p => p.1 = s) urls with Some (_, p) => Ret p.2 | None => Err $"invalid" end.
Definition env (ns : list (IP * list str)) : ResolverEnv := {|
  URLParse := parseURL; PublicSuffix d := (lastLabel d, existsb (eqs (lastLabel d)) [$"com"; $"org"]);
  Fqdn s := if HasSuffix s $"." then s else s ++ $".";
  TypeString t := if t =? 1 then $"A" else if t =? 28 then $"AAAA" else $"TYPE" ++ Itoa t;
  localNetwork _ := Ret None; Nameservers := ns; connectivityDomain s := eqs s $"captive.example.com.";
  pdqsort _ _ l := l |}.
(** The default settings; the network assigns a resolver with search domains. *)
Definition settings : DnsConfig := mkDnsConfig false false false true false defaultNameServers.
Definition router : list (IP * list str) := [(v4InV6Prefix ++ [192; 168; 1; 1], [$"office.example.com"; $"com"; $"lan"])].
Definition start : RState := mkRState [] [] [] [] ∅ [] ∅ [] false None 0 false false.
Definition loaded (ns : list (IP * list str)) : RState := (loadResolvers (RE := env ns) settings start).2.
Definition ask (name : str) : Query := mkQuery name 1 false false false false [] ($"." ++ name).
Lemma suffix_law ns d s icann : PublicSuffix (ResolverEnv := env ns) d = (s, icann) -> s = d \/ exists p, d = p ++ $"." ++ s.
Proof.
  intros H. apply (f_equal fst) in H. simpl in H. subst s. unfold lastLabel.
  destruct (LastIndex_split "." d) as (a & b & -> & _ & Ha & ->). rewrite Nat2Z.id, drop_app_length.
  destruct Ha as [->|[a' ->]]; [by left|right]. exists a'. by rewrite <- app_assoc.
Defined.
End ResolverDemo.
Import ResolverDemo.

(** The search domain of the whole top level domain is refused. *)
Lemma search_domains_bounded_witness :
  map Search (globalResolvers (loaded router)) = [[]; []; [$".office.example.com."; $".lan."]] /\
  forall r, r ∈ globalResolvers (loaded router) -> Z.of_nat (length (Search r)) <= 100.
Proof.
  split; [vm_compute; reflexivity|]. intros r Hr.
  apply (search_domains_bounded (RE := env router) settings start (loaded router) r);
    [exact (suffix_law router)|reflexivity|vm_compute; reflexivity|exact Hr].
Defined.
(** The names of the local network are not given to the configured resolver, others are. *)
Lemma names_stay_in_scope_witness :
  map ServerAddress (GetResolversInScope (RE := env router) settings (loaded router) (ask $"nas.lan.")).1.1 = [$"192.168.1.1:53"] /\
  map ServerAddress (GetResolversInScope (RE := env router) settings (loaded router) (ask $"safing.io.")).1.1
    = [$"1.1.1.2:853"; $"192.168.1.1:53"] /\
  forall r, r ∈ (GetResolversInScope (RE := env router) settings (loaded router) (ask $"nas.lan.")).1.1 ->
    claims r (ask $"nas.lan.") \/ isLocalResolver (RE := env router) r = true \/ (false = true /\ (r = mDNSResolver \/ isSystemResolver r = true)).
Proof.
  split; [vm_compute; reflexivity|]. split; [vm_compute; reflexivity|]. intros r Hr.
  assert ((loaded router) <| connStates := connStates (loaded router) |> = loaded router) as Hl by (by destruct (loaded router)).
  destruct (names_stay_in_scope (RE := env router) settings start (loaded router) (connStates (loaded router)) settings (ask $"nas.lan.")
    (GetResolversInScope (RE := env router) settings (loaded router) (ask $"nas.lan.")).1.1 $"special" true) as [_ H];
    [reflexivity|vm_compute; reflexivity|rewrite Hl; vm_compute; reflexivity|].
  destruct (H r Hr) as (_ & _ & H'). apply H'; [vm_compute; reflexivity|left; vm_compute; reflexivity].
Defined.
Lemma default_fallback_unused_witness :
  exists s r1 r2, loadResolvers (RE := env []) settings start = (Ret tt, s) /\ globalResolvers s = [r1; r2] /\
    forall g q, r2 ∉ (GetResolversInScope (RE := env []) g (s <| connStates := [] |>) q).1.1.
Proof.
  destruct (default_fallback_unused (RE := env []) settings start) as (s & r1 & r2 & H1 & H2 & _ & _ & H3 & _); try reflexivity.
  exists s, r1, r2. split; [exact H1|]. split; [exact H2|]. intros g q. apply H3.
Defined.
