(* ===== verification/NameStore.v ===== *)
(** * The store of name records

    The database interface of [NameRecords] implements what [Resolve] asks of a store,
    and a response that is cached is found again. *)

From S2P Require Import Prelude GoStrings GoText GoNet NetUtils DbRecord.
From S2P Require Database.
From S2P Require Import DatabaseFacts NameRecords DatabaseProps.
From S2P Require Import Resolvers RRCache Resolve.
Import Database (GCache).

Section store.
Context {GC : GCache} (evict : Database.World NameRecord -> list str).
Notation W := (Database.World NameRecord).

(** Errors, of which there is only that a record is not found, give no record. *)
#[export] Instance nameDB : NameDB W := {
  dbGet d q w := match GetNameRecord d q (evict w) w with (Ret n, w') => (Some n, w') | (_, w') => (None, w') end;
  dbSave n w := (saveNew n (evict w) w).2;
  dbReset d q w := (ResetCachedRecord d q (evict w) w).2;
}.
Definition holds (w : W) (m : gmap str NameRecord) : Prop :=
  exists M, inv recordDatabase cacheDB M w /\ forall d q, m !! makeNameRecordKey d q = M !! nameKey d q.
Lemma GetNameRecord_holds M w d q ks : inv recordDatabase cacheDB M w ->
  exists w', inv recordDatabase cacheDB M w' /\
    GetNameRecord d q ks w =
      (match M !! nameKey d q with Some n => if NRIsValid n then Ret n else Err Database.ErrInvalid | None => Err Database.ErrNotFound end, w').
Proof.
  intros Hi. unfold GetNameRecord, Database.Get. rewrite nameRecordKey.
  destruct (getRecord_ok recordDatabase cacheDB cacheDB_plain ltac:(done) eq_refl ltac:(done) ltac:(done)
    M w (nameKey d q) false ks Hi) as (w' & Hi' & _ & Hg). exists w'. split; [done|].
  destruct (M !! nameKey d q) as [n|].
  - destruct Hg as (l & Hg & r & m & Hl & <- & _). rewrite (bind_ret _ _ _ _ _ Hg).
    rewrite (bind_ret _ _ _ _ _ (read_new _ _ _ Hl)). by case_match.
  - by rewrite (bind_err _ _ _ _ _ Hg).
Qed.
#[export] Instance nameDB_spec : NameDBSpec W holds.
Proof.
  split.
  - intros w m d q (M & Hi & HM). destruct (GetNameRecord_holds M w d q (evict w) Hi) as (w' & Hi' & E).
    unfold dbGet, nameDB. rewrite E, HM. destruct (M !! nameKey d q) as [n|]; simpl; [destruct (NRIsValid n)|];
      (split; [by exists M|done]).
  - intros w m n (M & Hi & HM) Hd Hq. unfold dbSave, nameDB.
    destruct (saveNew_ok M w n (evict w) Hi Hd Hq) as (w' & -> & Hi'). exists (<[nameKey (NRDomain n) (Question n) := n]> M).
    split; [done|]. intros d q. destruct (decide (nameKey (NRDomain n) (Question n) = nameKey d q)) as [He|Hne].
    + rewrite <- He, !nameRecordKey, He, !lookup_insert_eq. done.
    + rewrite !lookup_insert_ne; [done|done|]. rewrite !nameRecordKey. by intros ?%makeKey_inj.
Qed.
End store.

(** ** Cached responses *)
Definition persistent (rr : RR) : bool := negb ((Rrtype rr =? TypeOPT) || (Rrtype rr =? TypeNULL)).
Definition kept (section : list RR) : list RR := List.filter persistent section.
(** The response as it is read from the cache: the question, its sections without the
    records that are left out, the expiry and the resolver. *)
Definition stored (rr : RRCache) : RRCache :=
  mkRRCache (CDomain rr) (CQuestion rr) (CRCode rr) (kept (CAnswer rr)) (kept (CNs rr)) (kept (CExtra rr)) (CExpires rr) (CResolver rr)
    true false false false [].

Section cache.
Context {RE : ResolverEnv} {RT : RRText}.
Definition cacheKey (rr : RRCache) : str := makeNameRecordKey (CDomain rr) (TypeString (CQuestion rr)).
Definition named (rr : RRCache) : Prop := CDomain rr <> [] /\ TypeString (CQuestion rr) <> [].
Context (text_law : forall rr, persistent rr = true -> NewRR (RRString rr) = Ret (Some rr)).
Lemma parse_section l acc : foldl parseRR acc (toNameRecordSection l) = acc ++ kept l.
Proof using text_law.
  revert acc. induction l as [|rr l IH]; intros acc; [by rewrite app_nil_r|].
  unfold toNameRecordSection, kept in *. simpl. unfold persistent at 1. destruct (_ || _) eqn:E; simpl; [apply IH|].
  rewrite IH. unfold parseRR. rewrite text_law by (unfold persistent; by rewrite E). by rewrite <- app_assoc.
Qed.

Context {St : Type} {DB : NameDB St} {h : St -> gmap str NameRecord -> Prop} {DS : NameDBSpec St h}.
Lemma save_holds w m rr : h (names w) m -> named rr -> exists m', h (names (saveRRCache (S := St) rr w)) m' /\
  (forall k, k <> cacheKey rr -> m' !! k = m !! k) /\ (Cacheable rr = true -> m' !! cacheKey rr = Some (ToNameRecord rr)).
Proof using DS.
  intros Hh [Hd Hq]. unfold saveRRCache. destruct (Cacheable rr); [|by exists m].
  eexists. split; [exact (dbSave_spec _ _ (ToNameRecord rr) Hh Hd Hq)|]. split.
  - intros k Hk. by rewrite lookup_insert_ne.
  - intros _. apply lookup_insert_eq.
Qed.
Lemma saves_holds others : forall w m, h (names w) m -> Forall named others ->
  exists m', h (names (foldl (fun w x => saveRRCache (S := St) x w) w others)) m' /\
    forall k, k ∉ cacheKey <$> others -> m' !! k = m !! k.
Proof using DS.
  induction others as [|x others IH]; intros w m Hh Hn; [by exists m|]. apply Forall_cons in Hn as [Hx Hn].
  destruct (save_holds w m x Hh Hx) as (m1 & H1 & Hk1 & _). destruct (IH _ _ H1 Hn) as (m2 & H2 & Hk2).
  exists m2. split; [done|]. intros k [Hk Hks]%not_elem_of_cons. by rewrite Hk2, Hk1.
Qed.
End cache.

(** C33. A response that may be cached is found again, however many responses to other
    questions are cached meanwhile: with its question, code, records (but for OPT and
    NULL records), expiry and resolver, marked as served from the cache. *)
Theorem cached_response_found `{RE : ResolverEnv} `{RRText} {St : Type} {DB : NameDB St}
    {h : St -> gmap str NameRecord -> Prop} {DS : NameDBSpec St h} (w : World (S := St)) m rr info others :
  (forall x, persistent x = true -> NewRR (RRString x) = Ret (Some x)) ->
  h (names w) m -> Cacheable rr = true -> named rr -> CResolver rr = Some info -> RType info <> [] ->
  Forall named others -> cacheKey rr ∉ cacheKey <$> others ->
  (GetRRCache (CDomain rr) (CQuestion rr) (foldl (fun w x => saveRRCache x w) (saveRRCache rr w) others)).1 = Some (stored rr).
Proof.
  intros Htext Hh Hc Hn Hi Ht Hos Hk. destruct (save_holds w m rr Hh Hn) as (m1 & H1 & _ & Hm1).
  destruct (saves_holds others _ _ H1 Hos) as (m2 & H2 & Hm2). unfold GetRRCache.
  destruct (dbGet_spec _ _ (CDomain rr) (TypeString (CQuestion rr)) H2) as [_ Hg].
  destruct (dbGet _ _ _) as [n st]. simpl in *. rewrite Hg. fold (cacheKey rr). rewrite Hm2, Hm1 by done. simpl.
  unfold NRIsValid. simpl. rewrite Hi. rewrite bool_decide_false by done. simpl. unfold fromNameRecord, stored. simpl.
  by rewrite !(parse_section Htext), Hi.
Qed.

(** ** Demonstration *)
Module NameStoreDemo.
#[export] Instance RData_countable : Countable RData.
Proof.
  refine (inj_countable'
    (fun d => match d with
      | DataA ip => (1, ip, [], []) | DataAAAA ip => (2, ip, [], []) | DataCNAME t => (3, [], t, [])
      | DataPTR n => (4, [], n, []) | DataSVCB h t l => ((if h then 5 else 6), [], t, l) | DataOther t => (7, [], t, [])
      end)
    (fun '(i, ip, t, l) =>
      if i =? 1 then DataA ip else if i =? 2 then DataAAAA ip else if i =? 3 then DataCNAME t else if i =? 4 then DataPTR t
      else if i =? 5 then DataSVCB true t l else if i =? 6 then DataSVCB false t l else DataOther t) _).
  by intros [| | | |[]|].
Defined.
#[export] Instance RR_countable : Countable RR.
Proof.
  refine (inj_countable' (fun r => (RRName r, Rrtype r, RRClass r, Ttl r, Data r))
    (fun '(n, t, c, ttl, d) => mkRR n t c ttl d) _). by intros [].
Defined.
(** Text of a record: the binary digits of its number. *)
Fixpoint bits (p : positive) : str := match p with xH => [] | xO p => "0"%char :: bits p | xI p => "1"%char :: bits p end.
Fixpoint unbits (s : str) : positive :=
  match s with [] => xH | c :: s => if bool_decide (c = "0"%char) then xO (unbits s) else xI (unbits s) end.
Lemma unbits_bits p : unbits (bits p) = p.
Proof. induction p as [p IH|p IH|]; simpl; [by rewrite IH..|done]. Defined.
#[export] Instance text : RRText := {|
  RRString rr := bits (encode rr);
  NewRR s := match decode (unbits s) with Some rr => Ret (Some rr) | None => Err $"syntax error" end |}.
Lemma text_law rr : NewRR (RRString rr) = Ret (Some rr).
Proof. simpl. rewrite unbits_bits, decode_encode. reflexivity. Defined.
Definition typeString (t : Z) : str := if t =? 1 then $"A" else $"TYPE" ++ Itoa t.
#[export] Instance env : ResolverEnv := {|
  URLParse _ := Err $"invalid"; PublicSuffix d := (d, false); Fqdn s := s; TypeString := typeString;
  localNetwork _ := Ret None; Nameservers := []; connectivityDomain _ := false; pdqsort _ _ l := l |}.
#[export] Instance store : NameDB (Database.World NameRecord) := nameDB (GC := DatabaseDemo.gcache) (fun _ => []).
Definition world : World (S := Database.World NameRecord) := mkWorld (mkRState [] [] [] [] ∅ [] ∅ [] false None 0 false false) true DatabaseDemo.world [] 0 [] [].
Definition response (name : str) (ip : IP) : RRCache :=
  (freshCache name 1 RcodeSuccess [mkRR name TypeA ClassINET 17 (DataA ip)] [] [mkRR $"." TypeOPT 1232 0 (DataOther [])] DatabaseDemo.resolver)
    <| CExpires := 1300 |>.
End NameStoreDemo.
Import NameStoreDemo.
(** Two answers are cached, the first is found. *)
Lemma cached_response_found_witness :
  (GetRRCache $"a.example." 1 (saveRRCache (response $"b.example." [192; 0; 2; 2])
    (saveRRCache (response $"a.example." [192; 0; 2; 1]) world))).1 =
  Some (stored (response $"a.example." [192; 0; 2; 1])) /\
  CExtra (stored (response $"a.example." [192; 0; 2; 1])) = [].
Proof.
  split; [|reflexivity].
  apply (cached_response_found (h := holds) (DS := nameDB_spec (fun _ => [])) world ∅ (response $"a.example." [192; 0; 2; 1])
    DatabaseDemo.resolver [response $"b.example." [192; 0; 2; 2]]).
  - intros rr _. apply text_law.
  - exists ∅. split; [|reflexivity].
    apply (ready_inv (V := NameRecord) recordDatabase cacheDB DatabaseDemo.world DatabaseDemo.empty). apply DatabaseDemo.world_ready.
  - reflexivity.
  - split; discriminate.
  - reflexivity.
  - discriminate.
  - repeat constructor; discriminate.
  - apply (bool_decide_unpack _). vm_compute. exact I.
Defined.
