(* ===== verification/ResolveProps.v ===== *)
(** * Theorems about resolving

    Where an answer comes from, what is sent to whom, and how long answers are kept. *)

From S2P Require Import Prelude GoStrings GoText GoNet NetUtils NameRecords Resolvers ResolverSetup RRCache ResolverProps Resolve NameStore.

(** ** Facts about resolving

    What asking resolvers does to the state and where its result comes from. *)

Section facts.
Context {UT : UnicodeTables} {RE : ResolverEnv} {RT : RRText} {TL : Timeline} {S : Type} {DB : NameDB S}.
Implicit Types (w : World (S := S)) (a : Asked (S := S)).

(** ** What changes only a part of the state *)
(** The same, but for the connections of resolvers, the flags they set and the notification. *)
Definition sameButConns w w' : Prop :=
  names w' = names w /\ cacheResetID w' = cacheResetID w /\ cacheResetSeenCnt w' = cacheResetSeenCnt w /\
  asyncQueries w' = asyncQueries w /\ sent w' = sent w /\ activeResolvers (rst w') = activeResolvers (rst w) /\
  globalResolvers (rst w') = globalResolvers (rst w) /\ localResolvers (rst w') = localResolvers (rst w) /\
  systemResolvers (rst w') = systemResolvers (rst w) /\ localScopes (rst w') = localScopes (rst w).
#[export] Instance sameButConns_refl : Reflexive sameButConns.
Proof. intros w. repeat split. Qed.
#[export] Instance sameButConns_trans : Transitive sameButConns.
Proof.
  intros w1 w2 w3 (?&?&?&?&?&?&?&?&?&?) (?&?&?&?&?&?&?&?&?&?). repeat split; congruence.
Qed.
Lemma ReportFailure_same o r w : sameButConns w (ReportFailure o r w).
Proof. unfold ReportFailure. repeat case_match; by repeat split. Qed.
Lemma ResetFailure_same r w : sameButConns w (ResetFailure r w).
Proof. unfold ResetFailure. repeat case_match; by repeat split. Qed.
Lemma reset_same w : sameButConns w (w <| rst ::= resetFailingResolversNotification |>).
Proof. unfold resetFailingResolversNotification. simpl. case_match; by repeat split. Qed.
Lemma reportAllFailing_same i src a : sameButConns (aworld a) (reportAllFailing i src a).
Proof. unfold reportAllFailing. case_match; by repeat split. Qed.

(** A resolver that is failing stays so while failures are reported. *)
Lemma ReportFailure_failing o r r' w : failing_ w r = true -> failing_ (ReportFailure o r' w) r = true.
Proof.
  unfold ReportFailure. intros Hf. destruct (connOf r') as [l'|]; [|done].
  destruct (connStates (rst w) !! l') as [c'|] eqn:El; [|done].
  assert (forall c x, (failing c' = true -> failing c = true) ->
    failing_ (setConn l' c w <| connectedToDNS := x |>) r = true) as Hset.
  { intros c x Hc. unfold failing_, IsFailing, setConn in *. simpl. destruct (connOf r) as [l|]; simpl in *; [|done].
    destruct (decide (l = l')) as [->|Hne].
    - rewrite El in Hf. rewrite list_lookup_insert_eq by (by eapply lookup_lt_Some). by apply Hc.
    - by rewrite list_lookup_insert_ne. }
  destruct (failing c') eqn:Ef; [by rewrite orb_true_r|].
  assert (forall c, failing_ (setConn l' c w) r = true) as Hset'.
  { intros c. specialize (Hset c (connectedToDNS w)). apply Hset. done. }
  destruct (_ || _); [done|]. repeat case_match; try apply Hset'; apply Hset; done.
Qed.

(** ** Asking *)
(** Queries with the same question. *)
Definition sameQuestion (q q' : Query) : Prop := FQDN q' = FQDN q /\ QType q' = QType q.
(** The queries that were sent: to usable resolvers of the list, in order. *)
Definition asks w (q : Query) (l : list Resolver) (s : list (Resolver * Query)) : Prop :=
  s.*1 `sublist_of` l /\
  Forall (fun p => failing_ w p.1 = false /\ LinkLocalUnavailable p.1 = false /\ sameQuestion q p.2) s.
(** The response comes from a resolver that was asked. *)
Definition answered (s : list (Resolver * Query)) (rr : RRCache) : Prop :=
  exists i r q, (r, q) ∈ s /\ (queryConn i r q).1 = inl (Some rr).
Definition outcomeOk (old : option RRCache) (tryAll : bool) (s : list (Resolver * Query)) (res : next) : Prop :=
  match res with
  | Break rr => answered s rr /\ (CRCode rr = RcodeSuccess \/ tryAll = false)
  | Continue (Some rr) None => answered s rr
  | Continue _ _ => True
  | Return rr err => rr = None \/ rr = old /\ errorsIs err ErrOffline = true
  end.
Lemma answered_mono s s' rr : s ⊆ s' -> answered s rr -> answered s' rr.
Proof. intros Hs (i & r & q & Hin & H). exists i, r, q. auto. Qed.

Lemma queryConn_question i r q : sameQuestion q (queryConn i r q).2.
Proof. unfold queryConn. by destruct (Conn r). Qed.
Lemma askResolver_ok i old src tryAll r a res a' : askResolver i old src tryAll r a = (res, a') ->
  sent (aworld a') = sent (aworld a) ++ [(r, aquery a)] /\ sameQuestion (aquery a) (aquery a') /\
  outcomeOk old tryAll [(r, aquery a)] res /\
  (forall rr err, res = Continue rr err -> forall x, failing_ (aworld a) x = true -> failing_ (aworld a') x = true) /\
  activeResolvers (rst (aworld a')) = activeResolvers (rst (aworld a)) /\ names (aworld a') = names (aworld a).
Proof.
  unfold askResolver. pose proof (queryConn_question i r (aquery a)) as Hq.
  destruct (queryConn i r (aquery a)) as [reply q'] eqn:Eq. simpl in Hq.
  assert (forall rr, reply = inl (Some rr) -> answered [(r, aquery a)] rr) as Hans.
  { intros rr ->. exists i, r, (aquery a). split; [by left|by rewrite Eq]. }
  set (a1 := a <| aworld ::= _ |> <| aquery := q' |>).
  assert (sent (aworld a1) = sent (aworld a) ++ [(r, aquery a)]) as H1 by done.
  assert (forall o x, sameButConns (aworld a1) (aworld (reportFailing o x a1))) as Hrep by (intros o x; apply ReportFailure_same).
  assert (forall o r' x, failing_ (aworld a1) x = true -> failing_ (aworld (reportFailing o r' a1)) x = true) as Hfail.
  { intros o r' x. apply ReportFailure_failing. }
  intros H. destruct reply as [[rr|]|e].
  - destruct (negb _ && _) eqn:Ec; injection H as <- <-.
    + repeat split; try apply Hq; [by apply Hans|]. intros rr' err [= <- <-] x Hx. exact Hx.
    + assert (sameButConns (aworld a1) (aworld (reportSuccess src r a1))) as (Hn&_&_&_&Hs&Ha&_).
      { unfold reportSuccess. simpl. case_match; [|apply ResetFailure_same]. etrans; [apply ResetFailure_same|apply reset_same]. }
      split; [by rewrite Hs|]. split; [exact Hq|]. split; [|done]. split; [by apply Hans|].
      apply andb_false_iff in Ec as [Ec%negb_false_iff%Z.eqb_eq|Ec]; auto.
  - injection H as <- <-. repeat split; try apply Hq. intros rr' err [= <- <-] x Hx. exact Hx.
  - destruct (Hrep i r) as (Hn&_&_&_&Hs&Ha&_).
    repeat case_match; injection H as <- <-; (split; [by rewrite ?Hs|]); (split; [exact Hq|]); simpl;
      (split; [auto|]); (split; [|done]); intros rr' err [= <- <-] x Hx; try exact Hx; by apply Hfail.
Qed.
Lemma askResolvers_ok i old src tryAll l rr err a res a' : askResolvers i old src tryAll l rr err a = (res, a') ->
  exists s, sent (aworld a') = sent (aworld a) ++ s /\ asks (aworld a) (aquery a) l s /\ sameQuestion (aquery a) (aquery a') /\
    (forall s0, (forall c, rr = Some c -> err = None -> answered s0 c) -> outcomeOk old tryAll (s0 ++ s) res) /\
    activeResolvers (rst (aworld a')) = activeResolvers (rst (aworld a)) /\ names (aworld a') = names (aworld a).
Proof.
  revert i rr err a. induction l as [|r l IH]; intros i rr err a; simpl.
  { intros [= <- <-]. exists []. rewrite app_nil_r. split; [done|]. split; [by split|]. split; [done|]. split; [|done].
    intros s0 H0. simpl. destruct rr, err; try done. rewrite app_nil_r. by apply H0. }
  destruct (shuttingDown (obs i)).
  { intros [= <- <-]. exists []. rewrite app_nil_r. split; [done|]. split; [split; [apply sublist_nil_l|constructor]|].
    split; [done|]. split; [|done]. intros s0 _. simpl. by left. }
  destruct (failing_ (aworld a) r || LinkLocalUnavailable r) eqn:Eu.
  { intros H. apply IH in H as (s & Hs & [Hsub Hall] & Hrest). exists s. split; [done|]. split; [|done].
    split; [by apply sublist_cons|done]. }
  apply orb_false_iff in Eu as [Ef El].
  destruct (askResolver i old src tryAll r a) as [res1 a1] eqn:E.
  apply askResolver_ok in E as (Hs1 & Hq1 & Ho1 & Hf1 & Ha1 & Hn1).
  destruct res1 as [rr1 err1|rr1 e1|rr1].
  - intros H. apply IH in H as (s & Hs & [Hsub Hall] & Hq & Ho & Ha & Hn).
    exists ((r, aquery a) :: s). split; [by rewrite Hs, Hs1, <- app_assoc|].
    split; [split; [by apply sublist_skip|]|].
    { constructor; [done|]. eapply Forall_impl; [exact Hall|]. intros p (H1 & H2 & H3 & H4). split.
      - destruct (failing_ (aworld a) p.1) eqn:Ep; [|done]. by rewrite (Hf1 _ _ eq_refl _ Ep) in H1.
      - split; [done|]. destruct Hq1. split; congruence. }
    split; [destruct Hq, Hq1; split; congruence|]. split; [|split; congruence].
    intros s0 H0. replace (s0 ++ (r, aquery a) :: s) with ((s0 ++ [(r, aquery a)]) ++ s) by (by rewrite <- app_assoc). apply Ho.
    intros c -> ->. simpl in Ho1. eapply answered_mono; [|exact Ho1]. set_solver.
  - intros [= <- <-]. exists [(r, aquery a)]. split; [done|]. split; [split; [apply sublist_skip, sublist_nil_l|by repeat constructor]|].
    split; [done|]. split; [|done]. intros s0 _. exact Ho1.
  - intros [= <- <-]. exists [(r, aquery a)]. split; [done|]. split; [split; [apply sublist_skip, sublist_nil_l|by repeat constructor]|].
    split; [done|]. split; [|done]. intros s0 _. simpl in *. split; [|tauto]. destruct Ho1 as [Ho1 _].
    eapply answered_mono; [|exact Ho1]. set_solver.
Qed.
End facts.

(** ** Expiry *)
(** The time a response is kept is between three seconds and a day. *)
Lemma Clean_spec `{ResolverEnv} minExpires now online c : 3 <= minExpires <= maxTTL ->
  let c' := Clean minExpires now online c in
  now + 3 <= CExpires c' <= now + maxTTL /\
  Forall (fun rr => Ttl rr = 17) (CAnswer c' ++ CNs c' ++ CExtra c') /\
  (CRCode c <> RcodeSuccess -> CExpires c' = now + 10) /\
  CRCode c' = CRCode c /\ CDomain c' = CDomain c /\ CQuestion c' = CQuestion c /\ CResolver c' = CResolver c /\ IsBackup c' = IsBackup c /\
  ServedFromCache c' = ServedFromCache c.
Proof.
  intros Hm. assert (forall l, Forall (fun rr => Ttl rr = 17) (map setTTL l)) as Httl.
  { intros l. apply Forall_map, Forall_true. done. }
  unfold Clean. simpl. split; [|split; [|split; [|done]]].
  - assert (maxTTL = 86400) by done. destruct (CRCode c =? RcodeSuccess); simpl; [|lia].
    destruct (connectivityDomain (CDomain c)); [lia|]. case_bool_decide; [lia|]. destruct online; simpl; [|lia].
    destruct (_ <? minExpires) eqn:E1; [lia|]. apply Z.ltb_ge in E1.
    destruct (maxTTL <? _) eqn:E2; [lia|]. apply Z.ltb_ge in E2. lia.
  - by rewrite !Forall_app.
  - intros Hc. by rewrite (proj2 (Z.eqb_neq _ _) Hc).
Qed.

Section props.
Context {UT : UnicodeTables} {RE : ResolverEnv} {RT : RRText} {TL : Timeline} {S : Type} {DB : NameDB S}.
Implicit Types (w : World (S := S)).

(** ** Asking the resolvers in scope *)
(** An answer was cleaned after all of [n] resolvers. *)
Definition cleaned (n : nat) (s : list (Resolver * Query)) (rr : RRCache) : Prop :=
  exists raw, answered s raw /\ rr = Clean minTTL (Unix (time (obs (n + 1)))) (online (obs (n + 1))) raw.
(** What is returned: an answer, or the old response as a backup or as the device is offline. *)
Definition returned (n : nat) (old : option RRCache) (s : list (Resolver * Query)) (rr : RRCache) (err : option DnsErr) : Prop :=
  (err = None /\ cleaned n s rr) \/
  (exists o, old = Some o /\ err = None /\ rr = o <| IsBackup := true |>) \/
  (old = Some rr /\ exists e, err = Some e /\ errorsIs e ErrOffline = true).
Lemma resolveAndCache_ok g q old w rr err w' : resolveAndCache g q old w = (rr, err, w') ->
  exists s, sent w' = sent w ++ s /\ asks w q (GetResolversInScope g (rst w) q).1.1 s /\
    (err = None -> is_Some rr) /\ (forall c, rr = Some c -> returned (length (GetResolversInScope g (rst w) q).1.1) old s c err).
Proof.
  unfold resolveAndCache. destruct (GetResolversInScope g (rst w) q) as [[l src] tryAll]. simpl.
  assert (asks w q l []) as Hnil by (split; [apply sublist_nil_l|constructor]).
  case_bool_decide; [intros [= <- <- <-]; exists []; rewrite app_nil_r; repeat split; try done; apply Hnil|].
  destruct (_ && _) eqn:Eoff.
  { intros [= <- <- <-]. exists []. rewrite app_nil_r. split; [done|]. split; [done|]. split; [done|].
    intros c Hc. right; right. split; [done|]. by eexists. }
  destruct (askResolvers _ old src tryAll l None None _) as [res a] eqn:E.
  apply askResolvers_ok in E as (s & Hs & Hasks & _ & Ho & _). specialize (Ho [] ltac:(done)). simpl in Hs, Ho.
  assert (forall i (b : Asked (S := S)), sent (aworld b) = sent (aworld a) -> sent (reportAllFailing i src b) = sent w ++ s) as Hsent.
  { intros i b Hb. rewrite <- Hs, <- Hb. apply reportAllFailing_same. }
  assert (forall n e, exists r e', failQuery (S := S) n old e a = (r, e', a) /\ (e' = None -> is_Some r) /\
    forall c, r = Some c -> returned (length l) old s c e') as Hfail.
  { intros n e. unfold failQuery. destruct old as [o|]; do 2 eexists; split; try done; split; try done.
    intros c [= <-]. right; left. by exists o. }
  assert (forall c, answered s c -> exists r a', finishQuery (length l + 1) c a = (Some r, None, a') /\ sent (aworld a') = sent (aworld a) /\
    cleaned (length l) s r) as Hfin.
  { intros c Hc. do 2 eexists. split; [reflexivity|]. split; [|by eexists].
    unfold saveRRCache. case_match; [|done]. simpl. by case_match. }
  assert (forall o : option RRCache * option DnsErr * Asked (S := S), (let '(rr, err, a) := o in
    (rr, err, reportAllFailing (length l + 2) src a)) = (rr, err, w') ->
    exists b, o = (rr, err, b) /\ w' = reportAllFailing (length l + 2) src b) as Hlet.
  { intros [[r e] b] [= <- <- <-]. by exists b. }
  intros [b [Hb ->]]%Hlet. exists s.
  assert ((exists c, rr = Some c /\ err = None /\ sent (aworld b) = sent (aworld a) /\ cleaned (length l) s c) \/
    (b = a /\ (err = None -> is_Some rr) /\ forall c, rr = Some c -> returned (length l) old s c err)) as Hres.
  { destruct res as [[c|] [e|]|r e|c]; simpl in Ho.
    - right. destruct (Hfail (length l) e) as (r1 & e1 & E1 & H1 & H2). rewrite E1 in Hb. by injection Hb as -> -> ->.
    - left. destruct (Hfin c Ho) as (r1 & a1 & E1 & H1 & H2). rewrite E1 in Hb. injection Hb as <- <- <-. by exists r1.
    - right. destruct (Hfail (length l) e) as (r1 & e1 & E1 & H1 & H2). rewrite E1 in Hb. by injection Hb as -> -> ->.
    - right. destruct (Hfail (length l) (errOf ErrNotFound)) as (r1 & e1 & E1 & H1 & H2). rewrite E1 in Hb. by injection Hb as -> -> ->.
    - right. injection Hb as <- <- <-. split; [done|]. split; [done|]. intros c ->. destruct Ho as [|[<- ?]]; [done|].
      right; right. split; [done|]. by exists e.
    - left. destruct Ho as [Ho _]. destruct (Hfin c Ho) as (r1 & a1 & E1 & H1 & H2). rewrite E1 in Hb. injection Hb as <- <- <-. by exists r1. }
  destruct Hres as [(c & -> & -> & Hsb & Hc)|(-> & H1 & H2)]; (split; [by apply Hsent|]); (split; [done|]).
  - split; [done|]. intros c' [= <-]. by left.
  - done.
Qed.

(** ** The cache *)
(** A response whose resolver is still in use and complies with the query. *)
Definition fromCache (g : DnsConfig) (q : Query) (s : RState) (rr : RRCache) : Prop :=
  exists info r, CResolver rr = Some info /\ activeResolvers s !! ID info = Some r /\ resolverCompliance g q r = None.
Definition sameSent w w' : Prop := sent w' = sent w /\ rst w' = rst w.
Lemma startAsyncQuery_ok q c w c' w' : startAsyncQuery q c w = (c', w') ->
  sameSent w w' /\ CExpires c' = CExpires c /\ CResolver c' = CResolver c.
Proof. unfold startAsyncQuery. case_match; by intros [= <- <-]. Qed.
Lemma cacheLookup_ok g t q w rr w' : checkCache g t q w = (rr, w') ->
  sameSent w w' /\ forall c, rr = Some c -> fromCache g q (rst w) c.
Proof.
  unfold checkCache, GetRRCache. destruct (connectivityDomain (FQDN q)); [by intros [= <- <-]|].
  destruct (dbGet _ _ (names w)) as [n st]. set (w1 := w <| names := st |>).
  destruct (fromNameRecord _ _ <$> n) as [c|]; [|by intros [= <- <-]].
  destruct (CResolver c) as [info|] eqn:Ei; simpl; [|by intros [= <- <-]].
  unfold getActiveResolverByID. destruct (activeResolvers (rst w) !! ID info) as [r|] eqn:Er; [|by intros [= <- <-]].
  case_bool_decide as Hc; [by intros [= <- <-]|].
  assert (forall x, CResolver x = CResolver c -> fromCache g q (rst w) x) as Hfrom.
  { intros x Hx. exists info, r. rewrite Hx. split; [done|]. split; [done|]. destruct (resolverCompliance g q r); [|done].
    destruct Hc. by eexists. }
  destruct (shouldResetCache q w1) as [b w2] eqn:Eb.
  assert (sameSent w w2) as Hw2 by (unfold shouldResetCache in Eb; repeat case_match; by injection Eb as <- <-).
  destruct b; [by intros [= <- <-]|].
  destruct (Expired (Unix t) c).
  { intros [= <- <-]. split; [done|]. intros x. case_match; [|done]. intros [= <-]. by apply Hfrom. }
  destruct (ExpiresSoon (Unix t) c).
  - destruct (startAsyncQuery q c w2) as [c' w3] eqn:Ea. apply startAsyncQuery_ok in Ea as ([H1 H2] & _ & H3).
    intros [= <- <-]. destruct Hw2. split; [split; congruence|]. intros x [= <-]. by apply Hfrom.
  - intros [= <- <-]. split; [done|]. intros x [= <-]. by apply Hfrom.
Qed.

(** What is served: a fresh answer with all lifetimes set to 17, which expires between
    three seconds and a day after it was cleaned, and after ten seconds unless it is a
    success; or a response from the cache that has not expired, or may be served anyway.
    [l] are the resolvers in scope. *)
Definition fresh (l : list Resolver) (s : list (Resolver * Query)) (rr : RRCache) : Prop :=
  let now := Unix (time (obs (length l + 1))) in
  (exists p i raw, p ∈ s /\ (queryConn i p.1 p.2).1 = inl (Some raw) /\
    map Data (CAnswer rr) = map Data (CAnswer raw) /\ CRCode rr = CRCode raw /\ CResolver rr = CResolver raw) /\
  Forall (fun x => Ttl x = 17) (CAnswer rr ++ CNs rr ++ CExtra rr) /\
  now + 3 <= CExpires rr <= now + maxTTL /\ (CRCode rr <> RcodeSuccess -> CExpires rr = now + 10).
Definition servable (g : DnsConfig) (ts : list Z) (rr : RRCache) (err : option DnsErr) : Prop :=
  (exists t, t ∈ ts /\ Expired (Unix t) rr = false) \/ useStaleCache g = true \/ IsBackup rr = true \/
  exists e, err = Some e /\ errorsIs e ErrOffline = true.
Definition served g q (s0 : RState) (ts : list Z) (s : list (Resolver * Query)) (rr : RRCache) (err : option DnsErr) : Prop :=
  fresh (GetResolversInScope g s0 q).1.1 s rr \/ (fromCache g q s0 rr /\ servable g ts rr err).
Definition resolved g q w ts rr err w' : Prop :=
  (err = None -> is_Some rr) /\
  exists s, sent w' = sent w ++ s /\ asks w q (GetResolversInScope g (rst w) q).1.1 s /\
    forall c, rr = Some c -> served g q (rst w) ts s c err.

Lemma cleaned_fresh l s rr : cleaned (length l) s rr -> fresh l s rr.
Proof.
  intros (raw & (i & r & q & Hin & Hq) & ->). set (now := Unix _). set (on := online _).
  destruct (Clean_spec minTTL now on raw) as (H1 & H2 & H3 & H4 & _ & _ & H5 & _); [by vm_compute|].
  split; [|split; [done|split; [done|by rewrite H4]]]. exists (r, q), i, raw. split; [done|]. split; [done|]. split; [|done].
  unfold Clean. simpl. rewrite map_map. by apply map_ext.
Qed.
Lemma asks_same w w1 q l s : rst w1 = rst w -> asks w1 q l s -> asks w q l s.
Proof. unfold asks, failing_. intros ->. done. Qed.
Lemma resolveAndCache_resolved g q old w w1 ts rr err w' : sameSent w w1 ->
  (forall c, old = Some c -> fromCache g q (rst w) c) ->
  resolveAndCache g q old w1 = (rr, err, w') -> resolved g q w ts rr err w'.
Proof.
  intros [Hs Hr] Hold H. apply resolveAndCache_ok in H as (s & Hsent & Hasks & Hsome & Hret). split; [done|].
  exists s. rewrite Hs in Hsent. rewrite Hr in Hasks, Hret. split; [done|]. split; [by eapply asks_same|].
  intros c Hc. destruct (Hret c Hc) as [[_ Hcl]|[(o & Ho & _ & ->)|[Ho [e [He1 He2]]]]].
  - left. by apply cleaned_fresh.
  - right. split; [|right; right; by left]. destruct (Hold o Ho) as (info & r & ?). by exists info, r.
  - right. split; [by apply Hold|]. right; right; right. by exists e.
Qed.
(** What a request goes on with: the world it found, or what others made of it while the
    request waited for an equal query. *)
Definition goesOn (wait : option (World (S := S) -> World)) w w1 : Prop :=
  w1 = w \/ exists meanwhile w0, wait = Some meanwhile /\ sameSent w w0 /\ w1 = meanwhile w0.
Lemma resolveAfterWait_resolved g t wait q old w w0 ts rr err w' : t ∈ ts -> sameSent w w0 ->
  (forall c, old = Some c -> fromCache g q (rst w) c) ->
  resolveAfterWait g t wait q old w0 = (rr, err, w') -> exists w1, goesOn wait w w1 /\ resolved g q w1 ts rr err w'.
Proof.
  intros Ht Hw Hold. unfold resolveAfterWait. destruct wait as [f|].
  2: { intros H. exists w. split; [by left|]. by eapply resolveAndCache_resolved. }
  intros H. exists (f w0). split; [right; by exists f, w0|]. revert H.
  destruct (checkCache g t q (f w0)) as [c w2] eqn:E. apply cacheLookup_ok in E as [Hw2 Hc].
  destruct c as [c|]; [|by apply resolveAndCache_resolved].
  destruct (negb _ || _) eqn:Eb; [|by apply resolveAndCache_resolved].
  intros [= <- <- <-]. split; [done|]. exists []. rewrite app_nil_r. destruct Hw2 as [H1 H2]. split; [done|].
  split; [split; [apply sublist_nil_l|constructor]|]. intros x [= <-]. right. split; [by apply Hc|].
  apply orb_true_iff in Eb as [Eb%negb_true_iff|Eb]; [left; by exists t|right; by left].
Qed.
End props.

Lemma Resolve_resolved `{UnicodeTables} `{RE : ResolverEnv} `{RRText} `{Timeline} {St : Type} {DB : NameDB St} g t1 t2 wait q q'
    (w : World (S := St)) rr err w' : check q = Some q' -> checkCompliance g q' = None ->
  Resolve g t1 t2 wait q w = (rr, err, w') -> exists w1, goesOn wait w w1 /\ resolved g q' w1 [t1; t2] rr err w'.
Proof.
  intros Hq Hc. unfold Resolve. rewrite Hq, Hc. clear Hq Hc.
  destruct (NoCaching q'); [intros Hr; exists w; split; [by left|by apply (resolveAndCache_resolved _ _ None w w)]|].
  destruct (checkCache g t1 q' w) as [c w1] eqn:E. apply cacheLookup_ok in E as [Hw1 Hc].
  destruct c as [c|]; [|by apply resolveAfterWait_resolved; [set_solver|..]].
  specialize (Hc c eq_refl). destruct Hw1 as [K1 K2].
  assert (forall x, fromCache g q' (rst w) x -> servable g [t1; t2] x None -> forall w2, sent w2 = sent w ->
    exists w1, goesOn wait w w1 /\ resolved g q' w1 [t1; t2] (Some x) None w2) as Hhit.
  { intros x Hx Hs w2 Hw2. exists w. split; [by left|]. split; [done|]. exists []. rewrite app_nil_r. split; [done|].
    split; [split; [apply sublist_nil_l|constructor]|]. intros y [= <-]. by right. }
  destruct (Expired (Unix t1) c) eqn:Ee; simpl.
  - destruct (useStaleCache g) eqn:Eu.
    + destruct (startAsyncQuery q' c w1) as [c' w2] eqn:Ea. apply startAsyncQuery_ok in Ea as ([K3 _] & _ & K5).
      intros [= <- <- <-]. apply Hhit; [|right; by left|congruence]. destruct Hc as (info & r & Hi & Hr). exists info, r. by rewrite K5.
    + apply resolveAfterWait_resolved; [set_solver|done|]. by intros x [= <-].
  - intros [= <- <- <-]. apply Hhit; [done| |done]. left. exists t1. split; [set_solver|done].
Qed.

(** C32. Resolving a query always ends with a response or an error.  An invalid query and
    one that the settings refuse are answered without asking anybody.  Any other query
    is sent only to resolvers in its scope, in their order, each at most once, never to
    one that is marked as failing or cannot be reached, and unchanged.  A response is a
    fresh answer of one of them, its answers unchanged but for lifetimes of 17, with an expiry
    between three seconds and a day from the time it was received (ten seconds unless it
    is a success); or comes from the cache, from a resolver that is in use and
    complies with the settings, and has not expired unless stale responses are permitted,
    it is marked as a backup, or the device is offline.  All this is at the world [w1] the
    request goes on with: what it found, or, if it waited for an equal query, whatever
    others made of that meanwhile. *)
Theorem resolve_served `{UnicodeTables} `{RE : ResolverEnv} `{RRText} `{Timeline} {St : Type} {DB : NameDB St} g t1 t2 wait q
    (w : World (S := St)) rr err w' :
  Resolve g t1 t2 wait q w = (rr, err, w') ->
  match check q with
  | None => rr = None /\ err = Some (errOf ErrInvalid) /\ w' = w
  | Some q' =>
      match checkCompliance g q' with
      | Some e => rr = None /\ err = Some (errOf e) /\ w' = w
      | None =>
          (err = None -> is_Some rr) /\
          exists w1 s, goesOn wait w w1 /\ sent w' = sent w1 ++ s /\ s.*1 `sublist_of` (GetResolversInScope g (rst w1) q').1.1 /\
            Forall (fun p => IsFailing (rst w1) p.1 = false /\ LinkLocalUnavailable p.1 = false /\
              FQDN p.2 = FQDN q' /\ QType p.2 = QType q') s /\
            forall c, rr = Some c -> served g q' (rst w1) [t1; t2] s c err
      end
  end.
Proof.
  destruct (check q) as [q'|] eqn:Eq; [|unfold Resolve; rewrite Eq; by intros [= <- <- <-]].
  destruct (checkCompliance g q') as [e|] eqn:Ec; [unfold Resolve; rewrite Eq, Ec; by intros [= <- <- <-]|].
  intros (w1 & K0 & K1 & s & K2 & [K3 K4] & K5)%(Resolve_resolved _ _ _ _ _ q'); [|done..]. split; [done|]. by exists w1, s.
Qed.

(** ** Demonstration *)
Module ResolveDemo.
#[export] Instance tables : UnicodeTables := ResolverDemo.tables.
#[export] Instance env : ResolverEnv := ResolverDemo.env ResolverDemo.router.
#[export] Instance text : RRText := NameStoreDemo.text.
(** A store that is a map, and servers that always answer with one address. *)
#[export] Instance mapDB : NameDB (gmap str NameRecord) := {
  dbGet d q m := ((m !! makeNameRecordKey d q) ≫= fun n => if NRIsValid n then Some n else None, m);
  dbSave n m := <[makeNameRecordKey (NRDomain n) (Question n) := n]> m;
  dbReset d q m := delete (makeNameRecordKey d q) m }.
#[export] Instance times : Timeline := {|
  obs i := mkObs (second * (1000 + Z.of_nat i)) true false false;
  answer _ r q := inl (Some (freshCache (FQDN q) (QType q) RcodeSuccess
    [mkRR (FQDN q) TypeA ClassINET 3600 (DataA [192; 168; 1; 9])] [] [] (Info r)));
  captivePortalIP := []; gateways := []; dnsCheck _ := None |}.
Definition world : World (S := gmap str NameRecord) :=
  mkWorld (ResolverDemo.loaded ResolverDemo.router) true ∅ [] 0 [] [].
Definition nas : Query := ResolverDemo.ask $"nas.lan.".
Definition settings : DnsConfig := ResolverDemo.settings.
Definition lookUp t w := Resolve settings t t None nas w.
Definition world1 := (lookUp (second * 1000) world).2.
(** A request that waited is served what the other saved. *)
Example waiting_is_served :
  let '(rr, err, w) := Resolve settings (second * 1000) (second * 1001) (Some (fun w => (lookUp (second * 1000) w).2)) nas world in
  (CExpires <$> rr, err, length (sent w)) = (Some 4602, None, 1%nat).
Proof. vm_compute. reflexivity. Qed.
End ResolveDemo.
Import ResolveDemo.
(** The router is asked once; the answer is kept for an hour and served from the cache. *)
Lemma resolve_served_witness :
  map (fun p => ServerAddress p.1) (sent world1) = [$"192.168.1.1:53"] /\
  let '(rr, err, w2) := lookUp (second * 2000) world1 in
  length (sent w2) = 1%nat /\ err = None /\ exists c, rr = Some c /\
    map Data (CAnswer c) = [DataA [192; 168; 1; 9]] /\ CExpires c = 4602 /\
    served settings nas (rst world1) [second * 2000; second * 2000] [] c None.
Proof.
  split; [vm_compute; reflexivity|].
  assert (length (sent (lookUp (second * 2000) world1).2) = 1%nat) as Hs by (vm_compute; reflexivity).
  assert ((lookUp (second * 2000) world1).1.2 = None) as He by (vm_compute; reflexivity).
  assert ((fun c => (map Data (CAnswer c), CExpires c)) <$> (lookUp (second * 2000) world1).1.1
    = Some ([DataA [192; 168; 1; 9]], 4602)) as Hc by (vm_compute; reflexivity).
  pose proof (resolve_served settings (second * 2000) (second * 2000) None nas world1 _ _ _
    (eq_trans (surjective_pairing (lookUp (second * 2000) world1)) (f_equal (fun p => (p, (lookUp (second * 2000) world1).2))
      (surjective_pairing (lookUp (second * 2000) world1).1)))) as H.
  assert (check nas = Some nas) as Hq by (vm_compute; reflexivity).
  assert (checkCompliance settings nas = None) as Hok by (vm_compute; reflexivity).
  assert (length (sent world1) = 1%nat) as H1 by (vm_compute; reflexivity).
  rewrite Hq, Hok in H. destruct (lookUp (second * 2000) world1) as [[rr err] w2]. simpl in *. subst err.
  destruct H as (_ & w1 & s & Hw & Hs2 & _ & _ & H). destruct Hw as [->|(f & w0 & Hf & _)]; [|discriminate Hf]. destruct rr as [c|]; [|discriminate Hc]. injection Hc as Hd Hx.
  split; [exact Hs|]. split; [reflexivity|]. exists c. split; [reflexivity|]. split; [exact Hd|]. split; [exact Hx|].
  rewrite Hs2, length_app, H1 in Hs. destruct s as [|x s]; [|discriminate Hs]. apply H. reflexivity.
Defined.
