(* ===== verification/Dedupe.v ===== *)
(** * Waiting for equal queries (service/resolver/resolve.go, Resolve and deduplicateRequest)

    Requests are threads.  Each section under [dupReqLock] is one step: entering, and the
    returned function that marks a request as finished.  A waiting request goes on when
    the other completes, the time is up (it tries again), or its context ends.  Then it
    looks into the cache again, and if it finds nothing it resolves without being
    registered, as do requests that bypass all this: those without caching and the ones
    that refresh a response. *)

From S2P Require Import Prelude GoStrings.

(** In nanoseconds. *)
Definition maxRequestTimeout : Z := 5 * 1000000000.
Record dedupeStatus := mkStatus { completed : bool; waitUntil : Z; superseded : bool }.
#[export] Instance eta_dedupeStatus : Eta dedupeStatus := fun s => mkStatus (completed s) (waitUntil s) (superseded s).

(** Why a request is not registered: it waited until a status was completed, its context
    ended while it waited, or it does not take part. *)
Inductive Why := Waited (st : nat) | Canceled | Bypass.
#[export] Instance Why_eq_dec : EqDecision Why.
Proof. solve_decision. Defined.
(** Where a request is: before the lock (again after [retry]), waiting for a status
    until a time, resolving with its own status, before the second look into the cache,
    resolving without a status, or back; [true] if it resolved. *)
Inductive ReqPC :=
| AtLock | Waiting (st : nat) (until : Z) | Resolving (st : nat) | Recheck (why : Why) | Unregistered (why : Why)
| Back (resolved : bool).
#[export] Instance ReqPC_eq_dec : EqDecision ReqPC.
Proof. solve_decision. Defined.

Record Sys := mkSys {
  clock : Z;
  dupReqMap : gmap str nat;
  statuses : list dedupeStatus;
  (** The key of a request and where it is. *)
  requests : list (str * ReqPC);
}.
#[export] Instance eta_Sys : Eta Sys := fun s => mkSys (clock s) (dupReqMap s) (statuses s) (requests s).
Definition init : Sys := mkSys 0 ∅ [] [].

Definition setPC (i : nat) (pc : ReqPC) (s : Sys) : Sys := s <| requests ::= alter (fun r => (r.1, pc)) i |>.
(** A new status is registered. *)
Definition startRequest (i : nat) (key : str) (s : Sys) : Sys :=
  let st := length (statuses s) in
  setPC i (Resolving st)
    (s <| statuses ::= fun l => l ++ [mkStatus false (clock s + maxRequestTimeout) false] |>
       <| dupReqMap ::= <[key := st]> |>).
(** From [retry] to the unlock. *)
Definition enter (i : nat) (key : str) (s : Sys) : Sys :=
  match dupReqMap s !! key ≫= fun st => (fun x => (st, x)) <$> statuses s !! st with
  | Some (st, status) =>
      if clock s <? waitUntil status then setPC i (Waiting st (clock s + maxRequestTimeout)) s
      else startRequest i key (s <| statuses ::= alter (fun x => x <| superseded := true |>) st |>)
  | None => startRequest i key s
  end.
(** The function that marks a request as finished; closing a channel twice panics. *)
Definition finish (i : nat) (key : str) (st : nat) (s : Sys) : option Sys :=
  match statuses s !! st with
  | Some status =>
      if completed status then None else
      let s := setPC i (Back true) (s <| statuses ::= alter (fun x => x <| completed := true |>) st |>) in
      Some (if superseded status then s else s <| dupReqMap ::= delete key |>)
  | None => None
  end.

(** [CacheHit], [CacheMiss] and [Resolved] are what [Resolve] does when
    [deduplicateRequest] gave no function to finish with. *)
Inductive step : Sys -> Sys -> Prop :=
| Arrive s key : step s (s <| requests ::= fun l => l ++ [(key, AtLock)] |>)
| Bypasses s key : step s (s <| requests ::= fun l => l ++ [(key, Unregistered Bypass)] |>)
| Tick s dt : 0 <= dt -> step s (s <| clock ::= fun t => t + dt |>)
| Enter s i key : requests s !! i = Some (key, AtLock) -> step s (enter i key s)
| Completed s i key st until x : requests s !! i = Some (key, Waiting st until) -> statuses s !! st = Some x -> completed x = true ->
    step s (setPC i (Recheck (Waited st)) s)
| WaitTimeout s i key st until : requests s !! i = Some (key, Waiting st until) -> until <= clock s -> step s (setPC i AtLock s)
| ContextDone s i key st until : requests s !! i = Some (key, Waiting st until) -> step s (setPC i (Recheck Canceled) s)
| CacheHit s i key why : requests s !! i = Some (key, Recheck why) -> step s (setPC i (Back false) s)
| CacheMiss s i key why : requests s !! i = Some (key, Recheck why) -> step s (setPC i (Unregistered why) s)
| Resolved s i key why : requests s !! i = Some (key, Unregistered why) -> step s (setPC i (Back true) s)
| Finish s i key st s' : requests s !! i = Some (key, Resolving st) -> finish i key st s = Some s' -> step s s'.
Definition reached : Sys -> Prop := reachable (fun s => s = init) step.

(** ** Invariant *)
Definition hasWaited (pc : ReqPC) (st : nat) : Prop := pc = Recheck (Waited st) \/ pc = Unregistered (Waited st).
Record Inv (s : Sys) : Prop := mkInv {
  (** A registered status belongs to the request that resolves with it. *)
  inv_map key st : dupReqMap s !! key = Some st ->
    exists i x, requests s !! i = Some (key, Resolving st) /\ statuses s !! st = Some x /\ superseded x = false;
  (** A request that resolves has an open status; one that is not registered was superseded. *)
  inv_open i key st : requests s !! i = Some (key, Resolving st) ->
    exists x, statuses s !! st = Some x /\ completed x = false /\ waitUntil x <= clock s + maxRequestTimeout /\
      (superseded x = true /\ waitUntil x <= clock s \/ superseded x = false /\ dupReqMap s !! key = Some st);
  (** What a request waits for is completed, or someone resolves it. *)
  inv_wait i key st until : requests s !! i = Some (key, Waiting st until) -> until <= clock s + maxRequestTimeout /\
    exists x, statuses s !! st = Some x /\ (completed x = true \/ exists j, requests s !! j = Some (key, Resolving st));
  (** What a request waited for is completed. *)
  inv_waited i key pc st : requests s !! i = Some (key, pc) -> hasWaited pc st ->
    exists x, statuses s !! st = Some x /\ completed x = true;
  inv_own i j ki kj st : requests s !! i = Some (ki, Resolving st) -> requests s !! j = Some (kj, Resolving st) -> i = j;
}.

Lemma setPC_lookup s i pc j r : requests (setPC i pc s) !! j = Some r ->
  (j = i /\ exists r0, requests s !! i = Some r0 /\ r = (r0.1, pc)) \/ (j <> i /\ requests s !! j = Some r).
Proof.
  unfold setPC. simpl. destruct (decide (j = i)) as [->|Hne].
  - rewrite list_lookup_alter_eq. destruct (requests s !! i) as [r0|]; [|done]. simpl. intros [= <-]. left. eauto.
  - rewrite list_lookup_alter_ne by done. auto.
Qed.
Lemma setPC_same s i pc key old : requests s !! i = Some (key, old) -> requests (setPC i pc s) !! i = Some (key, pc).
Proof. intros H. unfold setPC. simpl. by rewrite list_lookup_alter_eq, H. Qed.
Lemma setPC_other s i pc j : j <> i -> requests (setPC i pc s) !! j = requests s !! j.
Proof. intros H. unfold setPC. simpl. by rewrite list_lookup_alter_ne. Qed.
Definition resolves (pc : ReqPC) : Prop := exists st, pc = Resolving st.

Section inv.
Context (s : Sys) (I : Inv s).
Lemma open_bound i key st : requests s !! i = Some (key, Resolving st) -> (st < length (statuses s))%nat.
Proof using I. intros H. destruct (inv_open _ I _ _ _ H) as (x & Hx & _). by eapply lookup_lt_Some. Qed.
(** A request that does not resolve moves to a place where it does not. *)
Lemma move_inv i key old pc : requests s !! i = Some (key, old) -> ~ resolves old -> ~ resolves pc ->
  (forall st until, pc = Waiting st until -> until <= clock s + maxRequestTimeout /\
    exists x, statuses s !! st = Some x /\ (completed x = true \/ exists j, requests s !! j = Some (key, Resolving st))) ->
  (forall st, hasWaited pc st -> exists x, statuses s !! st = Some x /\ completed x = true) ->
  Inv (setPC i pc s).
Proof using I.
  intros Hi Hold Hpc Hw Hwd.
  assert (forall j kj st, requests s !! j = Some (kj, Resolving st) -> requests (setPC i pc s) !! j = Some (kj, Resolving st)) as Hkeep.
  { intros j kj st Hj. rewrite setPC_other; [done|]. intros ->. rewrite Hi in Hj. injection Hj as -> ->. apply Hold. by eexists. }
  assert (forall j kj st, requests (setPC i pc s) !! j = Some (kj, Resolving st) -> requests s !! j = Some (kj, Resolving st)) as Hback.
  { intros j kj st [(_ & r0 & _ & Hr)|[_ Hj]]%setPC_lookup; [|done]. injection Hr as _ <-. exfalso. apply Hpc. by eexists. }
  split.
  - intros k st (j & x & Hj & H)%(inv_map _ I). exists j, x. split; [by apply Hkeep|done].
  - intros j kj st Hj%Hback. by apply (inv_open _ I j).
  - intros j kj st until [(-> & r0 & Hr0 & Hr)|[_ Hj]]%setPC_lookup.
    + rewrite Hi in Hr0. injection Hr0 as <-. injection Hr as -> <-. destruct (Hw _ _ eq_refl) as (H1 & x & Hx & H2).
      split; [done|]. exists x. split; [done|]. destruct H2 as [|[j Hj]]; [by left|right; exists j; by apply Hkeep].
    + destruct (inv_wait _ I _ _ _ _ Hj) as (H1 & x & Hx & H2). split; [done|]. exists x. split; [done|].
      destruct H2 as [|[j' Hj']]; [by left|right; exists j'; by apply Hkeep].
  - intros j kj pc' st [(-> & r0 & _ & [= _ ->])|[_ Hj]]%setPC_lookup Hst; [by apply Hwd|by eapply (inv_waited _ I)].
  - intros j k kj kk st Hj%Hback Hk%Hback. by eapply (inv_own _ I).
Qed.
(** A request registers a status, after the one that was registered ran out. *)
Lemma start_inv i key : requests s !! i = Some (key, AtLock) ->
  let s0 := match dupReqMap s !! key with Some st => s <| statuses ::= alter (fun x => x <| superseded := true |>) st |> | None => s end in
  (forall st x, dupReqMap s !! key = Some st -> statuses s !! st = Some x -> waitUntil x <= clock s) ->
  Inv (startRequest i key s0).
Proof using I.
  intros Hi s0 Hout. set (st0 := length (statuses s0)).
  assert (length (statuses s0) = length (statuses s)) as Hlen by (unfold s0; case_match; [apply length_alter|done]).
  assert (requests s0 = requests s /\ clock s0 = clock s /\ dupReqMap s0 = dupReqMap s) as (Hreq & Hclk & Hmap) by (unfold s0; by case_match).
  set (s1 := startRequest i key s0).
  assert (forall st x, statuses s !! st = Some x -> exists x', statuses s1 !! st = Some x' /\ completed x' = completed x /\
    waitUntil x' = waitUntil x /\ (superseded x' = superseded x /\ dupReqMap s !! key <> Some st \/
      superseded x' = true /\ dupReqMap s !! key = Some st)) as Hold.
  { intros st x Hx. assert (st < length (statuses s0))%nat as Hlt by (rewrite Hlen; by eapply lookup_lt_Some).
    assert (statuses s1 !! st = statuses s0 !! st) as -> by (unfold s1, startRequest; simpl; by rewrite lookup_app_l).
    unfold s0. destruct (dupReqMap s !! key) as [st'|] eqn:Em; [|exists x; split; [done|]; split; [done|]; split; [done|]; by left].
    simpl. destruct (decide (st = st')) as [->|Hne].
    - rewrite list_lookup_alter_eq, Hx. eexists. split; [done|]. split; [done|]. split; [done|]. by right.
    - rewrite list_lookup_alter_ne by done. exists x. split; [done|]. split; [done|]. split; [done|]. left. split; [done|]. congruence. }
  assert (statuses s1 !! st0 = Some (mkStatus false (clock s + maxRequestTimeout) false)) as Hnew.
  { unfold s1, startRequest. simpl. rewrite Hclk. apply list_lookup_middle. done. }
  assert (forall j, j <> i -> requests s1 !! j = requests s !! j) as Hother.
  { intros j Hj. unfold s1, startRequest. rewrite setPC_other by done. simpl. by rewrite Hreq. }
  assert (requests s1 !! i = Some (key, Resolving st0)) as Hself.
  { unfold s1, startRequest. eapply setPC_same. simpl. by rewrite Hreq. }
  assert (dupReqMap s1 = <[key := st0]> (dupReqMap s)) as Hmap1 by (unfold s1, startRequest; simpl; by rewrite Hmap).
  assert (clock s1 = clock s) as Hclk1 by (unfold s1, startRequest; simpl; done).
  assert (forall j kj st, requests s1 !! j = Some (kj, Resolving st) -> j = i /\ kj = key /\ st = st0 \/
    j <> i /\ requests s !! j = Some (kj, Resolving st)) as Hres.
  { intros j kj st Hj. destruct (decide (j = i)) as [->|Hne]; [left; rewrite Hself in Hj; by injection Hj as <- <-|right].
    by rewrite Hother in Hj. }
  assert (forall j kj st, requests s !! j = Some (kj, Resolving st) -> requests s1 !! j = Some (kj, Resolving st)) as Hkeep.
  { intros j kj st Hj. rewrite Hother; [done|]. intros ->. congruence. }
  split.
  - intros k st Hk. rewrite Hmap1 in Hk. apply lookup_insert_Some in Hk as [[<- <-]|[Hne Hk]]; [by exists i; eexists|].
    destruct (inv_map _ I _ _ Hk) as (j & x & Hj & Hx & Hs). destruct (Hold _ _ Hx) as (x' & Hx' & _ & _ & Hsup).
    exists j, x'. split; [by apply Hkeep|]. split; [done|]. destruct Hsup as [[-> _]|[_ Hk']]; [done|].
    destruct (inv_map _ I _ _ Hk') as (j' & _ & Hj' & _). assert (j = j') as -> by (by eapply (inv_own _ I)). congruence.
  - intros j kj st [(-> & -> & ->)|[Hne Hj]]%Hres.
    + eexists. split; [done|]. rewrite Hclk1. split; [done|]. split; [simpl; lia|]. right. split; [done|]. rewrite Hmap1. apply lookup_insert_eq.
    + destruct (inv_open _ I _ _ _ Hj) as (x & Hx & Hc & Hle & Hs). destruct (Hold _ _ Hx) as (x' & Hx' & Hcc & Hww & Hsup).
      exists x'. rewrite Hcc, Hww, Hclk1. split; [done|]. split; [done|]. split; [done|].
      destruct Hsup as [[-> Hnk]|[-> Hk]]; [|left; split; [done|by eapply Hout]].
      destruct Hs as [|[-> Hk]]; [by left|right; split; [done|]]. rewrite Hmap1. destruct (decide (kj = key)) as [->|Hkk]; [congruence|].
      by rewrite lookup_insert_ne.
  - intros j kj st until Hj. assert (j <> i) as Hne by (intros ->; congruence). rewrite Hother in Hj by done.
    destruct (inv_wait _ I _ _ _ _ Hj) as (H1 & x & Hx & H2). destruct (Hold _ _ Hx) as (x' & Hx' & Hc & _). rewrite Hclk1. split; [done|].
    exists x'. split; [done|]. rewrite Hc. destruct H2 as [|[j' Hj']]; [by left|right; exists j'; by apply Hkeep].
  - intros j kj pc st Hj Hst. destruct (decide (j = i)) as [->|Hne]; [rewrite Hself in Hj; injection Hj as <- <-; by destruct Hst|].
    rewrite Hother in Hj by done. destruct (inv_waited _ I _ _ _ _ Hj Hst) as (x & Hx & Hc). destruct (Hold _ _ Hx) as (x' & Hx' & Hc' & _).
    exists x'. by rewrite Hc'.
  - intros j k kj kk st [(-> & -> & ->)|[Hj1 Hj]]%Hres [(-> & -> & Hst)|[Hk1 Hk]]%Hres; [done| | |by eapply (inv_own _ I)].
    + apply open_bound in Hk. unfold st0 in Hk. rewrite Hlen in Hk. lia.
    + subst st. apply open_bound in Hj. unfold st0 in Hj. rewrite Hlen in Hj. lia.
Qed.
Lemma enter_inv i key : requests s !! i = Some (key, AtLock) -> Inv (enter i key s).
Proof using I.
  intros Hi. unfold enter. pose proof (start_inv i key Hi) as Hstart. cbv zeta in Hstart.
  destruct (dupReqMap s !! key) as [st|] eqn:Em; simpl; [|by apply Hstart].
  destruct (inv_map _ I _ _ Em) as (j & x & Hj & Hx & _). rewrite Hx. simpl.
  destruct (clock s <? waitUntil x) eqn:Et.
  - eapply move_inv; [done|by intros [? ?]|by intros [? ?]| |by intros ? [|]]. intros st' until [= <- <-]. split; [lia|]. exists x. eauto.
  - apply Z.ltb_ge in Et. apply Hstart. intros st' x' [= <-] Hx'. congruence.
Qed.
Lemma finish_inv i key st s' : requests s !! i = Some (key, Resolving st) -> finish i key st s = Some s' -> Inv s'.
Proof using I.
  intros Hi. unfold finish. destruct (inv_open _ I _ _ _ Hi) as (x & Hx & Hc & Hle & Hs). rewrite Hx, Hc.
  set (s1 := setPC i (Back true) (s <| statuses ::= alter (fun x => x <| completed := true |>) st |>)).
  intros [= Hs']. assert (requests s' = requests s1 /\ statuses s' = statuses s1 /\ clock s' = clock s) as (Hreq & Hst & Hclk)
    by (subst s'; by case_match).
  assert (dupReqMap s' = if superseded x then dupReqMap s else delete key (dupReqMap s)) as Hmap by (subst s'; by case_match).
  clear Hs'.
  assert (forall j kj st', requests s' !! j = Some (kj, Resolving st') -> j <> i /\ st' <> st /\ requests s !! j = Some (kj, Resolving st')) as Hres.
  { intros j kj st' Hj. rewrite Hreq in Hj. apply setPC_lookup in Hj as [(_ & ? & _ & ?)|[Hne Hj]]; [done|]. split; [done|]. split; [|done].
    intros ->. by rewrite (inv_own _ I _ _ _ _ _ Hj Hi) in Hne. }
  assert (forall st', st' <> st -> statuses s' !! st' = statuses s !! st') as Hsts.
  { intros st' Hne. rewrite Hst. unfold s1. simpl. by rewrite list_lookup_alter_ne. }
  assert (statuses s' !! st = Some (x <| completed := true |>)) as Hself by (rewrite Hst; unfold s1; simpl; by rewrite list_lookup_alter_eq, Hx).
  assert (forall j r, j <> i -> requests s !! j = Some r -> requests s' !! j = Some r) as Hkeep.
  { intros j r Hne Hj. rewrite Hreq. unfold s1. by rewrite setPC_other. }
  split.
  - intros k st' Hk. assert (dupReqMap s !! k = Some st' /\ st' <> st) as [Hk' Hne].
    { rewrite Hmap in Hk. destruct Hs as [[Hsup _]|[Hsup Hreg]]; rewrite Hsup in Hk.
      - split; [done|]. intros ->. destruct (inv_map _ I _ _ Hk) as (? & ? & _ & Hx' & ?). congruence.
      - apply lookup_delete_Some in Hk as [Hkk Hk]. split; [done|]. intros ->.
        destruct (inv_map _ I _ _ Hk) as (j & _ & Hj & _). assert (j = i) as -> by (by eapply (inv_own _ I)). congruence. }
    destruct (inv_map _ I _ _ Hk') as (j & x' & Hj & Hx' & Hs'). exists j, x'. rewrite Hsts by done. split; [|done].
    apply Hkeep; [|done]. intros ->. congruence.
  - intros j kj st' (Hne & Hnst & Hj)%Hres. destruct (inv_open _ I _ _ _ Hj) as (x' & Hx' & Hc' & Hle' & Hs'). exists x'.
    rewrite Hsts, Hclk by done. split; [done|]. split; [done|]. split; [done|]. destruct Hs' as [|[Hsup' Hreg']]; [by left|right].
    split; [done|]. rewrite Hmap. case_match eqn:Esup; [done|]. rewrite lookup_delete_ne; [done|]. intros <-.
    destruct Hs as [[Hsup _]|[_ Hreg]]; [congruence|]. rewrite Hreg in Hreg'. by injection Hreg' as ->.
  - intros j kj st' until Hj. rewrite Hreq in Hj. apply setPC_lookup in Hj as [(_ & ? & _ & ?)|[Hne Hj]]; [done|].
    destruct (inv_wait _ I _ _ _ _ Hj) as (H1 & x' & Hx' & H2). rewrite Hclk. split; [done|]. destruct (decide (st' = st)) as [->|Hst'].
    + exists (x <| completed := true |>). split; [done|]. by left.
    + exists x'. rewrite Hsts by done. split; [done|]. destruct H2 as [|[j' Hj']]; [by left|right]. exists j'.
      apply Hkeep; [|done]. intros ->. congruence.
  - intros j kj pc st' Hj Hw. rewrite Hreq in Hj. apply setPC_lookup in Hj as [(_ & ? & _ & [= _ ->])|[Hne Hj]]; [by destruct Hw|].
    destruct (inv_waited _ I _ _ _ _ Hj Hw) as (x' & Hx' & Hc'). destruct (decide (st' = st)) as [->|Hst']; [congruence|].
    exists x'. by rewrite Hsts.
  - intros j k kj kk st' (_ & _ & Hj)%Hres (_ & _ & Hk)%Hres. by eapply (inv_own _ I).
Qed.
End inv.

Lemma init_inv : Inv init.
Proof. split; [intros k st Hk; change ((∅ : gmap str nat) !! k = Some st) in Hk; by rewrite lookup_empty in Hk|..]; done. Qed.
Lemma arrive_inv s key pc0 : pc0 = AtLock \/ pc0 = Unregistered Bypass -> Inv s -> Inv (s <| requests ::= fun l => l ++ [(key, pc0)] |>).
Proof.
  intros Hpc0 I. set (s' := s <| requests ::= _ |>).
  assert (forall i k pc, requests s' !! i = Some (k, pc) -> pc <> AtLock /\ pc <> Unregistered Bypass -> requests s !! i = Some (k, pc)) as Hback.
  { intros i k pc Hi Hpc. unfold s' in Hi. simpl in Hi. apply lookup_app_Some in Hi as [Hi|[_ Hi]]; [done|].
    apply list_lookup_singleton_Some in Hi as [_ [= -> <-]]. naive_solver. }
  assert (forall i r, requests s !! i = Some r -> requests s' !! i = Some r) as Hkeep.
  { intros i r Hi. unfold s'. simpl. by apply lookup_app_l_Some. }
  split.
  - intros k st (i & x & Hi & H)%(inv_map _ I). exists i, x. split; [by apply Hkeep|done].
  - intros i k st Hi%Hback; [|done]. by apply (inv_open _ I i).
  - intros i k st until Hi%Hback; [|done]. destruct (inv_wait _ I _ _ _ _ Hi) as (H1 & x & Hx & H2). split; [done|]. exists x.
    split; [done|]. destruct H2 as [|[j Hj]]; [by left|right; exists j; by apply Hkeep].
  - intros i k pc st Hi Hw. apply Hback in Hi; [by eapply (inv_waited _ I)|]. by destruct Hw as [-> | ->].
  - intros i j ki kj st Hi%Hback Hj%Hback; [|done..]. by eapply (inv_own _ I).
Qed.
Lemma tick_inv s dt : 0 <= dt -> Inv s -> Inv (s <| clock ::= fun t => t + dt |>).
Proof.
  intros Hdt I. split.
  - exact (inv_map _ I).
  - intros i k st Hi. destruct (inv_open _ I _ _ _ Hi) as (x & Hx & Hc & Hle & Hs). exists x. simpl. split; [done|]. split; [done|].
    split; [lia|]. destruct Hs as [[? ?]|]; [left; split; [done|lia]|by right].
  - intros i k st until Hi. destruct (inv_wait _ I _ _ _ _ Hi) as (H1 & H2). split; [simpl; lia|done].
  - exact (inv_waited _ I).
  - exact (inv_own _ I).
Qed.
Lemma step_inv s s' : Inv s -> step s s' -> Inv s'.
Proof.
  intros I H. destruct H as [s key|s key|s dt Hdt|s i key Hi|s i key st until x Hi Hx Hc|s i key st until Hi _|s i key st until Hi|
    s i key why Hi|s i key why Hi|s i key why Hi|s i key st s' Hi Hf].
  - apply arrive_inv; auto.
  - apply arrive_inv; auto.
  - by apply tick_inv.
  - by apply enter_inv.
  - eapply move_inv; [done|done|by intros [? ?]|by intros [? ?]|done|]. intros st' [[= <-]|[=]]. by exists x.
  - eapply move_inv; [done|done|by intros [? ?]|by intros [? ?]|done|by intros ? [|]].
  - eapply move_inv; [done|done|by intros [? ?]|by intros [? ?]|done|by intros ? [|]].
  - eapply move_inv; [done|done|by intros [? ?]|by intros [? ?]|done|by intros ? [|]].
  - eapply move_inv; [done|done|by intros [? ?]|by intros [? ?]|done|].
    intros st' [[=]|[= ->]]. eapply (inv_waited _ I); [done|by left].
  - eapply move_inv; [done|done|by intros [? ?]|by intros [? ?]|done|by intros ? [|]].
  - by eapply finish_inv.
Qed.
Lemma reached_inv s : reached s -> Inv s.
Proof.
  apply reachable_invariant; [intros ? ->; apply init_inv|intros; by eapply step_inv].
Qed.

(** C34. However requests interleave: of two requests that are registered and resolve the
    same query at the same time, one was superseded and has taken more than five seconds;
    finishing never panics; a request waits at most five seconds more, for one that is
    completed or being resolved; and once nobody who is registered resolves, nothing is
    left in the registry.  Not registered, and so not kept from resolving the same query
    at once ([unregistered_together]), are only requests that do not take part, whose
    context ended while they waited, or that waited for one that is completed and found
    nothing in the cache. *)
Theorem dedupe_exclusive s : reached s ->
  (forall i j key si sj, i <> j -> requests s !! i = Some (key, Resolving si) -> requests s !! j = Some (key, Resolving sj) ->
     exists st x, (st = si \/ st = sj) /\ statuses s !! st = Some x /\ superseded x = true /\ waitUntil x <= clock s) /\
  (forall i key st, requests s !! i = Some (key, Resolving st) -> is_Some (finish i key st s)) /\
  (forall i key st until, requests s !! i = Some (key, Waiting st until) -> until <= clock s + maxRequestTimeout /\
     exists x, statuses s !! st = Some x /\ (completed x = true \/ exists j, requests s !! j = Some (key, Resolving st))) /\
  (forall i key why, requests s !! i = Some (key, Unregistered why) ->
     why = Bypass \/ why = Canceled \/ exists st x, why = Waited st /\ statuses s !! st = Some x /\ completed x = true) /\
  ((forall i key st, requests s !! i <> Some (key, Resolving st)) -> dupReqMap s = ∅).
Proof.
  intros I%reached_inv. split; [|split; [|split; [|split]]].
  - intros i j key si sj Hij Hi Hj. destruct (inv_open _ I _ _ _ Hi) as (x & Hx & _ & _ & [[H1 H2]|[_ H1]]); [exists si, x; auto|].
    destruct (inv_open _ I _ _ _ Hj) as (y & Hy & _ & _ & [[H3 H4]|[_ H3]]); [exists sj, y; auto|].
    rewrite H1 in H3. injection H3 as <-. destruct Hij. by eapply (inv_own _ I).
  - intros i key st Hi. destruct (inv_open _ I _ _ _ Hi) as (x & Hx & Hc & _). unfold finish. rewrite Hx, Hc. by eexists.
  - exact (inv_wait _ I).
  - intros i key [st| |] Hi; [right; right|by right; left|by left].
    destruct (inv_waited _ I _ _ _ st Hi) as (x & Hx & Hc); [by right|]. by exists st, x.
  - intros Hno. apply map_empty. intros key. destruct (dupReqMap s !! key) as [st|] eqn:E; [|done].
    destruct (inv_map _ I _ _ E) as (i & x & Hi & _). by destruct (Hno i key st).
Qed.

(** Two requests arrive, the second waits until the first is finished. *)
Definition dedupeDemo : Sys :=
  let s := init <| requests := [($"a.A", AtLock); ($"a.A", AtLock)] |> in
  enter 1 $"a.A" (enter 0 $"a.A" s).
Lemma dedupeDemo_reached : reached dedupeDemo.
Proof.
  exists init. split; [done|]. eapply rtc_l; [apply (Arrive init $"a.A")|]. eapply rtc_l; [apply (Arrive _ $"a.A")|].
  eapply rtc_l; [by apply (Enter _ 0 $"a.A")|]. eapply rtc_l; [by apply (Enter _ 1 $"a.A")|]. apply rtc_refl.
Defined.
Lemma dedupe_exclusive_witness :
  requests dedupeDemo = [($"a.A", Resolving 0); ($"a.A", Waiting 0 maxRequestTimeout)] /\
  is_Some (finish 0 $"a.A" 0 dedupeDemo).
Proof.
  split; [vm_compute; reflexivity|]. apply (dedupe_exclusive dedupeDemo); [apply dedupeDemo_reached|vm_compute; reflexivity].
Defined.
(** Two requests that waited for the same one find nothing in the cache, and resolve at
    the same time. *)
Example unregistered_together : exists s, reached s /\
  requests s = [($"a.A", Back true); ($"a.A", Unregistered (Waited 0)); ($"a.A", Unregistered (Waited 0))].
Proof.
  set (s0 := init <| requests := [($"a.A", AtLock); ($"a.A", AtLock); ($"a.A", AtLock)] |>).
  set (s1 := enter 2 $"a.A" (enter 1 $"a.A" (enter 0 $"a.A" s0))).
  set (s2 := default s1 (finish 0 $"a.A" 0 s1)).
  set (s3 := setPC 2 (Recheck (Waited 0)) (setPC 1 (Recheck (Waited 0)) s2)).
  exists (setPC 2 (Unregistered (Waited 0)) (setPC 1 (Unregistered (Waited 0)) s3)). split; [|vm_compute; reflexivity].
  exists init. split; [done|]. do 3 (eapply rtc_l; [apply (Arrive _ $"a.A")|]).
  eapply rtc_l; [by apply (Enter _ 0 $"a.A")|]. eapply rtc_l; [by apply (Enter _ 1 $"a.A")|]. eapply rtc_l; [by apply (Enter _ 2 $"a.A")|].
  eapply rtc_l; [by apply (Finish s1 0 $"a.A" 0 s2)|].
  eapply rtc_l; [by eapply (Completed s2 1)|]. eapply rtc_l; [by eapply (Completed _ 2)|].
  eapply rtc_l; [by eapply (CacheMiss s3 1)|]. eapply rtc_l; [by eapply (CacheMiss _ 2)|]. apply rtc_refl.
Qed.
