(* ===== verification/DnsFilter.v ===== *)
(** * Filtering DNS responses (service/firewall/dns.go)

    The filter runs on the connection of the DNS request, in the monad of the deciders;
    the response is passed along.  Then the addresses of the response are attributed to
    the domain. *)

From S2P Require Import Prelude GoStrings GoText GoNet NetUtils Reference Entity Endpoints Profile Connection Firewall.
From S2P Require Import NameRecords Resolvers RRCache.

Section dns.
Context {IE : IntelEnv} {UT : UnicodeTables} {FE : FirewallEnv} {RT : RRText} (g : Cfg).

(** [strings.ReplaceAll] of tabs. *)
Definition formatRR (rr : RR) : str := map (fun c => if code c =? 9 then " "%char else c) (RRString rr).

(** ** Filtering a section *)
(** Why an address is filtered: the key of the option; [None]: it is not. *)
Definition filterBlockedScope (sysResolver : bool) (ipScope : IPScope) : M (option str) :=
  removeBlocked ← option_ g RemoveBlockedDNS;
  if removeBlocked && negb sysResolver then
    internet ← option_ g BlockScopeInternet;
    if internet && IsGlobal ipScope then mret (Some (boolKey BlockScopeInternet)) else
    lan ← option_ g BlockScopeLAN;
    if lan && IsLAN ipScope then mret (Some (boolKey BlockScopeLAN)) else
    local ← option_ g BlockScopeLocal;
    if local && IsLocalhost ipScope then mret (Some (boolKey BlockScopeLocal)) else mret None
  else mret None.
Definition filterAddress (resolverScope : IPScope) (sysResolver : bool) (ip : IP) : M (option str) :=
  let ipScope := GetIPScope ip in
  outOfScope ← option_ g RemoveOutOfScopeDNS;
  if outOfScope && IsLocalhost ipScope then mret (Some (boolKey RemoveOutOfScopeDNS))
  else if outOfScope && (IsGlobal resolverScope && IsLAN ipScope && negb sysResolver) then mret (Some (boolKey RemoveOutOfScopeDNS))
  else filterBlockedScope sysResolver ipScope.
(** The records that stay, the text of the others, the number of addresses that stay and
    the key of the last option that removed one. *)
Record filtered := mkFiltered { goodEntries : list RR; filteredRecords : list str; allowedAddressRecords : Z; interveningOptionKey : str }.
#[export] Instance eta_filtered : Eta filtered := fun f =>
  mkFiltered (goodEntries f) (filteredRecords f) (allowedAddressRecords f) (interveningOptionKey f).
Fixpoint filterEntries (resolverScope : IPScope) (sysResolver : bool) (entries : list RR) (f : filtered) : M filtered :=
  match entries with
  | [] => mret f
  | rr :: entries =>
      match addressData (Data rr) with
      | None => filterEntries resolverScope sysResolver entries (f <| goodEntries ::= fun l => l ++ [rr] |>)
      | Some ip =>
          key ← filterAddress resolverScope sysResolver ip;
          filterEntries resolverScope sysResolver entries
            match key with
            | Some key => f <| filteredRecords ::= fun l => l ++ [formatRR rr] |> <| interveningOptionKey := key |>
            | None => f <| allowedAddressRecords ::= fun n => n + 1 |> <| goodEntries ::= fun l => l ++ [rr] |>
            end
      end
  end.
Definition filterDNSSection (resolverScope : IPScope) (sysResolver : bool) (entries : list RR) : M filtered :=
  filterEntries resolverScope sysResolver entries (mkFiltered [] [] 0 []).

(** ** Filtering a response *)
Definition blockMessage (key : str) : str :=
  if eqs key (boolKey BlockScopeInternet) then $"Internet access blocked"
  else if eqs key (boolKey BlockScopeLAN) then $"LAN access blocked"
  else if eqs key (boolKey BlockScopeLocal) then $"Localhost access blocked"
  else if eqs key (boolKey RemoveOutOfScopeDNS) then $"DNS global/private split-view violation"
  else $"DNS response only contained to-be-blocked IPs".
Definition filterDNSResponse (rr : RRCache) (sysResolver : bool) : M RRCache :=
  p ← getProcess;
  if Pid p =? ownPID then mret rr else
  outOfScope ← option_ g RemoveOutOfScopeDNS;
  removeBlocked ← (if outOfScope : bool then mret true else option_ g RemoveBlockedDNS);
  if negb removeBlocked then mret rr else
  info ← deref (CResolver rr);
  answer ← filterDNSSection (RIPScope info) sysResolver (CAnswer rr);
  extra ← filterDNSSection (RIPScope info) sysResolver (CExtra rr);
  let rr := rr <| CAnswer := goodEntries answer |> <| CExtra := goodEntries extra |>
               <| FilteredEntries ::= fun l => l ++ filteredRecords answer ++ filteredRecords extra |> in
  if bool_decide (FilteredEntries rr = []) then mret rr else
  let rr := rr <| Filtered := true |> in
  if allowedAddressRecords answer =? 0 then
    Block_ g (blockMessage (interveningOptionKey answer)) (interveningOptionKey answer) ;; mret rr
  else mret rr.

(** ** CNAMEs *)
Definition blockByCNAME (reason : str) (ctx : reasonCtx) : M bool :=
  modify (BlockWithContext g reason (boolKey FilterCNAMEs) ctx) ;; mret true.
Definition mayBlockCNAMEs : M bool :=
  filterCNAMEs ← option_ g FilterCNAMEs;
  if negb filterCNAMEs then mret false else
  e ← getEntity; setEntity (EnableCNAMECheck true (ResetLists e)) ;;
  '(result, reason) ← matchRules (MatchEndpoint g);
  match result with
  | Denied => r ← deref reason; blockByCNAME (reasonString r) (RuleCtx r)
  | NoMatch =>
      lp ← getLP; e ← getEntity;
      let '(result, reason, e, lp) := MatchFilterLists g lp e in
      setLP lp ;; setEntity e ;;
      match result with
      | Denied => blockByCNAME (ListBlockReasonString reason) (ListsCtx reason)
      | _ => mret false
      end
  | Permitted | MatchError => mret false
  end.

(** [None]: there is no response as the profile is not known. *)
Definition FilterResolvedDNS (rr : RRCache) : M (option RRCache) :=
  c ← get;
  match ProcProfile (process c) with
  | None => mret None
  | Some _ =>
      info ← deref (CResolver rr);
      if eqs (RType info) ServerTypeEnv then mret (Some rr) else
      granted ← checkConnectivityDomain g;
      if granted : bool then mret (Some rr) else
      c ← get;
      let sysResolver := IsSystemResolver (process c) in
      rr ← filterDNSResponse rr sysResolver;
      c ← get;
      if bool_decide (verdict c = VerdictBlock) then mret (Some rr) else
      (if sysResolver then mret false else mayBlockCNAMEs) ;;
      mret (Some rr)
  end.

(** ** Attributing addresses *)
Definition UnidentifiedProfileID : str := $"_unidentified".
Definition SystemResolverProfileID : str := $"_system-resolver".
(** The targets of CNAMEs, SVCB and HTTPS records by name; too short targets are ignored. *)
Definition cnamesOf (l : list RR) : gmap str str :=
  foldl (fun m rr =>
    match Data rr with
    | DataCNAME target => <[RRName rr := target]> m
    | DataSVCB _ target _ => if (2 <=? length target)%nat then <[RRName rr := target]> m else m
    | _ => m
    end) ∅ l.
Definition ipsOf (l : list RR) : list IP :=
  l ≫= fun rr => match Data rr with DataA ip | DataAAAA ip => [ip] | DataSVCB _ _ hints => hints | _ => [] end.
Definition resolvedDomain (q : Query) (rr : RRCache) : ResolvedDomain :=
  AddCNAMEs (cnamesOf (CAnswer rr ++ CExtra rr)) (mkResolvedDomain (FQDN q) [] (CResolver rr) (CExpires rr)).
(** What is saved: the addresses, the scope of the profile and the domain; the request's
    context is left out of it. *)
Definition UpdateIPsAndCNAMEs (q : Query) (rr : option RRCache) : M (option (list IP * str * ResolvedDomain)) :=
  match rr with
  | None => mret None
  | Some rr =>
      lp ← getLP; p ← deref (localProfile lp);
      let profileID := if eqs (Profile.ID p) UnidentifiedProfileID || eqs (Profile.ID p) SystemResolverProfileID
                       then IPInfoProfileScopeGlobal else Profile.ID p in
      let record := resolvedDomain q rr in
      c ← get;
      (if bool_decide (Type_ c = DNSRequest) then e ← getEntity; setEntity (e <| CNAME := CNAMEs record |>) else mret tt) ;;
      mret (Some (ipsOf (CAnswer rr ++ CExtra rr), profileID, record))
  end.
End dns.
