(* ===== verification/DnsFilterProps.v ===== *)
(** * What the filtering of DNS responses guarantees

    [addressAllowed] states which addresses an app may be given; filtering leaves exactly
    those, and never panics. *)

From S2P Require Import Prelude GoStrings GoText GoNet NetUtils Reference Entity EntityFacts Endpoints.
From S2P Require Import EndpointMatch Profile ProfileFacts Connection Firewall EntityView FirewallPolicy FirewallFacts.
From S2P Require Import FirewallProps NameRecords DatabaseProps Resolvers RRCache NameStore DnsFilter.

(** The facts after a decision. *)
Definition withVerdict (v : Verdict) (F : Facts) : Facts :=
  mkFacts (fType F) (fInbound F) (fIPProtocol F) (fLocalIP F) (fLocalPort F) (fResolver F) v (fProcess F) (fLayers F) (fEntity F).

Section filter.
Context {IE : IntelEnv} {UT : UnicodeTables} {FE : FirewallEnv} {RT : RRText} (g : Cfg).

Lemma decidedAs_good F v c : decidedAs g F v c -> good g (withVerdict v F) c.
Proof.
  intros [Hv [[H1 H2 H3 H4 H5 H6 H7 (p & lp & Hp & Hf & Hl & [G1 G2 G3 G4])] (e & He & [E1 E2 E3])]].
  split; [|exists e; split; [exact He|by split]]. split; [done..|]. exists p, lp.
  split; [exact Hp|]. split; [exact Hf|]. split; [exact Hl|]. by split.
Qed.

Section facts.
Context (F : Facts).
(** ** The policy *)
(** An address the app of the connection may be given by a resolver of that scope. *)
Definition addressAllowed (resolverScope : IPScope) (ip : IP) : bool :=
  let ipScope := GetIPScope ip in
  negb (opt g F RemoveOutOfScopeDNS && (IsLocalhost ipScope || (IsGlobal resolverScope && IsLAN ipScope && negb (sysResolver F)))) &&
  negb (opt g F RemoveBlockedDNS && negb (sysResolver F) &&
        ((opt g F BlockScopeInternet && IsGlobal ipScope) || (opt g F BlockScopeLAN && IsLAN ipScope) ||
         (opt g F BlockScopeLocal && IsLocalhost ipScope))).
Definition recordAllowed (resolverScope : IPScope) (rr : RR) : bool :=
  match addressData (Data rr) with Some ip => addressAllowed resolverScope ip | None => true end.
Definition isAddress (rr : RR) : bool := match addressData (Data rr) with Some _ => true | None => false end.

(** ** Sections *)
Lemma filterBlockedScope_ok sc c : good g F c ->
  returns (filterBlockedScope g (sysResolver F) sc) c (fun k c' => good g F c' /\
    bool_decide (k = None) = negb (opt g F RemoveBlockedDNS && negb (sysResolver F) &&
        ((opt g F BlockScopeInternet && IsGlobal sc) || (opt g F BlockScopeLAN && IsLAN sc) || (opt g F BlockScopeLocal && IsLocalhost sc)))).
Proof.
  intros Hc. unfold filterBlockedScope. step.
  destruct (opt g F RemoveBlockedDNS && negb (sysResolver F)); simpl; cbv iota; [|by step].
  step. destruct (opt g F BlockScopeInternet && IsGlobal sc); simpl; cbv iota; [by step|].
  step. destruct (opt g F BlockScopeLAN && IsLAN sc); simpl; cbv iota; [by step|].
  step. by destruct (opt g F BlockScopeLocal && IsLocalhost sc); simpl; cbv iota; step.
Qed.
Lemma filterAddress_ok rs ip c : good g F c ->
  returns (filterAddress g rs (sysResolver F) ip) c (fun k c' => good g F c' /\ bool_decide (k = None) = addressAllowed rs ip).
Proof.
  intros Hc. unfold filterAddress, addressAllowed. cbv zeta. set (sc := GetIPScope ip). step.
  destruct (opt g F RemoveOutOfScopeDNS); simpl; cbv iota; [|by apply filterBlockedScope_ok].
  destruct (IsLocalhost sc) eqn:El; simpl; cbv iota; [by step|]. rewrite <- El.
  destruct (IsGlobal rs && IsLAN sc && negb (sysResolver F)); simpl; cbv iota; [by step|]. by apply filterBlockedScope_ok.
Qed.
(** What a section becomes. *)
Definition allowedOf (rs : IPScope) (l : list RR) : list RR := List.filter (recordAllowed rs) l.
Definition refusedOf (rs : IPScope) (l : list RR) : list RR := List.filter (fun rr => negb (recordAllowed rs rr)) l.
Lemma filterEntries_ok rs l : forall f c, good g F c ->
  returns (filterEntries g rs (sysResolver F) l f) c (fun f' c' => good g F c' /\
    goodEntries f' = goodEntries f ++ allowedOf rs l /\ filteredRecords f' = filteredRecords f ++ map formatRR (refusedOf rs l) /\
    allowedAddressRecords f' = allowedAddressRecords f + Z.of_nat (length (List.filter isAddress (allowedOf rs l)))).
Proof.
  unfold allowedOf, refusedOf. induction l as [|rr l IH]; intros f c Hc; simpl.
  { apply returns_ret. rewrite !app_nil_r. split; [done|]. split; [done|]. split; [done|lia]. }
  assert (recordAllowed rs rr = match addressData (Data rr) with Some ip => addressAllowed rs ip | None => true end) as Er by done.
  destruct (addressData (Data rr)) as [ip|] eqn:Ea.
  - apply returns_bind. eapply returns_mono; [by apply filterAddress_ok|]. intros k c1 [Hc1 Hk]. rewrite <- Er in Hk.
    eapply returns_mono; [by apply IH|]. intros f' c' (Hc' & H1 & H2 & H3). split; [done|].
    destruct k as [k|]; simpl in Hk, H1, H2, H3; rewrite <- Hk; simpl.
    + rewrite H1, H2, H3. by rewrite <- app_assoc.
    + assert (isAddress rr = true) as -> by (unfold isAddress; by rewrite Ea). rewrite H1, H2, H3. rewrite <- app_assoc.
      split; [done|]. split; [done|]. cbn [length]. lia.
  - eapply returns_mono; [by apply IH|]. intros f' c' (Hc' & H1 & H2 & H3). split; [done|].
    rewrite Er. simpl. assert (isAddress rr = false) as -> by (unfold isAddress; by rewrite Ea).
    rewrite H1, H2, H3. simpl. by rewrite <- app_assoc.
Qed.
Lemma filterDNSSection_ok rs l c : good g F c ->
  returns (filterDNSSection g rs (sysResolver F) l) c (fun f' c' => good g F c' /\
    goodEntries f' = allowedOf rs l /\ filteredRecords f' = map formatRR (refusedOf rs l) /\
    allowedAddressRecords f' = Z.of_nat (length (List.filter isAddress (allowedOf rs l)))).
Proof. intros Hc. by apply filterEntries_ok. Qed.

(** ** Connections without regard to the entity *)
Lemma conn_getLP c Q : goodConn g F c -> (forall lp, goodLP g F lp -> Q lp c) -> returns getLP c Q.
Proof.
  intros [_ _ _ _ _ _ _ (p & lp & Hp & _ & Hl & Hg)] HQ. apply returns_bind, returns_get.
  eapply returns_deref; [by rewrite Hp|]. by apply HQ.
Qed.
Lemma conn_setLP c lp Q : goodConn g F c -> goodLP g F lp -> (forall c', goodConn g F c' -> entity c' = entity c -> Q tt c') ->
  returns (setLP lp) c Q.
Proof.
  intros [H1 H2 H3 H4 H5 H6 H7 (p & lp0 & Hp & Hf & Hl & _)] Hg HQ. apply returns_modify, HQ; [|done].
  split; try done. exists (p <| profile := Some lp |>), lp. simpl. by rewrite Hp.
Qed.
Lemma conn_getEntity c e Q : entity c = Some e -> Q e c -> returns getEntity c Q.
Proof. intros He HQ. apply returns_bind, returns_get. by eapply returns_deref. Qed.
Lemma conn_setEntity c e Q : goodConn g F c -> (forall c', goodConn g F c' -> entity c' = Some e -> Q tt c') -> returns (setEntity e) c Q.
Proof. intros Hc HQ. apply returns_modify, HQ; [|done]. by destruct Hc. Qed.
Lemma conn_SetVerdict v msg key ctx c : goodConn g F c ->
  goodConn g (withVerdict v F) (SetVerdict g v msg key ctx c) /\ entity (SetVerdict g v msg key ctx c) = entity c.
Proof.
  intros [H1 H2 H3 H4 H5 H6 _ H8].
  assert (forall x, Type_ x = Type_ c -> Inbound x = Inbound c -> IPProtocol x = IPProtocol c -> LocalIP x = LocalIP c ->
    LocalPort x = LocalPort c -> ResolverScope x = ResolverScope c -> process x = process c -> verdict x = v ->
    goodConn g (withVerdict v F) x) as Hx.
  { intros x E1 E2 E3 E4 E5 E6 E7 E8. split; simpl; try congruence. rewrite E7. destruct H8 as (p & lp & Hp & Hf & Hl & [G1 G2 G3 G4]).
    exists p, lp. split; [done|]. split; [done|]. split; [done|]. by split. }
  unfold SetVerdict. case_bool_decide; [split; [by apply Hx|done]|]. destruct (ProcProfile _); (split; [by apply Hx|done]).
Qed.
Lemma conn_same c : goodConn g F c -> goodConn g (withVerdict (fVerdict F) F) c.
Proof.
  intros [H1 H2 H3 H4 H5 H6 H7 (p & lp & Hp & Hf & Hl & [G1 G2 G3 G4])]. split; try done.
  exists p, lp. split; [done|]. split; [done|]. split; [done|]. by split.
Qed.
(** The connection has the verdict [v], its process and profile, and some entity. *)
Definition settled (v : Verdict) (c : Connection) : Prop := goodConn g (withVerdict v F) c /\ is_Some (entity c).
Lemma good_settled c : good g F c -> settled (fVerdict F) c.
Proof. intros [Hc (e & He & _)]. split; [by apply conn_same|by exists e]. Qed.

(** ** CNAMEs *)
Lemma MatchFilterLists_lp lp e : goodLP g F lp -> exists r lists e' lp',
  MatchFilterLists g lp e = (r, lists, e', lp') /\ goodLP g F lp'.
Proof.
  intros Hlp. unfold MatchFilterLists.
  destruct (goodLP_option g F FilterSubDomains lp Hlp) as [_ Hg1].
  destruct (wrapBoolOption g FilterSubDomains lp) as [sub lp1]. simpl in Hg1.
  destruct (goodLP_option g F FilterCNAMEs lp1 Hg1) as [_ Hg2].
  destruct (wrapBoolOption g FilterCNAMEs lp1) as [cn lp2]. simpl in Hg2.
  set (e2 := EnableCNAMECheck _ _). clearbody e2.
  assert (forall l, exists r lists e', matchListIDs l e2 = (r, lists, e')) as Hids.
  { intros l. destruct (matchListIDs l e2) as [[r lists] e']. by eexists _, _, _. }
  destruct (first_some _ (layers lp2)) as [lists|]; [|destruct (cfgFilterLists g) as [|l0 lists]].
  - destruct (Hids lists) as (r & re & e' & ->). by eexists _, _, _, _.
  - by eexists _, _, _, _.
  - destruct (Hids (l0 :: lists)) as (r & re & e' & ->). by eexists _, _, _, _.
Qed.
Lemma blockByCNAME_ok reason ctx c : goodConn g F c -> is_Some (entity c) ->
  returns (blockByCNAME g reason ctx) c (fun b c' => b = true /\ settled VerdictBlock c').
Proof.
  intros Hc He. apply returns_bind, returns_modify, returns_ret. split; [done|].
  destruct (conn_SetVerdict VerdictBlock reason (boolKey FilterCNAMEs) ctx c Hc) as [H1 H2]. split; [done|].
  unfold BlockWithContext. by rewrite H2.
Qed.
Lemma mayBlockCNAMEs_ok c : envOk -> good g F c ->
  returns (mayBlockCNAMEs g) c (fun b c' => settled (if b : bool then VerdictBlock else fVerdict F) c').
Proof.
  intros [Hord Herr _] Hc. unfold mayBlockCNAMEs. step.
  destruct (opt g F FilterCNAMEs); simpl; cbv iota; [|apply returns_ret; by apply good_settled].
  step. apply returns_bind. destruct Hc0 as [Hc0 He0].
  assert (ready (EnableCNAMECheck true (ResetLists e))) as Hr by (destruct (ge_located _ _ He) as [Hr _]; by destruct Hr).
  set (e1 := EnableCNAMECheck true (ResetLists e)) in *. clearbody e1.
  apply conn_setEntity; [done|]. intros c1 Hc1 He1. apply returns_bind. unfold matchRules.
  apply returns_bind, conn_getLP; [done|]. intros lp Hlp. apply returns_bind. eapply conn_getEntity; [exact He1|].
  destruct (matchLayers_ok endpoints (layers lp) (cfgEndpoints g) e1 Herr Hord Hr) as (v & e2 & Hm & _ & Hrs & _).
  apply returns_bind. eapply returns_call; [exact Hm|]. cbv beta iota.
  apply returns_bind, conn_setEntity; [done|]. intros c2 Hc2 He2. apply returns_ret.
  assert (settled (fVerdict F) c2) as Hs2 by (split; [by apply conn_same|by eexists]).
  destruct v as [r [x|]]; unfold reasoned in Hrs; simpl in Hrs.
  - destruct r; try (by apply returns_ret); [by destruct Hrs as [_ Hrs]; specialize (Hrs eq_refl)|].
    apply returns_bind. eapply returns_deref; [reflexivity|].
    eapply returns_mono; [apply blockByCNAME_ok; [done|by eexists]|]. by intros b c' [-> ?].
  - destruct Hrs as [Hrs _]. rewrite (Hrs eq_refl). apply returns_bind, conn_getLP; [done|]. intros lp2 Hlp2.
    apply returns_bind. eapply conn_getEntity; [exact He2|].
    destruct (MatchFilterLists_lp lp2 e2 Hlp2) as (r2 & lists & e3 & lp3 & -> & Hlp3).
    apply returns_bind, conn_setLP; [done..|]. intros c3 Hc3 E3.
    apply returns_bind, conn_setEntity; [done|]. intros c4 Hc4 He4.
    assert (settled (fVerdict F) c4) as Hs4 by (split; [by apply conn_same|by eexists]).
    destruct r2; try (by apply returns_ret).
    eapply returns_mono; [apply blockByCNAME_ok; [done|by eexists]|]. by intros b c' [-> ?].
Qed.

(** ** Responses *)
Definition ownProcess : bool := Pid (fProcess F) =? ownPID.
(** Whether responses to the app are filtered at all. *)
Definition filters : bool := negb ownProcess && (opt g F RemoveOutOfScopeDNS || opt g F RemoveBlockedDNS).
Definition filteredResponse (rs : IPScope) (rr : RRCache) : RRCache :=
  if filters then
    let entries := FilteredEntries rr ++ map formatRR (refusedOf rs (CAnswer rr)) ++ map formatRR (refusedOf rs (CExtra rr)) in
    rr <| CAnswer ::= allowedOf rs |> <| CExtra ::= allowedOf rs |> <| FilteredEntries := entries |>
       <| Filtered := Filtered rr || negb (bool_decide (entries = [])) |>
  else rr.
(** Something was removed, and no address is left in the answer. *)
Definition emptied (rs : IPScope) (rr : RRCache) : bool :=
  filters && negb (bool_decide (FilteredEntries (filteredResponse rs rr) = [])) &&
  negb (existsb isAddress (CAnswer (filteredResponse rs rr))).
Lemma count_existsb {A} (f : A -> bool) l : (Z.of_nat (length (List.filter f l)) =? 0) = negb (existsb f l).
Proof. induction l as [|x l IH]; [done|]. simpl. destruct (f x); [|done]. cbn [orb negb length]. apply Z.eqb_neq. lia. Qed.

Lemma filterDNSResponse_ok rr info c : good g F c -> CResolver rr = Some info ->
  returns (filterDNSResponse g rr (sysResolver F)) c (fun rr' c' => rr' = filteredResponse (RIPScope info) rr /\
    if emptied (RIPScope info) rr then settled VerdictBlock c' else good g F c').
Proof.
  intros Hc Hi. unfold filterDNSResponse, emptied, filteredResponse, filters, ownProcess. step.
  rewrite (proj1 (proc_fields _ _ Hp)). destruct (Pid (fProcess F) =? ownPID); simpl; cbv iota; [by apply returns_ret|].
  set (rs := RIPScope info).
  step. apply returns_bind. eapply (returns_mono _ _ (fun b c' => b = (opt g F RemoveOutOfScopeDNS || opt g F RemoveBlockedDNS) /\ good g F c')).
  { destruct (opt g F RemoveOutOfScopeDNS); [by apply returns_ret|]. by apply (returns_option _ F). }
  intros b c1 [-> Hc1]. destruct (_ || _); simpl; cbv iota; [|by apply returns_ret].
  apply returns_bind. eapply returns_deref; [exact Hi|].
  apply returns_bind. eapply returns_mono; [by apply filterDNSSection_ok|]. intros a c2 (Hc2 & A1 & A2 & A3).
  apply returns_bind. eapply returns_mono; [by apply filterDNSSection_ok|]. intros x c3 (Hc3 & X1 & X2 & _). fold rs in A1, A2, A3, X1, X2.
  cbv zeta. rewrite A1, A2, X1, X2, A3, count_existsb. simpl.
  set (entries := FilteredEntries rr ++ _).
  destruct (bool_decide (entries = [])) eqn:Ee; simpl.
  - apply returns_ret. rewrite orb_false_r. split; [by destruct rr|done].
  - rewrite orb_true_r. destruct (existsb isAddress (allowedOf rs (CAnswer rr))) eqn:Ex; simpl; cbv iota.
    + by apply returns_ret.
    + apply returns_bind, returns_modify, returns_ret. split; [done|]. destruct Hc3 as [Hc3 (e & He & _)].
      match goal with |- settled _ (Block _ ?m ?k _) => destruct (conn_SetVerdict VerdictBlock m k NoCtx c3 Hc3) as [H1 H2] end.
      split; [done|]. exists e. unfold Block, BlockWithContext. by rewrite H2.
Qed.

(** What becomes of the verdict: [VerdictAccept] is the grant for connectivity checks. *)
Definition verdictAfter (info : ResolverInfo) (rr : RRCache) (v : Verdict) : Prop :=
  if eqs (RType info) ServerTypeEnv then v = fVerdict F
  else if connectivityGrant g F then v = VerdictAccept
  else if emptied (RIPScope info) rr then v = VerdictBlock
  else v = fVerdict F \/ v = VerdictBlock /\ sysResolver F = false.
Definition responseAfter (info : ResolverInfo) (rr : RRCache) : RRCache :=
  if eqs (RType info) ServerTypeEnv || connectivityGrant g F then rr else filteredResponse (RIPScope info) rr.
Lemma FilterResolvedDNS_ok rr info c : envOk -> good g F c -> fVerdict F <> VerdictBlock -> CResolver rr = Some info ->
  returns (FilterResolvedDNS g rr) c (fun rr' c' => rr' = Some (responseAfter info rr) /\
    exists v, verdictAfter info rr v /\ settled v c').
Proof.
  intros Henv Hc Hv Hi. unfold FilterResolvedDNS, verdictAfter, responseAfter. step.
  destruct (proj1 Hc) as [_ _ _ _ _ _ _ (p & lp & Hp & _ & Hl & _)]. rewrite Hp. simpl. rewrite Hl.
  apply returns_bind. eapply returns_deref; [exact Hi|].
  destruct (eqs (RType info) ServerTypeEnv); simpl; cbv iota.
  { apply returns_ret. split; [done|]. exists (fVerdict F). split; [done|]. by apply good_settled. }
  apply returns_bind. eapply returns_mono; [by apply checkConnectivityDomain_ok|]. unfold when.
  destruct (connectivityGrant g F); simpl; cbv iota.
  { intros b c1 [-> Hd]. apply returns_ret. split; [done|]. exists VerdictAccept. split; [done|].
    destruct (decidedAs_good _ _ _ Hd) as [H1 (e & H2 & _)]. split; [exact H1|by exists e]. }
  intros b c1 [-> Hc1]. step. destruct (proc_good _ _ c1 Hc1) as (_ & _ & _ & Hsys & _). rewrite Hsys.
  apply returns_bind. eapply returns_mono; [by apply filterDNSResponse_ok|]. intros rr' c2 [-> Hc2]. step.
  destruct (emptied (RIPScope info) rr) eqn:Ee.
  { rewrite (gc_verdict _ _ _ (proj1 Hc2)). simpl. apply returns_ret. split; [done|]. by exists VerdictBlock. }
  rewrite (gc_verdict _ _ _ (proj1 Hc2)). rewrite bool_decide_false by done.
  destruct (sysResolver F).
  - apply returns_bind, returns_ret, returns_ret. split; [done|]. exists (fVerdict F). split; [by left|]. by apply good_settled.
  - apply returns_bind. eapply returns_mono; [by apply mayBlockCNAMEs_ok|]. intros b c3 Hc3. apply returns_ret. split; [done|].
    eexists. split; [|exact Hc3]. destruct b; [right|left]; done.
Qed.
Lemma allowed_off rs l : opt g F RemoveOutOfScopeDNS || opt g F RemoveBlockedDNS = false -> allowedOf rs l = l.
Proof.
  intros [H1 H2]%orb_false_iff. unfold allowedOf. induction l as [|rr l IH]; [done|]. simpl. rewrite IH.
  unfold recordAllowed, addressAllowed. rewrite H1, H2. by destruct (addressData (Data rr)).
Qed.
Lemma refused_nil rs l : refusedOf rs l = [] -> allowedOf rs l = l.
Proof.
  unfold refusedOf, allowedOf. induction l as [|rr l IH]; [done|]. simpl.
  destruct (recordAllowed rs rr); simpl; [|done]. intros H. by rewrite IH.
Qed.
(** What remains of a response, whether filters apply or not. *)
Lemma filtered_sections rs rr : ownProcess = false ->
  CAnswer (filteredResponse rs rr) = allowedOf rs (CAnswer rr) /\ CExtra (filteredResponse rs rr) = allowedOf rs (CExtra rr) /\
  (CAnswer (filteredResponse rs rr) ++ CExtra (filteredResponse rs rr) <> CAnswer rr ++ CExtra rr ->
   existsb isAddress (CAnswer (filteredResponse rs rr)) = false -> emptied rs rr = true).
Proof.
  intros Hown. unfold emptied, filteredResponse, filters. rewrite Hown. simpl.
  destruct (opt g F RemoveOutOfScopeDNS || opt g F RemoveBlockedDNS) eqn:Eo; simpl.
  - split; [done|]. split; [done|]. intros Hne Hex. rewrite Hex. simpl. rewrite andb_true_r. apply negb_true_iff, bool_decide_eq_false.
    intros [_ [H1%fmap_nil_inv H2%fmap_nil_inv]%app_eq_nil]%app_eq_nil. apply refused_nil in H1, H2. congruence.
  - rewrite !allowed_off by done. done.
Qed.
Lemma response_fields info rr : (CDomain (responseAfter info rr), CRCode (responseAfter info rr), CNs (responseAfter info rr), CResolver (responseAfter info rr))
  = (CDomain rr, CRCode rr, CNs rr, CResolver rr).
Proof. unfold responseAfter, filteredResponse. by repeat case_match. Qed.
End facts.
End filter.

Lemma filtered_after `{IntelEnv} `{UnicodeTables} `{FirewallEnv} `{RRText} g F v0 c1 rr info :
  envOk -> decidedAs g F v0 c1 -> v0 <> VerdictBlock -> CResolver rr = Some info ->
  exists rr' c2, FilterResolvedDNS g rr c1 = Ret (Some rr', c2) /\
    (CDomain rr', CRCode rr', CNs rr', CResolver rr') = (CDomain rr, CRCode rr, CNs rr, CResolver rr) /\
    if eqs (RType info) ServerTypeEnv || connectivityGrant g F || ownProcess F
    then CAnswer rr' = CAnswer rr /\ CExtra rr' = CExtra rr
    else CAnswer rr' = List.filter (recordAllowed g F (RIPScope info)) (CAnswer rr) /\
      CExtra rr' = List.filter (recordAllowed g F (RIPScope info)) (CExtra rr) /\
      (CAnswer rr' ++ CExtra rr' <> CAnswer rr ++ CExtra rr -> existsb isAddress (CAnswer rr') = false -> verdict c2 = VerdictBlock).
Proof.
  intros Henv Hc1 Hv Hi. pose proof (decidedAs_good g F _ _ Hc1) as Hg.
  destruct (FilterResolvedDNS_ok g _ rr info c1 Henv Hg Hv Hi) as (rr' & c2 & Hres & -> & v & Hva & [Hc2 _]).
  exists (responseAfter g (withVerdict v0 F) info rr), c2. split; [exact Hres|]. split; [apply response_fields|].
  pose proof (gc_verdict _ _ _ Hc2) as Hvc. simpl in Hvc. rewrite <- Hvc in Hva.
  unfold responseAfter, verdictAfter in *. change (connectivityGrant g (withVerdict _ F)) with (connectivityGrant g F) in *.
  destruct (eqs (RType info) ServerTypeEnv); simpl in *; [done|]. destruct (connectivityGrant g F); simpl in *; [done|].
  destruct (ownProcess F) eqn:Eown.
  - unfold filteredResponse, filters. change (ownProcess (withVerdict _ F)) with (ownProcess F). by rewrite Eown.
  - destruct (filtered_sections g (withVerdict v0 F) (RIPScope info) rr Eown) as (A1 & A2 & A3).
    split; [exact A1|]. split; [exact A2|]. intros Hne Hex. specialize (A3 Hne Hex). by rewrite A3 in Hva.
Qed.

(** C38. A response to a DNS request that was not blocked is given to the app with exactly
    the addresses that the profile allows: none of the device itself, none of the local
    network from a resolver on the Internet, none in a blocked scope, as far as these
    options are on.  Other records stay.  If something was removed and no address is left
    in the answer the request is blocked; it can also be blocked by its domain or CNAMEs.
    Responses of the environment, the app's own ones and those permitted to get online are
    left alone.  Filtering never panics. *)
Theorem dns_filtered `{IntelEnv} `{UnicodeTables} `{FirewallEnv} `{RRText} g c p lp e c1 rr info :
  let F := factsOf g c p lp e in
  envOk -> connOk g c p lp e ->
  (bool_decide (Type_ c = DNSRequest) && IsSystemResolver (Some p) = true -> localProfile (updatedLP g lp) <> None) ->
  decideOnConnection g c = Ret (tt, c1) -> policy g F <> VerdictBlock -> CResolver rr = Some info ->
  exists rr' c2, FilterResolvedDNS g rr c1 = Ret (Some rr', c2) /\
    (CDomain rr', CRCode rr', CNs rr', CResolver rr') = (CDomain rr, CRCode rr, CNs rr, CResolver rr) /\
    if eqs (RType info) ServerTypeEnv || connectivityGrant g F || ownProcess F
    then CAnswer rr' = CAnswer rr /\ CExtra rr' = CExtra rr
    else CAnswer rr' = List.filter (recordAllowed g F (RIPScope info)) (CAnswer rr) /\
      CExtra rr' = List.filter (recordAllowed g F (RIPScope info)) (CExtra rr) /\
      (CAnswer rr' ++ CExtra rr' <> CAnswer rr ++ CExtra rr -> existsb isAddress (CAnswer rr') = false -> verdict c2 = VerdictBlock).
Proof.
  intros F Henv Hok Hl Hd Hv Hi. destruct (decide_settled g c p lp e Henv Hok Hl) as (c1' & Hd' & Hc1).
  rewrite Hd in Hd'. injection Hd' as <-. exact (filtered_after g _ _ c1 rr info Henv Hc1 Hv Hi).
Qed.

(** ** Demonstration *)
Module DnsFilterDemo.
Definition settings : Perspective := ProfileDemo.set RemoveOutOfScopeDNS true.
Definition lp : LayeredProfile := FirewallDemo.layered settings false.
Definition app : Process := FirewallDemo.proc $"local/app" lp.
Definition asked : Entity := EntityInit 0 (newEntity None 0 0 $"a.example." []).
Definition request : Connection := FirewallDemo.conn DNSRequest false app asked.
Definition g : Cfg := FirewallDemo.cfg false.
(** An address of the Internet and one of the local network. *)
Definition a (ip : IP) : RR := mkRR $"a.example." TypeA ClassINET 17 (DataA ip).
Definition response : RRCache :=
  freshCache $"a.example." TypeA RcodeSuccess [a [192; 0; 2; 1]; a [192; 168; 1; 5]] [] [] DatabaseDemo.resolver.
Lemma request_in_use : inUse (IE := Demo.env) g request app lp asked.
Proof.
  split; [reflexivity|reflexivity|reflexivity| |].
  - exists 0%nat, g, (FirewallDemo.app settings false). split; [apply nsteps_O|lia].
  - exists None, 0, 0, $"a.example.", [], 0, []. reflexivity.
Defined.
End DnsFilterDemo.
Import DnsFilterDemo.
#[local] Existing Instances Demo.env FirewallDemo.unicode FirewallDemo.env NameStoreDemo.text.
(** The address of the local network is removed. *)
Lemma dns_filtered_witness :
  exists c1 rr' c2, decideOnConnection g request = Ret (tt, c1) /\ verdict c1 = VerdictAccept /\
    FilterResolvedDNS g response c1 = Ret (Some rr', c2) /\ CAnswer rr' = [a [192; 0; 2; 1]].
Proof.
  assert (connOk g request app lp asked) as Hok by (apply inUse_ok; exact request_in_use).
  assert (bool_decide (Type_ request = DNSRequest) && IsSystemResolver (Some app) = true -> localProfile (updatedLP g lp) <> None) as Hl
    by (intros H; vm_compute in H; discriminate).
  destruct (decide_ok g request app lp asked (FirewallDemo.env_ok ProfileDemo.fetch) Hok Hl) as (c1 & Hd & Hv).
  assert (policy g (factsOf g request app lp asked) = VerdictAccept) as Hp by (vm_compute; reflexivity).
  assert (policy g (factsOf g request app lp asked) <> VerdictBlock) as Hb by (rewrite Hp; discriminate).
  destruct (dns_filtered g request app lp asked c1 response DatabaseDemo.resolver (FirewallDemo.env_ok ProfileDemo.fetch) Hok Hl Hd Hb eq_refl)
    as (rr' & c2 & Hr & _ & H).
  match type of H with if ?b then _ else _ => assert (b = false) as Hn by (vm_compute; reflexivity); rewrite Hn in H end.
  destruct H as (Ha & _).
  exists c1, rr', c2. split; [exact Hd|]. split; [rewrite Hv; exact Hp|]. split; [exact Hr|]. rewrite Ha. vm_compute. reflexivity.
Defined.
