(* ===== verification/Nameserver.v ===== *)
(** * The DNS server (service/nameserver, service/network/dns.go)

    [handleRequest] answers a DNS request: it finds the process behind it, lets the
    privacy filter decide, resolves, filters the response and records what was resolved.
    Messages are those of [github.com/miekg/dns]; writing them to the socket is left out.
    Finding processes is part of the environment. *)

From S2P Require Import Prelude GoStrings GoText GoNet NetUtils Reference Entity Endpoints Profile Connection Firewall.
From S2P Require Import NameRecords Resolvers ResolverSetup RRCache Resolve DnsFilter.

(** ** Messages *)
Record Question := mkQuestion { QName : str; Qtype : Z; Qclass : Z }.
Record Request := mkRequest { MsgId : Z; Questions : list Question }.
Record Reply := mkReply {
  Rcode : Z; RpAnswer : list RR; RpNs : list RR; RpExtra : list RR; RecursionAvailable : bool;
}.
#[export] Instance eta_Reply : Eta Reply := fun r =>
  mkReply (Rcode r) (RpAnswer r) (RpNs r) (RpExtra r) (RecursionAvailable r).
(** [SetRcode] copies the question of the request. *)
Definition rcodeReply (rcode : Z) : Reply := mkReply rcode [] [] [] false.

(** [time.Duration]: the fraction of [v] with [prec] digits, rounding, and the text. *)
Fixpoint padZeros (n : nat) (s : str) : str :=
  match n with O => s | S n => if (length s <? S n)%nat then "0"%char :: padZeros n s else s end.
Definition fmtFrac (v : Z) (prec : nat) : str :=
  let f := Z.rem v (10 ^ Z.of_nat prec) in
  if f =? 0 then [] else $"." ++ rev (trimLeft "0" (rev (padZeros prec (Itoa f)))).
Definition Round (d m : Z) : Z :=
  let r := Z.rem (Z.abs d) m in
  Z.sgn d * (if r + r <? m then Z.abs d - r else Z.abs d + m - r).
Definition DurationString (d : Z) : str :=
  if d =? 0 then $"0s" else
  let u := Z.abs d in
  let body :=
    if u <? 1000 then Itoa u ++ $"ns"
    else if u <? 1000000 then Itoa (u / 1000) ++ fmtFrac u 3 ++ ["194"%char; "181"%char; "s"%char]
    else if u <? 1000000000 then Itoa (u / 1000000) ++ fmtFrac u 6 ++ $"ms"
    else
      let s := u / 1000000000 in
      (if s <? 60 then [] else if s <? 3600 then Itoa (s / 60) ++ $"m"
       else Itoa (s / 3600) ++ $"h" ++ Itoa ((s / 60) mod 60) ++ $"m") ++
      Itoa (s mod 60) ++ fmtFrac u 9 ++ $"s" in
  if d <? 0 then $"-" ++ body else body.

(** ** Responders (nsutil.go) *)
Definition InfoLevel : str := $"info".
Definition ErrorLevel : str := $"error".
Definition errNilRR : str := $"is nil".
Definition quote : str := ["034"%char].

Section replies.
Context {RT : RRText}.

Definition MakeMessageRecord (level msg : str) : outcome str RR :=
  match NewRR (level ++ $".portmaster. 0 IN TXT " ++ quote ++ msg ++ quote) with
  | Ret (Some rr) => Ret rr
  | Ret None => Err errNilRR
  | Err e => Err e
  | Panic => Panic
  end.
(** The messages that can be made into records. *)
Definition messageRecords (level : str) (msgs : list str) : list RR :=
  omap (fun msg => match MakeMessageRecord level msg with Ret rr => Some rr | _ => None end) msgs.
(** Empty messages are ignored. *)
Definition AddMessagesToReply (level : str) (msgs : list str) (reply : Reply) : Reply :=
  reply <| RpExtra ::= fun l => l ++ messageRecords level (List.filter (fun msg => negb (bool_decide (msg = []))) msgs) |>.
(** The records that answer the questions, and whether there was an error. *)
Definition addressAnswers (aAnswer aaaaAnswer : str) (qs : list Question) : list RR * bool :=
  foldl (fun '(l, hasErr) q =>
    let answer :=
      if Qtype q =? TypeA then NewRR (QName q ++ $" 1 IN A " ++ aAnswer)
      else if Qtype q =? TypeAAAA then NewRR (QName q ++ $" 1 IN AAAA " ++ aaaaAnswer)
      else Ret None in
    match answer with Ret (Some rr) => (l ++ [rr], hasErr) | Ret None => (l, hasErr) | _ => (l, true) end) ([], false) qs.
Definition createResponderFunc (aAnswer aaaaAnswer : str) (msgs : list str) (request : Request) : Reply :=
  let '(answer, hasErr) := addressAnswers aAnswer aaaaAnswer (Questions request) in
  let rcode := match answer with
               | [] => if hasErr : bool then RcodeServerFailure else RcodeNameError
               | _ => RcodeSuccess
               end in
  AddMessagesToReply InfoLevel msgs ((rcodeReply rcode) <| RpAnswer := answer |>).
Definition BlockIP : list str -> Request -> Reply := createResponderFunc $"0.0.0.17" $"::17".
Definition ZeroIP : list str -> Request -> Reply := createResponderFunc $"0.0.0.0" $"::".
Definition Localhost : list str -> Request -> Reply := createResponderFunc $"127.0.0.1" $"::1".
Definition NxDomain (msgs : list str) (_ : Request) : Reply := AddMessagesToReply InfoLevel msgs (rcodeReply RcodeNameError).
Definition Refused (msgs : list str) (_ : Request) : Reply := AddMessagesToReply InfoLevel msgs (rcodeReply RcodeRefused).
Definition ServerFailure (msgs : list str) (_ : Request) : Reply := AddMessagesToReply InfoLevel msgs (rcodeReply RcodeServerFailure).

(** ** Connections as responders (network/dns.go, intel/block_reason.go) *)
Definition connReply (c : Connection) (request : Request) : option Reply :=
  match verdict c with
  | VerdictBlock | VerdictFailed => Some (BlockIP [] request)
  | VerdictDrop => None
  | _ => Some (AddMessagesToReply ErrorLevel [$"INTERNAL ERROR: incorrect use of Connection DNS Responder"] (ServerFailure [] request))
  end.
Definition listExtraRRs (br : list ListMatch) : list RR :=
  br ≫= fun lm =>
    messageRecords InfoLevel [LMEntity lm ++ $" is blocked by filter lists " ++ Join (ActiveLists lm) $", "] ++
    match InactiveLists lm with
    | [] => []
    | l => messageRecords InfoLevel [LMEntity lm ++ $" would be blocked by filter lists " ++ Join l $", "]
    end.
Definition connExtraRRs (c : Connection) : list RR :=
  let level := match verdict c with VerdictFailed => ErrorLevel | _ => InfoLevel end in
  match MakeMessageRecord level (VerdictVerb c ++ $": " ++ Msg (reasonInfo c)) with
  | Ret rr => rr :: match Context (reasonInfo c) with ListsCtx br => listExtraRRs br | _ => [] end
  | _ => []
  end.

(** ** Responses as responders (rrcache.go) *)
Definition cacheReply (rr : RRCache) : Reply := mkReply (CRCode rr) (CAnswer rr) (CNs rr) (CExtra rr) false.
(** [now] in nanoseconds; [None]: a nil resolver. *)
Definition cacheExtraRRs (now : Z) (rr : RRCache) : option (list RR) :=
  info ← CResolver rr;
  let until := CExpires rr * second - now in
  let n := length (FilteredEntries rr) in
  Some (messageRecords InfoLevel
    ([(if ServedFromCache rr then $"served from cache, resolved by " else $"freshly resolved by ") ++ DescriptiveName info;
      if CExpires rr =? 0 then $"record does not expire"
      else if Expired (Unix now) rr then $"record expired since " ++ DurationString (Round (- until) second)
      else $"record valid for " ++ DurationString (Round until second)] ++
     (if RequestingNew rr then [$"async request to refresh the cache has been started"] else []) ++
     (if IsBackup rr then [$"this record is served because a fresh request was unsuccessful"] else []) ++
     (if Filtered rr
      then (Itoa (Z.of_nat n) ++ (if (1 <? n)%nat then $" RRs have been filtered:" else $" RR has been filtered:")) :: FilteredEntries rr
      else []))).
(** [sendResponse]: the reply that is written. *)
Definition sendResponse (reply : Reply) (extra : list RR) : Reply :=
  reply <| RecursionAvailable := true |> <| RpExtra ::= fun l => l ++ extra |>.
End replies.

(** ** Failing queries (failing.go) *)
Record failingQuery := mkFailing { Until : Z; Keep : Z; Times : Z; FailErr : DnsErr }.
Definition millisecond : Z := 1000000.
Definition failingDelay : Z := 900 * millisecond.
Definition failingBaseDuration : Z := 900 * millisecond.
Definition failingFactorDuration : Z := 500 * millisecond.
Definition failingMaxDuration : Z := 30 * second.
Definition failingKeepAddedDuration : Z := 10 * second.
(** [networkChanged]: the network changed since the last check. *)
Definition checkIfQueryIsFailing (now : Z) (networkChanged : bool) (id : str) (m : gmap str failingQuery)
    : option failingQuery * gmap str failingQuery :=
  if networkChanged then (None, ∅)
  else match m !! id with
  | None => (None, m)
  | Some f => (if Until f <? now then None else Some f, m)
  end.
Definition addFailingQuery (now : Z) (id : str) (err : DnsErr) (m : gmap str failingQuery) : gmap str failingQuery :=
  let f := default (mkFailing 0 0 0 err) (m !! id) in
  let failDuration := Z.min (failingBaseDuration + Times f * failingFactorDuration) failingMaxDuration in
  let until := now + failDuration in
  <[id := mkFailing until (until + failingKeepAddedDuration) (Times f + 1) (FailErr f)]> m.
(** [keys]: the keys in the order of iteration. *)
Fixpoint cleanFailingQueries (now : Z) (keys : list str) (maxRemove maxMiss : Z) (m : gmap str failingQuery)
    : gmap str failingQuery :=
  match keys with
  | [] => m
  | key :: keys =>
      match m !! key with
      | None => cleanFailingQueries now keys maxRemove maxMiss m
      | Some f =>
          if Keep f <? now then
            let m := delete key m in
            if maxRemove - 1 =? 0 then m else cleanFailingQueries now keys (maxRemove - 1) maxMiss m
          else if maxMiss - 1 =? 0 then m
          else cleanFailingQueries now keys maxRemove (maxMiss - 1) m
      end
  end.

(** ** State *)
Class NameserverEnv := {
  hostname : str; networkServiceMode : bool; filterEnabled : bool;
  (** The process and profile behind a local address, or of a host of the network. *)
  processOf : IP -> Z -> Process;
  GetNetworkHost : IP -> outcome str Process;
}.

Section server.
Context {IE : IntelEnv} {UT : UnicodeTables} {FE : FirewallEnv} {DL : DNSLib} {RE : ResolverEnv} {RT : RRText} {TL : Timeline}.
Context {S : Type} {DB : NameDB S} {NE : NameserverEnv} (g : Cfg) (dnsg : DnsConfig).

Record Server := mkServer {
  resolverWorld : World (S := S);
  failingQueries : gmap str failingQuery;
  (** By process, domain and type. *)
  openDNSRequests : gmap (Z * str * Z) Connection;
  (** What is saved: connections, and addresses with the profile and domain. *)
  savedConns : list Connection;
  savedIPs : list (list IP * str * ResolvedDomain);
}.
#[export] Instance eta_Server : Eta Server := fun s =>
  mkServer (resolverWorld s) (failingQueries s) (openDNSRequests s) (savedConns s) (savedIPs s).
(** The times of the steps of a request, in nanoseconds; what others did while it waited
    for an equal query, if it did; and the order of the failing queries when they are cleaned. *)
Record Moment := mkMoment {
  tCheck : Z; networkChanged : bool; tCache : Z; waited : option (World (S := S) -> World (S := S)); tCacheAgain : Z; tFail : Z; tReply : Z; tClean : Z; cleanOrder : list str;
}.

(** The monad of a request: its connection and the server. *)
Record NS := mkNS { nconn : Connection; nsrv : Server }.
#[export] Instance eta_NS : Eta NS := fun s => mkNS (nconn s) (nsrv s).
Definition N (A : Type) := NS -> outcome str (A * NS).
#[export] Instance N_ret : MRet N := fun A a s => Ret (a, s).
#[export] Instance N_bind : MBind N := fun A B f m s =>
  match m s with Ret (a, s) => f a s | Err e => Err e | Panic => Panic end.
Definition liftM {A} (m : M A) : N A := fun s =>
  match m (nconn s) with Ret (a, c) => Ret (a, s <| nconn := c |>) | Err e => Err e | Panic => Panic end.
Definition getConn : N Connection := fun s => Ret (nconn s, s).
Definition getSrv : N Server := fun s => Ret (nsrv s, s).
Definition modSrv (f : Server -> Server) : N unit := fun s => Ret (tt, s <| nsrv ::= f |>).
Definition setVerdict (f : Connection -> Connection) : N unit := liftM (modify f).
Definition saveConn : N unit := c ← getConn; modSrv (fun s => s <| savedConns ::= fun l => l ++ [c] |>).

(** ** Alternative domains *)
Definition makeAlternativeRecord (q : Query) (rr : RRCache) (altName : str) : RRCache :=
  let copied := omap (fun answer => if eqs (ToLower (RRName answer)) altName then Some (answer <| RRName := FQDN q |>) else None) (CAnswer rr) in
  rr <| CAnswer ::= fun l => l ++ copied |> <| CDomain := FQDN q |>.
Definition checkAlternativeCaches (q : Query) : N (option RRCache) :=
  if ICANNSpace q then mret None else
  let pmEnvFQDN := FQDN q ++ $"local." ++ InternalSpecialUseDomain in
  let rr := envQuery (mkQuery pmEnvFQDN (QType q) false false false false [] []) in
  if CRCode rr =? RcodeSuccess then mret (Some (makeAlternativeRecord q rr pmEnvFQDN)) else
  let localFQDN := FQDN q ++ $"local." in
  s ← getSrv;
  let '(rr, w) := GetRRCache localFQDN (QType q) (resolverWorld s) in
  modSrv (fun s => s <| resolverWorld := w |>) ;;
  match rr with
  | Some rr => mret (if CRCode rr =? RcodeSuccess then Some (makeAlternativeRecord q rr localFQDN) else None)
  | None => mret None
  end.

(** ** Connections of requests (network/connection.go) *)
(** A new connection of a DNS request; its process was found before. *)
Definition newDNSConnection (now : Z) (p : Process) (fqdn : str) : Connection :=
  mkConn DNSRequest fqdn false 0 [] Undefined 0
    (Some ((newEntity None 0 0 fqdn []) <| EIPScope := Global |>))
    None VerdictUndecided (mkReasonInfo [] [] [] NoCtx) now false false
    (match profile p ≫= localProfile with Some pr => Profile.Internal pr | None => false end)
    true (Some p) false 0.
(** Requests that went out, or started a refresh, are kept for the connection that may
    follow; types that lead to no connection are saved. *)
Definition supportedTypes : list Z := [TypeA; TypeAAAA; 64; 65].
Definition SaveOpenDNSRequest (q : Query) (rr : RRCache) : N unit :=
  if ServedFromCache rr && negb (RequestingNew rr) then mret tt
  else if negb (bool_decide (QType q ∈ supportedTypes)) then saveConn
  else
    c ← getConn; p ← liftM (deref (process c)); e ← liftM (deref (entity c));
    modSrv (fun s => s <| openDNSRequests ::= <[(Pid p, Domain e, QType q) := c]> |>).

(** ** Answering *)
Definition internalError : str := $"internal error: ".
(** The responder in the context of a verdict (bypassing.go). *)
Definition specialResponder (c : Connection) : option (Request -> Reply) :=
  match Context (reasonInfo c) with
  | ResponderCtx r => Some (if eqs r $"nxdomain" then NxDomain [] else BlockIP [])
  | _ => None
  end.
Definition refused (c : Connection) : bool :=
  match verdict c with VerdictBlock | VerdictDrop | VerdictFailed => true | _ => false end.
(** What is sent, and the response that is recorded. *)
Definition answered {B} (reply : Reply) (rr : option RRCache) : N ((option Reply * option RRCache) + B) :=
  mret (inl (Some (sendResponse reply []), rr)).
(** What remains of [FilterConnection] for a connection without a port, when tunneling is
    not checked. *)
Definition filterRequest : M unit :=
  if filterEnabled then decideOnConnection g else modify (Accept g $"privacy filter disabled" noReasonOptionKey).

(** After resolving: [inl]: the request is answered. *)
Definition handleResolved (t : Moment) (req : Request) (q : Query) (rr : option RRCache) (err : option DnsErr)
    : N ((option Reply * option RRCache) + option RRCache) :=
  match err with
  | None => mret (inr rr)
  | Some e =>
      if errorsIs e ErrNotFound then
        rr ← checkAlternativeCaches q;
        match rr with
        | Some rr => mret (inr (Some rr))
        | None =>
            setVerdict (Failed g $"domain does not exist" []) ;;
            answered (NxDomain [$"nxdomain: " ++ ErrText e] req) None
        end
      else if errorsIs e ErrBlocked then
        setVerdict (Block g (ErrText e) []) ;;
        answered (BlockIP [$"blocked: " ++ ErrText e] req) rr
      else if errorsIs e ErrLocalhost then
        setVerdict (Accept g $"allowing query for localhost" []) ;;
        answered (Localhost [] req) rr
      else if errorsIs e ErrOffline then
        match rr with
        | None =>
            setVerdict (Failed g $"not resolving, device is offline" []) ;;
            answered (ServerFailure [ErrText e] req) None
        | Some rr => mret (inr (Some (rr <| IsBackup := true |>)))
        end
      else
        setVerdict (Failed g ($"query failed: " ++ ErrText e) []) ;;
        modSrv (fun s => s <| failingQueries ::= addFailingQuery (tFail t) (QID q) e |>) ;;
        answered (ServerFailure [internalError ++ ErrText e] req) rr
  end.
Definition emptyReply : DnsErr := mkErr [] $"emptry reply from resolver".
(** A missing response, and one for a name that does not exist. *)
Definition handleResponse (t : Moment) (req : Request) (q : Query) (rr : option RRCache)
    : N ((option Reply * option RRCache) + RRCache) :=
  match rr with
  | None =>
      modSrv (fun s => s <| failingQueries ::= addFailingQuery (tFail t) (QID q) emptyReply |>) ;;
      answered (ServerFailure [internalError ++ $"empty reply"] req) None
  | Some rr =>
      if CRCode rr =? RcodeNameError then
        alt ← checkAlternativeCaches q;
        match alt with
        | Some alt => mret (inr alt)
        | None => answered (NxDomain [$"no answer found (NXDomain)"] req) (Some rr)
        end
      else mret (inr rr)
  end.
(** The response is filtered and given to the app. *)
Definition replyFiltered (t : Moment) (req : Request) (originalName : option str) (rr : RRCache)
    : N (option Reply * option RRCache) :=
  rr ← liftM (FilterResolvedDNS g rr);
  c ← getConn;
  match specialResponder c with
  | Some responder => mret (Some (sendResponse (responder req) []), rr)
  | None =>
      if refused c then
        match connReply c req with
        | None => mret (None, rr)
        | Some reply =>
            rr' ← liftM (deref rr); extra ← liftM (deref (cacheExtraRRs (tReply t) rr'));
            mret (Some (sendResponse reply (connExtraRRs c ++ extra)), rr)
        end
      else
        rr ← liftM (deref rr);
        let rr := match originalName with Some name => ReplaceAnswerNames name rr | None => rr end in
        extra ← liftM (deref (cacheExtraRRs (tReply t) rr));
        mret (Some (sendResponse (cacheReply rr) (connExtraRRs c ++ extra)), Some rr)
  end.
(** [originalName]: the name as it was asked for, if it has capitals. *)
Definition answer_ (t : Moment) (req : Request) (q : Query) (originalName : option str) : N (option Reply * option RRCache * Query) :=
  liftM filterRequest ;;
  c ← getConn;
  match specialResponder c with
  | Some responder => mret (Some (sendResponse (responder req) (connExtraRRs c)), None, q)
  | None =>
      if refused c then mret ((fun r => sendResponse r (connExtraRRs c)) <$> connReply c req, None, q) else
      s ← getSrv;
      let '(rr, err, w) := Resolve dnsg (tCache t) (tCacheAgain t) (waited t) q (resolverWorld s) in
      let q := default q (check q) in
      modSrv (fun s => s <| resolverWorld := w |>) ;;
      rr ← handleResolved t req q rr err;
      match rr with
      | inl r => mret (r, q)
      | inr rr =>
          rr ← handleResponse t req q rr;
          match rr with
          | inl r => mret (r, q)
          | inr rr => r ← replyFiltered t req originalName rr; mret (r, q)
          end
      end
  end.
(** [deferred]: the request is recorded. *)
Definition finishRequest (q : Query) (rr : option RRCache) : N unit :=
  s ← getSrv;
  (match rr with
   | Some rr =>
       info ← liftM (deref (CResolver rr));
       e ← liftM getEntity;
       liftM (setEntity (e <| EIPScope := RIPScope info |>)) ;;
       liftM (modify (fun c => c <| ResolverScope := Some (RIPScope info) |>))
   | None =>
       match (GetResolversInScope dnsg (rst (resolverWorld s)) q).1.1 with
       | r :: _ => e ← liftM getEntity; liftM (setEntity (e <| EIPScope := RIPScope (Info r) |>))
       | [] => mret tt
       end
   end) ;;
  c ← getConn;
  match verdict c with
  | VerdictBlock | VerdictDrop | VerdictFailed | VerdictRerouteToNameserver | VerdictRerouteToTunnel => saveConn
  | VerdictUndecided | VerdictAccept =>
      match rr with
      | None => setVerdict (Failed g (internalError ++ $"no reply") [])
      | Some rr =>
          (if IsSystemResolver (process c) then liftM (modify (fun c => c <| Connection.Internal := true |>)) else mret tt) ;;
          ips ← liftM (UpdateIPsAndCNAMEs q (Some rr));
          modSrv (fun s => s <| savedIPs ::= fun l => l ++ option_list ips |>) ;;
          SaveOpenDNSRequest q rr
      end
  | VerdictUndeterminable => mret tt
  end.
Definition answerRequest (t : Moment) (req : Request) (q : Query) (originalName : option str) : N (option Reply) :=
  '(reply, rr, q) ← answer_ t req q originalName; finishRequest q rr ;; mret reply.

(** ** Requests *)
(** The checks that need no connection: [inl]: the request is answered; [inr]: the query,
    the name as asked for if it has capitals, and the address of the app. *)
Definition checkRequest (remote : option (IP * Z)) (req : Request) : Reply + (Query * option str * IP * Z) :=
  match Questions req with
  | [] => inl (Refused [$"no question provided"] req)
  | [question] =>
      if negb (Qclass question =? ClassINET) then inl (Refused [$"unsupported qclass"] req) else
      let name := ToLower (QName question) in
      let originalName := if eqs name (QName question) then None else Some (QName question) in
      match remote with
      | None => inl (Refused [$"unsupported transport"] req)
      | Some (ip, port) =>
          if HasSuffix name $"localhost." || eqs name hostname then inl (Localhost [] req)
          else if negb (IsValidFqdn name) then inl (Refused [$"invalid domain"] req)
          else inr (InitPublicSuffixData (mkQuery name (Qtype question) false false false false [] []), originalName, ip, port)
      end
  | _ => inl (Refused [$"multiple question provided"] req)
  end.
(** A query that failed before is answered with its error, after a delay. *)
Definition failingReply (now : Z) (f : failingQuery) (req : Request) : Reply :=
  let remaining := Until f - now in
  let msgs := [internalError ++ ErrText (FailErr f); $"delayed failing query to mitigate request flooding"] in
  ServerFailure
    (if remaining <? failingDelay then msgs
     else msgs ++ [$"error is cached for another " ++ DurationString (Round remaining millisecond)]) req.
(** The process of the request: apps of the device, and other hosts if that is on. *)
Definition requestProcess (ip : IP) (port : Z) (req : Request) : outcome str (Reply + Process) :=
  match IsMyIP (Some ip) with
  | inr _ => Ret (inl (ServerFailure [internalError ++ $" failed to check if request is local"] req))
  | inl true => Ret (inr (processOf ip port))
  | inl false =>
      if networkServiceMode then
        match GetNetworkHost ip with
        | Ret p => Ret (inr p)
        | Err _ => Ret (inl (ServerFailure [internalError ++ $"failed to get profile"] req))
        | Panic => Panic
        end
      else Ret (inl (Refused [$"external queries are not permitted"] req))
  end.
(** The reply; [None]: nothing is sent. *)
Definition handleRequest (t : Moment) (remote : option (IP * Z)) (req : Request) (srv : Server)
    : outcome str (option Reply * Server) :=
  match checkRequest remote req with
  | inl reply => Ret (Some (sendResponse reply []), srv)
  | inr (q, originalName, ip, port) =>
      let '(failing, m) := checkIfQueryIsFailing (tCheck t) (networkChanged t) (QID q) (failingQueries srv) in
      let srv := srv <| failingQueries := m |> in
      '(reply, srv) ←
        match failing with
        | Some f => Ret (Some (sendResponse (failingReply (tCheck t) f req) []), srv)
        | None =>
            p ← requestProcess ip port req;
            match p with
            | inl reply => Ret (Some (sendResponse reply []), srv)
            | inr p =>
                '(reply, s) ← answerRequest t req q originalName
                  (mkNS (newDNSConnection (Unix (tCheck t)) p (FQDN q)) srv);
                Ret (reply, nsrv s)
            end
        end;
      Ret (reply, srv <| failingQueries ::= cleanFailingQueries (tClean t) (cleanOrder t) 10 3 |>)
  end.
End server.
