(* ===== verification/NameserverProps.v ===== *)
(** * What the DNS server guarantees

    A request is answered without a panic; one that the privacy filter blocks is sent to
    no resolver; and what is answered was made by the server itself or has only addresses
    the profile allows. *)

From S2P Require Import Prelude GoStrings GoText GoNet NetUtils Reference Entity EntityFacts Endpoints.
From S2P Require Import EndpointMatch Profile ProfileFacts Connection Firewall EntityView FirewallPolicy FirewallFacts.
From S2P Require Import FirewallProps NameRecords Resolvers ResolverSetup RRCache Resolve ResolveProps DnsFilter DnsFilterProps Nameserver.

(** ** Rules of the monad *)
Section rules.
Context {St : Type}.
Implicit Types (s : NS (S := St)).
Definition nreturns {A} (m : N A) s (Q : A -> NS (S := St) -> Prop) : Prop := exists a s', m s = Ret (a, s') /\ Q a s'.
Lemma nreturns_ret {A} (a : A) s Q : Q a s -> nreturns (mret a) s Q.
Proof. intros HQ. by exists a, s. Qed.
Lemma nreturns_bind {A B} (m : N A) (f : A -> N B) s Q : nreturns m s (fun a s' => nreturns (f a) s' Q) -> nreturns (m ≫= f) s Q.
Proof.
  intros (a & s' & Hm & b & s'' & Hf & HQ). exists b, s''. split; [|done]. unfold mbind, N_bind. by rewrite Hm.
Qed.
Lemma nreturns_mono {A} (m : N A) s (Q Q' : A -> NS -> Prop) : nreturns m s Q -> (forall a s', Q a s' -> Q' a s') -> nreturns m s Q'.
Proof. intros (a & s' & Hm & HQ) H. exists a, s'. auto. Qed.
Lemma nreturns_lift {A} (m : M A) s Q : returns m (nconn s) (fun a c => Q a (s <| nconn := c |>)) -> nreturns (liftM m) s Q.
Proof. intros (a & c & Hm & HQ). exists a, (s <| nconn := c |>). split; [|done]. unfold liftM. by rewrite Hm. Qed.
Lemma nreturns_deref {A} (o : option A) a s Q : o = Some a -> Q a s -> nreturns (liftM (deref o)) s Q.
Proof. intros -> HQ. apply nreturns_lift. apply returns_ret. by destruct s. Qed.
Lemma nreturns_pure {A} (a : A) s Q : Q a s -> nreturns (liftM (mret a)) s Q.
Proof. exact (nreturns_deref (Some a) a s Q eq_refl). Qed.
Lemma nreturns_conn s Q : Q (nconn s) s -> nreturns getConn s Q.
Proof. intros HQ. by exists (nconn s), s. Qed.
Lemma nreturns_srv s Q : Q (nsrv s) s -> nreturns getSrv s Q.
Proof. intros HQ. by exists (nsrv s), s. Qed.
Lemma nreturns_modSrv f s Q : Q tt (s <| nsrv ::= f |>) -> nreturns (modSrv f) s Q.
Proof. intros HQ. by exists tt, (s <| nsrv ::= f |>). Qed.
Lemma nreturns_setVerdict f s Q : Q tt (s <| nconn := f (nconn s) |>) -> nreturns (setVerdict f) s Q.
Proof. intros HQ. apply nreturns_lift, returns_modify. exact HQ. Qed.
End rules.

(** ** Replies made by the server *)
Section crafted.
Context {RT : RRText}.
(** A record with a message, and one with an address of [addrs]. *)
Definition message (rr : RR) : Prop := exists level msg, MakeMessageRecord level msg = Ret rr.
Definition addressRecord (addrs : list str) (rr : RR) : Prop :=
  exists name addr, addr ∈ addrs /\ (NewRR (name ++ $" 1 IN A " ++ addr) = Ret (Some rr) \/ NewRR (name ++ $" 1 IN AAAA " ++ addr) = Ret (Some rr)).
Definition crafted (addrs : list str) (reply : Reply) : Prop :=
  Forall (addressRecord addrs) (RpAnswer reply) /\ RpNs reply = [] /\ Forall message (RpExtra reply).
Definition blockAddresses : list str := [$"0.0.0.17"; $"::17"].
Definition localAddresses : list str := [$"127.0.0.1"; $"::1"].

Lemma messages_ok level msgs : Forall message (messageRecords level msgs).
Proof.
  apply Forall_forall. intros rr (msg & _ & H)%list_elem_of_omap.
  destruct (MakeMessageRecord level msg) eqn:E; [injection H as <-; by exists level, msg|done..].
Qed.
Lemma listExtra_ok br : Forall message (listExtraRRs br).
Proof.
  unfold listExtraRRs. apply Forall_forall. intros rr [lm [H _]]%list_elem_of_bind. revert rr H. apply Forall_forall, Forall_app.
  split; [apply messages_ok|]. destruct (InactiveLists lm); [constructor|apply messages_ok].
Qed.
Lemma connExtra_ok c : Forall message (connExtraRRs c).
Proof.
  unfold connExtraRRs. destruct (MakeMessageRecord _ _) eqn:E; [|constructor..]. constructor; [by eexists _, _|].
  destruct (Context (reasonInfo c)); try constructor. apply listExtra_ok.
Qed.
Lemma cacheExtra_ok now rr l : cacheExtraRRs now rr = Some l -> Forall message l.
Proof.
  unfold cacheExtraRRs. destruct (CResolver rr); [|done].
  cbn [mbind option_bind]. intros H%(inj Some). subst l. apply messages_ok.
Qed.

Lemma addressAnswers_ok a aaaa qs : Forall (addressRecord [a; aaaa]) (addressAnswers a aaaa qs).1.
Proof.
  unfold addressAnswers. assert (Forall (addressRecord [a; aaaa]) (([] : list RR), false).1) as H0 by constructor.
  revert H0. generalize (([] : list RR), false). induction qs as [|q qs IH]; intros [l b] Hl; [done|]. cbn [foldl]. apply IH.
  destruct (Qtype q =? TypeA).
  { destruct (NewRR _) as [[rr|]| |] eqn:E; try done. apply Forall_app. split; [done|]. apply Forall_singleton.
    exists (QName q), a. split; [by left|by left]. }
  destruct (Qtype q =? TypeAAAA); [|done].
  destruct (NewRR _) as [[rr|]| |] eqn:E; try done. apply Forall_app. split; [done|]. apply Forall_singleton.
  exists (QName q), aaaa. split; [by right; left|by right].
Qed.
Lemma responder_ok a aaaa msgs req : crafted [a; aaaa] (createResponderFunc a aaaa msgs req).
Proof.
  unfold createResponderFunc. pose proof (addressAnswers_ok a aaaa (Questions req)) as H.
  destruct (addressAnswers a aaaa (Questions req)) as [answer b]. split; [exact H|]. split; [done|]. apply messages_ok.
Qed.
Lemma rcode_ok addrs level rcode msgs : crafted addrs (AddMessagesToReply level msgs (rcodeReply rcode)).
Proof. split; [constructor|]. split; [done|]. apply messages_ok. Qed.
Lemma crafted_mono addrs addrs' reply : addrs ⊆ addrs' -> crafted addrs reply -> crafted addrs' reply.
Proof.
  intros Hs (H1 & H2 & H3). split; [|done]. eapply Forall_impl; [exact H1|]. intros rr (n & a & Ha & H). exists n, a. split; [by apply Hs|done].
Qed.
Lemma crafted_send addrs reply extra : crafted addrs reply -> Forall message extra -> crafted addrs (sendResponse reply extra).
Proof. intros (H1 & H2 & H3) He. split; [done|]. split; [done|]. by apply Forall_app. Qed.
Lemma special_ok c responder req : specialResponder c = Some responder -> crafted blockAddresses (responder req).
Proof.
  unfold specialResponder. destruct (Context (reasonInfo c)) as [| | |r]; try done. intros H%(inj Some). subst responder.
  match goal with |- context [eqs r ?x] => destruct (eqs r x) end; [apply rcode_ok|apply responder_ok].
Qed.
Lemma connReply_ok c req reply : refused c = true -> connReply c req = Some reply -> crafted blockAddresses reply.
Proof. unfold refused, connReply. destruct (verdict c); try done; intros _ [= <-]; apply responder_ok. Qed.
End crafted.

(** ** Steps of a request *)
Section steps.
Context {IE : IntelEnv} {UT : UnicodeTables} {FE : FirewallEnv} {DL : DNSLib} {RE : ResolverEnv} {RT : RRText} {TL : Timeline}.
Context {St : Type} {DB : NameDB St} {NE : NameserverEnv} (g : Cfg) (dnsg : DnsConfig).
Implicit Types (s : NS (S := St)).
(** Servers answer with their resolver, and the store gives valid records. *)
Record serverEnvOk : Prop := {
  se_answer : forall i r q rr, answer i r q = inl (Some rr) -> is_Some (CResolver rr);
  se_store : forall d q (st : St) n, (dbGet d q st).1 = Some n -> is_Some (NameRecords.Resolver n);
}.
Context (Hse : serverEnvOk) (F : Facts) (Hlocal : localProfile (fLayers F) <> None).

Definition hasResolver (rr : option RRCache) : Prop := forall c, rr = Some c -> is_Some (CResolver c).
(** The request is in the world it was, with nothing recorded. *)
Definition sameRecords s s' : Prop :=
  savedConns (nsrv s') = savedConns (nsrv s) /\ savedIPs (nsrv s') = savedIPs (nsrv s) /\ openDNSRequests (nsrv s') = openDNSRequests (nsrv s).
#[export] Instance sameRecords_pre : PreOrder sameRecords.
Proof. split; [by intros s|]. intros s1 s2 s3 (H1 & H2 & H3) (H4 & H5 & H6). repeat split; congruence. Qed.

Lemma makeAlternative_resolver q rr name : CResolver (makeAlternativeRecord q rr name) = CResolver rr.
Proof. done. Qed.
Lemma checkAlternative_ok q s : nreturns (checkAlternativeCaches q) s (fun rr s' =>
  nconn s' = nconn s /\ sameRecords s s' /\ hasResolver rr).
Proof.
  unfold checkAlternativeCaches. destruct (ICANNSpace q); [by apply nreturns_ret|].
  destruct (CRCode _ =? RcodeSuccess).
  { apply nreturns_ret. split; [done|]. split; [done|]. intros c [= <-]. rewrite makeAlternative_resolver. unfold envQuery, makeAnswer, makeRRCache.
    repeat case_match; simpl; try (by eexists). }
  apply nreturns_bind, nreturns_srv. unfold GetRRCache. simpl.
  destruct (dbGet _ _ _) as [n st] eqn:Ed. apply nreturns_bind, nreturns_modSrv.
  assert (hasResolver (fromNameRecord (FQDN q ++ $"local.") (QType q) <$> n)) as Hr.
  { intros c Hc. destruct n as [n|]; [|done]. apply (inj Some) in Hc. subst c. simpl.
    eapply (se_store Hse). rewrite Ed. reflexivity. }
  destruct (fromNameRecord _ _ <$> n) as [rr|]; apply nreturns_ret; (split; [done|]); (split; [done|]); [|done].
  destruct (CRCode rr =? RcodeSuccess); [|done]. intros c [= <-]. rewrite makeAlternative_resolver. by apply Hr.
Qed.

(** ** Recording *)
Record usable (v : Verdict) (c : Connection) : Prop := {
  us_verdict : verdict c = v;
  us_entity : is_Some (entity c);
  us_process : exists p lp pr, process c = Some p /\ profile p = Some lp /\ localProfile lp = Some pr;
}.
Lemma settled_usable v c : settled g F v c -> usable v c.
Proof.
  intros [[_ _ _ _ _ _ Hv (p & lp & Hp & _ & Hl & [_ Hlo _ _])] He]. split; [done..|].
  simpl in Hlo. destruct (localProfile (fLayers F)) as [pr|]; [|done]. by exists p, lp, pr.
Qed.
Lemma usable_entity v c e : usable v c -> usable v (c <| entity := Some e |>).
Proof. intros [H1 H2 H3]. by split. Qed.
Lemma UpdateIPs_ok v q rr c : usable v c -> returns (UpdateIPsAndCNAMEs q (Some rr)) c (fun _ c' => usable v c').
Proof.
  intros Hu. destruct (Hu) as [Hv (e & He) (p & lp & pr & Hp & Hl & Hpr)]. unfold UpdateIPsAndCNAMEs.
  apply returns_bind, returns_bind, returns_get. eapply returns_deref; [by rewrite Hp; simpl|].
  apply returns_bind. eapply returns_deref; [done|]. cbv zeta. apply returns_bind, returns_get.
  apply returns_bind. destruct (bool_decide _).
  - apply returns_bind, returns_bind, returns_get. eapply returns_deref; [done|]. apply returns_modify, returns_ret. by apply usable_entity.
  - by apply returns_ret, returns_ret.
Qed.
Definition blockedVerdict (v : Verdict) : bool := match v with VerdictBlock | VerdictDrop | VerdictFailed => true | _ => false end.
(** What is recorded of a blocked request: its connection. *)
Definition recordedBlocked (v : Verdict) s s' : Prop :=
  exists c, verdict c = v /\ savedConns (nsrv s') = savedConns (nsrv s) ++ [c] /\
    savedIPs (nsrv s') = savedIPs (nsrv s) /\ openDNSRequests (nsrv s') = openDNSRequests (nsrv s).
Lemma finishRequest_ok v q rr s : usable v (nconn s) -> hasResolver rr ->
  nreturns (finishRequest g dnsg q rr) s (fun _ s' => resolverWorld (nsrv s') = resolverWorld (nsrv s) /\
    (blockedVerdict v = true -> recordedBlocked v s s')).
Proof.
  intros Hu Hr. unfold finishRequest. apply nreturns_bind, nreturns_srv, nreturns_bind.
  apply (nreturns_mono _ _ (fun _ s' => nsrv s' = nsrv s /\ usable v (nconn s'))).
  { destruct (us_entity _ _ Hu) as (e & He).
    assert (returns getEntity (nconn s) (fun e' c => e' = e /\ c = nconn s)) as Hget.
    { apply returns_bind, returns_get. by eapply returns_deref. }
    destruct rr as [rr|].
    - destruct (Hr rr eq_refl) as (info & Hi). apply nreturns_bind. eapply nreturns_deref; [exact Hi|].
      apply nreturns_bind, nreturns_lift. eapply returns_mono; [exact Hget|]. intros e' c [-> ->]. simpl.
      apply nreturns_bind, nreturns_lift, returns_modify, nreturns_lift, returns_modify. simpl. split; [done|].
      destruct (Hu) as [H1 H2 H3]. by split.
    - destruct (GetResolversInScope _ _ _).1.1 as [|r l]; [by apply nreturns_ret|].
      apply nreturns_bind, nreturns_lift. eapply returns_mono; [exact Hget|]. intros e' c [-> ->]. simpl.
      apply nreturns_lift, returns_modify. simpl. split; [done|]. by apply usable_entity. }
  intros [] s1 [E1 Hu1]. apply nreturns_bind, nreturns_conn. rewrite (us_verdict _ _ Hu1).
  assert (forall x, usable x (nconn s1) -> nreturns saveConn s1 (fun _ s' => resolverWorld (nsrv s') = resolverWorld (nsrv s) /\ recordedBlocked x s s')) as Hsave.
  { intros x Hx. apply nreturns_bind, nreturns_conn, nreturns_modSrv. simpl. rewrite E1. split; [done|]. exists (nconn s1). split; [apply Hx|done]. }
  assert (blockedVerdict v = true \/ blockedVerdict v = false) as [Hb|Hb] by (by destruct (blockedVerdict v); auto).
  { destruct v; try done; (eapply nreturns_mono; [by apply Hsave|]; by intros ? s' [? ?]). }
  assert (nreturns (match rr with
    | None => setVerdict (Failed g (internalError ++ $"no reply") [])
    | Some rr =>
        (if IsSystemResolver (process (nconn s1)) then liftM (modify (fun c => c <| Connection.Internal := true |>)) else mret tt) ;;
        ips ← liftM (UpdateIPsAndCNAMEs q (Some rr));
        modSrv (fun srv => srv <| savedIPs ::= fun l => l ++ option_list ips |>) ;;
        SaveOpenDNSRequest q rr
    end) s1 (fun _ s' => resolverWorld (nsrv s') = resolverWorld (nsrv s))) as Hrec.
  { destruct rr as [rr|]; [|apply nreturns_setVerdict; simpl; by rewrite E1].
    apply nreturns_bind. apply (nreturns_mono _ _ (fun _ s' => nsrv s' = nsrv s /\ usable v (nconn s'))).
    { destruct (IsSystemResolver _); [|by apply nreturns_ret]. apply nreturns_lift, returns_modify. simpl. split; [done|].
      destruct Hu1 as [H1 H2 H3]. by split. }
    intros [] s2 [E2 Hu2]. apply nreturns_bind, nreturns_lift. eapply returns_mono; [by apply UpdateIPs_ok|]. intros ips c3 Hu3.
    apply nreturns_bind, nreturns_modSrv. unfold SaveOpenDNSRequest.
    destruct (ServedFromCache rr && _); [apply nreturns_ret; simpl; by rewrite E2|].
    destruct (negb _); [apply nreturns_bind, nreturns_conn, nreturns_modSrv; simpl; by rewrite E2|].
    destruct Hu3 as [_ (e & He) (p & lp & pr & Hp & _)].
    apply nreturns_bind, nreturns_conn, nreturns_bind. eapply nreturns_deref; [exact Hp|].
    apply nreturns_bind. eapply nreturns_deref; [exact He|]. apply nreturns_modSrv. simpl. by rewrite E2. }
  destruct v; try done; try (eapply nreturns_mono; [exact Hrec|]; by intros ? s' ?).
  - apply nreturns_ret. by rewrite E1.
  - eapply nreturns_mono; [by apply Hsave|]. by intros ? s' [? ?].
  - eapply nreturns_mono; [by apply Hsave|]. by intros ? s' [? ?].
Qed.

(** ** Answering *)
Lemma Resolve_resolver t1 t2 wait q (w : World (S := St)) rr err w' :
  Resolve dnsg t1 t2 wait q w = (rr, err, w') -> hasResolver rr.
Proof.
  intros H c ->. destruct (check q) as [q'|] eqn:Eq; [|unfold Resolve in H; by rewrite Eq in H].
  destruct (checkCompliance dnsg q') as [e|] eqn:Ec; [unfold Resolve in H; by rewrite Eq, Ec in H|].
  destruct (Resolve_resolved _ _ _ _ _ q' _ _ _ _ Eq Ec H) as (w1 & _ & _ & l & _ & _ & Hs).
  destruct (Hs c eq_refl) as [(([r q1] & i & raw & _ & Ha & _ & _ & Hraw0) & _)|((info & r & Hi & _) & _)]; [|by eexists].
  rewrite Hraw0. cbn [fst snd] in Ha. assert (is_Some (CResolver raw)) as Hraw; [|exact Hraw].
  unfold queryConn in Ha. destruct (Conn r) eqn:Er; simpl in Ha; try by eapply (se_answer Hse).
  injection Ha as <-. unfold envQuery, makeAnswer, makeRRCache. repeat case_match; simpl; by eexists.
Qed.
(** A response of a resolver with what the profile allows. *)
Definition unfiltered (info : ResolverInfo) : bool := eqs (RType info) ServerTypeEnv || connectivityGrant g F || ownProcess F.
Definition allowedReply (reply : Reply) : Prop :=
  exists rr info extra, CResolver rr = Some info /\ RpAnswer reply = CAnswer rr /\ RpNs reply = CNs rr /\
    RpExtra reply = CExtra rr ++ extra /\ Forall message extra /\
    (unfiltered info = true \/ Forall (fun x => recordAllowed g F (RIPScope info) x = true) (CAnswer rr ++ CExtra rr)).
Definition goodReply (reply : option Reply) : Prop :=
  forall r, reply = Some r -> crafted (blockAddresses ++ localAddresses) r \/ allowedReply r.
Lemma blocked_good r extra : crafted blockAddresses r -> Forall message extra -> goodReply (Some (sendResponse r extra)).
Proof.
  intros Hc He x [= <-]. left. apply crafted_send; [|done]. eapply crafted_mono; [|exact Hc]. set_solver.
Qed.
Lemma crafted_good addrs r : crafted addrs r -> addrs ⊆ blockAddresses ++ localAddresses -> goodReply (Some (sendResponse r [])).
Proof. intros Hc Ha x [= <-]. left. apply crafted_send; [|constructor]. by eapply crafted_mono. Qed.

Lemma responseAfter_allowed info rr : CResolver rr = Some info -> unfiltered info = true \/
  Forall (fun x => recordAllowed g F (RIPScope info) x = true) (CAnswer (responseAfter g F info rr) ++ CExtra (responseAfter g F info rr)).
Proof.
  intros Hi. unfold unfiltered, responseAfter. destruct (eqs _ _ || connectivityGrant g F); [by left|].
  destruct (ownProcess F) eqn:Eo; [by left|]. right. destruct (filtered_sections g F (RIPScope info) rr Eo) as (-> & -> & _).
  assert (forall l, Forall (fun x => recordAllowed g F (RIPScope info) x = true) (allowedOf g F (RIPScope info) l)) as Hf.
  { intros l. apply Forall_forall. intros x Hx. unfold allowedOf in Hx. apply list_elem_of_In, filter_In in Hx. apply Hx. }
  by apply Forall_app.
Qed.
Lemma replaceNames_allowed name rr rs : Forall (fun x => recordAllowed g F rs x = true) (CAnswer rr ++ CExtra rr) ->
  Forall (fun x => recordAllowed g F rs x = true) (CAnswer (ReplaceAnswerNames name rr) ++ CExtra (ReplaceAnswerNames name rr)).
Proof.
  intros [H1 H2]%Forall_app. apply Forall_app. split; [|done]. simpl. apply Forall_map. eapply Forall_impl; [exact H1|].
  intros x Hx. simpl. by destruct (eqs (RRName x) (CDomain rr)).
Qed.
Lemma replyFiltered_ok t req originalName rr s : envOk -> good g F (nconn s) -> fVerdict F <> VerdictBlock -> is_Some (CResolver rr) ->
  nreturns (replyFiltered g t req originalName rr) s (fun r s' => nsrv s' = nsrv s /\ hasResolver r.2 /\
    (exists v, usable v (nconn s')) /\ goodReply r.1).
Proof.
  intros Henv Hg Hv [info Hi]. unfold replyFiltered. apply nreturns_bind, nreturns_lift.
  eapply returns_mono; [by apply FilterResolvedDNS_ok|]. intros rr' c (-> & v & _ & Hs). simpl.
  set (rr' := responseAfter g F info rr). pose proof (responseAfter_allowed info rr Hi) as Hallowed. fold rr' in Hallowed.
  assert (CResolver rr' = Some info) as Hi' by (pose proof (response_fields g F info rr) as E; injection E as _ _ _ E; by rewrite <- Hi, <- E).
  clearbody rr'. assert (hasResolver (Some rr')) as Hr by (intros x [= <-]; by eexists).
  assert (exists v, usable v c) as Hu by (exists v; by apply settled_usable).
  assert (forall x, CResolver x = Some info -> exists l, cacheExtraRRs (tReply t) x = Some l /\ Forall message l) as Hextra.
  { intros x Hx. assert (exists l, cacheExtraRRs (tReply t) x = Some l) as [l Hl].
    { unfold cacheExtraRRs. rewrite Hx. by eexists. } exists l. split; [done|]. by eapply cacheExtra_ok. }
  apply nreturns_bind, nreturns_conn. simpl.
  destruct (specialResponder c) as [responder|] eqn:Es.
  { apply nreturns_ret. split; [done|]. split; [done|]. split; [done|]. apply blocked_good; [by eapply special_ok|constructor]. }
  destruct (refused c) eqn:Eref.
  - destruct (connReply c req) as [reply|] eqn:Ec; [|by apply nreturns_ret].
    apply nreturns_bind, nreturns_pure. destruct (Hextra rr' Hi') as (l & Hl & Hm).
    apply nreturns_bind. eapply nreturns_deref; [exact Hl|]. apply nreturns_ret. split; [done|]. split; [done|]. split; [done|].
    apply blocked_good; [by eapply connReply_ok|]. apply Forall_app. split; [apply connExtra_ok|done].
  - apply nreturns_bind, nreturns_pure. cbv zeta.
    set (rr2 := match originalName with Some name => ReplaceAnswerNames name rr' | None => rr' end).
    assert (CResolver rr2 = Some info) as Hi2 by (by destruct originalName). destruct (Hextra rr2 Hi2) as (l & Hl & Hm).
    apply nreturns_bind. eapply nreturns_deref; [exact Hl|]. apply nreturns_ret. split; [done|].
    split; [intros x [= <-]; by eexists|]. split; [done|]. intros x [= <-]. right. exists rr2, info, (connExtraRRs c ++ l).
    split; [done|]. split; [done|]. split; [done|]. split; [done|]. split; [apply Forall_app; split; [apply connExtra_ok|done]|].
    destruct Hallowed as [|Ha]; [by left|right]. destruct originalName; [by apply replaceNames_allowed|done].
Qed.

(** A step answers the request, or leaves the connection to the next one. *)
Definition stepOk {A} (next : A -> Prop) s (res : (option Reply * option RRCache) + A) s' : Prop :=
  match res with
  | inl r => hasResolver r.2 /\ (exists v, usable v (nconn s')) /\ goodReply r.1
  | inr a => nconn s' = nconn s /\ next a
  end.
Lemma answered_ok {A} (next : A -> Prop) addrs reply rr s0 s :
  crafted addrs reply -> addrs ⊆ blockAddresses ++ localAddresses -> hasResolver rr -> (exists v, usable v (nconn s)) ->
  nreturns (answered reply rr) s (stepOk next s0).
Proof. intros Hc Ha Hr Hu. apply nreturns_ret. split; [done|]. split; [done|]. by eapply crafted_good. Qed.
Lemma usable_SetVerdict v msg key ctx c : good g F c -> exists w, usable w (SetVerdict g v msg key ctx c).
Proof.
  intros [Hc (e & He & _)]. destruct (conn_SetVerdict g F v msg key ctx c Hc) as [H1 H2]. exists v. apply settled_usable.
  split; [done|]. exists e. by rewrite H2.
Qed.
Lemma good_usable c : good g F c -> exists v, usable v c.
Proof. intros Hc. eexists. by apply settled_usable, good_settled. Qed.
Lemma handleResolved_ok t req q rr err s : good g F (nconn s) -> hasResolver rr ->
  nreturns (handleResolved g t req q rr err) s (stepOk hasResolver s).
Proof.
  intros Hg Hr. unfold handleResolved. destruct err as [e|]; [|by apply nreturns_ret].
  assert (blockAddresses ⊆ blockAddresses ++ localAddresses) as HB by set_solver.
  assert (localAddresses ⊆ blockAddresses ++ localAddresses) as HL by set_solver.
  destruct (errorsIs e ErrNotFound).
  { apply nreturns_bind. eapply nreturns_mono; [apply checkAlternative_ok|]. intros [alt|] s1 (E1 & _ & Ha).
    - by apply nreturns_ret.
    - apply nreturns_bind, nreturns_setVerdict. apply (answered_ok _ blockAddresses); [apply rcode_ok|done|done|].
      simpl. rewrite E1. by apply usable_SetVerdict. }
  destruct (errorsIs e ErrBlocked).
  { apply nreturns_bind, nreturns_setVerdict. apply (answered_ok _ blockAddresses); [apply responder_ok|done|done|].
    by apply usable_SetVerdict. }
  destruct (errorsIs e ErrLocalhost).
  { apply nreturns_bind, nreturns_setVerdict. apply (answered_ok _ localAddresses); [apply responder_ok|done|done|].
    by apply usable_SetVerdict. }
  destruct (errorsIs e ErrOffline).
  { destruct rr as [rr|].
    - apply nreturns_ret. split; [done|]. intros x Hx%(inj Some). subst x. exact (Hr rr eq_refl).
    - apply nreturns_bind, nreturns_setVerdict. apply (answered_ok _ blockAddresses); [apply rcode_ok|done|done|].
      by apply usable_SetVerdict. }
  apply nreturns_bind, nreturns_setVerdict, nreturns_bind, nreturns_modSrv.
  apply (answered_ok _ blockAddresses); [apply rcode_ok|done|done|]. by apply usable_SetVerdict.
Qed.
Lemma handleResponse_ok t req q rr s : good g F (nconn s) -> hasResolver rr ->
  nreturns (handleResponse t req q rr) s (stepOk (fun rr => is_Some (CResolver rr)) s).
Proof.
  intros Hg Hr. unfold handleResponse. destruct rr as [rr|].
  - destruct (CRCode rr =? RcodeNameError); [|apply nreturns_ret; split; [done|by apply Hr]].
    apply nreturns_bind. eapply nreturns_mono; [apply checkAlternative_ok|]. intros [alt|] s1 (E1 & _ & Ha).
    + apply nreturns_ret. split; [done|by apply Ha].
    + apply (answered_ok _ blockAddresses); [apply rcode_ok|set_solver|done|]. rewrite E1. by apply good_usable.
  - apply nreturns_bind, nreturns_modSrv. apply (answered_ok _ blockAddresses); [apply rcode_ok|set_solver|done|]. by apply good_usable.
Qed.
(** What happens with the result of resolving. *)
Definition resolvedOk (r : option Reply * option RRCache * Query) s' : Prop :=
  hasResolver r.1.2 /\ (exists v, usable v (nconn s')) /\ goodReply r.1.1.
Lemma afterResolve_ok t req q originalName rr err s : envOk -> good g F (nconn s) -> fVerdict F <> VerdictBlock -> hasResolver rr ->
  nreturns (rr ← handleResolved g t req q rr err;
    match rr with
    | inl r => mret (r, q)
    | inr rr => rr ← handleResponse t req q rr;
        match rr with inl r => mret (r, q) | inr rr => r ← replyFiltered g t req originalName rr; mret (r, q) end
    end) s resolvedOk.
Proof.
  intros Henv Hg Hv Hr. apply nreturns_bind. eapply nreturns_mono; [by apply handleResolved_ok|].
  intros [r|rr1] s1; simpl; [by intros Hres; apply nreturns_ret|]. intros [E1 Hr1].
  apply nreturns_bind. eapply nreturns_mono; [apply handleResponse_ok; [by rewrite E1|done]|].
  intros [r|rr2] s2; simpl; [by intros Hres; apply nreturns_ret|]. intros [E2 Hr2].
  apply nreturns_bind. eapply nreturns_mono; [apply replyFiltered_ok; [done| |done|done]; by rewrite E2, E1|].
  intros r s3 (_ & Hr3 & Hu & Hrep). apply nreturns_ret. by split.
Qed.

(** The request once the filter decided: [F] has the verdict. *)
Definition answeredOk s (r : option Reply * option RRCache * Query) s' : Prop :=
  hasResolver r.1.2 /\ goodReply r.1.1 /\ exists v, usable v (nconn s') /\
    (blockedVerdict (fVerdict F) = true -> v = fVerdict F /\ nsrv s' = nsrv s /\
      forall reply, r.1.1 = Some reply -> crafted blockAddresses reply).
Lemma blocked_refused c : good g F c -> refused c = blockedVerdict (fVerdict F).
Proof. intros [Hc _]. unfold refused. by rewrite (gc_verdict _ _ _ Hc). Qed.
Lemma refusal_ok s c reply q : good g F (nconn s) ->
  (forall r, reply = Some r -> crafted blockAddresses r) ->
  nreturns (mret ((fun r => sendResponse r (connExtraRRs c)) <$> reply, None, q)) s (answeredOk s).
Proof.
  intros Hg Hr. apply nreturns_ret. split; [done|].
  assert (forall r, (fun r => sendResponse r (connExtraRRs c)) <$> reply = Some r -> crafted blockAddresses r) as H.
  { intros r (r0 & -> & H)%fmap_Some. subst r. apply crafted_send; [by apply Hr|apply connExtra_ok]. }
  split; [intros r E; left; eapply crafted_mono; [|by apply H]; set_solver|].
  exists (fVerdict F). split; [by apply settled_usable, good_settled|]. done.
Qed.
Lemma answer_ok t req q originalName s : envOk -> good g F (nconn s) ->
  nreturns (
    c ← getConn;
    match specialResponder c with
    | Some responder => mret (Some (sendResponse (responder req) (connExtraRRs c)), None, q)
    | None =>
        if refused c then mret ((fun r => sendResponse r (connExtraRRs c)) <$> connReply c req, None, q) else
        srv ← getSrv;
        let '(rr, err, w) := Resolve dnsg (tCache t) (tCacheAgain t) (waited t) q (resolverWorld srv) in
        let q := default q (check q) in
        modSrv (fun srv => srv <| resolverWorld := w |>) ;;
        rr ← handleResolved g t req q rr err;
        match rr with
        | inl r => mret (r, q)
        | inr rr =>
            rr ← handleResponse t req q rr;
            match rr with
            | inl r => mret (r, q)
            | inr rr => r ← replyFiltered g t req originalName rr; mret (r, q)
            end
        end
    end) s (answeredOk s).
Proof.
  intros Henv Hg. apply nreturns_bind, nreturns_conn.
  destruct (specialResponder (nconn s)) as [responder|] eqn:Es.
  { apply (refusal_ok s (nconn s) (Some (responder req)) q Hg). intros r [= <-]. by eapply special_ok. }
  destruct (refused (nconn s)) eqn:Er.
  { apply refusal_ok; [done|]. intros r Hr. by eapply connReply_ok. }
  rewrite blocked_refused in Er by done. apply nreturns_bind, nreturns_srv.
  destruct (Resolve dnsg _ _ _ q _) as [[rr err] w] eqn:Eq. cbv zeta.
  apply nreturns_bind, nreturns_modSrv. eapply nreturns_mono.
  - apply afterResolve_ok; [done|exact Hg|by intros E; rewrite E in Er|by eapply Resolve_resolver].
  - intros r s' (H1 & (v & Hu) & H3). split; [done|]. split; [done|]. exists v. split; [done|]. by rewrite Er.
Qed.
(** What is answered, sent and recorded of a request that was decided. *)
Definition blockedOk s (reply : option Reply) (srv' : Server (S := St)) : Prop :=
  (forall r, reply = Some r -> crafted blockAddresses r) /\ resolverWorld srv' = resolverWorld (nsrv s) /\
  savedIPs srv' = savedIPs (nsrv s) /\ openDNSRequests srv' = openDNSRequests (nsrv s) /\
  exists c, verdict c = fVerdict F /\ savedConns srv' = savedConns (nsrv s) ++ [c].
Lemma answerRequest_ok t req q originalName s c1 : envOk -> filterRequest g (nconn s) = Ret (tt, c1) -> good g F c1 ->
  nreturns (answerRequest g dnsg t req q originalName) s (fun reply s' =>
    goodReply reply /\ (blockedVerdict (fVerdict F) = true -> blockedOk s reply (nsrv s'))).
Proof.
  intros Henv Hf Hg. apply nreturns_bind.
  apply (nreturns_mono _ _ (answeredOk s)).
  { apply nreturns_bind, nreturns_lift. exists tt, c1. split; [done|].
    eapply nreturns_mono; [by apply answer_ok|]. done. }
  intros [[reply rr] q'] s1 (Hr & Hrep & v & Hu & Hb). simpl in *.
  apply nreturns_bind. eapply nreturns_mono; [by eapply finishRequest_ok|]. intros [] s2 [Hw Hrec].
  apply nreturns_ret. split; [done|]. intros E. destruct (Hb E) as (-> & E1 & Hc). rewrite E1 in Hw.
  destruct (Hrec E) as (c & Hv & H1 & H2 & H3). rewrite E1 in H1, H2, H3.
  split; [done|]. split; [done|]. split; [done|]. split; [done|]. by exists c.
Qed.
End steps.

(** ** Requests *)
Section requests.
Context {IE : IntelEnv} {UT : UnicodeTables} {FE : FirewallEnv} {DL : DNSLib} {RE : ResolverEnv} {RT : RRText} {TL : Timeline}.
Context {St : Type} {DB : NameDB St} {NE : NameserverEnv} (g : Cfg) (dnsg : DnsConfig).

Definition requestEntity (fqdn : str) : Entity := (newEntity None 0 0 fqdn []) <| EIPScope := Global |>.
(** A profile with a history, whose local profile could be loaded. *)
Record profileInUse (lp : LayeredProfile) : Prop := {
  pu_history : exists n g0 p0, nsteps lpStep n (g0, NewLayeredProfile p0) (g, lp) /\ Z.of_nat n < 2 ^ 64 - 2;
  pu_local : localProfile (updatedLP g lp) <> None;
}.
Lemma newDNS_ok now p lp d : profile p = Some lp -> profileInUse lp -> connOk g (newDNSConnection now p d) p lp (requestEntity d).
Proof.
  intros Hl [(n & g0 & p0 & Hs & Hn) _]. destruct (coherent_steps _ _ _ _ Hs) as [Hc Hr]; [apply coherent_new|simpl; lia|]. simpl in Hr.
  split; try done. lia.
Qed.
Lemma goodReply_verdict F v reply : goodReply g (withVerdict v F) reply -> goodReply g F reply.
Proof. done. Qed.
Lemma decided_request F v t req q originalName s c1 : serverEnvOk (St := St) -> localProfile (fLayers F) <> None -> envOk ->
  filterRequest g (nconn s) = Ret (tt, c1) -> decidedAs g F v c1 ->
  nreturns (answerRequest g dnsg t req q originalName) s (fun reply s' =>
    goodReply g F reply /\ (blockedVerdict v = true -> blockedOk (withVerdict v F) s reply (nsrv s'))).
Proof.
  intros Hse Hlo Henv Hf Hd. eapply nreturns_mono.
  - exact (answerRequest_ok g dnsg Hse (withVerdict v F) Hlo t req q originalName s c1 Henv Hf (decidedAs_good _ _ _ _ Hd)).
  - intros reply s' [H1 H2]. split; [by eapply goodReply_verdict|exact H2].
Qed.
End requests.

(** C37. With the filter enabled, a valid request whose query has not failed lately, of a
    process with a profile, the local part of which could be loaded ([profileInUse]), is
    handled without a panic, whatever the resolvers do.  If the policy blocks it, it reaches no resolver and no cache: the reply,
    if any, has only the server's own messages and blocking addresses, and the connection
    is saved with the verdict; no address is attributed and nothing is kept for a later
    connection.  Otherwise a reply either was made by the server, or is the response of a
    resolver; such a response has only addresses that the profile allows, unless it is one
    of the environment resolver, permitted to get online, or for the own process, which
    are not filtered. *)
Theorem requests_filtered `{IE : IntelEnv} `{UT : UnicodeTables} `{FE : FirewallEnv} `{DL : DNSLib} `{RE : ResolverEnv} `{RT : RRText}
    `{TL : Timeline} {St : Type} `{DB : !NameDB St} `{NE : NameserverEnv} g dnsg t remote req q originalName ip port p lp m
    (srv : Server (S := St)) :
  let c := newDNSConnection (Unix (tCheck t)) p (FQDN q) in
  let F := factsOf g c p lp (requestEntity (FQDN q)) in
  envOk -> serverEnvOk (St := St) -> filterEnabled = true ->
  checkRequest remote req = inr (q, originalName, ip, port) ->
  checkIfQueryIsFailing (tCheck t) (networkChanged t) (QID q) (failingQueries srv) = (None, m) ->
  requestProcess ip port req = Ret (inr p) -> profile p = Some lp -> profileInUse g lp ->
  exists reply srv', handleRequest g dnsg t remote req srv = Ret (reply, srv') /\ goodReply g F reply /\
    (blockedVerdict (policy g F) = true ->
      (forall r, reply = Some r -> crafted blockAddresses r) /\ resolverWorld srv' = resolverWorld srv /\
      savedIPs srv' = savedIPs srv /\ openDNSRequests srv' = openDNSRequests srv /\
      exists c', verdict c' = policy g F /\ savedConns srv' = savedConns srv ++ [c']).
Proof.
  intros c F Henv Hse Hf Hq Hm Hp Hl Hu.
  destruct (decide_settled g c p lp _ Henv (newDNS_ok g _ p lp _ Hl Hu)) as (c1 & Hd & Hc1); [by intros _; apply Hu|].
  assert (filterRequest g c = Ret (tt, c1)) as Hfilter by (unfold filterRequest; by rewrite Hf).
  destruct (decided_request g dnsg F _ t req q originalName (mkNS c (srv <| failingQueries := m |>)) c1 Hse (pu_local _ _ Hu) Henv Hfilter Hc1)
    as (reply & s' & Ha & Hgood & Hb).
  exists reply, ((nsrv s') <| failingQueries ::= cleanFailingQueries (tClean t) (cleanOrder t) 10 3 |>). split; [|split; [exact Hgood|exact Hb]].
  unfold handleRequest. rewrite Hq, Hm, Hp. unfold mbind, outcome_bind. fold c. by rewrite Ha.
Qed.

(** ** Demonstration *)
Module NameserverDemo.
#[export] Existing Instances Demo.env FirewallDemo.unicode FirewallDemo.env ResolveDemo.env ResolveDemo.mapDB ResolveDemo.times.
#[export] Instance dns : DNSLib := {| IsFqdn _ := true; IsDomainName _ := true |}.
(** Only addresses for blocking and messages are parsed. *)
Definition parseRR (s : str) : outcome str (option RR) :=
  if HasSuffix s $" 1 IN A 0.0.0.17" then Ret (Some (mkRR (take (length s - length $" 1 IN A 0.0.0.17") s) TypeA ClassINET 1 (DataA [0; 0; 0; 17])))
  else if HasPrefix s $"info.portmaster." then Ret (Some (mkRR $"info.portmaster." 16 ClassINET 0 (DataOther s)))
  else Err $"syntax error".
#[export] Instance text : RRText := {| RRString rr := RRName rr; NewRR := parseRR |}.
Definition app : Process := FirewallDemo.proc $"local/app" DnsFilterDemo.lp.
#[export] Instance server : NameserverEnv := {|
  hostname := $"laptop."; networkServiceMode := true; filterEnabled := true; processOf _ _ := app; GetNetworkHost _ := Ret app |}.
Definition request : Request := mkRequest 7 [mkQuestion $"NAS.lan." TypeA ClassINET].
Definition moment : Moment (S := gmap str NameRecord) := mkMoment (second * 1000) false (second * 1000) None (second * 1000) (second * 1001) (second * 1002) (second * 1002) [].
Definition start : Server (S := gmap str NameRecord) := mkServer ResolveDemo.world ∅ ∅ [] [].
Definition handle (g : Cfg) := handleRequest g ResolveDemo.settings moment (Some ([10; 0; 0; 9], 5353)) request start.
Lemma server_ok : serverEnvOk (St := gmap str NameRecord).
Proof.
  split.
  - intros i r q rr H. injection H as <-. by eexists.
  - intros d q st n H. simpl in H. destruct (st !! makeNameRecordKey d q) as [x|]; [|discriminate H]. simpl in H.
    destruct (NRIsValid x) eqn:E; [|discriminate H]. injection H as <-. unfold NRIsValid in E.
    destruct (NameRecords.Resolver x); [by eexists|discriminate E].
Defined.
Lemma app_ok b : profileInUse (FirewallDemo.cfg b) DnsFilterDemo.lp.
Proof.
  split; [|destruct b; vm_compute; discriminate].
  exists 0%nat, (FirewallDemo.cfg b), (FirewallDemo.app DnsFilterDemo.settings false). split; [apply nsteps_O|lia].
Defined.
End NameserverDemo.
Import NameserverDemo.
(** What is sent to the app: code and addresses. *)
Definition shown (res : outcome str (option Reply * Server (S := gmap str NameRecord))) : option (Z * list RData) :=
  match res with Ret (Some r, _) => Some (Rcode r, map Data (RpAnswer r)) | _ => None end.
(** With scopes blocked the router is not asked; else its answer is given to the app. *)
Lemma requests_filtered_witness :
  shown (handle (FirewallDemo.cfg false)) = Some (RcodeSuccess, [DataA [192; 168; 1; 9]]) /\
  shown (handle (FirewallDemo.cfg true)) = Some (RcodeSuccess, [DataA [0; 0; 0; 17]]) /\
  exists reply srv', handle (FirewallDemo.cfg true) = Ret (reply, srv') /\ sent (resolverWorld srv') = [] /\
    savedIPs srv' = [] /\ map verdict (savedConns srv') = [VerdictBlock].
Proof.
  split; [vm_compute; reflexivity|]. split; [vm_compute; reflexivity|].
  destruct (checkRequest (Some ([10; 0; 0; 9], 5353)) request) as [r|[[[q name] ip] port]] eqn:Eq; [vm_compute in Eq; discriminate|].
  assert (q = InitPublicSuffixData (mkQuery $"nas.lan." TypeA false false false false [] [])) as Hq
    by (vm_compute in Eq |- *; congruence).
  destruct (requests_filtered (NE := server) (RT := text) (DL := dns) (FirewallDemo.cfg true) ResolveDemo.settings moment _ request q name ip port app DnsFilterDemo.lp ∅ start
    (FirewallDemo.env_ok ProfileDemo.fetch) server_ok eq_refl Eq eq_refl) as (reply & srv' & Hh & _ & Hb);
    [subst q; vm_compute in Eq; injection Eq as <- <- <-; reflexivity|reflexivity|apply app_ok|].
  exists reply, srv'. split; [exact Hh|]. lapply Hb; [clear Hb; intros Hb|subst q; vm_compute; reflexivity].
  destruct Hb as (_ & H1 & H2 & _ & c & Hv & H3).
  rewrite H1, H2, H3. split; [reflexivity|]. split; [reflexivity|]. cbn [savedConns start Datatypes.app map]. rewrite Hv. subst q. vm_compute. reflexivity.
Defined.
